(* ===== verification/_CoqProject ===== *)
-Q . S2P
Prelude.v
JsonScan.v
JsonGrammar.v
JsonTriples.v
JsonValues.v
JsonTop.v
JsonPath.v
JsonProps.v
Hex.v
NetAddr.v
Cursor.v
Trace.v
CoreTypes.v
Serde.v
ToySerde.v
DocId.v
Fields.v
Bulk.v
Query.v
Spi.v
Tenancy.v
PlacementTable.v
Sink.v
Wal.v
WalPower.v
RawConfig.v
Config.v
Control.v
Affinity.v
Breaker.v
Plan.v
ReadPath.v
ObjectText.v
SearchScan.v
Prog.v
Runs.v
Effects.v
Retry.v
HttpSink.v
Connector.v
SinkPools.v
AsyncWrite.v
BulkPrep.v
BulkFlow.v
BulkLedger.v
BulkStream.v
BulkQueue.v
ReqTrace.v
CursorBody.v
FanOut.v
MultiRead.v
Observe.v
DirectiveStore.v
Metrics.v
Otlp.v
Engine.v
EngineSafe.v
StreamSafe.v
FanoutQueue.v
Memory.v
Signed.v
RefTenancy.v
Wire.v
Migration.v
Ingress.v
Server.v
ServerStores.v
Proxy.v
Capturing.v
CaptureLog.v
Grpc.v
Deploy.v
Tls.v
Lifecycle.v
GrpcListener.v
Bench.v
BenchReport.v
XTask.v
