(* ===== verification/Prelude.v ===== *)
(** * osproxy: a verification library for the multi-tenant OpenSearch proxy

    osproxy stands between the tenants of a service and the OpenSearch clusters that hold
    their documents.  A request comes in over HTTP, is authenticated, is attributed to a
    partition (a tenant), and is rewritten so that it touches only that partition: documents
    get the partition's field and an id that carries it, searches get a filter, cursors get a
    signature.  This library translates the proxy's own code, the crates under
    [crates/], into definitions, and proves what makes it correct.  This file is the prelude:
    bytes, strings, results, integers, the tactics and the lemmas the other files share.

    ** The parts, and how they are put together

    The code is asynchronous and calls out at many places: to the router, the sink, the
    clock, the queue.  [Prog] models an [async fn] as a program, a tree of calls each with a
    continuation for every answer, whose meaning is the set of its traces; and gives the
    operations that put programs together ([bind], [renaming] of the calls, [handling] each
    call of one layer by a program of the layer below).  The layers are then

    - [Ingress]: the transport's program for one connection's request, over the handler;
    - [Server]: the handler's program, over the engine and its own stores;
    - [Engine]: the pipeline's program for one request, over [Effects], the calls of the
      router, the sink seam, the queue and the clock;
    - [HttpSink]: the program of each sink operation, over the pool and the exchange;
    - [Wire] handles the engine's calls by the sink, and [Proxy] handles the transport's by
      the server over that: one program, from the bytes of a client to the requests that
      leave.  [Deploy] puts a loaded configuration in front of it.

    Data, bottom up (each file names its sources in its own header):

    - bytes and JSON: [JsonScan] (the scanner of [osproxy-core/src/json.rs]), [JsonGrammar],
      [JsonTriples], [JsonValues], [JsonTop], [JsonPath], [JsonProps] (its correctness),
      [Hex], [Serde] (the interface of serde_json) and [ToySerde] (an instance to run with);
    - identity and tracing: [Cursor], [Trace], [CoreTypes], [Signed] (the MACs of the binary);
    - rewriting ([osproxy-rewrite]): [DocId], [Fields], [Bulk], [Query], and [ObjectText] (what a
      parser reads of what they write);
    - tenancy ([osproxy-spi], [osproxy-tenancy], [osproxy-control]): [Spi], [Tenancy],
      [PlacementTable], [Control], [Affinity], [RefTenancy] (the tenancy of the binary), and
      [Migration] (engines that serve over the table while the controller moves partitions);
    - the sink ([osproxy-sink]): [Sink] (the seam), [Breaker], [HttpSink], [SinkPools] (the pools that
      concurrent operations share), [Connector] (what a connection is made of), [Memory];
    - the engine ([osproxy-engine]): [Plan], [ReadPath], [SearchScan], [Effects], [Retry],
      [AsyncWrite], [BulkPrep], [BulkFlow], [BulkStream], [BulkQueue], [CursorBody],
      [FanOut], [MultiRead], [ReqTrace], [Engine], and the proofs about them [BulkLedger],
      [EngineSafe], [StreamSafe];
    - observability ([osproxy-observe]): [Observe], [DirectiveStore] (with [osproxy-etcd]), [Metrics],
      [Otlp] (with [osproxy-otlp]);
    - the edges: [Ingress] (transport), [Server] (handler, authentication, headers),
      [ServerStores] (the stores that concurrent requests share),
      [Lifecycle] (the accept loop and its drain), [Grpc], [GrpcListener], [Capturing] and [FanoutQueue] (what
      goes to the brokers), [CaptureLog] (a capture, up to the broker),
      [Wal] (the capture log) and [WalPower] (power losses);
    - configuration: [NetAddr] (the standard library's address parser), [RawConfig] (files,
      environment, flags), [Config] (validation), [Deploy] (the wiring of [main.rs]), [Tls] (the
      crypto providers it builds);
    - beside the proxy: [Bench] and [BenchReport] (the performance gate of [osproxy-bench]) and [XTask] (the
      gates of the repository, [xtask]).

    ** How the model reads against the code

    A Rust function is a definition of the same name (with a prefix where two crates share
    one, as [mem_write] or [ref_placement]); a struct is a record, an enum an inductive type.
    [Result] and [?] are [Result] and the [let?] notation; [option] and [?] are stdpp's bind.
    Integers are [Z] with their width written out where the code can reach it ([u64_wrap],
    [u64_saturating_add], [parse_unsigned]).  Strings are their UTF-8 bytes.  What can panic
    or not terminate says so in its result ([JsonScan], [BulkStream]), and a theorem says it
    does not, or exactly when it does.  State shared between tasks is a step relation over interleavings
    ([PlacementTable], [Control], [Wal], the budget of [Ingress],
    the listener of [Lifecycle], the counters of [Metrics], the delivery worker of
    [Capturing], the watch of [DirectiveStore], the pools of [Connector]) or is accessed by
    atomic calls whose answers are arbitrary ([HttpSink], [Server]); [SinkPools], [Migration] and
    [ServerStores] give the calls of the sink, of the engines and of the handler the answers
    of their state, in a run ([Runs]).

    Third-party code is an interface: serde_json ([Serde], [SerdeInt], [SerdeString]), wide
    ([Wide]), memchr ([Memchr], [Memmem]), hyper and http ([HttpTypes], [UriTypes]), the MAC
    ([Hmac]), rustls ([Rustls]), the broker constructors of the start-up (the fields of
    [Deploy.World]).  What a
    theorem assumes of them is a law of the class, and each class has an instance that the
    concrete runs use.

    ** What the theorems show

    - End to end: every HTTP request that leaves the proxy is accounted for by an
      authenticated, authorized request and an isolated call of the engine ([Proxy]), and a
      binary started from settings that load does what those settings promise ([Deploy]).
    - Isolation: the engine's calls are isolated on every endpoint ([EngineSafe],
      [StreamSafe]); documents of other tenants are left as they were when a request is run
      against a store ([Memory]), under the binary's own tenancy too ([RefTenancy]); searches
      are filtered and answers shaped ([ReadPath], [SearchScan], [Query]).
    - Accounting: a bulk answers every item once and dispatches only what was admitted
      ([BulkLedger]); its streamed and queued variants agree with it ([BulkStream],
      [BulkQueue]); multi-reads answer in order ([MultiRead]); every request is answered.
    - Concurrency: admitted writes are current, a flip outlives every write
      ([PlacementTable], [Control]), and a migration loses none that the engine sends
      ([Migration]); accepted records are delivered or held, across crashes
      and power losses, unless they were written behind a torn record that a restart had taken
      in ([Wal], [WalPower]), from the request that is captured to the broker
      ([CaptureLog]); reservations stay under the ceiling ([Ingress]);
      operations share the sink's pools safely ([SinkPools]) and requests the handler's stores
      ([ServerStores]);
      a listener drains within its deadline and counts its connections ([Lifecycle]); counters
      balance ([Metrics]); a watched snapshot follows its key ([DirectiveStore]).
    - Round trips and refinements: ids, cursors, trace headers, settings written and read back
      ([DocId], [Cursor], [Trace], [RawConfig]); the scanner is its grammar ([JsonProps]); the
      wire refines the engine ([Wire]).
    - Fail-closed behaviour: forged cursors and directives are refused ([Cursor], [Signed],
      [Observe]); the control surface needs its token ([Server]); a configuration opens
      nothing by default and its errors name the setting to fix ([Config]); TLS is served as
      it was asked for ([Tls]) and [https] never travels in the clear ([Connector]).

    ** Fuel and bounds

    Recursion is structural where it can be.  The scanner's mutual recursion spends a level
    per call: [value_fuel] is three times the bytes left plus two, which
    [JsonProps.scanner_never_panics_or_loops] shows to be enough; the same theorem counts how
    deep [skip_value] calls itself, as often as brackets are open, which the code does not limit.  Loops over a text
    ([next_line], [construct_loop], [frame_loop], [trim_loop], [utf8_chars]) take its length,
    each step consuming a byte.  The streamed transforms ([SearchScan.unfold_stream],
    [BulkStream.stream_loop]) take the size of what is left to read, and their theorems say
    the result is the one any larger fuel gives, or that [Unfinished] does not occur.  Retry
    is bounded by its policy.

    ** Not modelled

    Sockets, TLS handshakes and HTTP framing, which are the libraries'; the stack of a thread; the clients of the
    brokers, of etcd and of the collector, of which only what the code relies on is said; the
    timing of tasks beyond the interleavings above; disk faults other than a short append and a cut
    log; what is printed: the console lines of the binary and of [xtask], the JSON of
    [osproxy-bench], and [Debug] instances.   *)
From stdpp Require Import base option list strings numbers.
From Stdlib Require Import Ascii ZArith Lia.

Declare Scope osp_scope.
Delimit Scope osp_scope with osp.
Open Scope osp_scope.

(** ** Bytes and strings

    A Rust [u8] is an [ascii] (eight bits).  [&[u8]] and [Vec<u8>] are lists of
    bytes; a Rust [str]/[String] is its UTF-8 byte sequence, so [as_bytes] is the
    identity and [String::from_utf8] is a validity check. *)
Abbreviation byte := ascii (only parsing).
Abbreviation bytes := (list ascii) (only parsing).
Abbreviation str := (list ascii) (only parsing).

(** String literals of the source. *)
Definition lit (s : string) : str := String.list_ascii_of_string s.

(** The value of a byte, and the byte of a value taken modulo 256. *)
Definition bz (c : byte) : Z := Z.of_N (N_of_ascii c).
Definition byte_of (z : Z) : byte := ascii_of_N (Z.to_N (z mod 256)).

Definition str_eqb (a b : str) : bool := bool_decide (a = b).

(** [o == Some(c)] for an optional byte. *)
Definition is_byte (c : byte) (o : option byte) : bool :=
  match o with Some d => Ascii.eqb d c | None => false end.

(** [u8::is_ascii_digit], [u8::is_ascii_whitespace] (space, [\t], [\n], [\x0C],
    [\r]) and [u8::to_ascii_lowercase] of the Rust standard library. *)
Definition is_ascii_digit (c : byte) : bool := (48 <=? bz c)%Z && (bz c <=? 57)%Z.
Definition is_ascii_whitespace (c : byte) : bool :=
  (bz c =? 32)%Z || (bz c =? 9)%Z || (bz c =? 10)%Z || (bz c =? 12)%Z || (bz c =? 13)%Z.
Definition to_ascii_lowercase (c : byte) : byte :=
  if (65 <=? bz c)%Z && (bz c <=? 90)%Z then byte_of (bz c + 32) else c.
Definition eq_ignore_ascii_case (a b : str) : bool :=
  str_eqb (to_ascii_lowercase <$> a) (to_ascii_lowercase <$> b).

(** ** Results *)
Inductive Result (A E : Type) : Type :=
| Ok (a : A)
| Err (e : E).
Arguments Ok {A E} a.
Arguments Err {A E} e.

Definition rbind {A B E} (r : Result A E) (f : A -> Result B E) : Result B E :=
  match r with Ok a => f a | Err e => Err e end.
Definition map_err {A E F} (f : E -> F) (r : Result A E) : Result A F :=
  match r with Ok a => Ok a | Err e => Err (f e) end.
Definition ok_or {A E} (o : option A) (e : E) : Result A E :=
  match o with Some a => Ok a | None => Err e end.
Definition ok {A E} (r : Result A E) : option A :=
  match r with Ok a => Some a | Err _ => None end.
Definition is_ok {A E} (r : Result A E) : bool :=
  match r with Ok _ => true | Err _ => false end.

(** Rust's [?]: the value of an [Ok], or an early return of the error. *)
Notation "'let?' x ':=' r 'in' k" := (rbind r (fun x => k))
  (at level 10, x pattern, r at level 100, k at level 200) : osp_scope.

(** [iter.map(f).collect::<Result<Vec<_>, _>>()]: stops at the first error. *)
Fixpoint collect {A B E} (f : A -> Result B E) (l : list A) : Result (list B) E :=
  match l with
  | [] => Ok []
  | x :: l => let? y := f x in let? ys := collect f l in Ok (y :: ys)
  end.

#[export] Instance result_eq_dec {A E} `{EqDecision A, EqDecision E} :
  EqDecision (Result A E).
Proof. solve_decision. Defined.

(** ** Slices and strings of the standard library *)

(** The length of the longest prefix whose bytes satisfy [f]: what a
    [while f(peek) { i += 1 }] loop advances by. *)
Fixpoint count_while {A} (f : A -> bool) (l : list A) : nat :=
  match l with
  | [] => 0
  | c :: l => if f c then S (count_while f l) else 0
  end.

(** [iter().position(f)]. *)
Fixpoint position {A} (f : A -> bool) (l : list A) : option nat :=
  match l with
  | [] => None
  | c :: l => if f c then Some 0 else S <$> position f l
  end.

(** [str::find(char)] / [memchr]. *)
Definition find_byte (c : byte) (l : bytes) : option nat := position (Ascii.eqb c) l.

(** [str::split(char)]: always at least one piece. *)
Fixpoint split (c : byte) (l : str) : list str :=
  match l with
  | [] => [[]]
  | d :: l =>
      if Ascii.eqb c d then [] :: split c l
      else match split c l with
           | [] => [[d]]
           | piece :: rest => (d :: piece) :: rest
           end
  end.

(** [str::split_once(char)]. *)
Definition split_once (c : byte) (l : str) : option (str * str) :=
  i ← find_byte c l; Some (take i l, drop (S i) l).

(** [str::splitn(n, char)]: at most [n] pieces, the last one taking what is left. *)
Fixpoint splitn (n : nat) (c : byte) (l : str) : list str :=
  match n with
  | 0 => []
  | 1 => [l]
  | S n =>
      match find_byte c l with
      | Some i => take i l :: splitn n c (drop (S i) l)
      | None => [l]
      end
  end.

Fixpoint strip_prefix (pre l : str) : option str :=
  match pre, l with
  | [], _ => Some l
  | c :: pre, d :: l => if Ascii.eqb c d then strip_prefix pre l else None
  | _ :: _, [] => None
  end.
Definition starts_with (pre l : str) : bool :=
  match strip_prefix pre l with Some _ => true | None => false end.
Definition strip_suffix (suf l : str) : option str :=
  reverse <$> strip_prefix (reverse suf) (reverse l).
Fixpoint contains (pat l : str) : bool :=
  starts_with pat l || match l with [] => false | _ :: l => contains pat l end.
(** [pieces.join(sep)]. *)
Fixpoint join (sep : str) (l : list str) : str :=
  match l with
  | [] => []
  | [x] => x
  | x :: l => x ++ sep ++ join sep l
  end.

(** ** UTF-8 *)

(** [char::from_u32]: every code point but the surrogates. *)
Definition char_from_u32 (code : Z) : option Z :=
  if (0 <=? code)%Z && (code <=? 1114111)%Z
     && negb ((55296 <=? code)%Z && (code <=? 57343)%Z)
  then Some code else None.

(** [char::encode_utf8]. *)
Definition encode_utf8 (c : Z) : bytes :=
  (if c <? 128 then [byte_of c]
   else if c <? 2048 then [byte_of (192 + c / 64); byte_of (128 + c mod 64)]
   else if c <? 65536 then
     [byte_of (224 + c / 4096); byte_of (128 + (c / 64) mod 64); byte_of (128 + c mod 64)]
   else
     [byte_of (240 + c / 262144); byte_of (128 + (c / 4096) mod 64);
      byte_of (128 + (c / 64) mod 64); byte_of (128 + c mod 64)])%Z.

Definition in_range (lo hi : Z) (c : byte) : bool := (lo <=? bz c)%Z && (bz c <=? hi)%Z.

(** The bytes left after one well-formed UTF-8 character (the table of the Unicode
    standard that [String::from_utf8] checks), [None] if there is none. *)
Definition utf8_char (l : bytes) : option bytes :=
  let cont := in_range 128 191 in
  match l with
  | c0 :: l1 =>
      if in_range 0 127 c0 then Some l1 else
      match l1 with
      | c1 :: l2 =>
          if in_range 194 223 c0 then if cont c1 then Some l2 else None else
          match l2 with
          | c2 :: l3 =>
              if in_range 224 239 c0 then
                let lo := if (bz c0 =? 224)%Z then 160%Z else 128%Z in
                let hi := if (bz c0 =? 237)%Z then 159%Z else 191%Z in
                if in_range lo hi c1 && cont c2 then Some l3 else None
              else
              match l3 with
              | c3 :: l4 =>
                  if in_range 240 244 c0 then
                    let lo := if (bz c0 =? 240)%Z then 144%Z else 128%Z in
                    let hi := if (bz c0 =? 244)%Z then 143%Z else 191%Z in
                    if in_range lo hi c1 && cont c2 && cont c3 then Some l4 else None
                  else None
              | [] => None
              end
          | [] => None
          end
      | [] => None
      end
  | [] => None
  end.

(** A byte string is UTF-8 when it is a sequence of characters; the fuel is its
    length, which is enough because every character takes a byte. *)
Fixpoint utf8_chars (fuel : nat) (l : bytes) : bool :=
  match l, fuel with
  | [], _ => true
  | _ :: _, 0 => false
  | _ :: _, S fuel => match utf8_char l with Some l => utf8_chars fuel l | None => false end
  end.
Definition utf8_valid (l : bytes) : bool := utf8_chars (length l) l.
Definition from_utf8 (l : bytes) : option str := if utf8_valid l then Some l else None.

(** The [White_Space] characters [str::trim] removes, encoded. *)
Definition unicode_ws : list bytes :=
  encode_utf8 <$> [9; 10; 11; 12; 13; 32; 133; 160; 5760; 8192; 8193; 8194; 8195; 8196; 8197;
                   8198; 8199; 8200; 8201; 8202; 8232; 8233; 8239; 8287; 12288]%Z.
Definition strip_first (strip : bytes -> str -> option str) (l : str) : option str :=
  foldr (fun w o => match strip w l with Some r => Some r | None => o end) None unicode_ws.
Fixpoint trim_loop (strip : bytes -> str -> option str) (fuel : nat) (l : str) : str :=
  match fuel with
  | 0 => l
  | S fuel => match strip_first strip l with Some r => trim_loop strip fuel r | None => l end
  end.
(** [str::trim]; a white space character takes at least a byte, so the length is
    fuel enough. *)
Definition trim_start (l : str) : str := trim_loop strip_prefix (length l) l.
Definition trim_end (l : str) : str := trim_loop strip_suffix (length l) l.
Definition trim (l : str) : str := trim_end (trim_start l).

(** ** Machine integers *)
Definition u64_max : Z := 18446744073709551615.
Definition u32_max : Z := 4294967295.
(** A [usize] has 64 bits. *)
Definition usize_max : Z := u64_max.
(** [str::parse] to an unsigned integer type: an optional plus sign and digits, without
    overflow. *)
Definition parse_unsigned (max : Z) (s : str) : option Z :=
  let ds := match s with c :: s' => if Ascii.eqb c "+" then s' else s | [] => [] end in
  match ds with
  | [] => None
  | _ => if forallb is_ascii_digit ds
         then let n := foldl (fun n c => n * 10 + (bz c - 48))%Z 0%Z ds in
              if (max <? n)%Z then None else Some n
         else None
  end.
Definition u64_wrap (z : Z) : Z := z mod 18446744073709551616.
(** [u64::to_be_bytes] (for [n = 8]). *)
Fixpoint be_bytes (n : nat) (h : Z) : bytes :=
  match n with 0 => [] | S n => be_bytes n (h / 256) ++ [byte_of h] end.
Definition u64_saturating_add (a b : Z) : Z := Z.min u64_max (a + b).
Definition u64_saturating_sub (a b : Z) : Z := Z.max 0 (a - b).

(** ** Shared lemmas *)
Create HintDb osp.

(** A step of a [?] chain, taken or left early. *)
Lemma rbind_Ok {A B E} (r : Result A E) (f : A -> Result B E) b : rbind r f = Ok b <-> exists a, r = Ok a /\ f a = Ok b.
Proof. destruct r as [a|e]; cbn; (split; [intros; naive_solver|]); intros (x & Hx & ?); congruence. Qed.
Lemma rbind_Err {A B E} (r : Result A E) (f : A -> Result B E) e :
  rbind r f = Err e <-> r = Err e \/ exists a, r = Ok a /\ f a = Err e.
Proof. destruct r as [a|e']; cbn; naive_solver. Qed.
Lemma ok_or_Ok {A E} (o : option A) (e : E) a : ok_or o e = Ok a <-> o = Some a.
Proof. destruct o; cbn; naive_solver. Qed.
Lemma ok_or_Err {A E} (o : option A) (e e' : E) : ok_or o e = Err e' <-> o = None /\ e = e'.
Proof. destruct o; cbn; naive_solver. Qed.

Lemma is_byte_spec c o : is_byte c o = true <-> o = Some c.
Proof. destruct o as [d|]; cbn; [rewrite Ascii.eqb_eq|]; naive_solver. Qed.

Lemma str_eqb_eq a b : str_eqb a b = true <-> a = b.
Proof. unfold str_eqb. apply bool_decide_eq_true. Qed.
Lemma str_eqb_refl a : str_eqb a a = true.
Proof. by apply str_eqb_eq. Qed.
Lemma str_eqb_neq a b : str_eqb a b = false <-> a <> b.
Proof. unfold str_eqb. apply bool_decide_eq_false. Qed.

Section Lists.
Context {A : Type}.
Implicit Types (f : A -> bool) (l t r : list A).

Lemma count_while_le f l : count_while f l <= length l.
Proof. induction l as [|c l IH]; cbn; [done|]. destruct (f c); lia. Qed.

Lemma count_while_app f t r :
  Forall (fun c => f c = true) t ->
  (forall c, head r = Some c -> f c = false) ->
  count_while f (t ++ r) = length t.
Proof.
  intros Ht Hr. induction Ht as [|c t Hc Ht IH]; cbn.
  - destruct r as [|c r]; cbn; [done|]. by rewrite (Hr c).
  - by rewrite Hc, IH.
Qed.

(** The prefix a [while] loop passes over and the byte it stops at. *)
Lemma count_while_split f l :
  exists t r, l = t ++ r /\ length t = count_while f l
    /\ Forall (fun c => f c = true) t /\ (forall c, head r = Some c -> f c = false).
Proof.
  induction l as [|c l (t & r & -> & Hn & Ht & Hr)]; cbn.
  - exists [], []. by repeat split.
  - destruct (f c) eqn:Hc.
    + exists (c :: t), r. cbn. rewrite Hn. repeat split; auto.
    + exists [], (c :: t ++ r). repeat split; auto. by intros ? [= <-].
Qed.

Lemma position_Some f l n :
  position f l = Some n <->
  exists t c r, l = t ++ c :: r /\ length t = n
    /\ Forall (fun c => f c = false) t /\ f c = true.
Proof.
  revert n. induction l as [|c l IH]; intros n; cbn.
  - split; [done|]. by intros (t & c & r & Hl & _); destruct t.
  - destruct (f c) eqn:Hc.
    + split.
      * intros [= <-]. exists [], c, l. auto.
      * intros (t & d & r & Hl & <- & Ht & Hd). destruct t as [|e t]; [done|].
        injection Hl as -> ->. inversion Ht; congruence.
    + rewrite fmap_Some. setoid_rewrite IH. split.
      * intros (m & (t & d & r & -> & <- & Ht & Hd) & ->).
        exists (c :: t), d, r. repeat split; auto.
      * intros (t & d & r & Hl & <- & Ht & Hd). destruct t as [|e t].
        { injection Hl as -> ->. congruence. }
        injection Hl as -> ->. inversion Ht; subst. exists (length t).
        split; [|done]. by exists t, d, r.
Qed.

Lemma position_None f l :
  position f l = None <-> Forall (fun c => f c = false) l.
Proof.
  induction l as [|c l IH]; cbn; [by split|].
  rewrite Forall_cons_iff. destruct (f c) eqn:Hc; [by split; [|intros []]|].
  rewrite fmap_None, IH. naive_solver.
Qed.
End Lists.

Lemma strip_prefix_app pre l : strip_prefix pre (pre ++ l) = Some l.
Proof. induction pre as [|c pre IH]; cbn; [done|]. by rewrite Ascii.eqb_refl. Qed.

Lemma strip_prefix_Some pre l r : strip_prefix pre l = Some r <-> l = pre ++ r.
Proof.
  split; [|intros ->; apply strip_prefix_app].
  revert l. induction pre as [|c pre IH]; intros [|d l]; cbn; try naive_solver.
  destruct (Ascii.eqb c d) eqn:Hc; [|done]. apply Ascii.eqb_eq in Hc as ->.
  intros H. by rewrite (IH _ H).
Qed.

Lemma starts_with_spec pre l : starts_with pre l = true <-> exists r, l = pre ++ r.
Proof.
  unfold starts_with. destruct (strip_prefix pre l) as [r|] eqn:H.
  - apply strip_prefix_Some in H. naive_solver.
  - split; [done|]. intros [r ->]. by rewrite strip_prefix_app in H.
Qed.

Lemma strip_suffix_Some suf l r : strip_suffix suf l = Some r <-> l = r ++ suf.
Proof.
  unfold strip_suffix. rewrite fmap_Some. setoid_rewrite strip_prefix_Some.
  split.
  - intros (x & Hx & ->). rewrite <- (reverse_involutive l), Hx.
    by rewrite reverse_app, reverse_involutive.
  - intros ->. exists (reverse r). by rewrite reverse_app, reverse_involutive.
Qed.

Lemma bz_bound c : (0 <= bz c < 256)%Z.
Proof. unfold bz. pose proof (N_ascii_bounded c). lia. Qed.

Lemma byte_of_bz c : byte_of (bz c) = c.
Proof.
  unfold byte_of. rewrite Z.mod_small by apply bz_bound.
  unfold bz. by rewrite N2Z.id, ascii_N_embedding.
Qed.

Lemma bz_byte_of z : bz (byte_of z) = (z mod 256)%Z.
Proof.
  unfold bz, byte_of. pose proof (Z.mod_pos_bound z 256).
  rewrite N_ascii_embedding, Z2N.id; lia.
Qed.

Lemma from_utf8_Some l s : from_utf8 l = Some s <-> s = l /\ utf8_valid l = true.
Proof. unfold from_utf8. destruct (utf8_valid l); naive_solver. Qed.

(** The first occurrence of a byte cuts a string in two. *)
Lemma find_byte_Some c l i :
  find_byte c l = Some i <-> exists a b, l = a ++ c :: b /\ length a = i /\ c ∉ a.
Proof.
  unfold find_byte. rewrite position_Some. split.
  - intros (t & d & r & -> & <- & Ht & Hd%Ascii.eqb_eq). subst d. exists t, r. repeat split.
    intros Hc. rewrite Forall_forall in Ht. specialize (Ht c). rewrite Ascii.eqb_refl in Ht.
    discriminate Ht. by apply list_elem_of_In.
  - intros (a & b & -> & <- & Hc). exists a, c, b. repeat split; [|by apply Ascii.eqb_refl].
    apply Forall_forall. intros d Hd%list_elem_of_In. apply Ascii.eqb_neq. by intros ->.
Qed.
Lemma find_byte_None c l : find_byte c l = None <-> c ∉ l.
Proof.
  unfold find_byte. rewrite position_None, Forall_forall. split.
  - intros H Hc. specialize (H c). rewrite Ascii.eqb_refl in H. discriminate H.
    by apply list_elem_of_In.
  - intros Hc d Hd%list_elem_of_In. apply Ascii.eqb_neq. by intros ->.
Qed.
Lemma find_byte_app c a b : c ∉ a -> find_byte c (a ++ c :: b) = Some (length a).
Proof. intros Ha. apply find_byte_Some. by exists a, b. Qed.

Lemma split_cut c a b : c ∉ a -> split c (a ++ c :: b) = a :: split c b.
Proof.
  induction a as [|d a IH]; intros Ha; cbn.
  - by rewrite Ascii.eqb_refl.
  - apply not_elem_of_cons in Ha as [Hne Ha].
    rewrite (proj2 (Ascii.eqb_neq c d)) by done. by rewrite IH.
Qed.
Lemma split_single c a : c ∉ a -> split c a = [a].
Proof.
  induction a as [|d a IH]; intros Ha; cbn; [done|].
  apply not_elem_of_cons in Ha as [Hne Ha].
  rewrite (proj2 (Ascii.eqb_neq c d)) by done. by rewrite IH.
Qed.

Lemma split_nonempty c l : split c l <> [].
Proof. destruct l; cbn; [done|]. by repeat case_match. Qed.
Lemma split_pieces c l : Forall (fun p => c ∉ p) (split c l).
Proof.
  induction l as [|d l IH]; cbn; [repeat constructor; by apply not_elem_of_nil|].
  destruct (Ascii.eqb_spec c d) as [->|Hne]; [constructor; [apply not_elem_of_nil|done]|].
  destruct (split c l) as [|p ps]; [by repeat constructor; apply not_elem_of_cons; split; [|apply not_elem_of_nil]|].
  apply Forall_cons_iff in IH as [Hp Hps]. constructor; [by apply not_elem_of_cons|done].
Qed.
Lemma split_join c ps : ps <> [] -> Forall (fun p => c ∉ p) ps -> split c (join [c] ps) = ps.
Proof.
  intros Hne Hps. induction Hps as [|p ps Hp Hps IH]; [done|]. destruct ps as [|q ps]; [by apply split_single|].
  change (join [c] (p :: q :: ps)) with (p ++ c :: join [c] (q :: ps)). rewrite split_cut by done. by rewrite IH.
Qed.

Lemma split_once_cut c a b : c ∉ a -> split_once c (a ++ c :: b) = Some (a, b).
Proof.
  intros Ha. unfold split_once. rewrite find_byte_app by done. cbn. rewrite take_app_length. do 2 f_equal.
  change (c :: b) with ([c] ++ b). rewrite app_assoc. replace (S (length a)) with (length (a ++ [c])) by (rewrite length_app; cbn; lia).
  by rewrite drop_app_length.
Qed.
Lemma splitn_cut n c a b : c ∉ a -> splitn (S (S n)) c (a ++ c :: b) = a :: splitn (S n) c b.
Proof.
  intros Ha. cbn [splitn]. rewrite find_byte_app by done. rewrite take_app_length. f_equal.
  change (c :: b) with ([c] ++ b). rewrite app_assoc.
  replace (S (length a)) with (length (a ++ [c])) by (rewrite length_app; cbn; lia).
  by rewrite drop_app_length.
Qed.

Lemma length_be_bytes n h : length (be_bytes n h) = n.
Proof. revert h. induction n as [|n IH]; intros h; cbn; [done|]. rewrite length_app, IH. cbn. lia. Qed.

Lemma be_bytes_inj n h1 h2 :
  (0 <= h1 < 256 ^ Z.of_nat n)%Z -> (0 <= h2 < 256 ^ Z.of_nat n)%Z ->
  be_bytes n h1 = be_bytes n h2 -> h1 = h2.
Proof.
  revert h1 h2. induction n as [|n IH]; intros h1 h2 H1 H2 Heq; [cbn in *; lia|].
  rewrite Nat2Z.inj_succ, Z.pow_succ_r in H1, H2 by lia.
  cbn in Heq. apply app_inj_tail in Heq as [Heq Hb].
  apply (f_equal bz) in Hb. rewrite !bz_byte_of in Hb.
  apply IH in Heq; [|split; [apply Z.div_pos; lia|apply Z.div_lt_upper_bound; lia]..].
  rewrite (Z.div_mod h1 256), (Z.div_mod h2 256) by lia. congruence.
Qed.

(** Exclusive or stays within a power of two, and is cancellable. *)
Lemma lxor_bound n a b :
  (0 <= n)%Z -> (0 <= a < 2 ^ n)%Z -> (0 <= b < 2 ^ n)%Z -> (0 <= Z.lxor a b < 2 ^ n)%Z.
Proof.
  intros Hn Ha Hb. assert (H : (0 <= Z.lxor a b)%Z) by (apply Z.lxor_nonneg; lia).
  split; [done|]. destruct (Z.eq_dec (Z.lxor a b) 0) as [->|Hne]; [lia|].
  apply Z.log2_lt_pow2; [lia|]. eapply Z.le_lt_trans; [apply Z.log2_lxor; lia|].
  assert (Hlog : forall c, (0 <= c < 2 ^ n)%Z -> (Z.log2 c < n)%Z \/ n = 0%Z).
  { intros c Hc. destruct (Z.eq_dec c 0) as [->|]; [cbn; lia|]. left. apply Z.log2_lt_pow2; lia. }
  destruct (Hlog a Ha) as [?| ->]; [|cbn in *; assert (a = 0%Z) as -> by lia;
    assert (b = 0%Z) as -> by lia; done].
  destruct (Hlog b Hb) as [?| ->]; [lia|]. cbn in *.
  assert (a = 0%Z) as -> by lia. assert (b = 0%Z) as -> by lia. done.
Qed.
Lemma lxor_cancel_r a b c : Z.lxor a c = Z.lxor b c -> a = b.
Proof.
  intros H. apply (f_equal (fun x => Z.lxor x c)) in H.
  by rewrite !Z.lxor_assoc, Z.lxor_nilpotent, !Z.lxor_0_r in H.
Qed.

(** Concatenation keeps UTF-8. *)
Lemma utf8_char_app a b r : utf8_char a = Some r -> utf8_char (a ++ b) = Some (r ++ b).
Proof.
  destruct a as [|c0 [|c1 [|c2 [|c3 a]]]]; [done|..]; cbn [utf8_char app];
    repeat (case_match; try done); by intros [= <-].
Qed.
Lemma utf8_chars_mono n m l : utf8_chars n l = true -> utf8_chars (n + m) l = true.
Proof.
  revert l. induction n as [|n IH]; intros [|c l]; cbn [utf8_chars Nat.add]; try done.
  - by destruct m.
  - destruct (utf8_char (c :: l)); [|done]. apply IH.
Qed.
Lemma utf8_chars_app n m a b :
  utf8_chars n a = true -> utf8_chars m b = true -> utf8_chars (n + m) (a ++ b) = true.
Proof.
  revert a. induction n as [|n IH]; intros [|c a]; cbn [utf8_chars]; intros Ha Hb; try done.
  - rewrite Nat.add_comm. by apply utf8_chars_mono.
  - destruct (utf8_char (c :: a)) as [r|] eqn:Hr; [|done].
    apply (utf8_char_app _ b) in Hr. cbn [Nat.add app utf8_chars]. cbn [app] in Hr. rewrite Hr.
    by apply IH.
Qed.
Lemma utf8_valid_app a b : utf8_valid a = true -> utf8_valid b = true -> utf8_valid (a ++ b) = true.
Proof. unfold utf8_valid. rewrite length_app. apply utf8_chars_app. Qed.
Lemma utf8_valid_cons c b : in_range 0 127 c = true -> utf8_valid b = true -> utf8_valid (c :: b) = true.
Proof.
  intros Hc Hb. apply (utf8_valid_app [c]); [|done]. unfold utf8_valid. cbn [length utf8_chars utf8_char].
  by rewrite Hc.
Qed.
Lemma ascii_utf8_valid t : Forall (fun c => in_range 0 127 c = true) t -> utf8_valid t = true.
Proof. induction 1; [done|by apply utf8_valid_cons]. Qed.
#[export] Hint Resolve utf8_valid_app utf8_valid_cons : osp.

Lemma join_cons sep x l : join sep (x :: l) = x ++ mjoin (app sep <$> l).
Proof.
  revert x. induction l as [|y l IH]; intros x.
  - cbn. by rewrite app_nil_r.
  - change (join sep (x :: y :: l)) with (x ++ sep ++ join sep (y :: l)). rewrite IH.
    cbn. by rewrite <- app_assoc.
Qed.
Lemma utf8_join ts : Forall (fun t => utf8_valid t = true) ts -> utf8_valid (join (lit ",") ts) = true.
Proof.
  induction 1 as [|t ts Ht Hts IH]; [done|]. destruct ts as [|u ts]; [done|].
  apply utf8_valid_app; [done|]. by apply (utf8_valid_cons ",").
Qed.
