(* ===== verification/JsonScan.v ===== *)
(** * The byte-level JSON scanner ([crates/osproxy-core/src/json.rs])

    [Parser] is the cursor over the raw bytes; each parser method is a
    computation in the small state monad [scan], whose outcomes are a value, a
    [JsonError], a panic (an out-of-range slice or index) and running out of
    recursion fuel.  The last two never happen (theorems below).  The stack that the
    recursion takes is not modelled; [JsonProps] says how deep it goes. *)
From stdpp Require Import base option list strings numbers.
From Stdlib Require Import Ascii ZArith Lia.
From S2P Require Import Prelude.

Open Scope osp_scope.

Inductive JsonError : Type :=
| Invalid
| NotAnObject
| PathNotScalar (path : str).

Record TopLevel : Type := MkTopLevel {
  insert_at : nat;
  empty : bool;
  keys : list str
}.

#[export] Instance JsonError_eq_dec : EqDecision JsonError.
Proof. solve_decision. Defined.

(** ** The vector unit

    The string scan goes through the third-party [wide] crate: a 32-lane byte
    vector with lane-wise comparisons and a lane bit mask.  The class is its
    interface with the documented meaning of the operations the code calls. *)
Class Wide := {
  u8x32 : Type;
  splat : byte -> u8x32;
  from_lanes : list byte -> u8x32;
  simd_eq : u8x32 -> u8x32 -> u8x32;
  simd_lt : u8x32 -> u8x32 -> u8x32;
  to_bitmask : u8x32 -> N;
  simd_eq_spec : forall l c k, length l = 32 ->
    N.testbit (to_bitmask (simd_eq (from_lanes l) (splat c))) (N.of_nat k)
    = match l !! k with Some d => Ascii.eqb d c | None => false end;
  simd_lt_spec : forall l c k, length l = 32 ->
    N.testbit (to_bitmask (simd_lt (from_lanes l) (splat c))) (N.of_nat k)
    = match l !! k with Some d => (bz d <? bz c)%Z | None => false end
}.

Definition SIMD_STEP : nat := 32.

Definition quote : byte := ascii_of_nat 34.
Definition backslash : byte := ascii_of_nat 92.

Definition is_string_boundary (c : byte) : bool :=
  Ascii.eqb c quote || Ascii.eqb c backslash || (bz c <? 32)%Z.

(** [u32::trailing_zeros] of a nonzero mask. *)
Fixpoint ctz (p : positive) : nat :=
  match p with xO p => S (ctz p) | _ => 0 end.
Definition trailing_zeros (m : N) : nat :=
  match m with N0 => 32 | Npos p => ctz p end.

Section Boundary.
Context {W : Wide}.

(** One chunk of the vector loop: the mask of the lanes that end a run. *)
Definition boundary_mask (chunk : bytes) : N :=
  let v := from_lanes chunk in
  N.lor (N.lor (to_bitmask (simd_eq v (splat quote)))
               (to_bitmask (simd_eq v (splat backslash))))
        (to_bitmask (simd_lt v (splat (byte_of 32)))).

(** [chunks_exact(SIMD_STEP).enumerate()] followed by the scalar tail; [i] counts
    the chunks done, [n] the chunks left. *)
Fixpoint boundary_chunks (n i : nat) (l : bytes) : option nat :=
  match n with
  | 0 => (fun pos => i * SIMD_STEP + pos) <$> position is_string_boundary l
  | S n =>
      let mask := boundary_mask (take SIMD_STEP l) in
      if (mask =? 0)%N then boundary_chunks n (S i) (drop SIMD_STEP l)
      else Some (i * SIMD_STEP + trailing_zeros mask)
  end.

Definition next_string_boundary (l : bytes) : option nat :=
  boundary_chunks (length l / SIMD_STEP) 0 l.

End Boundary.

(** ** The cursor and the scanning monad *)
Record Parser : Type := MkParser { buf : bytes; cur : nat }.
Definition new_parser (b : bytes) : Parser := MkParser b 0.
Definition bump (n : nat) (p : Parser) : Parser := MkParser (buf p) (cur p + n).
Definition rest (p : Parser) : bytes := drop (cur p) (buf p).

(** [Fail] carries the error of a [Result] method, or [tt] for an [Option] one;
    [Panic] is an out-of-range index or slice, [OutOfFuel] an unfinished loop. *)
Inductive outcome (E A : Type) : Type :=
| Done (a : A) (p : Parser)
| Fail (e : E)
| Panic
| OutOfFuel.
Arguments Done {E A} a p.
Arguments Fail {E A} e.
Arguments Panic {E A}.
Arguments OutOfFuel {E A}.

Definition scan (E A : Type) : Type := Parser -> outcome E A.

Definition sret {E A} (a : A) : scan E A := fun p => Done a p.
Definition sfail {E A} (e : E) : scan E A := fun _ => Fail e.
Definition sbind {E A B} (m : scan E A) (f : A -> scan E B) : scan E B := fun p =>
  match m p with
  | Done a p => f a p
  | Fail e => Fail e
  | Panic => Panic
  | OutOfFuel => OutOfFuel
  end.
(** [Result::ok] ([f = fun _ => tt]) and [Result::map_err] / [Option::ok_or]. *)
Definition smap_err {E F A} (f : E -> F) (m : scan E A) : scan F A := fun p =>
  match m p with
  | Done a p => Done a p
  | Fail e => Fail (f e)
  | Panic => Panic
  | OutOfFuel => OutOfFuel
  end.
Notation "'let!' x ':=' m 'in' k" := (sbind m (fun x => k))
  (at level 10, x pattern, m at level 100, k at level 200) : osp_scope.
Notation "m ;; k" := (sbind m (fun _ => k))
  (at level 100, k at level 200, right associativity) : osp_scope.

(** Runs a method from the start of a body and drops the cursor.  The last two
    outcomes do not occur; they are mapped to an error to keep the API total. *)
Definition run {A} (m : scan JsonError A) (b : bytes) : Result A JsonError :=
  match m (new_parser b) with
  | Done a _ => Ok a
  | Fail e => Err e
  | Panic | OutOfFuel => Err Invalid
  end.

Section Methods.
Context {E : Type}.
Definition peek : scan E (option byte) := fun p => Done (buf p !! cur p) p.
Definition advance (n : nat) : scan E unit := fun p => Done tt (bump n p).
(** [&self.b[self.i..]] and [self.b[self.i]], which panic out of range. *)
Definition tail_slice : scan E bytes := fun p =>
  if cur p <=? length (buf p) then Done (rest p) p else Panic.
Definition index_cur : scan E byte := fun p =>
  match buf p !! cur p with Some c => Done c p | None => Panic end.
Definition get_cur : scan E nat := fun p => Done (cur p) p.
(** [&self.b[start..self.i]]. *)
Definition slice_from (start : nat) : scan E bytes := fun p =>
  if (start <=? cur p) && (cur p <=? length (buf p))
  then Done (drop start (take (cur p) (buf p))) p else Panic.

Definition is_json_ws (c : byte) : bool :=
  Ascii.eqb c (byte_of 32) || Ascii.eqb c (byte_of 9)
  || Ascii.eqb c (byte_of 10) || Ascii.eqb c (byte_of 13).
(** [while matches!(self.peek(), Some(ws)) { self.i += 1 }]. *)
Definition skip_ws : scan E unit := fun p =>
  Done tt (bump (count_while is_json_ws (rest p)) p).
Definition digits : scan E unit := fun p =>
  Done tt (bump (count_while is_ascii_digit (rest p)) p).
End Methods.

Definition expect (c : byte) : scan JsonError unit :=
  let! o := peek in if is_byte c o then advance 1 else sfail Invalid.

Definition hex_digit : scan JsonError Z :=
  let! o := peek in
  match o with
  | None => sfail Invalid
  | Some c =>
      if in_range 48 57 c then advance 1 ;; sret (bz c - 48)%Z
      else if in_range 97 102 c then advance 1 ;; sret (bz c - 97 + 10)%Z
      else if in_range 65 70 c then advance 1 ;; sret (bz c - 65 + 10)%Z
      else sfail Invalid
  end.

(** [for _ in 0..n { self.hex_digit()?; v = v * 16 + d }]. *)
Fixpoint hex_digits (n : nat) (v : Z) : scan JsonError Z :=
  match n with
  | 0 => sret v
  | S n => let! d := hex_digit in hex_digits n (v * 16 + d)%Z
  end.
Definition hex4 : scan JsonError Z := hex_digits 4 0.

Section Scan.
Context {W : Wide}.

(** The loop of [skip_string], after the opening quote. *)
Fixpoint skip_string_loop (fuel : nat) : scan JsonError unit :=
  match fuel with
  | 0 => fun _ => OutOfFuel
  | S fuel =>
      let! r := tail_slice in
      match next_string_boundary r with
      | None => sfail Invalid
      | Some off =>
          advance off ;;
          let! c := index_cur in
          if Ascii.eqb c quote then advance 1
          else if Ascii.eqb c backslash then
            advance 1 ;;
            let! esc := peek in
            match esc with
            | None => sfail Invalid
            | Some e =>
                advance 1 ;;
                if Ascii.eqb e "u" then hex_digits 4 0 ;; skip_string_loop fuel
                else skip_string_loop fuel
            end
          else sfail Invalid
      end
  end.
Definition skip_string : scan JsonError unit := fun p =>
  (expect quote ;; skip_string_loop (S (length (rest p)))) p.

Definition push_char (out : bytes) (ch : Z) : bytes := out ++ encode_utf8 ch.

Definition decode_unicode_escape (out : bytes) : scan JsonError bytes :=
  let! hi := hex4 in
  let! code :=
    (if (55296 <=? hi)%Z && (hi <=? 56319)%Z then
       expect backslash ;; expect "u" ;;
       let! lo := hex4 in
       if (56320 <=? lo)%Z && (lo <=? 57343)%Z
       then sret (65536 + Z.shiftl (hi - 55296) 10 + (lo - 56320))%Z
       else sfail Invalid
     else if (56320 <=? hi)%Z && (hi <=? 57343)%Z then sfail Invalid
     else sret hi) in
  match char_from_u32 code with
  | Some ch => sret (push_char out ch)
  | None => sfail Invalid
  end.

(** The character of a one-letter escape. *)
Definition simple_escape (esc : byte) : option Z :=
  if Ascii.eqb esc quote then Some 34%Z
  else if Ascii.eqb esc backslash then Some 92%Z
  else if Ascii.eqb esc "/" then Some 47%Z
  else if Ascii.eqb esc "b" then Some 8%Z
  else if Ascii.eqb esc "f" then Some 12%Z
  else if Ascii.eqb esc "n" then Some 10%Z
  else if Ascii.eqb esc "r" then Some 13%Z
  else if Ascii.eqb esc "t" then Some 9%Z
  else None.

Definition decode_escape (out : bytes) : scan JsonError bytes :=
  let! o := peek in
  match o with
  | None => sfail Invalid
  | Some esc =>
      advance 1 ;;
      match simple_escape esc with
      | Some ch => sret (push_char out ch)
      | None => if Ascii.eqb esc "u" then decode_unicode_escape out else sfail Invalid
      end
  end.

Fixpoint string_decode_loop (fuel : nat) (out : bytes) : scan JsonError str :=
  match fuel with
  | 0 => fun _ => OutOfFuel
  | S fuel =>
      let! r := tail_slice in
      match next_string_boundary r with
      | None => sfail Invalid
      | Some off =>
          let out := out ++ take off r in
          advance off ;;
          let! c := index_cur in
          if Ascii.eqb c quote then
            advance 1 ;;
            match from_utf8 out with Some s => sret s | None => sfail Invalid end
          else if Ascii.eqb c backslash then
            advance 1 ;; let! out := decode_escape out in string_decode_loop fuel out
          else sfail Invalid
      end
  end.
Definition string_decode : scan JsonError str := fun p =>
  (expect quote ;; string_decode_loop (S (length (rest p))) []) p.

Definition one_or_more_digits : scan JsonError unit :=
  let! o := peek in
  match o with
  | Some c => if is_ascii_digit c then digits else sfail Invalid
  | None => sfail Invalid
  end.

Definition number : scan JsonError unit :=
  let! o := peek in
  (if is_byte "-" o then advance 1 else sret tt) ;;
  let! o := peek in
  match o with
  | Some c =>
      if Ascii.eqb c "0" then advance 1
      else if is_ascii_digit c then digits else sfail Invalid
  | None => sfail Invalid
  end ;;
  let! o := peek in
  (if is_byte "." o then advance 1 ;; one_or_more_digits else sret tt) ;;
  let! o := peek in
  if is_byte "e" o || is_byte "E" o then
    advance 1 ;;
    let! o := peek in
    (if is_byte "+" o || is_byte "-" o then advance 1 else sret tt) ;;
    one_or_more_digits
  else sret tt.

Definition literal (text : bytes) : scan JsonError unit :=
  let! r := tail_slice in
  if starts_with text r then advance (length text) else sfail Invalid.

Definition number_start (c : byte) : bool := Ascii.eqb c "-" || is_ascii_digit c.

(** The mutually recursive productions.  A level of fuel is spent per call and
    per loop turn. *)
Fixpoint skip_value (fuel : nat) : scan JsonError unit :=
  match fuel with
  | 0 => fun _ => OutOfFuel
  | S fuel =>
      skip_ws ;;
      let! o := peek in
      match o with
      | None => sfail Invalid
      | Some c =>
          if Ascii.eqb c "{" then skip_object fuel
          else if Ascii.eqb c "[" then skip_array fuel
          else if Ascii.eqb c quote then skip_string
          else if Ascii.eqb c "t" then literal (lit "true")
          else if Ascii.eqb c "f" then literal (lit "false")
          else if Ascii.eqb c "n" then literal (lit "null")
          else if number_start c then number
          else sfail Invalid
      end
  end
with skip_object (fuel : nat) : scan JsonError unit :=
  match fuel with
  | 0 => fun _ => OutOfFuel
  | S fuel =>
      advance 1 ;; skip_ws ;;
      let! o := peek in
      if is_byte "}" o then advance 1 else skip_members fuel
  end
with skip_members (fuel : nat) : scan JsonError unit :=
  match fuel with
  | 0 => fun _ => OutOfFuel
  | S fuel =>
      skip_ws ;; skip_string ;; skip_ws ;; expect ":" ;; skip_value fuel ;; skip_ws ;;
      let! o := peek in
      if is_byte "," o then advance 1 ;; skip_members fuel
      else if is_byte "}" o then advance 1
      else sfail Invalid
  end
with skip_array (fuel : nat) : scan JsonError unit :=
  match fuel with
  | 0 => fun _ => OutOfFuel
  | S fuel =>
      advance 1 ;; skip_ws ;;
      let! o := peek in
      if is_byte "]" o then advance 1 else skip_elements fuel
  end
with skip_elements (fuel : nat) : scan JsonError unit :=
  match fuel with
  | 0 => fun _ => OutOfFuel
  | S fuel =>
      skip_value fuel ;; skip_ws ;;
      let! o := peek in
      if is_byte "," o then advance 1 ;; skip_elements fuel
      else if is_byte "]" o then advance 1
      else sfail Invalid
  end.

(** Enough fuel for any value in the [n] bytes left. *)
Definition value_fuel (n : nat) : nat := 3 * n + 2.
Definition skip_value_here : scan JsonError unit := fun p =>
  skip_value (value_fuel (length (rest p))) p.

(** The loop of [object_members], collecting decoded keys. *)
Fixpoint members_loop (fuel : nat) (ks : list str) : scan JsonError (list str) :=
  match fuel with
  | 0 => fun _ => OutOfFuel
  | S fuel =>
      skip_ws ;;
      let! k := string_decode in
      let ks := ks ++ [k] in
      skip_ws ;; expect ":" ;; skip_value_here ;; skip_ws ;;
      let! o := peek in
      if is_byte "," o then advance 1 ;; members_loop fuel ks
      else if is_byte "}" o then advance 1 ;; sret ks
      else sfail Invalid
  end.
Definition object_members : scan JsonError TopLevel := fun p =>
  (advance 1 ;;
   let! at_ := get_cur in
   skip_ws ;;
   let! o := peek in
   if is_byte "}" o then advance 1 ;; sret (MkTopLevel at_ true [])
   else let! ks := members_loop (S (length (rest p))) [] in
        sret (MkTopLevel at_ false ks)) p.

Definition validate_scan : scan JsonError unit :=
  skip_value_here ;; skip_ws ;;
  let! o := peek in
  match o with Some _ => sfail Invalid | None => sret tt end.
Definition validate (body : bytes) : Result unit JsonError := run validate_scan body.

Definition object_top_level_scan (body : bytes) : scan JsonError TopLevel :=
  skip_ws ;;
  let! o := peek in
  if negb (is_byte "{" o) then
    sfail match validate body with Ok _ => NotAnObject | Err e => e end
  else
    let! top := object_members in
    skip_ws ;;
    let! o := peek in
    match o with Some _ => sfail Invalid | None => sret top end.
Definition object_top_level (body : bytes) : Result TopLevel JsonError :=
  run (object_top_level_scan body) body.

(** [enter_field] and [scalar_string] return an [Option]: their error is [tt]. *)
Definition to_option {A} (m : scan JsonError A) : scan unit A := smap_err (fun _ => tt) m.

Fixpoint enter_field_loop (fuel : nat) (key : str) : scan unit unit :=
  match fuel with
  | 0 => fun _ => OutOfFuel
  | S fuel =>
      skip_ws ;;
      let! k := to_option string_decode in
      skip_ws ;; to_option (expect ":") ;; skip_ws ;;
      if str_eqb k key then sret tt
      else
        to_option skip_value_here ;; skip_ws ;;
        let! o := peek in
        if is_byte "," o then advance 1 ;; enter_field_loop fuel key else sfail tt
  end.
Definition enter_field (key : str) : scan unit unit := fun p =>
  (skip_ws ;;
   let! o := peek in
   if negb (is_byte "{" o) then sfail tt
   else
     advance 1 ;; skip_ws ;;
     let! o := peek in
     if is_byte "}" o then sfail tt else enter_field_loop (S (length (rest p))) key) p.

Definition scalar_string : scan unit str :=
  let! o := peek in
  match o with
  | None => sfail tt
  | Some c =>
      if Ascii.eqb c quote then to_option string_decode
      else if Ascii.eqb c "t" then to_option (literal (lit "true")) ;; sret (lit "true")
      else if Ascii.eqb c "f" then to_option (literal (lit "false")) ;; sret (lit "false")
      else if number_start c then
        let! start := get_cur in
        to_option number ;;
        let! s := slice_from start in
        match from_utf8 s with Some s => sret s | None => sfail tt end
      else sfail tt
  end.

(** The [for segment in segments] loop, [walked] being the segments pushed. *)
Fixpoint walk_segments (walked segments : list str) : scan JsonError (list str) :=
  match segments with
  | [] => sret walked
  | seg :: segments =>
      let walked := walked ++ [seg] in
      smap_err (fun _ => PathNotScalar (join (lit ".") walked)) (enter_field seg) ;;
      walk_segments walked segments
  end.
Definition scalar_at_path (body : bytes) (segments : list str) : Result str JsonError :=
  run (let! walked := walk_segments [] segments in
       skip_ws ;;
       smap_err (fun _ => PathNotScalar (join (lit ".") walked)) scalar_string) body.

End Scan.

