(* ===== verification/JsonGrammar.v ===== *)
(** * The JSON grammar and the scanner's correctness

    The grammar of the documents, as inductive predicates over bytes, and the
    proof that the scanner of [JsonScan] accepts exactly that grammar, without
    ever panicking or running out of fuel. *)
From stdpp Require Import base option list strings numbers sets.
From Stdlib Require Import Ascii ZArith Lia.
From S2P Require Import Prelude.
From S2P Require Import JsonScan.

Open Scope osp_scope.

(** ** The grammar *)
Definition ws (w : bytes) : Prop := Forall (fun c => is_json_ws c = true) w.
Definition all_digits (t : bytes) : Prop := Forall (fun c => is_ascii_digit c = true) t.

(** The value of a hexadecimal digit. *)
Definition hex_value (c : byte) : option Z :=
  if in_range 48 57 c then Some (bz c - 48)%Z
  else if in_range 97 102 c then Some (bz c - 97 + 10)%Z
  else if in_range 65 70 c then Some (bz c - 65 + 10)%Z
  else None.
Definition hex_fold (v : Z) (ds : list Z) : Z := foldl (fun v d => v * 16 + d)%Z v ds.
Definition hex_text (t : bytes) (ds : list Z) : Prop := Forall2 (fun c d => hex_value c = Some d) t ds.

(** The text between the quotes of a string, as bytes; [esc] says which bytes may follow
    a backslash besides [u]. *)
Inductive JBody (esc : byte -> Prop) : bytes -> Prop :=
| body_nil : JBody esc []
| body_plain c t : is_string_boundary c = false -> JBody esc t -> JBody esc (c :: t)
| body_escape c t : esc c -> c <> "u"%char -> JBody esc t -> JBody esc (backslash :: c :: t)
| body_unicode h ds t : hex_text h ds -> length h = 4 -> JBody esc t ->
    JBody esc (backslash :: "u"%char :: h ++ t).

Definition JString (esc : byte -> Prop) (t : bytes) : Prop :=
  exists body, JBody esc body /\ t = quote :: body ++ [quote].

Definition JExp (t : bytes) : Prop :=
  t = [] \/ exists e sign ds, t = e :: sign ++ ds
    /\ (e = "e"%char \/ e = "E"%char)
    /\ (sign = [] \/ sign = ["+"%char] \/ sign = ["-"%char])
    /\ all_digits ds /\ ds <> [].
Definition JFrac (t : bytes) : Prop :=
  t = [] \/ exists ds, t = "."%char :: ds /\ all_digits ds /\ ds <> [].
Definition JInt (t : bytes) : Prop :=
  t = ["0"%char] \/ exists c ds, t = c :: ds /\ c <> "0"%char /\ all_digits (c :: ds).
Definition JNumber (t : bytes) : Prop :=
  exists sign int frac exp, t = sign ++ int ++ frac ++ exp
    /\ (sign = [] \/ sign = ["-"%char]) /\ JInt int /\ JFrac frac /\ JExp exp.

Inductive JVal (esc : byte -> Prop) : bytes -> Prop :=
| val_string t : JString esc t -> JVal esc t
| val_number t : JNumber t -> JVal esc t
| val_true : JVal esc (lit "true")
| val_false : JVal esc (lit "false")
| val_null : JVal esc (lit "null")
| val_empty_object w : ws w -> JVal esc ("{"%char :: w ++ ["}"%char])
| val_object t : JMembers esc t -> JVal esc ("{"%char :: t ++ ["}"%char])
| val_empty_array w : ws w -> JVal esc ("["%char :: w ++ ["]"%char])
| val_array t : JElements esc t -> JVal esc ("["%char :: t ++ ["]"%char])
with JMembers (esc : byte -> Prop) : bytes -> Prop :=
| members_one m : JMember esc m -> JMembers esc m
| members_cons m t : JMember esc m -> JMembers esc t -> JMembers esc (m ++ ","%char :: t)
with JMember (esc : byte -> Prop) : bytes -> Prop :=
| member_intro w1 k w2 w3 v w4 :
    ws w1 -> JString esc k -> ws w2 -> ws w3 -> JVal esc v -> ws w4 ->
    JMember esc (w1 ++ k ++ w2 ++ ":"%char :: w3 ++ v ++ w4)
with JElements (esc : byte -> Prop) : bytes -> Prop :=
| elements_one w1 v w2 : ws w1 -> JVal esc v -> ws w2 -> JElements esc (w1 ++ v ++ w2)
| elements_cons w1 v w2 t :
    ws w1 -> JVal esc v -> ws w2 -> JElements esc t ->
    JElements esc (w1 ++ v ++ w2 ++ ","%char :: t).

Scheme JVal_mind := Induction for JVal Sort Prop
with JMembers_mind := Induction for JMembers Sort Prop
with JMember_mind := Induction for JMember Sort Prop
with JElements_mind := Induction for JElements Sort Prop.
Combined Scheme J_mutind from JVal_mind, JMembers_mind, JMember_mind, JElements_mind.

(** A document: one value between white space. *)
Definition JDoc (esc : byte -> Prop) (b : bytes) : Prop :=
  exists w1 v w2, b = w1 ++ v ++ w2 /\ ws w1 /\ JVal esc v /\ ws w2.

(** What the value scanner takes after a backslash, any byte; and what RFC 8259 allows. *)
Definition any_escape (c : byte) : Prop := True.
Definition rfc_escape (c : byte) : Prop := is_Some (simple_escape c).

(** The text of an escape after its backslash, and the character it denotes. *)
Inductive EscText : bytes -> Z -> Prop :=
| esc_simple c ch : simple_escape c = Some ch -> EscText [c] ch
| esc_unicode h ds ch : hex_text h ds -> length h = 4 ->
    ~ (55296 <= hex_fold 0 ds <= 57343)%Z ->
    char_from_u32 (hex_fold 0 ds) = Some ch -> EscText ("u"%char :: h) ch
| esc_surrogates h1 ds1 h2 ds2 ch :
    hex_text h1 ds1 -> length h1 = 4 -> hex_text h2 ds2 -> length h2 = 4 ->
    (55296 <= hex_fold 0 ds1 <= 56319)%Z -> (56320 <= hex_fold 0 ds2 <= 57343)%Z ->
    char_from_u32 (65536 + Z.shiftl (hex_fold 0 ds1 - 55296) 10
                   + (hex_fold 0 ds2 - 56320)) = Some ch ->
    EscText ("u"%char :: h1 ++ backslash :: "u"%char :: h2) ch.

(** The decoded meaning of a string's text, for the decoding scanner. *)
Inductive Decodes : bytes -> bytes -> Prop :=
| dec_nil : Decodes [] []
| dec_plain c t s : is_string_boundary c = false -> Decodes t s -> Decodes (c :: t) (c :: s)
| dec_escape e ch t s : EscText e ch -> Decodes t s ->
    Decodes (backslash :: e ++ t) (encode_utf8 ch ++ s).
(** [t] is a string literal that decodes to [s]. *)
Definition DString (t : bytes) (s : str) : Prop :=
  exists body, Decodes body s /\ utf8_valid s = true /\ t = quote :: body ++ [quote].

(** The bytes that may follow a complete number. *)
Definition number_follow (r : bytes) : Prop :=
  forall c, head r = Some c -> is_ascii_digit c = false /\ c <> "."%char
    /\ c <> "e"%char /\ c <> "E"%char.

(** A grammar with more escapes has more documents. *)
Section Monotone.
Context (esc esc' : byte -> Prop) (Hesc : forall c, esc c -> esc' c).
Lemma JString_mono t : JString esc t -> JString esc' t.
Proof.
  intros (body & Hb & ->). exists body. split; [|done].
  induction Hb; [constructor|constructor; auto|apply body_escape; auto|by eapply body_unicode].
Qed.
Lemma J_mono :
  (forall t, JVal esc t -> JVal esc' t) /\ (forall t, JMembers esc t -> JMembers esc' t)
  /\ (forall t, JMember esc t -> JMember esc' t) /\ (forall t, JElements esc t -> JElements esc' t).
Proof.
  pose proof (J_mutind esc (fun t _ => JVal esc' t) (fun t _ => JMembers esc' t)
    (fun t _ => JMember esc' t) (fun t _ => JElements esc' t)) as H.
  apply H; clear H; intros;
    first [ by apply val_string, JString_mono | by apply val_number | by apply val_true
          | by apply val_false | by apply val_null | by apply val_empty_object | by apply val_object
          | by apply val_empty_array | by apply val_array | by apply members_one
          | by apply members_cons | by constructor; auto using JString_mono
          | by apply elements_one | by apply elements_cons ].
Qed.
Lemma JVal_mono t : JVal esc t -> JVal esc' t.
Proof. apply J_mono. Qed.
End Monotone.

(** ** The vectorised boundary scan *)

Lemma ctz_spec p :
  N.testbit (Npos p) (N.of_nat (ctz p)) = true
  /\ forall k, k < ctz p -> N.testbit (Npos p) (N.of_nat k) = false.
Proof.
  induction p as [p IH|p [IH1 IH2]|]; cbn [ctz].
  - split; [done|]. intros; lia.
  - split.
    + rewrite Nat2N.inj_succ. change (N.pos p~0) with (2 * N.pos p)%N.
      by rewrite N.testbit_even_succ by lia.
    + intros [|k] Hk; [done|]. rewrite Nat2N.inj_succ.
      change (N.pos p~0) with (2 * N.pos p)%N.
      rewrite N.testbit_even_succ by lia. apply IH2. lia.
  - split; [done|]. intros; lia.
Qed.

Section Scanner.
Context {W : Wide}.

Lemma boundary_mask_testbit chunk k :
  length chunk = 32 ->
  N.testbit (boundary_mask chunk) (N.of_nat k)
  = match chunk !! k with Some c => is_string_boundary c | None => false end.
Proof.
  intros Hl. unfold boundary_mask. rewrite !N.lor_spec, !simd_eq_spec, simd_lt_spec by done.
  destruct (chunk !! k) as [c|]; [|done]. by rewrite bz_byte_of.
Qed.

Lemma boundary_mask_zero chunk :
  length chunk = 32 ->
  (boundary_mask chunk =? 0)%N = true -> position is_string_boundary chunk = None.
Proof.
  intros Hl Hz%N.eqb_eq. apply position_None, Forall_lookup. intros k c Hk.
  pose proof (boundary_mask_testbit chunk k Hl) as H. rewrite Hz, Hk in H. by rewrite <- H, N.bits_0.
Qed.

Lemma boundary_mask_nonzero chunk :
  length chunk = 32 ->
  (boundary_mask chunk =? 0)%N = false ->
  position is_string_boundary chunk = Some (trailing_zeros (boundary_mask chunk)).
Proof.
  intros Hl Hz%N.eqb_neq.
  destruct (boundary_mask chunk) as [|p] eqn:Hm; [done|]. cbn [trailing_zeros].
  destruct (ctz_spec p) as [Hset Hclear].
  assert (Hbit : forall k, N.testbit (Npos p) (N.of_nat k)
    = match chunk !! k with Some c => is_string_boundary c | None => false end).
  { intros k. rewrite <- Hm. by apply boundary_mask_testbit. }
  rewrite Hbit in Hset. destruct (chunk !! ctz p) as [c|] eqn:Hc; [|done].
  apply position_Some. exists (take (ctz p) chunk), c, (drop (S (ctz p)) chunk).
  split; [by symmetry; apply take_drop_middle|].
  split; [rewrite length_take; apply lookup_lt_Some in Hc; lia|].
  split; [|done]. apply Forall_lookup. intros k d Hk.
  apply lookup_take_Some in Hk as [Hk Hlt]. specialize (Hclear k Hlt).
  by rewrite Hbit, Hk in Hclear.
Qed.

Lemma position_app {A} (f : A -> bool) l1 l2 :
  position f (l1 ++ l2) =
  match position f l1 with
  | Some n => Some n
  | None => (fun n => length l1 + n) <$> position f l2
  end.
Proof.
  induction l1 as [|c l1 IH]; cbn.
  - by destruct (position f l2).
  - destruct (f c); [done|]. rewrite IH.
    by destruct (position f l1), (position f l2).
Qed.

Lemma boundary_chunks_spec n i l :
  SIMD_STEP * n <= length l ->
  boundary_chunks n i l = (fun pos => i * SIMD_STEP + pos) <$> position is_string_boundary l.
Proof.
  revert i l. unfold SIMD_STEP. induction n as [|n IH]; intros i l Hl; [done|].
  cbn [boundary_chunks]. unfold SIMD_STEP.
  assert (Hchunk : length (take 32 l) = 32) by (rewrite length_take; lia).
  rewrite <- (take_drop 32 l) at 4. rewrite position_app.
  destruct (boundary_mask (take 32 l) =? 0)%N eqn:Hz.
  - rewrite boundary_mask_zero by done. rewrite IH by (rewrite length_drop; lia).
    rewrite Hchunk. destruct (position is_string_boundary (drop 32 l)); cbn; [|done].
    f_equal. lia.
  - by rewrite boundary_mask_nonzero.
Qed.

Lemma next_string_boundary_spec l :
  next_string_boundary l = position is_string_boundary l.
Proof.
  unfold next_string_boundary. rewrite boundary_chunks_spec.
  - by destruct (position is_string_boundary l).
  - unfold SIMD_STEP. pose proof (Nat.Div0.mul_div_le (length l) 32). lia.
Qed.
End Scanner.
