(* ===== verification/JsonTriples.v ===== *)
(** * Reasoning about the scanner

    Triples and runs over the input left to read, and the correctness of the
    lexical methods (strings, escapes, numbers, literals) against the grammar. *)
From stdpp Require Import base option list strings numbers sets.
From Stdlib Require Import Ascii ZArith Lia.
From S2P Require Import Prelude.
From S2P Require Import JsonScan.
From S2P Require Import JsonGrammar.

Open Scope osp_scope.

(** ** A calculus of triples over the remaining input

    [triple l m Q]: run where the input left is [l], [m] never panics or runs out
    of fuel, and if it succeeds it has consumed a prefix [t] with [l = t ++ r] and
    [Q t r a].  [runs l m t a]: it does succeed, consuming [t]. *)
Definition in_bounds (p : Parser) : Prop := cur p <= length (buf p).
Definition at_input (l : bytes) (p : Parser) : Prop := in_bounds p /\ rest p = l.

Definition triple {E A} (l : bytes) (m : scan E A) (Q : bytes -> bytes -> A -> Prop) : Prop :=
  forall p, at_input l p ->
    match m p with
    | Done a q => exists t r, l = t ++ r /\ q = bump (length t) p /\ Q t r a
    | Fail _ => True
    | Panic | OutOfFuel => False
    end.
Definition runs {E A} (l : bytes) (m : scan E A) (t : bytes) (a : A) : Prop :=
  forall p, at_input l p -> m p = Done a (bump (length t) p).

Lemma bump_bump n m p : bump m (bump n p) = bump (n + m) p.
Proof. unfold bump; cbn. f_equal. lia. Qed.
Lemma bump_0 p : bump 0 p = p.
Proof. destruct p; unfold bump; cbn. f_equal. lia. Qed.

Lemma at_input_bump t r p : at_input (t ++ r) p -> at_input r (bump (length t) p).
Proof.
  intros [Hb Hr]. unfold at_input, in_bounds, rest, bump in *. cbn in *. split.
  - apply (f_equal length) in Hr. rewrite length_drop, length_app in Hr. lia.
  - by rewrite <- drop_drop, Hr, drop_app_length.
Qed.

Lemma at_input_lookup l p : at_input l p -> buf p !! cur p = head l.
Proof.
  intros [Hb <-]. unfold rest.
  replace (head (drop (cur p) (buf p))) with (drop (cur p) (buf p) !! 0) by by destruct (drop _ _).
  rewrite lookup_drop. f_equal. lia.
Qed.

Section Calculus.
Context {E : Type}.

Lemma triple_conseq {A} l (m : scan E A) (Q Q' : bytes -> bytes -> A -> Prop) :
  triple l m Q -> (forall t r a, l = t ++ r -> Q t r a -> Q' t r a) -> triple l m Q'.
Proof.
  intros Hm HQ p Hp. specialize (Hm p Hp). destruct (m p); try done.
  destruct Hm as (t & r & Hl & Hq & HQa). exists t, r. auto.
Qed.

Lemma triple_bind {A B} l (m : scan E A) (f : A -> scan E B) Q R :
  triple l m Q ->
  (forall t r a, l = t ++ r -> Q t r a ->
     triple r (f a) (fun t2 r2 b => R (t ++ t2) r2 b)) ->
  triple l (sbind m f) R.
Proof.
  intros Hm Hf p Hp. unfold sbind. specialize (Hm p Hp).
  destruct (m p) as [a q| | |]; try done.
  destruct Hm as (t & r & -> & -> & HQ).
  specialize (Hf t r a eq_refl HQ _ (at_input_bump _ _ _ Hp)).
  destruct (f a _) as [b q| | |]; try done.
  destruct Hf as (t2 & r2 & -> & -> & HR). exists (t ++ t2), r2.
  by rewrite <- app_assoc, bump_bump, length_app.
Qed.

Lemma triple_ret {A} l (a : A) (Q : bytes -> bytes -> A -> Prop) :
  Q [] l a -> triple l (sret a : scan E A) Q.
Proof. intros HQ p Hp. exists [], l. by rewrite bump_0. Qed.

Lemma triple_fail {A} l (e : E) (Q : bytes -> bytes -> A -> Prop) :
  triple l (sfail e : scan E A) Q.
Proof. by intros p Hp. Qed.

Lemma triple_peek l (Q : bytes -> bytes -> option byte -> Prop) :
  Q [] l (head l) -> triple l (peek : scan E _) Q.
Proof.
  intros HQ p Hp. unfold peek. rewrite (at_input_lookup l) by done.
  exists [], l. by rewrite bump_0.
Qed.

Lemma triple_advance t r (Q : bytes -> bytes -> unit -> Prop) :
  Q t r tt -> triple (t ++ r) (advance (length t) : scan E _) Q.
Proof. intros HQ p Hp. exists t, r. auto. Qed.

Lemma triple_while (f : byte -> bool) l (Q : bytes -> bytes -> unit -> Prop) :
  (forall t r, l = t ++ r -> Forall (fun c => f c = true) t ->
     (forall c, head r = Some c -> f c = false) -> Q t r tt) ->
  triple l ((fun p => Done tt (bump (count_while f (rest p)) p)) : scan E _) Q.
Proof.
  intros HQ p [Hb Hr]. destruct (count_while_split f l) as (t & r & Hl & Hn & Ht & Hh).
  rewrite Hr, <- Hn. exists t, r. auto.
Qed.

Lemma triple_tail_slice l (Q : bytes -> bytes -> bytes -> Prop) :
  Q [] l l -> triple l (tail_slice : scan E _) Q.
Proof.
  intros HQ p [Hb Hr]. unfold tail_slice, in_bounds in *.
  rewrite (proj2 (Nat.leb_le _ _) Hb), Hr. exists [], l. by rewrite bump_0.
Qed.

Lemma triple_index_cur c l (Q : bytes -> bytes -> byte -> Prop) :
  Q [] (c :: l) c -> triple (c :: l) (index_cur : scan E _) Q.
Proof.
  intros HQ p Hp. unfold index_cur. rewrite (at_input_lookup (c :: l)) by done.
  exists [], (c :: l). by rewrite bump_0.
Qed.

(** The completeness rules. *)
Lemma runs_bind {A B} t l (m : scan E A) (f : A -> scan E B) a b t1 t2 :
  t = t1 ++ t2 -> runs (t1 ++ l) m t1 a -> runs l (f a) t2 b ->
  runs (t1 ++ l) (sbind m f) t b.
Proof.
  intros -> Hm Hf p Hp. unfold sbind. rewrite (Hm p Hp).
  rewrite (Hf _ (at_input_bump _ _ _ Hp)). by rewrite bump_bump, length_app.
Qed.

(** A method that looks without consuming. *)
Lemma runs_bind_nil {A B} t l (m : scan E A) (f : A -> scan E B) a b :
  runs l m [] a -> runs l (f a) t b -> runs l (sbind m f) t b.
Proof. intros Hm Hf. by eapply (runs_bind t l m f a b [] t). Qed.

Lemma runs_ret {A} l (a : A) : runs l (sret a : scan E A) [] a.
Proof. intros p Hp. by rewrite bump_0. Qed.

Lemma runs_peek l : runs l (peek : scan E _) [] (head l).
Proof. intros p Hp. unfold peek. by rewrite (at_input_lookup l), bump_0. Qed.

Lemma runs_advance t r : runs (t ++ r) (advance (length t) : scan E _) t tt.
Proof. by intros p Hp. Qed.
Lemma runs_advance_1 c r : runs (c :: r) (advance 1 : scan E _) [c] tt.
Proof. by intros p Hp. Qed.

Lemma runs_while (f : byte -> bool) t r :
  Forall (fun c => f c = true) t -> (forall c, head r = Some c -> f c = false) ->
  runs (t ++ r) ((fun p => Done tt (bump (count_while f (rest p)) p)) : scan E _) t tt.
Proof. intros Ht Hr p [Hb Hp]. by rewrite Hp, count_while_app. Qed.

Lemma runs_tail_slice l : runs l (tail_slice : scan E _) [] l.
Proof.
  intros p [Hb Hp]. unfold tail_slice, in_bounds in *.
  by rewrite (proj2 (Nat.leb_le _ _) Hb), Hp, bump_0.
Qed.
Lemma runs_index_cur c l : runs (c :: l) (index_cur : scan E _) [] c.
Proof.
  intros p Hp. unfold index_cur. by rewrite (at_input_lookup (c :: l)), bump_0.
Qed.
End Calculus.

Lemma triple_map_err {E F A} (g : E -> F) l (m : scan E A) Q :
  triple l m Q -> triple l (smap_err g m) Q.
Proof. intros Hm p Hp. specialize (Hm p Hp). unfold smap_err. by destruct (m p). Qed.
Lemma runs_map_err {E F A} (g : E -> F) l (m : scan E A) t a :
  runs l m t a -> runs l (smap_err g m) t a.
Proof. intros Hm p Hp. unfold smap_err. by rewrite (Hm p Hp). Qed.

(** ** The lexical methods *)
Section Lexical.
Context {E : Type}.

Lemma peek_sound l : triple l (peek : scan E _) (fun t r o => t = [] /\ r = l /\ o = head l).
Proof. by apply triple_peek. Qed.
Lemma tail_slice_sound l :
  triple l (tail_slice : scan E _) (fun t r s => t = [] /\ r = l /\ s = l).
Proof. by apply triple_tail_slice. Qed.
Lemma advance_sound n l :
  n <= length l ->
  triple l (advance n : scan E _) (fun t r _ => t = take n l /\ r = drop n l).
Proof.
  intros Hn. rewrite <- (take_drop n l) at 1.
  replace n with (length (take n l)) at 3 by (rewrite length_take; lia).
  by apply triple_advance.
Qed.
Lemma advance_1_sound c l :
  triple (c :: l) (advance 1 : scan E _) (fun t r _ => t = [c] /\ r = l).
Proof. apply (advance_sound 1 (c :: l)). cbn. lia. Qed.
Lemma skip_ws_sound l :
  triple l (skip_ws : scan E _)
    (fun t r _ => ws t /\ forall c, head r = Some c -> is_json_ws c = false).
Proof. by apply triple_while. Qed.
Lemma digits_sound l :
  triple l (digits : scan E _)
    (fun t r _ => all_digits t /\ forall c, head r = Some c -> is_ascii_digit c = false).
Proof. by apply triple_while. Qed.

Lemma skip_ws_runs w r :
  ws w -> (forall c, head r = Some c -> is_json_ws c = false) ->
  runs (w ++ r) (skip_ws : scan E _) w tt.
Proof. apply runs_while. Qed.
Lemma skip_ws_runs_nil r :
  (forall c, head r = Some c -> is_json_ws c = false) ->
  runs r (skip_ws : scan E _) [] tt.
Proof. apply (runs_while _ []). by constructor. Qed.
Lemma digits_runs t r :
  all_digits t -> (forall c, head r = Some c -> is_ascii_digit c = false) ->
  runs (t ++ r) (digits : scan E _) t tt.
Proof. apply runs_while. Qed.
End Lexical.

(** Destructs the facts a triple's postcondition hands to the continuation. *)
Ltac post :=
  repeat match goal with
  | H : _ /\ _ |- _ => destruct H
  | H : exists _, _ |- _ => destruct H
  | H : ?x = [] |- _ => is_var x; subst x
  | H : ?x = [_] |- _ => is_var x; subst x
  | H : ?l = [] ++ ?l |- _ => clear H
  | H : _ :: _ = _ :: _ |- _ => injection H as ?; subst
  | H : ?x = ?y |- _ => (is_var x; is_var y; subst x) || (is_var x; subst x)
  end.
(** Length bounds over appended inputs. *)
Ltac len_lia :=
  cbn [length app] in *;
  repeat match goal with
  | H : context [length (_ ++ _)] |- _ => rewrite length_app in H
  | |- context [length (_ ++ _)] => rewrite length_app
  | H : context [length (_ :: _)] |- _ => rewrite length_cons in H
  | |- context [length (_ :: _)] => rewrite length_cons
  end; cbn [length] in *; lia.
(** One sequencing step of a soundness proof, by the named lemma. *)
Tactic Notation "stepv" "by" uconstr(lem) "as" simple_intropattern(pat) :=
  eapply triple_bind;
  [eapply lem; try len_lia | intros ? ? ? ? pat; cbv beta in *; post].
Tactic Notation "stepv" "by" uconstr(lem) :=
  eapply triple_bind; [eapply lem; try len_lia | intros; cbv beta in *; post].
Ltac case_if H :=
  match goal with |- context [if ?b then _ else _] => destruct b eqn:H end.
Ltac case_ifs :=
  repeat match goal with
  | |- context [if ?b then _ else _] => let H := fresh "Hc" in destruct b eqn:H
  end.
Ltac finish := try apply triple_fail; try (apply triple_ret; cbn [app]).

Lemma expect_sound c l : triple l (expect c) (fun t r _ => t = [c]).
Proof.
  unfold expect. stepv by peek_sound.
  destruct (is_byte c (head l)) eqn:Hc; finish.
  apply is_byte_spec in Hc. destruct l as [|d l]; [done|]. injection Hc as ->.
  eapply triple_conseq; [apply advance_1_sound|]. naive_solver.
Qed.

Lemma expect_runs c r : runs (c :: r) (expect c) [c] tt.
Proof.
  unfold expect. eapply runs_bind_nil; [apply runs_peek|]. cbn [head].
  rewrite (proj2 (is_byte_spec _ _) eq_refl). apply runs_advance_1.
Qed.

Lemma hex_digit_sound l :
  triple l hex_digit (fun t r d => exists c, t = [c] /\ hex_value c = Some d).
Proof.
  unfold hex_digit. stepv by peek_sound. destruct l as [|c l]; cbn [head]; finish.
  repeat match goal with |- context [if ?b then _ else _] => destruct b eqn:? end; finish.
  all: stepv by advance_1_sound; apply triple_ret; exists c; split; [done|].
  all: unfold hex_value; repeat case_match; congruence.
Qed.

Lemma hex_digits_sound n v l :
  triple l (hex_digits n v)
    (fun t r v' => exists ds, hex_text t ds /\ length t = n /\ v' = hex_fold v ds).
Proof.
  revert v l. induction n as [|n IH]; intros v l; cbn [hex_digits].
  - apply triple_ret. exists []. repeat split. constructor.
  - stepv by hex_digit_sound. eapply triple_conseq; [apply IH|].
    intros t2 r2 v' _ (ds & Ht & Hn & ->). exists (a :: ds). split; [by constructor|].
    cbn. by rewrite Hn.
Qed.

Lemma hex_digit_runs c d r : hex_value c = Some d -> runs (c :: r) hex_digit [c] d.
Proof.
  unfold hex_value, hex_digit. intros Hc.
  eapply runs_bind_nil; [apply runs_peek|]. cbn [head].
  repeat case_match; try discriminate; injection Hc as <-;
    (eapply (runs_bind [c] r _ _ tt _ [c] []); [done|apply runs_advance_1|apply runs_ret]).
Qed.

Lemma hex_digits_runs t ds n v r :
  hex_text t ds -> length t = n -> runs (t ++ r) (hex_digits n v) t (hex_fold v ds).
Proof.
  intros Ht <-. revert v. induction Ht as [|c d t ds Hc Ht IH]; intros v; cbn [hex_digits length].
  - apply runs_ret.
  - eapply (runs_bind (c :: t) (t ++ r) _ _ d _ [c] t); [done|by apply hex_digit_runs|].
    apply IH.
Qed.

Lemma hex_value_bound c d : hex_value c = Some d -> (0 <= d < 16)%Z.
Proof.
  unfold hex_value, in_range. pose proof (bz_bound c).
  repeat case_match; intros [= <-];
    repeat match goal with H : _ && _ = true |- _ => apply andb_true_iff in H as [?%Z.leb_le ?%Z.leb_le] end; lia.
Qed.

(** Four hexadecimal digits fit the [u16] the code accumulates them in. *)
Lemma hex_fold_u16 t ds : hex_text t ds -> length t = 4 -> (0 <= hex_fold 0 ds < 65536)%Z.
Proof.
  intros Ht Hl. do 4 (destruct Ht as [|? ? ? ? ?%hex_value_bound Ht]; [done|]).
  destruct Ht; [|done]. unfold hex_fold. cbn [foldl]. lia.
Qed.

Section Strings.
Context {W : Wide}.

Lemma boundary_none_stuck l (c : byte) : next_string_boundary (c :: l) = 
  if is_string_boundary c then Some 0 else S <$> next_string_boundary l.
Proof. by rewrite !next_string_boundary_spec. Qed.

Lemma JBody_run esc run t :
  Forall (fun c => is_string_boundary c = false) run -> JBody esc t -> JBody esc (run ++ t).
Proof. intros Hr Ht. induction Hr; cbn; [done|by constructor]. Qed.

Lemma boundary_cases c :
  is_string_boundary c = true -> c <> quote -> c <> backslash -> (bz c < 32)%Z.
Proof.
  unfold is_string_boundary. rewrite !orb_true_iff, !Ascii.eqb_eq, Z.ltb_lt. tauto.
Qed.

Lemma skip_string_loop_sound fuel l :
  length l < fuel ->
  triple l (skip_string_loop fuel)
    (fun t r _ => exists body, JBody any_escape body /\ t = body ++ [quote]).
Proof.
  revert l. induction fuel as [|fuel IH]; intros l Hl; [lia|]. cbn [skip_string_loop].
  stepv by tail_slice_sound. rewrite next_string_boundary_spec.
  destruct (position is_string_boundary l) as [off|] eqn:Hoff; finish.
  apply position_Some in Hoff as (run & c & r & -> & <- & Hrun & Hc).
  eapply triple_bind; [apply (triple_advance run (c :: r) (fun t r' _ => t = run /\ r' = c :: r)); done|].
  intros ? ? _ _ [-> ->].
  eapply triple_bind; [apply (triple_index_cur c r (fun t r' d => t = [] /\ r' = c :: r /\ d = c)); done|].
  intros ? ? ? _ (-> & -> & ->).
  destruct (Ascii.eqb c quote) eqn:Hq; [|destruct (Ascii.eqb c backslash) eqn:Hb; finish].
  - apply Ascii.eqb_eq in Hq as ->. eapply triple_conseq; [apply advance_1_sound|].
    intros ? ? [] _ [-> ->]. exists run. split; [|done].
    rewrite <- (app_nil_r run). apply JBody_run; [done|constructor].
  - apply Ascii.eqb_eq in Hb as ->.
    stepv by advance_1_sound. stepv by peek_sound. destruct r as [|e r]; cbn [head]; finish.
    stepv by advance_1_sound. rewrite length_app in Hl. cbn in Hl.
    destruct (Ascii.eqb e "u") eqn:Hu.
    + apply Ascii.eqb_eq in Hu as ->. stepv by hex_digits_sound.
      eapply triple_conseq; [apply IH|].
      { rewrite length_app in Hl. lia. }
      intros t2 r2 _ _ (body & Hbody & ->). eexists (run ++ backslash :: "u"%char :: _ ++ body). split.
      * apply JBody_run; [done|]. by eapply body_unicode.
      * rewrite <- !app_assoc. cbn. by rewrite <- !app_assoc.
    + apply Ascii.eqb_neq in Hu. eapply triple_conseq; [apply IH; lia|].
      intros t2 r2 _ _ (body & Hbody & ->). exists (run ++ backslash :: e :: body). split.
      * apply JBody_run; [done|]. by constructor.
      * by rewrite <- !app_assoc.
Qed.

(** One ordinary byte of a string can be skipped before the loop runs: the bulk
    jump of the code is the byte-by-byte scan. *)
Lemma skip_string_loop_plain n c l t a :
  is_string_boundary c = false ->
  runs l (skip_string_loop (S n)) t a -> runs (c :: l) (skip_string_loop (S n)) (c :: t) a.
Proof.
  intros Hc Hl p Hp. specialize (Hl _ (at_input_bump [c] l p Hp)).
  cbn [skip_string_loop length] in *. unfold sbind at 1 in Hl. unfold sbind at 1.
  rewrite (runs_tail_slice l) in Hl by exact (at_input_bump [c] l p Hp).
  rewrite (runs_tail_slice (c :: l)) by done. rewrite boundary_none_stuck, Hc.
  destruct (next_string_boundary l) as [off|]; cbn [fmap option_fmap option_map]; [|done].
  unfold sbind at 1, advance in Hl. unfold sbind at 1, advance. rewrite !bump_bump in *.
  exact Hl.
Qed.


(** The boundary lookups at a quote or a backslash. *)
Lemma boundary_at c l : is_string_boundary c = true -> next_string_boundary (c :: l) = Some 0.
Proof. intros Hc. by rewrite boundary_none_stuck, Hc. Qed.

Lemma runs_loop_head {A} c l (k : bytes -> byte -> scan JsonError A) t a :
  is_string_boundary c = true ->
  runs (c :: l) (k [] c) t a ->
  runs (c :: l)
    (let! r := tail_slice in
     match next_string_boundary r with
     | None => sfail Invalid
     | Some off => advance off ;; let! d := index_cur in k (take off r) d
     end) t a.
Proof.
  intros Hc Hk. eapply runs_bind_nil; [apply runs_tail_slice|].
  rewrite boundary_at by done. cbn [take].
  eapply runs_bind_nil; [apply (runs_advance [])|].
  eapply runs_bind_nil; [apply runs_index_cur|]. done.
Qed.

Lemma skip_string_loop_runs esc body r fuel :
  JBody esc body -> length body < fuel ->
  runs (body ++ quote :: r) (skip_string_loop fuel) (body ++ [quote]) tt.
Proof.
  intros Hbody. revert fuel.
  induction Hbody as [|c t Hc Ht IH|c t Hc Hu Ht IH|h ds t Hh Hl Ht IH];
    intros [|fuel] Hf; [len_lia| |len_lia| |len_lia| |len_lia| ]; cbn [app].
  - apply (runs_loop_head quote r (fun _ c => _)); [done|]. cbn.
    apply runs_advance_1.
  - apply skip_string_loop_plain; [done|]. apply IH. len_lia.
  - apply (runs_loop_head backslash _ (fun _ c => _)); [done|]. cbn [Ascii.eqb].
    change (Ascii.eqb backslash quote) with false. change (Ascii.eqb backslash backslash) with true.
    eapply (runs_bind _ (c :: t ++ quote :: r) _ _ tt tt [backslash] (c :: t ++ [quote])); [done|apply runs_advance_1|].
    eapply runs_bind_nil; [apply runs_peek|]. cbn [head].
    eapply (runs_bind _ (t ++ quote :: r) _ _ tt tt [c] (t ++ [quote])); [done|apply runs_advance_1|].
    rewrite (proj2 (Ascii.eqb_neq _ _) Hu). apply IH. len_lia.
  - rewrite <- app_assoc. apply (runs_loop_head backslash _ (fun _ c => _)); [done|].
    change (Ascii.eqb backslash quote) with false. change (Ascii.eqb backslash backslash) with true.
    eapply (runs_bind _ ("u"%char :: h ++ t ++ quote :: r) _ _ tt tt [backslash] ("u"%char :: (h ++ t) ++ [quote]));
      [done|apply runs_advance_1|].
    eapply runs_bind_nil; [apply runs_peek|]. cbn [head].
    eapply (runs_bind _ (h ++ t ++ quote :: r) _ _ tt tt ["u"%char] ((h ++ t) ++ [quote]));
      [done|apply runs_advance_1|].
    change (Ascii.eqb "u" "u") with true.
    eapply (runs_bind _ (t ++ quote :: r) _ _ (hex_fold 0 ds) tt h (t ++ [quote]));
      [by rewrite <- app_assoc|by apply hex_digits_runs|]. apply IH. len_lia.
Qed.

Lemma skip_string_sound l : triple l skip_string (fun t r _ => JString any_escape t).
Proof.
  intros p Hp. unfold skip_string. destruct Hp as [Hb Hr]. rewrite Hr.
  eapply (triple_bind l _ _ _ (fun t r _ => JString any_escape t)); [apply expect_sound| |done].
  intros t r _ -> ->. eapply triple_conseq; [apply skip_string_loop_sound; len_lia|].
  intros t2 r2 _ _ (body & Hbody & ->). by exists body.
Qed.

Lemma skip_string_runs esc t r : JString esc t -> runs (t ++ r) skip_string t tt.
Proof.
  intros (body & Hbody & ->) p Hp. unfold skip_string.
  assert (rest p = (quote :: body ++ [quote]) ++ r) as -> by apply Hp.
  replace ((quote :: body ++ [quote]) ++ r) with ([quote] ++ body ++ quote :: r) in *
    by (cbn; by rewrite <- app_assoc).
  eapply (runs_bind _ (body ++ quote :: r) _ _ tt tt [quote] (body ++ [quote]));
    [done|apply expect_runs|eapply skip_string_loop_runs; [done|len_lia]|done].
Qed.

Lemma decode_unicode_escape_sound out l :
  triple l (decode_unicode_escape out)
    (fun t r out' => exists ch, EscText ("u"%char :: t) ch /\ out' = out ++ encode_utf8 ch).
Proof.
  unfold decode_unicode_escape, hex4. stepv by hex_digits_sound.
  rename H1 into Hn, x into ds, t into h.
  eapply triple_bind with (Q := fun t r code =>
    (t = [] /\ code = hex_fold 0 ds /\ ~ (55296 <= code <= 57343)%Z)
    \/ exists h2 ds2, hex_text h2 ds2 /\ length h2 = 4
         /\ (55296 <= hex_fold 0 ds <= 56319)%Z /\ (56320 <= hex_fold 0 ds2 <= 57343)%Z
         /\ t = backslash :: "u"%char :: h2
         /\ code = (65536 + Z.shiftl (hex_fold 0 ds - 55296) 10 + (hex_fold 0 ds2 - 56320))%Z).
  - case_if Hhi.
    + apply andb_true_iff in Hhi as [?%Z.leb_le ?%Z.leb_le].
      stepv by expect_sound. stepv by expect_sound. stepv by hex_digits_sound.
      case_if Hlo; finish. apply andb_true_iff in Hlo as [?%Z.leb_le ?%Z.leb_le].
      right. rewrite app_nil_r. by repeat eexists.
    + case_if Hlo; finish. left. split; [done|]. split; [done|].
      apply andb_false_iff in Hhi, Hlo. rewrite !Z.leb_gt in *. lia.
  - intros t r0 code -> Hcode. destruct (char_from_u32 code) as [ch|] eqn:Hch; finish.
    exists ch. split; [|done]. rewrite app_nil_r.
    destruct Hcode as [(-> & -> & Hns)|(h2 & ds2 & Hh2 & Hl2 & Hr1 & Hr2 & -> & ->)].
    + rewrite app_nil_r. by econstructor.
    + by econstructor.
Qed.

Lemma decode_escape_sound out l :
  triple l (decode_escape out)
    (fun t r out' => exists ch, EscText t ch /\ out' = out ++ encode_utf8 ch).
Proof.
  unfold decode_escape. stepv by peek_sound. destruct l as [|c l]; cbn [head]; finish.
  stepv by advance_1_sound. destruct (simple_escape c) as [ch|] eqn:Hc.
  - apply triple_ret. exists ch. by repeat constructor.
  - destruct (Ascii.eqb c "u") eqn:Hu; finish. apply Ascii.eqb_eq in Hu as ->.
    apply decode_unicode_escape_sound.
Qed.

Lemma Decodes_run run t s :
  Forall (fun c => is_string_boundary c = false) run -> Decodes t s ->
  Decodes (run ++ t) (run ++ s).
Proof. intros Hr Ht. induction Hr; cbn; [done|by constructor]. Qed.

Lemma string_decode_loop_sound fuel out l :
  length l < fuel ->
  triple l (string_decode_loop fuel out)
    (fun t r s => exists body s', Decodes body s' /\ s = out ++ s'
                    /\ utf8_valid s = true /\ t = body ++ [quote]).
Proof.
  revert out l. induction fuel as [|fuel IH]; intros out l Hl; [lia|]. cbn [string_decode_loop].
  stepv by tail_slice_sound. rewrite next_string_boundary_spec.
  destruct (position is_string_boundary l) as [off|] eqn:Hoff; finish.
  apply position_Some in Hoff as (run & c & r & -> & <- & Hrun & Hc).
  eapply triple_bind; [apply (triple_advance run (c :: r) (fun t r' _ => t = run /\ r' = c :: r)); done|].
  intros ? ? _ _ [-> ->]. rewrite take_app_length.
  eapply triple_bind; [apply (triple_index_cur c r (fun t r' d => t = [] /\ r' = c :: r /\ d = c)); done|].
  intros ? ? ? _ (-> & -> & ->).
  destruct (Ascii.eqb c quote) eqn:Hq; [|destruct (Ascii.eqb c backslash) eqn:Hb; finish].
  - apply Ascii.eqb_eq in Hq as ->. stepv by advance_1_sound.
    destruct (from_utf8 (out ++ run)) as [s|] eqn:Hs; finish.
    apply from_utf8_Some in Hs as [-> Hs]. exists run, run. repeat split; auto.
    rewrite <- (app_nil_r run) at 1 2. apply Decodes_run; [done|constructor].
  - apply Ascii.eqb_eq in Hb as ->. stepv by advance_1_sound. stepv by decode_escape_sound.
    eapply triple_conseq; [apply IH; len_lia|].
    intros t2 r2 s _ (body & s' & Hbody & -> & Hs & ->).
    eexists (run ++ backslash :: _ ++ body), (run ++ _ ++ s'). split; [|split; [|split; [done|]]].
    + apply Decodes_run; [done|]. by constructor.
    + by rewrite <- !app_assoc.
    + by rewrite <- !app_assoc; cbn; rewrite <- !app_assoc.
Qed.

Lemma string_decode_sound l : triple l string_decode (fun t r s => DString t s).
Proof.
  intros p Hp. unfold string_decode. destruct Hp as [Hb Hr]. rewrite Hr.
  eapply (triple_bind l _ _ _ (fun t r s => DString t s)); [apply expect_sound| |done].
  intros t r _ -> ->. eapply triple_conseq; [apply string_decode_loop_sound; len_lia|].
  intros t2 r2 s _ (body & s' & Hbody & -> & Hs & ->). by exists body.
Qed.

Lemma simple_escape_u : simple_escape "u" = None.
Proof. reflexivity. Qed.

Lemma decode_unicode_escape_runs out t ch r :
  EscText ("u"%char :: t) ch ->
  runs (t ++ r) (decode_unicode_escape out) t (out ++ encode_utf8 ch).
Proof.
  inversion 1 as [c ch' Hc|h ds ch' Hh Hl Hns Hch|h1 ds1 h2 ds2 ch' Hh1 Hl1 Hh2 Hl2 Hr1 Hr2 Hch];
    subst; unfold decode_unicode_escape, hex4.
  - by rewrite simple_escape_u in Hc.
  - eapply (runs_bind _ r _ _ (hex_fold 0 ds) _ t []); [by rewrite app_nil_r|by apply hex_digits_runs|].
    eapply runs_bind_nil with (a := hex_fold 0 ds).
    + case_if Hhi; [|case_if Hlo; [|apply runs_ret]].
      * apply andb_true_iff in Hhi as [?%Z.leb_le ?%Z.leb_le]. lia.
      * apply andb_true_iff in Hlo as [?%Z.leb_le ?%Z.leb_le]. lia.
    + rewrite Hch. apply runs_ret.
  - rewrite <- app_assoc. cbn [app].
    eapply (runs_bind _ _ _ _ (hex_fold 0 ds1) _ h1); [done|by apply hex_digits_runs|].
    eapply (runs_bind _ r _ _ _ _ (backslash :: "u"%char :: h2) []); [by rewrite app_nil_r| |].
    + case_if Hhi.
      2: { apply andb_false_iff in Hhi. rewrite !Z.leb_gt in Hhi. lia. }
      eapply (runs_bind _ ("u"%char :: h2 ++ r) _ _ tt _ [backslash]); [done|apply expect_runs|].
      eapply (runs_bind _ (h2 ++ r) _ _ tt _ ["u"%char]); [done|apply expect_runs|].
      eapply (runs_bind _ r _ _ (hex_fold 0 ds2) _ h2 []); [by rewrite app_nil_r|by apply hex_digits_runs|].
      case_if Hlo; [apply runs_ret|].
      apply andb_false_iff in Hlo. rewrite !Z.leb_gt in Hlo. lia.
    + rewrite Hch. apply runs_ret.
Qed.

Lemma decode_escape_runs out t ch r :
  EscText t ch -> runs (t ++ r) (decode_escape out) t (out ++ encode_utf8 ch).
Proof.
  intros Ht. assert (exists c t', t = c :: t' /\
    (simple_escape c = Some ch /\ t' = [] \/ simple_escape c = None /\ c = "u"%char))
    as (c & t' & -> & Hc).
  { inversion Ht; subst; eexists _, _; (split; [done|]); eauto using simple_escape_u. }
  unfold decode_escape. eapply runs_bind_nil; [apply runs_peek|]. cbn [head app].
  eapply (runs_bind _ (t' ++ r) _ _ tt _ [c] t'); [done|apply runs_advance_1|].
  destruct Hc as [[Hc ->]|[Hc ->]]; rewrite Hc; [apply runs_ret|].
  by apply decode_unicode_escape_runs.
Qed.

Lemma string_decode_loop_plain n out c l t a :
  is_string_boundary c = false ->
  runs l (string_decode_loop (S n) (out ++ [c])) t a ->
  runs (c :: l) (string_decode_loop (S n) out) (c :: t) a.
Proof.
  intros Hc Hl p Hp. specialize (Hl _ (at_input_bump [c] l p Hp)).
  cbn [string_decode_loop length] in *. unfold sbind at 1 in Hl. unfold sbind at 1.
  rewrite (runs_tail_slice l) in Hl by exact (at_input_bump [c] l p Hp).
  rewrite (runs_tail_slice (c :: l)) by done. rewrite boundary_none_stuck, Hc.
  destruct (next_string_boundary l) as [off|]; cbn [fmap option_fmap option_map]; [|done].
  unfold sbind at 1, advance in Hl. unfold sbind at 1, advance. rewrite !bump_bump in *.
  cbn [take]. rewrite <- app_assoc in Hl. exact Hl.
Qed.

(** The part of a loop turn after the bulk jump over [run] to the byte [c]. *)
Definition decode_turn (fuel : nat) (out run : bytes) (c : byte) : scan JsonError str :=
  if Ascii.eqb c quote then
    advance 1 ;;
    match from_utf8 (out ++ run) with Some s => sret s | None => sfail Invalid end
  else if Ascii.eqb c backslash then
    advance 1 ;; let! out := decode_escape (out ++ run) in string_decode_loop fuel out
  else sfail Invalid.

Lemma string_decode_loop_runs body s out r fuel :
  Decodes body s -> utf8_valid (out ++ s) = true -> length body < fuel ->
  runs (body ++ quote :: r) (string_decode_loop fuel out) (body ++ [quote]) (out ++ s).
Proof.
  intros Hbody. revert fuel out.
  induction Hbody as [|c t s Hc Ht IH|e ch t s He Ht IH]; intros [|fuel] out Hs Hf;
    [len_lia| |len_lia| |len_lia| ]; cbn [app].
  - apply (runs_loop_head quote r (decode_turn fuel out)); [done|]. unfold decode_turn.
    change (Ascii.eqb quote quote) with true.
    eapply (runs_bind _ r _ _ tt _ [quote] []); [done|apply runs_advance_1|].
    rewrite (proj2 (from_utf8_Some _ _) (conj eq_refl Hs)). apply runs_ret.
  - replace (out ++ c :: s) with ((out ++ [c]) ++ s) in * by by rewrite <- app_assoc.
    apply string_decode_loop_plain; [done|]. apply IH; [done|len_lia].
  - rewrite <- app_assoc.
    apply (runs_loop_head backslash _ (decode_turn fuel out)); [done|]. unfold decode_turn.
    change (Ascii.eqb backslash quote) with false. change (Ascii.eqb backslash backslash) with true.
    rewrite app_nil_r.
    eapply (runs_bind _ (e ++ t ++ quote :: r) _ _ tt _ [backslash] ((e ++ t) ++ [quote]));
      [done|apply runs_advance_1|].
    eapply (runs_bind _ (t ++ quote :: r) _ _ (out ++ encode_utf8 ch) _ e (t ++ [quote]));
      [by rewrite <- app_assoc|by apply decode_escape_runs|].
    rewrite app_assoc in *. apply IH; [done|len_lia].
Qed.

Lemma string_decode_runs t s r : DString t s -> runs (t ++ r) string_decode t s.
Proof.
  intros (body & Hbody & Hs & ->) p Hp. unfold string_decode.
  assert (rest p = (quote :: body ++ [quote]) ++ r) as -> by apply Hp.
  replace ((quote :: body ++ [quote]) ++ r) with ([quote] ++ body ++ quote :: r) in *
    by (cbn; by rewrite <- app_assoc).
  eapply (runs_bind _ (body ++ quote :: r) _ _ tt s [quote] (body ++ [quote]));
    [done|apply expect_runs| |done].
  apply (string_decode_loop_runs body s []); [done|done|len_lia].
Qed.

(** A decodable string literal is one the skipping scanner passes over. *)
Lemma EscText_body esc e ch t :
  EscText e ch -> (forall c, rfc_escape c -> esc c) -> JBody esc t ->
  JBody esc (backslash :: e ++ t).
Proof.
  intros He Hesc Ht.
  destruct He as [c ch' Hc|h ds ch' Hh Hl Hns Hch|h1 ds1 h2 ds2 ch' Hh1 Hl1 Hh2 Hl2 Hr1 Hr2 Hch].
  - apply body_escape; [apply Hesc; by eexists| |done]. intros ->. by rewrite simple_escape_u in Hc.
  - by eapply body_unicode.
  - cbn. rewrite <- app_assoc. cbn. eapply body_unicode; [done|done|]. by eapply body_unicode.
Qed.

Lemma DString_JString esc t s :
  (forall c, rfc_escape c -> esc c) -> DString t s -> JString esc t.
Proof.
  intros Hesc (body & Hbody & _ & ->). exists body. split; [|done].
  induction Hbody as [|c t s Hc Ht IH|e ch t s He Ht IH]; [constructor|by constructor|].
  by eapply EscText_body.
Qed.
End Strings.

(** ** Numbers and literals *)
Lemma one_or_more_digits_sound l :
  triple l one_or_more_digits (fun t r _ => all_digits t /\ t <> []).
Proof.
  unfold one_or_more_digits. stepv by peek_sound. destruct l as [|c l]; cbn [head]; finish.
  case_if Hc; finish. eapply triple_conseq; [apply digits_sound|].
  intros [|d t] r _ Hl [Ht Hr]; [|done]. cbn in Hl. subst r. by rewrite (Hr c) in Hc.
Qed.

Lemma one_or_more_digits_runs t r :
  all_digits t -> t <> [] -> (forall c, head r = Some c -> is_ascii_digit c = false) ->
  runs (t ++ r) one_or_more_digits t tt.
Proof.
  intros Ht Hne Hr. unfold one_or_more_digits. destruct t as [|c t]; [done|].
  eapply runs_bind_nil; [apply runs_peek|]. cbn [head app].
  inversion Ht as [|? ? Hc Ht']; subst. rewrite Hc. by apply (digits_runs (c :: t)).
Qed.

(** An optional sign or letter: consumed when the test on it succeeds. *)
Lemma optional_sound (b : option byte -> bool) (cs : list byte) l :
  (forall o, b o = true -> exists c, o = Some c /\ c ∈ cs) ->
  triple l (let! o := peek in if b o then advance 1 else sret tt : scan JsonError unit)
    (fun t r _ => t = [] \/ exists c, c ∈ cs /\ t = [c]).
Proof.
  intros Hb. stepv by peek_sound. case_if Hc; finish; [|by left].
  apply Hb in Hc as (c & Hh & Hc). destruct l as [|d l]; [done|]. injection Hh as ->.
  eapply triple_conseq; [apply advance_1_sound|]. naive_solver.
Qed.

Lemma minus_test o : is_byte "-" o = true -> exists c, o = Some c /\ c ∈ ["-"%char].
Proof. intros H%is_byte_spec. exists "-"%char. split; [done|set_solver]. Qed.
Lemma sign_test o :
  is_byte "+" o || is_byte "-" o = true -> exists c, o = Some c /\ c ∈ ["+"; "-"]%char.
Proof.
  intros [H%is_byte_spec|H%is_byte_spec]%orb_true_iff; eexists; (split; [done|set_solver]).
Qed.

Definition number_sign : scan JsonError unit :=
  let! o := peek in if is_byte "-" o then advance 1 else sret tt.
Definition number_int : scan JsonError unit :=
  let! o := peek in
  match o with
  | Some c =>
      if Ascii.eqb c "0" then advance 1
      else if is_ascii_digit c then digits else sfail Invalid
  | None => sfail Invalid
  end.
Definition number_frac : scan JsonError unit :=
  let! o := peek in
  if is_byte "." o then advance 1 ;; one_or_more_digits else sret tt.
Definition number_exp : scan JsonError unit :=
  let! o := peek in
  if is_byte "e" o || is_byte "E" o then
    advance 1 ;;
    (let! o := peek in if is_byte "+" o || is_byte "-" o then advance 1 else sret tt) ;;
    one_or_more_digits
  else sret tt.

Lemma sbind_assoc {E A B C} (m : scan E A) (f : A -> scan E B) (g : B -> scan E C) p :
  sbind (sbind m f) g p = sbind m (fun a => sbind (f a) g) p.
Proof. unfold sbind. by destruct (m p). Qed.

(** [number] is its four parts in sequence. *)
Lemma number_parts p :
  number p = (number_sign ;; number_int ;; number_frac ;; number_exp) p.
Proof.
  unfold number, number_sign, number_int, number_frac, number_exp.
  unfold sbind at 1. unfold peek at 1.
  unfold sbind, peek, sret, sfail, advance. cbn beta iota.
  repeat case_match; congruence.
Qed.

Lemma number_int_sound l : triple l number_int (fun t r _ => JInt t).
Proof.
  unfold number_int. stepv by peek_sound. destruct l as [|c l]; cbn [head]; finish.
  case_if Hz; [|case_if Hd; finish].
  - apply Ascii.eqb_eq in Hz as ->. eapply triple_conseq; [apply advance_1_sound|].
    intros ? ? _ _ [-> ->]. by left.
  - apply Ascii.eqb_neq in Hz. eapply triple_conseq; [apply digits_sound|].
    intros [|d t] r _ Hl [Ht Hr]; cbn in Hl; [subst r; by rewrite (Hr c) in Hd|].
    injection Hl as <- ->. right. by exists c, t.
Qed.

Lemma number_frac_sound l : triple l number_frac (fun t r _ => JFrac t).
Proof.
  unfold number_frac. stepv by peek_sound. case_if Hc; finish; [|by left].
  apply is_byte_spec in Hc. destruct l as [|d l]; [done|]. injection Hc as ->.
  stepv by advance_1_sound. eapply triple_conseq; [apply one_or_more_digits_sound|].
  intros t r _ _ [Ht Hne]. right. by exists t.
Qed.

Lemma number_exp_sound l : triple l number_exp (fun t r _ => JExp t).
Proof.
  unfold number_exp. stepv by peek_sound. case_if Hc; finish; [|by left].
  destruct l as [|d l]; [done|]. cbn [head] in Hc.
  assert (Hd : d = "e"%char \/ d = "E"%char).
  { apply orb_true_iff in Hc as [H%is_byte_spec|H%is_byte_spec]; injection H; auto. }
  stepv by advance_1_sound. stepv by optional_sound; [by apply sign_test|].
  eapply triple_conseq; [apply one_or_more_digits_sound|].
  intros t2 r2 _ _ [Ht Hne]. right. exists d, t, t2. repeat split; auto.
  match goal with H : _ \/ exists _, _ |- _ => destruct H as [->|(c & Hcs & ->)] end; [auto|].
  apply list_elem_of_In in Hcs as [<-|[<-|[]]]; auto.
Qed.

Lemma number_sound l : triple l number (fun t r _ => JNumber t).
Proof.
  intros p Hp. rewrite number_parts. revert p Hp. change (triple l (number_sign ;; number_int ;; number_frac ;; number_exp)
    (fun t r _ => JNumber t)).
  unfold number_sign at 1. stepv by optional_sound; [by apply minus_test|].
  match goal with H : _ \/ exists _, _ |- _ => rename H into Hsign end.
  stepv by number_int_sound. stepv by number_frac_sound.
  eapply triple_conseq; [apply number_exp_sound|]. intros t4 r4 a4 _ Hexp.
  eexists _, _, _, _. split; [done|]. repeat split; try done.
  destruct Hsign as [->|(c & Hcs & ->)]; [auto|].
  apply list_elem_of_In in Hcs as [<-|[]]; auto.
Qed.

Lemma number_follow_digit r : number_follow r -> forall c, head r = Some c -> is_ascii_digit c = false.
Proof. intros Hr c Hc. by destruct (Hr c Hc). Qed.

(** A part of a number is read whole when the input after it cannot extend it. *)
Lemma number_int_runs t r :
  JInt t -> (forall c, head r = Some c -> is_ascii_digit c = false) ->
  runs (t ++ r) number_int t tt.
Proof.
  intros Ht Hr. unfold number_int. destruct Ht as [->|(c & ds & -> & Hc & Hds)].
  - eapply runs_bind_nil; [apply runs_peek|]. cbn [head app]. apply runs_advance_1.
  - eapply runs_bind_nil; [apply runs_peek|]. cbn [head app].
    rewrite (proj2 (Ascii.eqb_neq _ _) Hc). inversion Hds as [|? ? Hd]; subst. rewrite Hd.
    by apply (digits_runs (c :: ds)).
Qed.

Lemma number_frac_runs t r :
  JFrac t -> (forall c, head r = Some c -> is_ascii_digit c = false /\ c <> "."%char) ->
  runs (t ++ r) number_frac t tt.
Proof.
  intros Ht Hr. unfold number_frac. eapply runs_bind_nil; [apply runs_peek|].
  destruct Ht as [->|(ds & -> & Hds & Hne)]; cbn [app].
  - destruct (is_byte "." (head r)) eqn:Hd; [|apply runs_ret].
    apply is_byte_spec in Hd. by destruct (Hr _ Hd).
  - eapply (runs_bind _ (ds ++ r) _ _ tt tt ["."%char]); [done|apply runs_advance_1|].
    apply one_or_more_digits_runs; naive_solver.
Qed.

Lemma number_exp_runs t r : JExp t -> number_follow r -> runs (t ++ r) number_exp t tt.
Proof.
  intros Ht Hr. unfold number_exp. eapply runs_bind_nil; [apply runs_peek|].
  destruct Ht as [->|(e & sign & ds & -> & He & Hsign & Hds & Hne)]; cbn [app].
  - case_if Hd; [|apply runs_ret]. apply orb_true_iff in Hd as [Hd%is_byte_spec|Hd%is_byte_spec];
      apply Hr in Hd; naive_solver.
  - assert (is_byte "e" (head (e :: (sign ++ ds) ++ r))
            || is_byte "E" (head (e :: (sign ++ ds) ++ r)) = true) as ->.
    { by destruct He as [-> | ->]. }
    eapply (runs_bind _ ((sign ++ ds) ++ r) _ _ tt tt [e]); [done|apply runs_advance_1|].
    rewrite <- app_assoc. eapply (runs_bind _ (ds ++ r) _ _ tt tt sign); [done| |].
    + eapply runs_bind_nil; [apply runs_peek|].
      destruct Hsign as [->|[->| ->]]; cbn [app]; [|apply runs_advance_1..].
      destruct ds as [|d ds]; [done|]. inversion Hds as [|? ? Hd ?]; subst. cbn [app head].
      case_if Hs; [|apply runs_ret].
      by apply orb_true_iff in Hs as [[= ->]%is_byte_spec|[= ->]%is_byte_spec].
    + apply one_or_more_digits_runs; [done|done|]. by apply number_follow_digit.
Qed.

Lemma head_app {A} (t r : list A) : head (t ++ r) = match t with [] => head r | c :: _ => Some c end.
Proof. by destruct t. Qed.

Lemma number_runs t r : JNumber t -> number_follow r -> runs (t ++ r) number t tt.
Proof.
  intros (sign & int & frac & exp & -> & Hsign & Hint & Hfrac & Hexp) Hr.
  intros p Hp. rewrite number_parts. revert p Hp.
  change (runs ((sign ++ int ++ frac ++ exp) ++ r)
    (number_sign ;; number_int ;; number_frac ;; number_exp) (sign ++ int ++ frac ++ exp) tt).
  rewrite <- !app_assoc.
  assert (Hexp_head : forall c, head (exp ++ r) = Some c -> is_ascii_digit c = false /\ c <> "."%char).
  { intros c. rewrite head_app. destruct Hexp as [->|(e & s & ds & -> & [->| ->] & _)].
    - intros Hc. destruct (Hr c Hc) as (? & ? & _). done.
    - by intros [= <-].
    - by intros [= <-]. }
  eapply (runs_bind _ (int ++ frac ++ exp ++ r) _ _ tt tt sign); [done| |].
  { unfold number_sign. eapply runs_bind_nil; [apply runs_peek|].
    destruct Hsign as [->| ->]; cbn [app]; [|apply runs_advance_1].
    case_if Hs; [|apply runs_ret]. apply is_byte_spec in Hs.
    destruct Hint as [->|(c & ds & -> & Hc & Hds)]; [done|]. injection Hs as ->.
    by inversion Hds. }
  eapply (runs_bind _ (frac ++ exp ++ r) _ _ tt tt int); [done| |].
  { apply number_int_runs; [done|]. intros c. rewrite head_app.
    destruct Hfrac as [->|(ds & -> & _)]; [naive_solver|by intros [= <-]]. }
  eapply (runs_bind _ (exp ++ r) _ _ tt tt frac); [done|by apply number_frac_runs|].
  by apply number_exp_runs.
Qed.

Lemma literal_sound text l : triple l (literal text) (fun t r _ => t = text).
Proof.
  unfold literal. stepv by tail_slice_sound. case_if Hs; finish.
  apply starts_with_spec in Hs as [r ->]. by apply triple_advance.
Qed.
Lemma literal_runs text r : runs (text ++ r) (literal text) text tt.
Proof.
  unfold literal. eapply runs_bind_nil; [apply runs_tail_slice|].
  rewrite (proj2 (starts_with_spec _ _)) by eauto. apply runs_advance.
Qed.

Lemma is_byte_head c l : is_byte c (head l) = true -> exists r, l = c :: r.
Proof. intros H%is_byte_spec. destruct l; [done|]. injection H as ->. eauto. Qed.
