(* ===== verification/JsonValues.v ===== *)
(** * The recursive productions against the grammar

    Soundness and completeness of [skip_value] and the object and array loops. *)
From stdpp Require Import base option list strings numbers sets.
From Stdlib Require Import Ascii ZArith Lia.
From S2P Require Import Prelude.
From S2P Require Import JsonScan.
From S2P Require Import JsonGrammar.
From S2P Require Import JsonTriples.

Open Scope osp_scope.

(** ** Values *)
Section Values.
Context {W : Wide}.

(** Leading white space, then a value. *)
Definition WsVal (esc : byte -> Prop) (t : bytes) : Prop :=
  exists w v, t = w ++ v /\ ws w /\ JVal esc v.
(** What the object and array methods read after their opening bracket. *)
Definition ObjText (esc : byte -> Prop) (t : bytes) : Prop :=
  (exists w, ws w /\ t = w ++ ["}"%char]) \/ (exists m, JMembers esc m /\ t = m ++ ["}"%char]).
Definition ArrText (esc : byte -> Prop) (t : bytes) : Prop :=
  (exists w, ws w /\ t = w ++ ["]"%char]) \/ (exists m, JElements esc m /\ t = m ++ ["]"%char]).

Lemma ws_app w1 w2 : ws w1 -> ws w2 -> ws (w1 ++ w2).
Proof. apply Forall_app_2. Qed.

Lemma members_prepend w esc t : ws w -> JMembers esc t -> JMembers esc (w ++ t).
Proof.
  intros Hw Ht. destruct Ht as [m Hm|m t Hm Ht]; destruct Hm as [w1 k w2 w3 v w4 ? ? ? ? ? ?].
  - rewrite app_assoc. apply members_one. constructor; auto using ws_app.
  - rewrite (app_assoc w). rewrite (app_assoc w w1). apply members_cons; [|done].
    constructor; auto using ws_app.
Qed.
Lemma elements_prepend w esc t : ws w -> JElements esc t -> JElements esc (w ++ t).
Proof.
  intros Hw Ht. destruct Ht as [w1 v w2|w1 v w2 t]; rewrite app_assoc.
  - apply elements_one; auto using ws_app.
  - apply elements_cons; auto using ws_app.
Qed.

(** The skipping scanner reads what the lenient grammar describes, given fuel in
    proportion to the input left. *)
Record value_sound (fuel : nat) : Prop := {
  vs_value l : 3 * length l + 2 <= fuel ->
    triple l (skip_value fuel) (fun t r _ => WsVal any_escape t);
  vs_object l : 3 * length l + 4 <= fuel ->
    triple ("{"%char :: l) (skip_object fuel)
      (fun t r _ => exists t', t = "{"%char :: t' /\ ObjText any_escape t');
  vs_members l : 3 * length l + 3 <= fuel ->
    triple l (skip_members fuel)
      (fun t r _ => exists m, JMembers any_escape m /\ t = m ++ ["}"%char]);
  vs_array l : 3 * length l + 4 <= fuel ->
    triple ("["%char :: l) (skip_array fuel)
      (fun t r _ => exists t', t = "["%char :: t' /\ ArrText any_escape t');
  vs_elements l : 3 * length l + 3 <= fuel ->
    triple l (skip_elements fuel)
      (fun t r _ => exists m, JElements any_escape m /\ t = m ++ ["]"%char])
}.

Lemma ObjText_val esc t : ObjText esc t -> JVal esc ("{"%char :: t).
Proof. intros [(w & Hw & ->)|(m & Hm & ->)]; by constructor. Qed.
Lemma ArrText_val esc t : ArrText esc t -> JVal esc ("["%char :: t).
Proof. intros [(w & Hw & ->)|(m & Hm & ->)]; by constructor. Qed.

Lemma value_sound_value fuel l :
  value_sound fuel -> 3 * length l + 2 <= S fuel ->
  triple l (skip_value (S fuel)) (fun t r _ => WsVal any_escape t).
Proof.
  intros IH Hf. cbn [skip_value]. stepv by skip_ws_sound.
  rename t into w. stepv by peek_sound. destruct r as [|c l]; cbn [head]; finish.
  assert (Hval : forall m : scan JsonError unit,
    triple (c :: l) m (fun t r _ => JVal any_escape t) ->
    triple (c :: l) m (fun t2 _ _ => WsVal any_escape (w ++ [] ++ t2))).
  { intros m Hm. eapply triple_conseq; [exact Hm|]. intros t r u _ Ht. by exists w, t. }
  case_ifs; finish; try (apply Hval).
  - apply Ascii.eqb_eq in Hc as ->. eapply triple_conseq; [apply vs_object; [done|len_lia]|].
    intros t r _ _ (t' & -> & Ht). by apply ObjText_val.
  - apply Ascii.eqb_eq in Hc0 as ->. eapply triple_conseq; [apply vs_array; [done|len_lia]|].
    intros t r _ _ (t' & -> & Ht). by apply ArrText_val.
  - eapply triple_conseq; [apply skip_string_sound|]. intros t r u _ Ht. by apply val_string.
  - eapply triple_conseq; [apply literal_sound|]. intros t r _ _ ->. apply val_true.
  - eapply triple_conseq; [apply literal_sound|]. intros t r _ _ ->. apply val_false.
  - eapply triple_conseq; [apply literal_sound|]. intros t r _ _ ->. apply val_null.
  - eapply triple_conseq; [apply number_sound|]. intros t r u _ Ht. by apply val_number.
Qed.

Lemma value_sound_object fuel l :
  value_sound fuel -> 3 * length l + 4 <= S fuel ->
  triple ("{"%char :: l) (skip_object (S fuel))
    (fun t r _ => exists t', t = "{"%char :: t' /\ ObjText any_escape t').
Proof.
  intros IH Hf. cbn [skip_object]. stepv by advance_1_sound. stepv by skip_ws_sound.
  rename t into w. stepv by peek_sound. case_if Hc.
  - apply is_byte_head in Hc as [? ->].
    eapply triple_conseq; [apply advance_1_sound|]. intros t r' _ _ [-> _].
    eexists. split; [done|]. left. by exists w.
  - eapply triple_conseq; [apply vs_members; [done|len_lia]|].
    intros t r' _ _ (m & Hm & ->). eexists. split; [done|]. right. exists (w ++ m).
    split; [by apply members_prepend|]. by rewrite <- app_assoc.
Qed.

Lemma value_sound_array fuel l :
  value_sound fuel -> 3 * length l + 4 <= S fuel ->
  triple ("["%char :: l) (skip_array (S fuel))
    (fun t r _ => exists t', t = "["%char :: t' /\ ArrText any_escape t').
Proof.
  intros IH Hf. cbn [skip_array]. stepv by advance_1_sound. stepv by skip_ws_sound.
  rename t into w. stepv by peek_sound. case_if Hc.
  - apply is_byte_head in Hc as [? ->].
    eapply triple_conseq; [apply advance_1_sound|]. intros t r' _ _ [-> _].
    eexists. split; [done|]. left. by exists w.
  - eapply triple_conseq; [apply vs_elements; [done|len_lia]|].
    intros t r' _ _ (m & Hm & ->). eexists. split; [done|]. right. exists (w ++ m).
    split; [by apply elements_prepend|]. by rewrite <- app_assoc.
Qed.

Lemma value_sound_members fuel l :
  value_sound fuel -> 3 * length l + 3 <= S fuel ->
  triple l (skip_members (S fuel))
    (fun t r _ => exists m, JMembers any_escape m /\ t = m ++ ["}"%char]).
Proof.
  intros IH Hf. cbn [skip_members]. stepv by skip_ws_sound. rename t into w1.
  stepv by skip_string_sound as Hk. rename t into k.
  assert (2 <= length k).
  { destruct Hk as (body & _ & ->). len_lia. }
  stepv by skip_ws_sound. rename t into w2. stepv by expect_sound.
  stepv by (vs_value _ IH) as (w3 & v & -> & Hw3 & Hv).
  stepv by skip_ws_sound. rename t into w4. stepv by peek_sound.
  assert (Hm : JMember any_escape (w1 ++ k ++ w2 ++ ":"%char :: w3 ++ v ++ w4)) by by constructor.
  case_ifs; finish.
  - apply is_byte_head in Hc as [? ->].
    stepv by advance_1_sound. eapply triple_conseq; [apply vs_members; [done|len_lia]|].
    intros t r _ _ (m & Hms & ->). eexists. split; [by apply members_cons|].
    repeat (rewrite <- ?app_assoc; cbn [app]). done.
  - apply is_byte_head in Hc0 as [? ->].
    eapply triple_conseq; [apply advance_1_sound|]. intros t r _ _ [-> _].
    eexists. split; [by apply members_one|].
    repeat (rewrite <- ?app_assoc; cbn [app]). done.
Qed.

Lemma value_sound_elements fuel l :
  value_sound fuel -> 3 * length l + 3 <= S fuel ->
  triple l (skip_elements (S fuel))
    (fun t r _ => exists m, JElements any_escape m /\ t = m ++ ["]"%char]).
Proof.
  intros IH Hf. cbn [skip_elements]. stepv by (vs_value _ IH) as (w1 & v & -> & Hw1 & Hv).
  stepv by skip_ws_sound. rename t into w2. stepv by peek_sound.
  case_ifs; finish.
  - apply is_byte_head in Hc as [? ->].
    stepv by advance_1_sound. eapply triple_conseq; [apply vs_elements; [done|len_lia]|].
    intros t r _ _ (m & Hms & ->). eexists. split; [by apply (elements_cons _ w1 v w2 m)|].
    repeat (rewrite <- ?app_assoc; cbn [app]). done.
  - apply is_byte_head in Hc0 as [? ->].
    eapply triple_conseq; [apply advance_1_sound|]. intros t r _ _ [-> _].
    eexists. split; [by apply (elements_one _ w1 v w2)|].
    repeat (rewrite <- ?app_assoc; cbn [app]). done.
Qed.

Lemma value_sound_all fuel : value_sound fuel.
Proof.
  induction fuel as [|fuel IH]; [split; intros; lia|]. split; intros l Hf.
  - by apply value_sound_value.
  - by apply value_sound_object.
  - by apply value_sound_members.
  - by apply value_sound_array.
  - by apply value_sound_elements.
Qed.

Lemma skip_value_here_sound l :
  triple l skip_value_here (fun t r _ => WsVal any_escape t).
Proof.
  intros p Hp. unfold skip_value_here. assert (rest p = l) as -> by apply Hp.
  apply (vs_value _ (value_sound_all _)); [done|done].
Qed.
End Values.

(** ** Completeness of the value scanner *)
Ltac byte_cases c := destruct c as [[] [] [] [] [] [] [] []]; try done; try (repeat split; discriminate).

Lemma number_start_dispatch c :
  number_start c = true ->
  Ascii.eqb c "{" = false /\ Ascii.eqb c "[" = false /\ Ascii.eqb c quote = false
  /\ Ascii.eqb c "t" = false /\ Ascii.eqb c "f" = false /\ Ascii.eqb c "n" = false
  /\ is_json_ws c = false.
Proof. by destruct c as [[] [] [] [] [] [] [] []]. Qed.

Lemma ws_not_number c : is_json_ws c = true ->
  is_ascii_digit c = false /\ c <> "."%char /\ c <> "e"%char /\ c <> "E"%char.
Proof. destruct c as [[] [] [] [] [] [] [] []]; try done; by repeat split. Qed.

Lemma number_follow_ws w r : ws w -> number_follow r -> number_follow (w ++ r).
Proof.
  intros Hw Hr c. rewrite head_app. destruct Hw as [|d w Hd Hw]; [apply Hr|].
  intros [= <-]. by apply ws_not_number.
Qed.
Lemma number_follow_nil : number_follow [].
Proof. by intros c. Qed.
Lemma number_follow_close c r :
  c ∈ [","; "}"; "]"]%char -> number_follow (c :: r).
Proof.
  intros Hc d [= <-]. apply list_elem_of_In in Hc as [<-|[<-|[<-|[]]]]; by repeat split.
Qed.
#[export] Hint Resolve number_follow_ws number_follow_nil : osp.

Lemma JNumber_start t : JNumber t -> exists c t', t = c :: t' /\ number_start c = true.
Proof.
  intros (sign & int & frac & exp & -> & Hsign & Hint & _).
  destruct Hsign as [->| ->]; cbn [app]; [|by eexists _, _].
  destruct Hint as [->|(c & ds & -> & Hc & Hds)]; cbn [app]; eexists _, _; (split; [done|]); [done|].
  inversion Hds as [|? ? Hd]; subst. unfold number_start. by rewrite Hd, orb_true_r.
Qed.

Lemma JString_start esc t : JString esc t -> exists t', t = quote :: t'.
Proof. intros (body & _ & ->). eauto. Qed.

Lemma JVal_start esc t : JVal esc t -> exists c t', t = c :: t' /\ is_json_ws c = false.
Proof.
  intros Ht. destruct Ht as [t Ht|t Ht| | | | | | |].
  1: { apply JString_start in Ht as [t' ->]. by eexists _, _. }
  1: { apply JNumber_start in Ht as (c & t' & -> & Hc). eexists _, _. split; [done|].
       by apply number_start_dispatch. }
  all: by eexists _, _.
Qed.

Section Completeness.
Context {W : Wide} (esc : byte -> Prop).

Definition value_runs (t : bytes) : Prop :=
  forall w r fuel, ws w -> number_follow r -> 3 * length (w ++ t ++ r) + 2 <= fuel ->
    runs (w ++ t ++ r) (skip_value fuel) (w ++ t) tt.
Definition members_runs (t : bytes) : Prop :=
  forall r fuel, 3 * length (t ++ "}"%char :: r) + 3 <= fuel ->
    runs (t ++ "}"%char :: r) (skip_members fuel) (t ++ ["}"%char]) tt.
Definition elements_runs (t : bytes) : Prop :=
  forall r fuel, 3 * length (t ++ "]"%char :: r) + 3 <= fuel ->
    runs (t ++ "]"%char :: r) (skip_elements fuel) (t ++ ["]"%char]) tt.
(** One member read by a turn of the members loop. *)
Definition member_runs (t : bytes) : Prop :=
  forall A (k : scan JsonError A) r fuel t2 a,
    number_follow r -> (forall c, head r = Some c -> is_json_ws c = false) ->
    3 * length (t ++ r) + 2 <= fuel ->
    runs r k t2 a ->
    runs (t ++ r)
      (skip_ws ;; skip_string ;; skip_ws ;; expect ":" ;; skip_value fuel ;; skip_ws ;; k)
      (t ++ t2) a.

Lemma skip_value_runs_intro c t w r m fuel :
  ws w -> is_json_ws c = false ->
  (forall p, (match Some c with
   | None => sfail Invalid
   | Some c =>
      if Ascii.eqb c "{" then skip_object fuel
      else if Ascii.eqb c "[" then skip_array fuel
      else if Ascii.eqb c quote then skip_string
      else if Ascii.eqb c "t" then literal (lit "true")
      else if Ascii.eqb c "f" then literal (lit "false")
      else if Ascii.eqb c "n" then literal (lit "null")
      else if number_start c then number
      else sfail Invalid
   end : scan JsonError unit) p = m p) ->
  runs ((c :: t) ++ r) m (c :: t) tt ->
  runs (w ++ (c :: t) ++ r) (skip_value (S fuel)) (w ++ c :: t) tt.
Proof.
  intros Hw Hc Hm Hr. cbn [skip_value].
  eapply (runs_bind _ ((c :: t) ++ r) _ _ tt tt w); [done| |].
  { apply skip_ws_runs; [done|]. by intros ? [= <-]. }
  eapply runs_bind_nil; [apply runs_peek|]. cbn [head app].
  intros p Hp. rewrite <- (Hr p Hp). apply Hm.
Qed.

Lemma value_runs_string t : JString esc t -> value_runs t.
Proof.
  intros Ht w r [|fuel] Hw Hr Hf; [len_lia|].
  pose proof (JString_start _ _ Ht) as [t' ->].
  apply (skip_value_runs_intro quote t' w r skip_string); try done.
  by apply (skip_string_runs esc).
Qed.

Lemma value_runs_number t : JNumber t -> value_runs t.
Proof.
  intros Ht w r [|fuel] Hw Hr Hf; [len_lia|].
  pose proof (JNumber_start _ Ht) as (c & t' & -> & Hc).
  destruct (number_start_dispatch c Hc) as (H1 & H2 & H3 & H4 & H5 & H6 & H7).
  apply (skip_value_runs_intro c t' w r number); [done|done| |by apply number_runs].
  intros p. by rewrite H1, H2, H3, H4, H5, H6, Hc.
Qed.

Lemma value_runs_literal c t :
  c :: t = lit "true" \/ c :: t = lit "false" \/ c :: t = lit "null" -> value_runs (c :: t).
Proof.
  intros Ht w r [|fuel] Hw Hr Hf; [len_lia|].
  apply (skip_value_runs_intro c t w r (literal (c :: t))); [done| | |apply literal_runs].
  all: by destruct Ht as [Ht|[Ht|Ht]]; injection Ht as -> ->.
Qed.

(** An object or array whose text after the bracket is [t]. *)
Lemma value_runs_object t :
  (forall r fuel, 3 * length (t ++ r) + 4 <= fuel ->
     runs ("{"%char :: t ++ r) (skip_object fuel) ("{"%char :: t) tt) ->
  value_runs ("{"%char :: t).
Proof.
  intros Ht w r [|fuel] Hw Hr Hf; [len_lia|].
  apply (skip_value_runs_intro "{" t w r (skip_object fuel)); try done.
  apply Ht. len_lia.
Qed.
Lemma value_runs_array t :
  (forall r fuel, 3 * length (t ++ r) + 4 <= fuel ->
     runs ("["%char :: t ++ r) (skip_array fuel) ("["%char :: t) tt) ->
  value_runs ("["%char :: t).
Proof.
  intros Ht w r [|fuel] Hw Hr Hf; [len_lia|].
  apply (skip_value_runs_intro "[" t w r (skip_array fuel)); try done.
  apply Ht. len_lia.
Qed.

Lemma empty_object_runs w r fuel :
  ws w -> 1 <= fuel ->
  runs ("{"%char :: (w ++ ["}"%char]) ++ r) (skip_object fuel) ("{"%char :: w ++ ["}"%char]) tt.
Proof.
  intros Hw Hf. destruct fuel as [|fuel]; [lia|]. cbn [skip_object]. rewrite <- app_assoc. cbn [app].
  eapply (runs_bind _ (w ++ "}"%char :: r) _ _ tt tt ["{"%char]); [done|apply runs_advance_1|].
  eapply (runs_bind _ ("}"%char :: r) _ _ tt tt w); [done| |].
  { apply skip_ws_runs; [done|]. by intros ? [= <-]. }
  eapply runs_bind_nil; [apply runs_peek|]. apply runs_advance_1.
Qed.
Lemma empty_array_runs w r fuel :
  ws w -> 1 <= fuel ->
  runs ("["%char :: (w ++ ["]"%char]) ++ r) (skip_array fuel) ("["%char :: w ++ ["]"%char]) tt.
Proof.
  intros Hw Hf. destruct fuel as [|fuel]; [lia|]. cbn [skip_array]. rewrite <- app_assoc. cbn [app].
  eapply (runs_bind _ (w ++ "]"%char :: r) _ _ tt tt ["["%char]); [done|apply runs_advance_1|].
  eapply (runs_bind _ ("]"%char :: r) _ _ tt tt w); [done| |].
  { apply skip_ws_runs; [done|]. by intros ? [= <-]. }
  eapply runs_bind_nil; [apply runs_peek|]. apply runs_advance_1.
Qed.

(** White space skipped twice is white space skipped once. *)
Lemma skip_ws_bump {E A} (k : scan E A) w l p :
  at_input (w ++ l) p -> ws w -> (forall c, head l = Some c -> is_json_ws c = false) ->
  (skip_ws ;; k) (bump (length w) p) = (skip_ws ;; k) p.
Proof.
  intros Hp Hw Hl. unfold sbind.
  rewrite (skip_ws_runs w l Hw Hl p Hp).
  rewrite (skip_ws_runs_nil l Hl _ (at_input_bump _ _ _ Hp)). by rewrite bump_0.
Qed.

Lemma skip_value_bump fuel w l p :
  at_input (w ++ l) p -> ws w -> (forall c, head l = Some c -> is_json_ws c = false) ->
  skip_value fuel (bump (length w) p) = skip_value fuel p.
Proof. destruct fuel; [done|]. cbn [skip_value]. apply skip_ws_bump. Qed.

Lemma JMembers_start t :
  JMembers esc t -> exists w t', t = w ++ quote :: t' /\ ws w.
Proof.
  intros Ht. destruct Ht as [m Hm|m t Hm Ht]; destruct Hm as [w1 k w2 w3 v w4 Hw1 Hk ? ? ? ?];
    apply JString_start in Hk as [k' ->]; exists w1; eexists; (split; [|done]);
    by repeat (rewrite <- ?app_assoc; cbn [app]).
Qed.
Lemma JElements_start t :
  JElements esc t -> exists w c t', t = w ++ c :: t' /\ ws w /\ is_json_ws c = false /\ c <> "]"%char.
Proof.
  intros Ht. destruct Ht as [w1 v w2 ? Hv ?|w1 v w2 t ? Hv ? ?];
    destruct (JVal_start _ _ Hv) as (c & v' & -> & Hc); exists w1, c; eexists;
    (split; [by cbn [app]|]); repeat split; try done; intros ->.
  all: inversion Hv; subst; try discriminate;
    match goal with
    | H : JString _ _ |- _ => by apply JString_start in H as [? [=]]
    | H : JNumber _ |- _ => by apply JNumber_start in H as (? & ? & [= <- _] & [=])
    end.
Qed.

Lemma full_object_runs t r fuel :
  JMembers esc t -> members_runs t -> 3 * length ((t ++ ["}"%char]) ++ r) + 4 <= fuel ->
  runs ("{"%char :: (t ++ ["}"%char]) ++ r) (skip_object fuel) ("{"%char :: t ++ ["}"%char]) tt.
Proof.
  intros Ht Hrun Hf. destruct fuel as [|[|fuel]]; [lia..|]. cbn [skip_object].
  rewrite <- app_assoc in *. cbn [app] in *.
  eapply (runs_bind _ (t ++ "}"%char :: r) _ _ tt tt ["{"%char]); [done|apply runs_advance_1|].
  intros p Hp. rewrite <- (Hrun r (S fuel)) by (done || len_lia).
  destruct (JMembers_start t Ht) as (w & t' & -> & Hw). rewrite <- app_assoc in Hp.
  assert (Hq : forall c, head ((quote :: t') ++ "}"%char :: r) = Some c -> is_json_ws c = false)
    by by intros ? [= <-].
  unfold sbind at 1. rewrite (skip_ws_runs w _ Hw Hq p Hp).
  unfold sbind at 1, peek at 1. rewrite (at_input_lookup _ _ (at_input_bump _ _ _ Hp)). cbn [head app].
  change (is_byte "}" (Some quote)) with false. cbn [skip_members].
  by apply (skip_ws_bump _ w _ p Hp Hw Hq).
Qed.
Lemma full_array_runs t r fuel :
  JElements esc t -> elements_runs t -> 3 * length ((t ++ ["]"%char]) ++ r) + 4 <= fuel ->
  runs ("["%char :: (t ++ ["]"%char]) ++ r) (skip_array fuel) ("["%char :: t ++ ["]"%char]) tt.
Proof.
  intros Ht Hrun Hf. destruct fuel as [|[|fuel]]; [lia..|]. cbn [skip_array].
  rewrite <- app_assoc in *. cbn [app] in *.
  eapply (runs_bind _ (t ++ "]"%char :: r) _ _ tt tt ["["%char]); [done|apply runs_advance_1|].
  intros p Hp. rewrite <- (Hrun r (S fuel)) by (done || len_lia).
  destruct (JElements_start t Ht) as (w & c & t' & -> & Hw & Hc & Hne). rewrite <- app_assoc in Hp.
  assert (Hq : forall d, head ((c :: t') ++ "]"%char :: r) = Some d -> is_json_ws d = false)
    by by intros ? [= <-].
  unfold sbind at 1. rewrite (skip_ws_runs w _ Hw Hq p Hp).
  unfold sbind at 1, peek at 1. rewrite (at_input_lookup _ _ (at_input_bump _ _ _ Hp)). cbn [head app].
  assert (is_byte "]" (Some c) = false) as ->.
  { apply not_true_iff_false. by intros [= ->]%is_byte_spec. }
  cbn [skip_elements]. unfold sbind. by rewrite (skip_value_bump fuel w _ p Hp Hw Hq).
Qed.

Lemma JMember_runs w1 k w2 w3 v w4 :
  ws w1 -> JString esc k -> ws w2 -> ws w3 -> JVal esc v -> value_runs v -> ws w4 ->
  member_runs (w1 ++ k ++ w2 ++ ":"%char :: w3 ++ v ++ w4).
Proof.
  intros Hw1 Hk Hw2 Hw3 Hv Hrun Hw4 A m r fuel t2 a Hf Hr Hfuel Hm.
  pose proof (JString_start _ _ Hk) as [k' Hk'].
  repeat (rewrite <- ?app_assoc in *; cbn [app] in *).
  eapply (runs_bind _ (k ++ w2 ++ ":"%char :: w3 ++ v ++ w4 ++ r) _ _ tt a w1); [done| |].
  { apply skip_ws_runs; [done|]. rewrite Hk'. by intros ? [= <-]. }
  eapply (runs_bind _ (w2 ++ ":"%char :: w3 ++ v ++ w4 ++ r) _ _ tt a k); [done| |].
  { by apply (skip_string_runs esc). }
  eapply (runs_bind _ (":"%char :: w3 ++ v ++ w4 ++ r) _ _ tt a w2); [done| |].
  { apply skip_ws_runs; [done|]. by intros ? [= <-]. }
  eapply (runs_bind _ (w3 ++ v ++ w4 ++ r) _ _ tt a [":"%char]); [done|apply expect_runs|].
  replace (w3 ++ v ++ w4 ++ r) with ((w3 ++ v) ++ w4 ++ r) by (by rewrite <- app_assoc).
  eapply (runs_bind _ (w4 ++ r) _ _ tt a (w3 ++ v) (w4 ++ t2)); [by rewrite <- app_assoc| |].
  { rewrite <- app_assoc. apply Hrun; [done|by apply number_follow_ws|len_lia]. }
  eapply (runs_bind _ r _ _ tt a w4); [done|by apply skip_ws_runs|done].
Qed.

Lemma not_ws_head c r :
  is_json_ws c = false -> forall d, head (c :: r) = Some d -> is_json_ws d = false.
Proof. by intros Hc d [= <-]. Qed.

(** What the scanner does after a member, by the byte it finds. *)
Lemma members_runs_one m : member_runs m -> members_runs m.
Proof.
  intros Hm r [|fuel] Hf; [lia|]. cbn [skip_members].
  apply Hm; [by apply number_follow_close; set_solver|by apply not_ws_head|len_lia|].
  eapply runs_bind_nil; [apply runs_peek|]. apply runs_advance_1.
Qed.
Lemma members_runs_cons m t : member_runs m -> members_runs t -> members_runs (m ++ ","%char :: t).
Proof.
  intros Hm Ht r [|fuel] Hf; [lia|]. cbn [skip_members]. rewrite <- !app_assoc in *. cbn [app] in *.
  apply Hm; [by apply number_follow_close; set_solver|by apply not_ws_head|len_lia|].
  eapply runs_bind_nil; [apply runs_peek|].
  eapply (runs_bind _ (t ++ "}"%char :: r) _ _ tt tt [","%char]); [done|apply runs_advance_1|].
  apply Ht. len_lia.
Qed.

(** An element of an array and the loop [k] that continues after it. *)
Lemma element_runs w1 v w2 (k : scan JsonError unit) r fuel t2 :
  ws w1 -> value_runs v -> ws w2 -> number_follow r ->
  (forall c, head r = Some c -> is_json_ws c = false) ->
  3 * length (w1 ++ v ++ w2 ++ r) + 2 <= fuel ->
  runs r k t2 tt ->
  runs (w1 ++ v ++ w2 ++ r) (skip_value fuel ;; skip_ws ;; k) (w1 ++ v ++ w2 ++ t2) tt.
Proof.
  intros Hw1 Hv Hw2 Hf Hr Hfuel Hk.
  replace (w1 ++ v ++ w2 ++ r) with ((w1 ++ v) ++ w2 ++ r) by by rewrite <- app_assoc.
  eapply (runs_bind _ (w2 ++ r) _ _ tt tt (w1 ++ v) (w2 ++ t2)); [by rewrite <- app_assoc| |].
  { rewrite <- app_assoc. apply Hv; [done|by apply number_follow_ws|len_lia]. }
  eapply (runs_bind _ r _ _ tt tt w2); [done|by apply skip_ws_runs|done].
Qed.
Lemma elements_runs_one w1 v w2 :
  ws w1 -> value_runs v -> ws w2 -> elements_runs (w1 ++ v ++ w2).
Proof.
  intros Hw1 Hv Hw2 r [|fuel] Hf; [lia|]. cbn [skip_elements]. rewrite <- !app_assoc in *.
  apply element_runs; try done; [by apply number_follow_close; set_solver|by apply not_ws_head|len_lia|].
  eapply runs_bind_nil; [apply runs_peek|]. apply runs_advance_1.
Qed.
Lemma elements_runs_cons w1 v w2 t :
  ws w1 -> value_runs v -> ws w2 -> elements_runs t ->
  elements_runs (w1 ++ v ++ w2 ++ ","%char :: t).
Proof.
  intros Hw1 Hv Hw2 Ht r [|fuel] Hf; [lia|]. cbn [skip_elements].
  repeat (rewrite <- ?app_assoc in *; cbn [app] in * ).
  apply element_runs; try done; [by apply number_follow_close; set_solver|by apply not_ws_head|len_lia|].
  eapply runs_bind_nil; [apply runs_peek|].
  eapply (runs_bind _ (t ++ "]"%char :: r) _ _ tt tt [","%char]); [done|apply runs_advance_1|].
  apply Ht. len_lia.
Qed.

Lemma value_runs_all : forall t, JVal esc t -> value_runs t.
Proof.
  apply (JVal_mind esc (fun t _ => value_runs t) (fun t _ => members_runs t)
           (fun t _ => member_runs t) (fun t _ => elements_runs t)).
  - apply value_runs_string.
  - apply value_runs_number.
  - apply value_runs_literal; auto.
  - apply value_runs_literal; auto.
  - apply value_runs_literal; auto.
  - intros w Hw. apply value_runs_object. intros r fuel Hf. apply empty_object_runs; [done|lia].
  - intros t Ht Hrun. apply value_runs_object. intros r fuel Hf. by apply full_object_runs.
  - intros w Hw. apply value_runs_array. intros r fuel Hf. apply empty_array_runs; [done|lia].
  - intros t Ht Hrun. apply value_runs_array. intros r fuel Hf. by apply full_array_runs.
  - intros m Hm Hrun. by apply members_runs_one.
  - intros m t Hm Hrun Ht Hrunt. by apply members_runs_cons.
  - intros. by apply JMember_runs.
  - intros. by apply elements_runs_one.
  - intros. by apply elements_runs_cons.
Qed.

Lemma skip_value_here_runs w t r :
  ws w -> JVal esc t -> number_follow r ->
  runs (w ++ t ++ r) skip_value_here (w ++ t) tt.
Proof.
  intros Hw Ht Hr p Hp. unfold skip_value_here. assert (rest p = w ++ t ++ r) as -> by apply Hp.
  exact (value_runs_all t Ht w r _ Hw Hr (le_n _) p Hp).
Qed.
End Completeness.
