(* ===== verification/JsonTop.v ===== *)
(** * The scanner's entry points

    What [validate], [object_top_level] and [scalar_at_path] accept and return,
    and that none of them panics or loops, for any body. *)
From stdpp Require Import base option list strings numbers sets.
From Stdlib Require Import Ascii ZArith Lia.
From S2P Require Import Prelude.
From S2P Require Import JsonScan.
From S2P Require Import JsonGrammar.
From S2P Require Import JsonTriples.
From S2P Require Import JsonValues.

Open Scope osp_scope.

(** ** Objects with decoded keys *)

(** One member, its decoded key and the text of its value. *)
Inductive DMember : bytes -> str -> bytes -> Prop :=
| dmember_intro w1 k s w2 w3 v w4 :
    ws w1 -> DString k s -> ws w2 -> ws w3 -> JVal any_escape v -> ws w4 ->
    DMember (w1 ++ k ++ w2 ++ ":"%char :: w3 ++ v ++ w4) s v.
Inductive DMembers : bytes -> list (str * bytes) -> Prop :=
| dmembers_one m k v : DMember m k v -> DMembers m [(k, v)]
| dmembers_cons m k v t kvs : DMember m k v -> DMembers t kvs ->
    DMembers (m ++ ","%char :: t) ((k, v) :: kvs).
(** The text between the braces of an object. *)
Definition ObjInner (inner : bytes) (kvs : list (str * bytes)) : Prop :=
  (ws inner /\ kvs = []) \/ DMembers inner kvs.

(** The whole body is one object, [top] being its summary. *)
Definition TopLevelDoc (b : bytes) (top : TopLevel) : Prop :=
  exists w1 inner kvs w2, b = w1 ++ "{"%char :: inner ++ "}"%char :: w2
    /\ ws w1 /\ ObjInner inner kvs /\ ws w2
    /\ top = MkTopLevel (S (length w1)) (match kvs with [] => true | _ => false end) kvs.*1.

(** Members passed over on the way to a field, each with its comma. *)
Inductive Skipped : bytes -> list str -> Prop :=
| skipped_nil : Skipped [] []
| skipped_cons m k v t ks : DMember m k v -> Skipped t ks -> Skipped (m ++ ","%char :: t) (k :: ks).
(** From the start of an object to the value of its first member named [key]. *)
Definition FieldText (key : str) (t : bytes) : Prop :=
  exists pre ks w1 k w2 w3, t = "{"%char :: pre ++ w1 ++ k ++ w2 ++ ":"%char :: w3
    /\ Skipped pre ks /\ key ∉ ks /\ ws w1 /\ DString k key /\ ws w2 /\ ws w3.
Inductive PathText : list str -> bytes -> Prop :=
| path_nil : PathText [] []
| path_cons key segs t1 t2 : FieldText key t1 -> PathText segs t2 ->
    PathText (key :: segs) (t1 ++ t2).
(** The canonical string of a scalar literal: decoded for a string, verbatim for a
    number or a boolean. *)
Definition ScalarText (t : bytes) (s : str) : Prop :=
  DString t s \/ (JNumber t /\ s = t) \/ (t = lit "true" /\ s = t) \/ (t = lit "false" /\ s = t).

(** ** From runs of the parser to results *)
Lemma at_input_new b : at_input b (new_parser b).
Proof. split; [unfold in_bounds; cbn; lia|done]. Qed.

Definition safe {E A} (o : outcome E A) : Prop :=
  match o with Done _ _ | Fail _ => True | Panic | OutOfFuel => False end.

Lemma triple_safe {E A} b (m : scan E A) Q : triple b m Q -> safe (m (new_parser b)).
Proof. intros Hm. specialize (Hm _ (at_input_new b)). by destruct (m _). Qed.

Lemma run_sound {A} b (m : scan JsonError A) Q a :
  triple b m Q -> run m b = Ok a -> exists t r, b = t ++ r /\ Q t r a.
Proof.
  intros Hm Hr. specialize (Hm _ (at_input_new b)). unfold run in Hr.
  destruct (m _); try done. injection Hr as ->. destruct Hm as (t & r & ? & _ & ?). eauto.
Qed.
Lemma run_complete {A} b (m : scan JsonError A) t a : runs b m t a -> run m b = Ok a.
Proof. intros Hm. unfold run. by rewrite (Hm _ (at_input_new b)). Qed.

Lemma head_None {A} (l : list A) : head l = None -> l = [].
Proof. by destruct l. Qed.

Section Top.
Context {W : Wide}.

(** ** [validate] *)
Lemma validate_scan_sound b :
  triple b validate_scan (fun t r _ => r = [] /\ JDoc any_escape t).
Proof.
  unfold validate_scan. stepv by skip_value_here_sound as (w1 & v & -> & Hw1 & Hv).
  stepv by skip_ws_sound. rename t into w2. stepv by peek_sound.
  match goal with |- context [head ?r] => destruct (head r) eqn:Hr end; finish.
  apply head_None in Hr as ->. split; [done|].
  exists w1, v, w2. by rewrite app_nil_r, <- app_assoc.
Qed.

Lemma validate_scan_runs esc b : JDoc esc b -> runs b validate_scan b tt.
Proof.
  intros (w1 & v & w2 & -> & Hw1 & Hv & Hw2). unfold validate_scan.
  replace (w1 ++ v ++ w2) with ((w1 ++ v) ++ w2 ++ []) by by rewrite app_nil_r, app_assoc.
  eapply (runs_bind _ (w2 ++ []) _ _ tt tt (w1 ++ v) (w2 ++ [])); [done| |].
  { rewrite <- app_assoc. eapply (skip_value_here_runs esc); auto with osp. }
  eapply (runs_bind _ [] _ _ tt tt w2 []); [done|by apply skip_ws_runs|].
  eapply runs_bind_nil; [apply runs_peek|]. apply runs_ret.
Qed.

Lemma validate_spec b : validate b = Ok tt <-> JDoc any_escape b.
Proof.
  split.
  - intros H. destruct (run_sound _ _ _ _ (validate_scan_sound b) H) as (t & r & -> & -> & Hd).
    by rewrite app_nil_r.
  - intros H. by eapply run_complete, validate_scan_runs.
Qed.

Lemma validate_Err_Invalid b e : validate b = Err e -> safe (validate_scan (new_parser b)).
Proof. intros _. apply (triple_safe b _ _ (validate_scan_sound b)). Qed.

(** ** [object_top_level] *)
Lemma DMember_JMember m k v : DMember m k v -> JMember any_escape m.
Proof. intros []. constructor; try done. by eapply DString_JString. Qed.
Lemma DMembers_JMembers m kvs : DMembers m kvs -> JMembers any_escape m.
Proof.
  induction 1; [apply members_one|apply members_cons]; eauto using DMember_JMember.
Qed.

(** Members can absorb white space on their left. *)
Lemma DMember_prepend w m k v : ws w -> DMember m k v -> DMember (w ++ m) k v.
Proof. intros Hw []. rewrite app_assoc. constructor; auto using ws_app. Qed.
Lemma DMembers_prepend w m kvs : ws w -> DMembers m kvs -> DMembers (w ++ m) kvs.
Proof.
  intros Hw [m' k v Hm|m' k v t kvs' Hm Ht]; [|rewrite app_assoc];
    constructor; auto using DMember_prepend.
Qed.

(** One turn of a loop over members: key, colon and value, then [k]. *)
Lemma member_step {A} l (k : str -> scan JsonError A) Q :
  (forall m key v r, l = m ++ r -> DMember m key v -> length m >= 1 ->
     triple r (k key) (fun t2 r2 a => Q (m ++ t2) r2 a)) ->
  triple l (skip_ws ;; let! key := string_decode in
            skip_ws ;; expect ":" ;; skip_value_here ;; skip_ws ;; k key) Q.
Proof.
  intros Hk. stepv by skip_ws_sound. rename t into w1.
  stepv by string_decode_sound as Hs. rename t into kt, a0 into key.
  stepv by skip_ws_sound. rename t into w2. stepv by expect_sound.
  stepv by skip_value_here_sound as (w3 & v & -> & Hw3 & Hv).
  stepv by skip_ws_sound. rename t into w4.
  eapply triple_conseq.
  { eapply (Hk (w1 ++ kt ++ w2 ++ ":"%char :: w3 ++ v ++ w4) key v).
    - by repeat (rewrite <- ?app_assoc; cbn [app]).
    - by constructor.
    - len_lia. }
  intros t2 r2 a' _. by repeat (rewrite <- ?app_assoc; cbn [app]).
Qed.

Lemma DString_start t s : DString t s -> exists t', t = quote :: t'.
Proof. intros (body & _ & _ & ->). eauto. Qed.

Lemma member_step_runs {A} m key v (k : str -> scan JsonError A) r t2 a :
  DMember m key v -> number_follow r -> (forall c, head r = Some c -> is_json_ws c = false) ->
  runs r (k key) t2 a ->
  runs (m ++ r) (skip_ws ;; let! key := string_decode in
            skip_ws ;; expect ":" ;; skip_value_here ;; skip_ws ;; k key) (m ++ t2) a.
Proof.
  intros [w1 kt s w2 w3 v' w4 Hw1 Hs Hw2 Hw3 Hv Hw4] Hf Hr Hk.
  pose proof (DString_start _ _ Hs) as [k' Hk'].
  repeat (rewrite <- ?app_assoc in *; cbn [app] in * ).
  eapply (runs_bind _ (kt ++ w2 ++ ":"%char :: w3 ++ v' ++ w4 ++ r) _ _ tt a w1); [done| |].
  { apply skip_ws_runs; [done|]. rewrite Hk'. by intros ? [= <-]. }
  eapply (runs_bind _ (w2 ++ ":"%char :: w3 ++ v' ++ w4 ++ r) _ _ s a kt); [done| |].
  { by apply string_decode_runs. }
  eapply (runs_bind _ (":"%char :: w3 ++ v' ++ w4 ++ r) _ _ tt a w2); [done| |].
  { apply skip_ws_runs; [done|]. by intros ? [= <-]. }
  eapply (runs_bind _ (w3 ++ v' ++ w4 ++ r) _ _ tt a [":"%char]); [done|apply expect_runs|].
  replace (w3 ++ v' ++ w4 ++ r) with ((w3 ++ v') ++ w4 ++ r) by (by rewrite <- app_assoc).
  eapply (runs_bind _ (w4 ++ r) _ _ tt a (w3 ++ v') (w4 ++ t2)); [by rewrite <- app_assoc| |].
  { rewrite <- app_assoc. apply (skip_value_here_runs any_escape); [done..|].
    by apply number_follow_ws. }
  eapply (runs_bind _ r _ _ tt a w4); [done|by apply skip_ws_runs|done].
Qed.

Lemma members_loop_sound fuel ks l :
  length l < fuel ->
  triple l (members_loop fuel ks)
    (fun t r ks' => exists m kvs, DMembers m kvs /\ t = m ++ ["}"%char] /\ ks' = ks ++ kvs.*1).
Proof.
  revert ks l. induction fuel as [|fuel IH]; intros ks l Hl; [lia|]. cbn [members_loop].
  eapply member_step. intros m key v r -> Hm Hlen. stepv by peek_sound. case_ifs; finish.
  - apply is_byte_head in Hc as [? ->]. stepv by advance_1_sound.
    eapply triple_conseq; [apply IH; len_lia|]. intros t r ks' _ (m' & kvs & Hms & -> & ->).
    exists (m ++ ","%char :: m'), ((key, v) :: kvs). split; [by constructor|].
    split; [by repeat (rewrite <- ?app_assoc; cbn [app])|]. by rewrite <- app_assoc.
  - apply is_byte_head in Hc0 as [? ->]. stepv by advance_1_sound. finish.
    exists m, [(key, v)]. split; [by constructor|]. done.
Qed.

Lemma members_loop_runs m kvs r fuel ks :
  DMembers m kvs -> length m < fuel ->
  runs (m ++ "}"%char :: r) (members_loop fuel ks) (m ++ ["}"%char]) (ks ++ kvs.*1).
Proof.
  intros Hm. revert fuel ks.
  induction Hm as [m k v Hm|m k v t kvs Hm Ht IH]; intros [|fuel] ks Hf; try lia;
    cbn [members_loop]; rewrite <- ?app_assoc; cbn [app].
  - eapply member_step_runs; [done|by apply number_follow_close; set_solver|by apply not_ws_head|].
    eapply runs_bind_nil; [apply runs_peek|].
    eapply (runs_bind _ r _ _ tt _ ["}"%char] []); [done|apply runs_advance_1|]. apply runs_ret.
  - eapply member_step_runs; [done|by apply number_follow_close; set_solver|by apply not_ws_head|].
    eapply runs_bind_nil; [apply runs_peek|].
    eapply (runs_bind _ (t ++ "}"%char :: r) _ _ tt _ [","%char]); [done|apply runs_advance_1|].
    replace (ks ++ ((k, v) :: kvs).*1) with ((ks ++ [k]) ++ kvs.*1)
      by (rewrite <- app_assoc; done).
    apply IH. len_lia.
Qed.

(** [object_members] after its opening brace, at offset [at_]. *)
Definition members_tail (n at_ : nat) : scan JsonError TopLevel :=
  skip_ws ;;
  let! o := peek in
  if is_byte "}" o then advance 1 ;; sret (MkTopLevel at_ true [])
  else let! ks := members_loop n [] in sret (MkTopLevel at_ false ks).

Lemma members_tail_sound n at_ l :
  length l < n ->
  triple l (members_tail n at_)
    (fun t r top => exists inner kvs, ObjInner inner kvs /\ t = inner ++ ["}"%char]
       /\ top = MkTopLevel at_ (match kvs with [] => true | _ => false end) kvs.*1).
Proof.
  intros Hl. unfold members_tail. stepv by skip_ws_sound. rename t into w.
  stepv by peek_sound. case_if Hc.
  - apply is_byte_head in Hc as [? ->]. stepv by advance_1_sound. finish.
    exists w, []. split; [by left|]. done.
  - stepv by members_loop_sound. finish. exists (w ++ x), x0. split.
    + right. by apply DMembers_prepend.
    + rewrite app_nil_r, app_assoc. split; [done|].
      by match goal with H : DMembers _ _ |- _ => destruct H end.
Qed.

Lemma DMembers_start m kvs : DMembers m kvs -> exists w t, m = w ++ quote :: t /\ ws w.
Proof.
  intros [m' k v [w1 kt s w2 w3 v' w4 Hw1 Hs]|m' k v t kvs' [w1 kt s w2 w3 v' w4 Hw1 Hs] Ht];
    apply DString_start in Hs as [k' ->]; exists w1; eexists; (split; [|done]);
    by repeat (rewrite <- ?app_assoc; cbn [app]).
Qed.

Lemma members_tail_runs n at_ inner kvs r :
  ObjInner inner kvs -> length inner < n ->
  runs (inner ++ "}"%char :: r) (members_tail n at_) (inner ++ ["}"%char])
    (MkTopLevel at_ (match kvs with [] => true | _ => false end) kvs.*1).
Proof.
  intros [[Hw ->]|Hm] Hn.
  - unfold members_tail. eapply (runs_bind _ ("}"%char :: r) _ _ tt _ inner); [done| |].
    { apply skip_ws_runs; [done|]. by intros ? [= <-]. }
    eapply runs_bind_nil; [apply runs_peek|].
    eapply (runs_bind _ r _ _ tt _ ["}"%char] []); [done|apply runs_advance_1|]. apply runs_ret.
  - intros p Hp. pose proof (members_loop_runs inner kvs r n [] Hm Hn p Hp) as Hrun.
    destruct (DMembers_start _ _ Hm) as (w & t & -> & Hw). rewrite <- app_assoc in Hp.
    assert (Hq : forall c, head ((quote :: t) ++ "}"%char :: r) = Some c -> is_json_ws c = false)
      by (by intros ? [= <-]).
    unfold members_tail. unfold sbind at 1. rewrite (skip_ws_runs w _ Hw Hq p Hp).
    unfold sbind at 1, peek at 1. rewrite (at_input_lookup _ _ (at_input_bump _ _ _ Hp)).
    cbn [head app]. change (is_byte "}" (Some quote)) with false. cbn iota.
    assert (Hloop : members_loop n [] (bump (length w) p) = members_loop n [] p).
    { destruct n; [lia|]. cbn [members_loop]. by apply (skip_ws_bump _ w _ p Hp Hw Hq). }
    unfold sbind at 1. rewrite Hloop, Hrun. by destruct Hm.
Qed.

(** The opening brace fixes the insertion point. *)
Lemma object_members_unfold l p :
  at_input ("{"%char :: l) p ->
  object_members p = members_tail (length l + 2) (S (cur p)) (bump 1 p).
Proof.
  intros Hp. unfold object_members. replace (rest p) with ("{"%char :: l) by (symmetry; apply Hp).
  unfold members_tail, sbind at 1, advance at 1. unfold sbind at 1, get_cur at 1.
  cbn [length cur bump]. replace (cur p + 1) with (S (cur p)) by lia.
  by replace (S (S (length l))) with (length l + 2) by lia.
Qed.

(** The scan of a body whose first byte after white space [w] is a brace. *)
Definition brace_scan (w l : bytes) : scan JsonError TopLevel :=
  let! top := members_tail (length l + 2) (S (length w)) in
  skip_ws ;; let! o := peek in match o with Some _ => sfail Invalid | None => sret top end.

Lemma object_top_level_brace w l :
  ws w ->
  object_top_level_scan (w ++ "{"%char :: l) (new_parser (w ++ "{"%char :: l))
  = brace_scan w l (bump (length w + 1) (new_parser (w ++ "{"%char :: l))).
Proof.
  intros Hw. pose proof (at_input_new (w ++ "{"%char :: l)) as Hp.
  unfold object_top_level_scan. unfold sbind at 1.
  rewrite (skip_ws_runs w _ Hw) with (2 := Hp) by (by intros ? [= <-]).
  pose proof (at_input_bump _ _ _ Hp) as Hp'.
  unfold sbind at 1, peek at 1. rewrite (at_input_lookup _ _ Hp'). cbn [head].
  change (negb (is_byte "{" (Some "{"%char))) with false. cbn iota.
  unfold brace_scan. unfold sbind at 1. rewrite (object_members_unfold l _ Hp').
  rewrite bump_bump. done.
Qed.

Lemma brace_scan_sound w l :
  triple l (brace_scan w l) (fun t r top => r = [] /\ exists inner kvs w2,
    t = inner ++ "}"%char :: w2 /\ ObjInner inner kvs /\ ws w2
    /\ top = MkTopLevel (S (length w)) (match kvs with [] => true | _ => false end) kvs.*1).
Proof.
  unfold brace_scan. stepv by members_tail_sound. rename x into inner, x0 into kvs.
  stepv by skip_ws_sound. rename t into w2. stepv by peek_sound.
  match goal with |- context [head ?r] => destruct (head r) eqn:Hr end; finish.
  apply head_None in Hr as ->. split; [done|]. exists inner, kvs, w2.
  by rewrite app_nil_r, <- app_assoc.
Qed.

Lemma brace_scan_runs w inner kvs w2 :
  ObjInner inner kvs -> ws w2 ->
  runs (inner ++ "}"%char :: w2) (brace_scan w (inner ++ "}"%char :: w2)) (inner ++ "}"%char :: w2)
    (MkTopLevel (S (length w)) (match kvs with [] => true | _ => false end) kvs.*1).
Proof.
  intros Hi Hw. unfold brace_scan.
  replace (inner ++ "}"%char :: w2) with ((inner ++ ["}"%char]) ++ w2 ++ []) at 1
    by (rewrite <- app_assoc, app_nil_r; done).
  eapply (runs_bind _ (w2 ++ []) _ _ _ _ (inner ++ ["}"%char]) w2);
    [by rewrite <- app_assoc| |].
  { rewrite <- app_assoc, app_nil_r. cbn [app]. apply members_tail_runs; [done|len_lia]. }
  eapply (runs_bind _ [] _ _ tt _ w2 []); [by rewrite app_nil_r|by apply skip_ws_runs|].
  eapply runs_bind_nil; [apply runs_peek|]. apply runs_ret.
Qed.

(** The body split at its first byte that is not white space. *)
Lemma ws_split b : exists w r, b = w ++ r /\ ws w
  /\ forall c, head r = Some c -> is_json_ws c = false.
Proof. destruct (count_while_split is_json_ws b) as (t & r & ? & _ & ? & ?). by exists t, r. Qed.

Lemma object_top_level_other w r :
  ws w -> (forall c, head r = Some c -> is_json_ws c = false) -> head r <> Some "{"%char ->
  object_top_level_scan (w ++ r) (new_parser (w ++ r))
  = Fail match validate (w ++ r) with Ok _ => NotAnObject | Err e => e end.
Proof.
  intros Hw Hr Hb. pose proof (at_input_new (w ++ r)) as Hp.
  unfold object_top_level_scan. unfold sbind at 1. rewrite (skip_ws_runs w r Hw Hr _ Hp).
  unfold sbind at 1, peek at 1. rewrite (at_input_lookup _ _ (at_input_bump _ _ _ Hp)).
  destruct (is_byte "{" (head r)) eqn:Hc; [|done]. by apply is_byte_spec in Hc.
Qed.

Lemma object_top_level_spec b top : object_top_level b = Ok top <-> TopLevelDoc b top.
Proof.
  unfold object_top_level, run. split.
  - destruct (ws_split b) as (w & r & -> & Hw & Hr).
    destruct (decide (head r = Some "{"%char)) as [Hb|Hb];
      [|by rewrite object_top_level_other].
    destruct r as [|c l]; [done|]. injection Hb as ->. rewrite object_top_level_brace by done.
    pose proof (at_input_bump _ _ _ (at_input_new (w ++ ["{"%char] ++ l))) as Hp.
    rewrite app_assoc in Hp. pose proof (at_input_bump (w ++ ["{"%char]) l _ (at_input_new _)) as Hq.
    rewrite length_app, <- app_assoc in Hq. cbn [length app] in Hq.
    pose proof (brace_scan_sound w l _ Hq) as Hs. destruct (brace_scan w l _); try done.
    intros [= ->]. destruct Hs as (t & r & -> & _ & -> & inner & kvs & w2 & -> & Hi & Hw2 & ->).
    exists w, inner, kvs, w2. by rewrite app_nil_r.
  - intros (w & inner & kvs & w2 & -> & Hw & Hi & Hw2 & ->).
    rewrite object_top_level_brace by done.
    pose proof (at_input_bump (w ++ ["{"%char]) (inner ++ "}"%char :: w2) _ (at_input_new _)) as Hq.
    rewrite length_app, <- app_assoc in Hq. cbn [length app] in Hq.
    by rewrite (brace_scan_runs w inner kvs w2 Hi Hw2 _ Hq).
Qed.

Lemma brace_at_input w l :
  at_input l (bump (length w + 1) (new_parser (w ++ "{"%char :: l))).
Proof.
  pose proof (at_input_bump (w ++ ["{"%char]) l _ (at_input_new _)) as Hq.
  by rewrite length_app, <- app_assoc in Hq.
Qed.

Lemma object_top_level_safe b : safe (object_top_level_scan b (new_parser b)).
Proof.
  destruct (ws_split b) as (w & r & -> & Hw & Hr).
  destruct (decide (head r = Some "{"%char)) as [Hb|Hb]; [|by rewrite object_top_level_other].
  destruct r as [|c l]; [done|]. injection Hb as ->. rewrite object_top_level_brace by done.
  pose proof (brace_scan_sound w l _ (brace_at_input w l)) as Hs.
  by destruct (brace_scan w l _).
Qed.

(** The methods that fail with [Invalid] only. *)
Definition invalid_only {A} (m : scan JsonError A) : Prop :=
  forall p e, m p = Fail e -> e = Invalid.

Lemma invalid_bind {A B} (m : scan JsonError A) (f : A -> scan JsonError B) :
  invalid_only m -> (forall a, invalid_only (f a)) -> invalid_only (sbind m f).
Proof.
  intros Hm Hf p e. unfold sbind. destruct (m p) eqn:H; try done.
  - apply Hf.
  - intros [= ->]. by apply Hm in H.
Qed.
Lemma invalid_fail {A} : invalid_only (sfail Invalid : scan JsonError A).
Proof. by intros p e [= <-]. Qed.
Lemma invalid_total {A} (m : scan JsonError A) :
  (forall p e, m p <> Fail e) -> invalid_only m.
Proof. intros Hm p e H. by apply Hm in H. Qed.

Ltac invalid :=
  repeat first
    [ assumption
    | apply invalid_fail
    | apply invalid_bind; [|intros]
    | match goal with |- invalid_only (match ?x with _ => _ end) => destruct x end
    | match goal with |- invalid_only (if ?x then _ else _) => destruct x end
    | match goal with IH : forall _, invalid_only _ |- _ => apply IH end
    | solve [apply invalid_total; intros ? ?; cbv [peek advance tail_slice index_cur skip_ws
        digits sret get_cur]; repeat case_match; done] ].

Lemma invalid_expect c : invalid_only (expect c).
Proof. unfold expect. invalid. Qed.
Lemma invalid_hex_digits n v : invalid_only (hex_digits n v).
Proof.
  revert v. induction n as [|n IH]; intros v; cbn [hex_digits]; unfold hex_digit; invalid.
Qed.
Lemma invalid_skip_string_loop n : invalid_only (skip_string_loop n).
Proof.
  induction n as [|n IH]; cbn [skip_string_loop]; invalid; apply invalid_hex_digits.
Qed.
Lemma invalid_skip_string : invalid_only skip_string.
Proof.
  intros p e. unfold skip_string. apply (invalid_bind (expect quote)); [apply invalid_expect|].
  intros _. apply invalid_skip_string_loop.
Qed.
Lemma invalid_number : invalid_only number.
Proof. unfold number, one_or_more_digits. invalid. Qed.
Lemma invalid_literal t : invalid_only (literal t).
Proof. unfold literal. invalid. Qed.

Lemma invalid_values n :
  invalid_only (skip_value n) /\ invalid_only (skip_object n) /\ invalid_only (skip_members n)
  /\ invalid_only (skip_array n) /\ invalid_only (skip_elements n).
Proof.
  induction n as [|n (H1 & H2 & H3 & H4 & H5)]; [by repeat split|].
  cbn [skip_value skip_object skip_members skip_array skip_elements].
  repeat split; invalid; auto using invalid_skip_string, invalid_number, invalid_literal, invalid_expect.
Qed.
Lemma invalid_skip_value_here : invalid_only skip_value_here.
Proof. intros p e. apply (invalid_values _). Qed.

Lemma invalid_string_decode_loop n out : invalid_only (string_decode_loop n out).
Proof.
  revert out. induction n as [|n IH]; intros out; cbn [string_decode_loop]; invalid.
Qed.
Lemma invalid_string_decode : invalid_only string_decode.
Proof.
  intros p e. unfold string_decode. apply (invalid_bind (expect quote)); [apply invalid_expect|].
  intros _. apply invalid_string_decode_loop.
Qed.

Lemma invalid_members_loop n ks : invalid_only (members_loop n ks).
Proof.
  revert ks. induction n as [|n IH]; intros ks; cbn [members_loop]; invalid;
    auto using invalid_string_decode, invalid_expect, invalid_skip_value_here.
Qed.

Lemma invalid_brace_scan w l : invalid_only (brace_scan w l).
Proof. unfold brace_scan, members_tail. invalid; auto using invalid_members_loop. Qed.

Lemma invalid_validate : invalid_only validate_scan.
Proof. unfold validate_scan. invalid; auto using invalid_skip_value_here. Qed.

Lemma validate_Err b e : validate b = Err e -> e = Invalid /\ ~ JDoc any_escape b.
Proof.
  intros H. split.
  - unfold validate, run in H. pose proof (triple_safe _ _ _ (validate_scan_sound b)) as Hs.
    destruct (validate_scan _) eqn:Hv; try done. injection H as <-. by apply invalid_validate in Hv.
  - intros Hd%validate_spec. congruence.
Qed.

Lemma ws_brace_unique w r w' l :
  ws w -> (forall c, head r = Some c -> is_json_ws c = false) ->
  w ++ r = w' ++ "{"%char :: l -> ws w' -> r = "{"%char :: l.
Proof.
  intros Hw Hr Heq Hw'. revert w' Hw' Heq. induction Hw as [|c w Hc Hw IH]; intros w' Hw' Heq.
  - destruct Hw' as [|c w' Hc]; [done|]. cbn in Heq. rewrite Heq in Hr.
    by rewrite (Hr c eq_refl) in Hc.
  - destruct Hw' as [|d w' Hd Hw'].
    + injection Heq as -> _. done.
    + injection Heq as -> Heq. by apply (IH w').
Qed.

Lemma object_top_level_Err b e :
  object_top_level b = Err e ->
  (e = NotAnObject /\ JDoc any_escape b /\ ~ (exists w l, b = w ++ "{"%char :: l /\ ws w))
  \/ (e = Invalid /\ ~ (exists top, TopLevelDoc b top)
      /\ (JDoc any_escape b -> exists w l, b = w ++ "{"%char :: l /\ ws w)).
Proof.
  intros H. assert (Hno : ~ exists top, TopLevelDoc b top).
  { intros [top Ht%object_top_level_spec]. congruence. }
  unfold object_top_level, run in H. destruct (ws_split b) as (w & r & -> & Hw & Hr).
  destruct (decide (head r = Some "{"%char)) as [Hb|Hb].
  - right. destruct r as [|c l]; [done|]. injection Hb as ->.
    rewrite object_top_level_brace in H by done. split; [|split; [done|]].
    + destruct (brace_scan w l _) eqn:Hs; try done; injection H as <-; try done.
      by apply invalid_brace_scan in Hs.
    + intros _. by exists w, l.
  - rewrite object_top_level_other in H by done. injection H as <-.
    destruct (validate (w ++ r)) as [[]|e'] eqn:Hv.
    + left. apply validate_spec in Hv. repeat split; [done|].
      intros (w' & l & Heq & Hw'). apply Hb. by rewrite (ws_brace_unique w r w' l).
    + right. apply validate_Err in Hv as [-> Hv]. done.
Qed.
End Top.
