(* ===== verification/JsonPath.v ===== *)
(** * Scalars at a path

    [enter_field], [scalar_string] and [scalar_at_path]: a streaming lookup that
    stops at the first member with the wanted key and never builds a tree. *)
From stdpp Require Import base option list strings numbers sets.
From Stdlib Require Import Ascii ZArith Lia.
From S2P Require Import Prelude.
From S2P Require Import JsonScan.
From S2P Require Import JsonGrammar.
From S2P Require Import JsonTriples.
From S2P Require Import JsonValues.
From S2P Require Import JsonTop.

Open Scope osp_scope.

Section Path.
Context {W : Wide}.

(** ** One field *)
Lemma Skipped_field_prepend w key pre ks w1 k w2 w3 :
  ws w -> Skipped pre ks -> ws w1 ->
  exists pre' w1', w ++ pre ++ w1 ++ k ++ w2 ++ ":"%char :: w3
      = pre' ++ w1' ++ k ++ w2 ++ ":"%char :: w3
    /\ Skipped pre' ks /\ ws w1' /\ (key ∉ ks -> key ∉ ks).
Proof.
  intros Hw Hpre Hw1. destruct Hpre as [|m k' v t ks Hm Ht].
  - exists [], (w ++ w1). repeat split; [by rewrite <- app_assoc|constructor|by apply ws_app|done].
  - exists ((w ++ m) ++ ","%char :: t), w1. repeat split; try done; [by rewrite <- !app_assoc|].
    econstructor; [by apply DMember_prepend|done].
Qed.

(** The text from a member to the value of the field the loop looks for. *)
Definition LoopText (key : str) (t : bytes) : Prop :=
  exists pre ks w1 k w2 w3, t = pre ++ w1 ++ k ++ w2 ++ ":"%char :: w3
    /\ Skipped pre ks /\ key ∉ ks /\ ws w1 /\ DString k key /\ ws w2 /\ ws w3.

Lemma LoopText_skip key m k v t :
  DMember m k v -> k <> key -> LoopText key t -> LoopText key (m ++ ","%char :: t).
Proof.
  intros Hm Hk (pre & ks & w1 & kt & w2 & w3 & -> & Hpre & Hks & Hrest).
  exists (m ++ ","%char :: pre), (k :: ks), w1, kt, w2, w3.
  split; [by repeat (rewrite <- ?app_assoc; cbn [app])|].
  split; [by econstructor|]. split; [set_solver|done].
Qed.

Lemma LoopText_field key w t : ws w -> LoopText key t -> FieldText key ("{"%char :: w ++ t).
Proof.
  intros Hw (pre & ks & w1 & k & w2 & w3 & -> & Hpre & Hks & Hw1 & Hrest).
  destruct (Skipped_field_prepend w key pre ks w1 k w2 w3) as (pre' & w1' & -> & Hpre' & Hw1' & _);
    [done..|].
  by exists pre', ks, w1', k, w2, w3.
Qed.

Lemma to_option_triple {A} l (m : scan JsonError A) Q : triple l m Q -> triple l (to_option m) Q.
Proof. apply triple_map_err. Qed.
Lemma to_option_runs {A} l (m : scan JsonError A) t a : runs l m t a -> runs l (to_option m) t a.
Proof. apply runs_map_err. Qed.

Lemma field_key_sound l :
  triple l (skip_ws ;; let! k := to_option string_decode in
            skip_ws ;; to_option (expect ":") ;; skip_ws ;; sret k)
    (fun t r key => exists w1 k w2 w3, t = w1 ++ k ++ w2 ++ ":"%char :: w3
       /\ ws w1 /\ DString k key /\ ws w2 /\ ws w3).
Proof.
  stepv by skip_ws_sound. rename t into w1.
  stepv by (to_option_triple _ _ _ (string_decode_sound _)) as Hk. rename t into k.
  stepv by skip_ws_sound. rename t into w2.
  stepv by (to_option_triple _ _ _ (expect_sound ":" _)).
  stepv by skip_ws_sound. rename t into w3. finish.
  exists w1, k, w2, w3. by rewrite app_nil_r.
Qed.

(** The key read before the body of the loop, separated from it. *)
Lemma field_key_bind {A} (f : str -> scan unit A) p :
  (skip_ws ;; let! k := to_option string_decode in
   skip_ws ;; to_option (expect ":") ;; skip_ws ;; f k) p
  = sbind (skip_ws ;; let! k := to_option string_decode in
           skip_ws ;; to_option (expect ":") ;; skip_ws ;; sret k) f p.
Proof.
  unfold sbind, skip_ws, sret. destruct (to_option string_decode _); try done.
  by destruct (to_option (expect ":") _).
Qed.

Lemma triple_ext {E A} l (m m' : scan E A) Q : (forall p, m p = m' p) -> triple l m' Q -> triple l m Q.
Proof. intros Hm H p Hp. rewrite Hm. by apply H. Qed.
Lemma runs_ext {E A} l (m m' : scan E A) t a : (forall p, m p = m' p) -> runs l m' t a -> runs l m t a.
Proof. intros Hm H p Hp. rewrite Hm. by apply H. Qed.

Lemma enter_field_loop_sound fuel key l :
  length l < fuel -> triple l (enter_field_loop fuel key) (fun t r _ => LoopText key t).
Proof.
  revert l. induction fuel as [|fuel IH]; intros l Hl; [lia|]. cbn [enter_field_loop].
  eapply triple_ext; [intros p; apply field_key_bind|].
  stepv by field_key_sound as (w1 & k & w2 & w3 & -> & Hw1 & Hk & Hw2 & Hw3).
  destruct (str_eqb a key) eqn:Heq; finish.
  - apply str_eqb_eq in Heq as ->. rewrite app_nil_r.
    exists [], [], w1, k, w2, w3. repeat split; try done; [constructor|set_solver].
  - apply str_eqb_neq in Heq.
    stepv by (to_option_triple _ _ _ (skip_value_here_sound _)) as (w4 & v & -> & Hw4 & Hv).
    stepv by skip_ws_sound. rename t into w5. stepv by peek_sound. case_if Hc; finish.
    apply is_byte_head in Hc as [r' ->]. stepv by advance_1_sound.
    eapply triple_conseq; [apply IH; len_lia|]. intros t2 r2 u _ Ht.
    match goal with |- LoopText _ ?x => replace x with
      ((w1 ++ k ++ w2 ++ ":"%char :: (w3 ++ w4) ++ v ++ w5) ++ ","%char :: t2)
      by (by repeat (rewrite <- ?app_assoc; cbn [app])) end.
    apply (LoopText_skip key _ a v); [|done..]. constructor; auto using ws_app.
Qed.

Lemma enter_field_sound key l : triple l (enter_field key)
  (fun t r _ => exists w t', t = w ++ t' /\ ws w /\ FieldText key t').
Proof.
  intros p Hp. unfold enter_field. replace (rest p) with l by (symmetry; apply Hp).
  revert p Hp. change (triple l (skip_ws ;; let! o := peek in
     if negb (is_byte "{" o) then sfail tt else
     advance 1 ;; skip_ws ;; let! o := peek in
     if is_byte "}" o then sfail tt else enter_field_loop (S (length l)) key)
     (fun t r _ => exists w t', t = w ++ t' /\ ws w /\ FieldText key t')).
  stepv by skip_ws_sound. rename t into w0. stepv by peek_sound.
  destruct (is_byte "{" (head r)) eqn:Hc; cbn [negb]; finish.
  apply is_byte_head in Hc as [r' ->]. stepv by advance_1_sound.
  stepv by skip_ws_sound. rename t into w. stepv by peek_sound. case_if Hc; finish.
  eapply triple_conseq; [apply enter_field_loop_sound; len_lia|]. intros t2 r2 u _ Ht.
  cbn [app]. exists w0. eexists. split; [done|]. split; [done|]. by apply LoopText_field.
Qed.

Lemma field_key_runs w1 k key w2 w3 r :
  ws w1 -> DString k key -> ws w2 -> ws w3 ->
  (forall c, head r = Some c -> is_json_ws c = false) ->
  runs ((w1 ++ k ++ w2 ++ ":"%char :: w3) ++ r)
    (skip_ws ;; let! k := to_option string_decode in
     skip_ws ;; to_option (expect ":") ;; skip_ws ;; sret k)
    (w1 ++ k ++ w2 ++ ":"%char :: w3) key.
Proof.
  intros Hw1 Hk Hw2 Hw3 Hr. repeat (rewrite <- ?app_assoc; cbn [app]).
  eapply (runs_bind _ (k ++ w2 ++ ":"%char :: w3 ++ r) _ _ tt _ w1); [done| |].
  { apply skip_ws_runs; [done|]. destruct (DString_start _ _ Hk) as [k' ->]. by intros ? [= <-]. }
  eapply (runs_bind _ (w2 ++ ":"%char :: w3 ++ r) _ _ key _ k); [done| |].
  { by apply to_option_runs, string_decode_runs. }
  eapply (runs_bind _ (":"%char :: w3 ++ r) _ _ tt _ w2); [done| |].
  { apply skip_ws_runs; [done|]. by intros ? [= <-]. }
  eapply (runs_bind _ (w3 ++ r) _ _ tt _ [":"%char]); [done|apply to_option_runs, expect_runs|].
  eapply (runs_bind _ r _ _ tt _ w3 []); [by rewrite app_nil_r|by apply skip_ws_runs|].
  apply runs_ret.
Qed.

(** A member splits at its value. *)
Lemma DMember_inv m k v :
  DMember m k v -> exists w1 kt w2 w3 w4, m = (w1 ++ kt ++ w2 ++ ":"%char :: w3) ++ v ++ w4
    /\ ws w1 /\ DString kt k /\ ws w2 /\ ws w3 /\ JVal any_escape v /\ ws w4.
Proof.
  intros [w1 kt s w2 w3 v' w4 ? ? ? ? ? ?]. exists w1, kt, w2, w3, w4.
  split; [by repeat (rewrite <- ?app_assoc; cbn [app])|done].
Qed.

Lemma enter_field_loop_runs key t r fuel :
  LoopText key t -> length t < fuel -> (forall c, head r = Some c -> is_json_ws c = false) ->
  runs (t ++ r) (enter_field_loop fuel key) t tt.
Proof.
  intros (pre & ks & w1 & k & w2 & w3 & -> & Hpre & Hks & Hw1 & Hk & Hw2 & Hw3) Hf Hr.
  revert fuel Hf Hks.
  induction Hpre as [|m k' v t ks Hm Ht IH]; intros [|fuel] Hf Hks; try lia; cbn [enter_field_loop].
  - cbn [app]. eapply runs_ext; [intros p; apply field_key_bind|].
    eapply (runs_bind _ r _ _ key tt _ []); [by rewrite app_nil_r|by apply field_key_runs|].
    rewrite str_eqb_refl. apply runs_ret.
  - apply not_elem_of_cons in Hks as [Hne Hks].
    destruct (DMember_inv _ _ _ Hm) as (u1 & kt & u2 & u3 & u4 & -> & Hu1 & Hkt & Hu2 & Hu3 & Hv & Hu4).
    destruct (JVal_start _ _ Hv) as (c & v' & Hv' & Hc).
    eapply runs_ext; [intros p; apply field_key_bind|].
    set (tail := t ++ w1 ++ k ++ w2 ++ ":"%char :: w3) in *.
    match goal with |- runs ?x _ _ _ => replace x
      with ((u1 ++ kt ++ u2 ++ ":"%char :: u3) ++ v ++ u4 ++ ","%char :: tail ++ r)
      by (unfold tail; by repeat (rewrite <- ?app_assoc; cbn [app])) end.
    eapply (runs_bind _ (v ++ u4 ++ ","%char :: tail ++ r) _ _ k' tt _ (v ++ u4 ++ ","%char :: tail)).
    { unfold tail; by repeat (rewrite <- ?app_assoc; cbn [app]). }
    { apply field_key_runs; try done. rewrite Hv'. by intros ? [= <-]. }
    rewrite (proj2 (str_eqb_neq _ _)) by congruence.
    eapply (runs_bind _ (u4 ++ ","%char :: tail ++ r) _ _ tt tt v); [done| |].
    { apply to_option_runs. apply (skip_value_here_runs any_escape [] v); [constructor|done|].
      apply number_follow_ws; [done|]. apply number_follow_close; set_solver. }
    eapply (runs_bind _ (","%char :: tail ++ r) _ _ tt tt u4); [done| |].
    { apply skip_ws_runs; [done|]. by intros ? [= <-]. }
    eapply runs_bind_nil; [apply runs_peek|].
    eapply (runs_bind _ (tail ++ r) _ _ tt tt [","%char]); [done|apply runs_advance_1|].
    replace (tail ++ r) with ((t ++ w1 ++ k ++ w2 ++ ":"%char :: w3) ++ r) by done.
    apply IH; [subst tail; clear - Hf; len_lia|done].
Qed.

Lemma LoopText_start key t :
  LoopText key t -> exists w t', t = w ++ quote :: t' /\ ws w.
Proof.
  intros (pre & ks & w1 & k & w2 & w3 & -> & Hpre & _ & Hw1 & Hk & _).
  destruct Hpre as [|m k' v t ks Hm Ht].
  - destruct (DString_start _ _ Hk) as [k'' ->]. exists w1. eexists. by split.
  - destruct (DMember_inv _ _ _ Hm) as (u1 & kt & u2 & u3 & u4 & -> & Hu1 & Hkt & _).
    destruct (DString_start _ _ Hkt) as [k'' ->]. exists u1. eexists.
    split; [|done]. by repeat (rewrite <- ?app_assoc; cbn [app]).
Qed.

Lemma enter_field_runs key w0 t r :
  ws w0 -> FieldText key t -> (forall c, head r = Some c -> is_json_ws c = false) ->
  runs (w0 ++ t ++ r) (enter_field key) (w0 ++ t) tt.
Proof.
  intros Hw0 (pre & ks & w1 & k & w2 & w3 & -> & Hrest) Hr.
  set (t := pre ++ w1 ++ k ++ w2 ++ ":"%char :: w3).
  assert (Ht : LoopText key t) by (by exists pre, ks, w1, k, w2, w3).
  destruct (LoopText_start _ _ Ht) as (w & t' & Htw & Hw).
  intros p Hp. unfold enter_field. cbn [app] in *.
  assert (rest p = w0 ++ "{"%char :: t ++ r) as -> by apply Hp.
  revert p Hp. change (runs (w0 ++ "{"%char :: t ++ r)
    (skip_ws ;; let! o := peek in
     if negb (is_byte "{" o) then sfail tt else
     advance 1 ;; skip_ws ;; let! o := peek in
     if is_byte "}" o then sfail tt
     else enter_field_loop (S (length (w0 ++ "{"%char :: t ++ r))) key)
    (w0 ++ "{"%char :: t) tt).
  set (n := length (w0 ++ "{"%char :: t ++ r)).
  eapply (runs_bind _ ("{"%char :: t ++ r) _ _ tt tt w0); [done| |].
  { apply skip_ws_runs; [done|]. by intros ? [= <-]. }
  eapply runs_bind_nil; [apply runs_peek|]. cbn [head].
  change (negb (is_byte "{" (Some "{"%char))) with false. cbn iota.
  eapply (runs_bind _ (t ++ r) _ _ tt tt ["{"%char]); [done|apply runs_advance_1|].
  intros p Hp. rewrite <- (enter_field_loop_runs key t r (S n) Ht) with (3 := Hp); [|subst n; len_lia|done].
  rewrite Htw in Hp. rewrite <- app_assoc in Hp.
  assert (Hq : forall c, head ((quote :: t') ++ r) = Some c -> is_json_ws c = false)
    by (by intros ? [= <-]).
  unfold sbind at 1. rewrite (skip_ws_runs w _ Hw Hq p Hp).
  unfold sbind at 1, peek at 1. rewrite (at_input_lookup _ _ (at_input_bump _ _ _ Hp)).
  cbn [head app]. change (is_byte "}" (Some quote)) with false. cbn [enter_field_loop].
  by rewrite (skip_ws_bump _ w _ p Hp Hw Hq).
Qed.

(** ** The scalar *)
Lemma digit_ascii c : is_ascii_digit c = true -> in_range 0 127 c = true.
Proof. by destruct c as [[] [] [] [] [] [] [] []]. Qed.

Lemma JNumber_ascii t : JNumber t -> Forall (fun c => in_range 0 127 c = true) t.
Proof.
  assert (Hds : forall ds, all_digits ds -> Forall (fun c => in_range 0 127 c = true) ds)
    by (intros ds Hd; eapply Forall_impl; [apply Hd|apply digit_ascii]).
  intros (sign & int & frac & exp & -> & Hs & Hi & Hf & He). rewrite !Forall_app. split; [|split; [|split]].
  - destruct Hs as [->| ->]; by repeat constructor.
  - destruct Hi as [->|(c & ds & -> & _ & Hd)]; [by repeat constructor|by apply Hds].
  - destruct Hf as [->|(ds & -> & Hd & _)]; constructor; [done|by apply Hds].
  - destruct He as [->|(e & sg & ds & -> & He & Hsg & Hd & _)]; [constructor|].
    constructor; [by destruct He as [->| ->]|]. apply Forall_app. split; [|by apply Hds].
    destruct Hsg as [->|[->| ->]]; by repeat constructor.
Qed.

Lemma slice_from_bump {E} t r p :
  at_input (t ++ r) p ->
  slice_from (cur p) (bump (length t) p) = (Done t (bump (length t) p) : outcome E bytes).
Proof.
  intros Hp. pose proof (at_input_bump _ _ _ Hp) as [Hb _]. destruct Hp as [Hc Hr].
  unfold slice_from, in_bounds, bump in *. cbn [cur buf] in *.
  rewrite (proj2 (Nat.leb_le _ _)) by lia. rewrite (proj2 (Nat.leb_le _ _)) by lia.
  cbn [andb]. f_equal. rewrite skipn_firstn_comm. unfold rest in Hr.
  replace (cur p + length t - cur p) with (length t) by lia.
  rewrite Hr. by rewrite take_app_length.
Qed.

(** The branch of [scalar_string] that takes a number verbatim. *)
Definition scalar_number : scan unit str :=
  let! start := get_cur in
  to_option number ;;
  let! s := slice_from start in
  match from_utf8 s with Some s => sret s | None => sfail tt end.

Lemma scalar_number_at t r p :
  at_input (t ++ r) p -> JNumber t -> to_option number p = Done tt (bump (length t) p) ->
  scalar_number p = Done t (bump (length t) p).
Proof.
  intros Hp Ht Hn. unfold scalar_number. unfold sbind at 1, get_cur. unfold sbind at 1.
  rewrite Hn. unfold sbind. rewrite (slice_from_bump t r) by done.
  unfold from_utf8. by rewrite ascii_utf8_valid by by apply JNumber_ascii.
Qed.

Lemma scalar_number_sound l : triple l scalar_number (fun t r s => ScalarText t s).
Proof.
  intros p Hp. pose proof (to_option_triple _ _ _ (number_sound l) p Hp) as Hn.
  destruct (to_option number p) as [[] q|e| |] eqn:Hrun; try done.
  - destruct Hn as (t & r & -> & -> & Ht). rewrite (scalar_number_at t r) by done.
    exists t, r. repeat split. right. by left.
  - unfold scalar_number. unfold sbind at 1, get_cur. unfold sbind at 1. by rewrite Hrun.
Qed.

Lemma scalar_string_sound l : triple l scalar_string (fun t r s => ScalarText t s).
Proof.
  unfold scalar_string. stepv by peek_sound. destruct l as [|c l]; cbn [head]; finish.
  case_ifs; finish.
  - eapply triple_conseq; [apply to_option_triple, string_decode_sound|]. intros t r s _ Ht. by left.
  - stepv by (to_option_triple _ _ _ (literal_sound (lit "true") _)). finish. rewrite app_nil_r.
    right; right; by left.
  - stepv by (to_option_triple _ _ _ (literal_sound (lit "false") _)). finish. rewrite app_nil_r.
    right; right; by right.
  - apply scalar_number_sound.
Qed.

Lemma scalar_string_runs t s r :
  ScalarText t s -> number_follow r -> runs (t ++ r) scalar_string t s.
Proof.
  intros Ht Hr. unfold scalar_string. eapply runs_bind_nil; [apply runs_peek|].
  destruct Ht as [Ht|[[Ht ->]|[[-> ->]|[-> ->]]]].
  - destruct (DString_start _ _ Ht) as [t' Ht']. rewrite Ht' at 2. cbn [head app].
    by apply to_option_runs, string_decode_runs.
  - destruct (JNumber_start _ Ht) as (c & t' & Ht' & Hc).
    destruct (number_start_dispatch c Hc) as (_ & _ & H3 & H4 & H5 & _ & _).
    rewrite Ht' at 2. cbn [head app]. rewrite H3, H4, H5, Hc. intros p Hp.
    apply (scalar_number_at t r p Hp Ht).
    exact (to_option_runs _ _ _ _ (number_runs t r Ht Hr) p Hp).
  - eapply (runs_bind _ r _ _ tt _ (lit "true") []); [done| |apply runs_ret].
    apply to_option_runs, literal_runs.
  - eapply (runs_bind _ r _ _ tt _ (lit "false") []); [done| |apply runs_ret].
    apply to_option_runs, literal_runs.
Qed.

(** ** The path *)
Lemma FieldText_ws key t w : FieldText key t -> ws w -> FieldText key (t ++ w).
Proof.
  intros (pre & ks & w1 & k & w2 & w3 & -> & ? & ? & ? & ? & ? & ?) Hw.
  exists pre, ks, w1, k, w2, (w3 ++ w).
  split; [by repeat (rewrite <- ?app_assoc; cbn [app])|]. repeat (split; [done|]). by apply ws_app.
Qed.
Lemma PathText_ws segs t w : PathText segs t -> segs <> [] -> ws w -> PathText segs (t ++ w).
Proof.
  intros Ht Hne Hw. induction Ht as [|key segs t1 t2 H1 H2 IH]; [done|].
  rewrite <- app_assoc. destruct H2 as [|key' segs' t3 t4 H3 H4].
  - cbn [app]. rewrite <- (app_nil_r (t1 ++ w)). apply path_cons; [by apply FieldText_ws|constructor].
  - apply path_cons; [done|by apply IH].
Qed.

(** A path after leading white space; it can absorb trailing white space. *)
Definition WsPath (segs : list str) (t : bytes) : Prop :=
  exists w t', t = w ++ t' /\ ws w /\ PathText segs t'.
Lemma WsPath_ws segs t w : WsPath segs t -> ws w -> WsPath segs (t ++ w).
Proof.
  intros (w0 & t' & -> & Hw0 & Ht) Hw. destruct Ht as [|key segs t1 t2 H1 H2].
  - exists (w0 ++ w), []. rewrite !app_nil_r. split; [done|]. split; [by apply ws_app|constructor].
  - exists w0, ((t1 ++ t2) ++ w). rewrite <- app_assoc. split; [done|]. split; [done|].
    apply PathText_ws; [by constructor|done|done].
Qed.

Lemma walk_segments_sound walked segs l :
  triple l (walk_segments walked segs) (fun t r w => WsPath segs t /\ w = walked ++ segs).
Proof.
  revert walked l. induction segs as [|seg segs IH]; intros walked l; cbn [walk_segments].
  - apply triple_ret. rewrite app_nil_r. split; [|done]. exists [], []. by repeat constructor.
  - eapply triple_bind; [apply triple_map_err, enter_field_sound|]. intros t r u _ Ht. cbv beta in Ht.
    destruct Ht as (w0 & t1 & -> & Hw0 & Ht1).
    eapply triple_conseq; [apply IH|]. intros t2 r2 w _ [(w' & t3 & -> & Hw' & Ht3) ->].
    split; [|by rewrite <- app_assoc]. exists w0, ((t1 ++ w') ++ t3).
    split; [by rewrite <- !app_assoc|]. split; [done|].
    constructor; [by apply FieldText_ws|done].
Qed.

Lemma walk_segments_runs walked segs t r :
  PathText segs t -> (forall c, head r = Some c -> is_json_ws c = false) ->
  forall w, ws w -> segs <> [] \/ w = [] ->
  runs (w ++ t ++ r) (walk_segments walked segs) (w ++ t) (walked ++ segs).
Proof.
  intros Ht Hr. revert walked.
  induction Ht as [|key segs t1 t2 H1 H2 IH]; intros walked w Hw Hne; cbn [walk_segments].
  - destruct Hne as [Hne| ->]; [done|]. rewrite !app_nil_r. apply runs_ret.
  - rewrite <- app_assoc. replace (w ++ t1 ++ t2 ++ r) with ((w ++ t1) ++ t2 ++ r) by (by rewrite <- !app_assoc).
    eapply (runs_bind _ (t2 ++ r) _ _ tt _ (w ++ t1) t2); [by rewrite <- app_assoc| |].
    + apply runs_map_err. rewrite <- app_assoc. apply enter_field_runs; [done..|].
      destruct H2 as [|? ? t3 t4 (? & ? & ? & ? & ? & ? & -> & _)]; [done|]. by intros ? [= <-].
    + replace (walked ++ key :: segs) with ((walked ++ [key]) ++ segs) by (by rewrite <- !app_assoc).
      apply (IH _ []); [constructor|by right].
Qed.

(** The scan of [scalar_at_path], before the outcome becomes a [Result]. *)
Definition scalar_scan (segs : list str) : scan JsonError str :=
  let! walked := walk_segments [] segs in
  skip_ws ;;
  smap_err (fun _ => PathNotScalar (join (lit ".") walked)) scalar_string.

Lemma scalar_scan_sound segs l :
  triple l (scalar_scan segs) (fun t r s => exists pre v, t = pre ++ v
    /\ WsPath segs pre /\ ScalarText v s).
Proof.
  unfold scalar_scan. eapply triple_bind; [apply walk_segments_sound|].
  intros pre r walked _ [Hpre _]. stepv by skip_ws_sound. rename t into w.
  eapply triple_conseq; [apply triple_map_err, scalar_string_sound|].
  intros v r2 s _ Hv. exists (pre ++ w), v. rewrite <- app_assoc.
  split; [done|]. split; [by apply WsPath_ws|done].
Qed.

Lemma ScalarText_start v s : ScalarText v s -> exists c t, v = c :: t /\ is_json_ws c = false.
Proof.
  intros [H|[[H ->]|[[-> ->]|[-> ->]]]].
  - apply DString_start in H as [t ->]. by eexists _, _.
  - apply JNumber_start in H as (c & t & -> & Hc). exists c, t. split; [done|].
    destruct (number_start_dispatch c Hc) as (_ & _ & _ & _ & _ & _ & H7). exact H7.
  - by eexists _, _.
  - by eexists _, _.
Qed.

Lemma scalar_scan_runs segs w t v s r :
  ws w -> PathText segs t -> ScalarText v s -> number_follow r ->
  runs (w ++ t ++ v ++ r) (scalar_scan segs) (w ++ t ++ v) s.
Proof.
  intros Hw Ht Hv Hr. unfold scalar_scan.
  assert (Hq : forall c, head (v ++ r) = Some c -> is_json_ws c = false).
  { destruct (ScalarText_start _ _ Hv) as (c & v' & -> & Hc). by intros ? [= <-]. }
  destruct segs as [|seg segs].
  - inversion Ht; subst. eapply runs_bind_nil; [apply runs_ret|]. cbn [app].
    eapply (runs_bind _ (v ++ r) _ _ tt _ w v); [done|by apply skip_ws_runs|].
    by apply runs_map_err, scalar_string_runs.
  - replace (w ++ t ++ v ++ r) with ((w ++ t) ++ v ++ r) by (by rewrite <- !app_assoc).
    eapply (runs_bind _ (v ++ r) _ _ _ _ (w ++ t) v); [by rewrite <- !app_assoc| |].
    { rewrite <- app_assoc. apply walk_segments_runs; [done..|by left]. }
    eapply runs_bind_nil; [by apply skip_ws_runs_nil|].
    by apply runs_map_err, scalar_string_runs.
Qed.
End Path.
