(* ===== verification/JsonProps.v ===== *)
(** * The scanner's contract

    The properties of [crates/osproxy-core/src/json.rs] the rest of the proxy relies
    on, and a concrete vector unit to evaluate them on. *)
From stdpp Require Import base option list strings numbers sets.
From Stdlib Require Import Ascii ZArith Lia.
From S2P Require Import Prelude.
From S2P Require Import JsonScan.
From S2P Require Import JsonGrammar.
From S2P Require Import JsonTriples.
From S2P Require Import JsonValues.
From S2P Require Import JsonTop.
From S2P Require Import JsonPath.

Open Scope osp_scope.

(** ** A vector unit computed lane by lane *)
Definition lane_mask (f : nat -> byte) : N :=
  foldr (fun k m => if Ascii.eqb (f k) Ascii.zero then m else N.setbit m (N.of_nat k)) 0%N (seq 0 32).

Lemma lane_mask_testbit f k :
  N.testbit (lane_mask f) (N.of_nat k) = bool_decide (k < 32) && negb (Ascii.eqb (f k) Ascii.zero).
Proof.
  unfold lane_mask. assert (H : forall l, N.testbit
    (foldr (fun k m => if Ascii.eqb (f k) Ascii.zero then m else N.setbit m (N.of_nat k)) 0%N l)
    (N.of_nat k) = bool_decide (k ∈ l) && negb (Ascii.eqb (f k) Ascii.zero)).
  { induction l as [|j l IH]; cbn [foldr].
    - rewrite N.bits_0, bool_decide_eq_false_2; set_solver.
    - destruct (decide (j = k)) as [->|Hne].
      + rewrite (bool_decide_eq_true_2 (k ∈ k :: l)) by set_solver.
        destruct (Ascii.eqb (f k) Ascii.zero) eqn:Hz; cbn.
        * rewrite IH, andb_false_r. done.
        * by rewrite N.setbit_eq.
      + rewrite (bool_decide_ext (k ∈ j :: l) (k ∈ l)) by set_solver.
        destruct (Ascii.eqb (f j) Ascii.zero); [done|].
        rewrite N.setbit_neq by lia. done. }
  rewrite H. f_equal. apply bool_decide_ext. rewrite elem_of_seq. lia.
Qed.

Definition lanes_of (l : list byte) (k : nat) : byte := nth k l Ascii.zero.
Definition lane_bool (b : bool) : byte := if b then byte_of 255 else Ascii.zero.

Lemma lanes_spec (p : byte -> bool) l k :
  length l = 32 ->
  N.testbit (lane_mask (fun k => lane_bool (p (lanes_of l k)))) (N.of_nat k)
  = match l !! k with Some d => p d | None => false end.
Proof.
  intros Hl. rewrite lane_mask_testbit. destruct (l !! k) as [d|] eqn:Hk.
  - pose proof (lookup_lt_Some _ _ _ Hk). rewrite bool_decide_eq_true_2 by lia. cbn.
    unfold lanes_of. rewrite (nth_lookup_Some _ _ _ _ Hk). by destruct (p d).
  - apply lookup_ge_None in Hk. by rewrite bool_decide_eq_false_2 by lia.
Qed.

#[export] Program Instance scalar_wide : Wide := {|
  u8x32 := nat -> byte;
  splat c := fun _ => c;
  from_lanes := lanes_of;
  simd_eq a b := fun k => lane_bool (Ascii.eqb (a k) (b k));
  simd_lt a b := fun k => lane_bool (bz (a k) <? bz (b k))%Z;
  to_bitmask := lane_mask
|}.
Next Obligation. intros l c k Hl. by apply (lanes_spec (fun d => Ascii.eqb d c)). Qed.
Next Obligation. intros l c k Hl. by apply (lanes_spec (fun d => (bz d <? bz c)%Z)). Qed.

(** A body written with single quotes for double ones, to read like the tests. *)
Definition body (s : string) : bytes :=
  (fun c => if Ascii.eqb c "'" then quote else c) <$> lit s.

Example validate_runs : validate (body "{'a':[1,2.5e-3,true,null,{'b':'x\n'}]} ") = Ok tt.
Proof. vm_compute. reflexivity. Qed.
Example validate_truncated : validate (body "{'a':") = Err Invalid.
Proof. vm_compute. reflexivity. Qed.
Example validate_leading_zero : validate (body "01") = Err Invalid.
Proof. vm_compute. reflexivity. Qed.
Example top_level_runs :
  object_top_level (body " {'a':1, 'b\u0041':2}")
  = Ok (MkTopLevel 2 false [lit "a"; lit "bA"]).
Proof. vm_compute. reflexivity. Qed.
Example scalar_runs :
  scalar_at_path (body "{'x':{'q':0},'a':{'id':'t-1','n':12}}") [lit "a"; lit "n"] = Ok (lit "12").
Proof. vm_compute. reflexivity. Qed.
Example scalar_missing :
  scalar_at_path (body "{'x':{'q':0}}") [lit "x"; lit "r"] = Err (PathNotScalar (lit "x.r")).
Proof. vm_compute. reflexivity. Qed.

(** ** The recursion of [skip_value]

    How many of its calls are active at once, when it is called at [p]: the calls nested in
    this one, with those of the members or elements behind each value that it passes over. *)
Section Recursion.
Context {W : Wide}.
Definition behind {A} (m : scan JsonError A) (k : Parser -> nat) : Parser -> nat :=
  fun p => match m p with Done _ p => k p | Fail _ | Panic | OutOfFuel => 0 end.
Fixpoint value_calls (fuel : nat) (p : Parser) : nat :=
  match fuel with
  | 0 => 0
  | S fuel =>
      S (behind skip_ws (fun p =>
           match buf p !! cur p with
           | Some c => if Ascii.eqb c "{" then object_calls fuel p else if Ascii.eqb c "[" then array_calls fuel p else 0
           | None => 0
           end) p)
  end
with object_calls (fuel : nat) (p : Parser) : nat :=
  match fuel with
  | 0 => 0
  | S fuel => behind (advance 1 ;; skip_ws) (fun p => if is_byte "}" (buf p !! cur p) then 0 else members_calls fuel p) p
  end
with members_calls (fuel : nat) (p : Parser) : nat :=
  match fuel with
  | 0 => 0
  | S fuel =>
      behind (skip_ws ;; skip_string ;; skip_ws ;; expect ":") (fun p =>
        Nat.max (value_calls fuel p)
          (behind (skip_value fuel ;; skip_ws) (fun p => if is_byte "," (buf p !! cur p) then members_calls fuel (bump 1 p) else 0) p)) p
  end
with array_calls (fuel : nat) (p : Parser) : nat :=
  match fuel with
  | 0 => 0
  | S fuel => behind (advance 1 ;; skip_ws) (fun p => if is_byte "]" (buf p !! cur p) then 0 else elements_calls fuel p) p
  end
with elements_calls (fuel : nat) (p : Parser) : nat :=
  match fuel with
  | 0 => 0
  | S fuel =>
      Nat.max (value_calls fuel p)
        (behind (skip_value fuel ;; skip_ws) (fun p => if is_byte "," (buf p !! cur p) then elements_calls fuel (bump 1 p) else 0) p)
  end.
Definition active_calls (p : Parser) : nat := value_calls (value_fuel (length (rest p))) p.
Definition opens (c : byte) : bool := Ascii.eqb c "{" || Ascii.eqb c "[".
Definition openers (l : bytes) : nat := length (List.filter opens l).

(** The cursor only moves on. *)
Definition advances {E A} (m : scan E A) : Prop := forall p, match m p with Done _ p' => exists n, p' = bump n p | _ => True end.
Lemma advances_bind {E A B} (m : scan E A) (f : A -> scan E B) : advances m -> (forall a, advances (f a)) -> advances (sbind m f).
Proof.
  intros Hm Hf p. unfold sbind. specialize (Hm p). destruct (m p) as [a p'| | |]; try done. destruct Hm as [n ->].
  specialize (Hf a (bump n p)). destruct (f a _); try done. destruct Hf as [k ->]. exists (n + k). apply bump_bump.
Qed.
Lemma advances_ret {E A} (a : A) : advances (sret a : scan E A).
Proof. intros p. exists 0. by rewrite bump_0. Qed.
Lemma advances_fail {E A} (e : E) : advances (sfail e : scan E A).
Proof. done. Qed.
Lemma advances_advance {E} n : advances (advance n : scan E unit).
Proof. intros p. by exists n. Qed.
Lemma advances_peek {E} : advances (peek : scan E _).
Proof. intros p. exists 0. by rewrite bump_0. Qed.
Lemma advances_tail {E} : advances (tail_slice : scan E _).
Proof. intros p. unfold tail_slice. destruct (_ <=? _); [|done]. exists 0. by rewrite bump_0. Qed.
Lemma advances_index {E} : advances (index_cur : scan E _).
Proof. intros p. unfold index_cur. destruct (_ !! _); [|done]. exists 0. by rewrite bump_0. Qed.
Lemma advances_ws {E} : advances (skip_ws : scan E _).
Proof. intros p. by eexists. Qed.
Lemma advances_digits {E} : advances (digits : scan E _).
Proof. intros p. by eexists. Qed.
Lemma advances_stuck {E A} : advances ((fun _ => OutOfFuel) : scan E A).
Proof. done. Qed.
Ltac advance_on :=
  repeat first [ apply advances_bind; [|intros ?] | apply advances_ret | apply advances_fail | apply advances_advance
               | apply advances_peek | apply advances_tail | apply advances_index | apply advances_ws | apply advances_digits
               | apply advances_stuck | case_match | done ].
Lemma advances_expect c : advances (expect c).
Proof. unfold expect. advance_on. Qed.
Lemma advances_hex n v : advances (hex_digits n v).
Proof. revert v. induction n as [|n IH]; intros v; cbn [hex_digits]; unfold hex_digit; advance_on; apply IH. Qed.
Lemma advances_string : advances skip_string.
Proof.
  assert (Hl : forall n, advances (skip_string_loop n)).
  { induction n as [|n IH]; cbn [skip_string_loop]; advance_on; try apply IH; apply advances_hex. }
  intros p. unfold skip_string. apply (advances_bind (expect quote) (fun _ => skip_string_loop _)); [apply advances_expect|intros _; apply Hl].
Qed.
Lemma advances_number : advances number.
Proof. unfold number, one_or_more_digits. advance_on. Qed.
Lemma advances_values n :
  advances (skip_value n) /\ advances (skip_object n) /\ advances (skip_members n) /\ advances (skip_array n) /\ advances (skip_elements n).
Proof.
  induction n as [|n (IHv & IHo & IHm & IHa & IHe)]; [by split_and!|]. split_and!; cbn [skip_value skip_object skip_members skip_array skip_elements]; unfold literal;
    advance_on; first [done|apply advances_string|apply advances_number|apply advances_expect].
Qed.

Lemma openers_drop n l : openers (drop n l) <= openers l.
Proof.
  rewrite <- (take_drop n l) at 2. unfold openers. rewrite List.filter_app, length_app. lia.
Qed.
Lemma openers_bump n p : openers (rest (bump n p)) <= openers (rest p).
Proof. unfold rest. cbn. rewrite <- drop_drop. apply openers_drop. Qed.
Lemma openers_here p c : buf p !! cur p = Some c -> opens c = true -> openers (rest p) = S (openers (rest (bump 1 p))).
Proof.
  intros Hc Ho. unfold rest. cbn. rewrite (drop_S _ _ _ Hc). unfold openers. cbn. rewrite Ho. cbn.
  by replace (cur p + 1) with (S (cur p)) by lia.
Qed.
Lemma behind_bound {A} (m : scan JsonError A) k n p :
  advances m -> (forall j, k (bump j p) <= n) -> behind m k p <= n.
Proof. intros Hm Hk. unfold behind. specialize (Hm p). destruct (m p); try lia. destruct Hm as [j ->]. apply Hk. Qed.
(** A count that no text exceeds by more than one: behind an opening byte, and behind a
    value and its comma. *)
Section Bounded.
Context (k : Parser -> nat) (Hk : forall p, k p <= S (openers (rest p))).
Lemma inside_bound b p c : buf p !! cur p = Some c -> opens c = true ->
  behind (advance 1 ;; skip_ws) (fun p => if is_byte b (buf p !! cur p) then 0 else k p) p <= openers (rest p).
Proof.
  intros Hc Ho. rewrite (openers_here p c Hc Ho). unfold behind, sbind, advance, skip_ws. case_match; [lia|].
  etrans; [apply Hk|]. apply le_n_S, openers_bump.
Qed.
Lemma next_bound fuel p :
  behind (skip_value fuel ;; skip_ws) (fun p => if is_byte "," (buf p !! cur p) then k (bump 1 p) else 0) p <= S (openers (rest p)).
Proof.
  apply behind_bound; [apply advances_bind; [apply advances_values|intros _; apply advances_ws]|]. intros j. case_match; [|lia].
  etrans; [apply Hk|]. apply le_n_S. etrans; apply openers_bump.
Qed.
End Bounded.
Lemma calls_bound fuel :
  (forall p, value_calls fuel p <= S (openers (rest p)))
  /\ (forall p c, buf p !! cur p = Some c -> opens c = true -> object_calls fuel p <= openers (rest p))
  /\ (forall p, members_calls fuel p <= S (openers (rest p)))
  /\ (forall p c, buf p !! cur p = Some c -> opens c = true -> array_calls fuel p <= openers (rest p))
  /\ (forall p, elements_calls fuel p <= S (openers (rest p))).
Proof.
  induction fuel as [|fuel (IHv & IHo & IHm & IHa & IHe)]; [split_and!; intros; cbn; lia|].
  split_and!; cbn [value_calls object_calls members_calls array_calls elements_calls].
  - intros p. apply le_n_S, behind_bound; [apply advances_ws|]. intros j. pose proof (openers_bump j p). case_match eqn:Hc; [|lia].
    destruct (Ascii.eqb_spec a "{") as [->|]; [etrans; [by eapply IHo|done]|].
    destruct (Ascii.eqb_spec a "[") as [->|]; [etrans; [by eapply IHa|done]|lia].
  - intros p c Hc Ho. by eapply inside_bound.
  - intros p. apply behind_bound.
    { repeat (apply advances_bind; [first [apply advances_ws|apply advances_string]|intros _]). apply advances_expect. }
    intros j. apply (Nat.le_trans _ (S (openers (rest (bump j p))))); [|apply le_n_S, openers_bump].
    apply Nat.max_lub; [apply IHv|by apply next_bound].
  - intros p c Hc Ho. by eapply inside_bound.
  - intros p. apply Nat.max_lub; [apply IHv|by apply next_bound].
Qed.
Lemma active_calls_bound p : active_calls p <= S (openers (rest p)).
Proof. apply calls_bound. Qed.
Lemma brackets_nest k fuel p : at_input (replicate k "["%char) p -> 3 * k < fuel -> S k <= value_calls fuel p.
Proof.
  revert fuel p. induction k as [|k IH]; intros [|fuel] p Hp Hf; try lia; cbn [value_calls]; [lia|]. apply le_n_S.
  assert (Hws : skip_ws (E := JsonError) p = Done tt p).
  { pose proof (skip_ws_runs_nil (E := JsonError) (replicate (S k) "["%char) ltac:(by intros ? [= <-]) p Hp) as H. by rewrite bump_0 in H. }
  unfold behind at 1. rewrite Hws, (at_input_lookup _ _ Hp). cbn [head replicate]. cbn [Ascii.eqb].
  change (S k <= array_calls fuel p). destruct fuel as [|[|fuel]]; try lia. cbn [array_calls].
  assert (Hp1 : at_input (replicate k "["%char) (bump 1 p)) by exact (at_input_bump ["["%char] _ _ Hp).
  assert (Hws1 : skip_ws (E := JsonError) (bump 1 p) = Done tt (bump 1 p)).
  { pose proof (skip_ws_runs_nil (E := JsonError) (replicate k "["%char) ltac:(by destruct k; intros ? [= <-]) _ Hp1) as H. by rewrite bump_0 in H. }
  unfold behind, sbind, advance. rewrite Hws1, (at_input_lookup _ _ Hp1).
  assert (Hb : is_byte "]" (head (replicate k "["%char)) = false) by by destruct k. rewrite Hb. cbn [elements_calls].
  etrans; [apply (IH fuel _ Hp1); lia|apply Nat.le_max_l].
Qed.
Lemma brackets_calls n : active_calls (new_parser (replicate n "["%char)) = S n.
Proof.
  assert (Ho : openers (replicate n "["%char) = n) by (induction n as [|n IH]; [done|unfold openers in *; cbn; by rewrite IH]).
  pose proof (active_calls_bound (new_parser (replicate n "["%char))) as H.
  change (rest (new_parser (replicate n "["%char))) with (replicate n "["%char) in H. rewrite Ho in H.
  pose proof (brackets_nest n (value_fuel (length (replicate n "["%char))) _ (at_input_new _)) as H'.
  unfold active_calls, value_fuel in *. change (rest (new_parser (replicate n "["%char))) with (replicate n "["%char) in *.
  rewrite length_replicate in *. specialize (H' ltac:(lia)). lia.
Qed.
End Recursion.

Section Contract.
Context {W : Wide}.

Lemma unknown_escape_not_body esc w :
  ~ esc "q"%char -> forall t, JBody esc t -> t ++ quote :: w <> body "\q'".
Proof. intros Hq t [|c t' Hc Ht|c t' Hc Hu Ht|h ds t' Hh Hl Ht] [=]; subst; done. Qed.
Lemma unknown_escape_not_string esc w t :
  ~ esc "q"%char -> JString esc t -> t ++ w <> body "'\q'".
Proof.
  intros Hq (bd & Hbd & ->). intros [= H]. rewrite <- app_assoc in H.
  by apply (unknown_escape_not_body esc w Hq bd Hbd).
Qed.
Lemma unknown_escape_not_rfc : ~ JDoc rfc_escape (body "'\q'").
Proof.
  intros (w1 & v & w2 & H & Hw1 & Hv & _). destruct Hw1 as [|c w1 Hc]; [|by injection H as <-].
  assert (Hq : ~ rfc_escape "q"%char) by (by intros [? ?]).
  destruct Hv as [t Ht|t Ht| | | | | | |]; try discriminate.
  - by apply (unknown_escape_not_string rfc_escape w2 t Hq Ht).
  - apply JNumber_start in Ht as (c & t' & -> & Hc). by injection H as <-.
Qed.

(** C39: [validate] accepts a body exactly when the whole body is one document of the
    scanner's grammar, and rejects every other. That grammar is JSON's, except in strings: a
    backslash may be followed by any byte (a control byte or one that is not ASCII too;
    four hexadecimal digits follow a [u]), and the bytes of a string need not be UTF-8. *)
Theorem validate_accepts_exactly_documents b : validate b = Ok tt <-> JDoc any_escape b.
Proof. apply validate_spec. Qed.

(** C40: no body and no path make the scanner panic (slice or index out of range) or
    run for ever: given the stack for its recursion, every entry point ends in a value or an error. The
    recursion is that of [skip_value], which calls itself once for each object or array that it is
    inside: at most as many calls are active as the rest of the body has opening braces and
    brackets, and one more. The code sets no limit to that: a body of [n] brackets takes [n + 1] of
    them, for any [n]. (A stack too small for them, which aborts the process, is not modelled.) *)
Theorem scanner_never_panics_or_loops b segs :
  safe (validate_scan (new_parser b))
  /\ safe (object_top_level_scan b (new_parser b))
  /\ safe (scalar_scan segs (new_parser b))
  /\ (forall p, active_calls p <= S (openers (rest p)))
  /\ forall n, active_calls (new_parser (replicate n "["%char)) = S n.
Proof.
  split; [apply (triple_safe b _ _ (validate_scan_sound b))|].
  split; [apply object_top_level_safe|]. split; [apply (triple_safe b _ _ (scalar_scan_sound segs b))|].
  split; [intros p; apply active_calls_bound|apply brackets_calls].
Qed.

(** [object_top_level] succeeds exactly on a body that is one JSON object, and then
    returns the offset just after its opening brace, whether it has no member, and its
    keys, decoded, in order, duplicates kept. *)
Theorem object_top_level_exact b top : object_top_level b = Ok top <-> TopLevelDoc b top.
Proof. apply object_top_level_spec. Qed.

(** The error of [object_top_level] is [NotAnObject] exactly when the body is valid
    JSON whose value is not an object; it is [Invalid] on any other body it rejects. *)
Theorem object_top_level_errors b e :
  object_top_level b = Err e ->
  (e = NotAnObject /\ JDoc any_escape b /\ ~ (exists w l, b = w ++ "{"%char :: l /\ ws w))
  \/ (e = Invalid /\ ~ (exists top, TopLevelDoc b top)
      /\ (JDoc any_escape b -> exists w l, b = w ++ "{"%char :: l /\ ws w)).
Proof. apply object_top_level_Err. Qed.

(** [scalar_at_path] returns [s] only if the body leads, through the first member of
    each key in turn, to a scalar literal that denotes [s] (a string decoded, a number or
    a boolean verbatim); and whenever the body leads to such a literal, followed by
    anything that does not extend it, it returns it. *)
Theorem scalar_at_path_exact b segs s :
  (scalar_at_path b segs = Ok s ->
     exists pre v r, b = pre ++ v ++ r /\ WsPath segs pre /\ ScalarText v s)
  /\ (forall pre v r, b = pre ++ v ++ r -> WsPath segs pre -> ScalarText v s -> number_follow r ->
     scalar_at_path b segs = Ok s).
Proof.
  split.
  - intros H. destruct (run_sound _ _ _ _ (scalar_scan_sound segs b) H)
      as (t & r & -> & pre & v & -> & Hp & Hv).
    exists pre, v, r. by rewrite <- app_assoc.
  - intros pre v r -> (w & t & -> & Hw & Ht) Hv Hr. rewrite <- app_assoc.
    eapply run_complete. by apply scalar_scan_runs.
Qed.

(** The vectorised search for the next string boundary, 32 bytes at a time with a
    scalar tail, is the plain byte-by-byte search, for every input and alignment. *)
Theorem next_string_boundary_is_position l :
  next_string_boundary l = position is_string_boundary l.
Proof. apply next_string_boundary_spec. Qed.

(** A byte that is not UTF-8, and a control byte behind a backslash, in a string. *)
Example validate_accepts_raw_bytes :
  let raw := body "'" ++ [ascii_of_nat 255] ++ body "'" in
  validate raw = Ok tt /\ utf8_valid raw = false
  /\ validate (quote :: backslash :: ascii_of_nat 10 :: [quote]) = Ok tt.
Proof. vm_compute. done. Qed.

(** The skipping scanner is more lenient than RFC 8259: it takes any byte after a
    backslash, so [validate] accepts the body ["\q"], which the RFC's grammar and the
    decoding scanner of the same file both reject. *)
Theorem validate_accepts_unknown_escape :
  validate (body "'\q'") = Ok tt /\ ~ JDoc rfc_escape (body "'\q'")
  /\ scalar_at_path (body "'\q'") [] = Err (PathNotScalar []).
Proof.
  split; [reflexivity|]. split; [apply unknown_escape_not_rfc|reflexivity].
Qed.
End Contract.

Lemma object_top_level_errors_witness :
  (NotAnObject = NotAnObject /\ JDoc any_escape (body "[1]")
     /\ ~ (exists w l, body "[1]" = w ++ "{"%char :: l /\ ws w))
  \/ (NotAnObject = Invalid /\ ~ (exists top, TopLevelDoc (body "[1]") top)
      /\ (JDoc any_escape (body "[1]") -> exists w l, body "[1]" = w ++ "{"%char :: l /\ ws w)).
Proof. apply (object_top_level_errors (body "[1]") NotAnObject). vm_compute. reflexivity. Defined.
