(* ===== verification/Hex.v ===== *)
(** * Hexadecimal text

    The hex helpers [crates/osproxy-core/src/cursor.rs] and [trace.rs] each declare
    (the same code in both files). *)
From stdpp Require Import base option list strings numbers.
From Stdlib Require Import Ascii ZArith Lia.
From S2P Require Import Prelude.

Open Scope osp_scope.

Definition DIGITS : bytes := lit "0123456789abcdef".
Definition digit_char (n : Z) : byte := nth (Z.to_nat n) DIGITS Ascii.zero.

(** [for &b in bytes { out.push(DIGITS[b >> 4]); out.push(DIGITS[b & 0x0f]) }]. *)
Definition push_hex (out : str) (bs : bytes) : str :=
  foldl (fun out b => out ++ [digit_char (Z.shiftr (bz b) 4); digit_char (Z.land (bz b) 15)]) out bs.

(** The value of a single hex digit (a [u8]). *)
Definition hex_val (c : byte) : option Z :=
  if in_range 48 57 c then Some (bz c - 48)%Z
  else if in_range 97 102 c then Some (bz c - 97 + 10)%Z
  else if in_range 65 70 c then Some (bz c - 65 + 10)%Z
  else None.

(** [(hi << 4) | lo] on [u8]. *)
Definition nibbles (hi lo : Z) : Z := Z.lor (Z.shiftl hi 4 mod 256) lo.

(** [chunks_exact(2)]: the pairs of bytes, a last odd byte left out. *)
Fixpoint pairs (l : bytes) : list (byte * byte) :=
  match l with a :: b :: l => (a, b) :: pairs l | _ => [] end.

(** One decoded byte, and all of them: the first bad digit ends the loop. *)
Definition hex_pair (p : byte * byte) : option byte :=
  match hex_val p.1, hex_val p.2 with
  | Some hi, Some lo => Some (byte_of (nibbles hi lo))
  | _, _ => None
  end.

(** [decode_hex(hex, &mut out)] with [n = out.len()]; the value is the new content of
    [out]. *)
Definition decode_hex (hex : str) (n : nat) : option bytes :=
  if negb (length hex =? n * 2) then None
  else mapM hex_pair (pairs hex).

Definition decode_hex_to_string (hex : str) : option str :=
  if negb (length hex mod 2 =? 0) then None
  else out ← mapM hex_pair (pairs hex); from_utf8 out.

(** The accumulator loop of [hex_eq_ct], without an early return. *)
Definition hex_eq_step (diff : Z) (p : (byte * byte) * byte) : Z :=
  match hex_val p.1.1, hex_val p.1.2 with
  | Some hi, Some lo => Z.lor diff (Z.lxor (nibbles hi lo) (bz p.2))
  | _, _ => Z.lor diff 1
  end.
Definition hex_eq_ct (hex : str) (expected : bytes) : bool :=
  if negb (length hex =? length expected * 2) then false
  else (foldl hex_eq_step 0 (zip (pairs hex) expected) =? 0)%Z.

(** ** Lemmas *)
Definition hex_of (b : byte) : bytes :=
  [digit_char (Z.shiftr (bz b) 4); digit_char (Z.land (bz b) 15)].

Lemma push_hex_app out bs : push_hex out bs = out ++ mbind hex_of bs.
Proof.
  unfold push_hex. revert out. induction bs as [|b bs IH]; intros out; cbn [foldl].
  - by rewrite app_nil_r.
  - rewrite IH. by rewrite <- app_assoc.
Qed.

Lemma length_hex bs : length (mbind hex_of bs) = 2 * length bs.
Proof. induction bs as [|b bs IH]; cbn in *; [done|]. rewrite IH. lia. Qed.

Lemma hex_pair_of b : hex_pair (digit_char (Z.shiftr (bz b) 4), digit_char (Z.land (bz b) 15)) = Some b.
Proof. by destruct b as [[] [] [] [] [] [] [] []]. Qed.

Lemma decode_pairs_hex bs : mapM hex_pair (pairs (mbind hex_of bs)) = Some bs.
Proof.
  induction bs as [|b bs IH]; [done|]. cbn [mbind list_bind hex_of app pairs].
  change (list_bind _ _ hex_of bs) with (mbind hex_of bs) in *.
  rewrite mapM_cons || cbn [mapM]. rewrite hex_pair_of. cbn. by rewrite IH.
Qed.

Lemma decode_hex_of bs : decode_hex (mbind hex_of bs) (length bs) = Some bs.
Proof.
  unfold decode_hex. rewrite length_hex, (Nat.mul_comm 2), Nat.eqb_refl. apply decode_pairs_hex.
Qed.

Lemma decode_hex_to_string_of s :
  utf8_valid s = true -> decode_hex_to_string (mbind hex_of s) = Some s.
Proof.
  intros Hs. unfold decode_hex_to_string. rewrite length_hex, (Nat.mul_comm 2), Nat.Div0.mod_mul. cbn.
  rewrite decode_pairs_hex. cbn. by apply from_utf8_Some.
Qed.

Lemma hex_val_char b : is_Some (hex_val (digit_char (Z.shiftr (bz b) 4)))
  /\ is_Some (hex_val (digit_char (Z.land (bz b) 15))).
Proof. destruct b as [[] [] [] [] [] [] [] []]; split; by eexists. Qed.

(** Every character of hex text is a hex digit. *)
Lemma hex_chars bs : Forall (fun c => is_Some (hex_val c)) (mbind hex_of bs).
Proof.
  induction bs as [|b bs IH]; [constructor|]. cbn. destruct (hex_val_char b).
  by repeat constructor.
Qed.

Lemma hex_val_lt c v : hex_val c = Some v -> (0 <= v < 16)%Z.
Proof.
  unfold hex_val, in_range. pose proof (bz_bound c).
  repeat case_match; intros [= <-]; repeat match goal with
    H : _ && _ = true |- _ => apply andb_true_iff in H as [?%Z.leb_le ?%Z.leb_le] end; lia.
Qed.

Lemma nibbles_bound hi lo : (0 <= hi < 16)%Z -> (0 <= lo < 16)%Z -> (0 <= nibbles hi lo < 256)%Z.
Proof.
  intros Hhi Hlo. unfold nibbles. rewrite Z.shiftl_mul_pow2 by lia. change (2 ^ 4)%Z with 16%Z.
  rewrite Z.mod_small by lia. split.
  - apply Z.lor_nonneg. lia.
  - destruct (Z.eq_dec (Z.lor (hi * 16) lo) 0) as [->|Hne]; [lia|].
    assert (0 <= Z.lor (hi * 16) lo)%Z by (apply Z.lor_nonneg; lia).
    change 256%Z with (2 ^ 8)%Z. apply Z.log2_lt_pow2; [lia|].
    rewrite Z.log2_lor by lia. apply Z.max_lub_lt.
    + destruct (Z.eq_dec hi 0) as [->|]; [done|]. apply Z.log2_lt_pow2; lia.
    + destruct (Z.eq_dec lo 0) as [->|]; [done|]. apply Z.log2_lt_pow2; lia.
Qed.

(** Comparing the digits in place is decoding them and comparing the bytes. *)
Lemma hex_eq_step_zero diff p :
  (0 <= diff)%Z ->
  (0 <= hex_eq_step diff p)%Z
  /\ (hex_eq_step diff p = 0 <-> diff = 0 /\ hex_pair p.1 = Some p.2)%Z.
Proof.
  intros Hd. destruct p as [[a b] w]. unfold hex_eq_step, hex_pair. cbn [fst snd].
  destruct (hex_val a) as [hi|] eqn:Ha; [destruct (hex_val b) as [lo|] eqn:Hb|].
  - pose proof (nibbles_bound hi lo (hex_val_lt _ _ Ha) (hex_val_lt _ _ Hb)) as Hn.
    pose proof (bz_bound w). split.
    { apply Z.lor_nonneg. split; [done|]. apply Z.lxor_nonneg. lia. }
    rewrite Z.lor_eq_0_iff, Z.lxor_eq_0_iff. split; intros [-> Hw]; (split; [done|]).
    + by rewrite Hw, byte_of_bz.
    + injection Hw as <-. rewrite bz_byte_of. symmetry. apply Z.mod_small. lia.
  - split; [apply Z.lor_nonneg; lia|]. rewrite Z.lor_eq_0_iff. split; [intros [_ [=]]|by intros [_ [=]]].
  - split; [apply Z.lor_nonneg; lia|]. rewrite Z.lor_eq_0_iff. split; [intros [_ [=]]|by intros [_ [=]]].
Qed.

Lemma hex_eq_fold_zero ps ws diff :
  (0 <= diff)%Z -> length ps = length ws ->
  (foldl hex_eq_step diff (zip ps ws) = 0 <-> diff = 0 /\ mapM hex_pair ps = Some ws)%Z.
Proof.
  revert ws diff. induction ps as [|p ps IH]; intros [|w ws] diff Hd Hl; try done; cbn [zip_with foldl].
  - cbn. naive_solver.
  - destruct (hex_eq_step_zero diff (p, w) Hd) as [Hd' Hz]. rewrite IH, Hz by (done || cbn in *; lia).
    cbn [fst snd mapM]. destruct (hex_pair p) as [x|] eqn:Hp; cbn; [|naive_solver].
    clear IH Hz. destruct (mapM hex_pair ps) as [xs|]; cbn.
    + split; [intros [[-> [= ->]] [= ->]]|intros [-> [= -> ->]]]; done.
    + split; [by intros [_ [=]]|by intros [_ [=]]].
Qed.

Lemma length_pairs l n : length l = n * 2 -> length (pairs l) = n.
Proof.
  revert l. induction n as [|n IH]; intros [|a [|b l]] Hl; cbn in *; try lia. by rewrite IH by lia.
Qed.

Lemma hex_eq_ct_spec h e :
  hex_eq_ct h e = true <-> decode_hex h (length e) = Some e.
Proof.
  unfold hex_eq_ct, decode_hex. destruct (length h =? length e * 2) eqn:Hl; cbn; [|naive_solver].
  apply Nat.eqb_eq in Hl. rewrite Z.eqb_eq, hex_eq_fold_zero; [naive_solver|lia|by apply length_pairs].
Qed.
