(* ===== verification/NetAddr.v ===== *)
(** * Socket addresses of the standard library

    [str::parse::<SocketAddr>], the parser of [core::net], as the configuration uses it:
    an IPv4 address and a port, or a bracketed IPv6 address with an optional scope and a
    port.  Each reader takes the text left and gives what it read with what is left after
    it, or nothing. *)
From stdpp Require Import base option list strings numbers.
From Stdlib Require Import Ascii ZArith Lia.
From S2P Require Import Prelude.

Open Scope osp_scope.

Definition reader (A : Type) : Type := str -> option (A * str).

Definition read_given_char (c : byte) : reader unit := fun s =>
  match s with d :: s => if Ascii.eqb c d then Some (tt, s) else None | [] => None end.

(** [char::to_digit]. *)
Definition to_digit (radix : Z) (c : byte) : option Z :=
  let v := bz c in
  let d := (if (48 <=? v) && (v <=? 57) then v - 48
            else if (97 <=? v) && (v <=? 122) then v - 87
            else if (65 <=? v) && (v <=? 90) then v - 55 else radix)%Z in
  if (d <? radix)%Z then Some d else None.

(** The digits at the front, the number they make ([None] above [max], the checked
    arithmetic of the number's type), and how many they are. *)
Fixpoint read_digits (radix max : Z) (s : str) (count : nat) (acc : option Z) : option Z * nat * str :=
  match s with
  | [] => (acc, count, [])
  | c :: s' =>
      match to_digit radix c with
      | None => (acc, count, s)
      | Some d =>
          read_digits radix max s' (S count)
            (n ← acc; if (n * radix + d <=? max)%Z then Some (n * radix + d)%Z else None)
      end
  end.
Definition read_number (radix max : Z) (max_digits : option nat) (allow_zero_prefix : bool) : reader Z := fun s =>
  let '(n, count, rest) := read_digits radix max s 0 (Some 0%Z) in
  let too_many := match max_digits with Some m => m <? count | None => false end in
  let leading_zero := match s with c :: _ => Ascii.eqb c "0" | [] => false end in
  if too_many || (count =? 0) || (negb allow_zero_prefix && leading_zero && (1 <? count)) then None
  else n ← n; Some (n, rest).

Definition read_separator {A} (sep : byte) (i : nat) (r : reader A) : reader A := fun s =>
  match i with 0 => r s | S _ => '(_, s) ← read_given_char sep s; r s end.

Definition read_ipv4_addr : reader (list Z) := fun s =>
  let octet i := read_separator "." i (read_number 10 255 (Some 3) false) in
  '(a, s) ← octet 0 s; '(b, s) ← octet 1 s; '(c, s) ← octet 2 s; '(d, s) ← octet 3 s;
  Some ([a; b; c; d], s).

(** [read_groups] for the groups left, from group [i] of [limit]: the groups read, and
    whether the last two are an embedded IPv4 address. *)
Fixpoint read_groups (slots limit i : nat) (s : str) : list Z * bool * str :=
  match slots with
  | 0 => ([], false, s)
  | S slots =>
      match (if i <? limit - 1 then read_separator ":" i read_ipv4_addr s else None) with
      | Some ([a; b; c; d], s) => ([a * 256 + b; c * 256 + d]%Z, true, s)
      | _ =>
          match read_separator ":" i (read_number 16 65535 (Some 4) true) s with
          | Some (g, s) => let '(gs, v4, s) := read_groups slots limit (S i) s in (g :: gs, v4, s)
          | None => ([], false, s)
          end
      end
  end.
Definition read_ipv6_addr : reader (list Z) := fun s =>
  let '(head, head_ipv4, s) := read_groups 8 8 0 s in
  if length head =? 8 then Some (head, s)
  else if head_ipv4 then None
  else
    '(_, s) ← read_given_char ":" s; '(_, s) ← read_given_char ":" s;
    let limit := 8 - (length head + 1) in
    let '(tail, _, s) := read_groups limit limit 0 s in
    Some (head ++ replicate (8 - length tail - length head) 0%Z ++ tail, s).

Inductive SocketAddr : Type :=
| V4 (ip : list Z) (port : Z)
| V6 (ip : list Z) (port : Z) (scope_id : Z).
#[export] Instance SocketAddr_eq_dec : EqDecision SocketAddr.
Proof. solve_decision. Defined.

Definition read_port : reader Z := fun s => '(_, s) ← read_given_char ":" s; read_number 10 65535 None true s.
Definition read_scope_id : reader Z := fun s => '(_, s) ← read_given_char "%" s; read_number 10 4294967295 None true s.
Definition read_socket_addr : reader SocketAddr := fun s =>
  match ('(ip, s) ← read_ipv4_addr s; '(port, s) ← read_port s; Some (V4 ip port, s)) with
  | Some r => Some r
  | None =>
      '(_, s) ← read_given_char "[" s; '(ip, s) ← read_ipv6_addr s;
      let '(scope, s) := default (0%Z, s) (read_scope_id s) in
      '(_, s) ← read_given_char "]" s; '(port, s) ← read_port s;
      Some (V6 ip port scope, s)
  end.
Definition parse_socket_addr (s : str) : option SocketAddr :=
  match read_socket_addr s with Some (a, []) => Some a | _ => None end.

Example parses_v4 : parse_socket_addr (lit "127.0.0.1:8080") = Some (V4 [127; 0; 0; 1]%Z 8080).
Proof. reflexivity. Qed.
Example parses_v6 : parse_socket_addr (lit "[::1%7]:0443") = Some (V6 [0; 0; 0; 0; 0; 0; 0; 1]%Z 443 7)
  /\ parse_socket_addr (lit "[fe80::1:192.0.2.33]:80") = Some (V6 [65152; 0; 0; 0; 0; 1; 49152; 545]%Z 80 0).
Proof. split; reflexivity. Qed.
Example rejects_addresses :
  Forall (fun s => parse_socket_addr s = None)
    [lit "not-an-addr"; lit "localhost:80"; lit "127.0.0.1"; lit "127.0.0.1:65536"; lit "127.0.0.01:80";
     lit "256.0.0.1:80"; lit "[::1]"; lit "::1:80"; lit "127.0.0.1:80 "].
Proof. repeat constructor. Qed.

(** ** Bounds *)
Lemma read_digits_bound radix max s count acc n count' rest :
  (0 <= radix)%Z -> (forall m, acc = Some m -> (0 <= m <= max)%Z) -> read_digits radix max s count acc = (Some n, count', rest) ->
  (0 <= n <= max)%Z.
Proof.
  intros Hr. revert count acc. induction s as [|c s IH]; intros count acc Ha; cbn.
  - intros [= -> <- <-]. by apply Ha.
  - destruct (to_digit radix c) as [d|] eqn:Hd; [|intros [= -> <- <-]; by apply Ha].
    apply IH. intros m (k & -> & Hm)%bind_Some. destruct (_ <=? max)%Z eqn:Hle; [|done]. injection Hm as <-.
    specialize (Ha k eq_refl). apply Z.leb_le in Hle. split; [|done].
    unfold to_digit in Hd. destruct (_ <? radix)%Z eqn:Hlt; [|done]. injection Hd as <-.
    assert (0 <= k * radix)%Z by nia. repeat case_match; rewrite ?andb_true_iff, ?Z.leb_le in *; lia.
Qed.
Lemma read_number_bound radix max md z s n rest :
  (0 <= radix)%Z -> (0 <= max)%Z -> read_number radix max md z s = Some (n, rest) -> (0 <= n <= max)%Z.
Proof.
  intros Hr Hm. unfold read_number. destruct (read_digits _ _ _ _ _) as [[[m|] count] r] eqn:Hd.
  - destruct (_ || _); [done|]. intros [= -> _]. eapply (read_digits_bound radix max); [done| |exact Hd]. intros ? [= <-]. lia.
  - by destruct (_ || _).
Qed.

Definition port_of (a : SocketAddr) : Z := match a with V4 _ p | V6 _ p _ => p end.
Lemma parse_socket_addr_port s a : parse_socket_addr s = Some a -> (0 <= port_of a <= 65535)%Z.
Proof.
  assert (Hp : forall s n r, read_port s = Some (n, r) -> (0 <= n <= 65535)%Z).
  { intros s' n r ([[] s1] & _ & H)%bind_Some. by apply read_number_bound in H. }
  unfold parse_socket_addr, read_socket_addr. intros H.
  destruct ('(ip, s) ← read_ipv4_addr s; _) as [[b r]|] eqn:H4.
  - destruct r; [|done]. injection H as <-. apply bind_Some in H4 as ([ip s1] & _ & ([p s2] & H2 & [= <- _])%bind_Some).
    by eapply Hp.
  - destruct (read_given_char "[" s ≫= _) as [[b r]|] eqn:H6; [|done]. destruct r; [|done]. injection H as <-.
    apply bind_Some in H6 as ([u s1] & _ & ([ip s2] & _ & H6)%bind_Some).
    destruct (default _ _) as [scope s3]. apply bind_Some in H6 as ([v s4] & _ & ([p s5] & H5 & [= <- _])%bind_Some).
    by eapply Hp.
Qed.
