(* ===== verification/Cursor.v ===== *)
(** * The cursor-affinity envelope ([crates/osproxy-core/src/cursor.rs])

    A scroll or PIT cursor travels to the client as [{cluster_hex}.{tag_hex}.{cursor}];
    the tag is a MAC of the cluster and the cursor. *)
From stdpp Require Import base option list strings numbers.
From Stdlib Require Import Ascii ZArith Lia.
From S2P Require Import Prelude.
From S2P Require Import Hex.

Open Scope osp_scope.

(** The [CursorSigner] trait: a deterministic tag of a message. *)
Class CursorSigner := { tag : bytes -> bytes }.

Definition dot : byte := ".".
Definition unit_separator : byte := byte_of 31.

Section Codec.
Context {Signer : CursorSigner}.

(** The signed message. *)
Definition binding (cluster cursor : str) : bytes := cluster ++ unit_separator :: cursor.

Definition wrap (cluster cursor : str) : str :=
  let t := tag (binding cluster cursor) in
  let out := push_hex [] cluster in
  let out := out ++ [dot] in
  let out := push_hex out t in
  let out := out ++ [dot] in
  out ++ cursor.

Definition unwrap (token : str) : option (str * str) :=
  match splitn 3 dot token with
  | [cluster_hex; tag_hex; cursor] =>
      cluster ← decode_hex_to_string cluster_hex;
      let expected := tag (binding cluster cursor) in
      if hex_eq_ct tag_hex expected then Some (cluster, cursor) else None
  | _ => None
  end.

Lemma hex_no_dot bs : dot ∉ mbind hex_of bs.
Proof.
  intros H%list_elem_of_In. pose proof (hex_chars bs) as Hc. rewrite Forall_forall in Hc.
  by destruct (Hc _ H).
Qed.

Lemma wrap_shape cluster cursor :
  wrap cluster cursor
  = mbind hex_of cluster ++ dot :: mbind hex_of (tag (binding cluster cursor)) ++ dot :: cursor.
Proof.
  unfold wrap. rewrite !push_hex_app. cbn [app]. by repeat (rewrite <- ?app_assoc; cbn [app]).
Qed.

Lemma splitn_3 token a b c :
  splitn 3 dot token = [a; b; c] <-> token = a ++ dot :: b ++ dot :: c /\ dot ∉ a /\ dot ∉ b.
Proof.
  split.
  - intros H. destruct (find_byte dot token) as [i|] eqn:Hi; cbn [splitn] in H; rewrite Hi in H; [|done].
    injection H as Ha H. apply find_byte_Some in Hi as (a' & r & -> & <- & Hna).
    rewrite take_app_length in Ha. subst a'.
    change (dot :: r) with ([dot] ++ r) in H. rewrite app_assoc in H.
    replace (S (length a)) with (length (a ++ [dot])) in H by (rewrite length_app; cbn; lia).
    rewrite drop_app_length in H.
    destruct (find_byte dot r) as [j|] eqn:Hj; [|done].
    apply find_byte_Some in Hj as (b' & c' & -> & <- & Hnb).
    rewrite take_app_length in H. injection H as -> H.
    replace (S (length b)) with (length (b ++ [dot])) in H by (rewrite length_app; cbn; lia).
    change (dot :: c') with ([dot] ++ c') in H. rewrite (app_assoc b), drop_app_length in H. by subst.
  - intros (-> & Ha & Hb). by rewrite !splitn_cut.
Qed.

(** What [unwrap] accepts, as a relation. *)
Definition Token (token cluster cursor : str) : Prop :=
  exists ch th, token = ch ++ dot :: th ++ dot :: cursor /\ dot ∉ ch /\ dot ∉ th
    /\ decode_hex_to_string ch = Some cluster
    /\ decode_hex th (length (tag (binding cluster cursor))) = Some (tag (binding cluster cursor)).

Lemma unwrap_spec token cluster cursor :
  unwrap token = Some (cluster, cursor) <-> Token token cluster cursor.
Proof.
  unfold unwrap, Token. split.
  - destruct (splitn 3 dot token) as [|ch [|th [|c [|]]]] eqn:Hs; try done.
    apply splitn_3 in Hs as (-> & Ha & Hb).
    destruct (decode_hex_to_string ch) as [cl|] eqn:Hd; cbn; [|done].
    destruct (hex_eq_ct th _) eqn:Ht; [|done]. intros [= -> ->].
    apply hex_eq_ct_spec in Ht. by exists ch, th.
  - intros (ch & th & -> & Ha & Hb & Hd & Ht).
    rewrite (proj2 (splitn_3 _ ch th cursor)) by done. rewrite Hd. cbn.
    by rewrite (proj2 (hex_eq_ct_spec _ _) Ht).
Qed.

(** Whatever the signer, [unwrap] gives back the cluster and the cursor [wrap] was
    given, even when the cursor itself contains the delimiter. *)
Theorem unwrap_wrap cluster cursor :
  utf8_valid cluster = true -> unwrap (wrap cluster cursor) = Some (cluster, cursor).
Proof.
  intros Hu. apply unwrap_spec. rewrite wrap_shape.
  eexists _, _. split; [done|]. split; [apply hex_no_dot|]. split; [apply hex_no_dot|].
  split; [by apply decode_hex_to_string_of|apply decode_hex_of].
Qed.

(** Fail closed. [unwrap] accepts a token exactly when it splits at its first two
    dots into hex text of a cluster, hex text of the tag this signer gives to that
    cluster and the cursor, and the cursor; in particular a token whose tag was issued
    for a message with another tag is rejected. *)
Theorem unwrap_fail_closed token :
  (forall cluster cursor, unwrap token = Some (cluster, cursor) <-> Token token cluster cursor)
  /\ (forall cluster other cursor,
        token = mbind hex_of other ++ dot :: mbind hex_of (tag (binding cluster cursor)) ++ dot :: cursor ->
        tag (binding other cursor) <> tag (binding cluster cursor) ->
        unwrap token = None).
Proof.
  split; [intros; apply unwrap_spec|]. intros cluster other cursor -> Hne.
  destruct (unwrap _) as [[cl cu]|] eqn:Hu; [|done]. exfalso.
  apply unwrap_spec in Hu as (ch & th & Heq & Ha & Hb & Hd & Ht).
  assert (Hs : splitn 3 dot (mbind hex_of other ++ dot :: mbind hex_of (tag (binding cluster cursor))
                 ++ dot :: cursor) = [ch; th; cu]) by by apply splitn_3.
  rewrite (proj2 (splitn_3 _ (mbind hex_of other) (mbind hex_of (tag (binding cluster cursor))) cursor))
    in Hs by (split; [done|]; split; apply hex_no_dot).
  injection Hs as <- <- <-. unfold decode_hex_to_string in Hd. rewrite length_hex in Hd.
  rewrite (Nat.mul_comm 2), Nat.Div0.mod_mul in Hd. cbn in Hd.
  rewrite decode_pairs_hex in Hd. cbn in Hd. apply from_utf8_Some in Hd as [-> _].
  unfold decode_hex in Ht. destruct (negb _); [done|]. rewrite decode_pairs_hex in Ht. congruence.
Qed.

(** With cluster names free of the unit separator the signed message determines the
    cluster and the cursor, so a MAC without collisions binds one to the other; without
    that condition, which the code does not check, two different pairs share a message,
    and a token issued for one opens as the other. *)
Theorem binding_injective :
  (forall c1 u1 c2 u2, unit_separator ∉ c1 -> unit_separator ∉ c2 ->
     binding c1 u1 = binding c2 u2 -> c1 = c2 /\ u1 = u2)
  /\ (exists c1 u1 c2 u2, (c1, u1) <> (c2, u2) /\ binding c1 u1 = binding c2 u2).
Proof.
  split.
  - intros c1 u1 c2 u2 H1 H2 Heq. unfold binding in Heq.
    pose proof (find_byte_app unit_separator c1 u1 H1) as Hf. rewrite Heq, find_byte_app in Hf by done.
    injection Hf as Hl. apply app_inj_1 in Heq as [-> [= ->]]; done.
  - exists (lit "a"), (lit "b" ++ unit_separator :: lit "c"), (lit "a" ++ unit_separator :: lit "b"), (lit "c").
    split; [done|reflexivity].
Qed.
End Codec.

(** A toy signer to evaluate the codec with: the byte sum of the message. *)
#[local] Instance sum_signer : CursorSigner := {| tag m := [byte_of (foldr (fun c s => bz c + s)%Z 0%Z m)] |}.

Example wrap_token_runs : wrap (lit "eu-1") (lit "FGl.x") = lit "65752d31.f6.FGl.x".
Proof. vm_compute. reflexivity. Qed.
Example unwrap_tampered : unwrap (lit "65752d32.f6.FGl.x") = None.
Proof. vm_compute. reflexivity. Qed.

Lemma unwrap_wrap_witness : unwrap (wrap (lit "eu-1") (lit "FGl.x")) = Some (lit "eu-1", lit "FGl.x").
Proof. apply (unwrap_wrap (lit "eu-1")). vm_compute. reflexivity. Defined.
