(* ===== verification/Trace.v ===== *)
(** * W3C trace context propagation ([crates/osproxy-core/src/trace.rs])

    The identity the proxy continues from an incoming [traceparent] or [b3] header,
    or mints from the request id, and the header it sends upstream. *)
From stdpp Require Import base option list strings numbers sets.
From Stdlib Require Import Ascii ZArith Lia.
From S2P Require Import Prelude.
From S2P Require Import Hex.

Open Scope osp_scope.

Definition VERSION : str := lit "00".
Definition TRACEPARENT_LEN : nat := 2 + 1 + 32 + 1 + 16 + 1 + 2.
Definition MAX_TRACESTATE_LEN : nat := 512.

(** [[u8; 16]] and [[u8; 8]] are byte lists; [wf_context] states their lengths. *)
Record TraceContext : Type := MkTraceContext {
  trace_id : bytes;
  span_id : bytes;
  parent_span_id : option bytes;
  tracestate : option str;
  sampled : bool
}.

Definition zeros (n : nat) : bytes := repeat Ascii.zero n.

Definition parse (value : str) : option TraceContext :=
  if negb (length value =? TRACEPARENT_LEN) then None else
  match split "-" value with
  | [version; trace_hex; span_hex; flags_hex] =>
      if negb (str_eqb version VERSION) then None else
      trace_id ← decode_hex trace_hex 16;
      span_id ← decode_hex span_hex 8;
      b ← decode_hex flags_hex 1;
      flags ← head b;
      if str_eqb trace_id (zeros 16) || str_eqb span_id (zeros 8) then None else
      Some (MkTraceContext trace_id span_id None None (negb (Z.land (bz flags) 1 =? 0)%Z))
  | _ => None
  end.

(** The trace id of a [b3] header: 128 bits, or 64 bits aligned to the right. *)
Definition b3_trace_id (trace_hex : str) : option bytes :=
  if length trace_hex =? 32 then decode_hex trace_hex 16
  else if length trace_hex =? 16 then (fun low => zeros 8 ++ low) <$> decode_hex trace_hex 8
  else None.
Definition b3_sampled (part : option str) : option bool :=
  match part with
  | None => Some true
  | Some p =>
      if str_eqb p (lit "1") || str_eqb p (lit "d") then Some true
      else if str_eqb p (lit "0") then Some false else None
  end.
Definition parse_b3 (value : str) : option TraceContext :=
  match split "-" value with
  | trace_hex :: span_hex :: parts =>
      sampled ← b3_sampled (head parts);
      if 1 <? length (tail parts) then None else
      trace_id ← b3_trace_id trace_hex;
      if negb (length span_hex =? 16) then None else
      span_id ← decode_hex span_hex 8;
      if str_eqb trace_id (zeros 16) || str_eqb span_id (zeros 8) then None else
      Some (MkTraceContext trace_id span_id None None sampled)
  | _ => None
  end.

Definition to_traceparent (c : TraceContext) : str :=
  let out := VERSION ++ ["-"%char] in
  let out := push_hex out (trace_id c) in
  let out := out ++ ["-"%char] in
  let out := push_hex out (span_id c) in
  let out := out ++ ["-"%char] in
  push_hex out [byte_of (if sampled c then 1 else 0)].

Definition trace_id_hex (c : TraceContext) : str := push_hex [] (trace_id c).
Definition span_id_hex (c : TraceContext) : str := push_hex [] (span_id c).
Definition parent_span_id_hex (c : TraceContext) : option str := push_hex [] <$> parent_span_id c.
Definition to_tracestate (c : TraceContext) : option str := tracestate c.

Definition sanitize_tracestate (incoming : option str) : option str :=
  s ← trim <$> incoming;
  if negb (length s =? 0) && (length s <=? MAX_TRACESTATE_LEN) then Some s else None.

(** ** Derived ids *)
Definition SPAN_SEED : Z := 0x27d4eb2f165667c5.
Definition FNV_OFFSET : Z := 0xcbf29ce484222325.
Definition FNV_PRIME : Z := 0x00000100000001b3.

Definition fnv1a (seed : Z) (bs : bytes) : Z :=
  foldl (fun h b => u64_wrap (Z.lxor h (bz b) * FNV_PRIME)) seed bs.

Definition derive16_with (seed : Z) (s : bytes) : bytes :=
  let hi := be_bytes 8 (fnv1a (Z.lxor FNV_OFFSET seed) s) in
  let lo := be_bytes 8 (fnv1a (Z.lxor (Z.lxor FNV_OFFSET FNV_PRIME) seed) s) in
  let out := hi ++ lo in
  if str_eqb out (zeros 16) then <[15 := byte_of 1]> out else out.

(** [process_seed] is drawn by the standard library's [RandomState], once per process. *)
Section Process.
Variable process_seed : Z.

Definition derive16 (request : str) : bytes := derive16_with process_seed request.
Definition derive8 (request : str) (sub : Z) : bytes :=
  let out := be_bytes 8 (fnv1a (Z.lxor sub process_seed) request) in
  if str_eqb out (zeros 8) then <[7 := byte_of 1]> out else out.

Definition propagate_with_b3 (incoming_traceparent incoming_tracestate incoming_b3 : option str)
    (request : str) : TraceContext :=
  let from_w3c : option TraceContext := incoming_traceparent ≫= parse in
  let parent := match from_w3c with Some c => Some c | None => incoming_b3 ≫= parse_b3 end in
  match parent with
  | Some parent =>
      MkTraceContext (trace_id parent) (derive8 request SPAN_SEED) (Some (span_id parent))
        match from_w3c with Some _ => sanitize_tracestate incoming_tracestate | None => None end
        (sampled parent)
  | None => MkTraceContext (derive16 request) (derive8 request SPAN_SEED) None None true
  end.
Definition propagate (incoming_traceparent incoming_tracestate : option str) (request : str)
    : TraceContext :=
  propagate_with_b3 incoming_traceparent incoming_tracestate None request.
End Process.

(** ** Well-formed contexts *)
Record wf_context (c : TraceContext) : Prop := {
  wf_trace_len : length (trace_id c) = 16;
  wf_span_len : length (span_id c) = 8;
  wf_trace_nonzero : trace_id c <> zeros 16;
  wf_span_nonzero : span_id c <> zeros 8;
  wf_parent : forall s, parent_span_id c = Some s -> length s = 8 /\ s <> zeros 8;
  wf_state : forall s, tracestate c = Some s -> s <> [] /\ length s <= MAX_TRACESTATE_LEN
}.

Lemma mapM_length {A B} (f : A -> option B) l k : mapM f l = Some k -> length k = length l.
Proof. intros H%mapM_Some. symmetry. by eapply Forall2_length. Qed.

Lemma decode_hex_length h n l : decode_hex h n = Some l -> length l = n.
Proof.
  unfold decode_hex. destruct (length h =? n * 2) eqn:Hl; cbn; [|done].
  intros H. rewrite (mapM_length _ _ _ H). apply length_pairs. by apply Nat.eqb_eq.
Qed.

Lemma parse_wf value c : parse value = Some c -> wf_context c.
Proof.
  unfold parse. intros H. repeat (case_match; try done).
  repeat match goal with
  | H : _ ≫= _ = Some _ |- _ => apply bind_Some in H as (? & ? & ?)
  end.
  case_match; [done|]. simplify_eq.
  match goal with H : _ || _ = false |- _ => apply orb_false_iff in H as [?%str_eqb_neq ?%str_eqb_neq] end.
  split; cbn; try done; by eapply decode_hex_length.
Qed.

Lemma b3_trace_id_length h l : b3_trace_id h = Some l -> length l = 16.
Proof.
  unfold b3_trace_id. repeat case_match; [apply decode_hex_length| |done].
  intros (low & Hl & ->)%fmap_Some. rewrite length_app.
  by rewrite (decode_hex_length _ _ _ Hl).
Qed.

Lemma parse_b3_wf value c : parse_b3 value = Some c -> wf_context c.
Proof.
  unfold parse_b3. intros H. destruct (split _ _) as [|th [|sh parts]]; try done.
  apply bind_Some in H as (sm & _ & H). case_match; [done|].
  apply bind_Some in H as (tid & Ht & H). case_match; [done|].
  apply bind_Some in H as (sid & Hs & H). case_match; [done|]. simplify_eq.
  match goal with H : _ || _ = false |- _ => apply orb_false_iff in H as [?%str_eqb_neq ?%str_eqb_neq] end.
  split; cbn; try done; [by eapply b3_trace_id_length|by eapply decode_hex_length].
Qed.

(** Setting the last byte makes an id of zeros a nonzero one of the same length. *)
Lemma nonzero_fix out n i :
  length out = n -> i < n ->
  let out' := if str_eqb out (zeros n) then <[i := byte_of 1]> out else out in
  length out' = n /\ out' <> zeros n.
Proof.
  intros Hl Hi out'. subst out'. destruct (str_eqb out (zeros n)) eqn:Hz.
  - rewrite length_insert. split; [done|]. intros H.
    assert (Hb : (<[i := byte_of 1]> out : bytes) !! i = Some (byte_of 1))
      by (apply list_lookup_insert_eq; lia).
    rewrite H in Hb. unfold zeros in Hb. apply list_elem_of_lookup_2, list_elem_of_In, repeat_spec in Hb.
    discriminate Hb.
  - by apply str_eqb_neq in Hz.
Qed.

Lemma derive8_nonzero seed r sub : length (derive8 seed r sub) = 8 /\ derive8 seed r sub <> zeros 8.
Proof. unfold derive8. apply nonzero_fix; [apply length_be_bytes|lia]. Qed.
Lemma derive16_nonzero seed r : length (derive16 seed r) = 16 /\ derive16 seed r <> zeros 16.
Proof.
  unfold derive16, derive16_with. apply nonzero_fix; [|lia]. by rewrite length_app, !length_be_bytes.
Qed.

Lemma sanitize_bounds i s : sanitize_tracestate i = Some s -> s <> [] /\ length s <= MAX_TRACESTATE_LEN.
Proof.
  unfold sanitize_tracestate. intros (t & _ & H)%bind_Some. destruct (_ && _) eqn:Hb; [|done].
  injection H as ->. apply andb_true_iff in Hb as [Hn%negb_true_iff Hl%Nat.leb_le].
  split; [|done]. intros ->. done.
Qed.

Lemma propagate_wf seed tp ts b3 r : wf_context (propagate_with_b3 seed tp ts b3 r).
Proof.
  unfold propagate_with_b3. destruct (derive8_nonzero seed r SPAN_SEED) as [Hl8 Hn8].
  assert (Hcont : forall p st, wf_context p ->
    (forall s, st = Some s -> s <> [] /\ length s <= MAX_TRACESTATE_LEN) ->
    wf_context (MkTraceContext (trace_id p) (derive8 seed r SPAN_SEED) (Some (span_id p)) st (sampled p))).
  { intros p st [] Hst. split; cbn; try done. by intros ? [= <-]. }
  destruct (tp ≫= parse) as [p|] eqn:Hp.
  - apply Hcont; [|apply sanitize_bounds]. apply bind_Some in Hp as (v & _ & Hv). by eapply parse_wf.
  - destruct (b3 ≫= parse_b3) as [p|] eqn:Hb.
    + apply Hcont; [|done]. apply bind_Some in Hb as (v & _ & Hv). by eapply parse_b3_wf.
    + destruct (derive16_nonzero seed r). by split.
Qed.

(** ** The header round trip *)
Lemma hex_no_dash bs : "-"%char ∉ mbind hex_of bs.
Proof.
  intros H. pose proof (hex_chars bs) as Hc. rewrite Forall_forall in Hc.
  by destruct (Hc _ H).
Qed.

Definition flag_byte (b : bool) : byte := byte_of (if b then 1 else 0).

Lemma to_traceparent_shape c :
  to_traceparent c
  = VERSION ++ "-"%char :: mbind hex_of (trace_id c) ++ "-"%char :: mbind hex_of (span_id c)
      ++ "-"%char :: mbind hex_of [flag_byte (sampled c)].
Proof.
  unfold to_traceparent. rewrite !push_hex_app. by repeat (rewrite <- ?app_assoc; cbn [app]).
Qed.

Lemma parse_to_traceparent_ok c :
  wf_context c ->
  parse (to_traceparent c) = Some (MkTraceContext (trace_id c) (span_id c) None None (sampled c)).
Proof.
  intros [Ht Hs Htz Hsz _ _]. rewrite to_traceparent_shape. unfold parse.
  assert (Hlen : length (VERSION ++ "-"%char :: mbind hex_of (trace_id c) ++ "-"%char ::
    mbind hex_of (span_id c) ++ "-"%char :: mbind hex_of [flag_byte (sampled c)]) = TRACEPARENT_LEN).
  { rewrite length_app. cbn [length]. rewrite length_app. cbn [length]. rewrite length_app. cbn [length].
    rewrite !length_hex, Ht, Hs. done. }
  rewrite Hlen, Nat.eqb_refl. cbn [negb].
  rewrite split_cut by (change VERSION with ["0"%char; "0"%char]; set_solver).
  rewrite !split_cut by apply hex_no_dash. rewrite split_single by apply hex_no_dash.
  rewrite str_eqb_refl. cbn [negb].
  pose proof (decode_hex_of (trace_id c)) as Hdt. rewrite Ht in Hdt.
  pose proof (decode_hex_of (span_id c)) as Hds. rewrite Hs in Hds.
  pose proof (decode_hex_of [flag_byte (sampled c)]) as Hdf.
  rewrite Hdt. cbn [mbind option_bind]. rewrite Hds. cbn [mbind option_bind].
  transitivity (decode_hex (mbind hex_of [flag_byte (sampled c)]) (length [flag_byte (sampled c)])
    ≫= fun b => head b ≫= fun flags =>
      if str_eqb (trace_id c) (zeros 16) || str_eqb (span_id c) (zeros 8) then None
      else Some (MkTraceContext (trace_id c) (span_id c) None None (negb (Z.land (bz flags) 1 =? 0)%Z)));
    [reflexivity|].
  rewrite Hdf. cbn [mbind option_bind head].
  rewrite (proj2 (str_eqb_neq _ _) Htz), (proj2 (str_eqb_neq _ _) Hsz). cbn.
  by destruct (sampled c).
Qed.

(** ** The hash *)
Definition FNV_INVERSE : Z := 0xce965057aff6957b.

Lemma fnv_inverse : (FNV_PRIME * FNV_INVERSE mod 2 ^ 64 = 1)%Z.
Proof. vm_compute. reflexivity. Qed.

Lemma fnv_step_inj a b c :
  (0 <= a < 2 ^ 64)%Z -> (0 <= b < 2 ^ 64)%Z ->
  u64_wrap (Z.lxor a (bz c) * FNV_PRIME) = u64_wrap (Z.lxor b (bz c) * FNV_PRIME) -> a = b.
Proof.
  intros Ha Hb Heq. unfold u64_wrap in Heq. change 18446744073709551616%Z with (2 ^ 64)%Z in Heq.
  assert (Hc : (0 <= bz c < 2 ^ 64)%Z) by (pose proof (bz_bound c); lia).
  assert (H : forall x, (0 <= x < 2 ^ 64)%Z -> (x = (x * FNV_PRIME) mod 2 ^ 64 * FNV_INVERSE mod 2 ^ 64)%Z).
  { intros x Hx. rewrite Z.mul_mod_idemp_l, <- Z.mul_assoc by lia.
    rewrite <- Z.mul_mod_idemp_r, fnv_inverse, Z.mul_1_r, Z.mod_small by lia. done. }
  apply (lxor_cancel_r _ _ (bz c)).
  rewrite (H (Z.lxor a (bz c))), Heq, <- H by (by apply lxor_bound). done.
Qed.

Lemma fnv1a_bound seed bs : (0 <= seed < 2 ^ 64)%Z -> (0 <= fnv1a seed bs < 2 ^ 64)%Z.
Proof.
  unfold fnv1a. revert seed. induction bs as [|b bs IH]; intros seed Hs; cbn [foldl]; [done|].
  apply IH. unfold u64_wrap. apply Z.mod_pos_bound. lia.
Qed.

Lemma fnv1a_inj s1 s2 bs :
  (0 <= s1 < 2 ^ 64)%Z -> (0 <= s2 < 2 ^ 64)%Z -> fnv1a s1 bs = fnv1a s2 bs -> s1 = s2.
Proof.
  unfold fnv1a. revert s1 s2. induction bs as [|b bs IH]; intros s1 s2 H1 H2 Heq; cbn [foldl] in *; [done|].
  apply IH in Heq; [by apply fnv_step_inj in Heq|unfold u64_wrap; apply Z.mod_pos_bound; lia..].
Qed.

(** Big-endian bytes of two hashes agree only if their seeds do. *)
Lemma hash_bytes_inj s1 s2 bs :
  (0 <= s1 < 2 ^ 64)%Z -> (0 <= s2 < 2 ^ 64)%Z ->
  be_bytes 8 (fnv1a s1 bs) = be_bytes 8 (fnv1a s2 bs) -> s1 = s2.
Proof.
  intros H1 H2 Heq. apply be_bytes_inj in Heq.
  - by apply fnv1a_inj in Heq.
  - by apply fnv1a_bound.
  - by apply fnv1a_bound.
Qed.

Lemma seed_lxor_bound c s : (0 <= c < 2 ^ 64)%Z -> (0 <= s < 2 ^ 64)%Z -> (0 <= Z.lxor c s < 2 ^ 64)%Z.
Proof. by apply lxor_bound. Qed.

(** The two halves of a derived trace id never coincide. *)
Lemma derive16_halves seed s :
  (0 <= seed < 2 ^ 64)%Z ->
  be_bytes 8 (fnv1a (Z.lxor FNV_OFFSET seed) s)
  <> be_bytes 8 (fnv1a (Z.lxor (Z.lxor FNV_OFFSET FNV_PRIME) seed) s).
Proof.
  intros Hs Heq. apply hash_bytes_inj in Heq.
  - apply lxor_cancel_r in Heq. by vm_compute in Heq.
  - apply seed_lxor_bound; [by vm_compute|done].
  - apply seed_lxor_bound; [by vm_compute|done].
Qed.

Lemma derive16_with_eq seed s :
  (0 <= seed < 2 ^ 64)%Z ->
  derive16_with seed s = be_bytes 8 (fnv1a (Z.lxor FNV_OFFSET seed) s)
    ++ be_bytes 8 (fnv1a (Z.lxor (Z.lxor FNV_OFFSET FNV_PRIME) seed) s).
Proof.
  intros Hs. unfold derive16_with. destruct (str_eqb _ _) eqn:Hz; [|done].
  exfalso. apply str_eqb_eq in Hz. change (zeros 16) with (zeros 8 ++ zeros 8) in Hz.
  apply app_inj_1 in Hz as [H1 H2]; [|by rewrite length_be_bytes].
  apply (derive16_halves seed s Hs). congruence.
Qed.

(** a [traceparent] the proxy emits for a well-formed context parses back to the same
    trace id, span id and sampling decision. *)
Theorem parse_to_traceparent c :
  wf_context c ->
  parse (to_traceparent c) = Some (MkTraceContext (trace_id c) (span_id c) None None (sampled c)).
Proof. apply parse_to_traceparent_ok. Qed.

(** Whatever trace headers arrive (absent, malformed, hostile), the [traceparent] sent
    upstream is well formed and parses to the context of this hop; its trace id and sampling
    are the caller's, W3C before B3, or a fresh sampled root's; the [tracestate] forwarded is
    never empty nor over the 512-byte cap, and there is none without a W3C parent. *)
Theorem propagate_sends_valid_header seed tp ts b3 r :
  let c := propagate_with_b3 seed tp ts b3 r in
  wf_context c
  /\ parse (to_traceparent c)
     = Some (MkTraceContext (trace_id c) (derive8 seed r SPAN_SEED) None None (sampled c))
  /\ match tp ≫= parse, b3 ≫= parse_b3 with
     | Some p, _ => trace_id c = trace_id p /\ sampled c = sampled p /\ parent_span_id c = Some (span_id p)
     | None, Some p => trace_id c = trace_id p /\ sampled c = sampled p /\ tracestate c = None
     | None, None => trace_id c = derive16 seed r /\ sampled c = true /\ parent_span_id c = None
     end.
Proof.
  intros c. pose proof (propagate_wf seed tp ts b3 r) as Hwf. split; [done|]. split.
  - rewrite (parse_to_traceparent_ok c Hwf). do 2 f_equal. subst c. unfold propagate_with_b3.
    by repeat case_match.
  - subst c. unfold propagate_with_b3. by destruct (tp ≫= parse), (b3 ≫= parse_b3).
Qed.

(** Derived trace ids of processes with different seeds differ for the same request,
    and the all-zero guard of [derive16_with] never fires: the two halves of an id always
    differ, because FNV-1a is injective in its seed. *)
Theorem derive16_unique_across_seeds seed1 seed2 s :
  (0 <= seed1 < 2 ^ 64)%Z -> (0 <= seed2 < 2 ^ 64)%Z -> seed1 <> seed2 ->
  derive16_with seed1 s <> derive16_with seed2 s
  /\ take 8 (derive16_with seed1 s) <> drop 8 (derive16_with seed1 s).
Proof.
  intros H1 H2 Hne. rewrite !derive16_with_eq by done. split.
  - intros Heq. apply app_inj_1 in Heq as [Heq _]; [|by rewrite !length_be_bytes].
    apply hash_bytes_inj in Heq; [|apply seed_lxor_bound; [by vm_compute|done]..].
    apply Hne. apply (lxor_cancel_r _ _ FNV_OFFSET). by rewrite !(Z.lxor_comm _ FNV_OFFSET).
  - rewrite take_app_length' by (by rewrite length_be_bytes).
    rewrite drop_app_length' by (by rewrite length_be_bytes).
    by apply derive16_halves.
Qed.

Example parse_runs :
  parse (lit "00-4bf92f3577b34da6a3ce929d0e0e4736-00f067aa0ba902b7-01") <> None.
Proof. vm_compute. discriminate. Qed.
Example parse_b3_64 :
  trace_id_hex <$> parse_b3 (lit "a3ce929d0e0e4736-00f067aa0ba902b7-0")
  = Some (lit "0000000000000000a3ce929d0e0e4736").
Proof. vm_compute. reflexivity. Qed.
Example fnv1a_vector : fnv1a FNV_OFFSET (lit "a") = 0xaf63dc4c8601ec8c%Z.
Proof. vm_compute. reflexivity. Qed.

Definition sample_context : TraceContext :=
  MkTraceContext (repeat (byte_of 171) 16) (repeat (byte_of 7) 8) None None true.
Lemma parse_to_traceparent_witness :
  parse (to_traceparent sample_context)
  = Some (MkTraceContext (trace_id sample_context) (span_id sample_context) None None true).
Proof.
  apply (parse_to_traceparent sample_context). split; cbn; try done; by intros [=].
Defined.
Lemma derive16_unique_across_seeds_witness :
  derive16_with 1 (lit "req-1") <> derive16_with 2 (lit "req-1")
  /\ take 8 (derive16_with 1 (lit "req-1")) <> drop 8 (derive16_with 1 (lit "req-1")).
Proof. apply (derive16_unique_across_seeds 1 2); [lia|lia|discriminate]. Defined.
