(* ===== verification/CoreTypes.v ===== *)
(** * Shared types ([crates/osproxy-core/src]: ids, endpoint, error, target, credentials, time)

    The identifier newtypes of [ids.rs] are strings; the enumerations, records and
    clocks are translated as they stand. *)
From stdpp Require Import base option list strings numbers sets.
From Stdlib Require Import Ascii ZArith Lia.
From S2P Require Import Prelude.

Open Scope osp_scope.

(** ** [ids.rs]: each [string_id!] newtype wraps a [String]. *)
Abbreviation PartitionId := (list ascii) (only parsing).
Abbreviation ClusterId := (list ascii) (only parsing).
Abbreviation IndexName := (list ascii) (only parsing).
Abbreviation PrincipalId := (list ascii) (only parsing).
Abbreviation RequestId := (list ascii) (only parsing).
Abbreviation FieldName := (list ascii) (only parsing).

(** The placement-table generation, a [u64]. *)
Record Epoch : Type := MkEpoch { get : Z }.
#[export] Instance Epoch_eq_dec : EqDecision Epoch.
Proof. solve_decision. Defined.

Definition epoch_ZERO : Epoch := MkEpoch 0.
Definition epoch_new (generation : Z) : Epoch := MkEpoch generation.
Definition epoch_next (e : Epoch) : Epoch := MkEpoch (u64_saturating_add (get e) 1).
Definition wf_epoch (e : Epoch) : Prop := (0 <= get e <= u64_max)%Z.

(** ** [endpoint.rs] *)
Inductive EndpointKind : Type :=
| IngestDoc
| IngestBulk
| Search
| MultiSearch
| Count
| GetById
| MultiGet
| DeleteById
| DeleteByQuery
| Cursor
| Admin
| Unknown.
#[export] Instance EndpointKind_eq_dec : EqDecision EndpointKind.
Proof. solve_decision. Defined.

Definition endpoint_as_str (k : EndpointKind) : str :=
  match k with
  | IngestDoc => lit "IngestDoc"
  | IngestBulk => lit "IngestBulk"
  | Search => lit "Search"
  | MultiSearch => lit "MultiSearch"
  | Count => lit "Count"
  | GetById => lit "GetById"
  | MultiGet => lit "MultiGet"
  | DeleteById => lit "DeleteById"
  | DeleteByQuery => lit "DeleteByQuery"
  | Cursor => lit "Cursor"
  | Admin => lit "Admin"
  | Unknown => lit "Unknown"
  end.

Definition endpoint_from_name (name : str) : option EndpointKind :=
  if str_eqb name (lit "IngestDoc") then Some IngestDoc
  else if str_eqb name (lit "IngestBulk") then Some IngestBulk
  else if str_eqb name (lit "Search") then Some Search
  else if str_eqb name (lit "MultiSearch") then Some MultiSearch
  else if str_eqb name (lit "Count") then Some Count
  else if str_eqb name (lit "GetById") then Some GetById
  else if str_eqb name (lit "MultiGet") then Some MultiGet
  else if str_eqb name (lit "DeleteById") then Some DeleteById
  else if str_eqb name (lit "DeleteByQuery") then Some DeleteByQuery
  else if str_eqb name (lit "Cursor") then Some Cursor
  else if str_eqb name (lit "Admin") then Some Admin
  else if str_eqb name (lit "Unknown") then Some Unknown
  else None.

Definition is_tenancy_aware (k : EndpointKind) : bool :=
  match k with
  | IngestDoc | IngestBulk | Search | MultiSearch | Count | GetById | MultiGet
  | DeleteById | DeleteByQuery | Cursor => true
  | _ => false
  end.
Definition is_write (k : EndpointKind) : bool :=
  match k with IngestDoc | IngestBulk | DeleteById => true | _ => false end.

(** ** [error.rs] *)
Inductive ErrorCode : Type :=
| PartitionUnresolved
| PlacementMissing
| PlacementBackendUnavailable
| UnsupportedEndpoint
| StaleEpoch
| AuthFailed
| Unauthorized
| UpstreamFailed
| Overloaded
| CursorUnresolvable
| PayloadTooLarge.
#[export] Instance ErrorCode_eq_dec : EqDecision ErrorCode.
Proof. solve_decision. Defined.

Definition as_slug (c : ErrorCode) : str :=
  match c with
  | PartitionUnresolved => lit "partition_unresolved"
  | PlacementMissing => lit "placement_missing"
  | PlacementBackendUnavailable => lit "placement_backend_unavailable"
  | UnsupportedEndpoint => lit "unsupported_endpoint"
  | StaleEpoch => lit "stale_epoch"
  | AuthFailed => lit "auth_failed"
  | Unauthorized => lit "unauthorized"
  | UpstreamFailed => lit "upstream_failed"
  | Overloaded => lit "overloaded"
  | CursorUnresolvable => lit "cursor_unresolvable"
  | PayloadTooLarge => lit "payload_too_large"
  end.

Record DecisionChain : Type := MkDecisionChain {
  dc_principal : option PrincipalId;
  dc_partition : option PartitionId;
  dc_cluster : option ClusterId;
  dc_index : option IndexName
}.
Definition chain_new : DecisionChain := MkDecisionChain None None None None.

Record ErrorContext : Type := MkErrorContext {
  code : ErrorCode;
  decision_chain : DecisionChain;
  retryable : bool;
  remediation : str
}.
Definition context_new (code : ErrorCode) (retryable : bool) (remediation : str) : ErrorContext :=
  MkErrorContext code chain_new retryable remediation.
Definition with_chain (c : ErrorContext) (chain : DecisionChain) : ErrorContext :=
  MkErrorContext (code c) chain (retryable c) (remediation c).
(** The [Display] of a context. *)
Definition context_display (c : ErrorContext) : str :=
  as_slug (code c) ++ lit " (retryable=" ++ (if retryable c then lit "true" else lit "false")
  ++ lit "): " ++ remediation c.

(** ** [credentials.rs]: base64 is a third-party encoder. *)
Record UpstreamCredentials : Type := MkUpstreamCredentials {
  header_name : str;
  header_value : str
}.
#[export] Instance UpstreamCredentials_eq_dec : EqDecision UpstreamCredentials.
Proof. solve_decision. Defined.
Definition credentials_basic (base64 : bytes -> str) (username password : str) : UpstreamCredentials :=
  MkUpstreamCredentials (lit "Authorization")
    (lit "Basic " ++ base64 (username ++ lit ":" ++ password)).
Definition credentials_bearer (token : str) : UpstreamCredentials :=
  MkUpstreamCredentials (lit "Authorization") (lit "Bearer " ++ token).

(** ** [target.rs] *)
Record Target : Type := MkTarget {
  cluster : ClusterId;
  index : IndexName;
  endpoint : option str;
  credentials : option UpstreamCredentials
}.
Definition target_new (cluster : ClusterId) (index : IndexName) : Target :=
  MkTarget cluster index None None.
Definition with_endpoint (t : Target) (e : option str) : Target :=
  MkTarget (cluster t) (index t) e (credentials t).
Definition with_credentials (t : Target) (c : option UpstreamCredentials) : Target :=
  MkTarget (cluster t) (index t) (endpoint t) c.
(** [PartialEq] and [Hash] look at the cluster and the index only. *)
Definition target_eqb (a b : Target) : bool :=
  str_eqb (cluster a) (cluster b) && str_eqb (index a) (index b).
Definition target_display (t : Target) : str := cluster t ++ lit "/" ++ index t.

(** Identity of targets as an equivalence coarser than equality. *)
#[export] Instance target_equiv : Equiv Target :=
  fun a b => cluster a = cluster b /\ index a = index b.
#[export] Instance target_equivalence : Equivalence (≡@{Target}).
Proof.
  split.
  - by intros t.
  - intros a b []. split; congruence.
  - intros a b c [] []. split; congruence.
Qed.
Lemma target_eqb_equiv a b : target_eqb a b = true <-> a ≡ b.
Proof. unfold target_eqb. by rewrite andb_true_iff, !str_eqb_eq. Qed.
#[export] Instance target_display_proper : Proper ((≡) ==> (=)) target_display.
Proof. intros a b [H1 H2]. unfold target_display. by rewrite H1, H2. Qed.
#[export] Instance target_eqb_proper : Proper ((≡) ==> (≡) ==> (=)) target_eqb.
Proof. intros a b [H1 H2] c d [H3 H4]. unfold target_eqb. by rewrite H1, H2, H3, H4. Qed.
Lemma with_endpoint_equiv t e : with_endpoint t e ≡ t.
Proof. done. Qed.
Lemma with_credentials_equiv t c : with_credentials t c ≡ t.
Proof. done. Qed.

(** ** [time.rs]: instants are [u64] nanoseconds, durations are unbounded nanoseconds
    ([Duration::as_nanos] is a [u128]). *)
Record Instant : Type := MkInstant { nanos : Z }.
Definition saturating_duration_since (self earlier : Instant) : Z :=
  u64_saturating_sub (nanos self) (nanos earlier).
(** [u64::try_from(n).unwrap_or(u64::MAX)]. *)
Definition to_u64_or_max (n : Z) : Z := if (n <=? u64_max)%Z then n else u64_max.
Definition saturating_add (self : Instant) (delta : Z) : Instant :=
  MkInstant (u64_saturating_add (nanos self) (to_u64_or_max delta)).

(** [SystemClock], on the readings of the operating system's clocks, of any size: [raw] of
    the monotonic one, which [init] reads again where the process's epoch is not set yet;
    [since_epoch] of the wall clock, which may be before the Unix epoch. *)
Definition system_now (epoch : option Z) (raw init : Z) : Instant * option Z :=
  let anchor := default init epoch in (MkInstant (to_u64_or_max (Z.max 0 (raw - anchor))), Some anchor).
Definition system_unix_nanos (since_epoch : option Z) : Z := from_option to_u64_or_max 0%Z since_epoch.

(** [ManualClock]: its state is the counter behind the mutex. *)
Record ManualClock : Type := MkManualClock { clock_nanos : Z }.
Definition clock_new : ManualClock := MkManualClock 0.
Definition clock_advance (c : ManualClock) (delta : Z) : ManualClock :=
  MkManualClock (u64_saturating_add (clock_nanos c) (to_u64_or_max delta)).
Definition clock_now (c : ManualClock) : Instant := MkInstant (clock_nanos c).
Definition clock_unix_nanos (c : ManualClock) : Z := clock_nanos c.

(** ** Properties *)
(** The system clock does not go back between two of its readings, nor out of its width. *)
Theorem system_clock_is_monotone epoch raw init raw' init' :
  (raw <= raw')%Z ->
  let (first, epoch') := system_now epoch raw init in
  (0 <= nanos first <= nanos (system_now epoch' raw' init').1)%Z /\ (nanos (system_now epoch' raw' init').1 <= u64_max)%Z.
Proof.
  intros Hraw. unfold system_now, to_u64_or_max. cbn. unfold u64_max. set (anchor := default init epoch).
  destruct (Z.leb_spec (Z.max 0 (raw - anchor)) 18446744073709551615),
    (Z.leb_spec (Z.max 0 (raw' - anchor)) 18446744073709551615); lia.
Qed.
Lemma epoch_next_wf e : wf_epoch e -> wf_epoch (epoch_next e).
Proof. unfold wf_epoch, epoch_next, u64_saturating_add, u64_max. cbn. lia. Qed.
Lemma epoch_next_le e : wf_epoch e -> (get e <= get (epoch_next e))%Z.
Proof. unfold wf_epoch, epoch_next, u64_saturating_add, u64_max. cbn. lia. Qed.
Lemma epoch_next_lt e : wf_epoch e -> (get e < u64_max)%Z -> (get e < get (epoch_next e))%Z.
Proof. unfold wf_epoch, epoch_next, u64_saturating_add, u64_max. cbn. lia. Qed.
#[export] Hint Resolve epoch_next_wf epoch_next_le epoch_next_lt : osp.

(** The wire names of endpoint classes round-trip, [from_name] recognises nothing
    else, and the stable slugs of error codes are pairwise distinct. *)
Theorem wire_names_roundtrip :
  (forall k, endpoint_from_name (endpoint_as_str k) = Some k)
  /\ (forall n k, endpoint_from_name n = Some k -> n = endpoint_as_str k)
  /\ (forall c1 c2, as_slug c1 = as_slug c2 -> c1 = c2).
Proof.
  split; [|split].
  - by intros [].
  - intros n k. unfold endpoint_from_name.
    repeat match goal with |- context [if str_eqb ?a ?b then _ else _] => destruct (str_eqb a b) eqn:? end;
      intros [= <-]; by apply str_eqb_eq.
  - intros [] []; try done; by intros [=].
Qed.

(** The clock arithmetic never leaves the [u64] range, never goes backwards, and a
    duration measured after adding it is that duration unless the clock saturated. *)
Theorem clock_saturates c i delta :
  (0 <= clock_nanos c <= u64_max)%Z -> (0 <= nanos i <= u64_max)%Z -> (0 <= delta)%Z ->
  (clock_nanos c <= clock_nanos (clock_advance c delta) <= u64_max)%Z
  /\ (nanos i <= nanos (saturating_add i delta) <= u64_max)%Z
  /\ saturating_duration_since (saturating_add i delta) i = Z.min delta (u64_max - nanos i)
  /\ saturating_duration_since i (saturating_add i delta) = 0%Z.
Proof.
  intros Hc Hi Hd. unfold clock_advance, saturating_add, saturating_duration_since, to_u64_or_max,
    u64_saturating_add, u64_saturating_sub, u64_max in *. cbn.
  destruct (Z.leb_spec delta 18446744073709551615); lia.
Qed.

Lemma clock_saturates_witness :
  (clock_nanos clock_new <= clock_nanos (clock_advance clock_new 5) <= u64_max)%Z
  /\ (nanos (MkInstant 3) <= nanos (saturating_add (MkInstant 3) 5) <= u64_max)%Z
  /\ saturating_duration_since (saturating_add (MkInstant 3) 5) (MkInstant 3)
     = Z.min 5 (u64_max - nanos (MkInstant 3))
  /\ saturating_duration_since (MkInstant 3) (saturating_add (MkInstant 3) 5) = 0%Z.
Proof. apply (clock_saturates clock_new (MkInstant 3) 5); cbn; unfold u64_max; lia. Defined.
