(* ===== verification/Serde.v ===== *)
(** * JSON values

    The types of the third-party [serde_json] crate the proxy's code matches on, and
    its parser and serializer as an interface with the documented behaviour the code
    relies on. *)
From stdpp Require Import base option list strings numbers sets.
From Stdlib Require Import Ascii ZArith Lia.
From S2P Require Import Prelude.
From S2P Require Import JsonScan.
From S2P Require Import JsonGrammar.

Open Scope osp_scope.

(** ** The order of strings: [str]'s [Ord] is bytewise lexicographic. *)
Fixpoint str_ltb (a b : str) : bool :=
  match a, b with
  | [], [] => false
  | [], _ :: _ => true
  | _ :: _, [] => false
  | c :: a, d :: b => (bz c <? bz d)%Z || (Ascii.eqb c d && str_ltb a b)
  end.
Definition str_lt (a b : str) : Prop := str_ltb a b = true.

Lemma bz_inj c d : bz c = bz d -> c = d.
Proof. intros H. by rewrite <- (byte_of_bz c), H, byte_of_bz. Qed.

Lemma str_lt_cons c a d b : str_lt (c :: a) (d :: b) <-> (bz c < bz d)%Z \/ (c = d /\ str_lt a b).
Proof.
  unfold str_lt. cbn. by rewrite orb_true_iff, andb_true_iff, Z.ltb_lt, Ascii.eqb_eq.
Qed.

Lemma str_lt_irrefl a : ~ str_lt a a.
Proof. induction a as [|c a IH]; [done|]. rewrite str_lt_cons. intros [H|[_ H]]; [lia|done]. Qed.

Lemma str_lt_trans a b c : str_lt a b -> str_lt b c -> str_lt a c.
Proof.
  revert b c. induction a as [|x a IH]; intros [|y b] [|z c]; try done.
  rewrite !str_lt_cons. intros [H1|[-> H1]] [H2|[-> H2]]; [left; lia|by left|by left|].
  right. split; [done|]. by eapply IH.
Qed.

Lemma str_lt_total a b : str_lt a b \/ a = b \/ str_lt b a.
Proof.
  revert b. induction a as [|c a IH]; intros [|d b]; [by right; left|by left|by right; right|].
  rewrite !str_lt_cons. destruct (Z.lt_total (bz c) (bz d)) as [H|[H|H]]; [by left; left| |by right; right; left].
  apply bz_inj in H as ->. destruct (IH b) as [H|[->|H]]; [left; right|right; left|right; right; right]; done.
Qed.

(** ** [serde_json::Value]; without [preserve_order] its [Map] is a [BTreeMap], kept
    here as the list of its entries in key order. *)
Inductive Value (N : Type) : Type :=
| Null
| Bool (b : bool)
| Number (n : N)
| String (s : list ascii)
| Array (l : list (Value N))
| Object (m : list (list ascii * Value N)).
Arguments Null {N}.
Arguments Bool {N} b.
Arguments Number {N} n.
Arguments String {N} s.
Arguments Array {N} l.
Arguments Object {N} m.

(** ** The map operations the code calls *)
Section Map.
Context {V : Type}.
Implicit Types m : list (str * V).

Fixpoint map_get (m : list (str * V)) (k : str) : option V :=
  match m with
  | [] => None
  | (j, v) :: m => if str_eqb j k then Some v else map_get m k
  end.
Definition contains_key (m : list (str * V)) (k : str) : bool :=
  match map_get m k with Some _ => true | None => false end.
Fixpoint map_insert (m : list (str * V)) (k : str) (v : V) : list (str * V) :=
  match m with
  | [] => [(k, v)]
  | (j, w) :: m =>
      if str_eqb j k then (k, v) :: m
      else if str_ltb k j then (k, v) :: (j, w) :: m
      else (j, w) :: map_insert m k v
  end.
Fixpoint map_remove (m : list (str * V)) (k : str) : list (str * V) :=
  match m with
  | [] => []
  | (j, w) :: m => if str_eqb j k then m else (j, w) :: map_remove m k
  end.

(** The entries of a map are in strictly increasing key order. *)
Fixpoint sorted (m : list (str * V)) : Prop :=
  match m with
  | [] => True
  | (k, _) :: m => Forall (fun e => str_lt k e.1) m /\ sorted m
  end.

Lemma map_get_None m k : map_get m k = None <-> k ∉ m.*1.
Proof.
  induction m as [|[j v] m IH]; [by split; [intros _ ?%not_elem_of_nil|]|]. cbn [map_get].
  change ((j, v) :: m).*1 with (j :: m.*1). rewrite not_elem_of_cons, <- IH.
  destruct (str_eqb j k) eqn:Hj; [apply str_eqb_eq in Hj as ->; by split; [|intros []]|].
  apply str_eqb_neq in Hj. split; [by split|by intros []].
Qed.
Lemma map_get_fresh m k : Forall (fun e => str_lt k e.1) m -> map_get m k = None.
Proof.
  induction 1 as [|[j v] m Hj Hm IH]; [done|]. cbn in *.
  rewrite (proj2 (str_eqb_neq _ _)); [done|]. intros ->. by apply str_lt_irrefl in Hj.
Qed.

Lemma map_get_insert m k v j :
  map_get (map_insert m k v) j = if str_eqb k j then Some v else map_get m j.
Proof.
  induction m as [|[i w] m IH]; cbn; [done|].
  destruct (str_eqb i k) eqn:Hik; [|destruct (str_ltb k i) eqn:Hlt]; cbn.
  - apply str_eqb_eq in Hik as ->. by destruct (str_eqb k j).
  - done.
  - rewrite IH. destruct (str_eqb i j) eqn:Hij; [|done].
    apply str_eqb_eq in Hij as ->. apply str_eqb_neq in Hik.
    by rewrite (proj2 (str_eqb_neq k j)) by congruence.
Qed.

Lemma map_get_remove m k j :
  sorted m -> map_get (map_remove m k) j = if str_eqb k j then None else map_get m j.
Proof.
  induction m as [|[i w] m IH]; cbn; [by destruct (str_eqb k j)|]. intros [Hi Hm].
  destruct (str_eqb i k) eqn:Hik; cbn.
  - apply str_eqb_eq in Hik as ->. destruct (str_eqb k j) eqn:Hkj; [|done].
    apply str_eqb_eq in Hkj as ->. by apply map_get_fresh.
  - rewrite IH by done. destruct (str_eqb i j) eqn:Hij; [|done].
    apply str_eqb_eq in Hij as ->. apply str_eqb_neq in Hik.
    by rewrite (proj2 (str_eqb_neq k j)) by congruence.
Qed.

Lemma insert_Forall (P : str * V -> Prop) m k v :
  P (k, v) -> Forall P m -> Forall P (map_insert m k v).
Proof.
  intros Hk. induction 1 as [|[j w] m Hj Hm IH]; cbn; [by repeat constructor|].
  by destruct (str_eqb j k), (str_ltb k j); repeat constructor.
Qed.
Lemma remove_Forall (P : str * V -> Prop) m k : Forall P m -> Forall P (map_remove m k).
Proof.
  induction 1 as [|[j w] m Hj Hm IH]; cbn; [done|]. by destruct (str_eqb j k); repeat constructor.
Qed.

Lemma insert_sorted m k v : sorted m -> sorted (map_insert m k v).
Proof.
  induction m as [|[j w] m IH]; cbn; [done|]. intros [Hj Hm].
  destruct (str_eqb j k) eqn:Hjk; [|destruct (str_ltb k j) eqn:Hlt]; cbn.
  - apply str_eqb_eq in Hjk as ->. done.
  - split; [|done]. constructor; [done|]. eapply Forall_impl; [exact Hj|].
    intros [i u] Hi. by eapply str_lt_trans.
  - split; [|by apply IH]. apply insert_Forall; [|done]. cbn.
    destruct (str_lt_total j k) as [H|[->|H]]; [done|by rewrite str_eqb_refl in Hjk|].
    unfold str_lt in H. congruence.
Qed.
Lemma remove_sorted m k : sorted m -> sorted (map_remove m k).
Proof.
  induction m as [|[j w] m IH]; cbn; [done|]. intros [Hj Hm].
  destruct (str_eqb j k); [done|]. cbn. split; [by apply remove_Forall|by apply IH].
Qed.

(** Maps in key order are equal when they agree on every key. *)
Lemma map_ext m1 m2 :
  sorted m1 -> sorted m2 -> (forall k, map_get m1 k = map_get m2 k) -> m1 = m2.
Proof.
  revert m2. induction m1 as [|[k v] m1 IH]; intros [|[j w] m2] H1 H2 Heq.
  - done.
  - specialize (Heq j). cbn in Heq. by rewrite str_eqb_refl in Heq.
  - specialize (Heq k). cbn in Heq. by rewrite str_eqb_refl in Heq.
  - destruct H1 as [Hk Hs1], H2 as [Hj Hs2].
    assert (k = j) as ->.
    { destruct (str_lt_total k j) as [H|[H|H]]; [exfalso|done|exfalso].
      - specialize (Heq k). cbn in Heq. rewrite str_eqb_refl in Heq.
        rewrite (proj2 (str_eqb_neq j k)) in Heq by (intros ->; by apply str_lt_irrefl in H).
        rewrite map_get_fresh in Heq; [done|]. eapply Forall_impl; [exact Hj|].
        intros e He. by eapply str_lt_trans.
      - specialize (Heq j). cbn in Heq. rewrite str_eqb_refl in Heq.
        rewrite (proj2 (str_eqb_neq k j)) in Heq by (intros ->; by apply str_lt_irrefl in H).
        rewrite map_get_fresh in Heq; [done|]. eapply Forall_impl; [exact Hk|].
        intros e He. by eapply str_lt_trans. }
    pose proof (Heq j) as Hv. cbn in Hv. rewrite !str_eqb_refl in Hv. injection Hv as ->.
    f_equal. apply IH; [done..|]. intros k. specialize (Heq k). cbn in Heq.
    destruct (str_eqb j k) eqn:Hjk; [|done]. apply str_eqb_eq in Hjk as ->.
    by rewrite !map_get_fresh.
Qed.

Lemma contains_key_get m k : contains_key m k = true <-> is_Some (map_get m k).
Proof. unfold contains_key. destruct (map_get m k); split; try done; by intros []. Qed.
Lemma contains_key_false m k : contains_key m k = false <-> map_get m k = None.
Proof. unfold contains_key. by destruct (map_get m k). Qed.
End Map.

(** ** Accessors of a value *)
Section Accessors.
Context {N : Type}.

Definition as_object (v : Value N) : option (list (str * Value N)) :=
  match v with Object m => Some m | _ => None end.
Definition as_array (v : Value N) : option (list (Value N)) :=
  match v with Array l => Some l | _ => None end.
Definition as_str (v : Value N) : option str :=
  match v with String s => Some s | _ => None end.
(** [Value::get(&str)]: a member of an object, [None] on anything else. *)
Definition value_get (v : Value N) (k : str) : option (Value N) :=
  match v with Object m => map_get m k | _ => None end.

(** The [json!] macro on an object literal, and [get_mut] with an update in place. *)
Definition json_object (l : list (str * Value N)) : Value N :=
  Object (foldl (fun m e => map_insert m e.1 e.2) [] l).
Definition map_alter (m : list (str * Value N)) (k : str) (f : Value N -> Value N) : list (str * Value N) :=
  match map_get m k with Some v => map_insert m k (f v) | None => m end.

Lemma map_alter_get m k f j :
  map_get (map_alter m k f) j = if str_eqb k j then f <$> map_get m k else map_get m j.
Proof.
  unfold map_alter. destruct (map_get m k) as [v|] eqn:Hk.
  - rewrite map_get_insert. by destruct (str_eqb k j).
  - destruct (str_eqb k j) eqn:Hkj; [|done]. by apply str_eqb_eq in Hkj as <-.
Qed.

(** A value as the crate builds it: every object's entries are in key order. *)
Fixpoint wf_value (v : Value N) : Prop :=
  match v with
  | Array l => foldr (fun v P => wf_value v /\ P) True l
  | Object m => sorted m /\ foldr (fun e P => wf_value e.2 /\ P) True m
  | _ => True
  end.
End Accessors.

(** ** The crate's parser and serializer

    [from_slice] is [None] on malformed input.  [raw_object] is
    [from_slice::<BTreeMap<String, Box<RawValue>>>]: the members of an object with each
    value left as its text; [raw_value] is [from_slice::<&RawValue>]: validation alone.
    The laws are the documented ones: what is parsed is JSON (RFC 8259), what is
    written is JSON, and a string is written as a literal that reads back as itself. *)
Class Serde := {
  Num : Type;
  num_eq_dec :: EqDecision Num;
  num_display : Num -> str;
  from_slice : bytes -> option (Value Num);
  to_vec : Value Num -> option bytes;
  str_to_vec : str -> option bytes;
  raw_object : bytes -> option (list (str * bytes));
  raw_value : bytes -> bool;
  raw_object_to_vec : list (str * bytes) -> option bytes;
  raw_from_string : bytes -> option bytes;
  to_vec_json : forall v t, to_vec v = Some t -> JVal rfc_escape t;
  str_to_vec_json : forall s t, utf8_valid s = true -> str_to_vec s = Some t -> DString t s;
  raw_object_json : forall b m, raw_object b = Some m ->
    sorted m /\ Forall (fun e => utf8_valid e.1 = true /\ JVal rfc_escape e.2 /\ utf8_valid e.2 = true) m;
  to_vec_utf8 : forall v t, to_vec v = Some t -> utf8_valid t = true;
  to_vec_entry : forall k v, to_vec (Object [(k, v)])
    = (kt ← str_to_vec k; t ← to_vec v; Some ("{"%char :: kt ++ ":"%char :: t ++ ["}"%char]));
  raw_object_to_vec_json : forall m t, raw_object_to_vec m = Some t ->
    exists kts : list (bytes * bytes),
      Forall2 (fun (e : str * bytes) kt => str_to_vec e.1 = Some kt.1 /\ kt.2 = e.2) m kts
      /\ t = "{"%char :: join (lit ",") ((fun kt => kt.1 ++ ":"%char :: kt.2) <$> kts) ++ ["}"%char];
  raw_from_string_total : forall b, utf8_valid b = true -> JVal rfc_escape b -> raw_from_string b = Some b
}.
Notation value := (Value Num).

(** Integers as numbers: [Value::from(u64)] and [Value::as_u64]. *)
Class SerdeInt `{Serde} := {
  int_num : Z -> Num;
  num_u64 : Num -> option Z;
  num_u64_int : forall n, (0 <= n < 2 ^ 64)%Z -> num_u64 (int_num n) = Some n
}.

Fixpoint value_eqb `{Serde} (a b : value) : bool :=
  match a, b with
  | Null, Null => true
  | Bool x, Bool y => Bool.eqb x y
  | Number x, Number y => bool_decide (x = y)
  | String x, String y => str_eqb x y
  | Array x, Array y =>
      (fix go x y := match x, y with
        | [], [] => true
        | a :: x, b :: y => value_eqb a b && go x y
        | _, _ => false
        end) x y
  | Object x, Object y =>
      (fix go (x y : list (list ascii * value)) := match x, y with
        | [], [] => true
        | (j, a) :: x, (k, b) :: y => str_eqb j k && value_eqb a b && go x y
        | _, _ => false
        end) x y
  | _, _ => false
  end.
