(* ===== verification/ToySerde.v ===== *)
(** * A concrete serializer

    A small instance of the [Serde] interface, for evaluating the definitions that
    depend on it: it writes values compactly, strings that need no escape only, and its
    parser knows the documents of a table. *)
From stdpp Require Import base option list strings numbers sets pretty.
From Stdlib Require Import Ascii ZArith Lia.
From S2P Require Import Prelude.
From S2P Require Import JsonScan.
From S2P Require Import JsonGrammar.
From S2P Require Import JsonTriples.
From S2P Require Import JsonProps.
From S2P Require Import Serde.

Open Scope osp_scope.

(** Text that needs no escape. *)
Definition plain (s : str) : bool := forallb (fun c => negb (is_string_boundary c)) s.
Definition toy_str (s : str) : option bytes :=
  if plain s && utf8_valid s && utf8_valid (quote :: s ++ [quote]) then Some (quote :: s ++ [quote]) else None.

(** Numbers are written in decimal, when that is a JSON number. *)
Definition plain_number (t : bytes) : bool :=
  match t with
  | [] => false
  | c :: ds => forallb is_ascii_digit t && (negb (Ascii.eqb c "0") || match ds with [] => true | _ => false end)
  end.
Definition toy_number (n : Z) : option bytes := if plain_number (lit (pretty n)) then Some (lit (pretty n)) else None.

Fixpoint toy_write (v : Value Z) : option bytes :=
  match v with
  | Null => Some (lit "null")
  | Bool b => Some (if b then lit "true" else lit "false")
  | Number n => toy_number n
  | String s => toy_str s
  | Array l =>
      ts ← (fix go (l : list (Value Z)) : option (list bytes) :=
              match l with [] => Some [] | v :: l => t ← toy_write v; ts ← go l; Some (t :: ts) end) l;
      Some ("["%char :: join (lit ",") ts ++ ["]"%char])
  | Object m =>
      ts ← (fix go (m : list (str * Value Z)) : option (list bytes) :=
              match m with
              | [] => Some []
              | (k, v) :: m => kt ← toy_str k; t ← toy_write v; ts ← go m; Some ((kt ++ ":"%char :: t) :: ts)
              end) m;
      Some ("{"%char :: join (lit ",") ts ++ ["}"%char])
  end.

Lemma toy_str_DString s t : toy_str s = Some t -> DString t s /\ utf8_valid t = true.
Proof.
  unfold toy_str. destruct (_ && _) eqn:Hp; [|done]. intros [= <-].
  apply andb_true_iff in Hp as [[Hp Hu]%andb_true_iff Ht]. split; [|done].
  exists s. split; [|done]. clear -Hp. induction s as [|c s IH]; [constructor|].
  cbn in Hp. apply andb_true_iff in Hp as [Hc%negb_true_iff Hp]. constructor; auto.
Qed.

Lemma toy_number_json t : plain_number t = true -> JNumber t /\ utf8_valid t = true.
Proof.
  destruct t as [|c ds]; [done|]. cbn [plain_number]. intros [Hd H0]%andb_true_iff.
  assert (Hds : Forall (fun c => is_ascii_digit c = true) (c :: ds)) by (apply List.Forall_forall; intros x; by apply forallb_forall).
  split.
  - exists [], (c :: ds), [], []. rewrite !app_nil_r. split; [done|]. split; [by left|]. split; [|split; by left].
    destruct (Ascii.eqb_spec c "0") as [->|Hne]; cbn in H0.
    + destruct ds; [by left|done].
    + right. by exists c, ds.
  - clear -Hds. induction Hds as [|d l Hd Hl IH]; [done|]. apply utf8_valid_cons; [|done].
    unfold is_ascii_digit, in_range in *. apply andb_true_iff in Hd as [H1%Z.leb_le H2%Z.leb_le].
    by rewrite !(proj2 (Z.leb_le _ _)) by lia.
Qed.

Lemma json_elements ts : ts <> [] -> Forall (fun t => JVal rfc_escape t) ts -> JElements rfc_escape (join (lit ",") ts).
Proof.
  intros Hne H. induction H as [|t ts Ht Hts IH]; [done|]. destruct ts as [|u ts].
  - cbn. rewrite <- (app_nil_r t). apply (elements_one _ [] t []); [constructor|done|constructor].
  - apply (elements_cons _ [] t []); [constructor|done|constructor|by apply IH].
Qed.
Lemma json_member kt t : JString rfc_escape kt -> JVal rfc_escape t -> JMember rfc_escape (kt ++ ":"%char :: t).
Proof.
  intros Hk Ht. rewrite <- (app_nil_r t).
  apply (member_intro _ [] kt [] [] t []); [constructor|done|constructor|constructor|done|constructor].
Qed.
Lemma json_object_text ts : ts <> [] -> Forall (JMember rfc_escape) ts -> JMembers rfc_escape (join (lit ",") ts).
Proof.
  intros Hne H. induction H as [|t ts Ht Hts IH]; [done|]. destruct ts as [|u ts]; [by apply members_one|].
  apply members_cons; [done|by apply IH].
Qed.
Lemma utf8_wrapped c d t :
  in_range 0 127 c = true -> in_range 0 127 d = true -> utf8_valid t = true -> utf8_valid (c :: t ++ [d]) = true.
Proof. intros Hc Hd Ht. apply utf8_valid_cons; [done|]. apply utf8_valid_app; [done|]. by apply utf8_valid_cons. Qed.

Definition written_ok (t : bytes) : Prop := JVal rfc_escape t /\ utf8_valid t = true.
Lemma toy_write_json v t : toy_write v = Some t -> written_ok t.
Proof.
  revert v t. fix IH 1. intros [|b|n|s|l|m] t; cbn; try done.
  - intros [= <-]. split; [apply val_null|done].
  - destruct b; intros [= <-]; (split; [apply val_true || apply val_false|done]).
  - unfold toy_number. destruct (plain_number _) eqn:Hn; [|done]. intros [= <-].
    apply toy_number_json in Hn as [Hn Hu]. split; [by apply val_number|done].
  - intros [Hs Hu]%toy_str_DString. split; [|done]. apply val_string. by eapply DString_JString.
  - intros (ts & Hts & [= <-])%bind_Some.
    assert (Hall : Forall written_ok ts).
    { revert ts Hts. revert l. fix IHl 1. intros [|v l] ts; [intros [= <-]; constructor|].
      intros (t & Ht & (ts' & Hts' & [= <-])%bind_Some)%bind_Some. constructor; [exact (IH v t Ht)|exact (IHl l ts' Hts')]. }
    apply Forall_and in Hall as [Hj Hu]. split; [|by apply utf8_wrapped; [| |apply utf8_join]].
    destruct ts as [|u ts]; [apply (val_empty_array _ []); constructor|]. by apply val_array, json_elements.
  - intros (ts & Hts & [= <-])%bind_Some.
    assert (Hall : Forall (fun t => JMember rfc_escape t /\ utf8_valid t = true) ts).
    { revert ts Hts. revert m. fix IHm 1. intros [|[k v] m] ts; [intros [= <-]; constructor|].
      intros (kt & Hk & (t & Ht & (ts' & Hts' & [= <-])%bind_Some)%bind_Some)%bind_Some. constructor; [|exact (IHm m ts' Hts')].
      apply toy_str_DString in Hk as [Hk Hku]. destruct (IH v t Ht) as [Hj Hju]. split.
      - apply json_member; [by eapply DString_JString|done].
      - apply utf8_valid_app; [done|]. by apply utf8_valid_cons. }
    apply Forall_and in Hall as [Hj Hu]. split; [|by apply utf8_wrapped; [| |apply utf8_join]].
    destruct ts as [|u ts]; [apply (val_empty_object _ []); constructor|]. by apply val_object, json_object_text.
Qed.

(** The members of the table's documents. *)
Definition toy_raw_object (b : bytes) : option (list (str * bytes)) :=
  if str_eqb b (body "{'query':{},'size':5}") then Some [(lit "query", lit "{}"); (lit "size", lit "5")]
  else if str_eqb b (body "{'suggest':{}}") then Some [(lit "suggest", lit "{}")]
  else None.
Lemma toy_raw_object_json b m : toy_raw_object b = Some m ->
  sorted m /\ Forall (fun e => utf8_valid e.1 = true /\ JVal rfc_escape e.2 /\ utf8_valid e.2 = true) m.
Proof.
  assert (He : JVal rfc_escape (lit "{}")) by (apply (val_empty_object _ []); constructor).
  assert (H5 : JVal rfc_escape (lit "5")).
  { apply val_number. by apply (toy_number_json (lit "5")). }
  unfold toy_raw_object. repeat case_match; intros [= <-].
  - split; [by repeat constructor|]. by repeat (apply Forall_cons_iff; split; [by repeat split|]).
  - split; [by repeat constructor|]. by repeat (apply Forall_cons_iff; split; [by repeat split|]).
Qed.

Fixpoint toy_members (m : list (str * bytes)) : option (list bytes) :=
  match m with
  | [] => Some []
  | (k, t) :: m => kt ← toy_str k; ms ← toy_members m; Some ((kt ++ ":"%char :: t) :: ms)
  end.
Definition toy_raw_to_vec (m : list (str * bytes)) : option bytes :=
  ms ← toy_members m; Some ("{"%char :: join (lit ",") ms ++ ["}"%char]).
Lemma toy_members_spec m ms : toy_members m = Some ms ->
  exists kts : list (bytes * bytes),
    Forall2 (fun (e : str * bytes) kt => toy_str e.1 = Some kt.1 /\ kt.2 = e.2) m kts
    /\ ms = (fun kt => kt.1 ++ ":"%char :: kt.2) <$> kts.
Proof.
  revert ms. induction m as [|[k t] m IH]; intros ms; cbn.
  - intros [= <-]. by exists [].
  - intros (kt & Hk & (ms' & Hm & [= <-])%bind_Some)%bind_Some.
    destruct (IH _ Hm) as (kts & Hf & ->). exists ((kt, t) :: kts). split; [by constructor|done].
Qed.

(** A parser that knows the documents of [table]. *)
Definition toy_from_slice (table : list (bytes * Value Z)) (b : bytes) : option (Value Z) :=
  map_get table b.

#[local] Program Instance toy_serde (table : list (bytes * Value Z)) : Serde := {|
  Num := Z;
  num_display n := lit (pretty n);
  from_slice := toy_from_slice table;
  to_vec := toy_write;
  str_to_vec := toy_str;
  raw_object := toy_raw_object;
  raw_value b := is_ok (validate b);
  raw_object_to_vec := toy_raw_to_vec;
  raw_from_string b := Some b
|}.
Next Obligation. intros _ v t H. exact (proj1 (toy_write_json v t H)). Qed.
Next Obligation. intros _ s t _ H. exact (proj1 (toy_str_DString s t H)). Qed.
Next Obligation. intros _ b m. apply toy_raw_object_json. Qed.
Next Obligation. intros _ v t H. exact (proj2 (toy_write_json v t H)). Qed.
Next Obligation. intros _ k v. cbn. destruct (toy_str k); cbn; [|done]. destruct (toy_write v); cbn; [|done]. by rewrite <- app_assoc. Qed.
Next Obligation.
  intros _ m t (ms & Hm & [= <-])%bind_Some. apply toy_members_spec in Hm as (kts & Hf & ->).
  by exists kts.
Qed.
Next Obligation. done. Qed.
#[local] Program Instance toy_int (table : list (bytes * Value Z)) : @SerdeInt (toy_serde table) := {|
  int_num n := n;
  num_u64 n := if (0 <=? n)%Z && (n <? 2 ^ 64)%Z then Some n else None
|}.
Next Obligation. intros table n [H1 H2]. cbn. by rewrite (proj2 (Z.leb_le _ _) H1), (proj2 (Z.ltb_lt _ _) H2). Qed.
