(* ===== verification/DocId.v ===== *)
(** * Document ids ([crates/osproxy-rewrite/src]: error, extract, id)

    Expanding an id template against a partition and a document, and the mapping
    between the client's logical ids and the stored physical ones. *)
From stdpp Require Import base option list strings numbers sets.
From Stdlib Require Import Ascii ZArith Lia.
From S2P Require Import Prelude.
From S2P Require Import JsonScan.
From S2P Require Import CoreTypes.
From S2P Require Import Serde.

Open Scope osp_scope.

Inductive RewriteError : Type :=
| RwNotAnObject
| RwInvalidJson
| ReservedFieldCollision (field : FieldName)
| RwPathNotScalar (path : str)
| UnsupportedPlaceholder (placeholder : str)
| MalformedBulkAction
| IrreversibleIdTemplate
| Unfilterable (construct : str).
#[export] Instance RewriteError_eq_dec : EqDecision RewriteError.
Proof. solve_decision. Defined.

(** [impl From<JsonError> for RewriteError]. *)
Definition rewrite_from_json (e : JsonError) : RewriteError :=
  match e with
  | Invalid => RwInvalidJson
  | NotAnObject => RwNotAnObject
  | PathNotScalar path => RwPathNotScalar path
  end.

(** ** [extract.rs] *)
Section Extract.
Context {S : Serde}.

Definition scalar_to_string (v : value) : option str :=
  match v with
  | String s => Some s
  | Number n => Some (num_display n)
  | Bool b => Some (if b then lit "true" else lit "false")
  | Null | Array _ | Object _ => None
  end.

(** The loop over [segments], [walked] being those pushed so far. *)
Fixpoint extract_loop (cursor : value) (walked segments : list str) : Result str RewriteError :=
  match segments with
  | [] => ok_or (scalar_to_string cursor) (RwPathNotScalar (join (lit ".") walked))
  | segment :: segments =>
      let walked := walked ++ [segment] in
      let? cursor := ok_or (obj ← as_object cursor; map_get obj segment)
                           (RwPathNotScalar (join (lit ".") walked)) in
      extract_loop cursor walked segments
  end.
Definition extract_scalar (doc : value) (segments : list str) : Result str RewriteError :=
  extract_loop doc [] segments.
End Extract.

(** ** [id.rs] *)
Definition open_brace : byte := "{".
Definition close_brace : byte := "}".

(** The template split at its next placeholder: the literal before it, the text between
    its braces, what follows.  [None] when no brace is open; the brace left open is an
    error carrying the text after it. *)
Definition next_placeholder (rest : str) : Result (option (str * str * str)) RewriteError :=
  match find_byte open_brace rest with
  | None => Ok None
  | Some open =>
      let after := drop (open + 1) rest in
      match find_byte close_brace after with
      | None => Err (UnsupportedPlaceholder after)
      | Some close => Ok (Some (take open rest, take close after, drop (close + 1) after))
      end
  end.

(** The [while] loop of [construct_id_with]; a turn consumes at least two bytes, so the
    template's length is fuel enough. *)
Fixpoint construct_loop (fuel : nat) (partition : str) (resolve_body : str -> Result str RewriteError)
    (out rest : str) : option (Result str RewriteError) :=
  match fuel with
  | 0 => None
  | S fuel =>
      match next_placeholder rest with
      | Err e => Some (Err e)
      | Ok None => Some (Ok (out ++ rest))
      | Ok (Some (literal, placeholder, rest)) =>
          let out := out ++ literal in
          if str_eqb placeholder (lit "partition") then
            construct_loop fuel partition resolve_body (out ++ partition) rest
          else
            match strip_prefix (lit "body.") placeholder with
            | Some path =>
                match resolve_body path with
                | Ok s => construct_loop fuel partition resolve_body (out ++ s) rest
                | Err e => Some (Err e)
                end
            | None => Some (Err (UnsupportedPlaceholder placeholder))
            end
      end
  end.
(** [None] is a loop that did not end; it does not occur. *)
Definition construct_id_with (template partition : str) (resolve_body : str -> Result str RewriteError)
    : option (Result str RewriteError) :=
  construct_loop (S (length template)) partition resolve_body [] template.

Definition construct_id `{S : Serde} (template partition : str) (doc : value) :=
  construct_id_with template partition (fun path => extract_scalar doc (split "." path)).
Definition construct_id_bytes `{W : Wide} (template partition : str) (body : bytes) :=
  construct_id_with template partition
    (fun path => map_err rewrite_from_json (scalar_at_path body (split "." path))).

(** The loop of [id_frame]. *)
Fixpoint frame_loop (fuel : nat) (partition prefix suffix : str) (seen_body : bool) (rest : str)
    : option (Result (str * str) RewriteError) :=
  match fuel with
  | 0 => None
  | S fuel =>
      match next_placeholder rest with
      | Err e => Some (Err e)
      | Ok None =>
          Some (if seen_body then Ok (prefix, suffix ++ rest) else Err IrreversibleIdTemplate)
      | Ok (Some (literal, placeholder, rest)) =>
          let push t := if seen_body then (prefix, suffix ++ t) else (prefix ++ t, suffix) in
          if str_eqb placeholder (lit "partition") then
            let '(prefix, suffix) := push (literal ++ partition) in
            frame_loop fuel partition prefix suffix seen_body rest
          else
            let '(prefix, suffix) := push literal in
            match strip_prefix (lit "body.") placeholder with
            | Some _ =>
                if seen_body then Some (Err IrreversibleIdTemplate)
                else frame_loop fuel partition prefix suffix true rest
            | None => Some (Err (UnsupportedPlaceholder placeholder))
            end
      end
  end.
Definition id_frame (template partition : str) : option (Result (str * str) RewriteError) :=
  frame_loop (S (length template)) partition [] [] false template.

Definition map_logical_to_physical (template partition logical_id : str)
    : option (Result str RewriteError) :=
  (fun r => let? (prefix, suffix) := r in Ok (prefix ++ logical_id ++ suffix))
    <$> id_frame template partition.
Definition map_physical_to_logical (template partition physical_id : str)
    : option (Result (option str) RewriteError) :=
  (fun r => let? (prefix, suffix) := r in
            Ok (rest ← strip_prefix prefix physical_id; strip_suffix suffix rest))
    <$> id_frame template partition.

(** The result of a template loop; the loops end on every template
    ([construct_id_with_spec], [id_frame_spec]), so the last branch is never taken. *)
Definition ended {A} (o : option (Result A RewriteError)) : Result A RewriteError :=
  match o with Some r => r | None => Err RwInvalidJson end.

(** ** Templates as parsed *)
Inductive Piece : Type :=
| Lit (t : str)
| Partition
| Body (path : str).
Inductive TemplateEnd : Type :=
| Complete (tail : str)
| Bad (e : RewriteError).

(** The pieces of a template up to its first error, and how it ends: the abstract
    reading both loops implement. *)
Fixpoint pieces (fuel : nat) (rest : str) : list Piece * TemplateEnd :=
  match fuel with
  | 0 => ([], Complete rest)
  | S fuel =>
      match next_placeholder rest with
      | Err e => ([], Bad e)
      | Ok None => ([], Complete rest)
      | Ok (Some (literal, placeholder, rest)) =>
          if str_eqb placeholder (lit "partition") then
            let '(ps, e) := pieces fuel rest in (Lit literal :: Partition :: ps, e)
          else match strip_prefix (lit "body.") placeholder with
               | Some path => let '(ps, e) := pieces fuel rest in (Lit literal :: Body path :: ps, e)
               | None => ([Lit literal], Bad (UnsupportedPlaceholder placeholder))
               end
      end
  end.
Definition parse_template (template : str) : list Piece * TemplateEnd :=
  pieces (S (length template)) template.

Definition expand (partition : str) (resolve_body : str -> Result str RewriteError) (p : Piece)
    : Result str RewriteError :=
  match p with Lit t => Ok t | Partition => Ok partition | Body path => resolve_body path end.
(** Expanding pieces left to right, stopping at the first error. *)
Definition expand_all (partition : str) (resolve_body : str -> Result str RewriteError)
    (t : list Piece * TemplateEnd) : Result str RewriteError :=
  let? parts := collect (expand partition resolve_body) t.1 in
  match t.2 with Complete tail => Ok (mjoin parts ++ tail) | Bad e => Err e end.

(** ** The loops *)
Lemma next_placeholder_shorter rest l p r :
  next_placeholder rest = Ok (Some (l, p, r)) -> rest = l ++ open_brace :: p ++ close_brace :: r.
Proof.
  unfold next_placeholder. destruct (find_byte open_brace rest) as [o|] eqn:Ho; [|done].
  apply find_byte_Some in Ho as (a & b & -> & <- & Ha).
  assert (Hd : drop (length a + 1) (a ++ open_brace :: b) = b).
  { replace (length a + 1) with (length (a ++ [open_brace])) by (rewrite length_app; done).
    change (open_brace :: b) with ([open_brace] ++ b). by rewrite app_assoc, drop_app_length. }
  rewrite Hd. destruct (find_byte close_brace b) as [c|] eqn:Hc; [|done].
  apply find_byte_Some in Hc as (x & y & -> & <- & Hx).
  rewrite !take_app_length. intros [= <- <- <-].
  replace (length x + 1) with (length (x ++ [close_brace])) by (rewrite length_app; done).
  change (close_brace :: y) with ([close_brace] ++ y). by rewrite app_assoc, drop_app_length, <- app_assoc.
Qed.

Lemma construct_loop_spec fuel partition rb out rest :
  length rest < fuel ->
  construct_loop fuel partition rb out rest
  = Some (match expand_all partition rb (pieces fuel rest) with Ok s => Ok (out ++ s) | Err e => Err e end).
Proof.
  unfold expand_all. revert out rest. induction fuel as [|fuel IH]; intros out rest Hf; [lia|].
  cbn [construct_loop pieces]. destruct (next_placeholder rest) as [[[[l p] r]|]|e] eqn:Hn; [|done..].
  apply next_placeholder_shorter in Hn as ->.
  assert (Hr : length r < fuel).
  { rewrite length_app in Hf. cbn in Hf. rewrite length_app in Hf. cbn in Hf. lia. }
  destruct (str_eqb p _).
  - rewrite IH by done. destruct (pieces fuel r) as [ps e]. cbn.
    destruct (collect _ ps); cbn; [|done]. destruct e; cbn; [|done].
    by rewrite <- !app_assoc.
  - destruct (strip_prefix _ p) as [path|]; cbn; [|done].
    destruct (rb path) as [s|e] eqn:Hrb.
    + rewrite IH by done. destruct (pieces fuel r) as [ps e]. cbn. rewrite Hrb. cbn.
      destruct (collect _ ps); cbn; [|done]. destruct e; cbn; [|done]. by rewrite <- !app_assoc.
    + destruct (pieces fuel r) as [ps e']. cbn. by rewrite Hrb.
Qed.

Lemma construct_id_with_spec template partition rb :
  construct_id_with template partition rb = Some (expand_all partition rb (parse_template template)).
Proof.
  unfold construct_id_with, parse_template. rewrite construct_loop_spec by lia.
  by destruct (expand_all _ _ _).
Qed.

(** The frame of parsed pieces: what is before and after the one body placeholder. *)
Fixpoint frame_of (partition : str) (ps : list Piece) (prefix suffix : str) (seen : bool)
    : option (str * str * bool) :=
  let push t := if seen then (prefix, suffix ++ t) else (prefix ++ t, suffix) in
  match ps with
  | [] => Some (prefix, suffix, seen)
  | Lit t :: ps => let '(p, s) := push t in frame_of partition ps p s seen
  | Partition :: ps => let '(p, s) := push partition in frame_of partition ps p s seen
  | Body _ :: ps => if seen then None else frame_of partition ps prefix suffix true
  end.
Definition frame_result (e : TemplateEnd) (f : option (str * str * bool)) : Result (str * str) RewriteError :=
  match f, e with
  | None, _ => Err IrreversibleIdTemplate
  | Some _, Bad err => Err err
  | Some (p, s, seen), Complete tail => if seen then Ok (p, s ++ tail) else Err IrreversibleIdTemplate
  end.

Lemma frame_loop_spec fuel partition prefix suffix seen rest :
  length rest < fuel ->
  frame_loop fuel partition prefix suffix seen rest
  = Some (let '(ps, e) := pieces fuel rest in frame_result e (frame_of partition ps prefix suffix seen)).
Proof.
  revert prefix suffix seen rest. induction fuel as [|fuel IH]; intros prefix suffix seen rest Hf; [lia|].
  cbn [frame_loop pieces]. destruct (next_placeholder rest) as [[[[l p] r]|]|e] eqn:Hn; [|done..].
  apply next_placeholder_shorter in Hn as ->.
  assert (Hr : length r < fuel).
  { rewrite length_app in Hf. cbn in Hf. rewrite length_app in Hf. cbn in Hf. lia. }
  destruct (str_eqb p _).
  - destruct seen; rewrite IH by done; destruct (pieces fuel r) as [ps e]; cbn; by rewrite app_assoc.
  - destruct (strip_prefix _ p) as [path|]; destruct seen; cbn; try done.
    + by destruct (pieces fuel r) as [ps e].
    + rewrite IH by done. by destruct (pieces fuel r) as [ps e].
Qed.

Lemma id_frame_spec template partition :
  id_frame template partition
  = Some (let '(ps, e) := parse_template template in frame_result e (frame_of partition ps [] [] false)).
Proof. unfold id_frame, parse_template. apply frame_loop_spec. lia. Qed.

(** ** What a frame says of an expansion *)
Lemma frame_of_seen partition ps prefix suffix f rb :
  frame_of partition ps prefix suffix true = Some f ->
  exists parts, collect (expand partition rb) ps = Ok parts
    /\ f = (prefix, suffix ++ mjoin parts, true).
Proof.
  revert suffix. induction ps as [|[t| |path] ps IH]; intros suffix; cbn.
  - intros [= <-]. exists []. cbn. by rewrite app_nil_r.
  - intros (parts & -> & ->)%IH. exists (t :: parts). cbn. by rewrite app_assoc.
  - intros (parts & -> & ->)%IH. exists (partition :: parts). cbn. by rewrite app_assoc.
  - done.
Qed.

(** A reversible template expands to its prefix, one scalar of the body, its suffix. *)
Lemma frame_of_expand partition ps prefix p s rb parts :
  frame_of partition ps prefix [] false = Some (p, s, true) ->
  collect (expand partition rb) ps = Ok parts ->
  exists path key, rb path = Ok key /\ prefix ++ mjoin parts = p ++ key ++ s.
Proof.
  revert prefix parts. induction ps as [|[t| |path] ps IH]; intros prefix parts; cbn; [done|..].
  - intros Hf Hc. destruct (collect _ ps) as [ys|] eqn:Hy; [|done]. injection Hc as <-.
    destruct (IH _ _ Hf eq_refl) as (path & key & Hk & Heq). exists path, key.
    split; [done|]. by rewrite <- Heq, <- app_assoc.
  - intros Hf Hc. destruct (collect _ ps) as [ys|] eqn:Hy; [|done]. injection Hc as <-.
    destruct (IH _ _ Hf eq_refl) as (path & key & Hk & Heq). exists path, key.
    split; [done|]. by rewrite <- Heq, <- app_assoc.
  - intros Hf Hc. destruct (rb path) as [key|] eqn:Hk; cbn in Hc; [|done].
    destruct (frame_of_seen _ _ _ _ _ rb Hf) as (ys & Hy & [= -> ->]).
    rewrite Hy in Hc. injection Hc as <-. exists path, key. by split.
Qed.

Lemma frame_result_Ok e f p s :
  frame_result e f = Ok (p, s) -> exists s' tail, f = Some (p, s', true) /\ e = Complete tail /\ s = s' ++ tail.
Proof. destruct f as [[[p' s'] []]|], e; cbn; try done. intros [= -> <-]. eauto. Qed.

Lemma construct_maps template partition rb id prefix suffix :
  construct_id_with template partition rb = Some (Ok id) ->
  id_frame template partition = Some (Ok (prefix, suffix)) ->
  exists path key, rb path = Ok key /\ id = prefix ++ key ++ suffix.
Proof.
  rewrite construct_id_with_spec, id_frame_spec. unfold expand_all.
  destruct (parse_template template) as [ps e]. cbn. intros Hc [= Hf].
  apply frame_result_Ok in Hf as (s' & tail & Hf & -> & ->).
  destruct (collect _ ps) as [parts|] eqn:Hp; cbn in Hc; [|done]. injection Hc as <-.
  destruct (frame_of_expand _ _ _ _ _ _ _ Hf Hp) as (path & key & Hk & Heq).
  exists path, key. split; [done|]. cbn in Heq. by rewrite Heq, <- !app_assoc.
Qed.

Lemma framed_id_maps_back template partition prefix suffix key :
  id_frame template partition = Some (Ok (prefix, suffix)) ->
  map_logical_to_physical template partition key = Some (Ok (prefix ++ key ++ suffix))
  /\ map_physical_to_logical template partition (prefix ++ key ++ suffix) = Some (Ok (Some key)).
Proof.
  intros Hf. unfold map_logical_to_physical, map_physical_to_logical. rewrite Hf. cbn. split; [done|].
  rewrite strip_prefix_app. cbn. by rewrite (proj2 (strip_suffix_Some _ _ _) eq_refl).
Qed.

(** For every template and partition, mapping a logical id to a physical one and back
    returns it, and both directions fail together (on the template alone). *)
Theorem id_mapping_roundtrip template partition logical :
  exists r, map_logical_to_physical template partition logical = Some r
  /\ match r with
     | Ok physical => map_physical_to_logical template partition physical = Some (Ok (Some logical))
     | Err e => forall physical, map_physical_to_logical template partition physical = Some (Err e)
     end.
Proof.
  unfold map_logical_to_physical, map_physical_to_logical. rewrite id_frame_spec.
  destruct (parse_template template) as [ps e0].
  destruct (frame_result e0 (frame_of partition ps [] [] false)) as [[p s]|e]; cbn.
  - eexists. split; [done|]. cbn. rewrite strip_prefix_app. cbn.
    by rewrite (proj2 (strip_suffix_Some _ _ _) eq_refl).
  - by eexists.
Qed.

(** The id a write constructs is the id a read looks up. For a reversible template,
    the physical id built from a document is the one its natural key (the scalar the body
    placeholder resolves to) maps to, whether the document is a parsed value or raw bytes;
    and a template is expanded in finite time whatever it contains. *)
Theorem constructed_id_is_mapped_id template partition rb :
  exists r, construct_id_with template partition rb = Some r
  /\ forall id prefix suffix, r = Ok id -> id_frame template partition = Some (Ok (prefix, suffix)) ->
     exists path key, rb path = Ok key
       /\ map_logical_to_physical template partition key = Some (Ok id)
       /\ map_physical_to_logical template partition id = Some (Ok (Some key)).
Proof.
  exists (expand_all partition rb (parse_template template)).
  split; [apply construct_id_with_spec|]. intros id prefix suffix Hid Hf.
  destruct (construct_maps template partition rb id prefix suffix) as (path & key & Hk & ->);
    [by rewrite construct_id_with_spec, Hid|done|].
  exists path, key. split; [done|]. by apply framed_id_maps_back.
Qed.

(** ** Whose id is it? *)
Definition recommended : str := lit "{partition}:{body.k}".

Lemma recommended_frame p : id_frame recommended p = Some (Ok (p ++ lit ":", [])).
Proof.
  rewrite id_frame_spec.
  by replace (parse_template recommended)
    with ([Lit []; Partition; Lit (lit ":"); Body (lit "k")], Complete []) by reflexivity.
Qed.

Lemma cut_at_colon p1 p2 k1 k2 :
  ":"%char ∉ p1 -> ":"%char ∉ p2 -> p1 ++ ":"%char :: k1 = p2 ++ ":"%char :: k2 -> p1 = p2 /\ k1 = k2.
Proof.
  intros H1 H2 Heq. pose proof (find_byte_app ":" p1 k1 H1) as Hf.
  rewrite Heq, find_byte_app in Hf by done. injection Hf as Hl.
  apply app_inj_1 in Heq as [-> [= ->]]; done.
Qed.

(** With the recommended template [{partition}:{body.k}], documents of different
    partitions get different ids, and a physical id maps back to nothing in another
    partition, as long as partition names hold no colon; when one does, a document of
    partition [a] and one of partition [a:b] can have the same physical id, although the
    template references the partition. *)
Theorem partition_ids_disjoint :
  (forall p1 p2 k1 k2 id, ":"%char ∉ p1 -> ":"%char ∉ p2 -> p1 <> p2 ->
     map_logical_to_physical recommended p1 k1 = Some (Ok id) ->
     map_logical_to_physical recommended p2 k2 <> Some (Ok id)
     /\ map_physical_to_logical recommended p2 id = Some (Ok None))
  /\ (exists p1 p2 k1 k2 id, p1 <> p2
     /\ map_logical_to_physical recommended p1 k1 = Some (Ok id)
     /\ map_logical_to_physical recommended p2 k2 = Some (Ok id)).
Proof.
  split.
  - intros p1 p2 k1 k2 id H1 H2 Hne. unfold map_logical_to_physical, map_physical_to_logical.
    rewrite !recommended_frame. cbn. intros [= <-]. rewrite <- !app_assoc. cbn. rewrite !app_nil_r. split.
    + intros [= Heq]. by apply cut_at_colon in Heq as [-> _].
    + destruct (strip_prefix (p2 ++ [":"%char]) (p1 ++ ":"%char :: k1)) as [r|] eqn:Hs; [|done].
      apply strip_prefix_Some in Hs. rewrite <- app_assoc in Hs. cbn in Hs.
      by apply cut_at_colon in Hs as [-> _].
  - exists (lit "a:b"), (lit "a"), (lit "c"), (lit "b:c"), (lit "a:b:c"). split; [done|]. by split.
Qed.

Example construct_runs :
  construct_id_with (lit "{partition}:{body.order_id}") (lit "acme") (fun _ => Ok (lit "1001"))
  = Some (Ok (lit "acme:1001")).
Proof. vm_compute. reflexivity. Qed.
Example construct_unknown :
  construct_id_with (lit "{tenant}") (lit "acme") (fun _ => Ok [])
  = Some (Err (UnsupportedPlaceholder (lit "tenant"))).
Proof. vm_compute. reflexivity. Qed.
Example map_two_bodies :
  map_logical_to_physical (lit "{body.a}-{body.b}") (lit "p") (lit "x") = Some (Err IrreversibleIdTemplate).
Proof. vm_compute. reflexivity. Qed.
