(* ===== verification/Fields.v ===== *)
(** * Tenancy fields ([crates/osproxy-rewrite/src/fields.rs])

    Injecting the isolation fields on ingest, into a parsed document or spliced into
    its bytes, and stripping them on read. *)
From stdpp Require Import base option list strings numbers sets.
From Stdlib Require Import Ascii ZArith Lia.
From S2P Require Import Prelude.
From S2P Require Import JsonScan.
From S2P Require Import JsonGrammar.
From S2P Require Import JsonTriples.
From S2P Require Import JsonValues.
From S2P Require Import JsonTop.
From S2P Require Import CoreTypes.
From S2P Require Import Serde.
From S2P Require Import JsonProps.
From S2P Require Import ToySerde.
From S2P Require Import DocId.

Open Scope osp_scope.

Section Fields.
Context {S : Serde}.

(** The pre-check: the first field whose name is taken. *)
Fixpoint reserved_check (taken : str -> bool) (fields : list (FieldName * value)) : Result unit RewriteError :=
  match fields with
  | [] => Ok tt
  | (name, _) :: fields =>
      if taken name then Err (ReservedFieldCollision name) else reserved_check taken fields
  end.

Definition insert_all (obj : list (str * value)) (fields : list (FieldName * value)) : list (str * value) :=
  foldl (fun obj f => map_insert obj f.1 f.2) obj fields.

(** [inject_fields(&mut doc, fields)]: the document after it, unchanged on an error. *)
Definition inject_fields (doc : value) (fields : list (FieldName * value))
    : value * Result unit RewriteError :=
  match as_object doc with
  | None => (doc, Err RwNotAnObject)
  | Some obj =>
      match reserved_check (contains_key obj) fields with
      | Err e => (doc, Err e)
      | Ok _ => (Object (insert_all obj fields), Ok tt)
      end
  end.

(** The loop over [["doc", "upsert"]]: an error leaves the earlier sub-document injected. *)
Fixpoint inject_subs (obj : list (str * value)) (keys : list str) (fields : list (FieldName * value))
    : list (str * value) * Result unit RewriteError :=
  match keys with
  | [] => (obj, Ok tt)
  | key :: keys =>
      match map_get obj key with
      | None => inject_subs obj keys fields
      | Some sub =>
          let '(sub, r) := inject_fields sub fields in
          let obj := map_insert obj key sub in
          match r with
          | Ok _ => inject_subs obj keys fields
          | Err e => (obj, Err e)
          end
      end
  end.
Definition inject_update (update : value) (fields : list (FieldName * value))
    : value * Result unit RewriteError :=
  match as_object update with
  | None => (update, Err RwNotAnObject)
  | Some obj =>
      let '(obj, r) := inject_subs obj [lit "doc"; lit "upsert"] fields in (Object obj, r)
  end.

(** The [filter(remove).count()] of [strip_fields]. *)
Fixpoint strip_loop (obj : list (str * value)) (names : list FieldName) : list (str * value) * nat :=
  match names with
  | [] => (obj, 0)
  | name :: names =>
      let removed := contains_key obj name in
      let '(obj, n) := strip_loop (map_remove obj name) names in
      (obj, if removed then n + 1 else n)
  end.
Definition strip_fields (doc : value) (names : list FieldName) : value * nat :=
  match as_object doc with
  | None => (doc, 0)
  | Some obj => let '(obj, n) := strip_loop obj names in (Object obj, n)
  end.

(** ** Over bytes *)

(** The [injected] buffer: [name:value] pairs separated by commas. *)
Fixpoint injected_text (first : bool) (fields : list (FieldName * value)) : Result bytes RewriteError :=
  match fields with
  | [] => Ok []
  | (name, v) :: fields =>
      let? k := ok_or (str_to_vec name) RwInvalidJson in
      let? t := ok_or (to_vec v) RwInvalidJson in
      let? more := injected_text false fields in
      Ok ((if first then [] else [","%char]) ++ k ++ ":"%char :: t ++ more)
  end.

Definition inject_fields_bytes `{W : Wide} (body : bytes) (fields : list (FieldName * value))
    : Result bytes RewriteError :=
  let? top := map_err rewrite_from_json (object_top_level body) in
  match fields with
  | [] => Ok body
  | _ =>
      let? _ := reserved_check (fun name => existsb (fun k => str_eqb k name) (keys top)) fields in
      let? injected := injected_text true fields in
      Ok (take (insert_at top) body ++ injected
          ++ (if negb (empty top) then [","%char] else []) ++ drop (insert_at top) body)
  end.

(** ** Lemmas on documents *)
Lemma reserved_check_Ok taken fields :
  reserved_check taken fields = Ok tt <-> Forall (fun f => taken f.1 = false) fields.
Proof.
  induction fields as [|[n v] fields IH]; cbn; [by split|].
  rewrite Forall_cons_iff. cbn [fst]. destruct (taken n); cbn.
  - split; [done|by intros [? _]].
  - rewrite IH. split; [done|by intros [_ ?]].
Qed.
Lemma reserved_check_unit taken fields u : reserved_check taken fields = Ok u -> u = tt.
Proof. by destruct u. Qed.

Lemma reserved_check_Err taken fields e :
  reserved_check taken fields = Err e ->
  exists f, f ∈ fields /\ taken f.1 = true /\ e = ReservedFieldCollision f.1.
Proof.
  induction fields as [|[n v] fields IH]; cbn; [done|]. destruct (taken n) eqn:Hn.
  - intros [= <-]. exists (n, v). repeat split; [by left|done].
  - intros (f & ? & ? & ?)%IH. exists f. repeat split; try done. by right.
Qed.

Lemma insert_all_sorted obj fields : sorted obj -> sorted (insert_all obj fields).
Proof.
  unfold insert_all. revert obj. induction fields as [|f fields IH]; intros obj H; cbn; [done|].
  by apply IH, insert_sorted.
Qed.

(** The value a key has after all insertions: the last field of that name, or the old one. *)
Definition last_field (fields : list (FieldName * value)) (k : str) : option value :=
  foldl (fun o f => if str_eqb f.1 k then Some f.2 else o) None fields.

Lemma foldl_last fields k o :
  foldl (fun o f => if str_eqb f.1 k then Some f.2 else o) o fields
  = match last_field fields k with Some v => Some v | None => o end.
Proof.
  unfold last_field. revert o. induction fields as [|f fields IH]; intros o; cbn; [done|].
  rewrite (IH (if str_eqb f.1 k then _ else o)), (IH (if str_eqb f.1 k then _ else None)).
  destruct (str_eqb f.1 k); by case_match.
Qed.

Lemma insert_all_get obj fields k :
  map_get (insert_all obj fields) k
  = match last_field fields k with Some v => Some v | None => map_get obj k end.
Proof.
  rewrite <- foldl_last. unfold insert_all. revert obj.
  induction fields as [|f fields IH]; intros obj; cbn; [done|]. by rewrite IH, map_get_insert.
Qed.

Lemma last_field_None fields k : last_field fields k = None <-> k ∉ fields.*1.
Proof.
  unfold last_field. induction fields as [|f fields IH]; cbn; [set_solver|].
  rewrite foldl_last. unfold last_field in *. destruct (str_eqb f.1 k) eqn:Hf.
  - apply str_eqb_eq in Hf as <-. split; [intros H; by case_match|set_solver].
  - apply str_eqb_neq in Hf. rewrite not_elem_of_cons, <- IH.
    split; [intros H; split; [done|by case_match]|intros [_ H]; by rewrite H].
Qed.

Lemma strip_loop_spec obj names :
  sorted obj ->
  sorted (strip_loop obj names).1
  /\ (forall k, map_get (strip_loop obj names).1 k = if decide (k ∈ names) then None else map_get obj k)
  /\ (NoDup names -> Forall (fun n => contains_key obj n = true) names ->
      (strip_loop obj names).2 = length names).
Proof.
  revert obj. induction names as [|name names IH]; intros obj Hs; cbn.
  - split; [done|]. split; [|done]. intros k. by rewrite decide_False by set_solver.
  - destruct (IH (map_remove obj name) (remove_sorted _ _ Hs)) as (H1 & H2 & H3).
    destruct (strip_loop (map_remove obj name) names) as [obj' n]. cbn in *. split; [done|]. split.
    + intros k. rewrite H2, map_get_remove by done.
      destruct (str_eqb name k) eqn:Hk.
      * apply str_eqb_eq in Hk as <-. rewrite (decide_True (P := name ∈ name :: names)) by set_solver.
        by destruct (decide _).
      * apply str_eqb_neq in Hk. destruct (decide (k ∈ names)); [by rewrite decide_True by set_solver|].
        by rewrite decide_False by set_solver.
    + intros [Hn Hd]%NoDup_cons [Hc Hf]%Forall_cons_iff. rewrite Hc, H3; [lia|done|].
      rewrite Forall_forall in *. intros k Hk. specialize (Hf k Hk).
      apply contains_key_get. rewrite map_get_remove by done.
      rewrite (proj2 (str_eqb_neq _ _)) by (intros ->; done). by apply contains_key_get.
Qed.

(** Stripping the names of fields that were all absent undoes inserting them. *)
Lemma strip_insert_all obj fields :
  sorted obj -> NoDup fields.*1 -> Forall (fun f => contains_key obj f.1 = false) fields ->
  strip_loop (insert_all obj fields) fields.*1 = (obj, length fields).
Proof.
  intros Hs Hnd Hc. pose proof (insert_all_sorted obj fields Hs) as Hs'.
  destruct (strip_loop_spec (insert_all obj fields) fields.*1 Hs') as (H1 & H2 & H3).
  destruct (strip_loop (insert_all obj fields) fields.*1) as [obj' n]. cbn in *. f_equal.
  - apply map_ext; [done..|]. intros k. rewrite H2, insert_all_get. destruct (decide _) as [Hk|Hk].
    + apply list_elem_of_fmap in Hk as (f & -> & Hf). rewrite Forall_forall in Hc.
      symmetry. by apply contains_key_false, Hc.
    + by rewrite (proj2 (last_field_None _ _) Hk).
  - rewrite H3; [by rewrite length_fmap|done|].
    apply Forall_forall. intros k Hk. apply contains_key_get. rewrite insert_all_get.
    destruct (last_field fields k) eqn:Hl; [done|]. by apply last_field_None in Hl.
Qed.
Lemma last_field_NoDup fields f : NoDup fields.*1 -> f ∈ fields -> last_field fields f.1 = Some f.2.
Proof.
  unfold last_field. intros Hnd Hf. induction fields as [|g fields IH]; [set_solver|].
  cbn in *. apply NoDup_cons in Hnd as [Hg Hnd]. rewrite foldl_last.
  apply elem_of_cons in Hf as [->|Hf].
  - by rewrite (proj2 (last_field_None _ _) Hg), str_eqb_refl.
  - unfold last_field. by rewrite IH.
Qed.

(** Stripping undoes injecting. When injection succeeds, every injected field is
    readable in the document with its value and every other key is untouched; stripping
    the same names gives back the original document and counts every field. Injection
    fails exactly when the document is not an object or already holds a reserved field,
    and then changes nothing. *)
Theorem strip_undoes_inject doc fields doc' r :
  wf_value doc -> NoDup fields.*1 -> inject_fields doc fields = (doc', r) ->
  match r with
  | Ok _ => strip_fields doc' fields.*1 = (doc, length fields)
      /\ (forall f, f ∈ fields -> value_get doc' f.1 = Some f.2)
      /\ (forall k, k ∉ fields.*1 -> value_get doc' k = value_get doc k)
  | Err e => doc' = doc /\ (as_object doc = None \/ exists f, f ∈ fields /\ is_Some (value_get doc f.1))
  end.
Proof.
  intros Hwf Hnd. unfold inject_fields. destruct (as_object doc) as [obj|] eqn:Ho.
  2: { intros [= <- <-]. split; [done|by left]. }
  destruct doc; try done. injection Ho as ->. destruct Hwf as [Hs _].
  destruct (reserved_check _ _) as [u|e] eqn:Hc; intros [= <- <-].
  - destruct u. apply reserved_check_Ok in Hc. cbn. rewrite strip_insert_all by done.
    split; [done|]. split.
    + intros f Hf. by rewrite insert_all_get, last_field_NoDup.
    + intros k Hk. by rewrite insert_all_get, (proj2 (last_field_None _ _) Hk).
  - split; [done|]. right. apply reserved_check_Err in Hc as (f & Hf & Ht & _).
    exists f. split; [done|]. by apply contains_key_get.
Qed.

(** ** The splice *)

(** Each field next to the text its value is written as. *)
Definition Written (fields : list (FieldName * value)) (kvs : list (str * bytes)) : Prop :=
  Forall2 (fun f e => e.1 = f.1 /\ to_vec f.2 = Some e.2) fields kvs.
Definition utf8_names (fields : list (FieldName * value)) : Prop :=
  Forall (fun f => utf8_valid f.1 = true) fields.

Lemma JVal_any t : JVal rfc_escape t -> JVal any_escape t.
Proof. by apply JVal_mono. Qed.

Lemma field_member name k v t w :
  utf8_valid name = true -> str_to_vec name = Some k -> to_vec v = Some t -> ws w ->
  DMember (k ++ ":"%char :: t ++ w) name t.
Proof.
  intros Hu Hk Ht Hw. apply (dmember_intro [] k name [] [] t w);
    [constructor|by apply str_to_vec_json|constructor|constructor| |done].
  by eapply JVal_any, to_vec_json.
Qed.

Lemma DMembers_app m1 kvs1 m2 kvs2 :
  DMembers m1 kvs1 -> DMembers m2 kvs2 -> DMembers (m1 ++ ","%char :: m2) (kvs1 ++ kvs2).
Proof.
  intros H1 H2. induction H1 as [m k v Hm|m k v t kvs Hm Ht IH]; cbn.
  - by constructor.
  - rewrite <- app_assoc. by constructor.
Qed.

(** The injected text is a list of members, and stays one with white space after it. *)
Lemma injected_members f fields inj w :
  utf8_names (f :: fields) -> injected_text true (f :: fields) = Ok inj -> ws w ->
  exists kvs, Written (f :: fields) kvs /\ DMembers (inj ++ w) kvs.
Proof.
  revert f inj. induction fields as [|g fields IH]; intros [n v] inj [Hn Hu]%Forall_cons_iff; cbn [injected_text].
  - destruct (str_to_vec n) as [k|] eqn:Hk; [|done]. destruct (to_vec v) as [t|] eqn:Ht; [|done].
    cbn. intros [= <-] Hw. exists [(n, t)]. split; [by repeat constructor|].
    rewrite <- app_assoc. cbn. rewrite app_nil_r. apply dmembers_one. by eapply field_member.
  - specialize (IH g). cbn [injected_text] in IH. destruct g as [n' v'].
    destruct (str_to_vec n) as [k|] eqn:Hk; [|done]. destruct (to_vec v) as [t|] eqn:Ht; [|done].
    destruct (str_to_vec n') as [k'|] eqn:Hk'; [|done]. destruct (to_vec v') as [t'|] eqn:Ht'; [|done].
    cbn in *. destruct (injected_text false fields) as [more|]; [|done]. cbn in *.
    intros [= <-] Hw. destruct (IH _ Hu eq_refl Hw) as (kvs & Hkvs & Hm).
    exists ((n, t) :: kvs). split; [by constructor|].
    replace ((k ++ ":"%char :: t ++ ","%char :: k' ++ ":"%char :: t' ++ more) ++ w)
      with ((k ++ ":"%char :: t ++ []) ++ ","%char :: (k' ++ ":"%char :: t' ++ more) ++ w)
      by (rewrite app_nil_r; by repeat (rewrite <- ?app_assoc; cbn [app])).
    apply dmembers_cons; [|done]. eapply field_member; [done..|constructor].
Qed.

Lemma TopLevelDoc_split b top :
  TopLevelDoc b top -> exists w1 inner kvs w2, b = w1 ++ "{"%char :: inner ++ "}"%char :: w2
    /\ ws w1 /\ ObjInner inner kvs /\ ws w2 /\ keys top = kvs.*1
    /\ take (insert_at top) b = w1 ++ ["{"%char] /\ drop (insert_at top) b = inner ++ "}"%char :: w2
    /\ (empty top = true <-> kvs = []).
Proof.
  intros (w1 & inner & kvs & w2 & -> & Hw1 & Hi & Hw2 & ->). exists w1, inner, kvs, w2. cbn.
  assert (Hlen : Datatypes.S (length w1) = length (w1 ++ ["{"%char])) by (rewrite length_app; cbn; lia).
  rewrite Hlen. change ("{"%char :: inner ++ "}"%char :: w2) with (["{"%char] ++ inner ++ "}"%char :: w2).
  rewrite (app_assoc w1). rewrite take_app_length, drop_app_length.
  repeat split; try done; by destruct kvs.
Qed.

(** The body is one object with members [kvs] (decoded key, text of the value). *)
Definition ObjectDoc (b : bytes) (kvs : list (str * bytes)) : Prop :=
  exists w1 inner w2, b = w1 ++ "{"%char :: inner ++ "}"%char :: w2 /\ ws w1 /\ ObjInner inner kvs /\ ws w2.

Lemma inject_bytes_Ok `{W : Wide} body fields out :
  utf8_names fields -> inject_fields_bytes body fields = Ok out ->
  exists old new, ObjectDoc body old /\ Written fields new /\ ObjectDoc out (new ++ old)
    /\ Forall (fun f => f.1 ∉ old.*1) fields /\ (fields = [] -> out = body).
Proof.
  intros Hu. unfold inject_fields_bytes.
  destruct (object_top_level body) as [top|e] eqn:Htop; cbn; [|done].
  apply object_top_level_spec, TopLevelDoc_split in Htop as
    (w1 & inner & kvs & w2 & -> & Hw1 & Hi & Hw2 & Hkeys & Htake & Hdrop & Hempty).
  assert (Hbody : ObjectDoc (w1 ++ "{"%char :: inner ++ "}"%char :: w2) kvs) by (by exists w1, inner, w2).
  destruct fields as [|f fields].
  { intros [= <-]. exists kvs, []. repeat split; try done. constructor. }
  destruct (reserved_check _ _) as [u|] eqn:Hc; cbn [rbind]; [|done].
  apply (reserved_check_unit) in Hc as Hu'. subst u. apply reserved_check_Ok in Hc.
  destruct (injected_text true (f :: fields)) as [inj|] eqn:Hinj; cbn [rbind]; [|done].
  rewrite Htake, Hdrop. intros [= <-].
  assert (Hfresh : Forall (fun f => f.1 ∉ kvs.*1) (f :: fields)).
  { eapply Forall_impl; [exact Hc|]. intros g Hg Hin. cbn in Hg. rewrite Hkeys in Hg.
    apply not_true_iff_false in Hg. apply Hg, existsb_exists. exists g.1.
    split; [by apply list_elem_of_In|apply str_eqb_refl]. }
  destruct Hi as [[Hi ->]|Hi].
  - rewrite (proj2 Hempty eq_refl). cbn [negb app].
    destruct (injected_members f fields inj inner Hu Hinj Hi) as (new & Hnew & Hm).
    exists [], new. repeat split; try done. rewrite app_nil_r.
    exists w1, (inj ++ inner), w2. repeat split; try done; [|by right].
    by repeat (rewrite <- ?app_assoc; cbn [app]).
  - assert (empty top = false) as ->.
    { apply not_true_iff_false. intros H%Hempty. subst. inversion Hi. }
    destruct (injected_members f fields inj [] Hu Hinj ltac:(constructor)) as (new & Hnew & Hm).
    rewrite app_nil_r in Hm. exists kvs, new. repeat split; try done.
    exists w1, (inj ++ ","%char :: inner), w2. repeat split; try done; [|right; by apply DMembers_app].
    by repeat (rewrite <- ?app_assoc; cbn [app]).
Qed.

(** Splicing fields into the bytes of a body, without parsing it, is injection: if it
    succeeds, the body was one JSON object with no member of an injected name (names
    compared decoded, so an escape cannot hide one), and the result is one JSON object whose
    members are the injected fields, with their serialized values, followed by the members
    of the body, unchanged; the scanner reads its keys back in that order. *)
Theorem inject_bytes_is_injection `{W : Wide} body fields out :
  utf8_names fields -> inject_fields_bytes body fields = Ok out ->
  exists old new, ObjectDoc body old /\ Written fields new /\ ObjectDoc out (new ++ old)
    /\ Forall (fun f => f.1 ∉ old.*1) fields
    /\ exists top, object_top_level out = Ok top /\ keys top = fields.*1 ++ old.*1.
Proof.
  intros Hu Hok. destruct (inject_bytes_Ok body fields out Hu Hok) as (old & new & Hb & Hw & Ho & Hf & _).
  exists old, new. repeat (split; [done|]).
  destruct Ho as (w1 & inner & w2 & -> & Hw1 & Hi & Hw2). eexists. split.
  - apply object_top_level_spec. by exists w1, inner, (new ++ old), w2.
  - cbn. rewrite fmap_app. f_equal. clear -Hw. induction Hw as [|f e fs es [He _] Hw IH]; [done|].
    cbn. by rewrite IH, He.
Qed.
End Fields.

(** ** Concrete runs *)
Section Runs.
#[local] Existing Instance toy_serde.

Definition sample_doc : @Value Z := Object [(lit "msg", String (lit "hi"))].
Definition sample_fields : list (str * Value Z) := [(lit "_tenant", String (lit "acme"))].

Example inject_runs :
  @inject_fields (toy_serde []) sample_doc sample_fields
  = (Object [(lit "_tenant", String (lit "acme")); (lit "msg", String (lit "hi"))], Ok tt).
Proof. reflexivity. Qed.
Example inject_update_partial :
  @inject_update (toy_serde [])
    (Object [(lit "doc", Object []); (lit "upsert", Object [(lit "_tenant", Null)])]) sample_fields
  = (Object [(lit "doc", Object sample_fields); (lit "upsert", Object [(lit "_tenant", Null)])],
     Err (ReservedFieldCollision (lit "_tenant"))).
Proof. vm_compute. reflexivity. Qed.
Example splice_runs :
  @inject_fields_bytes (toy_serde []) _ (body "{'msg':'hi'}") sample_fields
  = Ok (body "{'_tenant':'acme','msg':'hi'}").
Proof. vm_compute. reflexivity. Qed.
Example splice_escaped_key :
  @inject_fields_bytes (toy_serde []) _ (body "{'\u005ftenant':'x'}") sample_fields
  = Err (ReservedFieldCollision (lit "_tenant")).
Proof. vm_compute. reflexivity. Qed.

Lemma strip_undoes_inject_witness :
  @strip_fields (toy_serde []) (Object [(lit "_tenant", String (lit "acme")); (lit "msg", String (lit "hi"))])
    sample_fields.*1 = (sample_doc, 1)
  /\ (forall f, f ∈ sample_fields -> value_get (Object [(lit "_tenant", String (lit "acme")); (lit "msg", String (lit "hi"))]) f.1 = Some f.2)
  /\ (forall k, k ∉ sample_fields.*1 ->
      value_get (Object [(lit "_tenant", String (lit "acme")); (lit "msg", String (lit "hi"))]) k
      = value_get sample_doc k).
Proof.
  apply (@strip_undoes_inject (toy_serde []) sample_doc sample_fields _ (Ok tt)).
  - repeat split; constructor.
  - apply NoDup_singleton.
  - reflexivity.
Defined.

Lemma inject_bytes_is_injection_witness :
  exists old new, ObjectDoc (body "{'msg':'hi'}") old
    /\ @Written (toy_serde []) sample_fields new
    /\ ObjectDoc (body "{'_tenant':'acme','msg':'hi'}") (new ++ old)
    /\ Forall (fun f => f.1 ∉ old.*1) sample_fields
    /\ exists top, object_top_level (body "{'_tenant':'acme','msg':'hi'}") = Ok top
       /\ keys top = sample_fields.*1 ++ old.*1.
Proof.
  apply (@inject_bytes_is_injection (toy_serde []) scalar_wide).
  - by repeat constructor.
  - vm_compute. reflexivity.
Defined.
End Runs.
