(* ===== verification/Bulk.v ===== *)
(** * Multi-document bodies ([crates/osproxy-rewrite/src]: ndjson, bulk, mget, msearch)

    Framing an NDJSON body into lines and parsing [_bulk], [_mget] and [_msearch]
    bodies into their operations. *)
From stdpp Require Import base option list strings numbers sets.
From Stdlib Require Import Ascii ZArith Lia.
From S2P Require Import Prelude.
From S2P Require Import JsonScan.
From S2P Require Import JsonGrammar.
From S2P Require Import JsonTop.
From S2P Require Import Serde.
From S2P Require Import JsonProps.
From S2P Require Import ToySerde.
From S2P Require Import DocId.

Open Scope osp_scope.

(** The third-party [memchr] crate: the index of the first occurrence of a byte. *)
Class Memchr := {
  memchr : byte -> bytes -> option nat;
  memchr_spec : forall c l, memchr c l = find_byte c l
}.
#[export] Program Instance scalar_memchr : Memchr := {| memchr := find_byte |}.
Next Obligation. reflexivity. Qed.

Definition newline : byte := byte_of 10.
Definition blank (line : bytes) : bool := forallb is_ascii_whitespace line.

Section Ndjson.
Context {M : Memchr}.

(** One call of the iterator's closure from [start]: the next non-blank line and the new
    [start], or the end.  Each turn moves [start] past at least one byte or past the end. *)
Fixpoint next_line (fuel : nat) (body : bytes) (start : nat) : option (bytes * nat) :=
  match fuel with
  | 0 => None
  | S fuel =>
      if start <=? length body then
        let end_ := match memchr newline (drop start body) with
                    | Some rel => start + rel
                    | None => length body
                    end in
        let line := drop start (take end_ body) in
        let start := end_ + 1 in
        if negb (blank line) then Some (line, start) else next_line fuel body start
      else None
  end.
(** All the lines the iterator gives, from [start]. *)
Fixpoint lines_from (fuel : nat) (body : bytes) (start : nat) : list bytes :=
  match fuel with
  | 0 => []
  | S fuel =>
      match next_line (S (length body)) body start with
      | Some (line, start) => line :: lines_from fuel body start
      | None => []
      end
  end.
Definition non_blank_lines (body : bytes) : list bytes := lines_from (S (length body)) body 0.
End Ndjson.

(** ** [bulk.rs] *)
Inductive BulkAction : Type :=
| Index
| Create
| Update
| Delete.
#[export] Instance BulkAction_eq_dec : EqDecision BulkAction.
Proof. solve_decision. Defined.

Definition has_source (a : BulkAction) : bool := match a with Delete => false | _ => true end.
Definition keyword (a : BulkAction) : str :=
  match a with
  | Index => lit "index"
  | Create => lit "create"
  | Update => lit "update"
  | Delete => lit "delete"
  end.

Record BulkItem : Type := MkBulkItem {
  bi_action : BulkAction;
  bi_index : option str;
  bi_id : option str;
  bi_routing : option str;
  bi_concurrency_control : bool;
  bi_source : option bytes
}.
Record ActionMeta : Type := MkActionMeta {
  meta_index : option str;
  meta_id : option str;
  meta_routing : option str;
  meta_concurrency_control : bool
}.
Record ParsedAction : Type := MkParsedAction { pa_action : BulkAction; pa_meta : ActionMeta }.

Section Bodies.
Context {S : Serde}.

Definition str_field (v : value) (name : str) : option str := value_get v name ≫= as_str.

Definition action_meta (meta : value) : ActionMeta :=
  MkActionMeta (str_field meta (lit "_index")) (str_field meta (lit "_id")) (str_field meta (lit "routing"))
    (existsb (fun k => match value_get meta k with Some _ => true | None => false end)
       [lit "if_seq_no"; lit "if_primary_term"; lit "version"; lit "version_type"]).

Definition verb_action (verb : str) : option BulkAction :=
  if str_eqb verb (lit "index") then Some Index
  else if str_eqb verb (lit "create") then Some Create
  else if str_eqb verb (lit "update") then Some Update
  else if str_eqb verb (lit "delete") then Some Delete
  else None.

Definition parse_action_line (line : bytes) : Result (BulkAction * ActionMeta) RewriteError :=
  let? v := ok_or (from_slice line) RwInvalidJson in
  let? obj := ok_or (as_object v) MalformedBulkAction in
  match obj with
  | [] => Err MalformedBulkAction
  | (verb, meta) :: entries =>
      match entries with
      | _ :: _ => Err MalformedBulkAction
      | [] =>
          let? action := ok_or (verb_action verb) MalformedBulkAction in
          Ok (action, action_meta meta)
      end
  end.

Definition make_item (action : BulkAction) (meta : ActionMeta) (source : option bytes) : BulkItem :=
  MkBulkItem action (meta_index meta) (meta_id meta) (meta_routing meta) (meta_concurrency_control meta) source.

Section WithWide.
Context {W : Wide}.

(** The [while let] loop of [parse_bulk] over the lines. *)
Fixpoint bulk_loop (lines : list bytes) : Result (list BulkItem) RewriteError :=
  match lines with
  | [] => Ok []
  | action_line :: lines =>
      let? (action, meta) := parse_action_line action_line in
      if has_source action then
        match lines with
        | [] => Err MalformedBulkAction
        | source_line :: lines =>
            let? _ := map_err (fun _ => RwInvalidJson) (validate source_line) in
            let? items := bulk_loop lines in
            Ok (make_item action meta (Some source_line) :: items)
        end
      else
        let? items := bulk_loop lines in
        Ok (make_item action meta None :: items)
  end.
Definition parse_bulk `{M : Memchr} (body : bytes) : Result (list BulkItem) RewriteError :=
  bulk_loop (non_blank_lines body).

Definition parse_bulk_action (line : bytes) : Result ParsedAction RewriteError :=
  let? (action, meta) := parse_action_line line in Ok (MkParsedAction action meta).
Definition into_item (a : ParsedAction) (source_line : option bytes) : Result BulkItem RewriteError :=
  let? source :=
    (if has_source (pa_action a) then
       let? line := ok_or source_line MalformedBulkAction in
       let? _ := map_err (fun _ => RwInvalidJson) (validate line) in
       Ok (Some line)
     else Ok None) in
  Ok (make_item (pa_action a) (pa_meta a) source).

(** The streaming use of the two: parse an action line, take a source line if it has
    one, finalise. *)
Fixpoint bulk_stream (lines : list bytes) : Result (list BulkItem) RewriteError :=
  match lines with
  | [] => Ok []
  | action_line :: lines =>
      let? a := parse_bulk_action action_line in
      if has_source (pa_action a) then
        match lines with
        | [] => let? item := into_item a None in Ok [item]
        | source_line :: lines =>
            let? item := into_item a (Some source_line) in
            let? items := bulk_stream lines in Ok (item :: items)
        end
      else
        let? item := into_item a None in
        let? items := bulk_stream lines in Ok (item :: items)
  end.
End WithWide.

(** ** [mget.rs] *)
Record MgetItem : Type := MkMgetItem {
  mg_index : option str;
  mg_id : str;
  mg_routing : option str
}.
Definition parse_doc_entry (entry : value) : Result MgetItem RewriteError :=
  let? _ := ok_or (as_object entry) MalformedBulkAction in
  let? id := ok_or (str_field entry (lit "_id")) MalformedBulkAction in
  Ok (MkMgetItem (str_field entry (lit "_index")) id (str_field entry (lit "routing"))).
Definition parse_id_entry (entry : value) : Result MgetItem RewriteError :=
  let? id := ok_or (as_str entry) MalformedBulkAction in
  Ok (MkMgetItem None id None).
Definition parse_mget (body : bytes) : Result (list MgetItem) RewriteError :=
  let? v := ok_or (from_slice body) RwInvalidJson in
  let? obj := ok_or (as_object v) RwNotAnObject in
  match map_get obj (lit "docs") ≫= as_array with
  | Some docs => collect parse_doc_entry docs
  | None =>
      match map_get obj (lit "ids") ≫= as_array with
      | Some ids => collect parse_id_entry ids
      | None => Err RwNotAnObject
      end
  end.

(** ** [msearch.rs] *)
Record MsearchItem : Type := MkMsearchItem { ms_index : option str; ms_query : bytes }.
Definition header_index (header : value) : option str :=
  match value_get header (lit "index") with
  | Some (String s) => Some s
  | Some (Array a) => head a ≫= as_str
  | _ => None
  end.
Fixpoint msearch_loop (lines : list bytes) : Result (list MsearchItem) RewriteError :=
  match lines with
  | [] => Ok []
  | header_line :: lines =>
      let? header := ok_or (from_slice header_line) RwInvalidJson in
      match lines with
      | [] => Err MalformedBulkAction
      | body_line :: lines =>
          let? _ := ok_or (from_slice body_line) RwInvalidJson in
          let? items := msearch_loop lines in
          Ok (MkMsearchItem (header_index header) body_line :: items)
      end
  end.
Definition parse_msearch `{M : Memchr} (body : bytes) : Result (list MsearchItem) RewriteError :=
  msearch_loop (non_blank_lines body).
End Bodies.

(** ** Framing *)
Section Framing.
Context {M : Memchr}.

(** What is left of the body from [start]: its lines, none once [start] is past the end. *)
Definition lines_left (body : bytes) (start : nat) : list bytes :=
  if start <=? length body then List.filter (fun l => negb (blank l)) (split newline (drop start body)) else [].

Lemma split_at c l i :
  find_byte c l = Some i -> split c l = take i l :: split c (drop (i + 1) l).
Proof.
  intros (a & b & -> & <- & Ha)%find_byte_Some. rewrite take_app_length.
  replace (length a + 1) with (length (a ++ [c])) by (rewrite length_app; done).
  change (c :: b) with ([c] ++ b) at 2. rewrite app_assoc, drop_app_length.
  clear -Ha. induction a as [|d a IH]; cbn; [by rewrite Ascii.eqb_refl|].
  apply not_elem_of_cons in Ha as [Hne Ha]. rewrite (proj2 (Ascii.eqb_neq c d)) by done.
  by rewrite IH.
Qed.
Lemma split_none c l : find_byte c l = None -> split c l = [l].
Proof.
  rewrite find_byte_None. induction l as [|d l IH]; intros Ha; cbn; [done|].
  apply not_elem_of_cons in Ha as [Hne Ha]. rewrite (proj2 (Ascii.eqb_neq c d)) by done.
  by rewrite IH.
Qed.

Lemma lines_left_past body start : length body < start -> lines_left body start = [].
Proof. intros H. unfold lines_left. by rewrite (proj2 (Nat.leb_gt _ _) H). Qed.
Lemma lines_left_cons body start end_ line :
  start <= length body ->
  end_ = match find_byte newline (drop start body) with Some rel => start + rel | None => length body end ->
  line = drop start (take end_ body) ->
  lines_left body start = if negb (blank line) then line :: lines_left body (end_ + 1) else lines_left body (end_ + 1).
Proof.
  intros Hle -> ->. unfold lines_left at 1. rewrite (proj2 (Nat.leb_le _ _) Hle).
  destruct (find_byte newline (drop start body)) as [rel|] eqn:Hrel.
  - pose proof Hrel as Hlen. apply find_byte_Some in Hlen as (a & b & Hd & Ha & _).
    apply (f_equal length) in Hd. rewrite length_drop, length_app in Hd. cbn in Hd.
    rewrite (split_at _ _ _ Hrel). cbn [List.filter].
    assert (Hline : take rel (drop start body) = drop start (take (start + rel) body))
      by (rewrite skipn_firstn_comm; f_equal; lia).
    rewrite Hline, drop_drop. replace (start + (rel + 1)) with (start + rel + 1) by lia.
    unfold lines_left. by rewrite (proj2 (Nat.leb_le (start + rel + 1) _)) by lia.
  - rewrite (split_none _ _ Hrel). cbn [List.filter]. rewrite firstn_all.
    by rewrite lines_left_past by lia.
Qed.

(** A call of the closure finds the first line left, or that there is none. *)
Lemma next_line_spec fuel body start :
  length body + 1 - start <= fuel ->
  match next_line fuel body start with
  | Some (line, start') => start < start' /\ lines_left body start = line :: lines_left body start'
  | None => lines_left body start = []
  end.
Proof.
  revert start. induction fuel as [|fuel IH]; intros start Hf; cbn [next_line].
  { apply lines_left_past. lia. }
  destruct (Nat.leb_spec start (length body)) as [Hle|Hgt]; [|by apply lines_left_past].
  rewrite memchr_spec.
  set (end_ := match find_byte newline (drop start body) with Some rel => start + rel | None => length body end).
  assert (He : start <= end_) by (subst end_; case_match; lia).
  rewrite (lines_left_cons body start end_ _ Hle eq_refl eq_refl).
  destruct (negb (blank (drop start (take end_ body)))); [split; [lia|done]|].
  specialize (IH (end_ + 1) ltac:(lia)). destruct (next_line fuel body (end_ + 1)) as [[line s]|]; [|done].
  destruct IH as [? ->]. split; [lia|done].
Qed.

Lemma lines_from_spec fuel body start :
  length body + 1 - start <= fuel -> lines_from fuel body start = lines_left body start.
Proof.
  revert start. induction fuel as [|fuel IH]; intros start Hf; cbn [lines_from].
  { symmetry. apply lines_left_past. lia. }
  pose proof (next_line_spec (S (length body)) body start ltac:(lia)) as H.
  destruct (next_line _ body start) as [[line s]|]; [|done].
  destruct H as [Hlt ->]. by rewrite IH by lia.
Qed.

Lemma non_blank_lines_spec body :
  non_blank_lines body = List.filter (fun l => negb (blank l)) (split newline body).
Proof. unfold non_blank_lines. rewrite lines_from_spec by lia. done. Qed.

(** The vectorised line framing is splitting on newlines and dropping the blank
    lines, in order, for every body; it ends, and never looks past the body's end. *)
Theorem non_blank_lines_is_split body :
  non_blank_lines body = List.filter (fun l => negb (blank l)) (split newline body).
Proof. apply non_blank_lines_spec. Qed.
End Framing.

(** ** Bulk operations *)
Section BulkSpec.
Context {S : Serde} {W : Wide}.

(** The items a sequence of lines spells: an action line, then its source line, one JSON
    document kept verbatim, unless the action is a delete. *)
Inductive BulkLines : list bytes -> list BulkItem -> Prop :=
| bulk_end : BulkLines [] []
| bulk_sourced line action meta source lines items :
    parse_action_line line = Ok (action, meta) -> action <> Delete ->
    JDoc any_escape source -> BulkLines lines items ->
    BulkLines (line :: source :: lines) (make_item action meta (Some source) :: items)
| bulk_delete line meta lines items :
    parse_action_line line = Ok (Delete, meta) -> BulkLines lines items ->
    BulkLines (line :: lines) (make_item Delete meta None :: items).

Lemma has_source_true a : has_source a = true <-> a <> Delete.
Proof. by destruct a. Qed.

(** Induction two lines at a time. *)
Lemma lines_ind (P : list bytes -> Prop) :
  P [] -> (forall a, P [a]) -> (forall a b l, P (b :: l) -> P l -> P (a :: b :: l)) -> forall l, P l.
Proof.
  intros H0 H1 H2 l. enough (P l /\ forall a, P (a :: l)) by tauto.
  induction l as [|b l [IH1 IH2]]; split; auto.
Qed.

Lemma bulk_loop_cons a lines :
  bulk_loop (a :: lines)
  = (let? (action, meta) := parse_action_line a in
     if has_source action then
       match lines with
       | [] => Err MalformedBulkAction
       | source_line :: lines =>
           let? _ := map_err (fun _ => RwInvalidJson) (validate source_line) in
           let? items := bulk_loop lines in Ok (make_item action meta (Some source_line) :: items)
       end
     else let? items := bulk_loop lines in Ok (make_item action meta None :: items)).
Proof. done. Qed.
Lemma bulk_stream_cons a lines :
  bulk_stream (a :: lines)
  = (let? a := parse_bulk_action a in
     if has_source (pa_action a) then
       match lines with
       | [] => let? item := into_item a None in Ok [item]
       | source_line :: lines =>
           let? item := into_item a (Some source_line) in
           let? items := bulk_stream lines in Ok (item :: items)
       end
     else let? item := into_item a None in let? items := bulk_stream lines in Ok (item :: items)).
Proof. done. Qed.

Lemma bulk_loop_spec lines items : bulk_loop lines = Ok items <-> BulkLines lines items.
Proof.
  split.
  - revert items. induction lines as [|a|a b l IHb IHl] using lines_ind; intros items; [|rewrite bulk_loop_cons..].
    + intros [= <-]. constructor.
    + destruct (parse_action_line a) as [[action meta]|] eqn:Ha; cbn; [|done].
      destruct action; cbn; try done. intros [= <-]. by constructor; [|constructor].
    + destruct (parse_action_line a) as [[action meta]|] eqn:Ha; cbn [rbind]; [|done].
      destruct (has_source action) eqn:Hs.
      * destruct (validate b) as [[]|] eqn:Hv; cbn; [|done].
        destruct (bulk_loop l) as [its|] eqn:Hl; cbn; [|done]. intros [= <-].
        apply validate_spec in Hv. apply has_source_true in Hs. constructor; auto.
      * destruct (bulk_loop (b :: l)) as [its|] eqn:Hl; cbn [rbind]; [|done]. intros [= <-].
        destruct action; try done. constructor; auto.
  - induction 1 as [|line action meta source lines items Ha Hd Hv Hl IH|line meta lines items Ha Hl IH];
      [done|rewrite bulk_loop_cons..].
    + rewrite Ha. cbn [rbind]. rewrite (proj2 (has_source_true _) Hd).
      rewrite (proj2 (validate_spec _) Hv). cbn [map_err rbind]. by rewrite IH.
    + rewrite Ha. cbn [rbind has_source]. by rewrite IH.
Qed.

Lemma bulk_stream_eq lines : bulk_stream lines = bulk_loop lines.
Proof.
  induction lines as [|a|a b l IHb IHl] using lines_ind; [done|rewrite bulk_loop_cons, bulk_stream_cons..];
    unfold parse_bulk_action, into_item; destruct (parse_action_line a) as [[action meta]|]; cbn [rbind]; try done;
    cbn [pa_action pa_meta]; destruct (has_source action); cbn [rbind ok_or]; try done.
  - destruct (validate b); cbn [rbind map_err]; [|done]. by rewrite IHl.
  - by rewrite IHb.
Qed.

(** [parse_bulk] accepts a body exactly when its non-blank lines spell bulk operations,
    and returns them in order with each source byte for byte as sent; the streaming parse,
    line by line, gives the same operations and the same errors. *)
Theorem parse_bulk_exact `{M : Memchr} body :
  (forall items, parse_bulk body = Ok items
     <-> BulkLines (List.filter (fun l => negb (blank l)) (split newline body)) items)
  /\ bulk_stream (non_blank_lines body) = parse_bulk body.
Proof.
  unfold parse_bulk. rewrite non_blank_lines_spec. split; [intros; apply bulk_loop_spec|].
  apply bulk_stream_eq.
Qed.
End BulkSpec.

(** ** Concrete runs *)
Definition action_table : list (bytes * Value Z) :=
  [(body "{'index':{'_id':'1'}}", Object [(lit "index", Object [(lit "_id", String (lit "1"))])]);
   (body "{'delete':{'_id':'2'}}", Object [(lit "delete", Object [(lit "_id", String (lit "2"))])])].
Definition lf : bytes := [newline].

Example parse_bulk_runs :
  @parse_bulk (toy_serde action_table) _ _
    (body "{'index':{'_id':'1'}}" ++ lf ++ body "{'msg':'hi'}" ++ lf ++ lf ++ body "{'delete':{'_id':'2'}}")
  = Ok [MkBulkItem Index None (Some (lit "1")) None false (Some (body "{'msg':'hi'}"));
        MkBulkItem Delete None (Some (lit "2")) None false None].
Proof. vm_compute. reflexivity. Qed.
Example parse_bulk_missing_source :
  @parse_bulk (toy_serde action_table) _ _ (body "{'index':{'_id':'1'}}" ++ lf) = Err MalformedBulkAction.
Proof. vm_compute. reflexivity. Qed.
