(* ===== verification/Query.v ===== *)
(** * The partition filter on searches ([crates/osproxy-rewrite/src/query.rs])

    The client's query becomes the [must] clause of a [bool] whose [filter] pins the
    partition; constructs a filter cannot reach are refused. *)
From stdpp Require Import base option list strings numbers sets.
From Stdlib Require Import Ascii ZArith Lia.
From S2P Require Import Prelude.
From S2P Require Import JsonScan.
From S2P Require Import JsonGrammar.
From S2P Require Import JsonTriples.
From S2P Require Import JsonValues.
From S2P Require Import JsonTop.
From S2P Require Import JsonProps.
From S2P Require Import Serde.
From S2P Require Import ToySerde.
From S2P Require Import CoreTypes.
From S2P Require Import DocId.
From S2P Require Import Fields.

Open Scope osp_scope.

Section Query.
Context {Sd : Serde}.

(** Whether an aggregations object holds a [global] aggregation at any depth. *)
Fixpoint contains_global_agg (aggs : value) : bool :=
  match aggs with
  | Object obj =>
      existsb (fun e => match e.2 with
        | Object agg =>
            contains_key agg (lit "global")
            || existsb (fun k =>
                 (fix at_key (m : list (list ascii * value)) : bool :=
                    match m with
                    | [] => false
                    | (j, sub) :: m => if str_eqb j k then contains_global_agg sub else at_key m
                    end) agg) [lit "aggs"; lit "aggregations"]
        | _ => false
        end) obj
  | _ => false
  end.

Fixpoint reject_aggs (top : list (str * bytes)) (keys : list str) : Result unit RewriteError :=
  match keys with
  | [] => Ok tt
  | key :: keys =>
      match map_get top key with
      | Some raw =>
          let? aggs := ok_or (from_slice raw) RwInvalidJson in
          if contains_global_agg aggs then Err (Unfilterable (lit "global aggregation"))
          else reject_aggs top keys
      | None => reject_aggs top keys
      end
  end.
Definition reject_unfilterable (top : list (str * bytes)) : Result unit RewriteError :=
  if contains_key top (lit "suggest") then Err (Unfilterable (lit "suggest"))
  else reject_aggs top [lit "aggs"; lit "aggregations"].

Definition parse_top (body : bytes) : Result (list (str * bytes)) RewriteError :=
  if forallb is_ascii_whitespace body then Ok []
  else match raw_object body with
       | Some map => Ok map
       | None => if raw_value body then Err RwNotAnObject else Err RwInvalidJson
       end.

(** The [filter] terms, each [{"term":{name:value}}]. *)
Fixpoint filter_terms (first : bool) (filter : list (FieldName * value)) : Result bytes RewriteError :=
  match filter with
  | [] => Ok []
  | (name, v) :: filter =>
      let? term := ok_or (to_vec (Object [(name, v)])) RwInvalidJson in
      let? more := filter_terms false filter in
      Ok ((if first then [] else [","%char]) ++ body "{'term':" ++ term ++ ["}"%char] ++ more)
  end.
Definition build_filtered_query (client_query : option bytes) (filter : list (FieldName * value))
    : Result bytes RewriteError :=
  let must := match client_query with
              | Some raw => "["%char :: raw ++ ["]"%char]
              | None => lit "[]"
              end in
  let? terms := filter_terms true filter in
  let q := body "{'bool':{'must':" ++ must ++ body ",'filter':[" ++ terms ++ lit "]}}" in
  let? s := ok_or (from_utf8 q) RwInvalidJson in
  ok_or (raw_from_string s) RwInvalidJson.

Definition wrap_query (body : bytes) (filter : list (FieldName * value)) : Result bytes RewriteError :=
  let? top := parse_top body in
  let? _ := (match filter with [] => Ok tt | _ => reject_unfilterable top end) in
  let client_query := map_get top (lit "query") in
  let top := map_remove top (lit "query") in
  let? query := build_filtered_query client_query filter in
  let top := map_insert top (lit "query") query in
  ok_or (raw_object_to_vec top) RwInvalidJson.

(** ** Global aggregations *)

(** A [global] aggregation under [v], through any nesting of sub-aggregations. *)
Inductive HasGlobal : value -> Prop :=
| global_here obj name agg : (name, Object agg) ∈ obj -> is_Some (map_get agg (lit "global")) ->
    HasGlobal (Object obj)
| global_nested obj name agg k sub : (name, Object agg) ∈ obj -> k = lit "aggs" \/ k = lit "aggregations" ->
    map_get agg k = Some sub -> HasGlobal sub -> HasGlobal (Object obj).

Lemma at_key_get (agg : list (list ascii * value)) k :
  (fix at_key (m : list (list ascii * value)) : bool :=
     match m with
     | [] => false
     | (j, sub) :: m => if str_eqb j k then contains_global_agg sub else at_key m
     end) agg
  = match map_get agg k with Some sub => contains_global_agg sub | None => false end.
Proof.
  induction agg as [|[j sub] m IH]; cbn; [done|]. by destruct (str_eqb j k).
Qed.

Lemma contains_global_object obj :
  contains_global_agg (Object obj) = true <->
  exists name agg, (name, Object agg) ∈ obj
    /\ (is_Some (map_get agg (lit "global"))
        \/ exists k sub, (k = lit "aggs" \/ k = lit "aggregations") /\ map_get agg k = Some sub
             /\ contains_global_agg sub = true).
Proof.
  cbn [contains_global_agg]. rewrite existsb_exists. split.
  - intros ([name v] & Hin%list_elem_of_In & Hv). cbn [snd] in Hv. destruct v as [| | | | |agg]; try done.
    exists name, agg. split; [done|]. rewrite orb_true_iff in Hv. destruct Hv as [Hv|Hv].
    + left. by apply contains_key_get.
    + right. apply existsb_exists in Hv as (k & Hk & Hv). rewrite at_key_get in Hv.
      destruct (map_get agg k) as [sub|] eqn:Hg; [|done]. exists k, sub. split; [|done].
      destruct Hk as [<-|[<-|[]]]; auto.
  - intros (name & agg & Hin & Hv). exists (name, Object agg). split; [by apply list_elem_of_In|].
    cbn [snd]. apply orb_true_iff. destruct Hv as [Hv|(k & sub & Hk & Hg & Hv)].
    + left. by apply contains_key_get.
    + right. apply existsb_exists. exists k. split; [destruct Hk as [->| ->]; cbn; auto|].
      by rewrite at_key_get, Hg.
Qed.

Lemma map_get_in {V} (m : list (list ascii * V)) k v : map_get m k = Some v -> (k, v) ∈ m.
Proof.
  induction m as [|[j w] m IH]; cbn; [done|]. destruct (str_eqb j k) eqn:Hj.
  - apply str_eqb_eq in Hj as ->. intros [= ->]. by left.
  - intros H. right. by apply IH.
Qed.

(** The depth of a value, to descend into it. *)
Fixpoint depth (v : value) : nat :=
  match v with
  | Array l => Datatypes.S (foldr (fun v n => Nat.max (depth v) n) 0 l)
  | Object m => Datatypes.S (foldr (fun e n => Nat.max (depth e.2) n) 0 m)
  | _ => 0
  end.
Lemma depth_member k v m : (k, v) ∈ m -> depth v < depth (Object m).
Proof.
  cbn [depth]. induction m as [|[j w] m IH]; [set_solver|].
  intros [[= -> ->]|H]%elem_of_cons; cbn; [lia|]. specialize (IH H). lia.
Qed.

Lemma contains_global_agg_spec v : contains_global_agg v = true <-> HasGlobal v.
Proof.
  split.
  - remember (depth v) as n eqn:Hn. assert (Hle : depth v <= n) by lia. clear Hn. revert v Hle.
    induction n as [|n IH]; intros v Hle Hv; destruct v as [| | | | |obj]; try done; [cbn in Hle; lia|].
    apply contains_global_object in Hv as (name & agg & Hin & [Hg|(k & sub & Hk & Hg & Hv)]).
    + by eapply global_here.
    + eapply global_nested; [done..|]. apply IH; [|done].
      pose proof (depth_member _ _ _ Hin). pose proof (depth_member _ _ _ (map_get_in _ _ _ Hg)). lia.
  - induction 1 as [obj name agg Hin Hg|obj name agg k sub Hin Hk Hg Hs IH]; apply contains_global_object;
      exists name, agg; (split; [done|]); [by left|right; by exists k, sub].
Qed.

(** ** The text of the filtered query *)
Definition term_text (f : FieldName * value) (t : bytes) : Prop :=
  exists kt vt, str_to_vec f.1 = Some kt /\ to_vec f.2 = Some vt
    /\ t = body "{'term':{" ++ kt ++ ":"%char :: vt ++ lit "}}".
Definition must_text (client_query : option bytes) : bytes :=
  match client_query with Some raw => "["%char :: raw ++ ["]"%char] | None => lit "[]" end.
Definition query_text (client_query : option bytes) (ts : list bytes) : bytes :=
  body "{'bool':{'must':" ++ must_text client_query ++ body ",'filter':[" ++ join (lit ",") ts ++ lit "]}}".

Lemma filter_terms_join filter terms :
  filter_terms true filter = Ok terms ->
  exists ts, Forall2 term_text filter ts /\ terms = join (lit ",") ts.
Proof.
  assert (H : forall filter terms, filter_terms false filter = Ok terms ->
    exists ts, Forall2 term_text filter ts /\ terms = mjoin ((fun t => ","%char :: t) <$> ts)).
  { clear. induction filter as [|[n v] filter IH]; intros terms; cbn [filter_terms].
    - intros [= <-]. exists []. by split; [constructor|].
    - rewrite to_vec_entry. destruct (str_to_vec n) as [kt|] eqn:Hk; [|done].
      destruct (to_vec v) as [vt|] eqn:Hv; [|done]. cbn [mbind option_bind ok_or rbind].
      destruct (filter_terms false filter) as [more|]; [|done]. cbn [rbind].
      destruct (IH more eq_refl) as (ts & Hts & ->). intros [= <-].
      eexists (_ :: ts). split; [constructor; [by exists kt, vt|done]|].
      cbn. by repeat (rewrite <- ?app_assoc; cbn [app]). }
  destruct filter as [|[n v] filter]; cbn [filter_terms].
  - intros [= <-]. exists []. by split; [constructor|].
  - rewrite to_vec_entry. destruct (str_to_vec n) as [kt|] eqn:Hk; [|done].
    destruct (to_vec v) as [vt|] eqn:Hv; [|done]. cbn [mbind option_bind ok_or rbind].
    destruct (filter_terms false filter) as [more|] eqn:Hm; [|done]. cbn [rbind].
    destruct (H _ _ Hm) as (ts & Hts & ->). intros [= <-].
    eexists (_ :: ts). split; [constructor; [by exists kt, vt|done]|].
    rewrite join_cons. change (app (lit ",")) with (fun t : bytes => ","%char :: t).
    by repeat (rewrite <- ?app_assoc; cbn [app]).
Qed.

Definition sep_members (l : list bytes) : bytes := mjoin (app (lit ",") <$> l).

(** Elements and members joined by commas. *)
Lemma JElements_join t ts :
  JVal rfc_escape t -> Forall (JVal rfc_escape) ts -> JElements rfc_escape (join (lit ",") (t :: ts)).
Proof.
  intros Ht Hts. revert t Ht. induction Hts as [|u ts Hu Hts IH]; intros t Ht.
  - replace (join (lit ",") [t]) with ([] ++ t ++ []) by (cbn; by rewrite app_nil_r).
    apply elements_one; [constructor|done|constructor].
  - replace (join (lit ",") (t :: u :: ts)) with ([] ++ t ++ [] ++ ","%char :: join (lit ",") (u :: ts)) by done.
    apply elements_cons; [constructor|done|constructor|by apply IH].
Qed.
Lemma JVal_array ts : Forall (JVal rfc_escape) ts -> JVal rfc_escape ("["%char :: join (lit ",") ts ++ ["]"%char]).
Proof.
  intros [|t ts' Ht Hts]; [apply (val_empty_array _ []); constructor|].
  apply val_array. by apply JElements_join.
Qed.
Lemma plain_string s : forallb (fun c => negb (is_string_boundary c)) s = true ->
  JString rfc_escape (quote :: s ++ [quote]).
Proof.
  intros Hs. exists s. split; [|done]. induction s as [|c s IH]; [constructor|].
  cbn in Hs. apply andb_true_iff in Hs as [Hc%negb_true_iff Hs]. constructor; auto.
Qed.
Lemma JMember_plain k t : JString rfc_escape k -> JVal rfc_escape t -> JMember rfc_escape (k ++ ":"%char :: t).
Proof.
  intros Hk Ht. replace (k ++ ":"%char :: t) with ([] ++ k ++ [] ++ ":"%char :: [] ++ t ++ [])
    by (cbn; by rewrite app_nil_r).
  by constructor; [constructor| |constructor|constructor| |constructor].
Qed.

Lemma term_text_json f t : utf8_valid f.1 = true -> term_text f t ->
  JVal rfc_escape t /\ utf8_valid t = true.
Proof.
  intros Hu (kt & vt & Hk & Hv & ->).
  assert (Ht : to_vec (Object [f]) = Some ("{"%char :: kt ++ ":"%char :: vt ++ ["}"%char])).
  { destruct f as [n v]. cbn in *. by rewrite to_vec_entry, Hk, Hv. }
  pose proof (to_vec_json _ _ Ht) as Hj. pose proof (to_vec_utf8 _ _ Ht) as Hj8.
  replace (body "{'term':{" ++ kt ++ ":"%char :: vt ++ lit "}}")
    with ("{"%char :: (body "'term'" ++ ":"%char :: ("{"%char :: kt ++ ":"%char :: vt ++ ["}"%char])) ++ ["}"%char])
    by (cbn; by repeat (rewrite <- ?app_assoc; cbn [app])).
  split.
  - apply val_object, members_one, JMember_plain; [|done]. by apply (plain_string (lit "term")).
  - apply utf8_valid_cons; [done|]. apply utf8_valid_app; [|done]. apply utf8_valid_app; [done|].
    by apply utf8_valid_cons.
Qed.

Lemma query_text_json client ts :
  (forall raw, client = Some raw -> JVal rfc_escape raw /\ utf8_valid raw = true) ->
  Forall (fun t => JVal rfc_escape t /\ utf8_valid t = true) ts ->
  JVal rfc_escape (query_text client ts) /\ utf8_valid (query_text client ts) = true.
Proof.
  intros Hc Hts.
  assert (Hj : Forall (JVal rfc_escape) ts) by (eapply Forall_impl; [exact Hts|]; naive_solver).
  assert (Hu : Forall (fun t => utf8_valid t = true) ts) by (eapply Forall_impl; [exact Hts|]; naive_solver).
  assert (Hm : JVal rfc_escape (must_text client) /\ utf8_valid (must_text client) = true).
  { destruct client as [raw|]; cbn [must_text].
    - destruct (Hc raw eq_refl) as [Hr Hr8]. split.
      + apply (JVal_array [raw]). by constructor.
      + apply utf8_valid_cons; [done|]. by apply utf8_valid_app.
    - split; [|done]. apply (JVal_array []). constructor. }
  destruct Hm as [Hm Hm8]. split.
  - replace (query_text client ts) with
      ("{"%char :: (body "'bool'" ++ ":"%char ::
         ("{"%char :: ((body "'must'" ++ ":"%char :: must_text client) ++ ","%char ::
            (body "'filter'" ++ ":"%char :: ("["%char :: join (lit ",") ts ++ ["]"%char]))) ++ ["}"%char]))
         ++ ["}"%char])
      by (unfold query_text; cbn; by repeat (rewrite <- ?app_assoc; cbn [app])).
    apply val_object, members_one, JMember_plain; [by apply (plain_string (lit "bool"))|].
    apply val_object, members_cons; [|apply members_one];
      (apply JMember_plain; [|by try apply JVal_array]).
    + by apply (plain_string (lit "must")).
    + by apply (plain_string (lit "filter")).
  - unfold query_text. repeat apply utf8_valid_app; try done. by apply utf8_join.
Qed.

Lemma build_filtered_query_spec client filter :
  (forall raw, client = Some raw -> JVal rfc_escape raw /\ utf8_valid raw = true) ->
  Forall (fun f => utf8_valid f.1 = true) filter ->
  forall q, build_filtered_query client filter = Ok q ->
  exists ts, Forall2 term_text filter ts /\ q = query_text client ts /\ JVal rfc_escape q.
Proof.
  intros Hc Hf q. unfold build_filtered_query.
  destruct (filter_terms true filter) as [terms|] eqn:Ht; [|done]. cbn [rbind].
  destruct (filter_terms_join _ _ Ht) as (ts & Hts & ->).
  destruct (query_text_json client ts Hc) as [Hj Hu].
  { clear -Hts Hf. induction Hts as [|f t fs ts Ht Hts IH]; [constructor|].
    apply Forall_cons_iff in Hf as [Hf Hfs]. constructor; [by eapply term_text_json|by apply IH]. }
  change (_ ++ _ ++ _ ++ _ ++ _) with (query_text client ts).
  unfold from_utf8. rewrite Hu. cbn [ok_or rbind]. rewrite raw_from_string_total by done.
  intros [= <-]. by exists ts.
Qed.

(** The text a raw map is written as is the object with those members. *)
Lemma written_members e m kts :
  Forall (fun e => utf8_valid e.1 = true /\ JVal rfc_escape e.2) (e :: m) ->
  Forall2 (fun (e : str * bytes) kt => str_to_vec e.1 = Some kt.1 /\ kt.2 = e.2) (e :: m) kts ->
  DMembers (join (lit ",") ((fun kt : bytes * bytes => kt.1 ++ ":"%char :: kt.2) <$> kts)) (e :: m).
Proof.
  revert e kts. induction m as [|e' m IH]; intros [k v] kts [[Hu Hv] Hf]%Forall_cons_iff Hk;
    inversion Hk as [|? [kt t] ? kts' [Hkt Ht] Hk']; subst; cbn [fst snd] in *; subst.
  - inversion Hk'; subst. cbn. apply dmembers_one.
    replace (kt ++ ":"%char :: v) with ([] ++ kt ++ [] ++ ":"%char :: [] ++ v ++ []) by (cbn; by rewrite app_nil_r).
    by constructor; [constructor|apply str_to_vec_json|constructor|constructor|apply JVal_any|constructor].
  - specialize (IH e' kts' Hf Hk'). inversion Hk' as [|? [kt' t'] ? kts'' ? ?]; subst.
    change (DMembers ((kt ++ ":"%char :: v) ++ ","%char ::
      join (lit ",") ((fun kt : bytes * bytes => kt.1 ++ ":"%char :: kt.2) <$> (kt', t') :: kts'')) ((k, v) :: e' :: m)).
    apply dmembers_cons; [|done].
    replace (kt ++ ":"%char :: v) with ([] ++ kt ++ [] ++ ":"%char :: [] ++ v ++ []) by (cbn; by rewrite app_nil_r).
    by constructor; [constructor|apply str_to_vec_json|constructor|constructor|apply JVal_any|constructor].
Qed.

Lemma written_object m t :
  Forall (fun e => utf8_valid e.1 = true /\ JVal rfc_escape e.2) m ->
  raw_object_to_vec m = Some t -> ObjectDoc t m.
Proof.
  intros Hf Ht. destruct (raw_object_to_vec_json _ _ Ht) as (kts & Hk & ->).
  destruct m as [|e m].
  - inversion Hk; subst. exists [], [], []. repeat split; try by constructor. left. by split; [constructor|].
  - eexists [], _, []. split; [reflexivity|].
    split; [constructor|]. split; [|constructor]. right. by apply written_members.
Qed.

Lemma parse_top_spec b top :
  parse_top b = Ok top ->
  sorted top /\ Forall (fun e => utf8_valid e.1 = true /\ JVal rfc_escape e.2 /\ utf8_valid e.2 = true) top.
Proof.
  unfold parse_top. destruct (forallb _ _); [intros [= <-]; by split|].
  destruct (raw_object b) as [m|] eqn:Hm; [|by case_match]. intros [= <-]. by eapply raw_object_json.
Qed.

(** What a partition filter cannot reach is absent. *)
Definition Filterable (top : list (str * bytes)) : Prop :=
  map_get top (lit "suggest") = None
  /\ forall key raw, key = lit "aggs" \/ key = lit "aggregations" -> map_get top key = Some raw ->
     exists v, from_slice raw = Some v /\ ~ HasGlobal v.

Lemma reject_aggs_Ok top keys :
  reject_aggs top keys = Ok tt <->
  forall key raw, key ∈ keys -> map_get top key = Some raw -> exists v, from_slice raw = Some v /\ ~ HasGlobal v.
Proof.
  induction keys as [|k keys IH]; cbn [reject_aggs].
  - split; [|done]. intros _ key raw H. by apply not_elem_of_nil in H.
  - destruct (map_get top k) as [raw|] eqn:Hk.
    + destruct (from_slice raw) as [v|] eqn:Hv; cbn [ok_or rbind].
      2: { split; [done|]. intros H. destruct (H k raw) as (v & Hv' & _); [by left|done|congruence]. }
      destruct (contains_global_agg v) eqn:Hg.
      * split; [done|]. intros H. apply contains_global_agg_spec in Hg.
        destruct (H k raw) as (v' & Hv' & Hng); [by left|done|]. congruence.
      * rewrite IH. assert (~ HasGlobal v) by (rewrite <- contains_global_agg_spec; congruence). split.
        -- intros H' key raw' [->|Hin]%elem_of_cons Hr; [|by eapply H'].
           rewrite Hk in Hr. injection Hr as ->. by exists v.
        -- intros H' key raw' Hin Hr. eapply H'; [by right|done].
    + rewrite IH. split; intros H key raw Hin Hr.
      * apply elem_of_cons in Hin as [->|Hin]; [congruence|by eapply H].
      * eapply H; [by right|done].
Qed.

Lemma reject_unfilterable_Ok top : reject_unfilterable top = Ok tt <-> Filterable top.
Proof.
  unfold reject_unfilterable, Filterable. destruct (contains_key top (lit "suggest")) eqn:Hs.
  - split; [done|]. intros [H _]. apply contains_key_get in Hs. rewrite H in Hs. by destruct Hs.
  - apply contains_key_false in Hs. rewrite reject_aggs_Ok. split.
    + intros H. split; [done|]. intros key raw Hk. apply H. set_solver.
    + intros [_ H] key raw Hk. apply H. set_solver.
Qed.

Lemma sorted_NoDup {V} (m : list (str * V)) : sorted m -> NoDup m.*1.
Proof.
  induction m as [|[k v] m IH]; [constructor|]. intros [Hk Hm]. constructor; [|by apply IH].
  cbn. intros (e & -> & Hin)%list_elem_of_fmap. rewrite Forall_forall in Hk. by apply Hk, str_lt_irrefl in Hin.
Qed.
Lemma wrap_query_spec b filter out :
  utf8_names filter -> wrap_query b filter = Ok out ->
  exists top ts members,
    parse_top b = Ok top /\ Forall2 term_text filter ts
    /\ (filter <> [] -> Filterable top)
    /\ (forall raw, map_get top (lit "query") = Some raw -> JVal rfc_escape raw)
    /\ ObjectDoc out members /\ NoDup members.*1
    /\ forall k, map_get members k =
         if str_eqb (lit "query") k then Some (query_text (map_get top (lit "query")) ts) else map_get top k.
Proof.
  intros Hu. unfold wrap_query. destruct (parse_top b) as [top|] eqn:Htop; [|done]. cbn [rbind].
  destruct (parse_top_spec _ _ Htop) as [Hs Hf].
  destruct (match filter with [] => Ok tt | _ => reject_unfilterable top end) as [u|] eqn:Hr; [|done].
  cbn [rbind].
  assert (Hq : forall raw, map_get top (lit "query") = Some raw -> JVal rfc_escape raw /\ utf8_valid raw = true).
  { intros raw Hraw%map_get_in. rewrite Forall_forall in Hf. by apply Hf in Hraw as (_ & ? & ?). }
  destruct (build_filtered_query _ filter) as [q|] eqn:Hb; [|done]. cbn [rbind].
  destruct (build_filtered_query_spec _ _ Hq Hu q Hb) as (ts & Hts & -> & Hj).
  destruct (raw_object_to_vec _) as [t|] eqn:Ht; [|done]. cbn [ok_or]. intros [= ->].
  exists top, ts. eexists. split; [done|]. split; [done|]. split.
  { intros Hne. apply reject_unfilterable_Ok. destruct filter; [done|]. by destruct u. }
  split; [by intros raw [? _]%Hq|]. split; [|split].
  - eapply written_object; [|exact Ht].
    apply insert_Forall; [by split|]. apply remove_Forall.
    eapply Forall_impl; [exact Hf|]. naive_solver.
  - by apply sorted_NoDup, insert_sorted, remove_sorted.
  - intros k. rewrite map_get_insert. destruct (str_eqb (lit "query") k) eqn:Hk; [done|].
    rewrite map_get_remove by done. by rewrite Hk.
Qed.

(** C38: isolation of searches. If [wrap_query] returns a body, it is one JSON object, no
    member of which is there twice, whose members are the client's, except that [query] is exactly
    [{"bool":{"must":[Q],"filter":[T...]}}]: Q the client's own query, a complete JSON value
    kept byte for byte (or nothing), so it cannot close the clause it is in, and one
    [term] per partition field; and when there is a filter, the body has no [suggest] and no
    [global] aggregation at any depth. *)
Theorem wrap_query_isolates b filter out :
  utf8_names filter -> wrap_query b filter = Ok out ->
  exists top ts members,
    parse_top b = Ok top /\ Forall2 term_text filter ts
    /\ (filter <> [] -> Filterable top)
    /\ (forall raw, map_get top (lit "query") = Some raw -> JVal rfc_escape raw)
    /\ ObjectDoc out members /\ NoDup members.*1
    /\ forall k, map_get members k =
         if str_eqb (lit "query") k then Some (query_text (map_get top (lit "query")) ts) else map_get top k.
Proof. apply wrap_query_spec. Qed.

(** The screen for [global] aggregations finds one exactly when there is one, however
    deeply it is nested under other aggregations. *)
Theorem global_screen_exact v : contains_global_agg v = true <-> HasGlobal v.
Proof. apply contains_global_agg_spec. Qed.
End Query.

(** ** Concrete runs *)
Section Runs.
Example wrap_query_runs :
  @wrap_query (toy_serde []) (body "{'query':{},'size':5}") [(lit "_tenant", String (lit "acme"))]
  = Ok (body "{'query':{'bool':{'must':[{}],'filter':[{'term':{'_tenant':'acme'}}]}},'size':5}").
Proof. vm_compute. reflexivity. Qed.
Example wrap_empty :
  @wrap_query (toy_serde []) [] [(lit "_tenant", String (lit "acme"))]
  = Ok (body "{'query':{'bool':{'must':[],'filter':[{'term':{'_tenant':'acme'}}]}}}").
Proof. vm_compute. reflexivity. Qed.
Example wrap_suggest :
  @wrap_query (toy_serde []) (body "{'suggest':{}}") [(lit "_tenant", String (lit "acme"))]
  = Err (Unfilterable (lit "suggest")).
Proof. vm_compute. reflexivity. Qed.
Example nested_global :
  @contains_global_agg (toy_serde [])
    (Object [(lit "a", Object [(lit "aggs", Object [(lit "g", Object [(lit "global", Object [])])])])]) = true.
Proof. vm_compute. reflexivity. Qed.

Lemma wrap_query_isolates_witness :
  exists top ts members,
    @parse_top (toy_serde []) (body "{'query':{},'size':5}") = Ok top
    /\ Forall2 (@term_text (toy_serde [])) [(lit "_tenant", String (lit "acme"))] ts
    /\ ([(lit "_tenant", String (lit "acme"))] <> ([] : list (str * Value Z)) -> @Filterable (toy_serde []) top)
    /\ (forall raw, map_get top (lit "query") = Some raw -> JVal rfc_escape raw)
    /\ ObjectDoc (body "{'query':{'bool':{'must':[{}],'filter':[{'term':{'_tenant':'acme'}}]}},'size':5}") members
    /\ NoDup members.*1
    /\ forall k, map_get members k =
         if str_eqb (lit "query") k then Some (query_text (map_get top (lit "query")) ts) else map_get top k.
Proof.
  apply (@wrap_query_isolates (toy_serde [])).
  - by repeat constructor.
  - vm_compute. reflexivity.
Defined.
End Runs.
