(* ===== verification/Spi.v ===== *)
(** * The tenancy contract ([crates/osproxy-spi/src])

    The declarative rules, the placements and decisions, the view of a request, the
    errors, and the [TenancySpi] interface an implementer provides. *)
From stdpp Require Import base option list strings numbers sets.
From Stdlib Require Import Ascii ZArith Lia.
From S2P Require Import Prelude.
From S2P Require Import JsonScan.
From S2P Require Import CoreTypes.
From S2P Require Import Serde.

Open Scope osp_scope.

(** ** [rules.rs] *)
Record JsonPath : Type := MkJsonPath { path_str : str }.
Definition segments (p : JsonPath) : list str := split "." (path_str p).

Inductive PartitionKeySpec : Type :=
| BodyField (path : JsonPath)
| Header (name : list ascii)
| PrincipalAttr (name : list ascii)
| AnyOf (specs : list PartitionKeySpec).

Inductive PartitionKeySpecKind : Type :=
| BodyFieldKind
| HeaderKind
| PrincipalAttrKind.
#[export] Instance PartitionKeySpecKind_eq_dec : EqDecision PartitionKeySpecKind.
Proof. solve_decision. Defined.

Record IdTemplate : Type := MkIdTemplate { template_str : str }.
(** [self.0.contains("{partition}")]. *)
Definition references_partition (t : IdTemplate) : bool := contains (lit "{partition}") (template_str t).
Record DocIdRule : Type := MkDocIdRule { template : IdTemplate; set_routing : bool }.
Definition rule_new (t : IdTemplate) : DocIdRule := MkDocIdRule t false.
Definition with_routing (r : DocIdRule) (set_routing : bool) : DocIdRule := MkDocIdRule (template r) set_routing.

(** Which field values observability may capture. *)
Record SensitivitySpec : Type := MkSensitivitySpec { safe_fields : list FieldName; deny_by_default : bool }.
Definition all_sensitive : SensitivitySpec := MkSensitivitySpec [] true.
Definition allowing (safe : list FieldName) : SensitivitySpec := MkSensitivitySpec safe true.
Definition nothing_sensitive : SensitivitySpec := MkSensitivitySpec [] false.
Definition sensitivity_none : SensitivitySpec := nothing_sensitive.
Definition is_sensitive (s : SensitivitySpec) (field : FieldName) : bool :=
  if deny_by_default s then negb (existsb (fun f => str_eqb f field) (safe_fields s)) else false.

Section Rules.
Context {Sd : Serde}.

Inductive InjectedValue : Type :=
| InjPartitionId
| InjConstant (v : value)
| InjFromPrincipal (attr : list ascii)
| InjFromHeader (name : list ascii).
Record InjectedField : Type := MkInjectedField { inj_name : FieldName; inj_value : InjectedValue }.

(** ** [placement.rs] *)
Inductive Placement : Type :=
| DedicatedCluster (cluster : ClusterId)
| DedicatedIndex (cluster : ClusterId) (index : IndexName)
| SharedIndex (cluster : ClusterId) (index : IndexName) (inject : list InjectedField).
Definition placement_cluster (p : Placement) : ClusterId :=
  match p with DedicatedCluster c | DedicatedIndex c _ | SharedIndex c _ _ => c end.

Inductive MigrationPhase : Type :=
| PhaseSettled
| PhaseDraining
| PhaseCutover.
Definition phase_as_str (p : MigrationPhase) : str :=
  match p with
  | PhaseSettled => lit "settled"
  | PhaseDraining => lit "draining"
  | PhaseCutover => lit "cutover"
  end.

Record PlacementAt : Type := MkPlacementAt {
  at_placement : Placement;
  at_epoch : Epoch;
  at_phase : MigrationPhase;
  at_endpoint : option str
}.
Definition placement_at_new (p : Placement) (e : Epoch) : PlacementAt := MkPlacementAt p e PhaseSettled None.
Definition with_phase (a : PlacementAt) (p : MigrationPhase) : PlacementAt :=
  MkPlacementAt (at_placement a) (at_epoch a) p (at_endpoint a).
Definition at_with_endpoint (a : PlacementAt) (e : str) : PlacementAt :=
  MkPlacementAt (at_placement a) (at_epoch a) (at_phase a) (Some e).
End Rules.

(** ** [principal.rs] *)
Record Principal : Type := MkPrincipal { principal_id : PrincipalId; attrs : list (str * str) }.
Definition principal_new (id : PrincipalId) : Principal := MkPrincipal id [].
Definition with_attr (p : Principal) (key v : str) : Principal :=
  MkPrincipal (principal_id p) (attrs p ++ [(key, v)]).
Definition attr (p : Principal) (key : str) : option str :=
  snd <$> List.find (fun a => str_eqb a.1 key) (attrs p).

(** ** [request.rs] *)
Inductive Protocol : Type := Http1 | Http2 | Grpc.
Inductive HttpMethod : Type := Get | Put | Post | DeleteMethod | Head.

(** [HeaderView::get]: the first header of that name, ASCII case ignored. *)
Definition header_get (headers : list (str * str)) (name : str) : option str :=
  snd <$> List.find (fun h => eq_ignore_ascii_case h.1 name) headers.

(** [BodyDoc::scalar] and [BodyDoc::is_empty]. *)
Definition body_scalar `{W : Wide} (bs : bytes) (path : str) : option str :=
  ok (scalar_at_path bs (split "." path)).
Definition body_is_empty (bs : bytes) : bool := match bs with [] => true | _ => false end.

Record RequestCtx : Type := MkRequestCtx {
  ctx_principal : Principal;
  request_id : RequestId;
  ctx_method : HttpMethod;
  ctx_endpoint : EndpointKind;
  ctx_protocol : Protocol;
  logical_index : str;
  doc_id : option str;
  ctx_headers : list (str * str);
  ctx_body : bytes;
  ctx_query : option str;
  ctx_path : str;
  forward_headers : list (str * str)
}.
Definition ctx_new (p : Principal) (rid : RequestId) (m : HttpMethod) (e : EndpointKind) (proto : Protocol)
    (index : str) (headers : list (str * str)) (b : bytes) : RequestCtx :=
  MkRequestCtx p rid m e proto index None headers b None [] [].

(** ** [error.rs] *)
Inductive SpiError : Type :=
| SpiPartitionUnresolved (tried : list PartitionKeySpecKind)
| SpiPlacementMissing (partition : PartitionId)
| SpiPlacementBackend (retryable : bool)
| SpiUnsupportedEndpoint (endpoint : EndpointKind)
| SpiPrincipalAttrMissing (attr : list ascii)
| SpiHeaderMissing (header : list ascii)
| SpiIdRuleMissingPartition.
Definition spi_code (e : SpiError) : ErrorCode :=
  match e with
  | SpiPartitionUnresolved _ => PartitionUnresolved
  | SpiPlacementMissing _ => PlacementMissing
  | SpiPlacementBackend _ => PlacementBackendUnavailable
  | SpiUnsupportedEndpoint _ | SpiIdRuleMissingPartition
  | SpiPrincipalAttrMissing _ | SpiHeaderMissing _ => UnsupportedEndpoint
  end.
Definition spi_retryable (e : SpiError) : bool :=
  match e with SpiPlacementBackend true => true | _ => false end.

(** ** [auth.rs] *)
Record ClientCredentials : Type := MkClientCredentials {
  bearer_token : option str;
  client_cert_subject : option str
}.
Definition creds_bearer (token : str) : ClientCredentials := MkClientCredentials (Some token) None.
Definition creds_is_empty (c : ClientCredentials) : bool :=
  match bearer_token c, client_cert_subject c with None, None => true | _, _ => false end.
Inductive AuthError : Type := MissingCredentials | InvalidCredentials | AuthUnauthorized.
Definition auth_code (e : AuthError) : ErrorCode :=
  match e with MissingCredentials | InvalidCredentials => AuthFailed | AuthUnauthorized => Unauthorized end.
Definition http_status (e : AuthError) : Z :=
  match e with MissingCredentials | InvalidCredentials => 401 | AuthUnauthorized => 403 end.

Section Decisions.
Context {Sd : Serde}.

(** ** [decision.rs] *)
Inductive HeaderOp : Type :=
| AddHeader (name v : list ascii)
| RemoveHeader (name : list ascii)
| ReplaceHeader (name v : list ascii).
Inductive BodyTransform : Type :=
| TransformNone
| Inject (fields : list InjectedField)
| ConstructId (rule : DocIdRule)
| Both (inject : list InjectedField) (id : DocIdRule).
Definition transform_is_none (t : BodyTransform) : bool :=
  match t with TransformNone => true | _ => false end.

Record RouteDecision : Type := MkRouteDecision {
  target : Target;
  upstream_protocol : Protocol;
  header_ops : list HeaderOp;
  body_transform : BodyTransform;
  epoch : Epoch
}.
Definition passthrough (t : Target) (p : Protocol) (e : Epoch) : RouteDecision :=
  MkRouteDecision t p [] TransformNone e.
Definition with_body_transform (d : RouteDecision) (t : BodyTransform) : RouteDecision :=
  MkRouteDecision (target d) (upstream_protocol d) (header_ops d) t (epoch d).

(** ** [tenancy.rs]: the trait, with the methods that have a default taking the
    implementer's choice. *)
Class TenancySpi := {
  resolve_partition : RequestCtx -> bytes -> Result PartitionId SpiError;
  doc_id_rule : option DocIdRule;
  injected_fields : list InjectedField;
  sensitive_fields : SensitivitySpec;
  placement_for : PartitionId -> Result PlacementAt SpiError;
  spi_admit_write : PartitionId -> Epoch -> bool;
  cluster_endpoint : ClusterId -> option str;
  routing_hint : PartitionId -> option str;
  upstream_credentials : ClusterId -> option UpstreamCredentials
}.
(** The trait's default bodies. *)
Definition default_sensitive_fields : SensitivitySpec := all_sensitive.
Definition default_admit_write (_ : PartitionId) (_ : Epoch) : bool := true.
Definition default_cluster_endpoint (_ : ClusterId) : option str := None.
Definition default_routing_hint (_ : PartitionId) : option str := None.
Definition default_upstream_credentials (_ : ClusterId) : option UpstreamCredentials := None.
End Decisions.

(** ** Properties *)
Lemma header_get_spec headers name v :
  header_get headers name = Some v <->
  exists l1 k l2, headers = l1 ++ (k, v) :: l2 /\ eq_ignore_ascii_case k name = true
    /\ Forall (fun h => eq_ignore_ascii_case h.1 name = false) l1.
Proof.
  unfold header_get. induction headers as [|[k w] headers IH]; cbn.
  - split; [done|]. by intros ([|? ?] & ? & ? & [=] & _).
  - destruct (eq_ignore_ascii_case k name) eqn:Hk; cbn.
    + split.
      * intros [= ->]. exists [], k, headers. by repeat constructor.
      * intros ([|h l1] & k' & l2 & Heq & Hk' & Hl); injection Heq; intros; subst; [done|].
        apply Forall_cons_iff in Hl as [Hh _]. cbn in Hh. congruence.
    + rewrite IH. split.
      * intros (l1 & k' & l2 & -> & Hk' & Hl). exists ((k, w) :: l1), k', l2. by repeat constructor.
      * intros ([|h l1] & k' & l2 & Heq & Hk' & Hl).
        { injection Heq; intros; subst. congruence. }
        injection Heq; intros; subst. apply Forall_cons_iff in Hl as [_ Hl]. by exists l1, k', l2.
Qed.

(** Deny by default. A field's value may be captured only if the spec says nothing is
    sensitive or lists that very field as safe; the default spec, the trait's default and a
    spec allowing no field capture nothing. *)
Theorem sensitivity_denies_by_default s f :
  (is_sensitive s f = false <-> deny_by_default s = false \/ f ∈ safe_fields s)
  /\ is_sensitive all_sensitive f = true
  /\ is_sensitive default_sensitive_fields f = true
  /\ (forall safe, is_sensitive (allowing safe) f = false <-> f ∈ safe).
Proof.
  assert (H : forall s, is_sensitive s f = false <-> deny_by_default s = false \/ f ∈ safe_fields s).
  { clear. intros [safe []]; unfold is_sensitive; cbn; [|by split; [left|]].
    rewrite negb_false_iff, existsb_exists. split.
    - intros (g & Hg & ->%str_eqb_eq). right. by apply list_elem_of_In.
    - intros [?|Hf]; [done|]. exists f. split; [by apply list_elem_of_In|apply str_eqb_refl]. }
  split; [apply H|]. split; [done|]. split; [done|]. intros safe. rewrite H. cbn. naive_solver.
Qed.
