(* ===== verification/Tenancy.v ===== *)
(** * From tenancy rules to a routing decision ([crates/osproxy-tenancy/src]: resolve, router)

    Resolving the partition of a request, and turning its placement into the target and
    the body transform. *)
From stdpp Require Import base option list strings numbers sets.
From Stdlib Require Import Ascii ZArith Lia.
From S2P Require Import Prelude.
From S2P Require Import JsonScan.
From S2P Require Import CoreTypes.
From S2P Require Import Serde.
From S2P Require Import JsonProps.
From S2P Require Import ToySerde.
From S2P Require Import DocId.
From S2P Require Import Spi.

Open Scope osp_scope.

(** ** [resolve.rs] *)
Section Resolve.
Context {W : Wide}.

(** [tried] is the vector the function pushes to. *)
Fixpoint try_spec (spec : PartitionKeySpec) (ctx : RequestCtx) (b : bytes) (tried : list PartitionKeySpecKind)
    : option str * list PartitionKeySpecKind :=
  match spec with
  | BodyField path => (body_scalar b (path_str path), tried ++ [BodyFieldKind])
  | Header name => (header_get (ctx_headers ctx) name, tried ++ [HeaderKind])
  | PrincipalAttr name => (attr (ctx_principal ctx) name, tried ++ [PrincipalAttrKind])
  | AnyOf specs =>
      (fix find_map (specs : list PartitionKeySpec) (tried : list PartitionKeySpecKind) :=
         match specs with
         | [] => (None, tried)
         | inner :: specs =>
             match try_spec inner ctx b tried with
             | (Some id, tried) => (Some id, tried)
             | (None, tried) => find_map specs tried
             end
         end) specs tried
  end.
Definition resolve_partition_spec (spec : PartitionKeySpec) (ctx : RequestCtx) (b : bytes)
    : Result PartitionId SpiError :=
  match try_spec spec ctx b [] with
  | (Some id, _) => Ok id
  | (None, tried) => Err (SpiPartitionUnresolved tried)
  end.

(** The sources of a spec in the order it names them. *)
Fixpoint leaves (spec : PartitionKeySpec) : list PartitionKeySpec :=
  match spec with
  | AnyOf specs => (fix go specs := match specs with [] => [] | s :: specs => leaves s ++ go specs end) specs
  | _ => [spec]
  end.
Definition leaf_kind (spec : PartitionKeySpec) : PartitionKeySpecKind :=
  match spec with BodyField _ => BodyFieldKind | Header _ => HeaderKind | _ => PrincipalAttrKind end.
Definition leaf_value (ctx : RequestCtx) (b : bytes) (spec : PartitionKeySpec) : option str :=
  match spec with
  | BodyField path => body_scalar b (path_str path)
  | Header name => header_get (ctx_headers ctx) name
  | PrincipalAttr name => attr (ctx_principal ctx) name
  | AnyOf _ => None
  end.
Fixpoint first_value {A B} (f : A -> option B) (l : list A) : option B :=
  match l with [] => None | x :: l => match f x with Some y => Some y | None => first_value f l end end.

Lemma first_value_app {A B} (f : A -> option B) l1 l2 :
  first_value f (l1 ++ l2) = match first_value f l1 with Some y => Some y | None => first_value f l2 end.
Proof. induction l1 as [|x l1 IH]; cbn; [done|]. by destruct (f x). Qed.

Lemma try_spec_spec spec ctx b tried :
  (try_spec spec ctx b tried).1 = first_value (leaf_value ctx b) (leaves spec)
  /\ ((try_spec spec ctx b tried).1 = None -> (try_spec spec ctx b tried).2 = tried ++ (leaf_kind <$> leaves spec)).
Proof.
  revert spec tried. fix IH 1. intros [path|name|name|specs] tried; cbn [try_spec leaves].
  1-3: cbn; split; [by case_match|done].
  revert tried. induction specs as [|s specs IHs]; intros tried.
  - cbn. split; [done|]. by rewrite app_nil_r.
  - destruct (IH s tried) as [H1 H2]. rewrite first_value_app, <- H1.
    destruct (try_spec s ctx b tried) as [[id|] tried'] eqn:Ht; cbn [fst snd] in *; [done|].
    destruct (IHs tried') as [H3 H4]. split; [done|]. intros Hn. rewrite (H4 Hn), H2 by done.
    by rewrite fmap_app, <- app_assoc.
Qed.

(** The partition is the value of the first source, in the order the spec names them
    and through any nesting of [AnyOf], that yields one; if none does, the error lists the
    kinds of all the sources, in that order, and nothing else. *)
Theorem resolve_partition_first_source spec ctx b :
  resolve_partition_spec spec ctx b
  = match first_value (leaf_value ctx b) (leaves spec) with
    | Some id => Ok id
    | None => Err (SpiPartitionUnresolved (leaf_kind <$> leaves spec))
    end.
Proof.
  unfold resolve_partition_spec. destruct (try_spec_spec spec ctx b []) as [H1 H2].
  rewrite <- H1. destruct (try_spec spec ctx b []) as [[id|] tried]; cbn in *; [done|].
  by rewrite (H2 eq_refl).
Qed.
End Resolve.

(** ** [router.rs] *)
Section Router.
Context {Sd : Serde} {T : TenancySpi}.

Record Resolved : Type := MkResolved {
  r_partition : PartitionId;
  r_decision : RouteDecision;
  r_migration : MigrationPhase;
  r_routing_hint : option str
}.

Definition target_for (p : Placement) (logical_index : str) : Target :=
  match p with
  | DedicatedCluster c => target_new c logical_index
  | DedicatedIndex c i | SharedIndex c i _ => target_new c i
  end.

Definition resolve_inject_one (ctx : RequestCtx) (f : InjectedField) : Result InjectedField SpiError :=
  match inj_value f with
  | InjPartitionId => Ok f
  | InjConstant v => Ok (MkInjectedField (inj_name f) (InjConstant v))
  | InjFromPrincipal a =>
      let? v := ok_or (attr (ctx_principal ctx) a) (SpiPrincipalAttrMissing a) in
      Ok (MkInjectedField (inj_name f) (InjConstant (String v)))
  | InjFromHeader name =>
      let? v := ok_or (header_get (ctx_headers ctx) name) (SpiHeaderMissing name) in
      Ok (MkInjectedField (inj_name f) (InjConstant (String v)))
  end.
Definition resolve_inject (fields : list InjectedField) (ctx : RequestCtx)
    : Result (list InjectedField) SpiError :=
  collect (resolve_inject_one ctx) fields.

Definition build_transform (p : Placement) (ctx : RequestCtx) : Result BodyTransform SpiError :=
  let? inject := (match p with
                  | SharedIndex _ _ inject => resolve_inject inject ctx
                  | DedicatedCluster _ | DedicatedIndex _ _ => Ok []
                  end) in
  let id_rule := doc_id_rule in
  let? _ := (match p with
             | SharedIndex _ _ _ =>
                 let partition_scoped :=
                   match id_rule with Some rule => references_partition (template rule) | None => false end in
                 if negb partition_scoped then Err SpiIdRuleMissingPartition else Ok tt
             | _ => Ok tt
             end) in
  Ok (match inject, id_rule with
      | [], None => TransformNone
      | _ :: _, None => Inject inject
      | [], Some id => ConstructId id
      | _ :: _, Some id => Both inject id
      end).

Definition resolve_placement (ctx : RequestCtx) (partition : PartitionId) (logical_index : str)
    : Result Resolved SpiError :=
  let? at_ := placement_for partition in
  let tgt := with_credentials (with_endpoint (target_for (at_placement at_) logical_index) (at_endpoint at_))
               (upstream_credentials (placement_cluster (at_placement at_))) in
  let? tr := build_transform (at_placement at_) ctx in
  let decision := MkRouteDecision tgt (ctx_protocol ctx) [] tr (at_epoch at_) in
  Ok (MkResolved partition decision (at_phase at_) (routing_hint partition)).

Definition resolve (ctx : RequestCtx) : Result Resolved SpiError :=
  if negb (is_tenancy_aware (ctx_endpoint ctx)) then Err (SpiUnsupportedEndpoint (ctx_endpoint ctx))
  else
    let? partition := resolve_partition ctx (ctx_body ctx) in
    resolve_placement ctx partition (logical_index ctx).
Definition route (ctx : RequestCtx) : Result RouteDecision SpiError :=
  let? r := resolve ctx in Ok (r_decision r).
Definition router_admit_write (partition : PartitionId) (e : Epoch) : bool := spi_admit_write partition e.

(** The fields of a transform. *)
Definition transform_fields (t : BodyTransform) : list InjectedField :=
  match t with Inject fs | Both fs _ => fs | _ => [] end.
Definition transform_rule (t : BodyTransform) : option DocIdRule :=
  match t with ConstructId r | Both _ r => Some r | _ => None end.

(** A field whose value no longer depends on the request. *)
Definition settled (f : InjectedField) : Prop :=
  match inj_value f with InjPartitionId | InjConstant _ => True | _ => False end.

Lemma collect_Ok {A B E} (f : A -> Result B E) l ys :
  collect f l = Ok ys <-> Forall2 (fun x y => f x = Ok y) l ys.
Proof.
  revert ys. induction l as [|x l IH]; intros ys; cbn.
  - split; [intros [= <-]; constructor|]. by inversion 1.
  - destruct (f x) as [y|e] eqn:Hx; cbn.
    + destruct (collect f l) as [zs|e] eqn:Hl; cbn.
      * split; [intros [= <-]; constructor; [done|by apply IH]|].
        inversion 1 as [|? ? ? ? Hy Hys]; subst. apply IH in Hys. congruence.
      * split; [done|]. inversion 1 as [|? ? ? ? Hy Hys]; subst. apply IH in Hys. done.
    + split; [done|]. inversion 1; subst; congruence.
Qed.

Lemma resolve_inject_settled fields ctx fs :
  resolve_inject fields ctx = Ok fs ->
  Forall settled fs /\ inj_name <$> fs = inj_name <$> fields
  /\ Forall2 (fun f g => inj_value f = InjPartitionId <-> inj_value g = InjPartitionId) fields fs.
Proof.
  unfold resolve_inject. rewrite collect_Ok. induction 1 as [|f g fields fs Hf Hfs (IH1 & IH2 & IH3)]; [done|].
  assert (Hg : settled g /\ inj_name g = inj_name f /\ (inj_value f = InjPartitionId <-> inj_value g = InjPartitionId)).
  { destruct f as [n v]. unfold resolve_inject_one in Hf. cbn [inj_value inj_name] in Hf.
    destruct v as [|v|a|h]; [by injection Hf as <-|by injection Hf as <-|..].
    - destruct (attr _ a); [|done]. by injection Hf as <-.
    - destruct (header_get _ h); [|done]. by injection Hf as <-. }
  destruct Hg as (? & Hn & ?). split; [by constructor|]. split; [|by constructor].
  rewrite !fmap_cons. by rewrite Hn, IH2.
Qed.

Lemma build_transform_Ok p ctx t :
  build_transform p ctx = Ok t ->
  transform_rule t = doc_id_rule
  /\ match p with
     | SharedIndex _ _ inject => resolve_inject inject ctx = Ok (transform_fields t)
         /\ exists r, doc_id_rule = Some r /\ references_partition (template r) = true
     | _ => transform_fields t = []
     end.
Proof.
  unfold build_transform. destruct p as [c|c i|c i inject]; cbn [rbind].
  - destruct doc_id_rule; by intros [= <-].
  - destruct doc_id_rule; by intros [= <-].
  - destruct (resolve_inject inject ctx) as [fs|]; [|done]. cbn [rbind].
    destruct doc_id_rule as [r|] eqn:Hr; [|done].
    destruct (references_partition (template r)) eqn:Hp; [|done]. cbn [negb rbind].
    destruct fs; intros [= <-]; cbn; eauto.
Qed.

(** What a resolved request is made of. *)
Lemma resolve_Ok ctx r :
  resolve ctx = Ok r ->
  is_tenancy_aware (ctx_endpoint ctx) = true
  /\ resolve_partition ctx (ctx_body ctx) = Ok (r_partition r)
  /\ exists a t, placement_for (r_partition r) = Ok a /\ build_transform (at_placement a) ctx = Ok t
     /\ r = MkResolved (r_partition r)
              (MkRouteDecision
                 (with_credentials (with_endpoint (target_for (at_placement a) (logical_index ctx)) (at_endpoint a))
                    (upstream_credentials (placement_cluster (at_placement a))))
                 (ctx_protocol ctx) [] t (at_epoch a)) (at_phase a) (routing_hint (r_partition r)).
Proof.
  unfold resolve. destruct (is_tenancy_aware _); [|done]. cbn [negb].
  destruct (resolve_partition ctx (ctx_body ctx)) as [p|]; [|done]. cbn [rbind].
  unfold resolve_placement. destruct (placement_for p) as [a|] eqn:Ha; [|done]. cbn [rbind].
  destruct (build_transform (at_placement a) ctx) as [t|] eqn:Ht; [|done]. cbn [rbind].
  intros [= <-]. cbn. do 2 (split; [done|]). by exists a, t.
Qed.

(** a request the router resolves went to a tenancy-aware endpoint and carries the
    partition its SPI named; the target is the placement's one cluster and index (the
    logical index on a dedicated cluster), stamped with the placement's epoch; every
    injected field is by then a constant or the partition, in the declared order; and on a
    shared index there is an id rule, whose template contains the partition placeholder's
    text. *)
Theorem resolved_request_is_routed_by_placement ctx r :
  resolve ctx = Ok r ->
  is_tenancy_aware (ctx_endpoint ctx) = true
  /\ resolve_partition ctx (ctx_body ctx) = Ok (r_partition r)
  /\ exists a, placement_for (r_partition r) = Ok a
     /\ target (r_decision r) ≡ target_for (at_placement a) (logical_index ctx)
     /\ endpoint (target (r_decision r)) = at_endpoint a
     /\ epoch (r_decision r) = at_epoch a /\ r_migration r = at_phase a
     /\ Forall settled (transform_fields (body_transform (r_decision r)))
     /\ match at_placement a with
        | SharedIndex _ _ inject =>
            inj_name <$> transform_fields (body_transform (r_decision r)) = inj_name <$> inject
            /\ exists rule, transform_rule (body_transform (r_decision r)) = Some rule
               /\ references_partition (template rule) = true
        | _ => transform_fields (body_transform (r_decision r)) = []
        end.
Proof.
  intros (Haware & Hp & a & t & Ha & Ht & ->)%resolve_Ok. cbn in *. do 2 (split; [done|]).
  exists a. do 5 (split; [done|]).
  apply build_transform_Ok in Ht as [Hr Ht]. destruct (at_placement a) as [c|c i|c i inject]; cbn in *.
  - by rewrite Ht.
  - by rewrite Ht.
  - destruct Ht as (Hi & rule & Hrule & Href). apply resolve_inject_settled in Hi as (H1 & H2 & _).
    split; [done|]. split; [done|]. exists rule. by rewrite Hr.
Qed.
End Router.

(** ** The partition-in-id check *)

(** A template the check accepts although no placeholder of it is the partition: the inner
    brace is part of a body path. *)
Definition nested_template : IdTemplate := MkIdTemplate (lit "{body.{partition}").

(** The check that a shared index's id rule references the partition looks for the
    text [{partition}] and not for the placeholder: it accepts a template whose ids do not
    depend on the partition at all, so two tenants' documents with the same key get the same
    physical id. *)
Theorem partition_check_is_textual rb :
  references_partition nested_template = true
  /\ forall p1 p2, construct_id_with (template_str nested_template) p1 rb
                 = construct_id_with (template_str nested_template) p2 rb.
Proof.
  split; [reflexivity|]. intros p1 p2. rewrite !construct_id_with_spec.
  by replace (parse_template (template_str nested_template))
    with ([Lit []; Body (lit "{partition")], Complete []) by reflexivity.
Qed.

Section Runs.
Definition sample_ctx : RequestCtx :=
  ctx_new (principal_new (lit "svc")) (lit "r1") Put IngestDoc Http1 (lit "orders")
    [(lit "X-Tenant", lit "acme"); (lit "x-region", lit "eu")] (body "{'tenant_id':'globex'}").

Example resolve_any_of :
  resolve_partition_spec
    (AnyOf [PrincipalAttr (lit "tenant"); AnyOf [BodyField (MkJsonPath (lit "tenant_id"))]; Header (lit "x-tenant")])
    sample_ctx (ctx_body sample_ctx) = Ok (lit "globex").
Proof. vm_compute. reflexivity. Qed.
Example resolve_none :
  resolve_partition_spec (AnyOf [PrincipalAttr (lit "tenant"); BodyField (MkJsonPath (lit "nope"))])
    sample_ctx (ctx_body sample_ctx)
  = Err (SpiPartitionUnresolved [PrincipalAttrKind; BodyFieldKind]).
Proof. vm_compute. reflexivity. Qed.

(** A tenancy that keys on a header and shares one index. *)
Definition toy_tenancy : @TenancySpi (toy_serde []) := {|
  resolve_partition ctx b := resolve_partition_spec (Header (lit "x-tenant")) ctx b;
  doc_id_rule := Some (MkDocIdRule (MkIdTemplate recommended) true);
  injected_fields := [];
  sensitive_fields := default_sensitive_fields;
  placement_for p := Ok (placement_at_new (@SharedIndex (toy_serde []) (lit "eu-1") (lit "shared")
    [@MkInjectedField (toy_serde []) (lit "_tenant") InjPartitionId;
     @MkInjectedField (toy_serde []) (lit "_region") (InjFromHeader (lit "X-Region"))]) (MkEpoch 7));
  spi_admit_write := default_admit_write;
  cluster_endpoint := default_cluster_endpoint;
  routing_hint := default_routing_hint;
  upstream_credentials := default_upstream_credentials
|}.
Definition sample_resolved : @Resolved (toy_serde []) :=
  @MkResolved (toy_serde []) (lit "acme")
    (@MkRouteDecision (toy_serde []) (target_new (lit "eu-1") (lit "shared")) Http1 []
      (@Both (toy_serde [])
        [@MkInjectedField (toy_serde []) (lit "_tenant") InjPartitionId;
         @MkInjectedField (toy_serde []) (lit "_region") (@InjConstant (toy_serde []) (String (lit "eu")))]
        (MkDocIdRule (MkIdTemplate recommended) true)) (MkEpoch 7))
    PhaseSettled None.

Lemma resolved_request_is_routed_by_placement_witness :
  @resolve (toy_serde []) toy_tenancy sample_ctx = Ok sample_resolved
  /\ is_tenancy_aware (ctx_endpoint sample_ctx) = true.
Proof.
  assert (H : @resolve (toy_serde []) toy_tenancy sample_ctx = Ok sample_resolved) by reflexivity.
  split; [exact H|].
  exact (proj1 (@resolved_request_is_routed_by_placement (toy_serde []) toy_tenancy sample_ctx sample_resolved H)).
Defined.
End Runs.
