(* ===== verification/PlacementTable.v ===== *)
(** * The placement table and live migration ([crates/osproxy-tenancy/src]: migration, placement_table)

    An epoch-stamped map from partitions to placements, each carrying the migration
    state machine, shared by threads behind a lock and an atomic counter. *)
From stdpp Require Import base option list strings numbers sets gmap relations.
From Stdlib Require Import Ascii ZArith Lia.
From S2P Require Import Prelude.
From S2P Require Import CoreTypes.
From S2P Require Import Serde.
From S2P Require Import ToySerde.
From S2P Require Import Spi.

Open Scope osp_scope.

Inductive Phase : Type := Draining | Cutover.
#[export] Instance Phase_eq_dec : EqDecision Phase.
Proof. solve_decision. Defined.

Inductive WriteAdmission : Type := Admit | Reject.

Inductive MigrationError : Type :=
| UnknownPartition
| AlreadyMigrating
| NotMigrating
| NotDraining
| NotCutover
| Backend (reason : list ascii).
#[export] Instance MigrationError_eq_dec : EqDecision MigrationError.
Proof. solve_decision. Defined.

Section Table.
Context {Sd : Serde}.

(** ** [migration.rs] *)
Inductive PartitionState : Type :=
| Active (p : Placement)
| Migrating (from to : Placement) (phase : Phase).

Definition read_placement (s : PartitionState) : Placement :=
  match s with Active p | Migrating p _ _ => p end.
Definition write_placement (s : PartitionState) : option Placement :=
  match s with
  | Active p | Migrating p _ Draining => Some p
  | Migrating _ _ Cutover => None
  end.
Definition is_migrating (s : PartitionState) : bool := match s with Migrating _ _ _ => true | _ => false end.

(** ** [placement_table.rs] *)
Definition migration_phase (s : PartitionState) : MigrationPhase :=
  match s with
  | Active _ => PhaseSettled
  | Migrating _ _ Draining => PhaseDraining
  | Migrating _ _ Cutover => PhaseCutover
  end.

Record Entry : Type := MkEntry { e_state : PartitionState; e_epoch : Epoch }.
(** The map behind the lock and the generation counter, a [u64]. *)
Record PlacementTable : Type := MkTable { entries : gmap (list ascii) Entry; generation : Z }.
Definition table_new : PlacementTable := MkTable ∅ 0.

(** [fetch_add(1) + 1]: the new epoch and the counter after it, wrapping. *)
Definition next_epoch (t : PlacementTable) : Epoch * PlacementTable :=
  let g := u64_wrap (generation t + 1) in (MkEpoch g, MkTable (entries t) g).
Definition insert_entry (t : PlacementTable) (p : PartitionId) (e : Entry) : PlacementTable :=
  MkTable (<[p := e]> (entries t)) (generation t).

(** [set] takes its epoch before it takes the lock: two atomic steps. *)
Definition set (t : PlacementTable) (p : PartitionId) (pl : Placement) : Epoch * PlacementTable :=
  let '(e, t) := next_epoch t in (e, insert_entry t p (MkEntry (Active pl) e)).

(** [transition]: look up, map the state, stamp, replace, all under the write lock. *)
Definition transition (t : PlacementTable) (p : PartitionId)
    (f : PartitionState -> Result PartitionState MigrationError) : Result Epoch MigrationError * PlacementTable :=
  match entries t !! p with
  | None => (Err UnknownPartition, t)
  | Some current =>
      match f (e_state current) with
      | Err e => (Err e, t)
      | Ok next => let '(e, t) := next_epoch t in (Ok e, insert_entry t p (MkEntry next e))
      end
  end.

Definition begin_f (to : Placement) (s : PartitionState) : Result PartitionState MigrationError :=
  match s with
  | Active from => Ok (Migrating from to Draining)
  | Migrating _ _ _ => Err AlreadyMigrating
  end.
Definition cutover_f (s : PartitionState) : Result PartitionState MigrationError :=
  match s with
  | Migrating from to Draining => Ok (Migrating from to Cutover)
  | Migrating _ _ _ => Err NotDraining
  | Active _ => Err NotMigrating
  end.
Definition complete_f (s : PartitionState) : Result PartitionState MigrationError :=
  match s with
  | Migrating _ to Cutover => Ok (Active to)
  | Migrating _ _ _ => Err NotCutover
  | Active _ => Err NotMigrating
  end.
Definition abort_f (s : PartitionState) : Result PartitionState MigrationError :=
  match s with
  | Migrating from _ _ => Ok (Active from)
  | Active _ => Err NotMigrating
  end.
Definition begin_migration (t : PlacementTable) (p : PartitionId) (to : Placement) := transition t p (begin_f to).
Definition enter_cutover (t : PlacementTable) (p : PartitionId) := transition t p cutover_f.
Definition complete_migration (t : PlacementTable) (p : PartitionId) := transition t p complete_f.
Definition abort_migration (t : PlacementTable) (p : PartitionId) := transition t p abort_f.

Definition state (t : PlacementTable) (p : PartitionId) : option (PartitionState * Epoch) :=
  (fun e => (e_state e, e_epoch e)) <$> entries t !! p.
Definition get (t : PlacementTable) (p : PartitionId) : option PlacementAt :=
  (fun e => with_phase (placement_at_new (read_placement (e_state e)) (e_epoch e)) (migration_phase (e_state e)))
    <$> entries t !! p.
Definition admit_write (t : PlacementTable) (p : PartitionId) (e : Epoch) : WriteAdmission :=
  let admits := match entries t !! p with
               | Some en => match write_placement (e_state en) with
                            | Some _ => bool_decide (e_epoch en = e)
                            | None => false
                            end
               | None => false
               end in
  if admits then Admit else Reject.
Definition current_epoch (t : PlacementTable) : Epoch := MkEpoch (generation t).

(** ** The migration protocol, abstractly *)
Inductive MigAction : Type := Begin (to : Placement) | EnterCutover | Complete | Abort.
Inductive mig_step : PartitionState -> MigAction -> PartitionState -> Prop :=
| mig_begin from to : mig_step (Active from) (Begin to) (Migrating from to Draining)
| mig_cutover from to : mig_step (Migrating from to Draining) EnterCutover (Migrating from to Cutover)
| mig_complete from to : mig_step (Migrating from to Cutover) Complete (Active to)
| mig_abort from to ph : mig_step (Migrating from to ph) Abort (Active from).
Definition run_action (t : PlacementTable) (p : PartitionId) (a : MigAction) : Result Epoch MigrationError * PlacementTable :=
  match a with
  | Begin to => begin_migration t p to
  | EnterCutover => enter_cutover t p
  | Complete => complete_migration t p
  | Abort => abort_migration t p
  end.
Definition action_f (a : MigAction) : PartitionState -> Result PartitionState MigrationError :=
  match a with Begin to => begin_f to | EnterCutover => cutover_f | Complete => complete_f | Abort => abort_f end.

Lemma run_action_transition t p a : run_action t p a = transition t p (action_f a).
Proof. by destruct a. Qed.
Lemma action_f_step s a s' : action_f a s = Ok s' <-> mig_step s a s'.
Proof.
  split.
  - destruct a, s as [?|? ? []]; cbn; intros [= <-]; constructor.
  - by destruct 1; cbn; try destruct ph.
Qed.

(** The four operations implement the migration protocol. An operation succeeds
    exactly when the protocol has that step from the partition's state; it then leaves the
    partition in the step's result, stamped with the epoch it returns, and no other
    partition is touched; on any error the whole table is unchanged. *)
Theorem operations_implement_protocol t p a :
  match run_action t p a with
  | (Ok e, t') => exists s s', fst <$> state t p = Some s /\ mig_step s a s'
      /\ state t' p = Some (s', e) /\ e = current_epoch t'
      /\ forall q, q <> p -> state t' q = state t q
  | (Err err, t') => t' = t
      /\ forall s, fst <$> state t p = Some s -> forall s', ~ mig_step s a s'
  end.
Proof.
  rewrite run_action_transition. unfold transition, state.
  destruct (entries t !! p) as [en|] eqn:Hp; cbn; [|done].
  destruct (action_f a (e_state en)) as [s'|err] eqn:Hf; cbn.
  - exists (e_state en), s'. split; [done|]. split; [by apply action_f_step|].
    rewrite lookup_insert_eq. cbn. split; [done|]. split; [done|].
    intros q Hq. by rewrite lookup_insert_ne.
  - split; [done|]. intros s [= <-] s' Hs%action_f_step. congruence.
Qed.

(** ** Interleavings

    Threads call the table concurrently: a [set] may have its epoch and not yet the lock,
    everything else is atomic. *)
Record System : Type := MkSystem { table : PlacementTable; pending : list (PartitionId * Placement * Epoch) }.
Definition system_new : System := MkSystem table_new [].

Inductive step : System -> System -> Prop :=
| step_set_alloc t ps p pl e t' : next_epoch t = (e, t') -> step (MkSystem t ps) (MkSystem t' ((p, pl, e) :: ps))
| step_set_insert t ps1 ps2 p pl e :
    step (MkSystem t (ps1 ++ (p, pl, e) :: ps2)) (MkSystem (insert_entry t p (MkEntry (Active pl) e)) (ps1 ++ ps2))
| step_action t ps p a r t' : run_action t p a = (r, t') -> step (MkSystem t ps) (MkSystem t' ps).

(** Every epoch was allocated, and belongs to one entry or one pending [set]. *)
Record inv (s : System) : Prop := {
  inv_gen : (0 <= generation (table s))%Z;
  inv_entries p e : entries (table s) !! p = Some e -> (1 <= CoreTypes.get (e_epoch e) <= generation (table s))%Z;
  inv_pending e : e ∈ (pending s).*2 -> (1 <= CoreTypes.get e <= generation (table s))%Z;
  inv_fresh p e : entries (table s) !! p = Some e -> e_epoch e ∉ (pending s).*2;
  inv_nodup : NoDup (pending s).*2
}.

Lemma next_epoch_small t e t' :
  next_epoch t = (e, t') -> (0 <= generation t < u64_max)%Z ->
  e = MkEpoch (generation t + 1) /\ generation t' = (generation t + 1)%Z /\ entries t' = entries t.
Proof.
  unfold next_epoch, u64_wrap, u64_max. intros [= <- <-] H. rewrite Z.mod_small by lia. done.
Qed.

Lemma inv_new : inv system_new.
Proof.
  split; cbn; try done.
  - intros e He. by apply not_elem_of_nil in He.
  - constructor.
Qed.

(** An entry stamped with the epoch just allocated. *)
Lemma inv_stamp t ps p st :
  inv (MkSystem t ps) -> (generation t < u64_max)%Z ->
  inv (MkSystem (insert_entry (next_epoch t).2 p (MkEntry st (next_epoch t).1)) ps).
Proof.
  intros [Hg He Hp Hf Hn] Hmax. cbn [table pending] in *.
  destruct (next_epoch_small t _ _ (surjective_pairing _)) as (He' & Hg' & Ht'); [lia|].
  split; cbn [table pending insert_entry entries generation]; rewrite ?Hg', ?Ht', ?He'.
  - lia.
  - intros q e [[<- <-]|[Hq Hl]]%lookup_insert_Some; cbn; [lia|]. specialize (He q e Hl). lia.
  - intros e H. specialize (Hp e H). lia.
  - intros q e [[<- <-]|[Hq Hl]]%lookup_insert_Some; cbn; [|by eapply Hf].
    intros H. specialize (Hp _ H). cbn in Hp. lia.
  - done.
Qed.

Lemma transition_cases t p f r t' :
  transition t p f = (r, t') ->
  t' = t \/ exists st, t' = insert_entry (next_epoch t).2 p (MkEntry st (next_epoch t).1).
Proof.
  unfold transition. destruct (entries t !! p) as [en|]; [|intros [= _ <-]; by left].
  destruct (f _); [|intros [= _ <-]; by left]. destruct (next_epoch t) as [e t1]. intros [= _ <-].
  right. by eexists.
Qed.

Lemma step_inv s s' : inv s -> (generation (table s) < u64_max)%Z -> step s s' -> inv s'.
Proof.
  intros Hi Hmax Hs. destruct Hs as [t ps p pl e t' Hn|t ps1 ps2 p pl e|t ps p a r t' Hr].
  - destruct Hi as [Hg He Hp Hf Hd]. cbn [table pending] in *.
    destruct (next_epoch_small _ _ _ Hn) as (-> & Hg' & Ht'); [lia|].
    split; cbn [table pending]; rewrite ?Hg', ?Ht'; cbn.
    + lia.
    + intros q e Hl. specialize (He q e Hl). lia.
    + intros e [->|H]%elem_of_cons; cbn; [lia|]. specialize (Hp e H). lia.
    + intros q e Hl [Heq|H]%elem_of_cons; [|by eapply Hf]. specialize (He q e Hl). rewrite Heq in He. cbn in He. lia.
    + constructor; [|done]. intros H. specialize (Hp _ H). cbn in Hp. lia.
  - destruct Hi as [Hg He Hp Hf Hd]. cbn [table pending] in *.
    rewrite fmap_app, fmap_cons in *. cbn [snd] in *. apply NoDup_app in Hd as (Hd1 & Hd2 & Hd3).
    apply NoDup_cons in Hd3 as [Hd4 Hd5].
    split; cbn [table pending insert_entry entries generation]; rewrite ?fmap_app.
    + done.
    + intros q en [[<- <-]|[Hq Hl]]%lookup_insert_Some; cbn; [apply Hp; set_solver|by eapply He].
    + intros e' H. apply Hp. set_solver.
    + intros q en [[<- <-]|[Hq Hl]]%lookup_insert_Some; cbn.
      * intros [H|H]%elem_of_app; [|done]. apply (Hd2 _ H). by left.
      * intros H. apply (Hf q en Hl). set_solver.
    + apply NoDup_app. split; [done|]. split; [|done]. intros x Hx Hx'. apply (Hd2 x Hx). by right.
  - rewrite run_action_transition in Hr. apply transition_cases in Hr as [->|[st ->]]; [done|].
    by apply inv_stamp.
Qed.

Lemma step_gen s s' : inv s -> (generation (table s) < u64_max)%Z -> step s s' ->
  (generation (table s) <= generation (table s') <= generation (table s) + 1)%Z.
Proof.
  intros [Hg _ _ _ _] Hmax Hs. destruct Hs as [t ps p pl e t' Hn|t ps1 ps2 p pl e|t ps p a r t' Hr]; cbn [table] in *.
  - destruct (next_epoch_small _ _ _ Hn) as (_ & -> & _); lia.
  - cbn. lia.
  - rewrite run_action_transition in Hr. apply transition_cases in Hr as [->|[st ->]]; [lia|].
    destruct (next_epoch_small t _ _ (surjective_pairing _)) as (_ & Hg' & _); [lia|].
    cbn [table insert_entry generation]. lia.
Qed.

(** Epoch [e] is spent: no pending [set] holds it, and only [p] in state [st] may. *)
Definition spent (p : PartitionId) (en : Entry) (s : System) : Prop :=
  (1 <= CoreTypes.get (e_epoch en) <= generation (table s))%Z
  /\ e_epoch en ∉ (pending s).*2
  /\ forall en', entries (table s) !! p = Some en' -> e_epoch en' = e_epoch en -> en' = en.

Lemma spent_insert p en t ps q st e :
  spent p en (MkSystem t ps) -> e_epoch en <> e -> spent p en (MkSystem (insert_entry t q (MkEntry st e)) ps).
Proof.
  intros (H1 & H2 & H3) Hne. split; [done|]. split; [done|]. intros en'. cbn.
  intros [[<- <-]|[Hq Hl]]%lookup_insert_Some; [cbn; congruence|by apply H3].
Qed.

Lemma spent_gen p en t ps t' :
  spent p en (MkSystem t ps) -> entries t' = entries t -> (generation t <= generation t')%Z ->
  spent p en (MkSystem t' ps).
Proof.
  intros (H1 & H2 & H3) He Hg. split; [cbn in *; lia|]. split; [done|]. intros en'. cbn. rewrite He. apply H3.
Qed.

Lemma step_spent p en s s' :
  inv s -> (generation (table s) < u64_max)%Z -> spent p en s -> step s s' -> spent p en s'.
Proof.
  intros Hi Hmax Hsp Hs. pose proof (inv_gen _ Hi) as Hg.
  destruct Hs as [t ps q pl e t' Hn|t ps1 ps2 q pl e|t ps q a r t' Hr]; cbn [table] in *.
  - destruct (next_epoch_small _ _ _ Hn) as (-> & Hg' & Ht'); [lia|].
    destruct (spent_gen p en t ps t' Hsp Ht' ltac:(lia)) as (H1 & H2 & H3).
    split; [done|]. split; [|done]. cbn. destruct Hsp as ((_ & Hle) & _ & _). cbn in Hle.
    intros [Heq|H]%elem_of_cons; [|done]. rewrite Heq in Hle. cbn in Hle. lia.
  - assert (Hne : e_epoch en <> e).
    { intros <-. destruct Hsp as (_ & H & _). apply H. cbn. rewrite fmap_app. set_solver. }
    assert (Hsp' : spent p en (MkSystem t (ps1 ++ ps2))).
    { destruct Hsp as (H1 & H2 & H3). split; [done|]. split; [|done]. cbn in *.
      rewrite fmap_app in *. set_solver. }
    by apply spent_insert.
  - rewrite run_action_transition in Hr. apply transition_cases in Hr as [->|[st ->]]; [done|].
    destruct (next_epoch_small t _ _ (surjective_pairing _)) as (He' & Hg' & Ht'); [lia|].
    apply spent_insert.
    + eapply spent_gen; [done..|]. lia.
    + rewrite He'. intros Heq. destruct Hsp as ((_ & Hle) & _ & _). rewrite Heq in Hle. cbn in Hle. lia.
Qed.

Lemma steps_inv n s s' :
  inv s -> (generation (table s) + Z.of_nat n <= u64_max)%Z -> nsteps step n s s' ->
  inv s' /\ (generation (table s') <= generation (table s) + Z.of_nat n)%Z
  /\ forall p en, spent p en s -> spent p en s'.
Proof.
  intros Hi Hmax Hs. induction Hs as [s|n s1 s2 s3 Hs Hss IH]; [split; [done|]; split; [lia|done]|].
  assert (Hlt : (generation (table s1) < u64_max)%Z) by lia.
  pose proof (step_gen _ _ Hi Hlt Hs). destruct (IH (step_inv _ _ Hi Hlt Hs)) as (H1 & H2 & H3); [lia|].
  split; [done|]. split; [lia|]. intros p en Hp. exact (H3 p en (step_spent p en _ _ Hi Hlt Hp Hs)).
Qed.

Lemma inv_spent s p en : inv s -> entries (table s) !! p = Some en -> spent p en s.
Proof.
  intros Hi Hl. split; [by eapply inv_entries|]. split; [by eapply inv_fresh|].
  intros en' Hl' _. congruence.
Qed.

(** C5: no write is lost to a migration. Take any interleaving of [set]s and transitions by
    any number of threads, of fewer than 2^64 steps. If a request resolved [p] to a placement
    and epoch at one point of it, and at a later point [admit_write] admits a write with that
    epoch, then [p]'s state is still the one resolved: the placement resolved is the one
    writes go to at that later point, and [p] is not in cutover. *)
Theorem admitted_write_is_current m n s1 s2 p a :
  (Z.of_nat (m + n) <= u64_max)%Z ->
  nsteps step m system_new s1 -> nsteps step n s1 s2 ->
  get (table s1) p = Some a -> admit_write (table s2) p (at_epoch a) = Admit ->
  get (table s2) p = Some a /\ at_phase a <> PhaseCutover
  /\ exists en, entries (table s2) !! p = Some en /\ write_placement (e_state en) = Some (at_placement a).
Proof.
  intros Hmax Hs1 Hs2 Hget Hadm.
  destruct (steps_inv m system_new s1 inv_new) as (Hi1 & Hg1 & _); [cbn; lia|done|]. cbn in Hg1.
  destruct (steps_inv n s1 s2 Hi1) as (_ & _ & Hsp); [lia|done|].
  unfold get in Hget. destruct (entries (table s1) !! p) as [en|] eqn:Hl; [|done]. injection Hget as <-.
  destruct (Hsp p en (inv_spent _ _ _ Hi1 Hl)) as (_ & _ & Hun).
  unfold admit_write in Hadm. cbn [at_epoch with_phase placement_at_new] in Hadm.
  destruct (entries (table s2) !! p) as [en'|] eqn:Hl'; [|done].
  destruct (write_placement (e_state en')) as [w|] eqn:Hw; [|done].
  destruct (bool_decide _) eqn:He; [|done]. apply bool_decide_eq_true in He.
  specialize (Hun en' eq_refl He) as ->. unfold get. rewrite Hl'. split; [done|]. split.
  - cbn. by destruct (e_state en) as [|? ? []].
  - exists en. split; [done|]. cbn. by destruct (e_state en) as [|? ? []].
Qed.

(** epochs. Called one at a time, every [set] and every successful transition stamps the
    partition with an epoch greater than any before; but as [set] draws its epoch before it
    takes the lock, two concurrent [set]s of a partition can leave it stamped with the lower
    one, its epoch going backwards. *)
Theorem epochs_increase_unless_sets_race :
  (forall t p pl, (0 <= generation t < u64_max)%Z ->
     let '(e, t') := set t p pl in
     CoreTypes.get e = (generation t + 1)%Z /\ generation t' = CoreTypes.get e /\ state t' p = Some (Active pl, e))
  /\ (forall t p a e t', (0 <= generation t < u64_max)%Z -> run_action t p a = (Ok e, t') ->
     CoreTypes.get e = (generation t + 1)%Z /\ generation t' = CoreTypes.get e)
  /\ (forall (p : PartitionId), Placement -> exists s s' e e', nsteps step 3 system_new s /\ step s s'
     /\ snd <$> state (table s) p = Some e /\ snd <$> state (table s') p = Some e'
     /\ (CoreTypes.get e' < CoreTypes.get e)%Z).
Proof.
  split; [|split].
  - intros t p pl H. unfold set. destruct (next_epoch t) as [e t'] eqn:Hn.
    destruct (next_epoch_small _ _ _ Hn H) as (-> & Hg & Ht). cbn. unfold state. cbn.
    by rewrite lookup_insert_eq.
  - intros t p a e t' H. rewrite run_action_transition. unfold transition.
    destruct (entries t !! p); [|done]. destruct (action_f _ _); [|done].
    destruct (next_epoch t) as [e1 t1] eqn:Hn. destruct (next_epoch_small _ _ _ Hn H) as (-> & Hg & Ht).
    intros [= <- <-]. by cbn.
  - intros p pl.
    pose (t0 := MkTable (∅ : gmap (list ascii) Entry) 2).
    exists (MkSystem (insert_entry t0 p (MkEntry (Active pl) (MkEpoch 2))) [(p, pl, MkEpoch 1)]).
    exists (MkSystem (insert_entry (insert_entry t0 p (MkEntry (Active pl) (MkEpoch 2))) p
                        (MkEntry (Active pl) (MkEpoch 1))) []).
    exists (MkEpoch 2), (MkEpoch 1). split; [|split; [|split; [|split]]].
    + eapply nsteps_l; [by apply (step_set_alloc _ _ p pl)|].
      eapply nsteps_l; [by apply (step_set_alloc _ _ p pl)|]. cbn.
      eapply nsteps_l; [|constructor]. apply (step_set_insert t0 [] [(p, pl, MkEpoch 1)] p pl (MkEpoch 2)).
    + apply (step_set_insert _ [] [] p pl (MkEpoch 1)).
    + unfold state. cbn. by rewrite lookup_insert_eq.
    + unfold state. cbn. by rewrite lookup_insert_eq.
    + done.
Qed.
End Table.

(** ** A concrete run *)
Section Runs.
Definition toy_placement : @Placement (toy_serde []) := @DedicatedCluster (toy_serde []) (lit "eu-1").
Definition run_table : @PlacementTable (toy_serde []) :=
  @insert_entry (toy_serde []) (@MkTable (toy_serde []) ∅ 1) (lit "acme")
    (@MkEntry (toy_serde []) (@Active (toy_serde []) toy_placement) (MkEpoch 1)).
Definition run_s1 : @System (toy_serde []) := @MkSystem (toy_serde []) run_table [].
Definition run_s2 : @System (toy_serde []) :=
  @MkSystem (toy_serde []) (@next_epoch (toy_serde []) run_table).2 [(lit "globex", toy_placement, MkEpoch 2)].

Example cutover_holds_writes :
  let t := (@run_action (toy_serde []) run_table (lit "acme") (@Begin (toy_serde []) toy_placement)).2 in
  let t := (@run_action (toy_serde []) t (lit "acme") (@EnterCutover (toy_serde []))).2 in
  @admit_write (toy_serde []) t (lit "acme") (MkEpoch 3) = Reject.
Proof. vm_compute. reflexivity. Qed.

Lemma admitted_write_is_current_witness :
  @get (toy_serde []) (@table (toy_serde []) run_s2) (lit "acme")
    = Some (@placement_at_new (toy_serde []) toy_placement (MkEpoch 1))
  /\ @at_phase (toy_serde []) (@placement_at_new (toy_serde []) toy_placement (MkEpoch 1)) <> PhaseCutover
  /\ exists en, @entries (toy_serde []) (@table (toy_serde []) run_s2) !! lit "acme" = Some en
     /\ @write_placement (toy_serde []) (@e_state (toy_serde []) en) = Some toy_placement.
Proof.
  apply (@admitted_write_is_current (toy_serde []) 2 1 run_s1 run_s2 (lit "acme")
           (@placement_at_new (toy_serde []) toy_placement (MkEpoch 1))).
  - vm_compute. discriminate.
  - apply (nsteps_l _ _ _ (@MkSystem (toy_serde []) (@MkTable (toy_serde []) ∅ 1) [(lit "acme", toy_placement, MkEpoch 1)])).
    + exact (@step_set_alloc (toy_serde []) (@table_new (toy_serde [])) [] (lit "acme") toy_placement
               (MkEpoch 1) (@MkTable (toy_serde []) ∅ 1) eq_refl).
    + apply (nsteps_l _ _ _ run_s1); [|constructor].
      exact (@step_set_insert (toy_serde []) (@MkTable (toy_serde []) ∅ 1) [] [] (lit "acme") toy_placement (MkEpoch 1)).
  - apply (nsteps_l _ _ _ run_s2); [|constructor].
    exact (@step_set_alloc (toy_serde []) run_table [] (lit "globex") toy_placement (MkEpoch 2)
             (@next_epoch (toy_serde []) run_table).2 eq_refl).
  - unfold get. cbn [table run_s1 run_table insert_entry entries]. by rewrite lookup_insert_eq.
  - vm_compute. reflexivity.
Defined.
End Runs.
