(* ===== verification/Sink.v ===== *)
(** * The seam to the upstream clusters ([crates/osproxy-sink/src]: batch, ack, error, read, wire)

    The operations the engine hands to a sink, what it gets back, and the REST request a
    document operation becomes. *)
From stdpp Require Import base option list strings numbers sets.
From Stdlib Require Import Ascii ZArith Lia.
From S2P Require Import Prelude.
From S2P Require Import Hex.
From S2P Require Import Trace.
From S2P Require Import CoreTypes.
From S2P Require Import Serde.
From S2P Require Import ToySerde.
From S2P Require Import JsonScan.
From S2P Require Import JsonProps.
From S2P Require Import Spi.

Open Scope osp_scope.

(** ** [batch.rs] *)
Inductive DocOp : Type :=
| OpIndex (id routing : option str) (body : bytes)
| OpCreate (id routing : option str) (body : bytes)
| OpUpdate (id : str) (routing : option str) (body : bytes)
| OpDelete (id : str) (routing : option str).
#[export] Instance DocOp_eq_dec : EqDecision DocOp.
Proof. solve_decision. Defined.

Record WriteOp : Type := MkWriteOp {
  w_target : Target;
  w_doc : DocOp;
  w_epoch : Epoch;
  w_protocol : Protocol;
  w_trace : option TraceContext;
  w_forward_headers : list (str * str)
}.
Definition write_op_new (t : Target) (doc : DocOp) (e : Epoch) : WriteOp := MkWriteOp t doc e Http1 None [].
Definition write_with_protocol (w : WriteOp) (p : Protocol) : WriteOp :=
  MkWriteOp (w_target w) (w_doc w) (w_epoch w) p (w_trace w) (w_forward_headers w).
Definition write_with_trace (w : WriteOp) (t : option TraceContext) : WriteOp :=
  MkWriteOp (w_target w) (w_doc w) (w_epoch w) (w_protocol w) t (w_forward_headers w).
Definition write_with_forward_headers (w : WriteOp) (h : list (str * str)) : WriteOp :=
  MkWriteOp (w_target w) (w_doc w) (w_epoch w) (w_protocol w) (w_trace w) h.

(** A [WriteBatch] is its vector of operations. *)
Record WriteBatch : Type := MkWriteBatch { ops : list WriteOp }.
Definition batch_new : WriteBatch := MkWriteBatch [].
Definition batch_single (op : WriteOp) : WriteBatch := MkWriteBatch [op].
Definition batch_with (b : WriteBatch) (op : WriteOp) : WriteBatch := MkWriteBatch (ops b ++ [op]).
Definition batch_with_trace (b : WriteBatch) (t : option TraceContext) : WriteBatch :=
  MkWriteBatch ((fun op => write_with_trace op t) <$> ops b).
Definition batch_with_forward_headers (b : WriteBatch) (h : list (str * str)) : WriteBatch :=
  MkWriteBatch ((fun op => write_with_forward_headers op h) <$> ops b).

(** ** [ack.rs] *)
Record OpResult : Type := MkOpResult { res_id : str; res_status : Z; res_created : bool }.
Definition is_success (r : OpResult) : bool := (200 <=? res_status r)%Z && (res_status r <? 300)%Z.
Record WriteAck : Type := MkWriteAck { results : list OpResult; ack_pool_reuse : bool }.
Definition ack_new (rs : list OpResult) : WriteAck := MkWriteAck rs false.
Definition ack_with_pool_reuse (a : WriteAck) (reused : bool) : WriteAck := MkWriteAck (results a) reused.
Definition all_succeeded (a : WriteAck) : bool := forallb is_success (results a).

(** ** [error.rs] *)
Inductive SinkError : Type :=
| SinkUpstream (status : Z) (retryable : bool)
| SinkTransport (kind : str)
| SinkStaleEpoch (stamped current : Epoch).
Definition sink_code (e : SinkError) : ErrorCode :=
  match e with SinkUpstream _ _ | SinkTransport _ => UpstreamFailed | SinkStaleEpoch _ _ => StaleEpoch end.
Definition sink_retryable (e : SinkError) : bool :=
  match e with SinkUpstream _ r => r | SinkTransport _ | SinkStaleEpoch _ _ => true end.

(** ** [read.rs] *)
Record ReadOp : Type := MkReadOp {
  rd_target : Target;
  rd_id : str;
  rd_routing : option str;
  rd_protocol : Protocol;
  rd_trace : option TraceContext;
  rd_forward_headers : list (str * str)
}.
Definition read_op_new (t : Target) (id : str) (routing : option str) : ReadOp :=
  MkReadOp t id routing Http1 None [].
Definition read_with_protocol (r : ReadOp) (p : Protocol) : ReadOp :=
  MkReadOp (rd_target r) (rd_id r) (rd_routing r) p (rd_trace r) (rd_forward_headers r).
Definition read_with_trace (r : ReadOp) (t : option TraceContext) : ReadOp :=
  MkReadOp (rd_target r) (rd_id r) (rd_routing r) (rd_protocol r) t (rd_forward_headers r).
Definition read_with_forward_headers (r : ReadOp) (h : list (str * str)) : ReadOp :=
  MkReadOp (rd_target r) (rd_id r) (rd_routing r) (rd_protocol r) (rd_trace r) h.

Record ReadOutcome : Type := MkReadOutcome {
  ro_status : Z;
  ro_found : bool;
  ro_body : bytes;
  ro_pool_reuse : bool
}.
Definition read_found (status : Z) (b : bytes) : ReadOutcome := MkReadOutcome status true b false.
Definition read_not_found (status : Z) (b : bytes) : ReadOutcome := MkReadOutcome status false b false.
Definition read_with_pool_reuse (o : ReadOutcome) (reused : bool) : ReadOutcome :=
  MkReadOutcome (ro_status o) (ro_found o) (ro_body o) reused.

Record SearchOp : Type := MkSearchOp {
  so_target : Target;
  so_body : bytes;
  so_protocol : Protocol;
  so_query : option str;
  so_trace : option TraceContext;
  so_forward_headers : list (str * str)
}.
Definition search_op_new (t : Target) (body : bytes) : SearchOp := MkSearchOp t body Http1 None None [].
Definition search_with_body (s : SearchOp) (body : bytes) : SearchOp :=
  MkSearchOp (so_target s) body (so_protocol s) (so_query s) (so_trace s) (so_forward_headers s).
Definition search_with_protocol (s : SearchOp) (p : Protocol) : SearchOp :=
  MkSearchOp (so_target s) (so_body s) p (so_query s) (so_trace s) (so_forward_headers s).
Definition search_with_query (s : SearchOp) (q : option str) : SearchOp :=
  MkSearchOp (so_target s) (so_body s) (so_protocol s) q (so_trace s) (so_forward_headers s).
Definition search_with_trace (s : SearchOp) (t : option TraceContext) : SearchOp :=
  MkSearchOp (so_target s) (so_body s) (so_protocol s) (so_query s) t (so_forward_headers s).
Definition search_with_forward_headers (s : SearchOp) (h : list (str * str)) : SearchOp :=
  MkSearchOp (so_target s) (so_body s) (so_protocol s) (so_query s) (so_trace s) h.

Record SearchOutcome : Type := MkSearchOutcome { se_status : Z; se_body : bytes; se_pool_reuse : bool }.
Definition search_outcome_new (status : Z) (b : bytes) : SearchOutcome := MkSearchOutcome status b false.
Definition search_with_pool_reuse (o : SearchOutcome) (reused : bool) : SearchOutcome :=
  MkSearchOutcome (se_status o) (se_body o) reused.
Record CountOutcome : Type := MkCountOutcome { co_status : Z; co_count : Z; co_pool_reuse : bool }.
Definition count_outcome_new (status count : Z) : CountOutcome := MkCountOutcome status count false.
Definition count_with_pool_reuse (o : CountOutcome) (reused : bool) : CountOutcome :=
  MkCountOutcome (co_status o) (co_count o) reused.

Record CursorOp : Type := MkCursorOp {
  cu_cluster : ClusterId;
  cu_method : HttpMethod;
  cu_path : str;
  cu_body : bytes;
  cu_query : option str;
  cu_endpoint : option str;
  cu_credentials : option UpstreamCredentials;
  cu_protocol : Protocol;
  cu_trace : option TraceContext;
  cu_forward_headers : list (str * str)
}.
Definition cursor_op_new (c : ClusterId) (m : HttpMethod) (path : str) (body : bytes) : CursorOp :=
  MkCursorOp c m path body None None None Http1 None [].
Definition cursor_with_endpoint (c : CursorOp) (e : option str) : CursorOp :=
  MkCursorOp (cu_cluster c) (cu_method c) (cu_path c) (cu_body c) (cu_query c) e (cu_credentials c)
    (cu_protocol c) (cu_trace c) (cu_forward_headers c).
Definition cursor_with_credentials (c : CursorOp) (k : option UpstreamCredentials) : CursorOp :=
  MkCursorOp (cu_cluster c) (cu_method c) (cu_path c) (cu_body c) (cu_query c) (cu_endpoint c) k
    (cu_protocol c) (cu_trace c) (cu_forward_headers c).
Definition cursor_with_query (c : CursorOp) (q : option str) : CursorOp :=
  MkCursorOp (cu_cluster c) (cu_method c) (cu_path c) (cu_body c) q (cu_endpoint c) (cu_credentials c)
    (cu_protocol c) (cu_trace c) (cu_forward_headers c).
Definition cursor_with_trace (c : CursorOp) (t : option TraceContext) : CursorOp :=
  MkCursorOp (cu_cluster c) (cu_method c) (cu_path c) (cu_body c) (cu_query c) (cu_endpoint c) (cu_credentials c)
    (cu_protocol c) t (cu_forward_headers c).
Definition cursor_with_forward_headers (c : CursorOp) (h : list (str * str)) : CursorOp :=
  MkCursorOp (cu_cluster c) (cu_method c) (cu_path c) (cu_body c) (cu_query c) (cu_endpoint c) (cu_credentials c)
    (cu_protocol c) (cu_trace c) h.
Definition cursor_with_protocol (c : CursorOp) (p : Protocol) : CursorOp :=
  MkCursorOp (cu_cluster c) (cu_method c) (cu_path c) (cu_body c) (cu_query c) (cu_endpoint c) (cu_credentials c)
    p (cu_trace c) (cu_forward_headers c).

(** A verbatim forward whose body streams: a [CursorOp] without the body. *)
Record ForwardOp : Type := MkForwardOp {
  fo_cluster : ClusterId;
  fo_method : HttpMethod;
  fo_path : str;
  fo_query : option str;
  fo_endpoint : option str;
  fo_credentials : option UpstreamCredentials;
  fo_protocol : Protocol;
  fo_trace : option TraceContext;
  fo_forward_headers : list (str * str)
}.
Definition forward_op_new (c : ClusterId) (m : HttpMethod) (path : str) : ForwardOp :=
  MkForwardOp c m path None None None Http1 None [].
Definition forward_with_endpoint (f : ForwardOp) (e : option str) : ForwardOp :=
  MkForwardOp (fo_cluster f) (fo_method f) (fo_path f) (fo_query f) e (fo_credentials f) (fo_protocol f) (fo_trace f)
    (fo_forward_headers f).
Definition forward_with_credentials (f : ForwardOp) (k : option UpstreamCredentials) : ForwardOp :=
  MkForwardOp (fo_cluster f) (fo_method f) (fo_path f) (fo_query f) (fo_endpoint f) k (fo_protocol f) (fo_trace f)
    (fo_forward_headers f).
Definition forward_with_query (f : ForwardOp) (q : option str) : ForwardOp :=
  MkForwardOp (fo_cluster f) (fo_method f) (fo_path f) q (fo_endpoint f) (fo_credentials f) (fo_protocol f) (fo_trace f)
    (fo_forward_headers f).
Definition forward_with_protocol (f : ForwardOp) (p : Protocol) : ForwardOp :=
  MkForwardOp (fo_cluster f) (fo_method f) (fo_path f) (fo_query f) (fo_endpoint f) (fo_credentials f) p (fo_trace f)
    (fo_forward_headers f).
Definition forward_with_trace (f : ForwardOp) (t : option TraceContext) : ForwardOp :=
  MkForwardOp (fo_cluster f) (fo_method f) (fo_path f) (fo_query f) (fo_endpoint f) (fo_credentials f) (fo_protocol f) t
    (fo_forward_headers f).
Definition forward_with_forward_headers (f : ForwardOp) (h : list (str * str)) : ForwardOp :=
  MkForwardOp (fo_cluster f) (fo_method f) (fo_path f) (fo_query f) (fo_endpoint f) (fo_credentials f) (fo_protocol f)
    (fo_trace f) h.
Record CursorOutcome : Type := MkCursorOutcome {
  cr_status : Z;
  cr_body : bytes;
  cr_content_type : option str;
  cr_pool_reuse : bool
}.
Definition cursor_outcome_new (status : Z) (b : bytes) : CursorOutcome := MkCursorOutcome status b None false.
Definition cursor_with_pool_reuse (o : CursorOutcome) (reused : bool) : CursorOutcome :=
  MkCursorOutcome (cr_status o) (cr_body o) (cr_content_type o) reused.
Definition cursor_with_content_type (o : CursorOutcome) (content_type : option str) : CursorOutcome :=
  MkCursorOutcome (cr_status o) (cr_body o) content_type (cr_pool_reuse o).

(** ** [wire.rs] *)
Definition unreserved (c : byte) : bool :=
  in_range 65 90 c || in_range 97 122 c || in_range 48 57 c
  || Ascii.eqb c "-" || Ascii.eqb c "_" || Ascii.eqb c "." || Ascii.eqb c "~" || Ascii.eqb c ":".
Definition HEX : bytes := lit "0123456789ABCDEF".
Definition hex_upper (n : Z) : byte := nth (Z.to_nat n) HEX Ascii.zero.
Definition encode_byte (c : byte) : str :=
  if unreserved c then [c] else ["%"%char; hex_upper (Z.shiftr (bz c) 4); hex_upper (Z.land (bz c) 15)].
Definition encode (s : str) : str := mbind encode_byte s.

Definition action_uri (base : str) (index : IndexName) (verb : str) (id routing : option str) : str :=
  let uri := base ++ lit "/" ++ index ++ lit "/" ++ verb in
  let uri := match id with Some id => uri ++ lit "/" ++ encode id | None => uri end in
  match routing with Some r => uri ++ lit "?routing=" ++ encode r | None => uri end.
Definition doc_uri (base : str) (index : IndexName) (id routing : option str) : str :=
  action_uri base index (lit "_doc") id routing.
Definition create_auto_uri (base : str) (index : IndexName) (routing : option str) : str :=
  let uri := base ++ lit "/" ++ index ++ lit "/_doc?op_type=create" in
  match routing with Some r => uri ++ lit "&routing=" ++ encode r | None => uri end.

(** [(method, uri, body, fallback_id)]. *)
Definition request_parts (base : str) (index : IndexName) (doc : DocOp) : HttpMethod * str * bytes * str :=
  match doc with
  | OpIndex (Some id) routing b => (Put, doc_uri base index (Some id) routing, b, id)
  | OpIndex None routing b => (Post, doc_uri base index None routing, b, [])
  | OpCreate (Some id) routing b => (Put, action_uri base index (lit "_create") (Some id) routing, b, id)
  | OpCreate None routing b => (Post, create_auto_uri base index routing, b, [])
  | OpUpdate id routing b => (Post, action_uri base index (lit "_update") (Some id) routing, b, id)
  | OpDelete id routing => (DeleteMethod, doc_uri base index (Some id) routing, [], id)
  end.

Definition parse_result `{Sd : Serde} (b : bytes) (fallback_id : str) (status : Z) : OpResult :=
  let parsed := default Null (from_slice b) in
  let id := default fallback_id (value_get parsed (lit "_id") ≫= as_str) in
  let created := match value_get parsed (lit "result") ≫= as_str with
                 | Some r => str_eqb r (lit "created")
                 | None => false
                 end in
  MkOpResult id status created.

(** ** Encoding loses nothing and adds no separator *)

(** What may stand in a path or query segment: the unreserved bytes and [%]. *)
Definition segment_byte (c : byte) : Prop := unreserved c = true \/ c = "%"%char.

Lemma hex_upper_cases n :
  (0 <= n <= 15)%Z -> unreserved (hex_upper n) = true.
Proof.
  intros H. assert (Hn : Z.to_nat n < 16) by lia. unfold hex_upper.
  set (k := Z.to_nat n) in *. clearbody k. do 16 (destruct k as [|k]; [reflexivity|]). lia.
Qed.
Lemma hex_upper_lookup n : (0 <= n <= 15)%Z -> HEX !! Z.to_nat n = Some (hex_upper n).
Proof.
  intros H. unfold hex_upper. rewrite nth_lookup.
  destruct (lookup_lt_is_Some_2 HEX (Z.to_nat n)) as [c ->]; [cbn; lia|done].
Qed.
Lemma hex_upper_inj m n :
  (0 <= m <= 15)%Z -> (0 <= n <= 15)%Z -> hex_upper m = hex_upper n -> m = n.
Proof.
  intros Hm Hn H. apply Z2Nat.inj; [lia..|].
  assert (Hnd : NoDup HEX) by (apply (bool_decide_unpack _); reflexivity).
  eapply NoDup_lookup; [exact Hnd|by apply hex_upper_lookup|].
  rewrite H. by apply hex_upper_lookup.
Qed.

Lemma nibble_bounds c : (0 <= Z.shiftr (bz c) 4 <= 15)%Z /\ (0 <= Z.land (bz c) 15 <= 15)%Z.
Proof.
  pose proof (bz_bound c) as Hc. rewrite Z.shiftr_div_pow2 by lia. change 15%Z with (Z.ones 4) at 2 3.
  rewrite Z.land_ones by lia. change (2 ^ 4)%Z with 16%Z.
  pose proof (Z.mod_pos_bound (bz c) 16). split; [|lia].
  split; [apply Z.div_pos; lia|]. apply Z.lt_succ_r, Z.div_lt_upper_bound; lia.
Qed.
Lemma nibbles_inj c d :
  Z.shiftr (bz c) 4 = Z.shiftr (bz d) 4 -> Z.land (bz c) 15 = Z.land (bz d) 15 -> c = d.
Proof.
  change 15%Z with (Z.ones 4). rewrite !Z.shiftr_div_pow2, !Z.land_ones by lia. intros Hs Hl.
  apply bz_inj. rewrite (Z.div_mod (bz c) (2 ^ 4)), (Z.div_mod (bz d) (2 ^ 4)) by lia. congruence.
Qed.

(** No two bytes have codes one of which begins the other. *)
Lemma encode_byte_prefix c d u v :
  encode_byte c ++ u = encode_byte d ++ v -> c = d /\ u = v.
Proof.
  unfold encode_byte. destruct (unreserved c) eqn:Hc, (unreserved d) eqn:Hd; cbn; intros [=]; subst; try done.
  destruct (nibble_bounds c), (nibble_bounds d).
  split; [|done]. apply nibbles_inj; by apply hex_upper_inj.
Qed.
Lemma encode_byte_segment c : Forall segment_byte (encode_byte c).
Proof.
  unfold encode_byte. destruct (unreserved c) eqn:Hc; [by repeat constructor|].
  destruct (nibble_bounds c). constructor; [by right|].
  constructor; [|constructor; [|constructor]]; left; by apply hex_upper_cases.
Qed.
Lemma encode_segment s : Forall segment_byte (encode s).
Proof.
  induction s as [|c s IH]; [constructor|]. unfold encode. rewrite bind_cons.
  apply Forall_app. split; [apply encode_byte_segment|exact IH].
Qed.

(** What follows an encoded part of a URI: nothing, or a byte no code begins with. *)
Definition Stops (w : str) : Prop := forall c w', w = c :: w' -> ~ segment_byte c.

Lemma encode_byte_cons c : exists d w, encode_byte c = d :: w /\ segment_byte d.
Proof.
  pose proof (encode_byte_segment c) as H. unfold encode_byte in *.
  destruct (unreserved c); apply Forall_cons_iff in H as [H _]; eauto.
Qed.
Lemma encode_stops a b u v :
  Stops u -> Stops v -> encode a ++ u = encode b ++ v -> a = b /\ u = v.
Proof.
  intros Hu Hv. revert b. induction a as [|c a IH]; intros [|d b]; unfold encode; rewrite ?bind_cons; cbn [mbind list_bind app].
  - done.
  - destruct (encode_byte_cons d) as (x & w & -> & Hx). intros ->. by destruct (Hu x _ eq_refl).
  - destruct (encode_byte_cons c) as (x & w & -> & Hx). intros <-. by destruct (Hv x _ eq_refl).
  - rewrite <- !app_assoc. intros [-> H]%encode_byte_prefix. by apply IH in H as [-> ->].
Qed.
Lemma encode_inj a b : encode a = encode b -> a = b.
Proof.
  intros H. apply (encode_stops a b [] []); [done..|]. by rewrite !app_nil_r.
Qed.

Definition id_segment (id : option str) : str := match id with Some id => "/"%char :: encode id | None => [] end.
Definition routing_part (mark : str) (routing : option str) : str :=
  match routing with Some r => mark ++ encode r | None => [] end.

Lemma action_uri_shape base index verb id routing :
  action_uri base index verb id routing
  = (base ++ lit "/" ++ index ++ lit "/") ++ verb ++ id_segment id ++ routing_part (lit "?routing=") routing.
Proof. unfold action_uri. destruct id, routing; cbn; by repeat (rewrite <- ?app_assoc; cbn [app]; rewrite ?app_nil_r). Qed.
Lemma create_auto_uri_shape base index routing :
  create_auto_uri base index routing
  = (base ++ lit "/" ++ index ++ lit "/") ++ lit "_doc?op_type=create" ++ routing_part (lit "&routing=") routing.
Proof. unfold create_auto_uri. destruct routing; cbn; by repeat (rewrite <- ?app_assoc; cbn [app]; rewrite ?app_nil_r). Qed.

Lemma routing_part_stops mark routing c w :
  mark = c :: w -> ~ segment_byte c -> Stops (routing_part mark routing).
Proof. intros -> Hc. by destruct routing; intros d w' [= <- <-]. Qed.
Lemma routing_part_inj mark r1 r2 :
  mark <> [] -> routing_part mark r1 = routing_part mark r2 -> r1 = r2.
Proof.
  destruct r1, r2; cbn; [|by destruct mark..|done].
  by intros _ ->%app_inv_head%encode_inj.
Qed.
Lemma question_mark_stops r : Stops (routing_part (lit "?routing=") r).
Proof. eapply routing_part_stops; [reflexivity|]. by intros [?|?]. Qed.

(** The id and the routing value can be read back from what follows the verb. *)
Lemma id_routing_inj id1 id2 r1 r2 :
  encode id1 ++ routing_part (lit "?routing=") r1 = encode id2 ++ routing_part (lit "?routing=") r2 ->
  id1 = id2 /\ r1 = r2.
Proof.
  intros [-> H]%encode_stops; [|apply question_mark_stops..]. by apply routing_part_inj in H as ->.
Qed.

(** The request sent upstream determines the operation: for one cluster and index,
    two operations with the same method, URI and body are the same operation, on the same
    id, with the same routing value.  No id or routing value, whatever bytes it holds, can
    reach another document, another verb or another index, since what it is encoded as
    contains no separator of a path or a query. *)
Theorem request_determines_operation base index d1 d2 :
  ((request_parts base index d1).1 = (request_parts base index d2).1 <-> d1 = d2)
  /\ forall s, Forall segment_byte (encode s).
Proof.
  split; [split; [|by intros ->]|apply encode_segment].
  intros H. assert (Hm := f_equal (fun p => p.1.1) H). assert (Hu := f_equal (fun p => p.1.2) H).
  assert (Hb := f_equal snd H). clear H. revert Hm Hu Hb. unfold request_parts, doc_uri.
  destruct d1 as [[i1|] r1 b1|[i1|] r1 b1|i1 r1 b1|i1 r1], d2 as [[i2|] r2 b2|[i2|] r2 b2|i2 r2 b2|i2 r2];
    cbn [fst snd]; intros Hm Hu Hb; try discriminate Hm; subst;
    rewrite ?action_uri_shape, ?create_auto_uri_shape in Hu; apply app_inv_head in Hu; cbn [id_segment app] in Hu.
  all: first
    [ apply app_inv_head, (app_inv_head ["/"%char]), id_routing_inj in Hu as [-> ->]; reflexivity
    | apply app_inv_head, routing_part_inj in Hu as ->; [reflexivity|discriminate]
    | exfalso; destruct r1, r2; discriminate Hu ].
Qed.

(** ** Concrete runs *)
Example doc_uri_runs :
  doc_uri (lit "http://h:9200") (lit "orders") (Some (lit "acme:1")) (Some (lit "acme"))
  = lit "http://h:9200/orders/_doc/acme:1?routing=acme".
Proof. vm_compute. reflexivity. Qed.
Example encode_runs : encode (lit "a b/c") = lit "a%20b%2Fc".
Proof. vm_compute. reflexivity. Qed.
Example create_auto_runs :
  request_parts (lit "http://h:9200") (lit "orders") (OpCreate None (Some (lit "acme")) (lit "{}"))
  = (Post, lit "http://h:9200/orders/_doc?op_type=create&routing=acme", lit "{}", []).
Proof. vm_compute. reflexivity. Qed.
Example parse_result_falls_back :
  @parse_result (toy_serde []) (lit "{}") (lit "del-id") 200 = MkOpResult (lit "del-id") 200 false.
Proof. reflexivity. Qed.
