(* ===== verification/Wal.v ===== *)
(** * The capture write-ahead log ([crates/osproxy-kafka-wal/src]: segment, lib)

    An append-only file of framed records with a checkpoint of what has been acknowledged,
    and the background drainer that delivers the records.  A file is its bytes; an append
    may fail after a part of its bytes, other file operations succeed.  A process dies
    between operations of the log, and in the last example inside one. *)
From stdpp Require Import base option list strings numbers relations.
From Stdlib Require Import Ascii ZArith Lia.
From S2P Require Import Prelude.

Open Scope osp_scope.

Definition u16_max : Z := 65535.
Definition u32_mod : Z := 4294967296.
Definition zlen (l : bytes) : Z := Z.of_nat (length l).

(** [to_le_bytes] and [from_le_bytes]. *)
Fixpoint le_bytes (n : nat) (z : Z) : bytes :=
  match n with 0 => [] | S n => byte_of z :: le_bytes n (z / 256)%Z end.
Fixpoint from_le_bytes (l : bytes) : Z :=
  match l with [] => 0 | c :: l => (bz c + 256 * from_le_bytes l)%Z end.

Definition crc32_bit (crc : Z) : Z :=
  let mask := ((- Z.land crc 1) mod u32_mod)%Z in Z.lxor (Z.shiftr crc 1) (Z.land 3988292384 mask).
Definition crc32_byte (crc : Z) (b : byte) : Z := Nat.iter 8 crc32_bit (Z.lxor crc (bz b)).
Definition crc32 (l : bytes) : Z := Z.lxor (foldl crc32_byte 4294967295%Z l) 4294967295.
(** The check value of the CRC catalogues. *)
Example crc32_check : crc32 (lit "123456789") = 3421780262%Z.
Proof. vm_compute. reflexivity. Qed.

(** ** Files *)
Definition read_exact (file : bytes) (at_ n : Z) : option bytes :=
  let b := take (Z.to_nat n) (drop (Z.to_nat at_) file) in if (zlen b =? n)%Z then Some b else None.
Definition zeros (n : nat) : bytes := replicate n "000"%char.
Definition file_write (file : bytes) (at_ : Z) (b : bytes) : bytes :=
  let n := Z.to_nat at_ in
  match b with [] => file | _ => take n file ++ zeros (n - length file) ++ b ++ drop (n + length b) file end.
Definition set_len (file : bytes) (n : Z) : bytes :=
  take (Z.to_nat n) file ++ zeros (Z.to_nat n - length file).

(** ** Records *)
Definition Entry : Type := str * bytes * bytes.
Record WalRecord : Type := MkWalRecord { entry : Entry; rec_next : Z }.

Definition encode_body (topic : str) (key payload : bytes) : option bytes :=
  if (u16_max <? zlen topic)%Z then None
  else if (u32_mod <=? zlen key)%Z then None
  else Some (le_bytes 2 (zlen topic) ++ topic ++ le_bytes 4 (zlen key) ++ key ++ payload).
(** [body.get(at..at + n)]. *)
Definition get_range (body : bytes) (at_ n : nat) : option bytes :=
  if at_ + n <=? length body then Some (take n (drop at_ body)) else None.
Definition decode_body (body : bytes) : option Entry :=
  topic_len ← from_le_bytes <$> get_range body 0 2;
  let topic_len := Z.to_nat topic_len in
  topic ← get_range body 2 topic_len ≫= from_utf8;
  let at_ := 2 + topic_len in
  key_len ← from_le_bytes <$> get_range body at_ 4;
  let key_len := Z.to_nat key_len in
  let at_ := at_ + 4 in
  key ← get_range body at_ key_len;
  let at_ := at_ + key_len in
  if at_ <=? length body then Some (topic, key, drop at_ body) else None.

(** ** The log

    The [File], the contents of the checkpoint file, and the offsets, which are [u64]. *)
Record Wal : Type := MkWal {
  log : bytes; ckpt : bytes;
  write_offset : Z; read_offset : Z; compact_threshold : Z; max_bytes : Z
}.
Definition read_ckpt (file : bytes) : Z := if 8 <=? length file then from_le_bytes (take 8 file) else 0.
Definition persist_ckpt (offset : Z) : bytes := le_bytes 8 offset.
Definition wal_open (log ckpt : bytes) (max_bytes compact_threshold : Z) : Wal :=
  MkWal log ckpt (zlen log) (Z.min (read_ckpt ckpt) (zlen log)) compact_threshold max_bytes.

Definition frame (body : bytes) : bytes := le_bytes 4 (zlen body) ++ le_bytes 4 (crc32 body) ++ body.
(** [fault] is the number of bytes written before a write fails. *)
Definition write_at (file : bytes) (at_ : Z) (body : bytes) (fault : option nat) : Result unit unit * bytes :=
  if (u32_mod <=? zlen body)%Z then (Err tt, file)
  else match fault with
       | None => (Ok tt, file_write file at_ (frame body))
       | Some k => (Err tt, file_write file at_ (take k (frame body)))
       end.
Definition append (w : Wal) (topic : str) (key payload : bytes) (fault : option nat) : Result unit unit * Wal :=
  match encode_body topic key payload with
  | None => (Err tt, w)
  | Some body =>
      let frame_len := (8 + zlen body)%Z in
      if (max_bytes w <? u64_saturating_add (write_offset w) frame_len)%Z then (Err tt, w)
      else let '(r, log) := write_at (log w) (write_offset w) body fault in
           let write_offset := match r with Ok _ => (write_offset w + frame_len)%Z | Err _ => write_offset w end in
           (r, MkWal log (ckpt w) write_offset (read_offset w) (compact_threshold w) (max_bytes w))
  end.
Definition read_frame (file : bytes) (at_ : Z) : option WalRecord :=
  header ← read_exact file at_ 8;
  let len := from_le_bytes (take 4 header) in
  let crc := from_le_bytes (take 4 (drop 4 header)) in
  body ← read_exact file (at_ + 8) len;
  if negb (crc32 body =? crc)%Z then None
  else e ← decode_body body; Some (MkWalRecord e (at_ + 8 + len)).
Definition wal_next (w : Wal) : option WalRecord * Wal :=
  if (write_offset w <=? read_offset w)%Z then (None, w)
  else match read_frame (log w) (read_offset w) with
       | Some r => (Some r, w)
       | None => (None, MkWal (log w) (ckpt w) (read_offset w) (read_offset w) (compact_threshold w) (max_bytes w))
       end.
Definition commit (w : Wal) (next : Z) : Wal :=
  MkWal (log w) (persist_ckpt next) (write_offset w) next (compact_threshold w) (max_bytes w).
Definition maybe_compact (w : Wal) : Result unit unit * Wal :=
  let caught_up := (write_offset w <=? read_offset w)%Z in
  if (read_offset w =? 0)%Z || (negb caught_up && (read_offset w <? compact_threshold w)%Z) then (Ok tt, w)
  else
    let live := (write_offset w - read_offset w)%Z in
    let moved :=
      if (0 <? live)%Z then
        match read_exact (log w) (read_offset w) live with
        | None => (Err tt, log w)
        | Some buf => write_at (log w) 0 buf None
        end
      else (Ok tt, log w) in
    match moved with
    | (Err e, log) => (Err e, MkWal log (ckpt w) (write_offset w) (read_offset w) (compact_threshold w) (max_bytes w))
    | (Ok _, log) => (Ok tt, MkWal (set_len log live) (persist_ckpt 0) live 0 (compact_threshold w) (max_bytes w))
    end.

(** ** The producer and its drainer *)
Record WalConfig : Type := MkWalConfig {
  cfg_max_bytes : Z; cfg_compact_threshold : Z; base_backoff : Z; max_backoff : Z; sync_interval : Z
}.
Definition wal_config_default : WalConfig :=
  MkWalConfig (256 * 1024 * 1024) (8 * 1024 * 1024) 100000000 5000000000 200000000.

(** Where the drainer is: before [next], sending a record, or about to commit one. *)
Inductive Draining : Type := Idle | Sending (r : WalRecord) | Acknowledged (r : WalRecord).
(** [accepted] are the records [produce] has accepted and [delivered] those the broker has
    acknowledged, in order. *)
Record Durable : Type := MkDurable {
  d_wal : Wal; drainer : Draining; d_backoff : Z; accepted : list Entry; delivered : list Entry
}.
Section Drain.
Context (cfg : WalConfig).
Definition spawn (log ckpt : bytes) : Durable :=
  MkDurable (wal_open log ckpt (cfg_max_bytes cfg) (cfg_compact_threshold cfg)) Idle (base_backoff cfg) [] [].
(** What the log sees of the process: an append of [produce], a turn of the drainer, the
    sync and compaction it makes between two turns, a new process. *)
Inductive Event : Type := Produced | Drained | Compacted | Restarted.
Inductive durable_event : Event -> Durable -> Durable -> Prop :=
| durable_produce w s b acc del topic key payload fault r w' :
    utf8_valid topic = true -> append w topic key payload fault = (r, w') ->
    durable_event Produced (MkDurable w s b acc del)
      (MkDurable w' s b (match r with Ok _ => acc ++ [(topic, key, payload)] | Err _ => acc end) del)
| durable_next w b acc del o w' :
    wal_next w = (o, w') ->
    durable_event Drained (MkDurable w Idle b acc del)
      (MkDurable w' (match o with Some r => Sending r | None => Idle end) b acc del)
| durable_compact w b acc del r w' :
    maybe_compact w = (r, w') -> durable_event Compacted (MkDurable w Idle b acc del) (MkDurable w' Idle b acc del)
| durable_acked w r b acc del :
    durable_event Drained (MkDurable w (Sending r) b acc del) (MkDurable w (Acknowledged r) b acc (del ++ [entry r]))
| durable_failed w r b acc del :
    durable_event Drained (MkDurable w (Sending r) b acc del) (MkDurable w Idle (Z.min (b * 2) (max_backoff cfg)) acc del)
| durable_commit w r b acc del :
    durable_event Drained (MkDurable w (Acknowledged r) b acc del)
      (MkDurable (commit w (rec_next r)) Idle (base_backoff cfg) acc del)
| durable_restart w s b acc del :
    durable_event Restarted (MkDurable w s b acc del)
      (MkDurable (wal_open (log w) (ckpt w) (cfg_max_bytes cfg) (cfg_compact_threshold cfg)) Idle (base_backoff cfg) acc del).
Definition durable_step (d d' : Durable) : Prop := exists ev, durable_event ev d d'.

(** The log reads as records, one after the other, from its read cursor to its end. *)
Inductive reads_through (file : bytes) (end_ : Z) : Z -> Prop :=
| reads_end : reads_through file end_ end_
| reads_next at_ r : read_frame file at_ = Some r -> reads_through file end_ (rec_next r) -> reads_through file end_ at_.
Definition intact (w : Wal) : Prop := reads_through (log w) (write_offset w) (read_offset w).
(** A new process takes what a failed append has left behind the end of the log for a part
    of the log: [Wal::open] starts from the length of the file.  The drainer discards such
    bytes when it comes to them and finds no record.  An event is orderly unless it relies
    on more than that: what a new process finds behind the end does not happen to read as a
    record (it is a part of one, with the wrong length or the wrong sum), and nothing is
    produced behind bytes that do not read as records, before the drainer has discarded
    them.  That second thing can happen ([orderliness_matters]). *)
Definition orderly (ev : Event) (d : Durable) : Prop :=
  match ev with
  | Produced => intact (d_wal d)
  | Restarted => read_frame (log (d_wal d)) (write_offset (d_wal d)) = None
  | Drained | Compacted => True
  end.
Definition orderly_step (d d' : Durable) : Prop := exists ev, durable_event ev d d' /\ orderly ev d.
End Drain.

(** ** Codecs *)
Lemma length_le_bytes n z : length (le_bytes n z) = n.
Proof. revert z. induction n as [|n IH]; intros z; cbn; [done|by rewrite IH]. Qed.
Lemma from_le_bytes_le n z : (0 <= z < 256 ^ Z.of_nat n)%Z -> from_le_bytes (le_bytes n z) = z.
Proof.
  revert z. induction n as [|n IH]; intros z Hz; cbn [le_bytes from_le_bytes]; [cbn in Hz; lia|].
  rewrite bz_byte_of, IH.
  - pose proof (Z.div_mod z 256). lia.
  - rewrite Nat2Z.inj_succ, Z.pow_succ_r in Hz by lia. split; [apply Z.div_pos; lia|].
    apply Z.div_lt_upper_bound; lia.
Qed.
Lemma zlen_app a b : zlen (a ++ b) = (zlen a + zlen b)%Z.
Proof. unfold zlen. rewrite length_app. lia. Qed.
Lemma zlen_pos a : (0 <= zlen a)%Z.
Proof. unfold zlen. lia. Qed.
Lemma zlen_le n z : zlen (le_bytes n z) = Z.of_nat n.
Proof. unfold zlen. by rewrite length_le_bytes. Qed.

Lemma crc32_bound l : (0 <= crc32 l < u32_mod)%Z.
Proof.
  assert (Hbit : forall c, (0 <= c < 2 ^ 32)%Z -> (0 <= crc32_bit c < 2 ^ 32)%Z).
  { intros c Hc. unfold crc32_bit. apply (lxor_bound 32).
    - lia.
    - rewrite Z.shiftr_div_pow2 by lia. split; [apply Z.div_pos; lia|]. apply Z.div_lt_upper_bound; lia.
    - set (x := Z.land _ _). assert (Hx : (0 <= x)%Z) by (apply Z.land_nonneg; lia). split; [done|].
      destruct (Z.eq_dec x 0) as [->|]; [lia|]. apply Z.log2_lt_pow2; [lia|].
      eapply Z.le_lt_trans; [apply Z.log2_land; [lia|apply Z.mod_pos_bound; done]|]. cbn. lia. }
  assert (Hbyte : forall c b, (0 <= c < 2 ^ 32)%Z -> (0 <= crc32_byte c b < 2 ^ 32)%Z).
  { intros c b Hc. unfold crc32_byte. apply Nat.iter_invariant; [exact Hbit|].
    apply (lxor_bound 32); [lia|done|]. pose proof (bz_bound b). lia. }
  assert (Hfold : forall l c, (0 <= c < 2 ^ 32)%Z -> (0 <= foldl crc32_byte c l < 2 ^ 32)%Z).
  { clear l. intros l. induction l as [|b l IH]; intros c Hc; cbn; [done|]. by apply IH, Hbyte. }
  apply (lxor_bound 32); [lia|by apply Hfold|lia].
Qed.

(** What [produce] can be asked to queue, and what fits a frame. *)
Definition encodable (e : Entry) : Prop :=
  utf8_valid e.1.1 = true /\ (zlen e.1.1 <= u16_max)%Z /\ (zlen e.1.2 < u32_mod)%Z.
Definition body_of (e : Entry) : bytes :=
  le_bytes 2 (zlen e.1.1) ++ e.1.1 ++ le_bytes 4 (zlen e.1.2) ++ e.1.2 ++ e.2.
Definition framed (e : Entry) : Prop := encodable e /\ (zlen (body_of e) < u32_mod)%Z.

Lemma encode_body_Some topic key payload body :
  utf8_valid topic = true ->
  encode_body topic key payload = Some body <-> encodable (topic, key, payload) /\ body = body_of (topic, key, payload).
Proof.
  intros Hu. unfold encode_body, encodable, body_of. cbn [fst snd].
  destruct (Z.ltb_spec u16_max (zlen topic)); [split; [done|intros ((_ & ? & _) & _); lia]|].
  destruct (Z.leb_spec u32_mod (zlen key)); [split; [done|intros ((_ & _ & ?) & _); lia]|].
  split; [by intros [= <-]|by intros [_ ->]].
Qed.
Lemma get_range_app a b c n k : n = length a -> k = length b -> get_range (a ++ b ++ c) n k = Some b.
Proof.
  intros -> ->. unfold get_range. rewrite !length_app. rewrite (proj2 (Nat.leb_le _ _)) by lia.
  by rewrite drop_app_length, take_app_length.
Qed.
Lemma get_range_head b c k : k = length b -> get_range (b ++ c) 0 k = Some b.
Proof. by apply (get_range_app []). Qed.
Lemma decode_encode e : encodable e -> decode_body (body_of e) = Some e.
Proof.
  destruct e as [[topic key] payload]. intros (Hu & Ht & Hk). unfold body_of, decode_body. cbn [fst snd] in *.
  unfold zlen, u16_max, u32_mod in *.
  rewrite get_range_head by (rewrite ?length_le_bytes; done). cbn [fmap option_fmap option_map mbind option_bind].
  rewrite from_le_bytes_le by lia. rewrite Nat2Z.id.
  rewrite (get_range_app (le_bytes 2 _) topic _ 2) by (rewrite ?length_le_bytes; done). cbn [mbind option_bind].
  rewrite (proj2 (from_utf8_Some _ _) (conj eq_refl Hu)). cbn [mbind option_bind].
  set (hd := le_bytes 2 (Z.of_nat (length topic))).
  assert (Hhd : length hd = 2) by apply length_le_bytes.
  rewrite (app_assoc hd). rewrite (get_range_app (hd ++ topic)) by (rewrite ?length_app, ?length_le_bytes; lia).
  cbn [fmap option_fmap option_map mbind option_bind]. rewrite from_le_bytes_le by lia. rewrite Nat2Z.id.
  set (kl := le_bytes 4 _). assert (Hkl : length kl = 4) by apply length_le_bytes.
  rewrite (app_assoc (hd ++ topic)).
  rewrite (get_range_app ((hd ++ topic) ++ kl) key) by (rewrite ?length_app; lia). cbn [mbind option_bind].
  rewrite (proj2 (Nat.leb_le _ _)) by (rewrite !length_app; lia).
  rewrite app_assoc. rewrite drop_app_length' by (rewrite !length_app; lia). done.
Qed.

Lemma read_exact_app a b c n k : n = zlen a -> k = zlen b -> read_exact (a ++ b ++ c) n k = Some b.
Proof.
  intros -> ->. unfold read_exact, zlen. rewrite !Nat2Z.id, drop_app_length, take_app_length. by rewrite Z.eqb_refl.
Qed.
Lemma zlen_frame body : zlen (frame body) = (8 + zlen body)%Z.
Proof. unfold frame. rewrite !zlen_app, !zlen_le. lia. Qed.
Lemma read_frame_app a e c :
  framed e -> read_frame (a ++ frame (body_of e) ++ c) (zlen a) = Some (MkWalRecord e (zlen (a ++ frame (body_of e)))).
Proof.
  intros [He Hb]. unfold read_frame. set (body := body_of e) in *.
  set (hd := le_bytes 4 (zlen body) ++ le_bytes 4 (crc32 body)).
  assert (Hf : frame body = hd ++ body) by (unfold frame, hd; by rewrite <- app_assoc).
  assert (Hhd : zlen hd = 8%Z) by (unfold hd; by rewrite zlen_app, !zlen_le).
  rewrite Hf, <- app_assoc. rewrite (read_exact_app a hd) by done. cbn [mbind option_bind].
  assert (Hlen : take 4 hd = le_bytes 4 (zlen body)) by (unfold hd; apply take_app_length'; by rewrite length_le_bytes).
  assert (Hcrc : take 4 (drop 4 hd) = le_bytes 4 (crc32 body)).
  { unfold hd. rewrite drop_app_length' by by rewrite length_le_bytes. apply take_ge. by rewrite length_le_bytes. }
  rewrite Hlen, Hcrc.
  pose proof (zlen_pos body). pose proof (crc32_bound body). unfold u32_mod in *.
  rewrite !from_le_bytes_le by (change (256 ^ Z.of_nat 4)%Z with 4294967296%Z; lia). rewrite app_assoc.
  rewrite (read_exact_app (a ++ hd) body) by (rewrite ?zlen_app; lia). cbn [mbind option_bind].
  rewrite Z.eqb_refl. cbn [negb]. unfold body. rewrite decode_encode by done. cbn [mbind option_bind].
  change (body_of e) with body. rewrite !zlen_app, Hhd. do 2 f_equal. lia.
Qed.

(** ** The log as a queue

    [holds w q]: the undelivered records of [w] are those of [q], the oldest first.  What
    precedes them has been acknowledged; what follows them a failed append has left. *)
Definition frames (q : list Entry) : bytes := mjoin ((fun e => frame (body_of e)) <$> q).
Record holds (w : Wal) (q : list Entry) : Prop := {
  holds_log : exists pre junk, log w = pre ++ frames q ++ junk
              /\ zlen pre = read_offset w /\ zlen (pre ++ frames q) = write_offset w;
  holds_framed : Forall framed q;
  holds_cap : (write_offset w <= max_bytes w < u64_max)%Z;
  holds_ckpt : read_ckpt (ckpt w) = read_offset w
}.

Lemma frames_cons e q : frames (e :: q) = frame (body_of e) ++ frames q.
Proof. done. Qed.
Lemma frames_app q1 q2 : frames (q1 ++ q2) = frames q1 ++ frames q2.
Proof. unfold frames. by rewrite fmap_app, join_app. Qed.
Lemma frames_pos e q : (14 <= zlen (frames (e :: q)))%Z.
Proof.
  rewrite frames_cons, zlen_app, zlen_frame. unfold body_of. rewrite !zlen_app, !zlen_le.
  pose proof (zlen_pos (frames q)). pose proof (zlen_pos e.1.1). pose proof (zlen_pos e.1.2). pose proof (zlen_pos e.2). lia.
Qed.
Lemma read_ckpt_persist z : (0 <= z <= u64_max)%Z -> read_ckpt (persist_ckpt z) = z.
Proof.
  intros Hz. unfold read_ckpt, persist_ckpt. rewrite length_le_bytes. cbn [Nat.leb].
  rewrite take_ge by by rewrite length_le_bytes. apply from_le_bytes_le. unfold u64_max in Hz.
  change (256 ^ Z.of_nat 8)%Z with 18446744073709551616%Z. lia.
Qed.
Lemma file_write_app a c b : exists c', file_write (a ++ c) (zlen a) b = a ++ b ++ c'.
Proof.
  unfold file_write, zlen. rewrite Nat2Z.id. destruct b as [|x b]; [by exists c|].
  exists (drop (length (x :: b)) c). rewrite take_app_length, length_app.
  replace (length a - (length a + length c)) with 0 by lia. cbn [zeros replicate app].
  f_equal. f_equal. f_equal. rewrite drop_app_ge by lia. f_equal. cbn. lia.
Qed.
Lemma append_holds w q topic key payload fault :
  utf8_valid topic = true -> holds w q ->
  match append w topic key payload fault with
  | (Ok _, w') => holds w' (q ++ [(topic, key, payload)])
  | (Err _, w') => holds w' q
  end.
Proof.
  intros Hu Hw. pose proof Hw as [(pre & junk & Hlog & Hr & Hwr) Hf Hcap Hck]. unfold append.
  destruct (encode_body topic key payload) as [body|] eqn:Hb; [|done]. apply encode_body_Some in Hb as [He ->]; [|done].
  set (e := (topic, key, payload)) in *. destruct (Z.ltb_spec (max_bytes w) (u64_saturating_add (write_offset w) (8 + zlen (body_of e)))) as [|Hfit];
    [done|].
  unfold u64_saturating_add in Hfit. unfold write_at. destruct (Z.leb_spec u32_mod (zlen (body_of e))) as [|Hlen]; [by destruct w|].
  assert (Hwrite : forall b, exists junk', file_write (log w) (write_offset w) b = pre ++ frames q ++ b ++ junk').
  { intros b. rewrite Hlog, app_assoc, <- Hwr. destruct (file_write_app (pre ++ frames q) junk b) as [c' ->].
    exists c'. by rewrite <- app_assoc. }
  destruct fault as [k|].
  - destruct (Hwrite (take k (frame (body_of e)))) as [junk' ->]. constructor; cbn [commit rec_next wal_open snd log ckpt read_offset write_offset max_bytes]; [|done..]. by eexists _, _.
  - destruct (Hwrite (frame (body_of e))) as [junk' ->]. constructor; cbn [commit rec_next wal_open snd log ckpt read_offset write_offset max_bytes].
    + exists pre, junk'. rewrite frames_app. change (frames [e]) with (frame (body_of e) ++ []).
      rewrite app_nil_r, <- !app_assoc. split; [done|]. split; [done|]. rewrite app_assoc, zlen_app, Hwr, zlen_frame. lia.
    + apply Forall_app. split; [done|]. by apply Forall_singleton.
    + lia.
    + done.
Qed.
Lemma next_holds w q :
  holds w q ->
  match wal_next w with
  | (Some r, w') => exists q', q = entry r :: q' /\ w' = w /\ holds (commit w (rec_next r)) q'
  | (None, w') => q = [] /\ w' = w
  end.
Proof.
  intros [(pre & junk & Hlog & Hr & Hwr) Hf Hcap Hck]. unfold wal_next. pose proof (zlen_pos pre).
  destruct q as [|e q].
  - change (frames []) with (@nil ascii) in Hwr. rewrite app_nil_r in Hwr. by rewrite (proj2 (Z.leb_le _ _)) by lia.
  - rewrite zlen_app in Hwr. pose proof (frames_pos e q). rewrite (proj2 (Z.leb_gt _ _)) by lia.
    apply Forall_cons in Hf as [He Hf]. rewrite Hlog, <- Hr, frames_cons, <- app_assoc, read_frame_app by done.
    exists q. split; [done|]. split; [done|]. rewrite frames_cons in Hwr. rewrite !zlen_app in *.
    pose proof (zlen_pos (frame (body_of e))). pose proof (zlen_pos (frames q)). constructor; cbn [commit rec_next wal_open snd log ckpt read_offset write_offset max_bytes].
    + exists (pre ++ frame (body_of e)), junk. rewrite <- !app_assoc. rewrite Hlog, frames_cons, <- app_assoc, !zlen_app.
      repeat split; lia.
    + done.
    + done.
    + apply read_ckpt_persist. lia.
Qed.
Lemma holds_read_le w q :
  holds w q -> (0 <= read_offset w <= write_offset w)%Z
  /\ (q = [] -> write_offset w = read_offset w) /\ (q <> [] -> (read_offset w < write_offset w)%Z).
Proof.
  intros [(pre & junk & Hlog & Hr & Hwr) _ _ _]. rewrite zlen_app in Hwr. pose proof (zlen_pos pre). destruct q as [|e q].
  - change (zlen (frames [])) with 0%Z in Hwr. split; [lia|]. split; [lia|done].
  - pose proof (frames_pos e q). split; [lia|]. split; [done|lia].
Qed.
Lemma holds_ends w q : holds w q -> write_offset w = (read_offset w + zlen (frames q))%Z.
Proof. intros [(pre & junk & _ & Hr & Hwr) _ _ _]. rewrite zlen_app in Hwr. lia. Qed.
Lemma compact_holds w q :
  holds w q -> (read_offset w < compact_threshold w)%Z \/ q = [] -> holds (maybe_compact w).2 q.
Proof.
  intros Hw Hcase. destruct (holds_read_le w q Hw) as (Hle & He & Hne'). unfold maybe_compact.
  destruct (Z.eqb_spec (read_offset w) 0) as [|Hr0]; [done|].
  destruct (decide (q = [])) as [->|Hne].
  - specialize (He eq_refl). rewrite (proj2 (Z.leb_le (write_offset w) (read_offset w))) by lia. cbn [negb andb orb].
    cbv zeta. replace (write_offset w - read_offset w)%Z with 0%Z by lia. cbn [Z.ltb Z.compare].
    destruct Hw as [_ _ Hcap _]. constructor; cbn [commit rec_next wal_open snd log ckpt read_offset write_offset max_bytes]; [|done|lia|done].
    by exists [], [].
  - rewrite (proj2 (Z.leb_gt (write_offset w) (read_offset w))) by auto.
    destruct Hcase as [Hlt|]; [|done]. by rewrite (proj2 (Z.ltb_lt _ _)).
Qed.
(** ** Torn logs

    [keeps w q]: the records of [q] are the undelivered ones, and what follows them in the
    file is behind the end of the log, or is a torn record that the log goes on past. *)
Definition with_end (w : Wal) (n : Z) : Wal := MkWal (log w) (ckpt w) n (read_offset w) (compact_threshold w) (max_bytes w).
Definition keeps (w : Wal) (q : list Entry) : Prop :=
  (zlen (log w) <= max_bytes w)%Z
  /\ exists n, holds (with_end w n) q
       /\ (n = write_offset w
           \/ (n < write_offset w)%Z /\ write_offset w = zlen (log w) /\ read_frame (log w) n = None).
Lemma with_end_id w : with_end w (write_offset w) = w.
Proof. by destruct w. Qed.
Lemma holds_length w q : holds w q -> (0 <= read_offset w <= write_offset w)%Z /\ (write_offset w <= zlen (log w))%Z.
Proof.
  intros Hw. destruct (holds_read_le w q Hw) as [Hle _]. destruct Hw as [(pre & junk & Hlog & _ & Hwr) _ _ _]. split; [done|].
  rewrite Hlog, app_assoc, zlen_app, Hwr. pose proof (zlen_pos junk). lia.
Qed.
Lemma holds_keeps w q : (zlen (log w) <= max_bytes w)%Z -> holds w q -> keeps w q.
Proof. intros Hl Hw. split; [done|]. exists (write_offset w). rewrite with_end_id. auto. Qed.
(** Without torn bytes before its end a log holds what it keeps. *)
Lemma reads_frames file end_ at_ : reads_through file end_ at_ ->
  forall pre q t, file = pre ++ frames q ++ t -> at_ = zlen pre -> Forall framed q ->
  (zlen (pre ++ frames q) <= end_)%Z -> read_frame file (zlen (pre ++ frames q)) = None \/ end_ = zlen (pre ++ frames q) ->
  end_ = zlen (pre ++ frames q).
Proof.
  induction 1 as [|at_ r Hr _ IH]; intros pre q t Hfile Hat Hf Hle Hend.
  - destruct q as [|e q]; [change (frames []) with (@nil ascii); by rewrite app_nil_r|].
    rewrite zlen_app in Hle. pose proof (frames_pos e q). lia.
  - destruct Hend as [Hnone|]; [|done]. destruct q as [|e q].
    + change (frames []) with (@nil ascii) in Hnone. rewrite app_nil_r in Hnone. congruence.
    + apply Forall_cons in Hf as [He Hf]. rewrite frames_cons, <- !app_assoc in Hfile.
      assert (Hx : read_frame file at_ = Some (MkWalRecord e (zlen (pre ++ frame (body_of e))))) by (rewrite Hfile, Hat; by apply read_frame_app).
      rewrite Hx in Hr. injection Hr as <-. rewrite frames_cons, app_assoc in *.
      apply (IH (pre ++ frame (body_of e)) q t); [by rewrite Hfile, <- !app_assoc|done|done|done|by left].
Qed.
Lemma keeps_intact w q : keeps w q -> intact w -> holds w q.
Proof.
  intros (_ & n & Hw & [->|(Hlt & _ & Hnone)]) Hi; [by rewrite with_end_id in Hw|].
  destruct Hw as [(pre & junk & Hlog & Hr & Hwr) Hf _ _]. cbn in *.
  pose proof (reads_frames _ _ _ Hi pre q junk Hlog (eq_sym Hr) Hf) as H. rewrite Hwr in H. specialize (H ltac:(lia) (or_introl Hnone)). lia.
Qed.

Lemma zlen_file_write file at_ b : (0 <= at_)%Z -> zlen (file_write file at_ b) = Z.max (zlen file) (at_ + zlen b) \/ b = [].
Proof.
  intros Hat. destruct b as [|x b]; [by right|left]. unfold file_write, zeros, zlen.
  rewrite !length_app, length_replicate, length_take, length_drop. cbn [length]. lia.
Qed.
Lemma append_length w topic key payload fault :
  (0 <= write_offset w)%Z -> (zlen (log w) <= max_bytes w < u64_max)%Z ->
  (zlen (log (append w topic key payload fault).2) <= max_bytes w)%Z.
Proof.
  intros Hw Hl. unfold append. destruct (encode_body topic key payload) as [body|]; [|cbn; lia].
  destruct (Z.ltb_spec (max_bytes w) (u64_saturating_add (write_offset w) (8 + zlen body))) as [|Hfit]; [cbn; lia|].
  unfold u64_saturating_add in Hfit. unfold write_at. destruct (u32_mod <=? zlen body)%Z; [cbn; lia|].
  assert (Hwrite : forall b, (zlen b <= 8 + zlen body)%Z -> (zlen (file_write (log w) (write_offset w) b) <= max_bytes w)%Z).
  { intros b Hb. destruct (zlen_file_write (log w) (write_offset w) b Hw) as [->| ->]; [lia|cbn; lia]. }
  pose proof (zlen_frame body) as Hz. destruct fault as [k|]; cbn [snd log]; apply Hwrite; [|lia].
  unfold zlen in *. rewrite length_take. lia.
Qed.
Lemma append_keeps w q topic key payload fault :
  utf8_valid topic = true -> intact w -> keeps w q ->
  match append w topic key payload fault with
  | (Ok _, w') => keeps w' (q ++ [(topic, key, payload)])
  | (Err _, w') => keeps w' q
  end.
Proof.
  intros Hu Hi Hk. pose proof (keeps_intact _ _ Hk Hi) as Hw. destruct (holds_read_le _ _ Hw) as [Hle _].
  pose proof (holds_cap _ _ Hw) as Hcap. pose proof (append_holds w q topic key payload fault Hu Hw) as Hw'.
  pose proof (append_length w topic key payload fault ltac:(lia) ltac:(split; [apply Hk|lia])) as Hl.
  assert (Hm : max_bytes (append w topic key payload fault).2 = max_bytes w)
    by (unfold append, write_at; by repeat (case_match; simplify_eq/=)).
  destruct (append w topic key payload fault) as [[]w']; cbn in Hl, Hm; apply holds_keeps; (done || congruence).
Qed.
(** The records that follow the oldest one begin behind its frame. *)
Lemma holds_tail w e q :
  holds w (e :: q) -> exists r, wal_next w = (Some r, w) /\ entry r = e
    /\ rec_next r = (read_offset w + zlen (frame (body_of e)))%Z /\ holds (commit w (rec_next r)) q.
Proof.
  intros Hw. pose proof (next_holds _ _ Hw) as Hn. pose proof (holds_ends _ _ Hw) as He.
  destruct (wal_next w) as [[r|] w']; [|by destruct Hn]. destruct Hn as (q' & [= -> <-] & -> & Hc).
  exists r. split; [done|]. split; [done|]. split; [|done].
  apply holds_ends in Hc. rewrite frames_cons, zlen_app in He. cbn [commit write_offset read_offset] in Hc. lia.
Qed.
Lemma commit_keeps w e q : keeps w (e :: q) -> keeps (commit w (read_offset w + zlen (frame (body_of e)))) q.
Proof.
  intros (Hl & n & Hw & Hn). destruct (holds_tail _ _ _ Hw) as (r & _ & _ & Hr & Hc). split; [done|]. exists n.
  split; [|done]. change (read_offset (with_end w n)) with (read_offset w) in Hr. by rewrite Hr in Hc.
Qed.
Lemma next_keeps w q :
  keeps w q ->
  match wal_next w with
  | (Some r, w') => exists q', q = entry r :: q' /\ w' = w /\ rec_next r = (read_offset w + zlen (frame (body_of (entry r))))%Z
  | (None, w') => q = [] /\ w' = with_end w (read_offset w) /\ keeps w' [] /\ holds w' []
  end.
Proof.
  intros (Hl & n & Hw & Hn). destruct (holds_read_le _ _ Hw) as (Hle & Hemp & Hne). cbn in Hle, Hemp, Hne.
  destruct q as [|e q].
  - specialize (Hemp eq_refl). subst n.
    assert (Hnx : wal_next w = (None, with_end w (read_offset w))).
    { unfold wal_next. destruct Hn as [Hn|(Hlt & _ & Hnone)].
      - rewrite (proj2 (Z.leb_le _ _)), Hn by lia. by rewrite with_end_id.
      - by rewrite (proj2 (Z.leb_gt _ _)), Hnone by lia. }
    rewrite Hnx. split; [done|]. split; [done|]. split; [by apply holds_keeps|done].
  - destruct (holds_tail _ _ _ Hw) as (r & Hx & <- & Hr & _). specialize (Hne ltac:(done)).
    assert (Hnx : wal_next w = (Some r, w)).
    { unfold wal_next in *. cbn [with_end write_offset read_offset log] in Hx. rewrite (proj2 (Z.leb_gt _ _)) in Hx by lia.
      rewrite (proj2 (Z.leb_gt _ _)) by (destruct Hn as [<-|[? _]]; lia).
      destruct (read_frame (log w) (read_offset w)); by simplify_eq. }
    rewrite Hnx. by exists q.
Qed.
Lemma keeps_ends w q : keeps w q -> (read_offset w + zlen (frames q) <= write_offset w)%Z.
Proof. intros (_ & n & Hw & Hn). apply holds_ends in Hw. cbn in Hw. destruct Hn as [->|[? _]]; lia. Qed.
Lemma compact_keeps w q :
  keeps w q -> (max_bytes w < compact_threshold w)%Z -> keeps (maybe_compact w).2 q.
Proof.
  intros (Hl & n & Hw & [->|(Hlt & Hwl & Hnone)]) Hthr.
  - rewrite with_end_id in Hw. destruct (holds_length _ _ Hw) as [Hle _]. pose proof (holds_cap _ _ Hw) as Hcap.
    pose proof (compact_holds w q Hw ltac:(left; lia)) as Hw'. apply holds_keeps; [|done].
    unfold maybe_compact in *. destruct (Z.eqb_spec (read_offset w) 0) as [|Hr0]; cbn [orb snd log max_bytes] in *; [done|].
    rewrite (proj2 (Z.ltb_lt (read_offset w) (compact_threshold w))) in * by lia. rewrite andb_true_r in *.
    destruct (Z.leb_spec (write_offset w) (read_offset w)) as [Hc|Hc]; cbn [negb] in *; [|done].
    cbv zeta in *. replace (write_offset w - read_offset w)%Z with 0%Z in * by lia. cbn [Z.ltb Z.compare snd log max_bytes] in *.
    change (set_len (log w) 0) with (@nil ascii). change (zlen []) with 0%Z. lia.
  - destruct (holds_length _ _ Hw) as [[Hr0 Hr] Hn]. pose proof (holds_cap _ _ Hw) as Hcap. cbn in *.
    assert (Hsame : maybe_compact w = (Ok tt, w)).
    { unfold maybe_compact. rewrite (proj2 (Z.leb_gt (write_offset w) (read_offset w))) by lia.
      rewrite (proj2 (Z.ltb_lt (read_offset w) (compact_threshold w))) by lia. by rewrite orb_true_r. }
    rewrite Hsame. split; [done|]. exists n. auto.
Qed.
Lemma reopen_keeps w q :
  keeps w q -> read_frame (log w) (write_offset w) = None -> keeps (wal_open (log w) (ckpt w) (max_bytes w) (compact_threshold w)) q.
Proof.
  intros (Hl & n & Hw & Hn) Hnone. destruct (holds_length _ _ Hw) as [Hle Hlen]. pose proof (holds_ckpt _ _ Hw) as Hck.
  pose proof (holds_cap _ _ Hw) as Hcap. cbn in *.
  assert (Hopen : wal_open (log w) (ckpt w) (max_bytes w) (compact_threshold w) = with_end w (zlen (log w))).
  { unfold wal_open, with_end. rewrite Hck, Z.min_l by lia. done. }
  rewrite Hopen. split; [done|]. exists n. split; [exact Hw|]. cbn.
  destruct Hn as [->|(Hlt & Hwl & Hnn)]; [|right; by rewrite <- Hwl].
  destruct (Z.eq_dec (write_offset w) (zlen (log w))) as [|Hne]; [by left|]. right. split; [lia|done].
Qed.

(** ** Delivery

    [redelivers del done]: [del] is [done] with some records repeated, next to themselves. *)
Inductive redelivers : list Entry -> list Entry -> Prop :=
| redelivers_none : redelivers [] []
| redelivers_new del done e : redelivers del done -> redelivers (del ++ [e]) (done ++ [e])
| redelivers_again del done e : redelivers del (done ++ [e]) -> redelivers (del ++ [e]) (done ++ [e]).

(** The record that the drainer is at, the oldest one. *)
Definition reading (d : Durable) (q : list Entry) (r : WalRecord) : Prop :=
  rec_next r = (read_offset (d_wal d) + zlen (frame (body_of (entry r))))%Z /\ exists q', q = entry r :: q'.
(** The records that [done] has are gone from the log, those of [q] are in it; only the
    oldest of these can have been delivered already. *)
Definition delivery_inv (cfg : WalConfig) (d : Durable) (done q : list Entry) : Prop :=
  accepted d = done ++ q /\ keeps (d_wal d) q
  /\ compact_threshold (d_wal d) = cfg_compact_threshold cfg /\ max_bytes (d_wal d) = cfg_max_bytes cfg
  /\ (redelivers (delivered d) done \/ exists e q', q = e :: q' /\ redelivers (delivered d) (done ++ [e]))
  /\ match drainer d with
     | Idle => True
     | Sending r => reading d q r
     | Acknowledged r => reading d q r /\ redelivers (delivered d) (done ++ [entry r])
     end.

(** How an event other than a compaction moves the records that the log holds. *)
Definition moves (w w' : Wal) (done q done' q' : list Entry) : Prop :=
  (done' = done /\ (q' = q \/ exists e, q' = q ++ [e]) /\ read_offset w' = read_offset w)
  \/ exists e, q = e :: q' /\ done' = done ++ [e] /\ read_offset w' = (read_offset w + zlen (frame (body_of e)))%Z.
Lemma moves_stay w w' done q : read_offset w' = read_offset w -> moves w w' done q done q.
Proof. intros H. left. auto. Qed.

Lemma append_config w topic key payload fault :
  compact_threshold (append w topic key payload fault).2 = compact_threshold w
  /\ max_bytes (append w topic key payload fault).2 = max_bytes w
  /\ read_offset (append w topic key payload fault).2 = read_offset w
  /\ ckpt (append w topic key payload fault).2 = ckpt w.
Proof. unfold append, write_at. by repeat (case_match; simplify_eq/=). Qed.
Lemma compact_config w :
  compact_threshold (maybe_compact w).2 = compact_threshold w /\ max_bytes (maybe_compact w).2 = max_bytes w.
Proof. unfold maybe_compact. cbv zeta. by repeat (case_match; simplify_eq/=). Qed.

Section Delivery.
Context (cfg : WalConfig) (Hcap : (cfg_max_bytes cfg < cfg_compact_threshold cfg)%Z).

Lemma produce_inv w s b acc del topic key payload fault r w' done q :
  utf8_valid topic = true -> intact w -> append w topic key payload fault = (r, w') ->
  delivery_inv cfg (MkDurable w s b acc del) done q ->
  exists q', delivery_inv cfg (MkDurable w' s b (match r with Ok _ => acc ++ [(topic, key, payload)] | Err _ => acc end) del) done q'
    /\ moves w w' done q done q'.
Proof.
  intros Hu Hi Ha (Hacc & Hw & Ht & Hm & Hd & Hs). cbn in *. pose proof (append_keeps w q topic key payload fault Hu Hi Hw) as Hw'.
  pose proof (append_config w topic key payload fault) as (Ht' & Hm' & Hr' & _). rewrite Ha in Hw', Ht', Hm', Hr'. cbn in Ht', Hm', Hr'.
  exists (match r with Ok _ => q ++ [(topic, key, payload)] | Err _ => q end). split; [unfold delivery_inv, reading in *; cbn in *|left; destruct r; eauto].
  split; [subst acc; destruct r; [by rewrite app_assoc|done]|]. split; [by destruct r|].
  split; [congruence|]. split; [congruence|]. split.
  - destruct Hd as [|(e & q' & -> & Hd)]; [by left|]. right. destruct r; cbn; eauto.
  - assert (Hq : forall e, (exists q', q = e :: q') ->
      exists q', (match r with Ok _ => q ++ [(topic, key, payload)] | Err _ => q end) = e :: q') by (intros e [q' ->]; destruct r; cbn; eauto).
    rewrite Hr'. destruct s; naive_solver.
Qed.

Lemma durable_event_inv ev d d' done q :
  durable_event cfg ev d d' -> orderly ev d -> delivery_inv cfg d done q ->
  exists done' q', delivery_inv cfg d' done' q' /\ (ev = Compacted \/ moves (d_wal d) (d_wal d') done q done' q').
Proof.
  intros Hstep Ho. destruct Hstep as [w s b acc del topic key payload fault r w' Hu Ha|w b acc del o w' Hn|w b acc del r w' Hc
    |w r b acc del|w r b acc del|w r b acc del|w s b acc del].
  - intros Hi. exists done. edestruct produce_inv as (q' & Hi' & Hv); [done..|]. exists q'. by auto.
  - intros (Hacc & Hw & Ht & Hm & Hd & _). cbn in *. pose proof (next_keeps w q Hw) as H. rewrite Hn in H.
    exists done, q. destruct o as [r|].
    + destruct H as (q' & -> & -> & Hq). split; [|by right; apply moves_stay]. unfold delivery_inv, reading. cbn. split_and!; eauto.
    + destruct H as (-> & -> & Hw' & _). split; [|by right; apply moves_stay]. unfold delivery_inv. cbn. by split_and!.
  - intros (Hacc & Hw & Ht & Hm & Hd & _). cbn in *. exists done, q. split; [|by left].
    pose proof (compact_keeps w q Hw ltac:(lia)) as Hw'. pose proof (compact_config w) as [Ht' Hm'].
    rewrite Hc in Hw', Ht', Hm'. unfold delivery_inv. cbn in *. split_and!; try done; congruence.
  - intros (Hacc & Hw & Ht & Hm & Hd & Hs & q' & ->). cbn [accepted d_wal delivered drainer] in *. exists done, (entry r :: q').
    split; [|by right; apply moves_stay].
    assert (Hr : redelivers (del ++ [entry r]) (done ++ [entry r])).
    { destruct Hd as [Hd|(e & q'' & [= <- <-] & Hd)]; by constructor. }
    unfold delivery_inv, reading. cbn. split_and!; eauto 6.
  - intros (Hacc & Hw & Ht & Hm & Hd & _). exists done, q. split; [|by right; apply moves_stay].
    unfold delivery_inv. cbn in *. by split_and!.
  - intros (Hacc & Hw & Ht & Hm & Hd & (Hs & q' & ->) & Hr). cbn [accepted d_wal delivered drainer] in *. exists (done ++ [entry r]), q'.
    pose proof (commit_keeps _ _ _ Hw) as Hw'. rewrite <- Hs in Hw'. split.
    + unfold delivery_inv. cbn. split_and!; try done; [by rewrite <- app_assoc|by left].
    + right. right. by exists (entry r).
  - intros (Hacc & Hw & Ht & Hm & Hd & _). cbn in *. exists done, q. rewrite <- Ht, <- Hm. split.
    + unfold delivery_inv. cbn. split_and!; try done. by apply reopen_keeps.
    + right. apply moves_stay. cbn. destruct Hw as (_ & n & Hw & Hn). pose proof (holds_ckpt _ _ Hw) as Hck.
      destruct (holds_length _ _ Hw). cbn in *. lia.
Qed.
(** An empty directory. *)
Lemma delivery_inv_start : (0 <= cfg_max_bytes cfg < u64_max)%Z -> delivery_inv cfg (spawn cfg [] []) [] [].
Proof.
  intros Hmax. unfold delivery_inv. cbn. split_and!; try done; [|left; constructor].
  apply holds_keeps; [apply Hmax|]. constructor; cbn; [by exists [], []|done|unfold zlen; cbn; lia|done].
Qed.

(** delivery is at least once and in order.  When the compaction threshold is above
    the cap of the log, however appends, their partial failures, deliveries, failed sends,
    compactions and restarts interleave in orderly steps, the records accepted since the
    directory was empty are those that were delivered, in order and repeated only next to
    themselves, followed by those the log still keeps. *)
Theorem accepted_records_are_delivered_or_held d :
  (0 <= cfg_max_bytes cfg < u64_max)%Z -> rtc (orderly_step cfg) (spawn cfg [] []) d ->
  exists done q, accepted d = done ++ q /\ keeps (d_wal d) q
    /\ (redelivers (delivered d) done \/ exists e q', q = e :: q' /\ redelivers (delivered d) (done ++ [e])).
Proof.
  intros Hmax Hr. assert (Hi : exists done q, delivery_inv cfg (spawn cfg [] []) done q) by eauto using delivery_inv_start.
  revert Hi. induction Hr as [d|d d' d'' (ev & Hs & Ho) _ IH].
  - intros (done & q & Hacc & Hw & _ & _ & Hd & _). eauto.
  - intros (done & q & Hi). apply IH. destruct (durable_event_inv _ _ _ _ _ Hs Ho Hi) as (done' & q' & Hi' & _). eauto.
Qed.
End Delivery.

(** ** Torn records *)
Lemma read_exact_short a b n k : n = zlen a -> (zlen b < k)%Z -> read_exact (a ++ b) n k = None.
Proof.
  intros -> Hk. unfold read_exact, zlen in *. rewrite Nat2Z.id, drop_app_length, take_ge by lia. by rewrite (proj2 (Z.eqb_neq _ _)) by lia.
Qed.
Lemma read_frame_torn a body k :
  (zlen body < u32_mod)%Z -> k < length (frame body) -> read_frame (a ++ take k (frame body)) (zlen a) = None.
Proof.
  intros Hb Hk. pose proof (zlen_frame body) as Hl. unfold zlen in Hl. unfold read_frame.
  destruct (decide (k < 8)) as [Hk8|Hk8].
  { rewrite read_exact_short; [done..|]. unfold zlen. rewrite length_take. lia. }
  set (hd := le_bytes 4 (zlen body) ++ le_bytes 4 (crc32 body)).
  assert (Hf : frame body = hd ++ body) by (unfold frame, hd; by rewrite <- app_assoc).
  assert (Hhd : length hd = 8) by (unfold hd; by rewrite length_app, !length_le_bytes).
  rewrite Hf, take_app, take_ge by lia. rewrite (read_exact_app a hd); [|done|unfold zlen; by rewrite Hhd]. cbn [mbind option_bind].
  assert (Hlen : take 4 hd = le_bytes 4 (zlen body)) by (unfold hd; apply take_app_length'; by rewrite length_le_bytes).
  pose proof (zlen_pos body). unfold u32_mod in Hb.
  rewrite Hlen, from_le_bytes_le by (change (256 ^ Z.of_nat 4)%Z with 4294967296%Z; lia).
  rewrite app_assoc, read_exact_short; [done|rewrite zlen_app; unfold zlen; lia|].
  unfold zlen. rewrite length_take. lia.
Qed.

(** Compaction loses the backlog.  When the acknowledged prefix has reached the
    threshold while records are still undelivered, [maybe_compact] writes the live tail
    back as the body of a new frame and cuts the file to the length of the tail: the next
    read finds a torn record at the start and discards everything. *)
Theorem compaction_loses_backlog w q :
  holds w q -> q <> [] -> (0 < read_offset w)%Z -> (compact_threshold w <= read_offset w)%Z ->
  (write_offset w - read_offset w < u32_mod)%Z ->
  (maybe_compact w).1 = Ok tt /\ (wal_next (maybe_compact w).2).1 = None
  /\ holds (wal_next (maybe_compact w).2).2 [].
Proof.
  intros Hw Hq Hr Hthr Hlive. destruct (holds_read_le w q Hw) as (_ & _ & Hlt). specialize (Hlt Hq).
  pose proof Hw as [(pre & junk & Hlog & Hpre & Hwr) _ Hcap _]. rewrite zlen_app in Hwr.
  set (F := frames q) in *. assert (HF : zlen F = (write_offset w - read_offset w)%Z) by lia.
  assert (Hc : maybe_compact w = (Ok tt, MkWal (take (length F) (frame F)) (persist_ckpt 0) (zlen F) 0 (compact_threshold w) (max_bytes w))).
  { unfold maybe_compact. cbv zeta. rewrite (proj2 (Z.eqb_neq _ _)), (proj2 (Z.leb_gt _ _)), (proj2 (Z.ltb_ge (read_offset w) _)) by lia.
    cbn [negb andb orb]. rewrite <- HF. rewrite (proj2 (Z.ltb_lt _ _)) by lia.
    rewrite Hlog, read_exact_app by lia. unfold write_at. rewrite (proj2 (Z.leb_gt _ _)) by lia.
    destruct (file_write_app [] (pre ++ F ++ junk) (frame F)) as [c Hfw]. cbn [app] in Hfw. change (zlen []) with 0%Z in Hfw.
    rewrite Hfw. pose proof (zlen_frame F) as Hl. unfold set_len, zlen in *. rewrite Nat2Z.id.
    rewrite take_app_le by lia. rewrite length_app. replace (length F - _) with 0 by lia. by rewrite app_nil_r. }
  rewrite Hc. cbn [fst snd]. split; [done|]. unfold wal_next. cbn [write_offset read_offset log]. rewrite (proj2 (Z.leb_gt _ _)) by lia.
  assert (Ht : read_frame (take (length F) (frame F)) 0 = None).
  { apply (read_frame_torn []); [lia|]. pose proof (zlen_frame F) as Hl. unfold zlen in Hl. lia. }
  rewrite Ht. cbn. split; [done|]. constructor; cbn; [|done|lia|done]. exists [], (take (length F) (frame F)). done.
Qed.

(** What a drainer whose sends all succeed delivers in [n] rounds. *)
Fixpoint deliver (n : nat) (w : Wal) : list Entry * Wal :=
  match n with
  | 0 => ([], w)
  | S n => match wal_next w with
           | (None, w) => ([], w)
           | (Some r, w) => let '(es, w) := deliver n (commit w (rec_next r)) in (entry r :: es, w)
           end
  end.

Lemma deliver_some n w r w' :
  wal_next w = (Some r, w') ->
  deliver (S n) w = let '(es, w'') := deliver n (commit w' (rec_next r)) in (entry r :: es, w'').
Proof. intros H. cbn [deliver]. by rewrite H. Qed.
(** The records a log keeps are what a drainer whose sends succeed sends next. *)
Lemma deliver_keeps q : forall w, keeps w q -> exists w', deliver (S (length q)) w = (q, w')
  /\ holds w' [] /\ write_offset w' = (read_offset w + zlen (frames q))%Z.
Proof.
  induction q as [|e q IH]; intros w Hw; pose proof (next_keeps w _ Hw) as Hn; destruct (wal_next w) as [[r|] w'] eqn:Hx.
  - by destruct Hn as (? & ? & _).
  - destruct Hn as (_ & -> & _ & Hh). eexists. cbn [deliver length]. rewrite Hx. split; [done|]. split; [done|].
    change (zlen (frames [])) with 0%Z. cbn. lia.
  - destruct Hn as (q' & [= -> <-] & -> & Hr). pose proof (commit_keeps _ _ _ Hw) as Hc. rewrite <- Hr in Hc.
    destruct (IH _ Hc) as (w'' & Hd & He & Ho). exists w''. cbn [length]. rewrite (deliver_some _ _ _ _ Hx), Hd.
    split; [done|]. split; [done|]. rewrite frames_cons, zlen_app. cbn [commit read_offset] in Ho. lia.
  - by destruct Hn.
Qed.
(** What a new process keeps of a file whose records are followed by bytes that do not read
    as one. *)
Lemma open_keeps pre q t ck cap thr :
  let file := pre ++ frames q ++ t in
  Forall framed q -> read_frame file (zlen (pre ++ frames q)) = None -> (zlen file <= cap < u64_max)%Z ->
  read_ckpt ck = zlen pre -> keeps (wal_open file ck cap thr) q /\ read_offset (wal_open file ck cap thr) = zlen pre.
Proof.
  intros file Hq Hnone Hmax Hck. assert (Hlen : zlen file = (zlen (pre ++ frames q) + zlen t)%Z).
  { unfold file. by rewrite app_assoc, zlen_app. }
  pose proof (zlen_pos t) as Ht. pose proof (zlen_pos (frames q)) as Hf. rewrite zlen_app in Hlen.
  assert (Hr : read_offset (wal_open file ck cap thr) = zlen pre) by (cbn; rewrite Hck; lia).
  split; [|done]. split; [cbn; lia|]. exists (zlen (pre ++ frames q)). split.
  - constructor; [|done|cbn; rewrite zlen_app; lia|cbn [with_end ckpt read_offset]; by rewrite Hr].
    exists pre, t. split; [done|]. split; [by symmetry|done].
  - cbn. destruct (Z.eq_dec (zlen t) 0) as [Hz|Hz]; [left|right]; rewrite zlen_app; [lia|]. rewrite zlen_app in Hnone.
    split; [lia|done].
Qed.
(** A part of a file has no more records than the file. *)
Lemma read_exact_cut file n at_ k b : read_exact (take n file) at_ k = Some b -> read_exact file at_ k = Some b.
Proof.
  unfold read_exact, zlen. intros H. case_match eqn:Hk; [|done]. injection H as <-. apply Z.eqb_eq in Hk.
  assert (Heq : take (Z.to_nat k) (drop (Z.to_nat at_) file) = take (Z.to_nat k) (drop (Z.to_nat at_) (take n file))).
  { rewrite length_take, length_drop, length_take in Hk. destruct (decide (k <= 0)%Z); [by replace (Z.to_nat k) with 0 by lia|].
    rewrite <- (take_drop n file) at 1. destruct (decide (n <= length file)).
    - rewrite drop_app_le, take_app_le by (rewrite ?length_drop, ?length_take; lia). done.
    - by rewrite (drop_ge file n), app_nil_r by lia. }
  rewrite Heq. rewrite (proj2 (Z.eqb_eq _ _) Hk). done.
Qed.
Lemma read_frame_cut file n at_ : read_frame file at_ = None -> read_frame (take n file) at_ = None.
Proof.
  intros Hnone. destruct (read_frame (take n file) at_) as [r|] eqn:Hr; [|done]. enough (read_frame file at_ = Some r) by congruence.
  revert Hr. clear Hnone. unfold read_frame. destruct (read_exact (take n file) at_ 8) as [hd|] eqn:Hh; [|done].
  rewrite (read_exact_cut _ _ _ _ _ Hh). cbn [mbind option_bind].
  destruct (read_exact (take n file) (at_ + 8) (from_le_bytes (take 4 hd))) as [body|] eqn:Hb; [|done].
  by rewrite (read_exact_cut _ _ _ _ _ Hb).
Qed.

(** Recovery replays exactly the undelivered records.  A process died with [q] in
    the log after its checkpoint, and perhaps while it was appending [e], of which any
    part short of the whole is in the file.  Reopened, the log delivers [q] in order, then
    finds the torn record, discards it and is empty. *)
Theorem recovery_replays_undelivered pre q e k cap thr :
  Forall framed q -> framed e -> k < length (frame (body_of e)) ->
  (zlen (pre ++ frames q ++ take k (frame (body_of e))) <= cap < u64_max)%Z ->
  let w := wal_open (pre ++ frames q ++ take k (frame (body_of e))) (persist_ckpt (zlen pre)) cap thr in
  exists w', deliver (S (length q)) w = (q, w') /\ holds w' [] /\ write_offset w' = zlen (pre ++ frames q).
Proof.
  intros Hq He Hk Hmax w. assert (Hck : read_ckpt (persist_ckpt (zlen pre)) = zlen pre).
  { apply read_ckpt_persist. rewrite zlen_app in Hmax. pose proof (zlen_pos pre).
    pose proof (zlen_pos (frames q ++ take k (frame (body_of e)))). lia. }
  assert (Hnone : read_frame (pre ++ frames q ++ take k (frame (body_of e))) (zlen (pre ++ frames q)) = None)
    by (rewrite app_assoc; by apply read_frame_torn, Hk; destruct He).
  destruct (open_keeps pre q _ _ cap thr Hq Hnone Hmax Hck) as [Hw Hr]. rewrite zlen_app, <- Hr. by apply deliver_keeps.
Qed.

(** ** Concrete runs *)
Section Runs.
Definition rec1 : Entry := (lit "t", lit "k1", lit "v").
Definition rec2 : Entry := (lit "t", lit "k2", lit "w").
Definition cfg1 : WalConfig := MkWalConfig 100 200 1 4 1.
Definition wal1 : Wal := (append (wal_open [] [] 100 200) (lit "t") (lit "k1") (lit "v") None).2.

Lemma rec_framed : framed rec1 /\ framed rec2.
Proof. unfold framed, encodable. vm_compute. intuition discriminate. Qed.

(** A crash after the broker's answer delivers the record again. *)
Definition rec1_read : WalRecord := MkWalRecord rec1 18.
Definition twice : Durable :=
  MkDurable (commit (wal_open (log wal1) [] 100 200) 18) Idle 1 [rec1] [rec1; rec1].
Lemma orderly_l ev d d' d'' :
  durable_event cfg1 ev d d' -> orderly ev d -> rtc (orderly_step cfg1) d' d'' -> rtc (orderly_step cfg1) d d''.
Proof. intros Hs Ho Hr. eapply rtc_l; [by exists ev|done]. Qed.
Lemma twice_reachable : rtc (orderly_step cfg1) (spawn cfg1 [] []) twice.
Proof.
  eapply (orderly_l Produced); [apply (durable_produce cfg1 _ _ _ [] [] (lit "t") (lit "k1") (lit "v") None (Ok tt) wal1); reflexivity|apply reads_end|].
  eapply (orderly_l Drained); [apply (durable_next cfg1 wal1 1 [rec1] [] (Some rec1_read) wal1); vm_compute; reflexivity|done|].
  eapply (orderly_l Drained); [apply (durable_acked cfg1 wal1 rec1_read)|done|].
  eapply (orderly_l Restarted); [apply (durable_restart cfg1 wal1)|vm_compute; reflexivity|].
  eapply (orderly_l Drained); [apply (durable_next cfg1 _ 1 [rec1] [rec1] (Some rec1_read) (wal_open (log wal1) [] 100 200)); vm_compute; reflexivity|done|].
  eapply (orderly_l Drained); [apply (durable_acked cfg1 _ rec1_read)|done|].
  eapply (orderly_l Drained); [apply (durable_commit cfg1 _ rec1_read)|done|]. apply rtc_refl.
Qed.
Lemma accepted_records_are_delivered_or_held_witness :
  exists done q, [rec1] = done ++ q /\ keeps (d_wal twice) q
    /\ (redelivers [rec1; rec1] done \/ exists e q', q = e :: q' /\ redelivers [rec1; rec1] (done ++ [e])).
Proof.
  assert (Hc : (cfg_max_bytes cfg1 < cfg_compact_threshold cfg1)%Z) by (vm_compute; reflexivity).
  assert (Hm : (0 <= cfg_max_bytes cfg1 < u64_max)%Z) by (split; vm_compute; [discriminate|reflexivity]).
  exact (accepted_records_are_delivered_or_held cfg1 Hc twice Hm twice_reachable).
Defined.

(** A log with one record acknowledged and one not, whose threshold has been reached. *)
Definition wal2 : Wal :=
  MkWal (frames [rec1] ++ frames [rec2]) (persist_ckpt 18) 36 18 16 100.
Lemma wal2_holds : holds wal2 [rec2].
Proof.
  constructor; [|by apply Forall_singleton, rec_framed|vm_compute; intuition discriminate|vm_compute; reflexivity].
  exists (frames [rec1]), []. vm_compute. done.
Qed.
Lemma compaction_loses_backlog_witness :
  (maybe_compact wal2).1 = Ok tt /\ (wal_next (maybe_compact wal2).2).1 = None
  /\ holds (wal_next (maybe_compact wal2).2).2 [].
Proof. apply (compaction_loses_backlog wal2 [rec2] wal2_holds); vm_compute; done. Defined.

Lemma recovery_replays_undelivered_witness :
  let w := wal_open (frames [rec1] ++ frames [rec2] ++ take 11 (frame (body_of rec1))) (persist_ckpt (zlen (frames [rec1]))) 100 200 in
  exists w', deliver 2 w = ([rec2], w') /\ holds w' [] /\ write_offset w' = zlen (frames [rec1] ++ frames [rec2]).
Proof.
  apply (recovery_replays_undelivered (frames [rec1]) [rec2] rec1 11 100 200).
  - apply Forall_singleton, rec_framed.
  - apply rec_framed.
  - apply Nat.leb_le. vm_compute. reflexivity.
  - vm_compute. intuition discriminate.
Defined.

(** A record appended after a restart, behind the torn one, goes with it. *)
Example record_behind_torn_tail_is_lost :
  let w := wal_open (frames [rec1] ++ take 11 (frame (body_of rec2))) [] 100 200 in
  let '(r, w) := append w (lit "t") (lit "k2") (lit "w") None in
  r = Ok tt /\ (deliver 5 w).1 = [rec1].
Proof. vm_compute. done. Qed.

(** The same, from an empty directory on: an append writes a part of its record and fails,
    a new process starts, accepts a record behind that part, and the drainer discards it with
    the part.  The record is neither delivered nor in the log. *)
Definition behind_torn : Durable :=
  let w := wal_open (append (wal_open [] [] 100 200) (lit "t") (lit "k1") (lit "v") (Some 11)).2.(log) [] 100 200 in
  MkDurable (wal_next (append w (lit "t") (lit "k2") (lit "w") None).2).2 Idle 1 [rec2] [].
Example orderliness_matters :
  rtc (durable_step cfg1) (spawn cfg1 [] []) behind_torn
  /\ accepted behind_torn = [rec2] /\ delivered behind_torn = [] /\ holds (d_wal behind_torn) [].
Proof.
  split; [|split; [done|split; [done|]]].
  - eapply rtc_l; [exists Produced; apply (durable_produce cfg1 _ _ _ [] [] (lit "t") (lit "k1") (lit "v") (Some 11) (Err tt)); [done|reflexivity]|].
    eapply rtc_l; [exists Restarted; apply durable_restart|].
    eapply rtc_l; [exists Produced; apply (durable_produce cfg1 _ _ _ [] [] (lit "t") (lit "k2") (lit "w") None (Ok tt)); [done|reflexivity]|].
    eapply rtc_l; [exists Drained; apply (durable_next cfg1 _ _ _ _ None (d_wal behind_torn)); vm_compute; reflexivity|]. apply rtc_refl.
  - constructor; [|done|vm_compute; intuition discriminate|reflexivity]. exists [], (log (d_wal behind_torn)). vm_compute. done.
Qed.

(** The files of a process that dies in a compaction with nothing pending, after the log was
    cut and before the checkpoint was reset: the next run starts with a checkpoint beyond
    its log, and a record that the log grows past it with is skipped after another restart. *)
Definition cut_compaction (w : Wal) : bytes * bytes := (set_len (log w) (write_offset w - read_offset w), ckpt w).
Example interrupted_compaction_loses_a_record :
  let w := commit wal1 18 in
  let '(log1, ckpt1) := cut_compaction w in
  let '(r, w1) := append (wal_open log1 ckpt1 100 200) (lit "t") (lit "k2") (lit "w") None in
  (wal_next w).1 = None /\ r = Ok tt /\ (deliver 5 w1).1 = [rec2]
  /\ (deliver 5 (wal_open (log w1) (ckpt w1) 100 200)).1 = [].
Proof. vm_compute. done. Qed.
End Runs.
