(* ===== verification/WalPower.v ===== *)
(** * Power losses over the capture log ([crates/osproxy-kafka-wal/src]: segment, lib)

    A process that dies leaves its files as they were ([Wal]).  A machine that loses power
    leaves less: [persist_ckpt] syncs the checkpoint each time, and the log is synced by the
    drainer only, between two turns, just before it compacts.  What was written behind the
    end of the log since then may be gone.  The disk is taken to keep the writes at the end
    of a file in their order, so that a power loss cuts the log. *)
From stdpp Require Import base option list strings numbers relations.
From Stdlib Require Import Ascii ZArith Lia.
From S2P Require Import Prelude.
From S2P Require Import Wal.

Open Scope osp_scope.

(** A run, where its log ended when it was last synced, and what had been accepted then. *)
Record Powered : Type := MkPowered { p_run : Durable; p_synced : Z; p_saved : list Entry }.

Section Power.
Context (cfg : WalConfig).
Definition power_on (log ckpt : bytes) : Powered := MkPowered (spawn cfg log ckpt) (zlen log) [].
(** What the drainer discards no longer counts as synced: it is written over. *)
Definition after_event (ev : Event) (d' : Durable) (n : Z) (saved : list Entry) : Powered :=
  match ev with
  | Compacted => MkPowered d' (write_offset (d_wal d')) (accepted d')
  | Drained => MkPowered d' (Z.min n (write_offset (d_wal d'))) saved
  | Produced | Restarted => MkPowered d' n saved
  end.
Inductive powered_event (ev : Event) : Powered -> Powered -> Prop :=
| powered_durable d d' n saved :
    durable_event cfg ev d d' -> powered_event ev (MkPowered d n saved) (after_event ev d' n saved).
(** The orderly ones, as [orderly] says. *)
Definition powered_step (p p' : Powered) : Prop := exists ev, powered_event ev p p' /\ orderly ev (p_run p).
(** The files a power loss leaves. *)
Definition power_loss (p : Powered) (log1 ckpt1 : bytes) : Prop :=
  let w := d_wal (p_run p) in
  exists n, (p_synced p <= n)%Z /\ log1 = take (Z.to_nat n) (log w) /\ ckpt1 = ckpt w.
End Power.

(** ** Cut logs *)
Lemma empty_framed : framed ([], [], []).
Proof. unfold framed, encodable. vm_compute. intuition discriminate. Qed.
(** A cut of the log leaves whole frames and a part of one, and of the records those whose
    frames end before it. *)
Lemma cut_frames q : forall k, Forall framed q ->
  exists q1 e j, q1 `prefix_of` q /\ framed e /\ j < length (frame (body_of e))
    /\ take k (frames q) = frames q1 ++ take j (frame (body_of e))
    /\ forall qa, qa `prefix_of` q -> length (frames qa) <= k -> qa `prefix_of` q1.
Proof.
  induction q as [|e q IH]; intros k Hf.
  { exists [], ([], [], []), 0. split; [done|]. split; [apply empty_framed|]. split; [vm_compute; lia|].
    split; [by destruct k|]. intros qa Hqa _. exact Hqa. }
  apply Forall_cons in Hf as [He Hf]. rewrite frames_cons. destruct (decide (k < length (frame (body_of e)))) as [Hk|Hk].
  - exists [], e, k. split; [apply prefix_nil|]. split; [done|]. split; [done|]. split; [by rewrite take_app_le by lia|].
    intros [|e0 qa] Hqa Hl; [done|]. apply prefix_cons_inv_1 in Hqa as ->. rewrite frames_cons, length_app in Hl. lia.
  - destruct (IH (k - length (frame (body_of e))) Hf) as (q1 & e1 & j & Hq1 & He1 & Hj & Ht & Hqa).
    exists (e :: q1), e1, j. split; [by apply prefix_cons|]. split; [done|]. split; [done|].
    split; [by rewrite frames_cons, take_app_ge, Ht, app_assoc by lia|].
    intros [|e0 qa] Hp Hl; [apply prefix_nil|]. pose proof (prefix_cons_inv_1 _ _ _ _ Hp) as ->.
    apply prefix_cons, Hqa; [by eapply prefix_cons_inv_2|]. rewrite frames_cons, length_app in Hl. lia.
Qed.

(** ** What is saved *)
Section Saved.
Context (cfg : WalConfig) (Hcap : (cfg_max_bytes cfg < cfg_compact_threshold cfg)%Z).

(** The records that had been accepted at the last sync are gone from the log, or they end
    before the point up to which it was synced. *)
Definition saved_inv (w : Wal) (n : Z) (saved done q : list Entry) : Prop :=
  saved `prefix_of` done
  \/ exists qa, qa `prefix_of` q /\ saved = done ++ qa /\ (read_offset w + zlen (frames qa) <= n)%Z.
Definition powered_inv (p : Powered) (done q : list Entry) : Prop :=
  delivery_inv cfg (p_run p) done q /\ saved_inv (d_wal (p_run p)) (p_synced p) (p_saved p) done q.

Lemma saved_moves w w' n saved done q done' q' :
  moves w w' done q done' q' -> saved_inv w n saved done q -> saved_inv w' n saved done' q'.
Proof.
  intros [(-> & Hq & Hr)|(e & -> & -> & Hr)] Hs.
  - destruct Hs as [Hs|(qa & Hqa & -> & Hn)]; [by left|]. right. exists qa. rewrite Hr. split; [|done].
    destruct Hq as [->|[e ->]]; [done|]. by apply prefix_app_r.
  - destruct Hs as [Hs|(qa & Hqa & -> & Hn)]; [left; by apply prefix_app_r|].
    destruct qa as [|e0 qa]; [left; rewrite app_nil_r; by apply prefix_app_r|].
    pose proof (prefix_cons_inv_1 _ _ _ _ Hqa) as ->. right. exists qa. split; [by eapply prefix_cons_inv_2|].
    split; [by rewrite <- app_assoc|]. rewrite frames_cons, zlen_app in Hn. lia.
Qed.
Lemma saved_min w n saved done q :
  keeps w q -> saved_inv w n saved done q -> saved_inv w (Z.min n (write_offset w)) saved done q.
Proof.
  intros Hk [Hs|(qa & [qb ->] & -> & Hn)]; [by left|]. right. exists qa. split; [by exists qb|]. split; [done|].
  apply keeps_ends in Hk. rewrite frames_app, zlen_app in Hk. pose proof (zlen_pos (frames qb)). lia.
Qed.
Lemma powered_step_inv p p' :
  powered_step cfg p p' -> (exists done q, powered_inv p done q) -> exists done q, powered_inv p' done q.
Proof.
  intros (ev & [d d' n saved Hs] & Ho) (done & q & Hi & Hv).
  destruct (durable_event_inv cfg Hcap _ _ _ _ _ Hs Ho Hi) as (done' & q' & Hi' & Hm). pose proof Hi' as (Hacc & Hw & _).
  exists done', q'. destruct ev; (split; [done|]); cbn.
  3:{ right. exists q'. split; [done|]. split; [done|]. by apply keeps_ends. }
  2: apply saved_min; [done|].
  all: destruct Hm as [|Hm]; [done|]; by eapply saved_moves.
Qed.
(** What the next run delivers of a cut log: nothing when the cut is before the checkpoint,
    and else the records in front of the cut. *)
Lemma cut_delivers w q n log1 : keeps w q -> read_frame (log w) (write_offset w) = None ->
  max_bytes w = cfg_max_bytes cfg -> log1 = take (Z.to_nat n) (log w) ->
  exists q1 w', q1 `prefix_of` q /\ deliver (S (length q1)) (d_wal (spawn cfg log1 (ckpt w))) = (q1, w')
    /\ forall qa, qa `prefix_of` q -> (read_offset w + zlen (frames qa) <= n)%Z -> qa `prefix_of` q1 \/ (n < read_offset w)%Z.
Proof.
  intros (Hlen & m & Hw & Hm) Hnone Hmax ->. pose proof Hw as [(pre & junk & Hlog & Hpre & Hwr) Hf Hc Hck].
  cbn [with_end log read_offset write_offset max_bytes ckpt] in *. pose proof (zlen_pos pre) as Hp0. cbn [spawn d_wal].
  assert (Hend : read_frame (log w) (zlen (pre ++ frames q)) = None) by (rewrite Hwr; by destruct Hm as [->|(_ & _ & ?)]).
  destruct (Z.ltb_spec n (zlen pre)) as [Hlt|Hge].
  { exists []. eexists. split; [apply prefix_nil|]. split; [|by right; lia].
    cbn [length deliver]. unfold wal_next, wal_open. cbn [write_offset read_offset].
    rewrite (proj2 (Z.leb_le _ _)) by (rewrite Hck; unfold zlen in *; rewrite length_take; lia). done. }
  assert (Hcap1 : forall k, (zlen (take k (log w)) <= cfg_max_bytes cfg < u64_max)%Z).
  { intros k. unfold zlen in *. rewrite length_take. lia. }
  rewrite Hlog in *. assert (Hlenp : length pre <= Z.to_nat n) by (unfold zlen in *; lia).
  destruct (decide (Z.to_nat n < length pre + length (frames q))) as [Hin|Hout].
  - destruct (cut_frames q (Z.to_nat n - length pre) Hf) as (q1 & e & j & [q2 ->] & He & Hj & Htk & Hqa).
    apply Forall_app in Hf as [Hf1 _]. specialize (Hcap1 (Z.to_nat n)).
    rewrite (take_app_ge pre) in * by done. rewrite take_app_le, Htk in * by lia.
    destruct (open_keeps pre q1 (take j (frame (body_of e))) (ckpt w) (cfg_max_bytes cfg) (cfg_compact_threshold cfg) Hf1) as [Hk _];
      [rewrite app_assoc; by apply read_frame_torn, Hj; destruct He|done|by rewrite Hck|].
    destruct (deliver_keeps _ _ Hk) as (w' & Hd & _). exists q1, w'. split; [by apply prefix_app_r|]. split; [done|].
    intros qa Hq Hle. left. apply Hqa; [done|]. unfold zlen in *. lia.
  - assert (Htk : take (Z.to_nat n) (pre ++ frames q ++ junk)
      = pre ++ frames q ++ take (Z.to_nat n - length pre - length (frames q)) junk) by (by rewrite !take_app_ge by lia).
    specialize (Hcap1 (Z.to_nat n)). apply (read_frame_cut _ (Z.to_nat n)) in Hend. rewrite Htk in *.
    destruct (open_keeps pre q _ (ckpt w) (cfg_max_bytes cfg) (cfg_compact_threshold cfg) Hf Hend Hcap1 ltac:(by rewrite Hck)) as [Hk _].
    destruct (deliver_keeps _ _ Hk) as (w' & Hd & _). exists q, w'. split; [done|]. split; [done|]. by left.
Qed.

(** C29: a power loss takes no record that was accepted before the log was last synced.
    When the compaction threshold is above the cap of the log, and the events since the
    directory was empty, in any order, appends that fail after a part of their bytes and new
    processes among them, were orderly (nothing was produced behind bytes that a failed append
    or a process that died had left and a new process had taken for a part of the log, before
    the drainer had discarded them, and such bytes never read as a whole record;
    [Wal.orderliness_matters] is a run in which a record is lost without that): when the power
    is then lost, which cuts the log at any point behind the last sync, the next run first delivers, in order, a prefix
    of what the log held. With what was delivered before, that prefix covers every record
    accepted up to the last sync. *)
Theorem power_loss_keeps_synced_records p log1 ckpt1 :
  (0 <= cfg_max_bytes cfg < u64_max)%Z -> rtc (powered_step cfg) (power_on cfg [] []) p ->
  orderly Restarted (p_run p) -> power_loss p log1 ckpt1 ->
  exists done q1 q2 w', accepted (p_run p) = done ++ q1 ++ q2
    /\ (redelivers (delivered (p_run p)) done
        \/ exists e q', q1 ++ q2 = e :: q' /\ redelivers (delivered (p_run p)) (done ++ [e]))
    /\ p_saved p `prefix_of` done ++ q1
    /\ deliver (S (length q1)) (d_wal (spawn cfg log1 ckpt1)) = (q1, w').
Proof.
  intros Hmax Hr Hclean (n & Hn & Hlog & ->).
  assert (Hi : exists done q, powered_inv p done q).
  { assert (H0 : exists done q, powered_inv (power_on cfg [] []) done q)
      by (exists [], []; split; [by apply delivery_inv_start|by left]).
    revert H0. clear Hclean Hn Hlog. induction Hr; eauto using powered_step_inv. }
  destruct Hi as (done & q & (Hacc & Hw & _ & Hm & Hd & _) & Hv).
  destruct (cut_delivers _ _ _ _ Hw Hclean Hm Hlog) as (q1 & w' & [q2 ->] & Hdel & Hqa).
  exists done, q1, q2, w'. split; [done|]. split; [done|]. split; [|done].
  destruct Hv as [Hv|(qa & Hp & -> & Hle)]; [by apply prefix_app_r|]. pose proof (zlen_pos (frames qa)).
  destruct (Hqa qa Hp ltac:(lia)) as [Hq|]; [by apply prefix_app|lia].
Qed.
End Saved.

(** ** Concrete runs *)
Section Runs.
Definition wal12 : Wal := (append wal1 (lit "t") (lit "k2") (lit "w") None).2.
Definition two_records : Powered := MkPowered (MkDurable wal12 Idle 1 [rec1; rec2] []) 18 [rec1].
Lemma powered_steps ev d d' n saved p' :
  durable_event cfg1 ev d d' -> orderly ev d ->
  rtc (powered_step cfg1) (after_event ev d' n saved) p' -> rtc (powered_step cfg1) (MkPowered d n saved) p'.
Proof. intros Hs Ho Hr. eapply rtc_l; [exists ev; split; [by apply powered_durable|done]|done]. Qed.
Lemma wal1_intact : intact wal1.
Proof. eapply (reads_next _ _ _ rec1_read); [vm_compute; reflexivity|]. vm_compute. apply reads_end. Qed.
(** An append fails after eleven bytes and a new process takes them for a part of its log; the
    drainer discards them.  Then two records are accepted; one is synced, the other is not. *)
Definition torn_log : bytes := take 11 (frame (body_of rec1)).
Lemma two_records_reachable : rtc (powered_step cfg1) (power_on cfg1 [] []) two_records.
Proof.
  eapply (powered_steps Produced); [apply (durable_produce cfg1 _ _ _ [] [] (lit "t") (lit "k1") (lit "v") (Some 11) (Err tt) (MkWal torn_log [] 0 0 200 100)); reflexivity|apply reads_end|].
  eapply (powered_steps Restarted); [apply durable_restart|vm_compute; reflexivity|].
  eapply (powered_steps Drained); [apply (durable_next cfg1 _ _ _ _ None (MkWal torn_log [] 0 0 200 100)); vm_compute; reflexivity|done|].
  eapply (powered_steps Produced); [apply (durable_produce cfg1 _ _ _ [] [] (lit "t") (lit "k1") (lit "v") None (Ok tt) wal1); vm_compute; reflexivity|apply reads_end|].
  eapply (powered_steps Compacted); [apply (durable_compact cfg1 wal1 _ _ _ (Ok tt) wal1); vm_compute; reflexivity|done|].
  eapply (powered_steps Produced); [apply (durable_produce cfg1 wal1 _ _ [rec1] [] (lit "t") (lit "k2") (lit "w") None (Ok tt) wal12); reflexivity|apply wal1_intact|].
  apply rtc_refl.
Qed.
Lemma power_loss_keeps_synced_records_witness :
  exists done q1 q2 w', [rec1; rec2] = done ++ q1 ++ q2
    /\ (redelivers [] done \/ exists e q', q1 ++ q2 = e :: q' /\ redelivers [] (done ++ [e]))
    /\ [rec1] `prefix_of` done ++ q1
    /\ deliver (S (length q1)) (d_wal (spawn cfg1 (take 25 (log wal12)) [])) = (q1, w').
Proof.
  assert (Hc : (cfg_max_bytes cfg1 < cfg_compact_threshold cfg1)%Z) by (vm_compute; reflexivity).
  apply (power_loss_keeps_synced_records cfg1 Hc two_records).
  - split; vm_compute; [discriminate|reflexivity].
  - exact two_records_reachable.
  - vm_compute. reflexivity.
  - exists 25%Z. split; [vm_compute; discriminate|]. split; reflexivity.
Defined.

(** The checkpoint is synced with each delivery and the log is not: a power loss can leave a
    checkpoint beyond the log.  The next run starts from the end of the log without
    correcting it; a record that the log grows past the checkpoint with is accepted, and
    skipped after an orderly restart. *)
Definition acked_unsynced : Powered := MkPowered (MkDurable (commit wal1 18) Idle 1 [rec1] [rec1]) 0 [].
Example checkpoint_outlives_the_log :
  rtc (powered_step cfg1) (power_on cfg1 [] []) acked_unsynced
  /\ power_loss acked_unsynced [] (persist_ckpt 18)
  /\ let '(r, w) := append (d_wal (spawn cfg1 [] (persist_ckpt 18))) (lit "t") (lit "k2") (lit "w") None in
     r = Ok tt /\ (deliver 5 (d_wal (spawn cfg1 (log w) (ckpt w)))).1 = [].
Proof.
  split; [|split; [exists 0%Z; split; [done|by split]|vm_compute; done]].
  eapply (powered_steps Produced); [apply (durable_produce cfg1 _ _ _ [] [] (lit "t") (lit "k1") (lit "v") None (Ok tt) wal1); reflexivity|apply reads_end|].
  eapply (powered_steps Drained); [apply (durable_next cfg1 wal1 1 [rec1] [] (Some rec1_read) wal1); vm_compute; reflexivity|done|].
  eapply (powered_steps Drained); [apply (durable_acked cfg1 wal1 rec1_read)|done|].
  eapply (powered_steps Drained); [apply (durable_commit cfg1 _ rec1_read)|done|]. apply rtc_refl.
Qed.
End Runs.
