(* ===== verification/RawConfig.v ===== *)
(** * Configuration sources ([crates/osproxy-config/src]: raw, and the loading of lib)

    The layers a configuration is merged from: a file, the environment and the flags, each
    a map from the canonical keys to strings. *)
From stdpp Require Import base option list strings numbers sets gmap pretty.
From Stdlib Require Import Ascii ZArith Lia.
From S2P Require Import Prelude.

Open Scope osp_scope.

(** ** Errors

    A reason is a formatted text; where it shows a string through [{:?}], the string is
    kept as it is, between the text before and after it. *)
Inductive Reason : Type :=
| Text (t : str)
| Quoting (before quoted after : str).
Record ConfigError : Type := MkConfigError { ce_field : str; ce_reason : Reason }.
Definition invalid (field : str) (reason : Reason) : ConfigError := MkConfigError field reason.
Definition unknown (field : str) : ConfigError := MkConfigError field (Text (lit "unknown setting")).

(** ** Keys *)
Definition KEYS : list str := lit <$>
  ["bind"; "grpc_bind"; "upstream"; "index"; "tokens"; "allow_cleartext_mutation"; "tls_cert"; "tls_key";
   "tls_client_ca"; "upstream_tls_ca"; "upstream_tls_cert"; "upstream_tls_key"; "log_requests"; "otlp_endpoint";
   "service_name"; "diag_baseline"; "debug_directive_key"; "directive_admin_token"; "debug_endpoints";
   "log_diagnostic_captures"; "tenant_metrics_enabled"; "admin_passthrough_cluster"; "admin_passthrough_prefixes";
   "admin_passthrough_endpoint"; "cursor_affinity_key"; "passthrough_cluster"; "passthrough_endpoint";
   "passthrough_indices"; "forward_client_headers"; "forward_header_deny"; "capture_default";
   "capture_kafka_brokers"; "capture_topic"; "capture_redact"; "capture_kafka_ca"; "capture_kafka_client_cert";
   "capture_kafka_client_key"; "capture_max_inflight"; "capture_max_attempts"; "capture_backoff_ms";
   "capture_wal_dir"; "capture_wal_max_bytes"; "fanout_kafka_brokers"; "fanout_topic"; "fanout_kafka_ca";
   "fanout_kafka_client_cert"; "fanout_kafka_client_key"; "fanout_body_encoding"; "fanout_async_default";
   "fanout_expand_delete_by_query"; "etcd_endpoints"; "etcd_directives_key"]%string.

Definition to_ascii_uppercase (c : byte) : byte :=
  if (97 <=? bz c)%Z && (bz c <=? 122)%Z then byte_of (bz c - 32) else c.
Definition env_name (key : str) : str := lit "OSPROXY_" ++ (to_ascii_uppercase <$> key).
Definition canonical (key : str) : option str := List.find (fun k => str_eqb k key) KEYS.
Definition canonical_in (section : option str) (key : str) : option str :=
  match s ← section; canonical (s ++ lit "_" ++ key) with
  | Some k => Some k
  | None => canonical key
  end.

(** ** One source *)
Abbreviation Raw := (gmap str str).
(** A [Raw] holds no empty value. *)
Definition raw_set (raw : Raw) (key value : str) : Raw :=
  match value with [] => raw | _ => <[key := value]> raw end.

(** [env] is [std::env::var], [None] where it is an error. *)
Definition from_env (env : str -> option str) : Raw :=
  foldl (fun raw key => match env (env_name key) with Some v => raw_set raw key v | None => raw end) ∅ KEYS.

(** [str::lines]. *)
Definition newline : byte := "010".
Definition strip_cr (line : str) : str := default line (strip_suffix ["013"%char] line).
Fixpoint lines_of_pieces (pieces : list str) : list str :=
  match pieces with
  | [] => []
  | [last] => match last with [] => [] | _ => [last] end
  | p :: pieces => strip_cr p :: lines_of_pieces pieces
  end.
Definition str_lines (text : str) : list str := lines_of_pieces (split newline text).

Definition unquote (value : str) : str :=
  match value with
  | q :: _ =>
      if (2 <=? length value) && (Ascii.eqb q "034" || Ascii.eqb q "039")
         && match last value with Some e => Ascii.eqb e q | None => false end
      then take (length value - 2) (drop 1 value) else value
  | [] => value
  end.

(** A file line, trimmed: nothing, a section header, a setting, or none of them. *)
Inductive FileLine : Type :=
| Ignored
| Section_ (name : option str)
| Setting (key value : str)
| Malformed.
Definition file_line (line : str) : FileLine :=
  let line := trim line in
  if (match line with [] => true | _ => false end) || starts_with (lit "#") line then Ignored
  else match inner ← strip_prefix (lit "[") line; strip_suffix (lit "]") inner with
       | Some name => Section_ (match trim name with [] => None | name => Some name end)
       | None =>
           match split_once "=" line with
           | Some (key, value) => Setting (trim key) (unquote (trim value))
           | None => Malformed
           end
       end.
(** The loop of [from_file]: [n] lines are behind it. *)
Fixpoint file_loop (n : nat) (section : option str) (raw : Raw) (lines : list str) : Result Raw ConfigError :=
  match lines with
  | [] => Ok raw
  | line :: lines =>
      match file_line line with
      | Ignored => file_loop (S n) section raw lines
      | Section_ name => file_loop (S n) name raw lines
      | Malformed =>
          Err (invalid (lit "file") (Text (lit "line " ++ lit (pretty (S n)) ++ lit ": expected `key = value`")))
      | Setting key value =>
          match canonical_in section key with
          | Some k => file_loop (S n) section (raw_set raw k value) lines
          | None => Err (unknown key)
          end
      end
  end.
Definition from_file (text : str) : Result Raw ConfigError := file_loop 0 None ∅ (str_lines text).

(** [name.replace('-', "_")]. *)
Definition underscored (name : str) : str := (fun c => if Ascii.eqb c "-" then "_"%char else c) <$> name.
Definition flag_setting (name value : str) (raw : Raw) : Result Raw ConfigError :=
  let? k := ok_or (canonical (underscored name)) (unknown name) in Ok (raw_set raw k value).
Fixpoint flags_loop (raw : Raw) (args : list str) : Result Raw ConfigError :=
  match args with
  | [] => Ok raw
  | arg :: args =>
      match strip_prefix (lit "--") arg with
      | None => Err (invalid (lit "flags") (Quoting (lit "unexpected argument ") arg []))
      | Some b =>
          match split_once "=" b with
          | Some (name, value) => let? raw := flag_setting name value raw in flags_loop raw args
          | None =>
              match args with
              | [] => Err (invalid (lit "flags") (Text (lit "--" ++ b ++ lit " needs a value")))
              | value :: args => let? raw := flag_setting b value raw in flags_loop raw args
              end
          end
      end
  end.
Definition from_flags (args : list str) : Result Raw ConfigError := flags_loop ∅ args.

Fixpoint pairs_loop (raw : Raw) (pairs : list (str * str)) : Result Raw ConfigError :=
  match pairs with
  | [] => Ok raw
  | (key, value) :: pairs =>
      let? k := ok_or (canonical key) (unknown key) in pairs_loop (raw_set raw k value) pairs
  end.
Definition from_pairs (pairs : list (str * str)) : Result Raw ConfigError := pairs_loop ∅ pairs.

(** [extend]: the later source wins. *)
Definition layered (file env flags : Raw) : Raw := flags ∪ (env ∪ file).

(** ** Loading *)
Fixpoint extract_loop (file : option str) (rest args : list str) : Result (option str * list str) ConfigError :=
  match args with
  | [] => Ok (file, rest)
  | arg :: args =>
      if str_eqb arg (lit "--config") then
        match args with
        | [] => Err (invalid (lit "config") (Text (lit "--config needs a path")))
        | path :: args => extract_loop (Some path) rest args
        end
      else match strip_prefix (lit "--config=") arg with
           | Some path => extract_loop (Some path) rest args
           | None => extract_loop file (rest ++ [arg]) args
           end
  end.
Definition extract_config_flag (args : list str) : Result (option str * list str) ConfigError := extract_loop None [] args.

(** The merged layers [Config::load] validates; [read] is [std::fs::read_to_string], an
    error being its display. *)
Definition load_raw (read : str -> Result str str) (env : str -> option str) (args : list str) : Result Raw ConfigError :=
  let? (file_flag, flags) := extract_config_flag args in
  let file_path := match file_flag with
                   | Some p => Some p
                   | None => match env (lit "OSPROXY_CONFIG") with Some (c :: v) => Some (c :: v) | _ => None end
                   end in
  let? file := match file_path with
               | Some path =>
                   let? text := map_err (fun e => invalid (lit "config") (Text (lit "reading " ++ path ++ lit ": " ++ e))) (read path) in
                   from_file text
               | None => Ok ∅
               end in
  let? flags := from_flags flags in
  Ok (layered file (from_env env) flags).

(** ** What a source says *)

(** The settings a source gives, in order, and the map they make. *)
Definition settings (kvs : list (str * str)) (raw : Raw) : Raw := foldl (fun raw e => raw_set raw e.1 e.2) raw kvs.
(** The last non-empty value given to a key. *)
Definition last_value (kvs : list (str * str)) (key : str) : option str :=
  foldl (fun o e => match e.2 with [] => o | v => if str_eqb e.1 key then Some v else o end) None kvs.

Inductive FileLines : option str -> list str -> list (str * str) -> Prop :=
| file_end section : FileLines section [] []
| file_ignored section line lines kvs :
    file_line line = Ignored -> FileLines section lines kvs -> FileLines section (line :: lines) kvs
| file_section section line name lines kvs :
    file_line line = Section_ name -> FileLines name lines kvs -> FileLines section (line :: lines) kvs
| file_setting section line key k value lines kvs :
    file_line line = Setting key value -> canonical_in section key = Some k ->
    FileLines section lines kvs -> FileLines section (line :: lines) ((k, value) :: kvs).

Inductive FlagArgs : list str -> list (str * str) -> Prop :=
| flags_end : FlagArgs [] []
| flags_joined b name value args k kvs :
    split_once "=" b = Some (name, value) -> canonical (underscored name) = Some k ->
    FlagArgs args kvs -> FlagArgs ((lit "--" ++ b) :: args) ((k, value) :: kvs)
| flags_apart b value args k kvs :
    split_once "=" b = None -> canonical (underscored b) = Some k ->
    FlagArgs args kvs -> FlagArgs ((lit "--" ++ b) :: value :: args) ((k, value) :: kvs).

Lemma canonical_Some key k : canonical key = Some k <-> k = key /\ key ∈ KEYS.
Proof.
  unfold canonical. split.
  - intros [Hin Heq]%List.find_some. apply str_eqb_eq in Heq as ->. split; [done|]. by apply list_elem_of_In.
  - intros [-> Hin]. apply list_elem_of_In in Hin. destruct (List.find _ KEYS) as [j|] eqn:Hf.
    + apply List.find_some in Hf as [_ Heq]. by apply str_eqb_eq in Heq as ->.
    + eapply List.find_none in Hf; [|exact Hin]. by rewrite str_eqb_refl in Hf.
Qed.
Lemma canonical_in_KEYS section key k : canonical_in section key = Some k -> k ∈ KEYS.
Proof.
  unfold canonical_in. destruct (_ ≫= _) as [j|] eqn:Hs.
  - intros [= ->]. apply bind_Some in Hs as (s & _ & [-> Hin]%canonical_Some). done.
  - by intros [-> Hin]%canonical_Some.
Qed.

Lemma raw_set_lookup raw key value k :
  raw_set raw key value !! k = match value with [] => raw !! k | v => if str_eqb key k then Some v else raw !! k end.
Proof.
  unfold raw_set. destruct value as [|c v]; [done|]. destruct (str_eqb key k) eqn:Hk.
  - apply str_eqb_eq in Hk as ->. by rewrite lookup_insert_eq.
  - apply str_eqb_neq in Hk. by rewrite lookup_insert_ne.
Qed.
Lemma settings_lookup kvs raw k :
  settings kvs raw !! k = match last_value kvs k with Some v => Some v | None => raw !! k end.
Proof.
  unfold settings, last_value. induction kvs as [|[j v] kvs IH] using rev_ind; [done|].
  rewrite !foldl_app. cbn. rewrite raw_set_lookup, IH. destruct v as [|c v]; [done|]. by destruct (str_eqb j k).
Qed.
Lemma last_value_in kvs k v : last_value kvs k = Some v -> (k, v) ∈ kvs /\ v <> [].
Proof.
  unfold last_value. induction kvs as [|[j w] kvs IH] using rev_ind; [done|]. rewrite foldl_app. cbn.
  destruct w as [|c w]; [|destruct (str_eqb j k) eqn:Hj].
  - intros [H ?]%IH. split; [|done]. apply elem_of_app. by left.
  - apply str_eqb_eq in Hj as ->. intros [= <-]. split; [|done]. apply elem_of_app. right. by left.
  - intros [H ?]%IH. split; [|done]. apply elem_of_app. by left.
Qed.

Lemma file_loop_spec n section raw lines raw' :
  file_loop n section raw lines = Ok raw' <-> exists kvs, FileLines section lines kvs /\ raw' = settings kvs raw.
Proof.
  revert n section raw. induction lines as [|line lines IH]; intros n section raw; cbn [file_loop].
  - split; [intros [= <-]; exists []; by split; [constructor|]|]. intros (kvs & H & ->). by inversion H.
  - destruct (file_line line) as [|name|key value|] eqn:Hl.
    + rewrite IH. split; intros (kvs & H & ->); exists kvs; (split; [|done]); [by apply file_ignored|].
      inversion H; congruence.
    + rewrite IH. split; intros (kvs & H & ->); exists kvs; (split; [|done]); [by eapply file_section|].
      inversion H; congruence.
    + destruct (canonical_in section key) as [k|] eqn:Hk.
      * rewrite IH. split.
        -- intros (kvs & H & ->). exists ((k, value) :: kvs). by split; [eapply file_setting|].
        -- intros (kvs & H & ->). inversion H; simplify_eq; try congruence. eexists. split; [done|].
           assert (value0 = value) as -> by congruence. assert (k0 = k) as -> by congruence. done.
      * split; [done|]. intros (kvs & H & _). inversion H; simplify_eq; congruence.
    + split; [done|]. intros (kvs & H & _). inversion H; congruence.
Qed.

Lemma flags_loop_spec raw args raw' :
  flags_loop raw args = Ok raw' <-> exists kvs, FlagArgs args kvs /\ raw' = settings kvs raw.
Proof.
  split.
  - remember (length args) as n eqn:Hn. assert (Hle : length args <= n) by lia. clear Hn.
    revert raw args Hle. induction n as [|n IH]; intros raw [|arg args] Hle; cbn [flags_loop length] in *; try lia.
    1,2: intros [= <-]; exists []; by split; [constructor|].
    destruct (strip_prefix (lit "--") arg) as [b|] eqn:Hb; [|done]. apply strip_prefix_Some in Hb as ->.
    unfold flag_setting. destruct (split_once "=" b) as [[name value]|] eqn:Hs.
    + destruct (canonical _) as [k|] eqn:Hk; [|done]. cbn [ok_or rbind].
      intros (kvs & H & ->)%IH; [|lia]. exists ((k, value) :: kvs). by split; [eapply flags_joined|].
    + destruct args as [|value args]; [done|]. destruct (canonical _) as [k|] eqn:Hk; [|done]. cbn [ok_or rbind length] in *.
      intros (kvs & H & ->)%IH; [|lia]. exists ((k, value) :: kvs). by split; [eapply flags_apart|].
  - intros (kvs & H & ->). revert raw. induction H as [|b name value args k kvs Hs Hk _ IH|b value args k kvs Hs Hk _ IH];
      intros raw; cbn [flags_loop]; [done|..]; rewrite strip_prefix_app, Hs; unfold flag_setting; rewrite Hk; apply IH.
Qed.

Lemma FileLines_keys section lines kvs : FileLines section lines kvs -> Forall (fun e => e.1 ∈ KEYS) kvs.
Proof. induction 1; [constructor|done|done|]. constructor; [|done]. by eapply canonical_in_KEYS. Qed.
Lemma FlagArgs_keys args kvs : FlagArgs args kvs -> Forall (fun e => e.1 ∈ KEYS) kvs.
Proof. induction 1 as [|? ? ? ? ? ? ? H|? ? ? ? ? ? H]; constructor; try done; by apply canonical_Some in H as [-> ?]. Qed.
Lemma last_value_key kvs k v : Forall (fun e => e.1 ∈ KEYS) kvs -> last_value kvs k = Some v -> k ∈ KEYS.
Proof. intros H [Hin _]%last_value_in. rewrite Forall_forall in H. by apply (H (k, v)). Qed.

(** The environment, as the settings it gives. *)
Definition env_value (env : str -> option str) (k : str) : option str :=
  match env (env_name k) with Some (c :: v) => Some (c :: v) | _ => None end.
Lemma from_env_lookup env k : from_env env !! k = if bool_decide (k ∈ KEYS) then env_value env k else None.
Proof.
  assert (H : forall keys raw, foldl (fun raw key => match env (env_name key) with Some v => raw_set raw key v | None => raw end) raw keys !! k
    = if bool_decide (k ∈ keys) then match env_value env k with Some v => Some v | None => raw !! k end else raw !! k).
  { unfold env_value. induction keys as [|j keys IH]; intros raw; cbn [foldl].
    - by rewrite bool_decide_eq_false_2 by apply not_elem_of_nil.
    - rewrite IH. clear IH. destruct (decide (k = j)) as [->|Hne].
      + rewrite (bool_decide_eq_true_2 (j ∈ j :: keys)) by by left. destruct (env (env_name j)) as [[|c v]|]; [by case_bool_decide| |by case_bool_decide].
        rewrite raw_set_lookup, str_eqb_refl. by case_bool_decide.
      + replace (bool_decide (k ∈ j :: keys)) with (bool_decide (k ∈ keys)).
        2: { apply bool_decide_ext. rewrite elem_of_cons. naive_solver. }
        assert (Hj : forall v, raw_set raw j v !! k = raw !! k).
        { intros v. rewrite raw_set_lookup, (proj2 (str_eqb_neq j k)) by congruence. by destruct v. }
        destruct (env (env_name j)); by rewrite ?Hj. }
  unfold from_env. rewrite H, lookup_empty. case_bool_decide; [|done]. by destruct (env_value env k).
Qed.

(** What loads is a map from known keys to non-empty values. *)
Lemma settings_known kvs raw :
  Forall (fun e => e.1 ∈ KEYS) kvs -> map_Forall (fun k v => k ∈ KEYS /\ v <> []) raw ->
  map_Forall (fun k v => k ∈ KEYS /\ v <> []) (settings kvs raw).
Proof.
  intros Hk Hr k v. rewrite settings_lookup. destruct (last_value kvs k) as [w|] eqn:Hl; [|by apply Hr].
  intros [= <-]. split; [by eapply last_value_key|]. by apply last_value_in in Hl as [_ ?].
Qed.
Lemma load_raw_known read env args raw :
  load_raw read env args = Ok raw -> map_Forall (fun k v => k ∈ KEYS /\ v <> []) raw.
Proof.
  unfold load_raw. intros ([path rest] & _ & (fraw & Hf & (lraw & Hl & [= <-])%rbind_Ok)%rbind_Ok)%rbind_Ok.
  assert (He : map_Forall (fun k v => k ∈ KEYS /\ v <> []) (∅ : Raw)) by apply map_Forall_empty.
  assert (Hfile : map_Forall (fun k v => k ∈ KEYS /\ v <> []) fraw).
  { destruct (match path with Some _ => _ | None => _ end) as [p|]; [|by injection Hf as <-].
    apply rbind_Ok in Hf as (text & _ & (kvs & H & ->)%file_loop_spec). apply settings_known; [by eapply FileLines_keys|done]. }
  apply flags_loop_spec in Hl as (flags & Hfl & ->). unfold layered. apply map_Forall_union_2; [|apply map_Forall_union_2; [|done]].
  - apply settings_known; [by eapply FlagArgs_keys|done].
  - intros k v. rewrite from_env_lookup. case_bool_decide as HK; [|done]. intros Hv. split; [done|].
    unfold env_value in Hv. repeat case_match; by simplify_eq.
Qed.

(** The last word wins. Whatever the file, the environment and the arguments hold, a
    configuration that loads takes each setting from the flags if they give it a value, or
    else from its environment variable, or else from the file (the one [--config] names, or
    else [OSPROXY_CONFIG]); an empty value counts as none, and within a source the last
    value wins. Every line of the file and every argument was understood: no setting outside
    the known keys gets through. *)
Theorem load_takes_the_last_word read env args raw :
  load_raw read env args = Ok raw ->
  exists flag_path rest file flags,
    extract_config_flag args = Ok (flag_path, rest)
    /\ FlagArgs rest flags
    /\ match (match flag_path with
              | Some p => Some p
              | None => match env (lit "OSPROXY_CONFIG") with Some (c :: v) => Some (c :: v) | _ => None end
              end) with
       | Some path => exists text, read path = Ok text /\ FileLines None (str_lines text) file
       | None => file = []
       end
    /\ forall k, raw !! k =
         if bool_decide (k ∈ KEYS) then
           match last_value flags k with
           | Some v => Some v
           | None => match env_value env k with
                     | Some v => Some v
                     | None => last_value file k
                     end
           end
         else None.
Proof.
  unfold load_raw. destruct (extract_config_flag args) as [[path rest]|] eqn:He; [|done]. cbn [rbind].
  match goal with |- (rbind ?m _) = _ -> _ => destruct m as [fraw|] eqn:Hf; [|done] end. cbn [rbind].
  destruct (from_flags rest) as [lraw|] eqn:Hl; [|done]. cbn [rbind]. intros [= <-].
  apply flags_loop_spec in Hl as (flags & Hfl & ->).
  assert (Hfile : exists file, Forall (fun e => e.1 ∈ KEYS) file /\ fraw = settings file ∅
    /\ match (match path with Some p => Some p
              | None => match env (lit "OSPROXY_CONFIG") with Some (c :: v) => Some (c :: v) | _ => None end end) with
       | Some path => exists text, read path = Ok text /\ FileLines None (str_lines text) file
       | None => file = []
       end).
  { destruct (match path with Some _ => _ | None => _ end) as [p|]; [|injection Hf as <-; by exists []].
    destruct (read p) as [text|] eqn:Hr; [|done]. apply file_loop_spec in Hf as (kvs & H & ->).
    exists kvs. split; [by eapply FileLines_keys|]. split; [done|]. by exists text. }
  destruct Hfile as (file & Hk & -> & Hfile). exists path, rest, file, flags. split_and!; [done..|].
  intros k. unfold layered. rewrite !lookup_union, !settings_lookup, from_env_lookup, !lookup_empty.
  assert (Hin : forall kvs v, Forall (fun e => e.1 ∈ KEYS) kvs -> last_value kvs k = Some v -> k ∈ KEYS)
    by (intros; by eapply last_value_key).
  case_bool_decide as HK.
  - destruct (last_value flags k), (env_value env k), (last_value file k); done.
  - destruct (last_value flags k) eqn:E1; [destruct HK; eapply Hin; [by eapply FlagArgs_keys|done]|].
    destruct (last_value file k) eqn:E2; [destruct HK; by eapply Hin|]. done.
Qed.

(** ** Writing settings out *)
Definition flag_of (e : str * str) : list str := [lit "--" ++ e.1; e.2].
Definition file_line_of (e : str * str) : str := e.1 ++ "="%char :: "034"%char :: e.2 ++ ["034"%char].
Definition file_of (kvs : list (str * str)) : str := mjoin ((fun e => file_line_of e ++ [newline]) <$> kvs).
Definition env_of (kvs : list (str * str)) (name : str) : option str :=
  k ← List.find (fun k => str_eqb (env_name k) name) KEYS; last_value kvs k.

(** No white space character begins, or ends, with the byte. *)
Definition not_ws_first (c : byte) : bool :=
  forallb (fun w => match w with d :: _ => negb (Ascii.eqb d c) | [] => false end) unicode_ws.
Definition not_ws_last (c : byte) : bool :=
  forallb (fun w => match last w with Some d => negb (Ascii.eqb d c) | None => false end) unicode_ws.
Lemma trim_loop_stuck strip fuel l : strip_first strip l = None -> trim_loop strip fuel l = l.
Proof. destruct fuel; cbn; [done|]. by intros ->. Qed.
Lemma strip_first_None strip l : (forall w, w ∈ unicode_ws -> strip w l = None) -> strip_first strip l = None.
Proof.
  unfold strip_first. induction unicode_ws as [|w ws IH]; intros H; cbn; [done|].
  rewrite (H w) by by left. apply IH. intros x Hx. apply H. by right.
Qed.
Lemma trim_start_kept c l : not_ws_first c = true -> trim_start (c :: l) = c :: l.
Proof.
  intros H. apply trim_loop_stuck, strip_first_None. intros w Hw%list_elem_of_In.
  unfold not_ws_first in H. rewrite forallb_forall in H. specialize (H w Hw). destruct w as [|d w]; [done|].
  cbn. destruct (Ascii.eqb d c); done.
Qed.
Lemma trim_end_kept c l : not_ws_last c = true -> trim_end (l ++ [c]) = l ++ [c].
Proof.
  intros H. apply trim_loop_stuck, strip_first_None. intros w Hw%list_elem_of_In.
  unfold not_ws_last in H. rewrite forallb_forall in H. specialize (H w Hw).
  destruct (strip_suffix w (l ++ [c])) as [r|] eqn:Hr; [|done]. apply strip_suffix_Some in Hr.
  destruct w as [|d w _] using rev_ind; [done|]. rewrite last_snoc in H.
  rewrite app_assoc in Hr. apply app_inj_tail in Hr as [_ ->]. by rewrite Ascii.eqb_refl in H.
Qed.
Lemma trim_kept c l d r : c :: l = r ++ [d] -> not_ws_first c = true -> not_ws_last d = true -> trim (c :: l) = c :: l.
Proof. intros Heq Hc Hd. unfold trim. rewrite trim_start_kept by done. rewrite Heq. by apply trim_end_kept. Qed.

(** The bytes of a key: letters and underscores. *)
Definition key_byte (c : byte) : bool := ((97 <=? bz c) && (bz c <=? 122))%Z || Ascii.eqb c "_".
Lemma KEYS_shape : Forall (fun k => k <> [] /\ Forall (fun c => key_byte c = true) k) KEYS.
Proof.
  apply List.Forall_forall. assert (H : forallb (fun k => match k with [] => false | _ => forallb key_byte k end) KEYS = true)
    by (vm_compute; reflexivity).
  rewrite forallb_forall in H. intros k Hk%H. destruct k; [done|]. split; [done|].
  by apply List.Forall_forall; apply forallb_forall.
Qed.
Lemma key_byte_facts c : key_byte c = true ->
  not_ws_first c = true /\ not_ws_last c = true /\ Ascii.eqb "=" c = false /\ Ascii.eqb c "#" = false
  /\ Ascii.eqb "[" c = false /\ Ascii.eqb c "-" = false.
Proof.
  assert (H : forallb (fun n => let c := byte_of (Z.of_nat n) in negb (key_byte c) ||
     (not_ws_first c && not_ws_last c && negb (Ascii.eqb "=" c) && negb (Ascii.eqb c "#")
      && negb (Ascii.eqb "[" c) && negb (Ascii.eqb c "-"))) (seq 0 256) = true) by (vm_compute; reflexivity).
  rewrite forallb_forall in H. specialize (H (Z.to_nat (bz c))). pose proof (bz_bound c) as Hb.
  cbv zeta in H. rewrite in_seq, Z2Nat.id, byte_of_bz in H by lia. intros Hc. rewrite Hc in H. cbn [negb orb] in H.
  specialize (H ltac:(lia)). rewrite !andb_true_iff, !negb_true_iff in H. destruct H as [[[[[? ?] ?] ?] ?] ?]. by split_and!.
Qed.

Lemma unquote_quoted v : unquote ("034"%char :: v ++ ["034"%char]) = v.
Proof.
  unfold unquote. rewrite app_comm_cons, last_snoc, <- app_comm_cons, Ascii.eqb_refl. cbn [orb andb length].
  rewrite length_app. cbn [length]. rewrite (proj2 (Nat.leb_le _ _)) by lia. cbn [andb drop].
  replace (S (length v + 1) - 2) with (length v) by lia. apply take_app_length.
Qed.
(** What the writers rely on of a key. *)
Lemma key_facts k : k ∈ KEYS ->
  "="%char ∉ k /\ newline ∉ k /\ underscored k = k /\ trim k = k
  /\ exists c l, k = c :: l /\ key_byte c = true.
Proof.
  intros Hk. pose proof KEYS_shape as H. rewrite Forall_forall in H. destruct (H k Hk) as [Hne Hb].
  rewrite Forall_forall in Hb. split; [|split; [|split; [|split]]].
  - intros Hin. specialize (Hb _ Hin). done.
  - intros Hin. specialize (Hb _ Hin). done.
  - unfold underscored. apply list_fmap_id_ext || (rewrite <- (list_fmap_id k) at 2; apply list_fmap_ext).
    intros i c Hc%list_elem_of_lookup_2. destruct (key_byte_facts c (Hb c Hc)) as (_ & _ & _ & _ & _ & ->). done.
  - destruct k as [|c l]; [done|]. destruct (exists_last Hne) as (r & d & Heq).
    apply (trim_kept c l d r); [done| |].
    + apply key_byte_facts, Hb. by left.
    + apply key_byte_facts, Hb. rewrite Heq. apply elem_of_app. right. by left.
  - destruct k as [|c l]; [done|]. exists c, l. split; [done|]. apply Hb. by left.
Qed.
Lemma canonical_KEYS k : k ∈ KEYS -> canonical k = Some k.
Proof. intros. by apply canonical_Some. Qed.

Lemma file_line_written k v : k ∈ KEYS -> file_line (file_line_of (k, v)) = Setting k v.
Proof.
  intros Hk. destruct (key_facts k Hk) as (He & _ & _ & Ht & c & l & -> & Hc).
  destruct (key_byte_facts c Hc) as (H1 & _ & _ & H4 & H5 & _). unfold file_line, file_line_of. cbn [fst snd].
  assert (Hline : trim ((c :: l) ++ "="%char :: "034"%char :: v ++ ["034"%char])
                  = (c :: l) ++ "="%char :: "034"%char :: v ++ ["034"%char]).
  { rewrite <- app_comm_cons. eapply (trim_kept _ _ "034"%char ((c :: l) ++ "="%char :: "034"%char :: v)); [|done|done].
    by cbn; rewrite <- app_assoc. }
  rewrite Hline. rewrite <- app_comm_cons. cbn [starts_with strip_prefix lit String.list_ascii_of_string mbind option_bind orb].
  unfold starts_with. cbn [lit String.list_ascii_of_string strip_prefix]. rewrite Ascii.eqb_sym, H4, H5. cbn [orb mbind option_bind].
  rewrite app_comm_cons, split_once_cut by done. rewrite Ht. f_equal.
  rewrite (trim_kept "034" (v ++ ["034"%char]) "034" ("034"%char :: v)); [apply unquote_quoted|done..].
Qed.

Lemma str_lines_file kvs : Forall (fun e => e.1 ∈ KEYS /\ newline ∉ e.2) kvs -> str_lines (file_of kvs) = file_line_of <$> kvs.
Proof.
  unfold str_lines, file_of. induction 1 as [|[k v] kvs [Hk Hv] _ IH]; [done|]. cbn [fst snd] in *.
  rewrite fmap_cons. cbn [mjoin list_join foldr]. rewrite <- app_assoc. cbn [app].
  assert (Hn : newline ∉ file_line_of (k, v)).
  { destruct (key_facts k Hk) as (_ & Hn & _). unfold file_line_of. cbn [fst snd].
    rewrite elem_of_app, !elem_of_cons, elem_of_app, elem_of_cons. intros [?|[?|[?|[?|[?|?%not_elem_of_nil]]]]]; done. }
  rewrite split_cut by done. rewrite fmap_cons.
  pose proof (split_nonempty newline (mjoin ((fun e => file_line_of e ++ [newline]) <$> kvs))) as Hne.
  unfold mjoin, list_join in *. destruct (split _ _) as [|p ps]; [done|]. rewrite <- IH. cbn [lines_of_pieces]. f_equal.
  unfold strip_cr. destruct (strip_suffix _ _) as [r|] eqn:Hr; [|done]. apply strip_suffix_Some in Hr.
  unfold file_line_of in Hr. cbn [fst snd] in Hr.
  replace (k ++ "="%char :: "034"%char :: v ++ ["034"%char]) with ((k ++ "="%char :: "034"%char :: v) ++ ["034"%char]) in Hr
    by (by rewrite <- app_assoc). by apply app_inj_tail in Hr as [_ ?].
Qed.

Lemma pairs_loop_settings kvs raw :
  Forall (fun e => e.1 ∈ KEYS) kvs -> pairs_loop raw kvs = Ok (settings kvs raw).
Proof.
  intros H. revert raw. induction H as [|[k v] kvs Hk _ IH]; intros raw; [done|]. cbn [pairs_loop fst] in *.
  rewrite canonical_KEYS by done. apply IH.
Qed.
Lemma flags_written kvs :
  Forall (fun e => e.1 ∈ KEYS) kvs -> FlagArgs (mjoin (flag_of <$> kvs)) kvs.
Proof.
  induction 1 as [|[k v] kvs Hk _ IH]; [constructor|]. cbn in Hk. destruct (key_facts k Hk) as (He & _ & Hu & _).
  apply flags_apart; cbn [fst snd]; [|by rewrite Hu; apply canonical_KEYS|exact IH]. unfold split_once.
  destruct (find_byte "=" k) as [i|] eqn:Hf; [|done]. apply find_byte_Some in Hf as (a & b & -> & _ & _).
  destruct He. apply elem_of_app. right. by left.
Qed.
Lemma file_written kvs : Forall (fun e => e.1 ∈ KEYS) kvs -> FileLines None (file_line_of <$> kvs) kvs.
Proof.
  induction 1 as [|[k v] kvs Hk _ IH]; [constructor|]. cbn in Hk. rewrite fmap_cons. eapply file_setting; [|by apply canonical_KEYS|done].
  by apply file_line_written.
Qed.
Lemma env_names_distinct : NoDup (env_name <$> KEYS).
Proof. apply (bool_decide_unpack _). vm_compute. exact I. Qed.
Lemma NoDup_fmap_inj_on {A B} (f : A -> B) l x y : NoDup (f <$> l) -> x ∈ l -> y ∈ l -> f x = f y -> x = y.
Proof.
  intros Hnd (i & Hi)%list_elem_of_lookup (j & Hj)%list_elem_of_lookup Heq.
  assert (i = j) as ->; [|congruence]. apply (NoDup_lookup _ _ _ (f x) Hnd); rewrite list_lookup_fmap.
  - by rewrite Hi.
  - by rewrite Hj, Heq.
Qed.
Lemma env_of_value kvs k : k ∈ KEYS -> env_value (env_of kvs) k = last_value kvs k.
Proof.
  intros Hk. unfold env_value, env_of. destruct (List.find _ KEYS) as [j|] eqn:Hf.
  - apply List.find_some in Hf as [Hj Heq]. apply str_eqb_eq in Heq. apply list_elem_of_In in Hj.
    assert (j = k) as -> by (by eapply (NoDup_fmap_inj_on env_name KEYS); [apply env_names_distinct|..]). cbn.
    destruct (last_value kvs k) as [[|c v]|] eqn:Hl; [|done|done]. by apply last_value_in in Hl as [_ ?].
  - apply list_elem_of_In in Hk. eapply List.find_none in Hf; [|exact Hk]. by rewrite str_eqb_refl in Hf.
Qed.

(** One setting, three spellings. Settings written as [--key value] flags, as lines
    [key="value"] of a file, or as [OSPROXY_KEY] variables read back as the same map, the one
    the pairs themselves make (a value may hold anything but a line feed; a later value of a
    key replaces an earlier one, an empty one does not). *)
Theorem sources_agree kvs :
  Forall (fun e => e.1 ∈ KEYS /\ newline ∉ e.2) kvs ->
  from_pairs kvs = Ok (settings kvs ∅)
  /\ from_flags (mjoin (flag_of <$> kvs)) = Ok (settings kvs ∅)
  /\ from_file (file_of kvs) = Ok (settings kvs ∅)
  /\ from_env (env_of kvs) = settings kvs ∅.
Proof.
  intros H. assert (Hk : Forall (fun e => e.1 ∈ KEYS) kvs) by (eapply Forall_impl; [exact H|naive_solver]).
  split; [by apply pairs_loop_settings|]. split; [apply flags_loop_spec; exists kvs; split; [by apply flags_written|done]|].
  split.
  - apply file_loop_spec. exists kvs. split; [|done]. rewrite str_lines_file by done. by apply file_written.
  - apply map_eq. intros k. rewrite from_env_lookup, settings_lookup, lookup_empty. case_bool_decide as HK.
    + rewrite env_of_value by done. by destruct (last_value kvs k).
    + destruct (last_value kvs k) eqn:Hl; [|done]. by destruct HK; eapply last_value_key.
Qed.

(** ** Sections

    Under a section a bare key is first read as the section's: the keys that cannot be
    written whole in some section because they are also another key's tail. *)
Definition shadowed : list (str * str) :=
  [(lit "grpc", lit "bind"); (lit "upstream", lit "tls_cert"); (lit "upstream", lit "tls_key");
   (lit "admin", lit "passthrough_cluster"); (lit "admin", lit "passthrough_endpoint")].
Lemma canonical_in_shadowed section key :
  key ∈ KEYS -> (canonical_in (Some section) key = Some key <-> (section, key) ∉ shadowed).
Proof.
  intros Hk. unfold canonical_in. cbn [mbind option_bind].
  assert (H : forall j, j ∈ KEYS -> j = section ++ lit "_" ++ key -> (section, key) ∈ shadowed).
  { intros j Hj ->. assert (Hsplit : forallb (fun j => forallb (fun k =>
        match strip_suffix (lit "_" ++ k) j with Some s => bool_decide ((s, k) ∈ shadowed) | None => true end) KEYS) KEYS = true)
      by (vm_compute; reflexivity).
    rewrite forallb_forall in Hsplit. apply list_elem_of_In in Hj, Hk. specialize (Hsplit _ Hj).
    rewrite forallb_forall in Hsplit. specialize (Hsplit _ Hk).
    rewrite (proj2 (strip_suffix_Some _ _ section) eq_refl) in Hsplit. by apply bool_decide_eq_true in Hsplit. }
  split.
  - intros Hc Hin. assert (Hs : Forall (fun e => match canonical (e.1 ++ lit "_" ++ e.2) with Some j => j <> e.2 | None => False end) shadowed)
      by (repeat constructor; vm_compute; discriminate).
    rewrite Forall_forall in Hs. specialize (Hs _ Hin). cbn [fst snd] in Hs. destruct (canonical _) as [j|]; [congruence|done].
  - intros Hn. destruct (canonical (section ++ lit "_" ++ key)) as [j|] eqn:Hc.
    + apply canonical_Some in Hc as [-> Hin]. destruct Hn. by eapply H.
    + by apply canonical_KEYS.
Qed.

(** ** Runs *)
Section Runs.
Definition sample_file : str :=
  lit "# the proxy" ++ [newline] ++ lit "index = 'logs'" ++ [newline] ++ lit "[capture]" ++ [newline]
  ++ lit "topic = all" ++ [newline] ++ lit "kafka_brokers=k1:9092" ++ [newline].
Definition sample_read (path : str) : Result str str :=
  if str_eqb path (lit "osproxy.conf") then Ok sample_file else Err (lit "not found").
Definition sample_env (name : str) : option str :=
  if str_eqb name (lit "OSPROXY_INDEX") then Some (lit "traces") else None.
Definition sample_args : list str := lit <$> ["--config=osproxy.conf"; "--capture-topic"; "some"]%string.

Example sample_load :
  (fun r => (fun k => r !! lit k) <$> ["index"; "capture_topic"; "capture_kafka_brokers"; "bind"]%string)
    <$> ok (load_raw sample_read sample_env sample_args)
  = Some [Some (lit "traces"); Some (lit "some"); Some (lit "k1:9092"); None].
Proof. vm_compute. reflexivity. Qed.
Example typo_fails_closed :
  load_raw sample_read sample_env [lit "--bnid"; lit "0.0.0.0:80"] = Err (unknown (lit "bnid"))
  /\ from_file (lit "bnid = x") = Err (unknown (lit "bnid")).
Proof. split; vm_compute; reflexivity. Qed.

Definition sample_raw : Raw := default ∅ (ok (load_raw sample_read sample_env sample_args)).
Lemma load_takes_the_last_word_witness :
  exists flag_path rest file flags,
    extract_config_flag sample_args = Ok (flag_path, rest)
    /\ FlagArgs rest flags
    /\ match (match flag_path with
              | Some p => Some p
              | None => match sample_env (lit "OSPROXY_CONFIG") with Some (c :: v) => Some (c :: v) | _ => None end
              end) with
       | Some path => exists text, sample_read path = Ok text /\ FileLines None (str_lines text) file
       | None => file = []
       end
    /\ forall k, sample_raw !! k =
         if bool_decide (k ∈ KEYS) then
           match last_value flags k with
           | Some v => Some v
           | None => match env_value sample_env k with
                     | Some v => Some v
                     | None => last_value file k
                     end
           end
         else None.
Proof.
  apply (load_takes_the_last_word sample_read sample_env sample_args sample_raw). unfold sample_raw.
  destruct (load_raw sample_read sample_env sample_args) as [r|e] eqn:Hl; [reflexivity|].
  pose proof sample_load as Hs. rewrite Hl in Hs. discriminate Hs.
Defined.

Definition sample_settings : list (str * str) := [(lit "bind", lit " 0.0.0.0:80"); (lit "tokens", lit "a=b"); (lit "index", [])].
Lemma sources_agree_witness :
  from_pairs sample_settings = Ok (settings sample_settings ∅)
  /\ from_flags (mjoin (flag_of <$> sample_settings)) = Ok (settings sample_settings ∅)
  /\ from_file (file_of sample_settings) = Ok (settings sample_settings ∅)
  /\ from_env (env_of sample_settings) = settings sample_settings ∅.
Proof.
  apply (sources_agree sample_settings).
  repeat constructor; cbn [fst snd]; (apply (bool_decide_unpack _); vm_compute; exact I) || idtac.
Defined.
End Runs.
