(* ===== verification/Config.v ===== *)
(** * Validated configuration ([crates/osproxy-config/src]: lib, upstream_tls, resolve)

    The merged settings turned into values: defaults, formats, and the settings that go
    together.  The order in which the fields are read, which decides the error that is
    reported, is the source's. *)
From stdpp Require Import base option list strings numbers sets gmap pretty.
From Stdlib Require Import Ascii ZArith Lia.
From S2P Require Import Prelude.
From S2P Require Import NetAddr.
From S2P Require Import RawConfig.

Open Scope osp_scope.

(** ** [lib.rs], [upstream_tls.rs]: what is served from *)
Record TlsConfig : Type := MkTlsConfig { cert_path : str; key_path : str; client_ca_path : option str }.
Record UpstreamTlsConfig : Type := MkUpstreamTls { up_ca_path : str; up_cert_path : option str; up_key_path : option str }.
Record CaptureTlsConfig : Type := MkCaptureTls { ca_path : str; client_cert_path : option str; client_key_path : option str }.
Record CaptureConfig : Type := MkCapture {
  cap_brokers : list str; cap_topic : str; redact : bool; cap_tls : option CaptureTlsConfig;
  max_inflight : Z; cap_max_attempts : Z; backoff_ms : Z; wal_dir : option str; wal_max_bytes : Z
}.
Inductive FanoutBodyEncoding : Type := Cbor | Json.
Record FanoutConfig : Type := MkFanout {
  fan_brokers : list str; fan_topic : str; fan_tls : option CaptureTlsConfig; body_encoding : FanoutBodyEncoding;
  async_default : bool; fan_expand_delete_by_query : bool
}.
Record EtcdConfig : Type := MkEtcd { endpoints : list str; directives_key : str }.
Inductive DiagBaseline : Type := BaselineOff | BaselineShape | BaselineShapeTiming | BaselineShapeRewriteDiff.
Definition baseline_str (d : DiagBaseline) : str :=
  match d with
  | BaselineOff => lit "off"
  | BaselineShape => lit "shape"
  | BaselineShapeTiming => lit "shape-timing"
  | BaselineShapeRewriteDiff => lit "shape-rewrite-diff"
  end.
Record ObservabilityConfig : Type := MkObservability {
  log_requests : bool; otlp_endpoint : option str; service_name : str; cfg_diag_baseline : DiagBaseline;
  debug_directive_key : option str; directive_admin_token : option str; debug_endpoints : bool;
  log_diagnostic_captures : bool; tenant_metrics_enabled : bool
}.
Record AdminPassthroughConfig : Type := MkAdminCfg { ac_cluster : str; ac_prefixes : list str; ac_endpoint : option str }.
Record HeaderForwardingConfig : Type := MkForwarding { fw_enabled : bool; fw_deny : list str }.
Record PassthroughConfig : Type := MkPassthroughCfg { pc_cluster : str; pc_endpoint : str; pc_index_prefixes : list str }.
Record Config : Type := MkConfig {
  bind_addr : SocketAddr; grpc_bind : option SocketAddr; upstream : str; cfg_index : str;
  cfg_tokens : list (str * str); require_tls_for_mutation : bool; cfg_tls : option TlsConfig;
  cfg_observability : ObservabilityConfig; cfg_admin_passthrough : option AdminPassthroughConfig;
  cursor_affinity_key : option str; cfg_passthrough : option PassthroughConfig;
  header_forwarding : HeaderForwardingConfig; cfg_upstream_tls : option UpstreamTlsConfig;
  cfg_capture : option CaptureConfig; capture_default : bool; cfg_fanout : option FanoutConfig;
  cfg_etcd : option EtcdConfig
}.

(** ** [resolve.rs]: single values *)
Section Resolve.
Context (raw : Raw).

Definition opt (key : str) : option str := raw !! key.
Definition string_or (key dflt : str) : str := default dflt (raw !! key).
Definition is_set (key : str) : bool := match raw !! key with Some _ => true | None => false end.
(** The pieces between commas, trimmed, without the empty ones. *)
Definition comma_separated (v : str) : list str :=
  List.filter (fun s => match s with [] => false | _ => true end) (trim <$> split "," v).
Definition csv (key : str) : list str := comma_separated (default [] (raw !! key)).

Definition socket_addr (key dflt : str) : Result SocketAddr ConfigError :=
  ok_or (parse_socket_addr (default dflt (raw !! key)))
    (invalid key (Text (lit "expected a `host:port` socket address"))).
Definition optional_socket_addr (key : str) : Result (option SocketAddr) ConfigError :=
  match raw !! key with
  | Some value =>
      let? a := ok_or (parse_socket_addr value) (invalid key (Text (lit "expected a `host:port` socket address"))) in
      Ok (Some a)
  | None => Ok None
  end.
Definition parse_bool (value : str) : option bool :=
  let v := to_ascii_lowercase <$> trim value in
  if bool_decide (v ∈ [lit "1"; lit "true"; lit "yes"]) then Some true
  else if bool_decide (v ∈ [lit "0"; lit "false"; lit "no"]) then Some false
  else None.
Definition bool_or (key : str) (dflt : bool) : Result bool ConfigError :=
  match raw !! key with
  | None => Ok dflt
  | Some value => ok_or (parse_bool value) (invalid key (Text (lit "expected a boolean (1/true/yes or 0/false/no)")))
  end.
Definition u64_or (key : str) (dflt : Z) : Result Z ConfigError :=
  match raw !! key with
  | None => Ok dflt
  | Some value =>
      match parse_unsigned u64_max (trim value) with
      | Some n => if (0 <? n)%Z then Ok n else Err (invalid key (Text (lit "expected a positive integer")))
      | None => Err (invalid key (Text (lit "expected a positive integer")))
      end
  end.
(** [try_from] to a narrower unsigned type. *)
Definition try_from_u64 (max n : Z) (key : str) : Result Z ConfigError :=
  if (n <=? max)%Z then Ok n else Err (invalid key (Text (lit "value too large"))).

(** ** Lists and groups of settings *)
Definition token_entry (entry : str) : Result (str * str) ConfigError :=
  let? (token, principal) :=
    ok_or (split_once "=" entry) (invalid (lit "tokens") (Quoting (lit "entry ") entry (lit " is not `token=principal`"))) in
  match trim token, trim principal with
  | [], _ | _, [] => Err (invalid (lit "tokens") (Quoting (lit "entry ") entry (lit " has an empty token or principal")))
  | token, principal => Ok (token, principal)
  end.
Definition tokens : Result (list (str * str)) ConfigError :=
  match raw !! lit "tokens" with
  | None => Ok []
  | Some spec => collect token_entry (comma_separated spec)
  end.
Definition tls : Result (option TlsConfig) ConfigError :=
  match opt (lit "tls_cert"), opt (lit "tls_key") with
  | None, None =>
      if is_set (lit "tls_client_ca")
      then Err (invalid (lit "tls_client_ca") (Text (lit "set tls_cert and tls_key before configuring a client CA (mTLS)")))
      else Ok None
  | Some cert_path, Some key_path => Ok (Some (MkTlsConfig cert_path key_path (opt (lit "tls_client_ca"))))
  | _, _ => Err (invalid (lit "tls_cert") (Text (lit "set both tls_cert and tls_key, or neither")))
  end.
Definition upstream_tls : Result (option UpstreamTlsConfig) ConfigError :=
  match opt (lit "upstream_tls_ca"), opt (lit "upstream_tls_cert"), opt (lit "upstream_tls_key") with
  | None, None, None => Ok None
  | None, _, _ =>
      Err (invalid (lit "upstream_tls_ca")
        (Text (lit "set upstream_tls_ca to enable TLS to the upstream (required, rustls trusts nothing implicitly)")))
  | Some ca_path, None, None => Ok (Some (MkUpstreamTls ca_path None None))
  | Some ca_path, Some cert_path, Some key_path => Ok (Some (MkUpstreamTls ca_path (Some cert_path) (Some key_path)))
  | _, _, _ =>
      Err (invalid (lit "upstream_tls_cert")
        (Text (lit "set both upstream_tls_cert and upstream_tls_key (mutual TLS to the upstream), or neither")))
  end.
Definition diag_baseline : Result DiagBaseline ConfigError :=
  match raw !! lit "diag_baseline" with
  | None => Ok BaselineShape
  | Some value =>
      let v := to_ascii_lowercase <$> value in
      if str_eqb v (lit "off") then Ok BaselineOff
      else if str_eqb v (lit "shape") then Ok BaselineShape
      else if str_eqb v (lit "shape-timing") then Ok BaselineShapeTiming
      else if str_eqb v (lit "shape-rewrite-diff") then Ok BaselineShapeRewriteDiff
      else Err (invalid (lit "diag_baseline") (Text (lit "expected off|shape|shape-timing|shape-rewrite-diff")))
  end.
Definition observability : Result ObservabilityConfig ConfigError :=
  let? log_requests := bool_or (lit "log_requests") false in
  let otlp := opt (lit "otlp_endpoint") in
  let service := string_or (lit "service_name") (lit "osproxy") in
  let? baseline := diag_baseline in
  let directive_key := opt (lit "debug_directive_key") in
  let admin_token := opt (lit "directive_admin_token") in
  let? debug := bool_or (lit "debug_endpoints") true in
  let? captures := bool_or (lit "log_diagnostic_captures") false in
  let? tenant_metrics := bool_or (lit "tenant_metrics_enabled") false in
  Ok (MkObservability log_requests otlp service baseline directive_key admin_token debug captures tenant_metrics).
Definition DEFAULT_ADMIN_PREFIXES : str := lit "/_cat/,/_cluster/,/_nodes/".
Definition admin_passthrough : option AdminPassthroughConfig :=
  cluster ← raw !! lit "admin_passthrough_cluster";
  let prefixes := comma_separated (default DEFAULT_ADMIN_PREFIXES (raw !! lit "admin_passthrough_prefixes")) in
  Some (MkAdminCfg cluster prefixes (opt (lit "admin_passthrough_endpoint"))).
Definition passthrough : Result (option PassthroughConfig) ConfigError :=
  match opt (lit "passthrough_cluster"), opt (lit "passthrough_endpoint") with
  | None, None => Ok None
  | Some cluster, Some endpoint => Ok (Some (MkPassthroughCfg cluster endpoint (csv (lit "passthrough_indices"))))
  | _, _ => Err (invalid (lit "passthrough_cluster") (Text (lit "set both passthrough_cluster and passthrough_endpoint, or neither")))
  end.
Definition etcd : Result (option EtcdConfig) ConfigError :=
  match csv (lit "etcd_endpoints") with
  | [] =>
      if is_set (lit "etcd_directives_key")
      then Err (invalid (lit "etcd_endpoints") (Text (lit "set etcd_endpoints when configuring an etcd directive store")))
      else Ok None
  | endpoints => Ok (Some (MkEtcd endpoints (string_or (lit "etcd_directives_key") (lit "osproxy/directives"))))
  end.

Definition fanout_body_encoding : Result FanoutBodyEncoding ConfigError :=
  match trim <$> raw !! lit "fanout_body_encoding" with
  | None => Ok Cbor
  | Some v =>
      if eq_ignore_ascii_case v (lit "cbor") then Ok Cbor
      else if eq_ignore_ascii_case v (lit "json") then Ok Json
      else Err (invalid (lit "fanout_body_encoding") (Text (lit "expected `cbor` or `json`")))
  end.
Definition fanout_tls : Result (option CaptureTlsConfig) ConfigError :=
  let? client :=
    match opt (lit "fanout_kafka_client_cert"), opt (lit "fanout_kafka_client_key") with
    | None, None => Ok None
    | Some cert, Some key => Ok (Some (cert, key))
    | _, _ => Err (invalid (lit "fanout_kafka_client_cert")
                (Text (lit "set both fanout_kafka_client_cert and fanout_kafka_client_key, or neither")))
    end in
  match opt (lit "fanout_kafka_ca") with
  | None =>
      match client with
      | Some _ => Err (invalid (lit "fanout_kafka_ca") (Text (lit "client-cert mTLS to the brokers requires fanout_kafka_ca")))
      | None => Ok None
      end
  | Some ca_path => Ok (Some (MkCaptureTls ca_path (fst <$> client) (snd <$> client)))
  end.
Definition fanout : Result (option FanoutConfig) ConfigError :=
  match opt (lit "fanout_kafka_brokers"), opt (lit "fanout_topic") with
  | None, None =>
      if is_set (lit "fanout_kafka_ca")
      then Err (invalid (lit "fanout_kafka_ca") (Text (lit "set fanout_kafka_brokers and fanout_topic to enable fan-out")))
      else Ok None
  | Some brokers, Some topic =>
      match comma_separated brokers with
      | [] => Err (invalid (lit "fanout_kafka_brokers") (Text (lit "expected at least one `host:port` broker")))
      | brokers =>
          let? tls := fanout_tls in
          let? encoding := fanout_body_encoding in
          let? async := bool_or (lit "fanout_async_default") false in
          let? expand := bool_or (lit "fanout_expand_delete_by_query") false in
          Ok (Some (MkFanout brokers topic tls encoding async expand))
      end
  | _, _ => Err (invalid (lit "fanout_kafka_brokers") (Text (lit "set both fanout_kafka_brokers and fanout_topic, or neither")))
  end.

(** ** [resolve_capture.rs] *)
Definition capture_tls : Result (option CaptureTlsConfig) ConfigError :=
  let? client :=
    match opt (lit "capture_kafka_client_cert"), opt (lit "capture_kafka_client_key") with
    | None, None => Ok None
    | Some cert, Some key => Ok (Some (cert, key))
    | _, _ => Err (invalid (lit "capture_kafka_client_cert")
                (Text (lit "set both capture_kafka_client_cert and capture_kafka_client_key, or neither")))
    end in
  match opt (lit "capture_kafka_ca") with
  | None =>
      match client with
      | Some _ => Err (invalid (lit "capture_kafka_ca") (Text (lit "client-cert mTLS to the brokers requires capture_kafka_ca")))
      | None => Ok None
      end
  | Some ca_path => Ok (Some (MkCaptureTls ca_path (fst <$> client) (snd <$> client)))
  end.
Definition capture : Result (option CaptureConfig) ConfigError :=
  match opt (lit "capture_kafka_brokers"), opt (lit "capture_topic") with
  | None, None =>
      if is_set (lit "capture_kafka_ca")
      then Err (invalid (lit "capture_kafka_ca") (Text (lit "set capture_kafka_brokers and capture_topic to enable capture")))
      else Ok None
  | Some brokers, Some topic =>
      match comma_separated brokers with
      | [] => Err (invalid (lit "capture_kafka_brokers") (Text (lit "expected at least one `host:port` broker")))
      | brokers =>
          let? redact := bool_or (lit "capture_redact") true in
          let? tls := capture_tls in
          let? inflight := u64_or (lit "capture_max_inflight") 1024 in
          let? inflight := try_from_u64 usize_max inflight (lit "capture_max_inflight") in
          let? attempts := u64_or (lit "capture_max_attempts") 4 in
          let? attempts := try_from_u64 u32_max attempts (lit "capture_max_attempts") in
          let? backoff := u64_or (lit "capture_backoff_ms") 50 in
          let dir := opt (lit "capture_wal_dir") in
          let? bytes := u64_or (lit "capture_wal_max_bytes") (256 * 1024 * 1024) in
          Ok (Some (MkCapture brokers topic redact tls inflight attempts backoff dir bytes))
      end
  | _, _ => Err (invalid (lit "capture_kafka_brokers") (Text (lit "set both capture_kafka_brokers and capture_topic, or neither")))
  end.

Definition resolve : Result Config ConfigError :=
  let? bind := socket_addr (lit "bind") (lit "127.0.0.1:8080") in
  let? grpc := optional_socket_addr (lit "grpc_bind") in
  let? toks := tokens in
  let? cleartext := bool_or (lit "allow_cleartext_mutation") false in
  let? tls := tls in
  let? obs := observability in
  let? pass := passthrough in
  let? forward := bool_or (lit "forward_client_headers") true in
  let? up_tls := upstream_tls in
  let? cap := capture in
  let? cap_default := bool_or (lit "capture_default") false in
  let? fan := fanout in
  let? etcd := etcd in
  Ok (MkConfig bind grpc (string_or (lit "upstream") (lit "http://127.0.0.1:9200"))
        (string_or (lit "index") (lit "osproxy-shared")) toks (negb cleartext) tls obs admin_passthrough
        (opt (lit "cursor_affinity_key")) pass (MkForwarding forward (csv (lit "forward_header_deny")))
        up_tls cap cap_default fan etcd).
End Resolve.

(** [Config::load]. *)
Definition load (read : str -> Result str str) (env : str -> option str) (args : list str) : Result Config ConfigError :=
  let? raw := load_raw read env args in resolve raw.

(** ** What a valid configuration is *)
Definition nonempty (s : str) : Prop := s <> [].
Definition TlsPair (cert key : option str) : Prop := is_Some cert <-> is_Some key.
Definition ConfigOk (c : Config) : Prop :=
  (0 <= port_of (bind_addr c) <= 65535)%Z
  /\ (forall a, grpc_bind c = Some a -> (0 <= port_of a <= 65535)%Z)
  /\ Forall (fun e => nonempty e.1 /\ nonempty e.2) (cfg_tokens c)
  /\ (forall t, cfg_upstream_tls c = Some t -> TlsPair (up_cert_path t) (up_key_path t))
  /\ (forall a, cfg_admin_passthrough c = Some a -> Forall nonempty (ac_prefixes a))
  /\ (forall p, cfg_passthrough c = Some p -> Forall nonempty (pc_index_prefixes p))
  /\ Forall nonempty (fw_deny (header_forwarding c))
  /\ (forall k, cfg_capture c = Some k ->
       cap_brokers k <> [] /\ Forall nonempty (cap_brokers k)
       /\ (forall t, cap_tls k = Some t -> TlsPair (client_cert_path t) (client_key_path t))
       /\ (0 < max_inflight k <= usize_max)%Z /\ (0 < cap_max_attempts k <= u32_max)%Z
       /\ (0 < backoff_ms k <= u64_max)%Z /\ (0 < wal_max_bytes k <= u64_max)%Z)
  /\ (forall f, cfg_fanout c = Some f ->
       fan_brokers f <> [] /\ Forall nonempty (fan_brokers f)
       /\ (forall t, fan_tls f = Some t -> TlsPair (client_cert_path t) (client_key_path t)))
  /\ (forall e, cfg_etcd c = Some e -> endpoints e <> [] /\ Forall nonempty (endpoints e)).

Lemma comma_separated_nonempty v : Forall nonempty (comma_separated v).
Proof.
  apply Forall_forall. intros s Hs%list_elem_of_In. unfold comma_separated in Hs. apply List.filter_In in Hs as [_ Hs].
  by destruct s.
Qed.

Section Valid.
Context (raw : Raw).

Lemma socket_addr_port key dflt a : socket_addr raw key dflt = Ok a -> (0 <= port_of a <= 65535)%Z.
Proof. intros H%ok_or_Ok. by eapply parse_socket_addr_port. Qed.
Lemma optional_socket_addr_port key o a : optional_socket_addr raw key = Ok o -> o = Some a -> (0 <= port_of a <= 65535)%Z.
Proof.
  unfold optional_socket_addr. destruct (raw !! key) as [v|]; [|by intros [= <-]].
  intros (b & Hb%ok_or_Ok & [= <-])%rbind_Ok [= ->]. by eapply parse_socket_addr_port.
Qed.
Lemma u64_or_bound key dflt n : (0 < dflt <= u64_max)%Z -> u64_or raw key dflt = Ok n -> (0 < n <= u64_max)%Z.
Proof.
  intros Hd. unfold u64_or. destruct (raw !! key) as [v|]; [|by intros [= <-]].
  destruct (parse_unsigned _ _) as [m|] eqn:Hp; [|done]. destruct (Z.ltb_spec 0 m); [|done]. intros [= <-].
  split; [done|]. clear -Hp. unfold parse_unsigned in Hp. destruct (match trim v with [] => [] | _ => _ end) as [|d ds]; [done|].
  destruct (forallb _ _); [|done]. cbv zeta in Hp. destruct (Z.ltb_spec u64_max (foldl (fun n c => n * 10 + (bz c - 48))%Z 0%Z (d :: ds))); [done|].
  injection Hp as <-. done.
Qed.
Lemma try_from_bound max n key m : try_from_u64 max n key = Ok m -> m = n /\ (n <= max)%Z.
Proof. unfold try_from_u64. destruct (Z.leb_spec n max); [|done]. by intros [= <-]. Qed.
Lemma tokens_ok ts : tokens raw = Ok ts -> Forall (fun e => nonempty e.1 /\ nonempty e.2) ts.
Proof.
  unfold tokens. destruct (raw !! lit "tokens") as [spec|]; [|intros [= <-]; constructor].
  generalize (comma_separated spec). intros l. revert ts. induction l as [|x l IH]; intros ts; cbn; [intros [= <-]; constructor|].
  intros ([t p] & Hx & (ys & Hl & [= <-])%rbind_Ok)%rbind_Ok. constructor; [|by apply IH].
  unfold token_entry in Hx. apply rbind_Ok in Hx as ([a b] & _ & Hx).
  destruct (trim a) as [|? ?] eqn:Ha, (trim b) as [|? ?] eqn:Hb; try done. injection Hx as <- <-. done.
Qed.
Lemma upstream_tls_ok o t : upstream_tls raw = Ok o -> o = Some t -> TlsPair (up_cert_path t) (up_key_path t).
Proof.
  unfold upstream_tls, TlsPair. destruct (opt raw (lit "upstream_tls_ca")) as [ca|], (opt raw (lit "upstream_tls_cert")) as [ce|],
    (opt raw (lit "upstream_tls_key")) as [k|]; try done;
    intros [= <-] [= <-]; cbn; (done || by split; eexists).
Qed.
Lemma passthrough_ok o p : passthrough raw = Ok o -> o = Some p -> Forall nonempty (pc_index_prefixes p).
Proof.
  unfold passthrough. destruct (opt raw (lit "passthrough_cluster")), (opt raw (lit "passthrough_endpoint")); try done; intros [= <-] [= <-]. apply comma_separated_nonempty.
Qed.
Lemma client_pair (client : option (str * str)) : TlsPair (fst <$> client) (snd <$> client).
Proof. unfold TlsPair. by rewrite !fmap_is_Some. Qed.
Lemma capture_tls_ok o t : capture_tls raw = Ok o -> o = Some t -> TlsPair (client_cert_path t) (client_key_path t).
Proof.
  intros (client & _ & H)%rbind_Ok ->. destruct (opt raw _); [|by destruct client]. injection H as <-. apply client_pair.
Qed.
Lemma fanout_tls_ok o t : fanout_tls raw = Ok o -> o = Some t -> TlsPair (client_cert_path t) (client_key_path t).
Proof.
  intros (client & _ & H)%rbind_Ok ->. destruct (opt raw _); [|by destruct client]. injection H as <-. apply client_pair.
Qed.
Lemma capture_ok o k : capture raw = Ok o -> o = Some k ->
  cap_brokers k <> [] /\ Forall nonempty (cap_brokers k)
  /\ (forall t, cap_tls k = Some t -> TlsPair (client_cert_path t) (client_key_path t))
  /\ (0 < max_inflight k <= usize_max)%Z /\ (0 < cap_max_attempts k <= u32_max)%Z
  /\ (0 < backoff_ms k <= u64_max)%Z /\ (0 < wal_max_bytes k <= u64_max)%Z.
Proof.
  unfold capture. destruct (opt raw (lit "capture_kafka_brokers")) as [bs|], (opt raw (lit "capture_topic")) as [topic|]; try done.
  2: by destruct (is_set _ _); intros [= <-].
  pose proof (comma_separated_nonempty bs) as Hbs. destruct (comma_separated bs) as [|b l] eqn:Hb; [done|].
  intros (red & _ & (tls & Ht & (i & Hi & (i' & Hi' & (a & Ha & (a' & Ha' & (ms & Hms & (by_ & Hby & [= <-])
    %rbind_Ok)%rbind_Ok)%rbind_Ok)%rbind_Ok)%rbind_Ok)%rbind_Ok)%rbind_Ok)%rbind_Ok [= <-]. cbn.
  apply u64_or_bound in Hi, Ha, Hms, Hby; [|done..]. apply try_from_bound in Hi' as [-> Hi'], Ha' as [-> Ha'].
  split_and!; try done; try lia. intros t ->. by eapply capture_tls_ok.
Qed.
Lemma fanout_ok o f : fanout raw = Ok o -> o = Some f ->
  fan_brokers f <> [] /\ Forall nonempty (fan_brokers f)
  /\ (forall t, fan_tls f = Some t -> TlsPair (client_cert_path t) (client_key_path t)).
Proof.
  unfold fanout. destruct (opt raw (lit "fanout_kafka_brokers")) as [bs|], (opt raw (lit "fanout_topic")) as [topic|]; try done.
  2: by destruct (is_set _ _); intros [= <-].
  pose proof (comma_separated_nonempty bs) as Hbs. destruct (comma_separated bs) as [|b l] eqn:Hb; [done|].
  intros (tls & Ht & (enc & _ & (a & _ & (e & _ & [= <-])%rbind_Ok)%rbind_Ok)%rbind_Ok)%rbind_Ok [= <-]. cbn.
  split_and!; try done. intros t ->. by eapply fanout_tls_ok.
Qed.
Lemma etcd_ok o e : etcd raw = Ok o -> o = Some e -> endpoints e <> [] /\ Forall nonempty (endpoints e).
Proof.
  unfold etcd, csv. pose proof (comma_separated_nonempty (default [] (raw !! lit "etcd_endpoints"))) as Hn.
  destruct (comma_separated _) as [|x l]; [by destruct (is_set _ _); intros [= <-]|]. by intros [= <-] [= <-].
Qed.

(** C35: Every configuration that loads is well formed: ports fit, tokens and principals are
    not empty, no list holds an empty entry (an empty prefix would match everything), a
    client certificate comes with its key, brokers and endpoints are listed where they are
    needed, and every limit is positive and fits its type. *)
Theorem resolved_config_is_well_formed c : resolve raw = Ok c -> ConfigOk c.
Proof.
  intros (b & Hb & (g & Hg & (ts & Hts & (cl & Hcl & (tl & Htl & (ob & Hob & (pa & Hpa & (fw & Hfw & (ut & Hut & (ca & Hca
    & (cd & Hcd & (fa & Hfa & (et & Het & [= <-])%rbind_Ok)%rbind_Ok)%rbind_Ok)%rbind_Ok)%rbind_Ok)%rbind_Ok)%rbind_Ok)
    %rbind_Ok)%rbind_Ok)%rbind_Ok)%rbind_Ok)%rbind_Ok)%rbind_Ok.
  unfold ConfigOk. cbn. split; [by eapply socket_addr_port|].
  split; [intros a Ha; by eapply optional_socket_addr_port|]. split; [by apply tokens_ok|].
  split; [intros t H; by eapply upstream_tls_ok|].
  split. { unfold admin_passthrough. intros a (cluster & _ & [= <-])%bind_Some. apply comma_separated_nonempty. }
  split; [intros p H; by eapply passthrough_ok|]. split; [apply comma_separated_nonempty|].
  split; [intros k H; by eapply capture_ok|]. split; [intros f H; by eapply fanout_ok|]. intros e H. by eapply etcd_ok.
Qed.

(** ** What is opened, and what is not *)
Lemma bool_or_opted key dflt b : bool_or raw key dflt = Ok b ->
  b = dflt \/ exists v, raw !! key = Some v /\ parse_bool v = Some b.
Proof. unfold bool_or. destruct (raw !! key) as [v|]; [|intros [= ->]; by left]. intros H%ok_or_Ok. right. by exists v. Qed.
Lemma observability_secrets ob : observability raw = Ok ob ->
  directive_admin_token ob = raw !! lit "directive_admin_token" /\ debug_directive_key ob = raw !! lit "debug_directive_key".
Proof. by intros (? & _ & (? & _ & (? & _ & (? & _ & (? & _ & [= <-])%rbind_Ok)%rbind_Ok)%rbind_Ok)%rbind_Ok)%rbind_Ok. Qed.
Lemma tls_as_asked t : tls raw = Ok t ->
  (forall ca, raw !! lit "tls_client_ca" = Some ca -> client_ca_path <$> t = Some (Some ca))
  /\ (forall c, raw !! lit "tls_cert" = Some c -> cert_path <$> t = Some c)
  /\ (forall k, raw !! lit "tls_key" = Some k -> key_path <$> t = Some k).
Proof.
  unfold tls, opt, is_set. destruct (raw !! lit "tls_cert") as [c|], (raw !! lit "tls_key") as [k|]; try done.
  - intros [= <-]. cbn. by split; [intros ca ->|split; intros ? [= ->]].
  - destruct (raw !! lit "tls_client_ca"); [done|]. by intros [= <-].
Qed.
Lemma upstream_tls_as_asked t : upstream_tls raw = Ok t ->
  (forall ca, raw !! lit "upstream_tls_ca" = Some ca -> up_ca_path <$> t = Some ca)
  /\ (forall c, raw !! lit "upstream_tls_cert" = Some c -> up_cert_path <$> t = Some (Some c)).
Proof.
  unfold upstream_tls, opt. destruct (raw !! lit "upstream_tls_ca") as [ca|], (raw !! lit "upstream_tls_cert") as [c|],
    (raw !! lit "upstream_tls_key") as [k|]; try done; intros [= <-]; cbn; by split; intros ? [= ->].
Qed.
Lemma passthrough_as_asked o p : passthrough raw = Ok o -> o = Some p ->
  raw !! lit "passthrough_cluster" = Some (pc_cluster p) /\ raw !! lit "passthrough_endpoint" = Some (pc_endpoint p).
Proof.
  unfold passthrough, opt. destruct (raw !! lit "passthrough_cluster"), (raw !! lit "passthrough_endpoint"); try done;
    by intros [= <-] [= <-].
Qed.
Lemma capture_redacts o k : capture raw = Ok o -> o = Some k ->
  redact k = true \/ exists v, raw !! lit "capture_redact" = Some v /\ parse_bool v = Some false.
Proof.
  unfold capture. destruct (opt raw (lit "capture_kafka_brokers")) as [bs|], (opt raw (lit "capture_topic")) as [topic|]; try done.
  2: by destruct (is_set _ _); intros [= <-].
  destruct (comma_separated bs) as [|b l]; [done|].
  intros (red & Hr & (tls & _ & (i & _ & (i' & _ & (a & _ & (a' & _ & (ms & _ & (by_ & _ & [= <-])
    %rbind_Ok)%rbind_Ok)%rbind_Ok)%rbind_Ok)%rbind_Ok)%rbind_Ok)%rbind_Ok)%rbind_Ok [= <-]. cbn.
  apply bool_or_opted in Hr as [->|(v & Hv & Hb)]; [by left|]. destruct red; [by left|right]. by exists v.
Qed.
End Valid.

Lemma load_tls read env args c : load read env args = Ok c ->
  exists raw, load_raw read env args = Ok raw /\ tls raw = Ok (cfg_tls c) /\ upstream_tls raw = Ok (cfg_upstream_tls c).
Proof.
  unfold load. intros (raw & Hraw & Hres)%rbind_Ok. exists raw. split; [done|]. revert Hres.
  intros (b & _ & (g & _ & (ts & _ & (cl & _ & (tl & Htl & (ob & _ & (pa & _ & (fw & _ & (ut & Hut & (ca & _
    & (cd & _ & (fa & _ & (et & _ & [= <-])%rbind_Ok)%rbind_Ok)%rbind_Ok)%rbind_Ok)%rbind_Ok)%rbind_Ok)%rbind_Ok)
    %rbind_Ok)%rbind_Ok)%rbind_Ok)%rbind_Ok)%rbind_Ok)%rbind_Ok. done.
Qed.
Lemma admin_token_nonempty read env args c : load read env args = Ok c -> directive_admin_token (cfg_observability c) <> Some [].
Proof.
  unfold load. intros (raw & Hraw & Hres)%rbind_Ok. apply load_raw_known in Hraw. revert Hres.
  intros (b & _ & (g & _ & (ts & _ & (cl & _ & (tl & _ & (ob & Hob & (pa & _ & (fw & _ & (ut & _ & (ca & _
    & (cd & _ & (fa & _ & (et & _ & [= <-])%rbind_Ok)%rbind_Ok)%rbind_Ok)%rbind_Ok)%rbind_Ok)%rbind_Ok)%rbind_Ok)
    %rbind_Ok)%rbind_Ok)%rbind_Ok)%rbind_Ok)%rbind_Ok)%rbind_Ok.
  cbn. apply observability_secrets in Hob as [-> _]. intros Hk. by destruct (Hraw _ _ Hk).
Qed.

(** C34: Nothing is opened that was not asked for, and no protection that was asked for is
    dropped. In a configuration that loads: cleartext mutation is refused unless the
    operator opted out; requests are passed through, and admin requests forwarded, only to a
    cluster the operator named; captures are redacted unless opted out; no admin token and
    no signing key is empty; and where the operator gave a client CA, a server certificate,
    an upstream CA or an upstream client certificate, it is in the configuration that is
    served from: the load fails rather than ignore one. *)
Theorem nothing_is_opened_by_default read env args c :
  load read env args = Ok c ->
  exists raw, load_raw read env args = Ok raw
  /\ (require_tls_for_mutation c = true
      \/ exists v, raw !! lit "allow_cleartext_mutation" = Some v /\ parse_bool v = Some true)
  /\ (forall p, cfg_passthrough c = Some p ->
       raw !! lit "passthrough_cluster" = Some (pc_cluster p) /\ raw !! lit "passthrough_endpoint" = Some (pc_endpoint p))
  /\ (forall a, cfg_admin_passthrough c = Some a -> raw !! lit "admin_passthrough_cluster" = Some (ac_cluster a))
  /\ (forall k, cfg_capture c = Some k ->
       redact k = true \/ exists v, raw !! lit "capture_redact" = Some v /\ parse_bool v = Some false)
  /\ directive_admin_token (cfg_observability c) <> Some [] /\ debug_directive_key (cfg_observability c) <> Some []
  /\ cursor_affinity_key c <> Some []
  /\ (forall ca, raw !! lit "tls_client_ca" = Some ca -> client_ca_path <$> cfg_tls c = Some (Some ca))
  /\ (forall x, raw !! lit "tls_cert" = Some x -> cert_path <$> cfg_tls c = Some x)
  /\ (forall ca, raw !! lit "upstream_tls_ca" = Some ca -> up_ca_path <$> cfg_upstream_tls c = Some ca)
  /\ (forall x, raw !! lit "upstream_tls_cert" = Some x -> up_cert_path <$> cfg_upstream_tls c = Some (Some x)).
Proof.
  unfold load. intros (raw & Hraw & Hres)%rbind_Ok. exists raw. split; [done|].
  apply load_raw_known in Hraw. assert (Hne : forall k, raw !! k <> Some []) by (intros k Hk; by destruct (Hraw k [] Hk)).
  revert Hres. intros (b & _ & (g & _ & (ts & _ & (cl & Hcl & (tl & Htl & (ob & Hob & (pa & Hpa & (fw & _ & (ut & Hut & (ca & Hca
    & (cd & _ & (fa & _ & (et & _ & [= <-])%rbind_Ok)%rbind_Ok)%rbind_Ok)%rbind_Ok)%rbind_Ok)%rbind_Ok)%rbind_Ok)
    %rbind_Ok)%rbind_Ok)%rbind_Ok)%rbind_Ok)%rbind_Ok)%rbind_Ok. cbn.
  apply observability_secrets in Hob as [Ht Hd]. apply tls_as_asked in Htl as (Hca' & Hcert & _).
  apply upstream_tls_as_asked in Hut as [Huca Hucert]. rewrite Ht, Hd. split_and!; try done.
  - apply bool_or_opted in Hcl as [->|(v & Hv & Hb)]; [by left|]. destruct cl; [right; by exists v|by left].
  - intros p H. by eapply passthrough_as_asked.
  - unfold admin_passthrough. by intros a (cluster & Hc & [= <-])%bind_Some.
  - intros k H. by eapply capture_redacts.
  - apply Hne.
Qed.

(** ** Errors *)

(** The settings a named one goes with: what is reported of a group names the setting to fix,
    not always the one that was given. *)
Definition companions : list (str * str) :=
  (fun e => (lit e.1, lit e.2)) <$>
  [("tls_cert", "tls_key"); ("upstream_tls_ca", "upstream_tls_cert"); ("upstream_tls_ca", "upstream_tls_key");
   ("upstream_tls_cert", "upstream_tls_key"); ("passthrough_cluster", "passthrough_endpoint");
   ("etcd_endpoints", "etcd_directives_key"); ("fanout_kafka_brokers", "fanout_topic");
   ("fanout_kafka_client_cert", "fanout_kafka_client_key"); ("fanout_kafka_ca", "fanout_kafka_client_cert");
   ("capture_kafka_brokers", "capture_topic"); ("capture_kafka_client_cert", "capture_kafka_client_key");
   ("capture_kafka_ca", "capture_kafka_client_cert")]%string.
Section Errors.
Context (raw : Raw).

(** The error names a known setting that was given a value, or one that goes with it. *)
Definition Blames (e : ConfigError) : Prop :=
  ce_field e ∈ KEYS
  /\ exists k, is_Some (raw !! k) /\ (k = ce_field e \/ (ce_field e, k) ∈ companions).
Ltac known := apply (bool_decide_unpack _); vm_compute; exact I.

Lemma blames_self key reason : key ∈ KEYS -> is_Some (raw !! key) -> Blames (invalid key reason).
Proof. intros Hk Hs. split; [done|]. exists key. split; [done|by left]. Qed.
Lemma blames_companion key other reason :
  key ∈ KEYS -> is_Some (raw !! other) -> (key, other) ∈ companions -> Blames (invalid key reason).
Proof. intros Hk Hs Hc. split; [done|]. exists other. split; [done|by right]. Qed.
Lemma bool_or_blames key dflt e : key ∈ KEYS -> bool_or raw key dflt = Err e -> Blames e.
Proof.
  intros Hk. unfold bool_or. destruct (raw !! key) as [v|] eqn:Hv; [|done]. intros [_ <-]%ok_or_Err. by apply blames_self; [|rewrite Hv].
Qed.
Lemma u64_or_blames key dflt e : key ∈ KEYS -> u64_or raw key dflt = Err e -> Blames e.
Proof.
  intros Hk. unfold u64_or. destruct (raw !! key) as [v|] eqn:Hv; [|done].
  destruct (parse_unsigned _ _) as [n|]; [destruct (0 <? n)%Z; [done|]|]; intros [= <-]; (by apply blames_self; [|rewrite Hv]).
Qed.
(** A value too large for its type was given: the default fits. *)
Lemma too_large_blames key dflt max n e :
  key ∈ KEYS -> (dflt <= max)%Z -> u64_or raw key dflt = Ok n -> try_from_u64 max n key = Err e -> Blames e.
Proof.
  intros Hk Hd Hn. unfold try_from_u64. destruct (Z.leb_spec n max) as [|Hlt]; [done|]. intros [= <-].
  apply blames_self; [done|]. unfold u64_or in Hn. destruct (raw !! key); [done|]. injection Hn as <-. lia.
Qed.
Lemma socket_addr_blames key dflt e :
  key ∈ KEYS -> is_Some (parse_socket_addr dflt) -> socket_addr raw key dflt = Err e -> Blames e.
Proof.
  intros Hk [a Ha]. unfold socket_addr. intros [Hp <-]%ok_or_Err. apply blames_self; [done|].
  destruct (raw !! key); [done|]. cbn in Hp. congruence.
Qed.
Lemma optional_socket_addr_blames key e : key ∈ KEYS -> optional_socket_addr raw key = Err e -> Blames e.
Proof.
  intros Hk. unfold optional_socket_addr. destruct (raw !! key) as [v|] eqn:Hv; [|done].
  intros [[_ <-]%ok_or_Err|(? & _ & [=])]%rbind_Err. by apply blames_self; [|rewrite Hv].
Qed.
Lemma token_entry_field x e : token_entry x = Err e -> ce_field e = lit "tokens".
Proof.
  unfold token_entry. intros [[_ <-]%ok_or_Err|([a b] & _ & H)]%rbind_Err; [done|].
  by destruct (trim a), (trim b); simplify_eq/=.
Qed.
Lemma tokens_blames e : tokens raw = Err e -> Blames e.
Proof.
  unfold tokens. destruct (raw !! lit "tokens") as [spec|] eqn:Hv; [|done]. intros H.
  assert (Hf : ce_field e = lit "tokens").
  { revert H. generalize (comma_separated spec). intros l. induction l as [|x l IH]; [done|]. cbn [collect].
    intros [H|(y & _ & [H|(ys & _ & [=])]%rbind_Err)]%rbind_Err; [by eapply token_entry_field|by apply IH]. }
  split; [rewrite Hf; known|]. exists (lit "tokens"). by rewrite Hv, Hf; split; [|left].
Qed.
Lemma given key : is_set raw key = true -> is_Some (raw !! key).
Proof. unfold is_set. by destruct (raw !! key). Qed.
Lemma tls_blames e : tls raw = Err e -> Blames e.
Proof.
  unfold tls, opt. destruct (raw !! lit "tls_cert") eqn:Hc, (raw !! lit "tls_key") eqn:Hk; try done.
  - intros [= <-]. apply blames_self; [known|by eexists].
  - intros [= <-]. eapply (blames_companion _ (lit "tls_key")); [known|by eexists|known].
  - destruct (is_set raw _) eqn:Hs; [|done]. intros [= <-]. apply blames_self; [known|by apply given].
Qed.
Lemma upstream_tls_blames e : upstream_tls raw = Err e -> Blames e.
Proof.
  unfold upstream_tls, opt. destruct (raw !! lit "upstream_tls_ca") eqn:Ha, (raw !! lit "upstream_tls_cert") eqn:Hc,
    (raw !! lit "upstream_tls_key") eqn:Hk; try done; intros [= <-].
  - apply blames_self; [known|by eexists].
  - eapply (blames_companion _ (lit "upstream_tls_key")); [known|by eexists|known].
  - eapply (blames_companion _ (lit "upstream_tls_cert")); [known|by eexists|known].
  - eapply (blames_companion _ (lit "upstream_tls_cert")); [known|by eexists|known].
  - eapply (blames_companion _ (lit "upstream_tls_key")); [known|by eexists|known].
Qed.
Lemma diag_baseline_blames e : diag_baseline raw = Err e -> Blames e.
Proof.
  unfold diag_baseline. destruct (raw !! lit "diag_baseline") as [v|] eqn:Hv; [|done].
  repeat (match goal with |- context [str_eqb ?a ?b] => destruct (str_eqb a b); [done|] end).
  intros [= <-]. apply blames_self; [known|by eexists].
Qed.
Lemma observability_blames e : observability raw = Err e -> Blames e.
Proof.
  unfold observability. intros [H|(? & _ & [H|(? & _ & [H|(? & _ & [H|(? & _ & [H|(? & _ & [=])]%rbind_Err)]%rbind_Err)]
    %rbind_Err)]%rbind_Err)]%rbind_Err; (by apply diag_baseline_blames) || (eapply bool_or_blames; [|exact H]; known).
Qed.
Lemma passthrough_blames e : passthrough raw = Err e -> Blames e.
Proof.
  unfold passthrough, opt. destruct (raw !! lit "passthrough_cluster") eqn:Hc, (raw !! lit "passthrough_endpoint") eqn:He; try done;
    intros [= <-].
  - apply blames_self; [known|by eexists].
  - eapply (blames_companion _ (lit "passthrough_endpoint")); [known|by eexists|known].
Qed.
Lemma etcd_blames e : etcd raw = Err e -> Blames e.
Proof.
  unfold etcd. destruct (csv raw _); [|done]. destruct (is_set raw _) eqn:Hs; [|done]. intros [= <-].
  eapply (blames_companion _ (lit "etcd_directives_key")); [known|by apply given|known].
Qed.
Lemma pair_Err {X} (a b : option X) (err e : ConfigError) :
  match a, b with None, None => Ok None | Some x, Some y => Ok (Some (x, y)) | _, _ => Err err end = Err e -> e = err /\ (is_Some a \/ is_Some b).
Proof. destruct a, b; try done; intros [= <-]; (split; [done|]); [left|right]; by eexists. Qed.
Lemma pair_given {X} (a b : option X) (err : ConfigError) c :
  match a, b with None, None => Ok None | Some x, Some y => Ok (Some (x, y)) | _, _ => Err err end = Ok (Some c) -> is_Some a.
Proof. destruct a, b; try done; intros _; by eexists. Qed.
Lemma capture_tls_blames e : capture_tls raw = Err e -> Blames e.
Proof.
  unfold capture_tls. intros [[-> [H|H]]%pair_Err|(client & Hc & H)]%rbind_Err.
  - by apply blames_self; [known|].
  - eapply blames_companion; [known|exact H|known].
  - destruct (opt raw (lit "capture_kafka_ca")); [done|]. destruct client as [c|]; [|done]. injection H as <-.
    apply pair_given in Hc. eapply blames_companion; [known|exact Hc|known].
Qed.
Lemma fanout_tls_blames e : fanout_tls raw = Err e -> Blames e.
Proof.
  unfold fanout_tls. intros [[-> [H|H]]%pair_Err|(client & Hc & H)]%rbind_Err.
  - by apply blames_self; [known|].
  - eapply blames_companion; [known|exact H|known].
  - destruct (opt raw (lit "fanout_kafka_ca")); [done|]. destruct client as [c|]; [|done]. injection H as <-.
    apply pair_given in Hc. eapply blames_companion; [known|exact Hc|known].
Qed.
Lemma fanout_body_encoding_blames e : fanout_body_encoding raw = Err e -> Blames e.
Proof.
  unfold fanout_body_encoding. destruct (raw !! lit "fanout_body_encoding") as [v|] eqn:Hv; cbn [fmap option_fmap option_map]; [|done].
  repeat (match goal with |- context [eq_ignore_ascii_case ?a ?b] => destruct (eq_ignore_ascii_case a b); [done|] end).
  intros [= <-]. apply blames_self; [known|by eexists].
Qed.
Lemma fanout_blames e : fanout raw = Err e -> Blames e.
Proof.
  unfold fanout, opt. destruct (raw !! lit "fanout_kafka_brokers") as [bs|] eqn:Hb, (raw !! lit "fanout_topic") as [t|] eqn:Ht.
  - destruct (comma_separated bs) as [|b l]; [intros [= <-]; apply blames_self; [known|by eexists]|].
    intros [H|(? & _ & [H|(? & _ & [H|(? & _ & [H|(? & _ & [=])]%rbind_Err)]%rbind_Err)]%rbind_Err)]%rbind_Err.
    + by apply fanout_tls_blames.
    + by apply fanout_body_encoding_blames.
    + eapply bool_or_blames; [|exact H]; known.
    + eapply bool_or_blames; [|exact H]; known.
  - intros [= <-]. apply blames_self; [known|by eexists].
  - intros [= <-]. eapply (blames_companion _ (lit "fanout_topic")); [known|by eexists|known].
  - destruct (is_set raw _) eqn:Hs; [|done]. intros [= <-]. apply blames_self; [known|by apply given].
Qed.
Lemma capture_blames e : capture raw = Err e -> Blames e.
Proof.
  unfold capture, opt. destruct (raw !! lit "capture_kafka_brokers") as [bs|] eqn:Hb, (raw !! lit "capture_topic") as [t|] eqn:Ht.
  - destruct (comma_separated bs) as [|b l]; [intros [= <-]; apply blames_self; [known|by eexists]|].
    intros [H|(? & _ & [H|(? & _ & [H|(i & Hi & [H|(? & _ & [H|(a & Ha & [H|(? & _ & [H|(? & _ & [H|(? & _ & [=])]%rbind_Err)]
      %rbind_Err)]%rbind_Err)]%rbind_Err)]%rbind_Err)]%rbind_Err)]%rbind_Err)]%rbind_Err.
    + eapply bool_or_blames; [|exact H]; known.
    + by apply capture_tls_blames.
    + eapply u64_or_blames; [|exact H]; known.
    + eapply too_large_blames; [| |exact Hi|exact H]; [known|done].
    + eapply u64_or_blames; [|exact H]; known.
    + eapply too_large_blames; [| |exact Ha|exact H]; [known|done].
    + eapply u64_or_blames; [|exact H]; known.
    + eapply u64_or_blames; [|exact H]; known.
  - intros [= <-]. apply blames_self; [known|by eexists].
  - intros [= <-]. eapply (blames_companion _ (lit "capture_topic")); [known|by eexists|known].
  - destruct (is_set raw _) eqn:Hs; [|done]. intros [= <-]. apply blames_self; [known|by apply given].
Qed.

(** A configuration that does not load says what to fix. Every error of the validation
    names a known setting, and that setting was given a value, or one that goes with it
    was; so settings that say nothing always load. *)
Theorem errors_name_the_setting e : resolve raw = Err e -> Blames e.
Proof.
  unfold resolve.
  intros [H|(? & _ & [H|(? & _ & [H|(? & _ & [H|(? & _ & [H|(? & _ & [H|(? & _ & [H|(? & _ & [H|(? & _ & [H|(? & _ & [H|(? & _
    & [H|(? & _ & [H|(? & _ & [H|(? & _ & [=])]%rbind_Err)]%rbind_Err)]%rbind_Err)]%rbind_Err)]%rbind_Err)]%rbind_Err)]%rbind_Err)]
    %rbind_Err)]%rbind_Err)]%rbind_Err)]%rbind_Err)]%rbind_Err)]%rbind_Err.
  - eapply socket_addr_blames; [| |exact H]; [known|by eexists].
  - eapply optional_socket_addr_blames; [|exact H]; known.
  - by apply tokens_blames.
  - eapply bool_or_blames; [|exact H]; known.
  - by apply tls_blames.
  - by apply observability_blames.
  - by apply passthrough_blames.
  - eapply bool_or_blames; [|exact H]; known.
  - by apply upstream_tls_blames.
  - by apply capture_blames.
  - eapply bool_or_blames; [|exact H]; known.
  - by apply fanout_blames.
  - by apply etcd_blames.
Qed.
End Errors.

(** ** Runs *)
Section Runs.
Definition defaults : Config :=
  MkConfig (V4 [127; 0; 0; 1]%Z 8080) None (lit "http://127.0.0.1:9200") (lit "osproxy-shared") [] true None
    (MkObservability false None (lit "osproxy") BaselineShape None None true false false) None None None
    (MkForwarding true []) None None false None None.
Example nothing_set_loads : resolve ∅ = Ok defaults.
Proof. reflexivity. Qed.
(** Client credentials for the capture brokers are ignored when capture is not set up; a CA
    is not. *)
Example lone_client_cert_is_ignored :
  resolve {[lit "capture_kafka_client_cert" := lit "c.pem"]} = Ok defaults
  /\ (ce_field <$> match resolve {[lit "capture_kafka_ca" := lit "ca.pem"]} with Err e => Some e | Ok _ => None end)
     = Some (lit "capture_kafka_ca").
Proof. split; vm_compute; reflexivity. Qed.

Definition sample_config_args : list str :=
  lit <$> ["--bind=0.0.0.0:9000"; "--tls-cert"; "c.pem"; "--tls-key"; "k.pem"; "--tls-client-ca=ca.pem"; "--capture-topic=t";
           "--capture-kafka-brokers"; "k1:9092, ,k2:9092"; "--tokens"; "a=alice, b = bob"]%string.
Definition no_file (path : str) : Result str str := Err (lit "not found").
Definition no_env (name : str) : option str := None.
Definition sample_config : Config := default defaults (ok (load no_file no_env sample_config_args)).
Example sample_config_loads :
  ok (load no_file no_env sample_config_args) = Some sample_config
  /\ cfg_tokens sample_config = [(lit "a", lit "alice"); (lit "b", lit "bob")]
  /\ cap_brokers <$> cfg_capture sample_config = Some [lit "k1:9092"; lit "k2:9092"].
Proof. split_and!; vm_compute; reflexivity. Qed.
Lemma sample_load_Ok : load no_file no_env sample_config_args = Ok sample_config.
Proof. vm_compute. reflexivity. Qed.
Lemma nothing_is_opened_by_default_witness :
  exists raw, load_raw no_file no_env sample_config_args = Ok raw
  /\ (require_tls_for_mutation sample_config = true
      \/ exists v, raw !! lit "allow_cleartext_mutation" = Some v /\ parse_bool v = Some true)
  /\ (forall p, cfg_passthrough sample_config = Some p ->
       raw !! lit "passthrough_cluster" = Some (pc_cluster p) /\ raw !! lit "passthrough_endpoint" = Some (pc_endpoint p))
  /\ (forall a, cfg_admin_passthrough sample_config = Some a -> raw !! lit "admin_passthrough_cluster" = Some (ac_cluster a))
  /\ (forall k, cfg_capture sample_config = Some k ->
       redact k = true \/ exists v, raw !! lit "capture_redact" = Some v /\ parse_bool v = Some false)
  /\ directive_admin_token (cfg_observability sample_config) <> Some []
  /\ debug_directive_key (cfg_observability sample_config) <> Some []
  /\ cursor_affinity_key sample_config <> Some []
  /\ (forall ca, raw !! lit "tls_client_ca" = Some ca -> client_ca_path <$> cfg_tls sample_config = Some (Some ca))
  /\ (forall x, raw !! lit "tls_cert" = Some x -> cert_path <$> cfg_tls sample_config = Some x)
  /\ (forall ca, raw !! lit "upstream_tls_ca" = Some ca -> up_ca_path <$> cfg_upstream_tls sample_config = Some ca)
  /\ (forall x, raw !! lit "upstream_tls_cert" = Some x -> up_cert_path <$> cfg_upstream_tls sample_config = Some (Some x)).
Proof. apply (nothing_is_opened_by_default no_file no_env sample_config_args sample_config), sample_load_Ok. Defined.
Lemma resolved_config_is_well_formed_witness : ConfigOk defaults.
Proof. apply (resolved_config_is_well_formed ∅ defaults). reflexivity. Defined.
Definition lone_key : Raw := {[lit "tls_key" := lit "k.pem"]}.
Definition lone_key_error : ConfigError := invalid (lit "tls_cert") (Text (lit "set both tls_cert and tls_key, or neither")).
Lemma errors_name_the_setting_witness : Blames lone_key lone_key_error.
Proof. apply (errors_name_the_setting lone_key lone_key_error). reflexivity. Defined.
End Runs.
