(* ===== verification/Control.v ===== *)
(** * The migration controller ([crates/osproxy-control/src/migration.rs])

    The controller drives a partition through its phases over the placement table and
    holds the drain barrier between cutover and completion. *)
From stdpp Require Import base option list strings numbers sets gmap relations.
From Stdlib Require Import Ascii ZArith Lia.
From S2P Require Import Prelude.
From S2P Require Import CoreTypes.
From S2P Require Import Serde.
From S2P Require Import ToySerde.
From S2P Require Import Spi.
From S2P Require Import PlacementTable.

Open Scope osp_scope.

Definition DEFAULT_DRAIN_BARRIER : Z := 30000000000.
Inductive ControlError : Type :=
| Transition (e : MigrationError)
| BarrierPending (remaining : Z).

Section Control.
Context {Sd : Serde}.

(** The seam to the placement state; [PlacementTable] implements it below. *)
Class MigrationStore (S : Type) := {
  store_begin : S -> PartitionId -> Placement -> Result Epoch MigrationError * S;
  store_cutover : S -> PartitionId -> Result Epoch MigrationError * S;
  store_complete : S -> PartitionId -> Result Epoch MigrationError * S;
  store_abort : S -> PartitionId -> Result Epoch MigrationError * S;
  store_state : S -> PartitionId -> option (PartitionState * Epoch)
}.
#[export] Instance table_store : MigrationStore PlacementTable := {|
  store_begin := begin_migration;
  store_cutover := enter_cutover;
  store_complete := complete_migration;
  store_abort := abort_migration;
  store_state := state
|}.

Section Plane.
Context {S : Type} {St : MigrationStore S}.
(** The store is shared with the instances, and the clock is read where the code reads
    it, as [now]. *)
Record ControlPlane : Type := MkControlPlane { store : S; barrier : Z; cutover_at : gmap str Instant }.
Definition control_new (s : S) : ControlPlane := MkControlPlane s DEFAULT_DRAIN_BARRIER ∅.
Definition with_barrier (c : ControlPlane) (b : Z) : ControlPlane := MkControlPlane (store c) b (cutover_at c).
Definition refused (r : Result Epoch MigrationError) : Result Epoch ControlError := map_err Transition r.

Definition cp_begin (c : ControlPlane) (p : PartitionId) (to : Placement) : Result Epoch ControlError * ControlPlane :=
  let '(r, s) := store_begin (store c) p to in (refused r, MkControlPlane s (barrier c) (cutover_at c)).
Definition cp_enter_cutover (c : ControlPlane) (now : Instant) (p : PartitionId) : Result Epoch ControlError * ControlPlane :=
  let '(r, s) := store_cutover (store c) p in
  (refused r, MkControlPlane s (barrier c) (match r with Ok _ => <[p := now]> (cutover_at c) | Err _ => cutover_at c end)).
Definition cp_flip (c : ControlPlane) (p : PartitionId) : Result Epoch ControlError * ControlPlane :=
  let '(r, s) := store_complete (store c) p in
  (refused r, MkControlPlane s (barrier c) (match r with Ok _ => delete p (cutover_at c) | Err _ => cutover_at c end)).
Definition cp_complete (c : ControlPlane) (now : Instant) (p : PartitionId) : Result Epoch ControlError * ControlPlane :=
  match store_state (store c) p with
  | Some (Migrating _ _ Cutover, _) =>
      let started := default now (cutover_at c !! p) in
      let c := MkControlPlane (store c) (barrier c) (<[p := started]> (cutover_at c)) in
      let elapsed := saturating_duration_since now started in
      if (elapsed <? barrier c)%Z then (Err (BarrierPending (u64_saturating_sub (barrier c) elapsed)), c)
      else cp_flip c p
  | _ => cp_flip c p
  end.
Definition cp_abort (c : ControlPlane) (p : PartitionId) : Result Epoch ControlError * ControlPlane :=
  let '(r, s) := store_abort (store c) p in
  (refused r, MkControlPlane s (barrier c) (match r with Ok _ => delete p (cutover_at c) | Err _ => cutover_at c end)).
End Plane.
#[global] Arguments ControlPlane S : clear implicits.

(** ** The fleet

    Instances let writes through the gate of the shared table while the controller
    migrates.  The operations of a batch are sent one after the other, each in its turn, and
    a turn that fails abandons the rest; so a write that was let through is in flight for as
    many turns as it has operations before it in its batch, and its own.  The code bounds a
    turn by the upstream timeout, up to the head of the response; the time around that (the
    gate's other questions, scheduling, reading the body of the response) it does not bound:
    [turn] is what a turn takes at most with all of it, and [batch] the most operations a
    batch has.  The controller may restart, losing the cutover times it kept. *)
Record Sending : Type := MkSending { sn_partition : PartitionId; sn_turns : nat; sn_until : Z }.
Record Fleet : Type := MkFleet { plane : ControlPlane PlacementTable; now : Z; inflight : list Sending }.

Section Fleet.
Context (turn : Z) (batch : nat).
Inductive fleet_step : Fleet -> Fleet -> Prop :=
| fleet_tick c t t' w :
    (t <= t')%Z -> Forall (fun s => (t' <= sn_until s)%Z) w -> fleet_step (MkFleet c t w) (MkFleet c t' w)
| fleet_write c t w p e n :
    admit_write (store c) p e = Admit -> 1 <= n <= batch ->
    fleet_step (MkFleet c t w) (MkFleet c t (MkSending p n (t + turn) :: w))
| fleet_turn c t w1 p n u w2 :
    fleet_step (MkFleet c t (w1 ++ MkSending p (S (S n)) u :: w2)) (MkFleet c t (w1 ++ MkSending p (S n) (t + turn) :: w2))
| fleet_end c t w1 s w2 : fleet_step (MkFleet c t (w1 ++ s :: w2)) (MkFleet c t (w1 ++ w2))
| fleet_set c t w p pl :
    fleet_step (MkFleet c t w) (MkFleet (MkControlPlane (set (store c) p pl).2 (barrier c) (cutover_at c)) t w)
| fleet_begin c t w p to : fleet_step (MkFleet c t w) (MkFleet (cp_begin c p to).2 t w)
| fleet_cutover c t w p : fleet_step (MkFleet c t w) (MkFleet (cp_enter_cutover c (MkInstant t) p).2 t w)
| fleet_complete c t w p : fleet_step (MkFleet c t w) (MkFleet (cp_complete c (MkInstant t) p).2 t w)
| fleet_abort c t w p : fleet_step (MkFleet c t w) (MkFleet (cp_abort c p).2 t w)
| fleet_restart c t w : fleet_step (MkFleet c t w) (MkFleet (MkControlPlane (store c) (barrier c) ∅) t w).

Definition in_cutover (t : PlacementTable) (p : PartitionId) : Prop :=
  exists from to e, state t p = Some (Migrating from to Cutover, e).
(** The end of the last turn of a write, if every turn takes as long as it may. *)
Definition ends_by (s : Sending) : Z := (sn_until s + Z.of_nat (sn_turns s - 1) * turn)%Z.
Definition span : Z := (Z.of_nat batch * turn)%Z.
Definition under_way (t : Z) (s : Sending) : Prop := (t <= sn_until s)%Z /\ 1 <= sn_turns s /\ (ends_by s <= t + span)%Z.
(** No write in flight has been let through in the future, nor, for a partition in
    cutover, after the time the controller keeps for it. *)
Definition drained (f : Fleet) : Prop :=
  Forall (under_way (now f)) (inflight f)
  /\ forall p t0, in_cutover (store (plane f)) p -> cutover_at (plane f) !! p = Some t0 ->
       (nanos t0 <= now f)%Z
       /\ Forall (fun s => sn_partition s = p -> (ends_by s <= nanos t0 + span)%Z) (inflight f).

Lemma state_insert t p e q : state (insert_entry t p e) q = if bool_decide (q = p) then Some (e_state e, e_epoch e) else state t q.
Proof.
  unfold state, insert_entry; cbn [entries]. case_bool_decide as H.
  - subst q. by rewrite lookup_insert_eq.
  - by rewrite lookup_insert_ne by done.
Qed.
(** What a transition leaves in cutover. *)
Lemma transition_cutover t p f q :
  in_cutover (transition t p f).2 q ->
  in_cutover t q \/ (q = p /\ exists s from to e, f s = Ok (Migrating from to Cutover) /\ (transition t p f).1 = Ok e).
Proof.
  unfold transition. destruct (entries t !! p) as [en|]; [|by left]. destruct (f (e_state en)) as [s'|] eqn:Hf; [|by left].
  destruct (next_epoch t) as [e t'] eqn:He. cbn [fst snd]. intros (from & to & e' & H). rewrite state_insert in H.
  case_bool_decide as Hq.
  - right. split; [done|]. injection H as -> _. by exists (e_state en), from, to, e.
  - left. injection He as <- <-. by exists from, to, e'.
Qed.
Lemma set_cutover t p pl q : in_cutover (set t p pl).2 q -> in_cutover t q.
Proof.
  unfold set. destruct (next_epoch t) as [e t'] eqn:He. cbn [snd]. intros (from & to & e' & H). rewrite state_insert in H.
  case_bool_decide; [done|]. injection He as <- <-. by exists from, to, e'.
Qed.
Lemma cutover_rejects t p e : in_cutover t p -> admit_write t p e = Reject.
Proof.
  intros (from & to & e' & H). unfold state in H. unfold admit_write.
  destruct (entries t !! p) as [en|]; [|done]. cbn in H. injection H as -> _. done.
Qed.
Lemma transition_leaves t p f q :
  (forall s from to, f s <> Ok (Migrating from to Cutover)) -> in_cutover (transition t p f).2 q -> in_cutover t q.
Proof. intros Hf [H|(_ & s & from & to & e & H & _)]%transition_cutover; [done|by apply Hf in H]. Qed.

(** Leaving cutover and forgetting times keep the fleet drained. *)
Lemma drained_mono c c' t w :
  (forall q, in_cutover (store c') q -> in_cutover (store c) q) ->
  (forall q x, cutover_at c' !! q = Some x -> cutover_at c !! q = Some x) ->
  drained (MkFleet c t w) -> drained (MkFleet c' t w).
Proof. intros Hs Hm [Hw Hd]. split; [done|]. cbn in *. intros q x Hc Hq. apply (Hd q x); auto. Qed.
Lemma drained_flip c t w p : drained (MkFleet c t w) -> drained (MkFleet (cp_flip c p).2 t w).
Proof.
  apply drained_mono; unfold cp_flip; cbn [store_complete table_store]; unfold complete_migration;
    pose proof (transition_leaves (store c) p complete_f) as H; destruct (transition _ _ _) as [r s]; cbn in *.
  - intros q. apply H. by intros [|? ? []].
  - intros q x. destruct r; [|done]. by intros [_ ?]%lookup_delete_Some.
Qed.
(** Keeping the present as the start of a partition's barrier does too. *)
Lemma drained_start c s t w p :
  (forall q, q <> p -> in_cutover s q -> in_cutover (store c) q) ->
  drained (MkFleet c t w) -> drained (MkFleet (MkControlPlane s (barrier c) (<[p := MkInstant t]> (cutover_at c))) t w).
Proof.
  intros Hs [Hw Hd]. split; [done|]. cbn in *. intros q x Hc [[<- <-]|[Hn Hq]]%lookup_insert_Some.
  - split; [cbn; lia|]. eapply Forall_impl; [exact Hw|]. intros s' (_ & _ & H) _. cbn. lia.
  - apply (Hd q x); auto.
Qed.
(** A write that ends no later may take the place of another, or none. *)
Lemma drained_inflight c t w w' :
  Forall (under_way t) w' ->
  (forall s, s ∈ w' -> exists s0, s0 ∈ w /\ sn_partition s0 = sn_partition s /\ (ends_by s <= ends_by s0)%Z) ->
  drained (MkFleet c t w) -> drained (MkFleet c t w').
Proof.
  intros Hu Hsub [_ Hd]. split; [done|]. cbn in *. intros p x Hc Hx. destruct (Hd p x Hc Hx) as [H1 H2]. split; [done|].
  rewrite Forall_forall in *. intros s Hs Hp. destruct (Hsub s Hs) as (s0 & Hs0 & Hp0 & Hle).
  specialize (H2 s0 Hs0). rewrite Hp0 in H2. specialize (H2 Hp). lia.
Qed.

Lemma turn_taken t p n u :
  (0 <= turn)%Z -> under_way t (MkSending p (S (S n)) u) ->
  under_way t (MkSending p (S n) (t + turn)) /\ (ends_by (MkSending p (S n) (t + turn)) <= ends_by (MkSending p (S (S n)) u))%Z.
Proof. unfold under_way, ends_by. cbn [sn_until sn_turns]. intros Ht (H1 & H2 & H3). rewrite !Nat.sub_succ, Nat.sub_0_r in *. nia. Qed.
Lemma fleet_step_drained f g : (0 <= turn)%Z -> fleet_step f g -> drained f -> drained g.
Proof.
  intros Hturn. destruct 1 as [c t t' w Ht Hu|c t w p e n Ha Hn|c t w1 p n u w2|c t w1 s w2|c t w p pl|c t w p to|c t w p|c t w p|c t w p|c t w].
  - intros [Hw Hd]. split; cbn in *.
    + rewrite Forall_forall in *. intros s Hs. destruct (Hw s Hs) as (_ & H2 & H3). split; [by apply Hu|]. split; [done|lia].
    + intros p x Hc Hp. destruct (Hd p x Hc Hp) as [H1 H2]. split; [lia|done].
  - assert (Hnew : under_way t (MkSending p n (t + turn))).
    { unfold under_way, ends_by, span. cbn [sn_until sn_turns]. split; [lia|]. split; [lia|]. nia. }
    intros [Hw Hd]. split; cbn in *; [by constructor|]. intros q x Hc Hq. destruct (Hd q x Hc Hq) as [H1 H2].
    split; [done|]. constructor; [|done]. cbn. intros ->. by rewrite (cutover_rejects _ _ e Hc) in Ha.
  - intros Hf. assert (Hw := proj1 Hf). cbn in Hw. apply Forall_app in Hw as [H1 [H2 H3]%Forall_cons].
    destruct (turn_taken t p n u Hturn H2) as [H4 H5]. eapply drained_inflight; [| |exact Hf].
    + apply Forall_app. split; [done|]. by constructor.
    + intros s [Hs|[->|Hs]%elem_of_cons]%elem_of_app; [exists s; set_solver| |exists s; set_solver].
      exists (MkSending p (S (S n)) u). split; [set_solver|done].
  - intros Hf. assert (Hw := proj1 Hf). cbn in Hw. apply Forall_app in Hw as [H1 [H2 H3]%Forall_cons].
    eapply drained_inflight; [by apply Forall_app| |exact Hf]. intros s' Hs'. exists s'. set_solver.
  - apply drained_mono; [|done]. apply set_cutover.
  - apply drained_mono; unfold cp_begin; cbn; unfold begin_migration;
      pose proof (transition_leaves (store c) p (begin_f to)) as H; destruct (transition _ _ _) as [r s]; cbn in *; [|done].
    intros q. apply H. by intros [].
  - unfold cp_enter_cutover. cbn. unfold enter_cutover.
    pose proof (fun q => transition_cutover (store c) p cutover_f q) as H. destruct (transition _ _ _) as [[e|err] s]; cbn in *.
    + apply drained_start. intros q Hq [Hc|[? _]]%H; done.
    + apply drained_mono; [|done]. intros q Hc. by destruct (H q Hc) as [?|(_ & s0 & from & to & e & _ & ?)].
  - unfold cp_complete. cbn [store_state table_store].
    destruct (state (store c) p) as [[[|from to []] e]|] eqn:Hs; try apply drained_flip.
    set (c' := MkControlPlane _ _ _). intros Hf.
    assert (Hc : drained (MkFleet c' t w)).
    { unfold c'. destruct (cutover_at c !! p) as [x|] eqn:Hx; cbn.
      - eapply drained_mono; [| |exact Hf]; cbn; [done|].
        intros q y. by rewrite insert_id.
      - by apply drained_start. }
    destruct (_ <? _)%Z; [done|by apply drained_flip].
  - apply drained_mono; unfold cp_abort; cbn; unfold abort_migration;
      pose proof (transition_leaves (store c) p abort_f) as H; destruct (transition _ _ _) as [r s]; cbn in *.
    + intros q. apply H. by intros [].
    + intros q x. destruct r; [|done]. by intros [_ ?]%lookup_delete_Some.
  - apply drained_mono; [done|]. intros q x. cbn. by rewrite lookup_empty.
Qed.
Lemma fleet_step_barrier f g : fleet_step f g -> barrier (plane g) = barrier (plane f).
Proof.
  destruct 1 as [| | | | | | |c t w p|c t w p|]; try done; unfold cp_begin, cp_enter_cutover, cp_complete, cp_abort, cp_flip; cbn;
    repeat case_match; by simplify_eq.
Qed.
Lemma fleet_reachable s b t0 f :
  (0 <= turn)%Z -> rtc fleet_step (MkFleet (MkControlPlane s b ∅) t0 []) f -> drained f /\ barrier (plane f) = b.
Proof.
  intros Hturn H. assert (Hi : drained (MkFleet (MkControlPlane s b ∅) t0 []) /\ barrier (plane (MkFleet (MkControlPlane s b ∅) t0 [])) = b).
  { split; [|done]. split; cbn; [constructor|]. intros p x _. by rewrite lookup_empty. }
  revert Hi. induction H as [f|f g h Hs _ IH]; [done|]. intros [Hd Hb]. apply IH. split; [by eapply fleet_step_drained|].
  by rewrite (fleet_step_barrier _ _ Hs).
Qed.
Lemma complete_from_cutover t p e t' :
  complete_migration t p = (Ok e, t') ->
  exists from to e0, state t p = Some (Migrating from to Cutover, e0) /\ state t' p = Some (Active to, e).
Proof.
  unfold complete_migration, transition, state at 1. destruct (entries t !! p) as [[[|from to []] e0]|]; cbn [e_state complete_f]; try done.
  destruct (next_epoch t) as [e1 t1]. intros [= <- <-]. exists from, to, e0. split; [done|].
  rewrite state_insert. by rewrite bool_decide_eq_true_2.
Qed.

(** C12: no write outlives the flip, under a barrier that counts the batch.  Let the drain
    barrier be longer than as many turns as a batch has operations, a turn being what one
    operation of a batch takes at most, the upstream timeout and the time around it.
    However the writes, their turns, the placement updates, the migrations of any partitions
    and the restarts of the controller interleave, when [complete_migration] succeeds the
    partition was in cutover, it is active at its new placement, and no operation of the
    partition that any instance has let through is with an upstream or still to be sent: all
    have ended or been abandoned. With more than one operation in a batch, a barrier of one
    turn, such as the default one of the upstream timeout, is not enough
    ([a_batch_outlives_one_turn]). *)
Theorem flip_outlives_every_write s b t0 f p e c' :
  (0 <= turn)%Z -> (Z.of_nat batch * turn < b)%Z ->
  rtc fleet_step (MkFleet (MkControlPlane s b ∅) t0 []) f ->
  cp_complete (plane f) (MkInstant (now f)) p = (Ok e, c') ->
  (exists from to e0, state (store (plane f)) p = Some (Migrating from to Cutover, e0) /\ state (store c') p = Some (Active to, e))
  /\ Forall (fun w => sn_partition w <> p) (inflight f).
Proof.
  intros Hturn Hb [[Hw Hd] Hbar]%fleet_reachable; [|done]. destruct f as [c t w]. unfold cp_complete, cp_flip. cbn in *.
  destruct (complete_migration (store c) p) as [r s'] eqn:Hm. intros Hc.
  assert (Hok : complete_migration (store c) p = (Ok e, store c')).
  { rewrite Hm. repeat case_match; simplify_eq/=; first [done|by destruct r; simplify_eq/=]. }
  destruct (complete_from_cutover _ _ _ _ Hok) as (from & to & e0 & Hs & Hs'). split; [eauto|].
  rewrite Hs in Hc. rewrite Forall_forall in Hw. apply Forall_forall. intros x Hin Hp.
  destruct (_ <? _)%Z eqn:Hlt in Hc; [done|]. apply Z.ltb_ge in Hlt.
  unfold saturating_duration_since, u64_saturating_sub in Hlt. cbn in Hlt.
  destruct (Hw x Hin) as (Hx1 & Hx2 & _). unfold ends_by, span in *.
  destruct (cutover_at c !! p) as [y|] eqn:Hy; cbn in Hlt; [|lia].
  destruct (Hd p y) as [H1 H2]; [by exists from, to, e0|done|]. rewrite Forall_forall in H2. specialize (H2 x Hin Hp). nia.
Qed.

Lemma cutover_completes t p from to e0 :
  state t p = Some (Migrating from to Cutover, e0) ->
  exists e t', complete_migration t p = (Ok e, t') /\ state t' p = Some (Active to, e).
Proof.
  unfold complete_migration, transition, state at 1. destruct (entries t !! p) as [en|]; [|done]. cbn. intros [= -> _].
  cbn [complete_f]. destruct (next_epoch t) as [e t'] eqn:He. eexists _, _. split; [done|].
  rewrite state_insert. by rewrite bool_decide_eq_true_2.
Qed.

Lemma complete_after c x t p from to e0 :
  state (store c) p = Some (Migrating from to Cutover, e0) -> cutover_at c !! p = Some x ->
  (nanos x + barrier c <= t)%Z ->
  exists e c', cp_complete c (MkInstant t) p = (Ok e, c') /\ state (store c') p = Some (Active to, e).
Proof.
  intros Hs Hx Ht. destruct (cutover_completes _ _ _ _ _ Hs) as (e & s' & Hm & Hs').
  exists e, (MkControlPlane s' (barrier c) (delete p (<[p := x]> (cutover_at c)))). split; [|done].
  unfold cp_complete. cbn [store_state table_store]. rewrite Hs, Hx. cbn [default].
  assert (Hl : (saturating_duration_since (MkInstant t) x <? barrier c)%Z = false).
  { apply Z.ltb_ge. unfold saturating_duration_since, u64_saturating_sub. cbn. lia. }
  cbn [barrier id]. rewrite Hl. unfold cp_flip. cbn. by rewrite Hm.
Qed.

(** The barrier delays the flip and cannot block it.  For a partition in cutover, a
    call of [complete_migration] that does not flip changes nothing in the store and says
    how long to wait, at most the barrier; a call after that wait flips. *)
Theorem barrier_elapses (c : ControlPlane PlacementTable) t p from to e0 :
  (0 <= t)%Z -> (0 <= barrier c)%Z -> (forall x, cutover_at c !! p = Some x -> (0 <= nanos x <= t)%Z) ->
  state (store c) p = Some (Migrating from to Cutover, e0) ->
  match cp_complete c (MkInstant t) p with
  | (Ok e, c') => state (store c') p = Some (Active to, e)
  | (Err err, c') => store c' = store c /\ exists rem, err = BarrierPending rem /\ (0 < rem <= barrier c)%Z
      /\ forall t', (t + rem <= t')%Z -> exists e, (cp_complete c' (MkInstant t') p).1 = Ok e
           /\ state (store (cp_complete c' (MkInstant t') p).2) p = Some (Active to, e)
  end.
Proof.
  intros Ht Hb Hx Hs. destruct (cutover_completes _ _ _ _ _ Hs) as (e & s' & Hm & Hs').
  unfold cp_complete at 1. cbn [store_state table_store]. rewrite Hs.
  set (x := default (MkInstant t) (cutover_at c !! p)).
  assert (H : (0 <= nanos x <= t)%Z).
  { unfold x. destruct (cutover_at c !! p) as [y|]; cbn; [by apply Hx|lia]. }
  cbn [barrier]. set (elapsed := saturating_duration_since _ _).
  assert (He : elapsed = (t - nanos x)%Z).
  { unfold elapsed, saturating_duration_since, u64_saturating_sub. cbn. lia. }
  clearbody elapsed. subst elapsed. unfold u64_saturating_sub.
  destruct (Z.ltb_spec (t - nanos x) (barrier c)) as [Hlt|Hge].
  - split; [done|]. eexists. split; [done|]. split; [lia|]. intros t' Ht'.
    edestruct complete_after with (c := MkControlPlane (store c) (barrier c) (<[p := x]> (cutover_at c))) as (e' & c' & Hc & Hc').
    + done.
    + apply lookup_insert_eq.
    + cbn [barrier]. instantiate (1 := t'). lia.
    + rewrite Hc. by exists e'.
  - unfold cp_flip. cbn. by rewrite Hm.
Qed.
End Fleet.
End Control.

(** ** A concrete migration: two writes in the drain phase, a restart, and the flip *)
Section Runs.
Abbreviation ts := (toy_serde []).
Definition eu : @Placement ts := @DedicatedCluster ts (lit "eu-1").
Definition us : @Placement ts := @DedicatedCluster ts (lit "us-1").
Definition plane0 : ControlPlane (@PlacementTable ts) := MkControlPlane (@table_new ts) 30 ∅.
Definition plane1 := MkControlPlane (@set ts (store plane0) (lit "acme") eu).2 30 ∅.
Definition plane2 := (@cp_begin ts _ _ plane1 (lit "acme") us).2.
Definition plane3 := (@cp_enter_cutover ts _ _ plane2 (MkInstant 10) (lit "acme")).2.
Definition plane4 := (@cp_complete ts _ _ plane3 (MkInstant 20) (lit "acme")).2.
Definition fleet1 : @Fleet ts := MkFleet plane4 40 [].

(** A batch of two operations, let through before the cutover, ends within two turns. *)
Lemma fleet1_reachable : rtc (@fleet_step ts 14 2) (@MkFleet ts plane0 0 []) fleet1.
Proof.
  eapply rtc_l; [exact (@fleet_set ts 14 2 plane0 0 [] (lit "acme") eu)|].
  eapply rtc_l; [exact (@fleet_begin ts 14 2 plane1 0 [] (lit "acme") us)|].
  eapply rtc_l; [apply (@fleet_write ts 14 2 plane2 0 [] (lit "acme") (MkEpoch 2) 2); [vm_compute; reflexivity|lia]|].
  eapply rtc_l; [apply (@fleet_tick ts 14 2 plane2 0 10); [lia|repeat constructor; cbn; lia]|].
  eapply rtc_l; [exact (@fleet_cutover ts 14 2 plane2 10 _ (lit "acme"))|].
  eapply rtc_l; [apply (@fleet_turn ts 14 2 _ 10 [] (lit "acme") 0 14 [])|].
  eapply rtc_l; [apply (@fleet_tick ts 14 2 plane3 10 20); [lia|repeat constructor; cbn; lia]|].
  eapply rtc_l; [exact (@fleet_complete ts 14 2 plane3 20 _ (lit "acme"))|].
  eapply rtc_l; [exact (@fleet_end ts 14 2 plane4 20 [] (MkSending (lit "acme") 1 24) [])|].
  eapply rtc_l; [apply (@fleet_tick ts 14 2 plane4 20 40); [lia|constructor]|]. apply rtc_refl.
Qed.
Definition flipped := @cp_complete ts _ _ plane4 (MkInstant 40) (lit "acme").
Lemma flipped_ok : flipped = (Ok (MkEpoch 4), flipped.2).
Proof.
  assert (H : flipped.1 = Ok (MkEpoch 4)) by (vm_compute; reflexivity).
  rewrite <- H. apply surjective_pairing.
Qed.
Lemma flip_outlives_every_write_witness :
  (exists from to e0, @state ts (store plane4) (lit "acme") = Some (@Migrating ts from to Cutover, e0)
     /\ @state ts (store flipped.2) (lit "acme") = Some (@Active ts to, MkEpoch 4))
  /\ Forall (fun w => sn_partition w <> lit "acme") (inflight fleet1).
Proof.
  exact (@flip_outlives_every_write ts 14 2 table_new 30 0 fleet1 (lit "acme") (MkEpoch 4) flipped.2 ltac:(lia) ltac:(lia)
           fleet1_reachable flipped_ok).
Defined.
(** With a barrier as long as a turn (and more), a batch of two operations that was let
    through before the cutover is still being sent when the partition is flipped. *)
Definition slow_fleet : @Fleet ts := MkFleet plane4 40 [MkSending (lit "acme") 1 50].
Example a_batch_outlives_one_turn :
  rtc (@fleet_step ts 25 2) (@MkFleet ts plane0 0 []) slow_fleet
  /\ (25 <= barrier plane4)%Z /\ (@cp_complete ts _ _ plane4 (MkInstant 40) (lit "acme")).1 = Ok (MkEpoch 4).
Proof.
  split; [|split; [done|vm_compute; reflexivity]].
  eapply rtc_l; [exact (@fleet_set ts 25 2 plane0 0 [] (lit "acme") eu)|].
  eapply rtc_l; [exact (@fleet_begin ts 25 2 plane1 0 [] (lit "acme") us)|].
  eapply rtc_l; [apply (@fleet_write ts 25 2 plane2 0 [] (lit "acme") (MkEpoch 2) 2); [vm_compute; reflexivity|lia]|].
  eapply rtc_l; [apply (@fleet_tick ts 25 2 plane2 0 10); [lia|repeat constructor; cbn; lia]|].
  eapply rtc_l; [exact (@fleet_cutover ts 25 2 plane2 10 _ (lit "acme"))|].
  eapply rtc_l; [apply (@fleet_tick ts 25 2 plane3 10 20); [lia|repeat constructor; cbn; lia]|].
  eapply rtc_l; [exact (@fleet_complete ts 25 2 plane3 20 _ (lit "acme"))|].
  eapply rtc_l; [apply (@fleet_tick ts 25 2 plane4 20 25); [lia|repeat constructor; cbn; lia]|].
  eapply rtc_l; [apply (@fleet_turn ts 25 2 plane4 25 [] (lit "acme") 0 25 [])|].
  eapply rtc_l; [apply (@fleet_tick ts 25 2 plane4 25 40); [lia|repeat constructor; cbn; lia]|]. apply rtc_refl.
Qed.
Lemma barrier_elapses_witness :
  match @cp_complete ts _ _ plane3 (MkInstant 20) (lit "acme") with
  | (Ok e, c') => @state ts (store c') (lit "acme") = Some (@Active ts us, e)
  | (Err err, c') => store c' = store plane3 /\ exists rem, err = BarrierPending rem /\ (0 < rem <= barrier plane3)%Z
      /\ forall t', (20 + rem <= t')%Z -> exists e, (@cp_complete ts _ _ c' (MkInstant t') (lit "acme")).1 = Ok e
           /\ @state ts (store (@cp_complete ts _ _ c' (MkInstant t') (lit "acme")).2) (lit "acme") = Some (@Active ts us, e)
  end.
Proof.
  apply (@barrier_elapses ts plane3 20 (lit "acme") eu us (MkEpoch 3)).
  - lia.
  - vm_compute. discriminate.
  - intros x H. vm_compute in H. injection H as <-. cbn. lia.
  - reflexivity.
Defined.
End Runs.
