(* ===== verification/Affinity.v ===== *)
(** * Cursor affinity ([crates/osproxy-control/src/affinity.rs])

    A bounded map, with a time to live, from cursor ids to the clusters that opened them. *)
From stdpp Require Import base option list strings numbers gmap fin_maps.
From Stdlib Require Import Ascii ZArith Lia.
From S2P Require Import Prelude.
From S2P Require Import CoreTypes.

Open Scope osp_scope.

Definition DEFAULT_CURSOR_TTL : Z := 300000000000.
Definition DEFAULT_CAPACITY : nat := Z.to_nat 100000.
Inductive Affinity : Type := Off | Pin.
Definition affinity_default : Affinity := Off.

Record Pinned : Type := MkPinned { cluster : ClusterId; pinned_at : Instant }.
(** The clock is read by the methods, as their [now]. *)
Record CursorAffinity : Type := MkAffinity { ttl : Z; capacity : nat; entries : gmap str Pinned }.
Definition affinity_new (ttl : Z) (capacity : nat) : CursorAffinity := MkAffinity ttl (Nat.max capacity 1) ∅.

Definition is_expired (a : CursorAffinity) (p : Pinned) (now : Instant) : bool :=
  (ttl a <=? saturating_duration_since now (pinned_at p))%Z.
Definition with_entries (a : CursorAffinity) (m : gmap str Pinned) : CursorAffinity := MkAffinity (ttl a) (capacity a) m.
Definition resolve (a : CursorAffinity) (cursor_id : str) (now : Instant) : option ClusterId :=
  p ← entries a !! cursor_id; if is_expired a p now then None else Some (cluster p).
Definition release (a : CursorAffinity) (cursor_id : str) : CursorAffinity := with_entries a (delete cursor_id (entries a)).
Definition affinity_len (a : CursorAffinity) : nat := size (entries a).
Definition affinity_is_empty (a : CursorAffinity) : bool := bool_decide (entries a = ∅).

(** [Iterator::min_by_key], which keeps the first of equal minima. *)
Fixpoint min_by_key (l : list (str * Pinned)) : option (str * Pinned) :=
  match l with
  | [] => None
  | kp :: l =>
      match min_by_key l with
      | Some kq => if (nanos (pinned_at kp.2) <=? nanos (pinned_at kq.2))%Z then Some kp else Some kq
      | None => Some kp
      end
  end.

Section Pinning.
(** The order in which a [HashMap] yields its entries, which is arbitrary. *)
Context (iter : gmap str Pinned -> list (str * Pinned)).

(** [retain] and the removal of the oldest binding when the map is full. *)
Definition retain (a : CursorAffinity) (now : Instant) : gmap str Pinned :=
  filter (fun kp => is_expired a kp.2 now = false) (entries a).
Definition evict (a : CursorAffinity) (m : gmap str Pinned) : gmap str Pinned :=
  if capacity a <=? size m
  then match min_by_key (iter m) with Some (oldest, _) => delete oldest m | None => m end
  else m.
Definition pin (a : CursorAffinity) (cursor_id : str) (c : ClusterId) (now : Instant) : CursorAffinity :=
  with_entries a (<[cursor_id := MkPinned c now]> (evict a (retain a now))).

(** ** What a history of calls binds, the latest first *)
Inductive AffinityOp : Type := Pinning (id : str) (c : ClusterId) (now : Instant) | Releasing (id : str).
Definition affinity_apply (op : AffinityOp) (a : CursorAffinity) : CursorAffinity :=
  match op with Pinning id c now => pin a id c now | Releasing id => release a id end.
Definition affinity_after (ttl : Z) (capacity : nat) (history : list AffinityOp) : CursorAffinity :=
  foldr affinity_apply (affinity_new ttl capacity) history.

(** The cluster of the last pinning of [id], unless it was released since. *)
Fixpoint last_pin (history : list AffinityOp) (id : str) : option Pinned :=
  match history with
  | [] => None
  | Pinning id' c now :: h => if bool_decide (id' = id) then Some (MkPinned c now) else last_pin h id
  | Releasing id' :: h => if bool_decide (id' = id) then None else last_pin h id
  end.
Definition live (ttl : Z) (p : Pinned) (now : Instant) : bool :=
  (saturating_duration_since now (pinned_at p) <? ttl)%Z.
Fixpoint pins (history : list AffinityOp) : nat :=
  match history with [] => 0 | Pinning _ _ _ :: h => S (pins h) | Releasing _ :: h => pins h end.
Definition not_after (history : list AffinityOp) (now : Instant) : Prop :=
  Forall (fun op => match op with Pinning _ _ t => (nanos t <= nanos now)%Z | _ => True end) history.

Context (Hiter : forall m, iter m ≡ₚ map_to_list m).

Lemma min_by_key_elem l kp : min_by_key l = Some kp -> kp ∈ l.
Proof.
  revert kp. induction l as [|kq l IH]; cbn; [done|]. intros kp. destruct (min_by_key l) as [kr|].
  - destruct (_ <=? _)%Z; intros [= <-]; [left|right; by apply IH].
  - intros [= <-]. left.
Qed.
Lemma min_by_key_some kp l : is_Some (min_by_key (kp :: l)).
Proof. cbn. destruct (min_by_key l); [|done]. by destruct (_ <=? _)%Z. Qed.

Lemma evict_sub a m : evict a m ⊆ m.
Proof.
  unfold evict. destruct (_ <=? _); [|done]. destruct (min_by_key _) as [[k p]|]; [apply delete_subseteq|done].
Qed.
Lemma evict_fits a m : size m < capacity a -> evict a m = m.
Proof. intros H. unfold evict. by rewrite (proj2 (Nat.leb_gt _ _)). Qed.
Lemma evict_size a m : 1 <= capacity a -> size m <= capacity a -> size (evict a m) < capacity a.
Proof.
  intros Hc Hm. unfold evict. destruct (Nat.leb_spec (capacity a) (size m)) as [H|H]; [|done].
  destruct (iter m) as [|kp l] eqn:Hl.
  { specialize (Hiter m). rewrite Hl in Hiter. apply Permutation_nil_l in Hiter. symmetry in Hiter. apply map_to_list_empty_iff in Hiter. subst.
    rewrite map_size_empty in H. lia. }
  destruct (min_by_key_some kp l) as [[k p] Hk]. rewrite Hk.
  apply min_by_key_elem in Hk. rewrite <- Hl, Hiter in Hk. apply elem_of_map_to_list in Hk.
  rewrite map_size_delete_Some by (by exists p). lia.
Qed.
Lemma retain_sub a now : retain a now ⊆ entries a.
Proof. apply map_filter_subseteq. Qed.
Lemma retain_lookup a now id : retain a now !! id = (p ← entries a !! id; if is_expired a p now then None else Some p).
Proof.
  unfold retain. rewrite map_lookup_filter. destruct (entries a !! id) as [p|]; cbn; [|done].
  case_guard as H; cbn in *; destruct (is_expired a p now); done.
Qed.
Lemma pin_sub a id c now : entries (pin a id c now) ⊆ <[id := MkPinned c now]> (entries a).
Proof. cbn. apply insert_mono. etransitivity; [apply evict_sub|apply retain_sub]. Qed.
Lemma pin_size a id c now : 1 <= capacity a -> size (entries a) <= capacity a -> size (entries (pin a id c now)) <= capacity a.
Proof.
  intros Hc Ha. pose proof (map_subseteq_size _ _ (retain_sub a now)) as H.
  pose proof (evict_size a (retain a now) Hc ltac:(lia)) as He. cbn. rewrite map_size_insert.
  destruct (_ !! _); unfold Datatypes.id; lia.
Qed.

Section History.
Context (t : Z) (n : nat).
Notation after := (affinity_after t n).
Lemma after_pin h id c now : after (Pinning id c now :: h) = pin (after h) id c now.
Proof. done. Qed.
Lemma after_release h id : after (Releasing id :: h) = release (after h) id.
Proof. done. Qed.
Lemma after_config h : ttl (after h) = t /\ capacity (after h) = Nat.max n 1.
Proof. induction h as [|op h [IH1 IH2]]; [done|]. by destruct op. Qed.
Lemma after_size h : size (entries (after h)) <= Nat.max n 1.
Proof.
  induction h as [|[id c now|id] h IH].
  - cbn. rewrite map_size_empty. lia.
  - rewrite after_pin. destruct (after_config h) as [_ Hc]. rewrite <- Hc. apply pin_size; rewrite Hc; [lia|done].
  - rewrite after_release. etransitivity; [|exact IH]. apply map_subseteq_size, delete_subseteq.
Qed.
Lemma after_pinned h id p : entries (after h) !! id = Some p -> last_pin h id = Some p.
Proof.
  revert id p. induction h as [|[id' c now|id'] h IH]; intros id p; cbn [last_pin].
  - cbn. by rewrite lookup_empty.
  - rewrite after_pin. intros H. eapply lookup_weaken in H; [|apply pin_sub]. revert H. case_bool_decide as Hid.
    + subst. by rewrite lookup_insert_eq.
    + rewrite lookup_insert_ne by done. apply IH.
  - rewrite after_release. cbn. case_bool_decide as Hid.
    + subst. by rewrite lookup_delete_eq.
    + rewrite lookup_delete_ne by done. apply IH.
Qed.
Lemma after_pins h : size (entries (after h)) <= pins h.
Proof.
  induction h as [|[id c now|id] h IH]; cbn [pins].
  - cbn. by rewrite map_size_empty.
  - rewrite after_pin. etransitivity; [apply map_subseteq_size, pin_sub|]. rewrite map_size_insert. destruct (_ !! _); unfold Datatypes.id; lia.
  - rewrite after_release. etransitivity; [|exact IH]. apply map_subseteq_size, delete_subseteq.
Qed.
(** Without evictions only what has expired is lost. *)
Lemma after_keeps h now id p :
  pins h <= n -> not_after h now -> last_pin h id = Some p -> live t p now = true -> entries (after h) !! id = Some p.
Proof.
  revert id p. induction h as [|[id' c now'|id'] h IH]; intros id p Hn Hna Hp Hl; [done|..];
    apply Forall_cons in Hna as [Ht Hna]; cbn [pins last_pin] in *.
  - rewrite after_pin. cbn. case_bool_decide as Hid.
    + injection Hp as <-. subst. by rewrite lookup_insert_eq.
    + rewrite lookup_insert_ne by done. destruct (after_config h) as [Htt Hc].
      rewrite evict_fits.
      * rewrite retain_lookup, (IH id p ltac:(lia) Hna Hp Hl). cbn. unfold is_expired. rewrite Htt.
        replace (t <=? saturating_duration_since now' (pinned_at p))%Z with false; [done|]. symmetry. apply Z.leb_gt.
        unfold live in Hl. apply Z.ltb_lt in Hl. unfold saturating_duration_since, u64_saturating_sub in *. lia.
      * pose proof (map_subseteq_size _ _ (retain_sub (after h) now')). pose proof (after_pins h). lia.
  - rewrite after_release. cbn. case_bool_decide as Hid; [done|]. rewrite lookup_delete_ne by done. by apply IH.
Qed.
End History.

(** a cursor is followed only to the cluster that opened it, within a bounded map.
    After any history of pinnings and releases the map holds at most [capacity] bindings,
    and an id resolves only to the cluster it was last pinned to, only while it was not
    released since and is younger than the time to live.  If the history pins no more
    often than the capacity, so that nothing is evicted, it resolves exactly then. *)
Theorem affinity_follows_last_pin t n h now id c :
  (size (entries (affinity_after t n h)) <= Nat.max n 1)
  /\ (resolve (affinity_after t n h) id now = Some c ->
        exists p, last_pin h id = Some p /\ cluster p = c /\ live t p now = true)
  /\ (pins h <= n -> not_after h now ->
        (exists p, last_pin h id = Some p /\ cluster p = c /\ live t p now = true) ->
        resolve (affinity_after t n h) id now = Some c).
Proof.
  assert (He : forall p, is_expired (affinity_after t n h) p now = negb (live t p now)).
  { intros p. unfold is_expired, live. destruct (after_config t n h) as [-> _]. by rewrite Z.ltb_antisym, negb_involutive. }
  split; [apply after_size|]. unfold resolve. split.
  - destruct (entries _ !! id) as [p|] eqn:Hp; cbn; [|done]. rewrite He. destruct (live t p now) eqn:Hl; cbn; [|done].
    intros [= <-]. exists p. split; [by eapply after_pinned|done].
  - intros Hn Hna (p & Hp & <- & Hl). rewrite (after_keeps t n h now id p) by done. cbn. by rewrite He, Hl.
Qed.
End Pinning.

(** A binding displaced by a later one, at capacity one, and one that has expired. *)
Definition scrolls : list AffinityOp := [Pinning (lit "s2") (lit "us-1") (MkInstant 5); Pinning (lit "s1") (lit "eu-1") (MkInstant 0)].
Example oldest_is_evicted :
  let a := affinity_after map_to_list 10 1 scrolls in
  resolve a (lit "s1") (MkInstant 6) = None /\ resolve a (lit "s2") (MkInstant 6) = Some (lit "us-1")
  /\ resolve a (lit "s2") (MkInstant 15) = None.
Proof. vm_compute. done. Qed.
Lemma affinity_follows_last_pin_witness :
  (size (entries (affinity_after map_to_list 10 2 scrolls)) <= Nat.max 2 1)
  /\ (resolve (affinity_after map_to_list 10 2 scrolls) (lit "s1") (MkInstant 6) = Some (lit "eu-1") ->
        exists p, last_pin scrolls (lit "s1") = Some p /\ cluster p = lit "eu-1" /\ live 10 p (MkInstant 6) = true)
  /\ (pins scrolls <= 2 -> not_after scrolls (MkInstant 6) ->
        (exists p, last_pin scrolls (lit "s1") = Some p /\ cluster p = lit "eu-1" /\ live 10 p (MkInstant 6) = true) ->
        resolve (affinity_after map_to_list 10 2 scrolls) (lit "s1") (MkInstant 6) = Some (lit "eu-1")).
Proof. exact (affinity_follows_last_pin map_to_list (fun m => reflexivity _) 10 2 scrolls (MkInstant 6) (lit "s1") (lit "eu-1")). Defined.
