(* ===== verification/Breaker.v ===== *)
(** * The circuit breaker of a cluster ([crates/osproxy-sink/src/breaker.rs])

    A run of failures opens it, requests are then shed until a cooldown has passed, and a
    success closes it. *)
From stdpp Require Import base option list numbers.
From Stdlib Require Import ZArith Lia.
From S2P Require Import Prelude.
From S2P Require Import CoreTypes.

Open Scope osp_scope.

(** [State]; the methods run under its lock, one after the other. *)
Record Breaker : Type := MkBreaker { consecutive_failures : Z; opened_at : option Instant }.
Definition breaker_default : Breaker := MkBreaker 0 None.

Definition breaker_allows (b : Breaker) (now : Instant) (cooldown : Z) : bool :=
  match opened_at b with
  | None => true
  | Some opened => (cooldown <=? saturating_duration_since now opened)%Z
  end.
Definition record_success (b : Breaker) : Breaker := MkBreaker 0 None.
Definition u32_max : Z := 4294967295.
Definition record_failure (b : Breaker) (now : Instant) (threshold : Z) : Breaker :=
  let n := Z.min (consecutive_failures b + 1) u32_max in
  MkBreaker n (if (threshold <=? n)%Z then Some now else opened_at b).

(** ** What its history says

    The outcomes recorded so far, the latest first. *)
Inductive Recorded : Type := Succeeded | FailedAt (now : Instant).
Definition record (threshold : Z) (r : Recorded) (b : Breaker) : Breaker :=
  match r with Succeeded => record_success b | FailedAt now => record_failure b now threshold end.
Definition after (threshold : Z) (history : list Recorded) : Breaker :=
  foldr (record threshold) breaker_default history.

(** The failures since the last success, and the latest of them. *)
Fixpoint failing (history : list Recorded) : nat :=
  match history with FailedAt _ :: history => S (failing history) | _ => 0 end.
Definition latest (history : list Recorded) : option Instant :=
  match history with FailedAt now :: _ => Some now | _ => None end.

Lemma after_state threshold history :
  (1 <= threshold <= u32_max)%Z ->
  consecutive_failures (after threshold history) = Z.min (Z.of_nat (failing history)) u32_max
  /\ opened_at (after threshold history)
     = if (threshold <=? Z.of_nat (failing history))%Z then latest history else None.
Proof.
  intros Ht. induction history as [|[|now] history [IH1 IH2]]; cbn [after foldr record failing latest].
  - cbn. rewrite (proj2 (Z.leb_gt _ _)) by lia. by unfold u32_max.
  - cbn. rewrite (proj2 (Z.leb_gt _ _)) by lia. by unfold u32_max.
  - unfold record_failure. cbn [consecutive_failures opened_at]. fold (after threshold history). rewrite IH1.
    split; [unfold u32_max in *; lia|].
    destruct (threshold <=? Z.min (Z.min (Z.of_nat (failing history)) u32_max + 1) u32_max)%Z eqn:H1;
      destruct (threshold <=? Z.of_nat (S (failing history)))%Z eqn:H2; rewrite ?Z.leb_le, ?Z.leb_gt in *;
      [done|lia|lia|]. rewrite IH2, (proj2 (Z.leb_gt _ _)) by lia. done.
Qed.

(** The breaker sheds exactly while a cluster keeps failing. After any history of
    outcomes a request is let through if and only if fewer than [threshold] failures have
    come since the last success, or the cooldown has passed since the latest of them: so a
    success closes it at once, and a failed trial starts the cooldown again. *)
Theorem breaker_sheds_while_failing threshold history now cooldown :
  (1 <= threshold <= u32_max)%Z -> (0 < cooldown)%Z ->
  breaker_allows (after threshold history) now cooldown = true
  <-> (Z.of_nat (failing history) < threshold)%Z
      \/ exists last, latest history = Some last /\ (nanos last + cooldown <= nanos now)%Z.
Proof.
  intros Ht Hc. destruct (after_state threshold history Ht) as [_ Ho]. unfold breaker_allows. rewrite Ho.
  destruct (threshold <=? Z.of_nat (failing history))%Z eqn:H; rewrite ?Z.leb_le, ?Z.leb_gt in H; [|tauto].
  destruct (latest history) as [last|] eqn:Hl.
  - rewrite Z.leb_le. unfold saturating_duration_since, u64_saturating_sub. split.
    + intros H1. right. exists last. split; [done|]. lia.
    + intros [H1|(? & [= <-] & H1)]; lia.
  - destruct history as [|[|]]; [cbn in H; lia..|done].
Qed.

(** Two failures open a breaker of threshold two; the trial after the cooldown fails. *)
Definition tripped : list Recorded := [FailedAt (MkInstant 6); FailedAt (MkInstant 0); FailedAt (MkInstant 0); Succeeded].
Lemma breaker_sheds_while_failing_witness :
  breaker_allows (after 2 tripped) (MkInstant 10) 5 = true
  <-> (Z.of_nat (failing tripped) < 2)%Z
      \/ exists last, latest tripped = Some last /\ (nanos last + 5 <= nanos (MkInstant 10))%Z.
Proof. apply breaker_sheds_while_failing; unfold u32_max; lia. Defined.
