(* ===== verification/Plan.v ===== *)
(** * From a routing decision to a write ([crates/osproxy-engine/src]: error, plan)

    The request-path error, and the write batch of a single-document ingest: the body
    transform applied to the raw bytes, the id, the routing value and the epoch stamp. *)
From stdpp Require Import base option list strings numbers sets.
From Stdlib Require Import Ascii ZArith Lia.
From S2P Require Import Prelude.
From S2P Require Import JsonScan.
From S2P Require Import JsonGrammar.
From S2P Require Import JsonTop.
From S2P Require Import JsonProps.
From S2P Require Import CoreTypes.
From S2P Require Import Serde.
From S2P Require Import ToySerde.
From S2P Require Import DocId.
From S2P Require Import Fields.
From S2P Require Import Spi.
From S2P Require Import Tenancy.
From S2P Require Import Sink.

Open Scope osp_scope.

(** ** [error.rs] *)
Inductive RequestError : Type :=
| ReqSpi (e : SpiError)
| ReqRewrite (e : RewriteError)
| ReqSink (e : SinkError)
| ReqStaleEpoch (stamped : Epoch)
| ReqInternal (reason : str)
| ReqCursor (reason : str)
| ReqPayloadTooLarge (reason : str).
Definition req_code (e : RequestError) : ErrorCode :=
  match e with
  | ReqSpi e => spi_code e
  | ReqSink e => sink_code e
  | ReqStaleEpoch _ => StaleEpoch
  | ReqRewrite _ | ReqInternal _ => UnsupportedEndpoint
  | ReqCursor _ => CursorUnresolvable
  | ReqPayloadTooLarge _ => PayloadTooLarge
  end.
Definition req_retryable (e : RequestError) : bool :=
  match e with
  | ReqSpi e => spi_retryable e
  | ReqSink e => sink_retryable e
  | ReqStaleEpoch _ => true
  | ReqRewrite _ | ReqInternal _ | ReqCursor _ | ReqPayloadTooLarge _ => false
  end.

Section Plan.
Context {Sd : Serde} {W : Wide}.

(** ** [plan.rs] *)
Definition validate_json (b : bytes) : Result unit RewriteError := map_err rewrite_from_json (validate b).

Definition resolve_value (partition : str) (f : InjectedField) : Result (FieldName * value) RequestError :=
  match inj_value f with
  | InjConstant v => Ok (inj_name f, v)
  | InjPartitionId => Ok (inj_name f, String partition)
  | InjFromPrincipal _ | InjFromHeader _ =>
      Err (ReqInternal (lit "context-derived injected value reached the engine unresolved"))
  end.
Definition resolve_values (fields : list InjectedField) (partition : str)
    : Result (list (FieldName * value)) RequestError := collect (resolve_value partition) fields.

Definition inject (b : bytes) (fields : list InjectedField) (partition : str) : Result bytes RequestError :=
  let? resolved := resolve_values fields partition in
  map_err ReqRewrite (inject_fields_bytes b resolved).
Definition build_id (rule : DocIdRule) (b : bytes) (partition : str) : Result str RequestError :=
  map_err ReqRewrite (ended (construct_id_bytes (template_str (template rule)) partition b)).

Definition apply_transform (b : bytes) (tr : BodyTransform) (partition : str)
    : Result (option str * bytes) RequestError :=
  match tr with
  | TransformNone => let? _ := map_err ReqRewrite (validate_json b) in Ok (None, b)
  | Inject fields => let? out := inject b fields partition in Ok (None, out)
  | ConstructId rule =>
      let? _ := map_err ReqRewrite (validate_json b) in
      let? id := build_id rule b partition in
      Ok (Some id, b)
  | Both fields rule =>
      let? out := inject b fields partition in
      let? id := build_id rule b partition in
      Ok (Some id, out)
  end.

Definition routing_for (tr : BodyTransform) (partition : str) : option str :=
  let rule := match tr with
              | ConstructId rule | Both _ rule => Some rule
              | TransformNone | Inject _ => None
              end in
  match rule with
  | Some r => if set_routing r then Some partition else None
  | None => None
  end.

Definition build_write_batch (resolved : Resolved) (b : bytes) : Result WriteBatch RequestError :=
  let decision := r_decision resolved in
  let partition := r_partition resolved in
  let routing_value := default partition (r_routing_hint resolved) in
  let? (id, out_body) := apply_transform b (body_transform decision) partition in
  let routing := routing_for (body_transform decision) routing_value in
  Ok (batch_single (write_with_protocol (write_op_new (target decision) (OpIndex id routing out_body) (epoch decision))
    (upstream_protocol decision))).

(** ** What is written *)

(** A field as it stands in the written body: its name, and the text of its value, the
    partition where the field is the partition. *)
Definition FieldText (partition : str) (f : InjectedField) (e : str * bytes) : Prop :=
  e.1 = inj_name f /\ exists v, to_vec v = Some e.2
  /\ match inj_value f with
     | InjPartitionId => v = String partition
     | InjConstant c => v = c
     | _ => False
     end.
Definition utf8_fields (fields : list InjectedField) : Prop :=
  Forall (fun f => utf8_valid (inj_name f) = true) fields.

Lemma resolve_values_names fields partition vs :
  resolve_values fields partition = Ok vs -> vs.*1 = inj_name <$> fields.
Proof.
  unfold resolve_values. rewrite collect_Ok. induction 1 as [|f v fields vs Hf Hfs IH]; [done|].
  rewrite !fmap_cons, IH. unfold resolve_value in Hf. by destruct (inj_value f); simplify_eq.
Qed.
Lemma resolve_values_text fields partition vs new :
  resolve_values fields partition = Ok vs -> Written vs new -> Forall2 (FieldText partition) fields new.
Proof.
  unfold resolve_values. rewrite collect_Ok. intros H. revert new.
  induction H as [|f v fields vs Hf Hfs IH]; intros new Hw; inversion Hw as [|? e ? new' [He Ht] Hw']; subst;
    constructor; [|by apply IH].
  unfold resolve_value in Hf. split; destruct (inj_value f) eqn:Hv; simplify_eq; [done..|by eexists|by eexists].
Qed.
Lemma resolve_values_utf8 fields partition vs :
  resolve_values fields partition = Ok vs -> utf8_fields fields -> utf8_names vs.
Proof.
  intros Hn%resolve_values_names. unfold utf8_fields, utf8_names. intros Hu.
  apply (Forall_fmap fst (fun n => utf8_valid n = true) vs). rewrite Hn. by apply Forall_fmap.
Qed.

Lemma ObjectDoc_JDoc b kvs : ObjectDoc b kvs -> JDoc any_escape b.
Proof.
  intros (w1 & inner & w2 & -> & Hw1 & Hi & Hw2).
  exists w1, ("{"%char :: inner ++ ["}"%char]), w2. split; [by rewrite <- app_comm_cons, <- app_assoc|].
  split; [done|]. split; [|done]. destruct Hi as [[Hi _]|Hi]; [by apply val_empty_object|].
  by eapply val_object, DMembers_JMembers.
Qed.

(** Where a transform has fields, the body of the client is an object without them, and
    the body written is that object with the fields in front. *)
Definition InjectedBody (partition : str) (fields : list InjectedField) (b out : bytes) : Prop :=
  exists old new, ObjectDoc b old /\ Forall2 (FieldText partition) fields new
    /\ ObjectDoc out (new ++ old) /\ Forall (fun f => inj_name f ∉ old.*1) fields.

Lemma inject_Ok b fields partition out :
  utf8_fields fields -> inject b fields partition = Ok out ->
  JDoc any_escape b /\ InjectedBody partition fields b out /\ (fields = [] -> out = b).
Proof.
  intros Hu. unfold inject. destruct (resolve_values fields partition) as [vs|] eqn:Hv; [|done]. cbn [rbind].
  destruct (inject_fields_bytes b vs) as [o|] eqn:Hi; [|done]. intros [= <-].
  destruct (inject_bytes_Ok b vs o) as (old & new & Hb & Hw & Ho & Hf & Hn);
    [by eapply resolve_values_utf8|done|].
  split; [by eapply ObjectDoc_JDoc|]. split.
  - exists old, new. repeat split; try done; [by eapply resolve_values_text|].
    apply (Forall_fmap inj_name (fun n => n ∉ old.*1) fields).
    rewrite <- (resolve_values_names _ _ _ Hv). by apply Forall_fmap.
  - intros ->. apply Hn. by injection Hv as <-.
Qed.

Definition IdOf (tr : BodyTransform) (partition : str) (b : bytes) (id : option str) : Prop :=
  match transform_rule tr with
  | None => id = None
  | Some rule => exists i, id = Some i
      /\ construct_id_bytes (template_str (template rule)) partition b = Some (Ok i)
  end.

Lemma build_id_Ok rule b partition i :
  build_id rule b partition = Ok i -> construct_id_bytes (template_str (template rule)) partition b = Some (Ok i).
Proof.
  unfold build_id, construct_id_bytes. rewrite construct_id_with_spec. cbn [ended].
  destruct (expand_all _ _ _); [|done]. by intros [= ->].
Qed.
Lemma validate_json_Ok b u : validate_json b = Ok u -> JDoc any_escape b.
Proof. unfold validate_json. destruct (validate b) as [[]|] eqn:Hv; [|done]. intros _. by apply validate_spec. Qed.

Lemma apply_transform_Ok b tr partition id out :
  utf8_fields (transform_fields tr) -> apply_transform b tr partition = Ok (id, out) ->
  JDoc any_escape b /\ IdOf tr partition b id
  /\ (transform_fields tr = [] -> out = b)
  /\ (transform_fields tr <> [] -> InjectedBody partition (transform_fields tr) b out).
Proof.
  unfold IdOf. destruct tr as [|fields|rule|fields rule]; cbn [apply_transform transform_fields transform_rule]; intros Hu.
  - destruct (validate_json b) as [u|] eqn:Hv; [|done]. intros [= <- <-].
    by apply validate_json_Ok in Hv.
  - destruct (inject b fields partition) as [o|] eqn:Hi; [|done]. intros [= <- <-].
    by destruct (inject_Ok _ _ _ _ Hu Hi) as (? & ? & ?).
  - destruct (validate_json b) as [u|] eqn:Hv; [|done]. cbn [map_err rbind].
    destruct (build_id rule b partition) as [i|] eqn:Hb; [|done]. intros [= <- <-].
    apply validate_json_Ok in Hv. split; [done|]. split; [|done]. exists i. by apply build_id_Ok in Hb.
  - destruct (inject b fields partition) as [o|] eqn:Hi; [|done]. cbn [rbind].
    destruct (build_id rule b partition) as [i|] eqn:Hb; [|done]. intros [= <- <-].
    destruct (inject_Ok _ _ _ _ Hu Hi) as (? & ? & ?). split; [done|].
    split; [exists i; by apply build_id_Ok in Hb|done].
Qed.

(** a single-document write. If a batch is built, the client's body is one JSON
    document, and the batch is exactly one index operation, on the decision's target over
    its protocol, stamped with the decision's epoch; without injected fields the body is
    sent byte for byte; with them the client's body is an object that names none of them,
    and what is sent is that object with every field in front, the partition field holding
    the resolved partition; the id is the rule's template expanded for that partition, and
    the routing value is the hint or else the partition, present exactly when the rule asks
    for it. *)
Theorem write_batch_is_isolated resolved b batch :
  utf8_fields (transform_fields (body_transform (r_decision resolved))) ->
  build_write_batch resolved b = Ok batch ->
  exists id out, ops batch = [MkWriteOp (target (r_decision resolved))
       (OpIndex id (routing_for (body_transform (r_decision resolved))
                      (default (r_partition resolved) (r_routing_hint resolved))) out)
       (epoch (r_decision resolved)) (upstream_protocol (r_decision resolved)) None []]
  /\ JDoc any_escape b /\ IdOf (body_transform (r_decision resolved)) (r_partition resolved) b id
  /\ (transform_fields (body_transform (r_decision resolved)) = [] -> out = b)
  /\ (transform_fields (body_transform (r_decision resolved)) <> [] ->
      InjectedBody (r_partition resolved) (transform_fields (body_transform (r_decision resolved))) b out).
Proof.
  intros Hu. unfold build_write_batch.
  destruct (apply_transform _ _ _) as [[id out]|] eqn:Ht; [|done]. cbn [rbind]. intros [= <-].
  exists id, out. split; [done|]. by apply apply_transform_Ok.
Qed.
End Plan.

(** ** Concrete runs *)
Section Runs.
Definition sample_body : bytes := body "{'k':'v','msg':'hi'}".
Definition sample_batch : WriteBatch :=
  batch_single (MkWriteOp (target_new (lit "eu-1") (lit "shared"))
    (OpIndex (Some (lit "acme:v")) (Some (lit "acme")) (body "{'_tenant':'acme','_region':'eu','k':'v','msg':'hi'}"))
    (MkEpoch 7) Http1 None []).
Example build_write_batch_runs :
  @build_write_batch (toy_serde []) scalar_wide sample_resolved sample_body = Ok sample_batch.
Proof. reflexivity. Qed.
Example collision_is_refused :
  @build_write_batch (toy_serde []) scalar_wide sample_resolved (body "{'k':'v','\u005ftenant':'evil'}")
  = Err (ReqRewrite (ReservedFieldCollision (lit "_tenant"))).
Proof. reflexivity. Qed.

Lemma write_batch_is_isolated_witness :
  exists id out, ops sample_batch = [MkWriteOp (target_new (lit "eu-1") (lit "shared"))
       (OpIndex id (Some (lit "acme")) out) (MkEpoch 7) Http1 None []]
  /\ JDoc any_escape sample_body
  /\ @IdOf (toy_serde []) scalar_wide (body_transform (r_decision sample_resolved)) (lit "acme") sample_body id
  /\ (transform_fields (body_transform (r_decision sample_resolved)) = [] -> out = sample_body)
  /\ (transform_fields (body_transform (r_decision sample_resolved)) <> [] ->
      @InjectedBody (toy_serde []) (lit "acme")
        (transform_fields (body_transform (r_decision sample_resolved))) sample_body out).
Proof.
  apply (@write_batch_is_isolated (toy_serde []) scalar_wide sample_resolved sample_body sample_batch).
  - by repeat constructor.
  - reflexivity.
Defined.
End Runs.
