(* ===== verification/ReadPath.v ===== *)
(** * Reads, deletes and searches ([crates/osproxy-engine/src/read.rs])

    Turning a decision into the operation the reader runs, and shaping what comes back
    into the client's logical view. *)
From stdpp Require Import base option list strings numbers sets.
From Stdlib Require Import Ascii ZArith Lia.
From S2P Require Import Prelude.
From S2P Require Import JsonScan.
From S2P Require Import JsonGrammar.
From S2P Require Import JsonTop.
From S2P Require Import JsonProps.
From S2P Require Import CoreTypes.
From S2P Require Import Serde.
From S2P Require Import ToySerde.
From S2P Require Import DocId.
From S2P Require Import Fields.
From S2P Require Import Query.
From S2P Require Import Spi.
From S2P Require Import Tenancy.
From S2P Require Import Sink.
From S2P Require Import Plan.

Open Scope osp_scope.

(** What a response needs besides the target: the fields to strip and the id rule. *)
Record ReadShape : Type := MkReadShape { inject_names : list FieldName; id_rule : option DocIdRule }.

Section Read.
Context {Sd : Serde}.

Definition field_names (fields : list InjectedField) : list FieldName := inj_name <$> fields.
Definition read_shape (tr : BodyTransform) : ReadShape :=
  match tr with
  | TransformNone => MkReadShape [] None
  | Inject fields => MkReadShape (field_names fields) None
  | ConstructId rule => MkReadShape [] (Some rule)
  | Both fields rule => MkReadShape (field_names fields) (Some rule)
  end.

(** The routing value of an operation: only when the rule sets routing. *)
Definition shape_routing (shape : ReadShape) (routing_value : str) : option str :=
  match id_rule shape with
  | Some r => if set_routing r then Some routing_value else None
  | None => None
  end.

Definition physical_id_and_routing (resolved : Resolved) (logical_id : str) (shape : ReadShape)
    : Result (str * option str) RequestError :=
  let partition := r_partition resolved in
  let? physical_id :=
    match id_rule shape with
    | Some rule => map_err ReqRewrite (ended (map_logical_to_physical (template_str (template rule)) partition logical_id))
    | None => Ok logical_id
    end in
  let routing_value := default partition (r_routing_hint resolved) in
  Ok (physical_id, shape_routing shape routing_value).

Definition build_read_op (resolved : Resolved) (logical_id : str) : Result (ReadOp * ReadShape) RequestError :=
  let shape := read_shape (body_transform (r_decision resolved)) in
  let? (physical_id, routing) := physical_id_and_routing resolved logical_id shape in
  Ok (read_with_protocol (read_op_new (target (r_decision resolved)) physical_id routing)
        (upstream_protocol (r_decision resolved)), shape).

Definition build_delete_op (resolved : Resolved) (logical_id : str) : Result WriteOp RequestError :=
  let shape := read_shape (body_transform (r_decision resolved)) in
  let? (physical_id, routing) := physical_id_and_routing resolved logical_id shape in
  Ok (write_with_protocol (write_op_new (target (r_decision resolved)) (OpDelete physical_id routing)
        (epoch (r_decision resolved))) (upstream_protocol (r_decision resolved))).

Definition build_delete_op_physical (resolved : Resolved) (physical_id : str) : WriteOp :=
  let shape := read_shape (body_transform (r_decision resolved)) in
  let routing_value := default (r_partition resolved) (r_routing_hint resolved) in
  write_with_protocol (write_op_new (target (r_decision resolved))
    (OpDelete physical_id (shape_routing shape routing_value)) (epoch (r_decision resolved)))
    (upstream_protocol (r_decision resolved)).

Definition logical_write_id (resolved : Resolved) (physical_id : str) : str :=
  match id_rule (read_shape (body_transform (r_decision resolved))) with
  | Some rule =>
      match ended (map_physical_to_logical (template_str (template rule)) (r_partition resolved) physical_id) with
      | Ok (Some logical) => logical
      | _ => physical_id
      end
  | None => physical_id
  end.

(** The document of a found response, as the client sees it. *)
Definition shape_found_value (doc : value) (logical_index logical_id : str) (names : list FieldName) : value :=
  match as_object doc with
  | Some obj =>
      let obj := map_insert obj (lit "_index") (String logical_index) in
      let obj := map_insert obj (lit "_id") (String logical_id) in
      let obj := map_remove obj (lit "_routing") in
      Object (map_alter obj (lit "_source") (fun source => (strip_fields source names).1))
  | None => doc
  end.
Definition shape_found (upstream_body : bytes) (logical_index logical_id : str) (names : list FieldName)
    : Result bytes RequestError :=
  let? doc := ok_or (from_slice upstream_body) (ReqRewrite RwInvalidJson) in
  ok_or (to_vec (shape_found_value doc logical_index logical_id names))
    (ReqInternal (lit "serializing read response")).

Definition shape_delete (logical_index logical_id : str) (status : Z) : bytes :=
  let result := if (status =? 404)%Z then lit "not_found" else lit "deleted" in
  default (lit "{}") (to_vec (json_object
    [(lit "_index", String logical_index); (lit "_id", String logical_id); (lit "result", String result)])).
Definition not_found_body (logical_index logical_id : str) : bytes :=
  default (body "{'found':false}") (to_vec (json_object
    [(lit "_index", String logical_index); (lit "_id", String logical_id); (lit "found", Bool false)])).

(** The terms of the mandatory filter: the partition fields, and no others. *)
Definition filter_terms (tr : BodyTransform) (partition : str) : list (FieldName * value) :=
  let fields := match tr with Inject fields | Both fields _ => fields | _ => [] end in
  (fun f => (inj_name f, String partition))
    <$> List.filter (fun f => match inj_value f with InjPartitionId => true | _ => false end) fields.
Definition build_search_op (resolved : Resolved) (b : bytes) : Result (SearchOp * ReadShape) RequestError :=
  let partition := r_partition resolved in
  let shape := read_shape (body_transform (r_decision resolved)) in
  let filter := filter_terms (body_transform (r_decision resolved)) partition in
  let? wrapped := map_err ReqRewrite (wrap_query b filter) in
  Ok (search_with_protocol (search_op_new (target (r_decision resolved)) wrapped)
        (upstream_protocol (r_decision resolved)), shape).

Definition shape_hit (hit : value) (logical_index partition : str) (shape : ReadShape) : value :=
  match as_object hit with
  | None => hit
  | Some obj =>
      let obj := map_insert obj (lit "_index") (String logical_index) in
      let obj := map_remove obj (lit "_routing") in
      let obj := match id_rule shape with
                 | Some rule =>
                     match map_get obj (lit "_id") with
                     | Some (String physical) =>
                         match ended (map_physical_to_logical (template_str (template rule)) partition physical) with
                         | Ok (Some logical) => map_insert obj (lit "_id") (String logical)
                         | _ => obj
                         end
                     | _ => obj
                     end
                 | None => obj
                 end in
      Object (map_alter obj (lit "_source") (fun source => (strip_fields source (inject_names shape)).1))
  end.

(** [hits.get_mut("hits").and_then(as_array_mut)], every element shaped. *)
Definition shape_hits_value (hits : value) (logical_index partition : str) (shape : ReadShape) : value :=
  match hits with
  | Object m =>
      match map_get m (lit "hits") with
      | Some (Array arr) =>
          Object (map_insert m (lit "hits") (Array ((fun hit => shape_hit hit logical_index partition shape) <$> arr)))
      | _ => hits
      end
  | _ => hits
  end.

(** A top level read as raw members; the text of a value written is the raw value put back. *)
Definition shape_hits (upstream_body : bytes) (logical_index partition : str) (shape : ReadShape)
    : Result bytes RequestError :=
  let internal := ReqInternal (lit "serializing search response") in
  match raw_object upstream_body with
  | None => if raw_value upstream_body then Ok upstream_body else Err (ReqRewrite RwInvalidJson)
  | Some top =>
      let? top :=
        match map_get top (lit "hits") with
        | Some hits_raw =>
            let top := map_remove top (lit "hits") in
            let? hits := ok_or (from_slice hits_raw) (ReqRewrite RwInvalidJson) in
            let? text := ok_or (to_vec (shape_hits_value hits logical_index partition shape)) internal in
            Ok (map_insert top (lit "hits") text)
        | None => Ok top
        end in
      ok_or (raw_object_to_vec top) internal
  end.

(** ** Ids *)
Lemma id_rule_transform tr : id_rule (read_shape tr) = transform_rule tr.
Proof. by destruct tr. Qed.
Lemma inject_names_transform tr : inject_names (read_shape tr) = inj_name <$> transform_fields tr.
Proof. by destruct tr. Qed.
Lemma shape_routing_for tr v : shape_routing (read_shape tr) v = routing_for tr v.
Proof. by destruct tr. Qed.

Definition Reversible (tr : BodyTransform) (partition : str) : Prop :=
  forall rule, transform_rule tr = Some rule ->
  exists prefix suffix, id_frame (template_str (template rule)) partition = Some (Ok (prefix, suffix)).

(** An id the write built, shown to the client and mapped again, is the same id. *)
Lemma written_id_maps_back `{W : Wide} resolved b i :
  Reversible (body_transform (r_decision resolved)) (r_partition resolved) ->
  IdOf (body_transform (r_decision resolved)) (r_partition resolved) b (Some i) ->
  physical_id_and_routing resolved (logical_write_id resolved i) (read_shape (body_transform (r_decision resolved)))
  = Ok (i, routing_for (body_transform (r_decision resolved)) (default (r_partition resolved) (r_routing_hint resolved))).
Proof.
  unfold Reversible, IdOf, logical_write_id, physical_id_and_routing. rewrite id_rule_transform, shape_routing_for.
  intros Hrev Hid. destruct (transform_rule _) as [rule|]; [|done].
  destruct (Hrev rule eq_refl) as (prefix & suffix & Hf). destruct Hid as (j & [= <-] & Hc).
  destruct (construct_maps _ _ _ _ _ _ Hc Hf) as (path & key & _ & ->).
  destruct (framed_id_maps_back _ _ _ _ key Hf) as [Hp Hl]. rewrite Hl. cbn [ended]. by rewrite Hp.
Qed.

(** a document can be read, and deleted, under the id its write answered with. If a
    write gave its document the physical id [i], the logical id shown to the client, mapped
    again by a read or by a delete, is [i], with the same routing value, on the same target
    over the same protocol, and the delete carries the same epoch. *)
Theorem written_document_is_read_back `{W : Wide} resolved b batch op i routing out :
  utf8_fields (transform_fields (body_transform (r_decision resolved))) ->
  Reversible (body_transform (r_decision resolved)) (r_partition resolved) ->
  build_write_batch resolved b = Ok batch -> ops batch = [op] -> w_doc op = OpIndex (Some i) routing out ->
  (exists shape, build_read_op resolved (logical_write_id resolved i)
                 = Ok (MkReadOp (w_target op) i routing (w_protocol op) None [], shape))
  /\ build_delete_op resolved (logical_write_id resolved i)
     = Ok (MkWriteOp (w_target op) (OpDelete i routing) (w_epoch op) (w_protocol op) None []).
Proof.
  intros Hu Hrev Hb Hops Hd. unfold build_write_batch in Hb.
  destruct (apply_transform _ _ _) as [[id o]|] eqn:Ht; [|done]. injection Hb as <-. injection Hops as <-.
  injection Hd as -> <- ->. apply apply_transform_Ok in Ht as (_ & Hid & _); [|done].
  unfold build_read_op, build_delete_op. rewrite (written_id_maps_back _ _ _ Hrev Hid). cbn.
  split; [by eexists|done].
Qed.

(** ** The mandatory filter *)
Definition is_partition_field (f : InjectedField) : bool :=
  match inj_value f with InjPartitionId => true | _ => false end.

Lemma filter_terms_transform tr partition :
  filter_terms tr partition
  = (fun f => (inj_name f, String partition)) <$> List.filter is_partition_field (transform_fields tr).
Proof. by destruct tr. Qed.

(** Settling the fields keeps which are the partition's, and their names. *)
Lemma settled_partition_fields fields ctx fs :
  resolve_inject fields ctx = Ok fs ->
  inj_name <$> List.filter is_partition_field fs = inj_name <$> List.filter is_partition_field fields.
Proof.
  intros (_ & Hn & Hv)%resolve_inject_settled. revert Hn.
  induction Hv as [|f g fields fs Hfg Hv IH]; cbn; [done|]. intros [= Hn Hns].
  assert (is_partition_field f = is_partition_field g) as <-.
  { unfold is_partition_field. destruct (inj_value f), (inj_value g); intuition congruence. }
  destruct (is_partition_field f); cbn; by rewrite ?Hn, IH.
Qed.

(** C16: what a search on a shared index sends. For a request the router resolved, the
    search goes to the placement's cluster and index, and its body is one object, no
    member of which is there twice, whose [query] is the client's, untouched, as the [must] of a [bool] whose [filter] has exactly
    one term per field the placement declares as the partition's, that field equal to the
    resolved partition, and no other; fields whose value is a constant or comes from the
    request are not filtered on. If there is a partition field, the body has no [suggest] and
    no [global] aggregation. *)
Theorem shared_search_is_filtered {T : TenancySpi} ctx r a c i declared op shape :
  resolve ctx = Ok r -> placement_for (r_partition r) = Ok a -> at_placement a = SharedIndex c i declared ->
  utf8_fields declared -> build_search_op r (ctx_body ctx) = Ok (op, shape) ->
  so_target op ≡ target_new c i /\ so_query op = None
  /\ exists top ts members,
       parse_top (ctx_body ctx) = Ok top
       /\ Forall2 (fun name t => term_text (name, String (r_partition r)) t)
            (inj_name <$> List.filter is_partition_field declared) ts
       /\ (existsb is_partition_field declared = true -> Filterable top)
       /\ ObjectDoc (so_body op) members /\ NoDup members.*1
       /\ forall k, map_get members k =
            if str_eqb (lit "query") k then Some (query_text (map_get top (lit "query")) ts) else map_get top k.
Proof.
  intros (_ & _ & a' & t & Ha & Ht & ->)%resolve_Ok Ha' Hp Hu. cbn [r_partition] in *.
  rewrite Ha' in Ha. injection Ha as <-. rewrite Hp in Ht. apply build_transform_Ok in Ht as (_ & Ht & _).
  unfold build_search_op. cbn [r_decision r_partition body_transform target upstream_protocol].
  rewrite filter_terms_transform.
  set (fields := List.filter is_partition_field (transform_fields t)).
  assert (Hn : inj_name <$> fields = inj_name <$> List.filter is_partition_field declared)
    by (by eapply settled_partition_fields).
  destruct (wrap_query _ _) as [out|] eqn:Hw; [|done]. intros [= <- <-]. cbn [so_target so_query so_body].
  split; [by rewrite Hp|]. split; [done|].
  apply wrap_query_spec in Hw as (top & ts & members & Htop & Hts & Hf & _ & Ho & Hnd & Hm).
  2: { apply Forall_fmap, (Forall_fmap inj_name (fun n => utf8_valid n = true)). rewrite Hn. apply Forall_fmap.
       apply Forall_forall. intros f Hf. eapply Forall_forall in Hu; [exact Hu|].
       apply list_elem_of_In, List.filter_In in Hf as [Hf _]. by apply list_elem_of_In. }
  exists top, ts, members. split; [done|]. split; [|split; [|done]].
  - rewrite <- Hn. clear -Hts. revert ts Hts. induction fields as [|f fields IH]; intros ts Hts;
      inversion Hts; subst; constructor; [done|by apply IH].
  - intros (f & Hin & Hf')%existsb_exists. apply Hf. intros Hnil%fmap_nil_inv. rewrite Hnil in Hn.
    assert (Hfin : f ∈ List.filter is_partition_field declared) by (by apply list_elem_of_In, List.filter_In).
    symmetry in Hn. apply fmap_nil_inv in Hn. rewrite Hn in Hfin. by apply not_elem_of_nil in Hfin.
Qed.

(** ** The client's view *)

(** [o] shows the stored document [obj] as the client's [d] under its logical names. *)
Definition ClientView (o obj : list (str * value)) (logical_index logical_id : str) (d : list (str * value)) : Prop :=
  map_get o (lit "_index") = Some (String logical_index)
  /\ map_get o (lit "_id") = Some (String logical_id)
  /\ map_get o (lit "_routing") = None
  /\ map_get o (lit "_source") = Some (Object d)
  /\ forall k, k ∉ [lit "_index"; lit "_id"; lit "_routing"; lit "_source"] -> map_get o k = map_get obj k.

Lemma strip_stored d vs :
  sorted d -> NoDup vs.*1 -> Forall (fun f => contains_key d f.1 = false) vs ->
  (strip_fields (Object (insert_all d vs)) vs.*1).1 = Object d.
Proof. intros. unfold strip_fields. cbn [as_object]. by rewrite strip_insert_all. Qed.

(** Looking a key up in a shaped document: the members it sets, by computation on their
    names. *)
Ltac names_differ := repeat match goal with
  | |- context [str_eqb (lit ?a) (lit ?b)] =>
      let r := eval vm_compute in (str_eqb (lit a) (lit b)) in change (str_eqb (lit a) (lit b)) with r
  end; cbn match.
Ltac view_key := repeat first
  [ rewrite map_alter_get | rewrite map_get_insert
  | rewrite map_get_remove by (repeat apply insert_sorted; done) ]; names_differ.
Ltac view_other Hk := repeat (rewrite not_elem_of_cons in Hk; destruct Hk as [? Hk]);
  rewrite !(proj2 (str_eqb_neq _ _)) by done.

Lemma shape_found_view obj d vs logical_index logical_id :
  sorted obj -> sorted d -> NoDup vs.*1 -> Forall (fun f => contains_key d f.1 = false) vs ->
  map_get obj (lit "_source") = Some (Object (insert_all d vs)) ->
  exists o, shape_found_value (Object obj) logical_index logical_id vs.*1 = Object o
    /\ ClientView o obj logical_index logical_id d.
Proof.
  intros Ho Hd Hnd Hc Hsrc. eexists. split; [reflexivity|]. unfold ClientView.
  repeat split; [view_key; done..| |intros k Hk; view_key; by view_other Hk].
  view_key. rewrite Hsrc. cbn [fmap option_fmap option_map]. by rewrite strip_stored.
Qed.

(** C17: the client gets back the document it wrote. For a stored document whose [_source]
    is a client document with the tenancy fields in it, a get and a search hit both show
    exactly the client's document, under the logical index, with the logical id (for a hit,
    the key the physical id was built from), without the routing value; every other member
    is untouched. *)
Theorem client_sees_its_own_document obj d vs logical_index logical_id rule partition prefix key suffix :
  sorted obj -> sorted d -> NoDup vs.*1 -> Forall (fun f => contains_key d f.1 = false) vs ->
  map_get obj (lit "_source") = Some (Object (insert_all d vs)) ->
  id_frame (template_str (template rule)) partition = Some (Ok (prefix, suffix)) ->
  map_get obj (lit "_id") = Some (String (prefix ++ key ++ suffix)) ->
  (exists o, shape_found_value (Object obj) logical_index logical_id vs.*1 = Object o
     /\ ClientView o obj logical_index logical_id d)
  /\ (exists o, shape_hit (Object obj) logical_index partition (MkReadShape vs.*1 (Some rule)) = Object o
     /\ ClientView o obj logical_index key d).
Proof.
  intros Ho Hd Hnd Hc Hsrc Hf Hid. split.
  - by apply shape_found_view.
  - unfold shape_hit. cbn [as_object id_rule inject_names].
    assert (Hget : map_get (map_remove (map_insert obj (lit "_index") (String logical_index)) (lit "_routing")) (lit "_id")
      = Some (String (prefix ++ key ++ suffix))) by (view_key; exact Hid).
    rewrite Hget, (proj2 (framed_id_maps_back _ _ _ _ key Hf)). cbn [ended].
    eexists. split; [reflexivity|]. unfold ClientView.
    repeat split; [view_key; done..| |intros k Hk; view_key; by view_other Hk].
    view_key. rewrite Hsrc. cbn [fmap option_fmap option_map]. by rewrite strip_stored.
Qed.

(** Shaping a search response touches nothing but the hits. The result is one JSON
    object with the members of the upstream's, each with its text unchanged byte for byte
    ([aggregations] among them), except that the value of [hits] is rewritten with every
    element of its [hits] array shaped; a response that is JSON but not an object is passed
    through unchanged. *)
Theorem shape_hits_keeps_siblings up logical_index partition shape out :
  shape_hits up logical_index partition shape = Ok out ->
  (raw_object up = None /\ raw_value up = true /\ out = up)
  \/ exists top members, raw_object up = Some top /\ ObjectDoc out members
     /\ forall k, map_get members k =
          if str_eqb (lit "hits") k
          then raw ← map_get top (lit "hits"); v ← from_slice raw;
               to_vec (shape_hits_value v logical_index partition shape)
          else map_get top k.
Proof.
  unfold shape_hits. destruct (raw_object up) as [top|] eqn:Htop; [|destruct (raw_value up); [|done]; intros [= <-]; by left].
  intros H. right. apply raw_object_json in Htop as Hj. destruct Hj as [Hs Hf].
  assert (Hf' : Forall (fun e => utf8_valid e.1 = true /\ JVal rfc_escape e.2) top)
    by (eapply Forall_impl; [exact Hf|]; naive_solver).
  destruct (map_get top (lit "hits")) as [raw|] eqn:Hh; cbn [rbind] in H.
  - destruct (from_slice raw) as [v|] eqn:Hv; [|done]. cbn [ok_or rbind] in H.
    destruct (to_vec _) as [text|] eqn:Ht; [|done]. cbn [ok_or rbind] in H.
    destruct (raw_object_to_vec _) as [o|] eqn:Ho; [|done]. injection H as <-.
    exists top. eexists. split; [done|]. split.
    + eapply written_object; [|exact Ho]. apply insert_Forall; [|by apply remove_Forall].
      split; [done|]. by eapply to_vec_json.
    + intros k. rewrite map_get_insert, map_get_remove by done.
      destruct (str_eqb (lit "hits") k); [|done]. by rewrite Hh; cbn [mbind option_bind]; rewrite Hv; cbn [mbind option_bind]; rewrite Ht.
  - destruct (raw_object_to_vec top) as [o|] eqn:Ho; [|done]. injection H as <-.
    exists top, top. split; [done|]. split; [by eapply written_object|].
    intros k. destruct (str_eqb (lit "hits") k) eqn:Hk; [|done]. apply str_eqb_eq in Hk as <-. by rewrite Hh.
Qed.
End Read.

(** ** Concrete runs *)
Section Runs.
Definition search_body : bytes := body "{'query':{},'size':5}".
Definition search_ctx : RequestCtx :=
  ctx_new (principal_new (lit "svc")) (lit "r2") Post Search Http1 (lit "orders")
    [(lit "X-Tenant", lit "acme"); (lit "x-region", lit "eu")] search_body.
Definition sample_search (b : bytes) : SearchOp := MkSearchOp (target_new (lit "eu-1") (lit "shared")) b Http1 None None [].
Definition sample_shape : ReadShape :=
  MkReadShape [lit "_tenant"; lit "_region"] (Some (MkDocIdRule (MkIdTemplate recommended) true)).

Example search_is_filtered_runs :
  @build_search_op (toy_serde []) sample_resolved search_body
  = Ok (sample_search (body "{'query':{'bool':{'must':[{}],'filter':[{'term':{'_tenant':'acme'}}]}},'size':5}"),
        sample_shape).
Proof. reflexivity. Qed.

(** A shared index that declares only a constant field: the filter is empty, so a search
    on it is not narrowed to the partition. *)
Definition constant_resolved : @Resolved (toy_serde []) :=
  @MkResolved (toy_serde []) (lit "acme")
    (@MkRouteDecision (toy_serde []) (target_new (lit "eu-1") (lit "shared")) Http1 []
      (@Both (toy_serde [])
        [@MkInjectedField (toy_serde []) (lit "_source_system") (@InjConstant (toy_serde []) (String (lit "a")))]
        (MkDocIdRule (MkIdTemplate recommended) true)) (MkEpoch 7))
    PhaseSettled None.
Example constant_field_is_not_a_filter :
  so_body <$> (fst <$> ok (@build_search_op (toy_serde []) constant_resolved search_body))
  = Some (body "{'query':{'bool':{'must':[{}],'filter':[]}},'size':5}").
Proof. reflexivity. Qed.

Lemma written_document_is_read_back_witness :
  (exists shape, @build_read_op (toy_serde []) sample_resolved (@logical_write_id (toy_serde []) sample_resolved (lit "acme:v"))
     = Ok (MkReadOp (target_new (lit "eu-1") (lit "shared")) (lit "acme:v") (Some (lit "acme")) Http1 None [], shape))
  /\ @build_delete_op (toy_serde []) sample_resolved (@logical_write_id (toy_serde []) sample_resolved (lit "acme:v"))
     = Ok (MkWriteOp (target_new (lit "eu-1") (lit "shared")) (OpDelete (lit "acme:v") (Some (lit "acme"))) (MkEpoch 7) Http1 None []).
Proof.
  apply (@written_document_is_read_back (toy_serde []) scalar_wide sample_resolved sample_body sample_batch
    (MkWriteOp (target_new (lit "eu-1") (lit "shared"))
      (OpIndex (Some (lit "acme:v")) (Some (lit "acme")) (body "{'_tenant':'acme','_region':'eu','k':'v','msg':'hi'}"))
      (MkEpoch 7) Http1 None []) (lit "acme:v") (Some (lit "acme"))
    (body "{'_tenant':'acme','_region':'eu','k':'v','msg':'hi'}")).
  - by repeat constructor.
  - intros rule [= <-]. exists (lit "acme:"), []. reflexivity.
  - reflexivity.
  - reflexivity.
  - reflexivity.
Defined.

Definition shared_at : @PlacementAt (toy_serde []) :=
  placement_at_new (@SharedIndex (toy_serde []) (lit "eu-1") (lit "shared")
    [@MkInjectedField (toy_serde []) (lit "_tenant") InjPartitionId;
     @MkInjectedField (toy_serde []) (lit "_region") (InjFromHeader (lit "X-Region"))]) (MkEpoch 7).

Lemma shared_search_is_filtered_witness :
  target_new (lit "eu-1") (lit "shared") ≡ target_new (lit "eu-1") (lit "shared") /\ @None str = None
  /\ exists top ts members,
       @parse_top (toy_serde []) search_body = Ok top
       /\ Forall2 (fun name t => @term_text (toy_serde []) (name, String (lit "acme")) t) [lit "_tenant"] ts
       /\ (true = true -> @Filterable (toy_serde []) top)
       /\ ObjectDoc (body "{'query':{'bool':{'must':[{}],'filter':[{'term':{'_tenant':'acme'}}]}},'size':5}") members
       /\ NoDup members.*1
       /\ forall k, map_get members k =
            if str_eqb (lit "query") k then Some (query_text (map_get top (lit "query")) ts) else map_get top k.
Proof.
  apply (@shared_search_is_filtered (toy_serde []) toy_tenancy search_ctx sample_resolved shared_at
    (lit "eu-1") (lit "shared")
    [@MkInjectedField (toy_serde []) (lit "_tenant") InjPartitionId;
     @MkInjectedField (toy_serde []) (lit "_region") (InjFromHeader (lit "X-Region"))]
    (sample_search (body "{'query':{'bool':{'must':[{}],'filter':[{'term':{'_tenant':'acme'}}]}},'size':5}"))
    sample_shape).
  - reflexivity.
  - reflexivity.
  - reflexivity.
  - by repeat constructor.
  - reflexivity.
Defined.

Definition stored_hit : list (str * @Value Z) :=
  [(lit "_id", String (lit "acme:v")); (lit "_index", String (lit "shared")); (lit "_routing", String (lit "acme"));
   (lit "_source", Object [(lit "_tenant", String (lit "acme")); (lit "msg", String (lit "hi"))])].

Lemma client_sees_its_own_document_witness :
  (exists o, @shape_found_value (toy_serde []) (Object stored_hit) (lit "orders") (lit "v") [lit "_tenant"] = Object o
     /\ @ClientView (toy_serde []) o stored_hit (lit "orders") (lit "v") [(lit "msg", String (lit "hi"))])
  /\ (exists o, @shape_hit (toy_serde []) (Object stored_hit) (lit "orders") (lit "acme")
                  (MkReadShape [lit "_tenant"] (Some (MkDocIdRule (MkIdTemplate recommended) true))) = Object o
     /\ @ClientView (toy_serde []) o stored_hit (lit "orders") (lit "v") [(lit "msg", String (lit "hi"))]).
Proof.
  apply (@client_sees_its_own_document (toy_serde []) stored_hit [(lit "msg", String (lit "hi"))]
    [(lit "_tenant", String (lit "acme"))] (lit "orders") (lit "v")
    (MkDocIdRule (MkIdTemplate recommended) true) (lit "acme") (lit "acme:") (lit "v") []).
  - by repeat constructor.
  - by repeat constructor.
  - apply NoDup_singleton.
  - by repeat constructor.
  - reflexivity.
  - reflexivity.
  - reflexivity.
Defined.

Lemma shape_hits_keeps_siblings_witness :
  (@raw_object (toy_serde []) (body "{'suggest':{}}") = None /\ @raw_value (toy_serde []) (body "{'suggest':{}}") = true
     /\ body "{'suggest':{}}" = body "{'suggest':{}}")
  \/ exists top members, @raw_object (toy_serde []) (body "{'suggest':{}}") = Some top
     /\ ObjectDoc (body "{'suggest':{}}") members
     /\ forall k, map_get members k =
          if str_eqb (lit "hits") k
          then raw ← map_get top (lit "hits"); v ← @from_slice (toy_serde []) raw;
               @to_vec (toy_serde []) (@shape_hits_value (toy_serde []) v (lit "orders") (lit "acme") sample_shape)
          else map_get top k.
Proof.
  apply (@shape_hits_keeps_siblings (toy_serde []) (body "{'suggest':{}}") (lit "orders") (lit "acme") sample_shape).
  reflexivity.
Defined.
End Runs.
