(* ===== verification/ObjectText.v ===== *)
(** * What a parser reads of an object's text

    A text is an object in one way only: its members, their decoded names and the texts of
    their values are determined.  A parser that reads it reads those members; so what the
    byte-level injection of [Fields] stores reads back as the client's document with the
    fields in it. *)
From stdpp Require Import base option list strings numbers sets.
From Stdlib Require Import Ascii ZArith Lia.
From S2P Require Import Prelude.
From S2P Require Import JsonScan.
From S2P Require Import JsonGrammar.
From S2P Require Import JsonTriples.
From S2P Require Import JsonValues.
From S2P Require Import JsonTop.
From S2P Require Import JsonProps.
From S2P Require Import CoreTypes.
From S2P Require Import Serde.
From S2P Require Import ToySerde.
From S2P Require Import Fields.
From S2P Require Import DocId.
From S2P Require Import Spi.
From S2P Require Import Tenancy.
From S2P Require Import Plan.
From S2P Require Import ReadPath.

Open Scope osp_scope.

(** ** One reading *)

(** A scanner reads the same text at the same place. *)
Lemma runs_unique {A} (m : scan JsonError A) t1 t2 l1 l2 a1 a2 :
  runs (t1 ++ l1) m t1 a1 -> runs (t2 ++ l2) m t2 a2 -> t1 ++ l1 = t2 ++ l2 -> t1 = t2 /\ l1 = l2 /\ a1 = a2.
Proof.
  intros H1 H2 He. rewrite <- He in H2. specialize (H1 _ (at_input_new _)). specialize (H2 _ (at_input_new _)).
  rewrite H1 in H2. injection H2 as Ha Hn.
  assert (Hl : length t1 = length t2) by (cbn in Hn; lia).
  apply app_inj_1 in He as [-> ->]; [done|done].
Qed.
Lemma ws_unique w1 w2 l1 l2 :
  ws w1 -> ws w2 -> (forall c, head l1 = Some c -> is_json_ws c = false) -> (forall c, head l2 = Some c -> is_json_ws c = false) ->
  w1 ++ l1 = w2 ++ l2 -> w1 = w2 /\ l1 = l2.
Proof.
  intros H1 H2 Hl1 Hl2 He. edestruct (runs_unique (skip_ws : scan JsonError _) w1 w2 l1 l2) as (? & ? & _);
    [by apply skip_ws_runs|by apply skip_ws_runs|done|done].
Qed.
(** What follows a member. *)
Definition closes (r : bytes) : Prop := exists c r', r = c :: r' /\ c ∈ [","; "}"]%char.
Lemma closes_follow r : closes r -> number_follow r /\ forall c, head r = Some c -> is_json_ws c = false.
Proof.
  intros (c & r' & -> & Hc). split; [apply number_follow_close; set_solver|]. apply not_ws_head.
  apply list_elem_of_In in Hc as [<-|[<-|[]]]; done.
Qed.
Lemma DMember_unique m1 k1 v1 r1 m2 k2 v2 r2 :
  DMember m1 k1 v1 -> DMember m2 k2 v2 -> closes r1 -> closes r2 -> m1 ++ r1 = m2 ++ r2 ->
  m1 = m2 /\ r1 = r2 /\ k1 = k2 /\ v1 = v2.
Proof.
  intros [w1 kt1 s1 w2 w3 u1 w4 Hw1 Hs1 Hw2 Hw3 Hv1 Hw4] [x1 kt2 s2 x2 x3 u2 x4 Hx1 Hs2 Hx2 Hx3 Hv2 Hx4] Hr1 Hr2 He.
  apply closes_follow in Hr1 as [Hf1 Hn1], Hr2 as [Hf2 Hn2].
  repeat (rewrite <- ?app_assoc in He; cbn [app] in He).
  apply ws_unique in He as [-> He]; [|done|done| |].
  2-3: destruct (DString_start _ _ Hs1) as [? ->], (DString_start _ _ Hs2) as [? ->]; by intros ? [= <-].
  apply (runs_unique string_decode _ _ _ _ _ _ (string_decode_runs _ _ _ Hs1) (string_decode_runs _ _ _ Hs2)) in He as (-> & He & ->).
  apply ws_unique in He as [-> He]; [|done|done|by intros ? [= <-]..]. injection He as He.
  assert (Hu : forall u t, JVal any_escape u -> forall c, head (u ++ t) = Some c -> is_json_ws c = false).
  { intros u t (c & u' & -> & Hc)%JVal_start. by apply not_ws_head. }
  apply ws_unique in He as [-> He]; [|done|done|by apply Hu..].
  apply (runs_unique skip_value_here u1 u2 _ _ tt tt) in He as (-> & He & _).
  2-3: apply (skip_value_here_runs any_escape []); [constructor|done|by apply number_follow_ws].
  apply ws_unique in He as [-> ->]; done.
Qed.
Lemma DMembers_unique t1 kvs1 : DMembers t1 kvs1 -> forall t2 kvs2 r1 r2, DMembers t2 kvs2 ->
  t1 ++ "}"%char :: r1 = t2 ++ "}"%char :: r2 -> t1 = t2 /\ kvs1 = kvs2 /\ r1 = r2.
Proof.
  assert (Hc : forall r, closes ("}"%char :: r)) by (intros r; eexists _, _; split; [done|set_solver]).
  assert (Hk : forall r, closes (","%char :: r)) by (intros r; eexists _, _; split; [done|set_solver]).
  induction 1 as [m1 k1 v1 Hm1|m1 k1 v1 t1 kvs1 Hm1 Ht1 IH]; intros t2 kvs2 r1 r2 H2 He;
    destruct H2 as [m2 k2 v2 Hm2|m2 k2 v2 t2 kvs2 Hm2 Ht2]; rewrite <- ?app_assoc in He; cbn [app] in He;
    (match type of He with _ ++ ?ra = _ ++ ?rb => destruct (DMember_unique _ _ _ ra _ _ _ rb Hm1 Hm2) as (-> & He' & -> & ->) end;
    [first [apply Hc|apply Hk]|first [apply Hc|apply Hk]|exact He|clear He; rename He' into He]); [by injection He as ->|done|done|].
  injection He as He. by destruct (IH _ _ _ _ Ht2 He) as (-> & -> & ->).
Qed.
Lemma ObjectDoc_unique t kvs1 kvs2 : ObjectDoc t kvs1 -> ObjectDoc t kvs2 -> kvs1 = kvs2.
Proof.
  intros (w1 & i1 & e1 & -> & Hw1 & Hi1 & _) (w2 & i2 & e2 & He & Hw2 & Hi2 & _).
  apply ws_unique in He as [-> He]; [|done|done|by intros ? [= <-]..]. injection He as He.
  assert (Hno : forall i kvs i' r r', DMembers i kvs -> ws i' -> i ++ "}"%char :: r = i' ++ "}"%char :: r' -> False).
  { intros i kvs i' r r' (w & t & -> & Hw)%DMembers_start Hi' He'. rewrite <- app_assoc in He'. cbn [app] in He'.
    apply ws_unique in He' as [_ He']; [|done|done| |]; [done|by intros ? [= <-]|by intros ? [= <-]]. }
  destruct Hi1 as [[Hi1 ->]|Hi1], Hi2 as [[Hi2 ->]|Hi2]; [done|..].
  1: by destruct (Hno _ _ _ _ _ Hi2 Hi1 (eq_sym He)).
  1: by destruct (Hno _ _ _ _ _ Hi1 Hi2 He).
  by destruct (DMembers_unique _ _ Hi1 _ _ _ _ Hi2 He) as (_ & -> & _).
Qed.

(** ** What the parser reads

    Documented behaviour of the parser: the text of an object parses to the object of its
    parsed members, the last of several with the same name; a parsed value is in key order. *)
Class ParserLaws `{Sd : Serde} : Prop := {
  parse_object : forall t kvs v, ObjectDoc t kvs -> from_slice t = Some v ->
    exists ms, Forall2 (fun (e : str * bytes) m => m.1 = e.1 /\ from_slice e.2 = Some m.2) kvs ms /\ v = json_object ms;
  parse_sorted : forall t m, from_slice t = Some (Object m) -> sorted m
}.

Section Stored.
Context {Sd : Serde} {L : ParserLaws} {W : Wide}.

(** [b] reads back as the document [d] with the fields [vs] in it. *)
Definition StoredAs (b : bytes) (d vs : list (str * value)) : Prop :=
  sorted d /\ NoDup vs.*1 /\ Forall (fun f => contains_key d f.1 = false) vs
  /\ from_slice b = Some (Object (insert_all d vs)).

Lemma insert_all_app (m : list (str * value)) l1 l2 : insert_all m (l1 ++ l2) = insert_all (insert_all m l1) l2.
Proof. unfold insert_all. by rewrite foldl_app. Qed.
(** Fields inserted before or after members of other names. *)
Lemma insert_all_disjoint (l1 l2 : list (str * value)) :
  (forall f, f ∈ l1.*1 -> f ∉ l2.*1) -> insert_all (insert_all [] l1) l2 = insert_all (insert_all [] l2) l1.
Proof.
  intros Hd. apply map_ext; [by repeat apply insert_all_sorted..|]. intros k. rewrite !insert_all_get.
  destruct (last_field l1 k) as [v|] eqn:H1, (last_field l2 k) as [w|] eqn:H2; try done.
  exfalso. eapply (Hd k); apply dec_stable; intros Hn; [apply last_field_None in Hn|apply last_field_None in Hn]; congruence.
Qed.
Lemma read_members kvs (ms : list (str * value)) :
  Forall2 (fun (e : str * bytes) m => m.1 = e.1 /\ from_slice e.2 = Some m.2) kvs ms -> ms.*1 = kvs.*1.
Proof. induction 1 as [|e m kvs ms [He _] _ IH]; [done|]. cbn. by rewrite He, IH. Qed.
Lemma read_members_unique kvs (ms ms' : list (str * value)) :
  Forall2 (fun (e : str * bytes) m => m.1 = e.1 /\ from_slice e.2 = Some m.2) kvs ms ->
  Forall2 (fun (e : str * bytes) m => m.1 = e.1 /\ from_slice e.2 = Some m.2) kvs ms' -> ms = ms'.
Proof.
  intros H. revert ms'. induction H as [|e [k v] kvs ms [He Hv] _ IH]; intros ms' H'; inversion H' as [|? [k' v'] ? ? [He' Hv']]; subst; [done|].
  cbn in *. f_equal; [|by apply IH]. congruence.
Qed.

(** What a transform stores of a client's document is that document with the fields in it. *)
Lemma transform_stores tr partition text id b d v :
  utf8_fields (transform_fields tr) -> NoDup (inj_name <$> transform_fields tr) ->
  apply_transform text tr partition = Ok (id, b) ->
  from_slice text = Some (Object d) -> from_slice b = Some v ->
  exists vs, StoredAs b d vs /\ vs.*1 = inj_name <$> transform_fields tr.
Proof.
  intros Hu Hnd Ht Hd Hb. apply apply_transform_Ok in Ht as (_ & _ & Hnone & Hsome); [|done].
  destruct (decide (transform_fields tr = [])) as [Hf|Hf].
  { rewrite Hf. exists []. specialize (Hnone Hf) as ->. split; [|done]. split; [by eapply parse_sorted|]. by split_and!; try constructor. }
  destruct (Hsome Hf) as (old & new & Hold & Hnew & Hout & Hfresh).
  destruct (parse_object _ _ _ Hold Hd) as (mo & Hmo & [= Hdm]).
  destruct (parse_object _ _ _ Hout Hb) as (ms & Hms & ->).
  apply Forall2_app_inv_l in Hms as (mn & mo' & Hmn & Hmo' & ->).
  rewrite (read_members_unique _ _ _ Hmo' Hmo) in *. clear Hmo' mo'.
  assert (Hnames : mn.*1 = inj_name <$> transform_fields tr).
  { rewrite (read_members _ _ Hmn). clear -Hnew. induction Hnew as [|f e fs es [He _] _ IH]; [done|]. cbn. by rewrite He, IH. }
  assert (Hdis : forall f, f ∈ mn.*1 -> f ∉ mo.*1).
  { intros f. rewrite Hnames, (read_members _ _ Hmo). intros (g & -> & Hg)%list_elem_of_fmap.
    rewrite Forall_forall in Hfresh. by apply Hfresh. }
  change (d = insert_all [] mo) in Hdm. subst d. exists mn. split; [|done].
  split; [by eapply parse_sorted|]. split; [by rewrite Hnames|]. split.
  - apply Forall_forall. intros f Hin. apply contains_key_false. rewrite insert_all_get.
    rewrite (proj2 (last_field_None mo f.1)); [done|]. apply Hdis. apply list_elem_of_fmap. by exists f.
  - rewrite Hb. unfold json_object. f_equal. f_equal. change (foldl _ [] (mn ++ mo)) with (insert_all [] (mn ++ mo)).
    rewrite insert_all_app. by apply insert_all_disjoint.
Qed.
End Stored.
