(* ===== verification/SearchScan.v ===== *)
(** * The streaming search transform ([crates/osproxy-engine/src/search_scan.rs])

    A state machine over the bytes of a search response that forwards everything as it
    comes except the elements of the [hits.hits] array, which it frames one by one and
    replaces by their shaped form. *)
From stdpp Require Import base option list strings numbers sets.
From Stdlib Require Import Ascii ZArith Lia.
From S2P Require Import Prelude.
From S2P Require Import JsonScan.
From S2P Require Import JsonGrammar.
From S2P Require Import JsonTriples.
From S2P Require Import JsonValues.
From S2P Require Import JsonTop.
From S2P Require Import JsonPath.
From S2P Require Import JsonProps.
From S2P Require Import Serde.
From S2P Require Import ToySerde.
From S2P Require Import DocId.
From S2P Require Import Spi.
From S2P Require Import ReadPath.

Open Scope osp_scope.

(** [serde_json::from_slice::<String>]: a string literal is decoded. *)
Class SerdeString := {
  string_from_slice : bytes -> option str;
  string_from_slice_spec : forall t s, DString t s -> string_from_slice t = Some s
}.

Inductive Phase : Type :=
| SeekRoot
| ObjExpectKey
| ObjReadKey
| ObjExpectColon
| ObjExpectValue
| SkipValue
| ObjExpectComma
| ArrExpectElem
| ArrReadElem
| ArrExpectComma
| Passthrough.
#[export] Instance Phase_eq_dec : EqDecision Phase.
Proof. solve_decision. Defined.

Inductive Flow : Type := Consume | Redo.

(** Nesting depths are [u32]s; arithmetic wraps. *)
Definition u32_wrap (z : Z) : Z := z mod 4294967296.

Record Skip : Type := MkSkip { sk_depth : Z; sk_in_str : bool; sk_esc : bool; sk_scalar : bool }.
Definition skip_default : Skip := MkSkip 0 false false false.
Definition skip_begin (first : byte) : Skip :=
  if Ascii.eqb first quote then MkSkip 0 true false false
  else if Ascii.eqb first "{" || Ascii.eqb first "[" then MkSkip 1 false false false
  else MkSkip 0 false false true.

Inductive ElemKind : Type := KindUnknown | KindStr | KindStruct | KindScalar.
Record Elem : Type := MkElem { el_buf : bytes; el_kind : ElemKind; el_depth : Z; el_in_str : bool; el_esc : bool }.
Definition elem_new : Elem := MkElem [] KindUnknown 0 false false.

Section Scan.
Context {Sd : Serde} {Ss : SerdeString}.

Record HitShaper : Type := MkHitShaper { hs_index : str; hs_partition : str; hs_shape : ReadShape }.
Definition transform (h : HitShaper) (raw : bytes) : bytes :=
  match from_slice raw with
  | Some hit => default raw (to_vec (shape_hit hit (hs_index h) (hs_partition h) (hs_shape h)))
  | None => raw
  end.

Record SearchHitsScanner : Type := MkScanner {
  shaper : HitShaper;
  phase : Phase;
  level : Z;
  key_is_hits : bool;
  key_buf : bytes;
  key_esc : bool;
  skip : Skip;
  elem : Elem;
  out : bytes
}.
Definition scanner_new (h : HitShaper) : SearchHitsScanner :=
  MkScanner h SeekRoot 0 false [] false skip_default elem_new [].

(** Field updates. *)
Definition push (s : SearchHitsScanner) (b : bytes) : SearchHitsScanner :=
  MkScanner (shaper s) (phase s) (level s) (key_is_hits s) (key_buf s) (key_esc s) (skip s) (elem s) (out s ++ b).
Definition goto (s : SearchHitsScanner) (p : Phase) : SearchHitsScanner :=
  MkScanner (shaper s) p (level s) (key_is_hits s) (key_buf s) (key_esc s) (skip s) (elem s) (out s).
Definition set_level (s : SearchHitsScanner) (l : Z) : SearchHitsScanner :=
  MkScanner (shaper s) (phase s) l (key_is_hits s) (key_buf s) (key_esc s) (skip s) (elem s) (out s).
Definition set_key (s : SearchHitsScanner) (buf : bytes) (esc : bool) : SearchHitsScanner :=
  MkScanner (shaper s) (phase s) (level s) (key_is_hits s) buf esc (skip s) (elem s) (out s).
Definition set_is_hits (s : SearchHitsScanner) (h : bool) : SearchHitsScanner :=
  MkScanner (shaper s) (phase s) (level s) h (key_buf s) (key_esc s) (skip s) (elem s) (out s).
Definition set_skip (s : SearchHitsScanner) (k : Skip) : SearchHitsScanner :=
  MkScanner (shaper s) (phase s) (level s) (key_is_hits s) (key_buf s) (key_esc s) k (elem s) (out s).
Definition set_elem (s : SearchHitsScanner) (e : Elem) : SearchHitsScanner :=
  MkScanner (shaper s) (phase s) (level s) (key_is_hits s) (key_buf s) (key_esc s) (skip s) e (out s).
Definition set_out (s : SearchHitsScanner) (o : bytes) : SearchHitsScanner :=
  MkScanner (shaper s) (phase s) (level s) (key_is_hits s) (key_buf s) (key_esc s) (skip s) (elem s) o.

Definition is_ws (b : byte) : bool := existsb (Ascii.eqb b) [" "%char; byte_of 9; byte_of 10; byte_of 13].
Definition decoded_key_is_hits (raw : bytes) : bool :=
  match string_from_slice (quote :: raw ++ [quote]) with Some s => str_eqb s (lit "hits") | None => false end.

(** ** The handlers, one per phase *)
Definition at_seek_root (s : SearchHitsScanner) (b : byte) : SearchHitsScanner * Flow :=
  let s := push s [b] in
  (if Ascii.eqb b "{" then goto (set_level s 1) ObjExpectKey
   else if negb (is_ws b) then goto s Passthrough
   else s, Consume).

Definition at_obj_expect_key (s : SearchHitsScanner) (b : byte) : SearchHitsScanner * Flow :=
  let s := push s [b] in
  (if Ascii.eqb b quote then goto (set_key s [] false) ObjReadKey
   else if negb (is_ws b) then goto s Passthrough
   else s, Consume).

Definition at_obj_read_key (s : SearchHitsScanner) (b : byte) : SearchHitsScanner * Flow :=
  let s := push s [b] in
  (if key_esc s then set_key s (key_buf s ++ [b]) false
   else if Ascii.eqb b backslash then set_key s (key_buf s ++ [b]) true
   else if Ascii.eqb b quote then goto (set_is_hits s (decoded_key_is_hits (key_buf s))) ObjExpectColon
   else set_key s (key_buf s ++ [b]) false, Consume).

Definition at_obj_expect_colon (s : SearchHitsScanner) (b : byte) : SearchHitsScanner * Flow :=
  let s := push s [b] in
  (if Ascii.eqb b ":" then goto s ObjExpectValue
   else if negb (is_ws b) then goto s Passthrough
   else s, Consume).

Definition at_obj_expect_value (s : SearchHitsScanner) (b : byte) : SearchHitsScanner * Flow :=
  if is_ws b then (push s [b], Consume)
  else
    let s := push s [b] in
    (if key_is_hits s then
       if (level s =? 1)%Z && Ascii.eqb b "{" then goto (set_level s 2) ObjExpectKey
       else if (level s =? 2)%Z && Ascii.eqb b "[" then goto s ArrExpectElem
       else goto s Passthrough
     else goto (set_skip s (skip_begin b)) SkipValue, Consume).

Definition at_skip_value (s : SearchHitsScanner) (b : byte) : SearchHitsScanner * Flow :=
  let k := skip s in
  if sk_in_str k then
    let s := push s [b] in
    (if sk_esc k then set_skip s (MkSkip (sk_depth k) true false (sk_scalar k))
     else if Ascii.eqb b backslash then set_skip s (MkSkip (sk_depth k) true true (sk_scalar k))
     else if Ascii.eqb b quote then
       let s := set_skip s (MkSkip (sk_depth k) false false (sk_scalar k)) in
       if (sk_depth k =? 0)%Z then goto s ObjExpectComma else s
     else s, Consume)
  else if (0 <? sk_depth k)%Z then
    let s := push s [b] in
    (if Ascii.eqb b quote then set_skip s (MkSkip (sk_depth k) true (sk_esc k) (sk_scalar k))
     else if Ascii.eqb b "{" || Ascii.eqb b "[" then
       set_skip s (MkSkip (u32_wrap (sk_depth k + 1)) false (sk_esc k) (sk_scalar k))
     else if Ascii.eqb b "}" || Ascii.eqb b "]" then
       let d := u32_wrap (sk_depth k - 1) in
       let s := set_skip s (MkSkip d false (sk_esc k) (sk_scalar k)) in
       if (d =? 0)%Z then goto s ObjExpectComma else s
     else s, Consume)
  else if is_ws b || Ascii.eqb b "," || Ascii.eqb b "}" then (goto s ObjExpectComma, Redo)
  else (push s [b], Consume).

Definition at_obj_expect_comma (s : SearchHitsScanner) (b : byte) : SearchHitsScanner * Flow :=
  let s := push s [b] in
  (if Ascii.eqb b "," then goto s ObjExpectKey
   else if negb (is_ws b) then goto s Passthrough
   else s, Consume).

Definition at_arr_expect_elem (s : SearchHitsScanner) (b : byte) : SearchHitsScanner * Flow :=
  if is_ws b then (push s [b], Consume)
  else if Ascii.eqb b "]" then (goto (push s [b]) Passthrough, Consume)
  else (goto (set_elem s elem_new) ArrReadElem, Redo).

Definition finish_elem (s : SearchHitsScanner) : SearchHitsScanner :=
  let e := elem s in
  set_elem (push s (transform (shaper s) (el_buf e)))
    (MkElem [] (el_kind e) (el_depth e) (el_in_str e) (el_esc e)).

Definition read_struct_elem_byte (s : SearchHitsScanner) (b : byte) : SearchHitsScanner :=
  let e := elem s in
  if el_in_str e then
    if el_esc e then set_elem s (MkElem (el_buf e) (el_kind e) (el_depth e) true false)
    else if Ascii.eqb b backslash then set_elem s (MkElem (el_buf e) (el_kind e) (el_depth e) true true)
    else if Ascii.eqb b quote then set_elem s (MkElem (el_buf e) (el_kind e) (el_depth e) false false)
    else s
  else if Ascii.eqb b quote then set_elem s (MkElem (el_buf e) (el_kind e) (el_depth e) true (el_esc e))
  else if Ascii.eqb b "{" || Ascii.eqb b "[" then
    set_elem s (MkElem (el_buf e) (el_kind e) (u32_wrap (el_depth e + 1)) false (el_esc e))
  else if Ascii.eqb b "}" || Ascii.eqb b "]" then
    let d := u32_wrap (el_depth e - 1) in
    let s := set_elem s (MkElem (el_buf e) (el_kind e) d false (el_esc e)) in
    if (d =? 0)%Z then goto (finish_elem s) ArrExpectComma else s
  else s.

Definition read_elem (s : SearchHitsScanner) (b : byte) : SearchHitsScanner * Flow :=
  let e := elem s in
  let pushed := el_buf e ++ [b] in
  match el_kind e with
  | KindUnknown =>
      (set_elem s
         (if Ascii.eqb b quote then MkElem pushed KindStr (el_depth e) true (el_esc e)
          else if Ascii.eqb b "{" || Ascii.eqb b "[" then MkElem pushed KindStruct 1 (el_in_str e) (el_esc e)
          else MkElem pushed KindScalar (el_depth e) (el_in_str e) (el_esc e)), Consume)
  | KindStr =>
      let s := set_elem s (MkElem pushed KindStr (el_depth e) (el_in_str e) (el_esc e)) in
      (if el_esc e then set_elem s (MkElem pushed KindStr (el_depth e) (el_in_str e) false)
       else if Ascii.eqb b backslash then set_elem s (MkElem pushed KindStr (el_depth e) (el_in_str e) true)
       else if Ascii.eqb b quote then goto (finish_elem s) ArrExpectComma
       else s, Consume)
  | KindStruct =>
      (read_struct_elem_byte (set_elem s (MkElem pushed KindStruct (el_depth e) (el_in_str e) (el_esc e))) b, Consume)
  | KindScalar =>
      if is_ws b || Ascii.eqb b "," || Ascii.eqb b "]" then (goto (finish_elem s) ArrExpectComma, Redo)
      else (set_elem s (MkElem pushed KindScalar (el_depth e) (el_in_str e) (el_esc e)), Consume)
  end.

Definition at_arr_expect_comma (s : SearchHitsScanner) (b : byte) : SearchHitsScanner * Flow :=
  let s := push s [b] in
  (if Ascii.eqb b "," then goto s ArrExpectElem
   else if negb (is_ws b) then goto s Passthrough
   else s, Consume).

Definition dispatch (s : SearchHitsScanner) (b : byte) : SearchHitsScanner * Flow :=
  match phase s with
  | SeekRoot => at_seek_root s b
  | ObjExpectKey => at_obj_expect_key s b
  | ObjReadKey => at_obj_read_key s b
  | ObjExpectColon => at_obj_expect_colon s b
  | ObjExpectValue => at_obj_expect_value s b
  | SkipValue => at_skip_value s b
  | ObjExpectComma => at_obj_expect_comma s b
  | ArrExpectElem => at_arr_expect_elem s b
  | ArrReadElem => read_elem s b
  | ArrExpectComma => at_arr_expect_comma s b
  | Passthrough => (push s [b], Consume)
  end.

(** The loop of [step], [None] if it has not consumed the byte within the fuel. *)
Fixpoint step_loop (fuel : nat) (s : SearchHitsScanner) (b : byte) : option SearchHitsScanner :=
  match fuel with
  | 0 => None
  | S fuel =>
      match dispatch s b with
      | (s, Consume) => Some s
      | (s, Redo) => step_loop fuel s b
      end
  end.
(** Two turns are enough, whatever the state ([step_loop_ends]). *)
Definition step (s : SearchHitsScanner) (b : byte) : SearchHitsScanner := default s (step_loop 2 s b).

Fixpoint feed_loop (s : SearchHitsScanner) (chunk : bytes) : SearchHitsScanner :=
  match chunk with
  | [] => s
  | b :: rest =>
      match phase s with
      | Passthrough => push s chunk
      | _ => feed_loop (step s b) rest
      end
  end.
(** [std::mem::take(&mut self.out)]. *)
Definition feed (s : SearchHitsScanner) (chunk : bytes) : bytes * SearchHitsScanner :=
  let s := feed_loop s chunk in (out s, set_out s []).
Definition finish (s : SearchHitsScanner) : bytes * SearchHitsScanner := (out s, set_out s []).

(** ** The body stream ([search_stream.rs])

    What the upstream body yields: data, trailers, or a failure of the connection. *)
Inductive BodyFrame (E : Type) : Type := Data (b : bytes) | Trailers | BodyFailed (e : E).
#[global] Arguments Data {E} b.
#[global] Arguments Trailers {E}.
#[global] Arguments BodyFailed {E} e.
Inductive Stage (E : Type) : Type := Active (frames : list (BodyFrame E)) (scanner : SearchHitsScanner) | Finished.
#[global] Arguments Active {E} frames scanner.
#[global] Arguments Finished {E}.

(** The loop of [next_frame] over the frames left. *)
Fixpoint next_active {E} (frames : list (BodyFrame E)) (s : SearchHitsScanner) : option (Result bytes E * Stage E) :=
  match frames with
  | Data data :: frames =>
      let '(o, s) := feed s data in
      match o with [] => next_active frames s | _ => Some (Ok o, Active frames s) end
  | Trailers :: frames => next_active frames s
  | BodyFailed e :: _ => Some (Err e, Finished)
  | [] => match (finish s).1 with [] => None | tail => Some (Ok tail, Finished) end
  end.
Definition next_frame {E} (stage : Stage E) : option (Result bytes E * Stage E) :=
  match stage with Active frames s => next_active frames s | Finished => None end.
(** [stream::unfold], for at most [fuel] frames. *)
Fixpoint unfold_stream {E} (fuel : nat) (stage : Stage E) : list (Result bytes E) :=
  match fuel with
  | 0 => []
  | S fuel => match next_frame stage with None => [] | Some (o, stage) => o :: unfold_stream fuel stage end
  end.
(** Every frame out uses up one frame in, the tail apart ([unfold_stream_ends]). *)
Definition shape_hits_stream {E} (upstream : list (BodyFrame E)) (h : HitShaper) : list (Result bytes E) :=
  unfold_stream (S (S (length upstream))) (Active upstream (scanner_new h)).

(** ** The loops *)
Lemma step_loop_ends s b : is_Some (step_loop 2 s b).
Proof.
  cbn [step_loop]. destruct (dispatch s b) as [s1 []] eqn:H1; [by eexists|].
  assert (Hp : phase s1 = ObjExpectComma \/ phase s1 = ArrExpectComma
    \/ (phase s1 = ArrReadElem /\ el_kind (elem s1) = KindUnknown)).
  { unfold dispatch, at_seek_root, at_obj_expect_key, at_obj_read_key, at_obj_expect_colon, at_obj_expect_value,
      at_skip_value, at_obj_expect_comma, at_arr_expect_elem, read_elem, at_arr_expect_comma in H1.
    repeat case_match; simplify_eq; auto. }
  unfold dispatch. destruct Hp as [->|[->|[-> Hk]]]; [by eexists..|].
  unfold read_elem. rewrite Hk. by eexists.
Qed.

Definition run (s : SearchHitsScanner) (t : bytes) : SearchHitsScanner := foldl step s t.
Lemma run_cons s b t : run s (b :: t) = run (step s b) t.
Proof. done. Qed.
Lemma run_app s a b : run s (a ++ b) = run (run s a) b.
Proof. apply foldl_app. Qed.
Lemma run_passthrough s t : phase s = Passthrough -> run s t = push s t.
Proof.
  revert s. induction t as [|b t IH]; intros s Hs.
  - destruct s; unfold push; cbn. by rewrite app_nil_r.
  - assert (Hb : step s b = push s [b]) by (unfold step; cbn; unfold dispatch; by rewrite Hs).
    rewrite run_cons, Hb, IH by done.
    unfold push; cbn. by rewrite <- app_assoc.
Qed.
Lemma feed_loop_run s t : feed_loop s t = run s t.
Proof.
  revert s. induction t as [|b t IH]; intros s; [done|]. cbn [feed_loop].
  destruct (phase s) eqn:Hs; try apply IH. by rewrite run_passthrough.
Qed.

(** What has been emitted does not influence what follows. *)
Definition emitted (o : bytes) (s : SearchHitsScanner) : SearchHitsScanner := set_out s (o ++ out s).
Lemma dispatch_emitted o s b :
  dispatch (emitted o s) b = (emitted o (dispatch s b).1, (dispatch s b).2).
Proof.
  destruct s as [h p l kh kb ke [d i e sc] [eb ek ed ei ee] ot].
  unfold dispatch, emitted, set_out; cbn [phase].
  destruct p; unfold at_seek_root, at_obj_expect_key, at_obj_read_key, at_obj_expect_colon, at_obj_expect_value,
      at_skip_value, at_obj_expect_comma, at_arr_expect_elem, read_elem, read_struct_elem_byte, at_arr_expect_comma; cbn;
    repeat case_match; cbn; unfold goto, push, set_skip, set_elem, finish_elem; cbn;
    by rewrite <- ?app_assoc.
Qed.
Lemma step_emitted o s b : step (emitted o s) b = emitted o (step s b).
Proof.
  unfold step. cbn [step_loop]. rewrite dispatch_emitted.
  destruct (dispatch s b) as [s1 []]; cbn [fst snd]; [done|]. rewrite dispatch_emitted.
  by destruct (dispatch s1 b) as [s2 []].
Qed.
Lemma run_emitted o s t : run (emitted o s) t = emitted o (run s t).
Proof. revert s. induction t as [|b t IH]; intros s; [done|]. by rewrite !run_cons, step_emitted, IH. Qed.

(** What the upstream delivered before it ended or failed, and how it ended. *)
Fixpoint delivered {E} (frames : list (BodyFrame E)) : bytes :=
  match frames with
  | Data b :: frames => b ++ delivered frames
  | Trailers :: frames => delivered frames
  | BodyFailed _ :: _ | [] => []
  end.
Fixpoint failure {E} (frames : list (BodyFrame E)) : list (Result bytes E) :=
  match frames with
  | Data _ :: frames | Trailers :: frames => failure frames
  | BodyFailed e :: _ => [Err e]
  | [] => []
  end.
(** The same of what the client gets. *)
Definition payload {E} (frames : list (Result bytes E)) : bytes :=
  mjoin (omap (fun f => match f with Ok b => Some b | Err _ => None end) frames).
Definition errors {E} (frames : list (Result bytes E)) : list (Result bytes E) := filter (fun f => is_ok f = false) frames.

Lemma feed_split s t u :
  out (run s (t ++ u)) = (feed s t).1 ++ out (run (feed s t).2 u) /\ out (feed s t).2 = [].
Proof.
  split; [|done]. cbn. rewrite feed_loop_run, run_app.
  assert (He : run s t = emitted (out (run s t)) (set_out (run s t) [])).
  { unfold emitted, set_out; cbn. rewrite app_nil_r. by destruct (run s t). }
  rewrite He at 1. by rewrite run_emitted.
Qed.

Lemma unfold_stream_run {E} fuel (frames : list (BodyFrame E)) s :
  length frames + 2 <= fuel -> out s = [] ->
  payload (unfold_stream fuel (Active frames s)) = out (run s (delivered frames))
  /\ errors (unfold_stream fuel (Active frames s)) = failure frames
  /\ unfold_stream (S fuel) (Active frames s) = unfold_stream fuel (Active frames s).
Proof.
  assert (Hf : forall fuel, @unfold_stream E fuel Finished = []) by (by intros []).
  revert fuel s. induction frames as [|[t| |e] frames IH]; intros [|fuel] s Hl Ho; cbn [length] in Hl; try lia;
    cbn [unfold_stream next_frame next_active delivered failure].
  - cbn [finish fst]. by rewrite Ho.
  - destruct (feed_split s t (delivered frames)) as [-> Hs]. destruct (feed s t) as [o s1]; cbn [fst snd] in *.
    destruct o as [|c o].
    + destruct (IH (S fuel) s1) as (H1 & H2 & H3); [lia|done|]. rewrite <- H1, <- H2. split_and!; [done..|exact H3].
    + destruct (IH fuel s1) as (H1 & H2 & H3); [lia|done|]. rewrite <- H1, <- H2. split_and!; [done..|].
      f_equal. exact H3.
  - destruct (IH (S fuel) s) as (H1 & H2 & H3); [lia|done|]. split_and!; [exact H1|exact H2|exact H3].
  - rewrite !Hf. cbn [run foldl]. by rewrite Ho.
Qed.

(** More fuel gives no more frames. *)
Lemma unfold_stream_ends {E} (frames : list (BodyFrame E)) h fuel :
  length frames + 2 <= fuel -> unfold_stream fuel (Active frames (scanner_new h)) = shape_hits_stream frames h.
Proof.
  intros Hf. induction Hf as [|fuel Hf IH].
  - unfold shape_hits_stream. by replace (length frames + 2) with (S (S (length frames))) by lia.
  - rewrite <- IH. by apply unfold_stream_run.
Qed.
Lemma shape_hits_stream_run {E} (frames : list (BodyFrame E)) h :
  payload (shape_hits_stream frames h) = out (run (scanner_new h) (delivered frames))
  /\ errors (shape_hits_stream frames h) = failure frames.
Proof.
  unfold shape_hits_stream.
  destruct (unfold_stream_run (S (S (length frames))) frames (scanner_new h)) as (H1 & H2 & _); [lia|done|done].
Qed.
End Scan.

(** ** Nesting

    Both trackers, the one that passes a value over and the one that frames an element,
    follow the same three registers. *)
Record Nest : Type := MkNest { n_depth : Z; n_str : bool; n_esc : bool }.
Definition nest_step (n : Nest) (b : byte) : Nest :=
  if n_str n then
    if n_esc n then MkNest (n_depth n) true false
    else if Ascii.eqb b backslash then MkNest (n_depth n) true true
    else if Ascii.eqb b quote then MkNest (n_depth n) false false
    else n
  else if Ascii.eqb b quote then MkNest (n_depth n) true (n_esc n)
  else if Ascii.eqb b "{" || Ascii.eqb b "[" then MkNest (u32_wrap (n_depth n + 1)) false (n_esc n)
  else if Ascii.eqb b "}" || Ascii.eqb b "]" then MkNest (u32_wrap (n_depth n - 1)) false (n_esc n)
  else n.
Definition closed (n : Nest) : bool := (n_depth n =? 0)%Z && negb (n_str n).
(** The registers after [t], if nothing in [t] closes the value. *)
Fixpoint nest_run (n : Nest) (t : bytes) : option Nest :=
  match t with
  | [] => Some n
  | b :: t => if closed (nest_step n b) then None else nest_run (nest_step n b) t
  end.
Definition inside (d : Z) : Nest := MkNest d false false.

Lemma nest_run_app n a b : nest_run n (a ++ b) = n' ← nest_run n a; nest_run n' b.
Proof. revert n. induction a as [|c a IH]; intros n; cbn; [done|]. destruct (closed _); [done|apply IH]. Qed.
Lemma nest_run_stay n t : Forall (fun b => nest_step n b = n) t -> closed n = false -> nest_run n t = Some n.
Proof.
  intros Ht Hn. induction Ht as [|b t Hb Ht IH]; cbn; [done|]. by rewrite Hb, Hn.
Qed.

(** Bytes that are neither quotes, backslashes nor brackets. *)
Definition plain_byte (b : byte) : bool :=
  negb (existsb (Ascii.eqb b) [quote; backslash; "{"%char; "}"%char; "["%char; "]"%char]).
Lemma plain_stays n b : plain_byte b = true -> n_esc n = false -> nest_step n b = n.
Proof.
  unfold plain_byte. intros H%negb_true_iff Hn. unfold existsb in H. rewrite !orb_false_iff in H.
  destruct H as (Hq & Hbs & Ho & Hc & Ho' & Hc' & _). destruct n as [d i e]; cbn in *. subst.
  unfold nest_step; cbn. rewrite Hq, Hbs, Ho, Hc, Ho', Hc'. by destruct i.
Qed.
Lemma plain_run d t : (0 < d)%Z -> Forall (fun b => plain_byte b = true) t -> nest_run (inside d) t = Some (inside d).
Proof.
  intros Hd Ht. apply nest_run_stay.
  - eapply Forall_impl; [exact Ht|]. intros b Hb. by apply plain_stays.
  - unfold closed; cbn. by rewrite (proj2 (Z.eqb_neq d 0)) by lia.
Qed.
Lemma ws_plain w : ws w -> Forall (fun b => plain_byte b = true) w.
Proof.
  intros H. eapply Forall_impl; [exact H|]. intros b Hb. unfold is_json_ws in Hb.
  rewrite !orb_true_iff, !Ascii.eqb_eq in Hb. by destruct Hb as [[[->| ->]| ->]| ->].
Qed.
Lemma digit_plain c : is_ascii_digit c = true -> plain_byte c = true.
Proof. by destruct c as [[] [] [] [] [] [] [] []]. Qed.
Lemma JNumber_plain t : JNumber t -> Forall (fun b => plain_byte b = true) t.
Proof.
  assert (Hd : forall ds, all_digits ds -> Forall (fun b => plain_byte b = true) ds)
    by (intros ds H; eapply Forall_impl; [exact H|apply digit_plain]).
  intros (sign & int & frac & exp & -> & Hs & Hi & Hf & He). rewrite !Forall_app. repeat split.
  - destruct Hs as [->| ->]; by repeat constructor.
  - destruct Hi as [->|(c & ds & -> & _ & Hds)]; [by repeat constructor|by apply Hd].
  - destruct Hf as [->|(ds & -> & Hds & _)]; [constructor|]. constructor; [done|by apply Hd].
  - destruct He as [->|(e & sg & ds & -> & He & Hsg & Hds & _)]; [constructor|].
    constructor; [by destruct He as [->| ->]|]. apply Forall_app. split; [|by apply Hd].
    destruct Hsg as [->|[->| ->]]; by repeat constructor.
Qed.

Lemma closed_in_str d e : closed (MkNest d true e) = false.
Proof. apply andb_false_r. Qed.
Lemma closed_inside d : (0 < d)%Z -> closed (inside d) = false.
Proof. intros Hd. unfold closed; cbn. by rewrite (proj2 (Z.eqb_neq d 0)) by lia. Qed.
Lemma nest_escape d c t :
  nest_run (MkNest d true false) (backslash :: c :: t) = nest_run (MkNest d true false) t.
Proof.
  cbn [nest_run]. change (nest_step (MkNest d true false) backslash) with (MkNest d true true).
  rewrite closed_in_str. change (nest_step (MkNest d true true) c) with (MkNest d true false).
  by rewrite closed_in_str.
Qed.

Lemma nest_str_body esc d t : JBody esc t -> nest_run (MkNest d true false) t = Some (MkNest d true false).
Proof.
  induction 1 as [|c t Hc Ht IH|c t _ _ Ht IH|h ds t Hh Hl Ht IH].
  - done.
  - unfold is_string_boundary in Hc. apply orb_false_iff in Hc as [Hc _].
    apply orb_false_iff in Hc as [Hq Hb]. cbn [nest_run].
    assert (Hs : nest_step (MkNest d true false) c = MkNest d true false) by (unfold nest_step; cbn; by rewrite Hb, Hq).
    by rewrite Hs, closed_in_str.
  - by rewrite nest_escape.
  - rewrite nest_escape, nest_run_app, nest_run_stay; [done| |apply closed_in_str].
    clear -Hh. induction Hh as [|c v h ds Hc Hh IH]; constructor; [|done].
    apply plain_stays; [|done]. revert Hc. by destruct c as [[] [] [] [] [] [] [] []].
Qed.
Lemma nest_string esc d t : (0 < d)%Z -> JString esc t -> nest_run (inside d) t = Some (inside d).
Proof.
  intros Hd (bd & Hb & ->). cbn [nest_run]. change (nest_step (inside d) quote) with (MkNest d true false).
  rewrite closed_in_str, nest_run_app, (nest_str_body _ _ _ Hb). cbn [mbind option_bind nest_run].
  change (nest_step (MkNest d true false) quote) with (inside d). by rewrite closed_inside.
Qed.

(** A bracket and its partner around something balanced. *)
Lemma nest_brackets d o c t :
  (0 < d)%Z -> (d + 1 < 4294967296)%Z -> o = "{"%char \/ o = "["%char -> c = "}"%char \/ c = "]"%char ->
  nest_run (inside (d + 1)) t = Some (inside (d + 1)) -> nest_run (inside d) (o :: t ++ [c]) = Some (inside d).
Proof.
  intros Hd Hm Ho Hc Ht.
  assert (H1 : nest_step (inside d) o = inside (d + 1)).
  { unfold nest_step, u32_wrap. destruct Ho as [->| ->]; cbn; by rewrite Z.mod_small by lia. }
  assert (H2 : nest_step (inside (d + 1)) c = inside d).
  { unfold nest_step, u32_wrap. destruct Hc as [->| ->]; cbn; rewrite Z.mod_small by lia;
      by replace (d + 1 - 1)%Z with d by lia. }
  cbn [nest_run]. rewrite H1, closed_inside, nest_run_app, Ht by lia.
  cbn [mbind option_bind nest_run]. by rewrite H2, closed_inside.
Qed.

Definition fits (d : Z) (t : bytes) : Prop := (0 < d)%Z /\ (d + Z.of_nat (length t) < 4294967296)%Z.
Definition balanced (t : bytes) : Prop := forall d, fits d t -> nest_run (inside d) t = Some (inside d).
Lemma balanced_app a b : balanced a -> balanced b -> balanced (a ++ b).
Proof.
  intros Ha Hb d [Hd Hf]. rewrite length_app in Hf. rewrite nest_run_app, Ha by (split; lia).
  cbn. apply Hb. split; lia.
Qed.
Lemma balanced_plain t : Forall (fun b => plain_byte b = true) t -> balanced t.
Proof. intros Ht d [Hd _]. by apply plain_run. Qed.
Lemma balanced_ws w : ws w -> balanced w.
Proof. intros H. by apply balanced_plain, ws_plain. Qed.
Lemma balanced_cons b t : plain_byte b = true -> balanced t -> balanced (b :: t).
Proof. intros Hb Ht. apply (balanced_app [b]); [|done]. apply balanced_plain. by repeat constructor. Qed.
Lemma balanced_brackets o c t :
  o = "{"%char \/ o = "["%char -> c = "}"%char \/ c = "]"%char -> balanced t -> balanced (o :: t ++ [c]).
Proof.
  intros Ho Hc Ht d [Hd Hf]. cbn in Hf. rewrite length_app in Hf. cbn in Hf.
  apply nest_brackets; [lia|lia|done|done|]. apply Ht. split; lia.
Qed.

Lemma values_balanced esc :
  (forall t, JVal esc t -> balanced t) /\ (forall t, JMembers esc t -> balanced t)
  /\ (forall t, JMember esc t -> balanced t) /\ (forall t, JElements esc t -> balanced t).
Proof.
  apply (J_mutind esc (fun t _ => balanced t) (fun t _ => balanced t) (fun t _ => balanced t) (fun t _ => balanced t)).
  - intros t Ht d [Hd _]. by eapply nest_string.
  - intros t Ht. by apply balanced_plain, JNumber_plain.
  - apply balanced_plain. by repeat constructor.
  - apply balanced_plain. by repeat constructor.
  - apply balanced_plain. by repeat constructor.
  - intros w Hw. apply balanced_brackets; [by left|by left|by apply balanced_ws].
  - intros t _ Ht. apply balanced_brackets; [by left|by left|done].
  - intros w Hw. apply balanced_brackets; [by right|by right|by apply balanced_ws].
  - intros t _ Ht. apply balanced_brackets; [by right|by right|done].
  - done.
  - intros m t _ Hm _ Ht. apply balanced_app; [done|]. by apply balanced_cons.
  - intros w1 k w2 w3 v w4 H1 Hk H2 H3 _ Hv H4.
    repeat (apply balanced_app || apply balanced_cons); try (by apply balanced_ws); try done.
    intros d [Hd _]. by eapply nest_string.
  - intros w1 v w2 H1 _ Hv H2. repeat apply balanced_app; try (by apply balanced_ws); done.
  - intros w1 v w2 t H1 _ Hv H2 _ Ht.
    repeat (apply balanced_app || apply balanced_cons); try (by apply balanced_ws); done.
Qed.

(** ** How a value begins and ends *)
Definition opens (n : Nest) : Prop := (n_depth n = 0%Z /\ n_str n = true) \/ (0 < n_depth n)%Z.
Definition nest_of (b : byte) : Nest := if Ascii.eqb b quote then MkNest 0 true false else inside 1.
Definition opening (b : byte) : Prop := b = quote \/ b = "{"%char \/ b = "["%char.
Definition closing (b : byte) : Prop := b = quote \/ b = "}"%char \/ b = "]"%char.

(** A value with delimiters of its own, and one that ends where something else begins. *)
Definition Framed (t : bytes) : Prop :=
  exists b mid e n, t = b :: mid ++ [e] /\ opening b /\ closing e
    /\ nest_run (nest_of b) mid = Some n /\ closed (nest_step n e) = true.
Definition bare_byte (b : byte) : bool := plain_byte b && negb (is_ws b) && negb (Ascii.eqb b ",").
Definition Bare (t : bytes) : Prop := t <> [] /\ Forall (fun b => bare_byte b = true) t.

Lemma digit_bare c : is_ascii_digit c = true -> bare_byte c = true.
Proof. by destruct c as [[] [] [] [] [] [] [] []]. Qed.
Lemma JNumber_bare t : JNumber t -> Bare t.
Proof.
  assert (Hd : forall ds, all_digits ds -> Forall (fun b => bare_byte b = true) ds)
    by (intros ds H; eapply Forall_impl; [exact H|apply digit_bare]).
  intros Ht. split.
  { apply JNumber_start in Ht as (c & t' & -> & _). done. }
  destruct Ht as (sign & int & frac & exp & -> & Hs & Hi & Hf & He). rewrite !Forall_app. repeat split.
  - destruct Hs as [->| ->]; by repeat constructor.
  - destruct Hi as [->|(c & ds & -> & _ & Hds)]; [by repeat constructor|by apply Hd].
  - destruct Hf as [->|(ds & -> & Hds & _)]; [constructor|]. constructor; [done|by apply Hd].
  - destruct He as [->|(e & sg & ds & -> & He & Hsg & Hds & _)]; [constructor|].
    constructor; [by destruct He as [->| ->]|]. apply Forall_app. split; [|by apply Hd].
    destruct Hsg as [->|[->| ->]]; by repeat constructor.
Qed.

Lemma framed_string esc t : JString esc t -> Framed t.
Proof.
  intros (bd & Hb & ->). exists quote, bd, quote, (MkNest 0 true false).
  split; [done|]. split; [by left|]. split; [by left|]. split; [|done]. by apply (nest_str_body esc).
Qed.
Lemma framed_brackets o c t :
  o = "{"%char \/ o = "["%char -> c = "}"%char \/ c = "]"%char -> balanced t ->
  (Z.of_nat (length (o :: t ++ [c])) < 4294967296)%Z -> Framed (o :: t ++ [c]).
Proof.
  intros Ho Hc Ht Hl. cbn in Hl. rewrite length_app in Hl. cbn in Hl. exists o, t, c, (inside 1).
  split; [done|]. split; [by right|]. split; [by right|]. split.
  - replace (nest_of o) with (inside 1) by (by destruct Ho as [->| ->]). apply Ht. split; lia.
  - by destruct Hc as [->| ->].
Qed.
Lemma value_shape esc t : JVal esc t -> (Z.of_nat (length t) < 4294967296)%Z -> Framed t \/ Bare t.
Proof.
  destruct (values_balanced esc) as (_ & Hm & _ & He).
  intros Ht Hl. destruct Ht as [t Ht|t Ht| | | |w Hw|t Ht|w Hw|t Ht].
  - left. by eapply framed_string.
  - right. by apply JNumber_bare.
  - right. split; [done|by repeat constructor].
  - right. split; [done|by repeat constructor].
  - right. split; [done|by repeat constructor].
  - left. apply framed_brackets; [by left|by left|by apply balanced_ws|done].
  - left. apply framed_brackets; [by left|by left|by apply Hm|done].
  - left. apply framed_brackets; [by right|by right|by apply balanced_ws|done].
  - left. apply framed_brackets; [by right|by right|by apply He|done].
Qed.

Lemma opens_step n b : opens n -> closed (nest_step n b) = false -> (0 <= n_depth (nest_step n b))%Z -> opens (nest_step n b).
Proof.
  unfold opens, closed. intros Hn Hc Hd. apply andb_false_iff in Hc as [Hc|Hc].
  - right. apply Z.eqb_neq in Hc. lia.
  - apply negb_false_iff in Hc. destruct (Z.eq_dec (n_depth (nest_step n b)) 0); [by left|right; lia].
Qed.
Lemma nest_step_nonneg n b : opens n -> (0 <= n_depth (nest_step n b))%Z.
Proof.
  intros Hn. assert (0 <= n_depth n)%Z by (destruct Hn as [[? _]|?]; lia).
  unfold nest_step, u32_wrap. repeat case_match; cbn; try lia; apply Z.mod_pos_bound; lia.
Qed.

(** Two texts that differ in how they are cut. *)
Ltac same_text := by repeat (rewrite <- ?app_assoc; cbn [app]).
Ltac same_run := rewrite <- ?run_app; f_equal; same_text.

Section Framing.
Context {Sd : Serde} {Ss : SerdeString} (h : HitShaper).
#[local] Arguments step : simpl never.
#[local] Arguments is_ws : simpl never.

(** The registers that matter between tokens. *)
Record St (p : Phase) (lv : Z) (kh : bool) (o : bytes) (s : SearchHitsScanner) : Prop := {
  st_phase : phase s = p;
  st_level : level s = lv;
  st_hits : key_is_hits s = kh;
  st_out : out s = o;
  st_shaper : shaper s = h
}.
Definition skip_nest (k : Skip) : Nest := MkNest (sk_depth k) (sk_in_str k) (sk_esc k).

Lemma skip_step lv kh o s b :
  St SkipValue lv kh o s -> opens (skip_nest (skip s)) ->
  (closed (nest_step (skip_nest (skip s)) b) = true -> closing b) ->
  St (if closed (nest_step (skip_nest (skip s)) b) then ObjExpectComma else SkipValue) lv kh (o ++ [b]) (step s b)
  /\ skip_nest (skip (step s b)) = nest_step (skip_nest (skip s)) b.
Proof.
  intros [Hp Hl Hk Ho Hs] Hop Hcl. unfold step. cbn [step_loop]. unfold dispatch. rewrite Hp.
  destruct s as [sh p l k kb ke [d i e sc] el ot]; cbn [phase level key_is_hits out shaper skip] in *. subst.
  unfold at_skip_value, nest_step, closed, opens in *; cbn [skip_nest skip sk_depth sk_in_str sk_esc n_depth n_str n_esc sk_scalar] in *.
  destruct i; cbn [negb].
  - destruct e; [|destruct (Ascii.eqb b backslash) eqn:Hb; [|destruct (Ascii.eqb b quote) eqn:Hq]]; cbn;
      rewrite ?andb_false_r, ?andb_true_r; try (destruct (d =? 0)%Z); done.
  - assert (Hd : (0 <? d)%Z = true) by (apply Z.ltb_lt; destruct Hop as [[_ ?]|?]; [done|lia]). rewrite Hd.
    destruct (Ascii.eqb b quote) eqn:Hq; cbn; [by rewrite andb_false_r|].
    destruct (Ascii.eqb b "{" || Ascii.eqb b "[") eqn:Hop'; cbn in *.
    + rewrite andb_true_r in *. destruct (u32_wrap (d + 1) =? 0)%Z eqn:Hw; [|done]. exfalso.
      specialize (Hcl eq_refl). apply orb_true_iff in Hop' as [->%Ascii.eqb_eq| ->%Ascii.eqb_eq];
        by destruct Hcl as [?|[?|?]].
    + destruct (Ascii.eqb b "}" || Ascii.eqb b "]"); cbn; rewrite andb_true_r.
      * by destruct (u32_wrap (d - 1) =? 0)%Z.
      * apply Z.ltb_lt in Hd. by rewrite (proj2 (Z.eqb_neq d 0)) by lia.
Qed.

Lemma skip_run lv kh o s t n :
  St SkipValue lv kh o s -> opens (skip_nest (skip s)) -> nest_run (skip_nest (skip s)) t = Some n ->
  St SkipValue lv kh (o ++ t) (run s t) /\ skip_nest (skip (run s t)) = n /\ opens n.
Proof.
  revert s o. induction t as [|b t IH]; intros s o Hs Hop Hr.
  - injection Hr as <-. by rewrite app_nil_r.
  - cbn [nest_run] in Hr. destruct (closed _) eqn:Hc; [done|].
    destruct (skip_step lv kh o s b Hs Hop) as [Hs' Hn']; [congruence|]. rewrite Hc in Hs'.
    rewrite run_cons. change (b :: t) with ([b] ++ t). rewrite app_assoc. apply IH; [done| |by rewrite Hn'].
    rewrite Hn'. apply opens_step; [done|done|by apply nest_step_nonneg].
Qed.

(** The element being framed, once its kind is known: nothing is emitted until it closes. *)
Definition elem_nest (e : Elem) : Nest := MkNest (el_depth e) (el_in_str e) (el_esc e).
Definition framing (e : Elem) : Prop :=
  (el_kind e = KindStr /\ el_depth e = 0%Z /\ el_in_str e = true)
  \/ (el_kind e = KindStruct /\ (0 < el_depth e)%Z).
Lemma framing_opens e : framing e -> opens (elem_nest e).
Proof. intros [(_ & ? & ?)|[_ ?]]; [by left|by right]. Qed.

Lemma elem_step lv kh o s b :
  St ArrReadElem lv kh o s -> framing (elem s) ->
  closed (nest_step (elem_nest (elem s)) b) = false ->
  St ArrReadElem lv kh o (step s b) /\ framing (elem (step s b))
  /\ elem_nest (elem (step s b)) = nest_step (elem_nest (elem s)) b
  /\ el_buf (elem (step s b)) = el_buf (elem s) ++ [b].
Proof.
  intros [Hp Hl Hk Ho Hs] Hf Hc. unfold step. cbn [step_loop]. unfold dispatch. rewrite Hp.
  pose proof (nest_step_nonneg _ b (framing_opens _ Hf)) as Hnn.
  destruct s as [sh p l k kb ke sk [eb ek d i e] ot]; cbn [phase level key_is_hits out shaper elem] in *. subst.
  unfold read_elem, read_struct_elem_byte, framing, nest_step, closed in *;
    cbn [elem_nest elem el_buf el_kind el_depth el_in_str el_esc n_depth n_str n_esc] in *.
  destruct Hf as [(-> & -> & ->)|[-> Hd]].
  - destruct e; [|destruct (Ascii.eqb b backslash) eqn:Hb; [|destruct (Ascii.eqb b quote) eqn:Hq]]; cbn in *;
      try done; (split; [done|split; [by left|done]]).
  - destruct i; cbn in *.
    + destruct e; [|destruct (Ascii.eqb b backslash) eqn:Hb; [|destruct (Ascii.eqb b quote) eqn:Hq]]; cbn in *;
        (split; [done|split; [by right|done]]).
    + destruct (Ascii.eqb b quote) eqn:Hq; cbn in *; [split; [done|split; [by right|done]]|].
      destruct (Ascii.eqb b "{" || Ascii.eqb b "["); cbn in *.
      * rewrite andb_true_r in Hc. apply Z.eqb_neq in Hc. split; [done|]. split; [right; split; [done|lia]|done].
      * destruct (Ascii.eqb b "}" || Ascii.eqb b "]"); cbn in *; rewrite andb_true_r in Hc; rewrite ?Hc.
        -- cbn. apply Z.eqb_neq in Hc. split; [done|]. split; [right; split; [done|lia]|done].
        -- split; [done|]. split; [by right|done].
Qed.

Lemma elem_run lv kh o s t n :
  St ArrReadElem lv kh o s -> framing (elem s) -> nest_run (elem_nest (elem s)) t = Some n ->
  St ArrReadElem lv kh o (run s t) /\ framing (elem (run s t))
  /\ elem_nest (elem (run s t)) = n /\ el_buf (elem (run s t)) = el_buf (elem s) ++ t.
Proof.
  revert s. induction t as [|b t IH]; intros s Hs Hf Hr.
  - injection Hr as <-. by rewrite app_nil_r.
  - cbn [nest_run] in Hr. destruct (closed _) eqn:Hc; [done|].
    destruct (elem_step lv kh o s b Hs Hf Hc) as (Hs' & Hf' & Hn' & Hb').
    rewrite run_cons. rewrite <- Hn' in Hr.
    destruct (IH (step s b) Hs' Hf' Hr) as (H1 & H2 & H3 & H4). repeat split; try done; try apply H1.
    by rewrite H4, Hb', <- app_assoc.
Qed.
(** The byte that closes it: the shaped element is emitted. *)
Lemma elem_close lv kh o s b :
  St ArrReadElem lv kh o s -> framing (elem s) -> closing b ->
  closed (nest_step (elem_nest (elem s)) b) = true ->
  St ArrExpectComma lv kh (o ++ transform h (el_buf (elem s) ++ [b])) (step s b).
Proof.
  intros [Hp Hl Hk Ho Hs] Hf Hcl Hc. unfold step. cbn [step_loop]. unfold dispatch. rewrite Hp.
  destruct s as [sh p l k kb ke sk [eb ek d i e] ot]; cbn [phase level key_is_hits out shaper elem] in *. subst.
  unfold read_elem, read_struct_elem_byte, framing, nest_step, closed in *;
    cbn [elem_nest elem el_buf el_kind el_depth el_in_str el_esc n_depth n_str n_esc] in *.
  destruct Hf as [(-> & -> & ->)|[-> Hd]].
  - destruct e; [done|]. destruct (Ascii.eqb b backslash) eqn:Hb; [done|].
    by destruct (Ascii.eqb b quote).
  - apply andb_true_iff in Hc as [Hc Hi]. destruct i; cbn in *.
    + destruct e, (Ascii.eqb b backslash), (Ascii.eqb b quote); try done; cbn in Hc; apply Z.eqb_eq in Hc; lia.
    + destruct (Ascii.eqb b quote) eqn:Hq; [done|].
      destruct (Ascii.eqb b "{" || Ascii.eqb b "[") eqn:Hop.
      { apply orb_true_iff in Hop as [->%Ascii.eqb_eq| ->%Ascii.eqb_eq]; by destruct Hcl as [?|[?|?]]. }
      destruct (Ascii.eqb b "}" || Ascii.eqb b "]"); cbn in *; [by rewrite Hc|apply Z.eqb_eq in Hc; lia].
Qed.

(** ** White space, keys and members *)
Definition tolerant (p : Phase) : bool :=
  match p with
  | SeekRoot | ObjExpectKey | ObjExpectColon | ObjExpectValue | ObjExpectComma | ArrExpectElem | ArrExpectComma => true
  | _ => false
  end.
Lemma json_ws_is_ws b : is_json_ws b = true ->
  is_ws b = true /\ forall c, c ∈ ["{"%char; quote; ":"%char; ","%char; "]"%char] -> Ascii.eqb b c = false.
Proof.
  unfold is_json_ws. rewrite !orb_true_iff, !Ascii.eqb_eq. intros Hb. split.
  - destruct Hb as [[[->| ->]| ->]| ->]; vm_compute; reflexivity.
  - intros c Hc. rewrite !elem_of_cons in Hc.
    destruct Hc as [->|[->|[->|[->|[->|Hc]]]]]; [..|by apply not_elem_of_nil in Hc];
      destruct Hb as [[[->| ->]| ->]| ->]; vm_compute; reflexivity.
Qed.
Lemma ws_step p lv kh o s b :
  tolerant p = true -> is_json_ws b = true -> St p lv kh o s -> St p lv kh (o ++ [b]) (step s b).
Proof.
  intros Ht Hb [Hp Hl Hk Ho Hs]. apply json_ws_is_ws in Hb as [Hw Hne].
  unfold step. cbn [step_loop]. unfold dispatch. rewrite Hp.
  unfold at_seek_root, at_obj_expect_key, at_obj_expect_colon, at_obj_expect_value, at_obj_expect_comma,
    at_arr_expect_elem, at_arr_expect_comma.
  rewrite (Hne "{"%char), (Hne quote), (Hne ":"%char), (Hne ","%char), (Hne "]"%char), Hw by set_solver.
  destruct p; (discriminate Ht || (repeat split; cbn; congruence)).
Qed.
Lemma ws_run p lv kh o s w :
  tolerant p = true -> ws w -> St p lv kh o s -> St p lv kh (o ++ w) (run s w).
Proof.
  intros Ht Hw. revert o s. induction Hw as [|b w Hb Hw IH]; intros o s Hs; [by rewrite app_nil_r|].
  rewrite run_cons. change (b :: w) with ([b] ++ w). rewrite app_assoc. by apply IH, ws_step.
Qed.

Ltac dispatched Hp := unfold step; cbn [step_loop]; unfold dispatch; rewrite Hp.
Ltac st := repeat split; cbn; congruence.

Lemma read_key_step lv kh o s c :
  St ObjReadKey lv kh o s -> (key_esc s = true \/ Ascii.eqb c quote = false) ->
  St ObjReadKey lv kh (o ++ [c]) (step s c) /\ key_buf (step s c) = key_buf s ++ [c]
  /\ key_esc (step s c) = negb (key_esc s) && Ascii.eqb c backslash.
Proof.
  intros [Hp Hl Hk Ho Hs] Hq. dispatched Hp. unfold at_obj_read_key. cbn [push key_esc].
  destruct (key_esc s) eqn:He; [by st|]. destruct Hq as [?|Hq]; [done|]. rewrite Hq.
  destruct (Ascii.eqb c backslash); st.
Qed.
Lemma read_key_escape lv kh o s c :
  St ObjReadKey lv kh o s -> key_esc s = false ->
  St ObjReadKey lv kh (o ++ [backslash; c]) (run s [backslash; c])
  /\ key_buf (run s [backslash; c]) = key_buf s ++ [backslash; c] /\ key_esc (run s [backslash; c]) = false.
Proof.
  intros Hs He. destruct (read_key_step lv kh o s backslash Hs) as (H1 & H2 & H3); [by right|].
  rewrite He in H3. destruct (read_key_step _ _ _ _ c H1) as (H4 & H5 & H6); [by left|].
  rewrite H3 in H6. rewrite !run_cons. cbn [run foldl]. rewrite H5, H2, H6, <- app_assoc.
  rewrite <- app_assoc in H4. done.
Qed.

Lemma key_body_run esc lv kh o s bd :
  JBody esc bd -> St ObjReadKey lv kh o s -> key_esc s = false ->
  St ObjReadKey lv kh (o ++ bd) (run s bd) /\ key_buf (run s bd) = key_buf s ++ bd /\ key_esc (run s bd) = false.
Proof.
  intros Hbd. revert o s. induction Hbd as [|c t Hc Ht IH|c t _ _ Ht IH|hx ds t Hh Hl Ht IH]; intros o s Hs He.
  - by rewrite !app_nil_r.
  - unfold is_string_boundary in Hc. apply orb_false_iff in Hc as [Hc _]. apply orb_false_iff in Hc as [Hq Hb].
    destruct (read_key_step lv kh o s c Hs) as (H1 & H2 & H3); [by right|]. rewrite He, Hb in H3.
    destruct (IH _ _ H1 H3) as (H4 & H5 & H6). rewrite run_cons, H5, H2, H6, <- app_assoc.
    rewrite <- app_assoc in H4. done.
  - destruct (read_key_escape lv kh o s c Hs He) as (H1 & H2 & H3).
    destruct (IH _ _ H1 H3) as (H4 & H5 & H6). change (backslash :: c :: t) with ([backslash; c] ++ t).
    rewrite run_app, H5, H2, H6, <- app_assoc. rewrite <- app_assoc in H4. done.
  - change (backslash :: "u"%char :: hx ++ t) with ([backslash; "u"%char] ++ hx ++ t). rewrite app_assoc, run_app.
    assert (Hhex : forall o s, St ObjReadKey lv kh o s -> key_esc s = false ->
      St ObjReadKey lv kh (o ++ hx) (run s hx) /\ key_buf (run s hx) = key_buf s ++ hx /\ key_esc (run s hx) = false).
    { clear -Hh. induction Hh as [|c v hx ds Hc Hh IH]; intros o s Hs He; [by rewrite !app_nil_r|].
      assert (Hn : Ascii.eqb c quote = false /\ Ascii.eqb c backslash = false)
        by (revert Hc; by destruct c as [[] [] [] [] [] [] [] []]).
      destruct Hn as [Hq Hb]. destruct (read_key_step lv kh o s c Hs) as (H1 & H2 & H3); [by right|].
      rewrite He, Hb in H3. destruct (IH _ _ H1 H3) as (H4 & H5 & H6).
      rewrite run_cons, H5, H2, H6, <- app_assoc. rewrite <- app_assoc in H4. done. }
    destruct (read_key_escape lv kh o s "u"%char Hs He) as (H1 & H2 & H3).
    destruct (Hhex _ _ H1 H3) as (H4 & H5 & H6). rewrite run_app.
    destruct (IH _ _ H4 H6) as (H7 & H8 & H9). rewrite H8, H5, H2, H9, <- !app_assoc.
    rewrite <- !app_assoc in H7. done.
Qed.

Lemma key_run lv kh o s kt key :
  DString kt key -> St ObjExpectKey lv kh o s ->
  St ObjExpectColon lv (str_eqb key (lit "hits")) (o ++ kt) (run s kt).
Proof.
  intros Hd Hs. pose proof (string_from_slice_spec kt key Hd) as Hkey.
  apply (DString_JString any_escape) in Hd as (bd & Hbd & ->); [|done].
  rewrite run_cons.
  assert (H1 : St ObjReadKey lv kh (o ++ [quote]) (step s quote) /\ key_buf (step s quote) = []
    /\ key_esc (step s quote) = false).
  { destruct Hs as [Hp Hl Hk Ho Hsh]. dispatched Hp. unfold at_obj_expect_key.
    change (Ascii.eqb quote quote) with true. st. }
  destruct H1 as (H1 & H2 & H3). destruct (key_body_run _ _ _ _ _ _ Hbd H1 H3) as (H4 & H5 & H6).
  rewrite run_app, run_cons. cbn [run foldl]. rewrite H2 in H5. cbn in H5.
  destruct H4 as [Hp Hl Hk Ho Hsh]. change (foldl step ?x ?y) with (run x y) in *.
  set (s2 := run (step s quote) bd) in *. dispatched Hp. unfold at_obj_read_key. cbn [push key_esc]. rewrite H6.
  change (Ascii.eqb quote backslash) with false. change (Ascii.eqb quote quote) with true. cbn.
  rewrite H5. unfold decoded_key_is_hits. rewrite Hkey.
  repeat split; cbn; try congruence. rewrite Ho. by rewrite <- !app_assoc.
Qed.

(** ** Values passed over *)

(** After a member's value: at the comma, or still in a bare scalar. *)
Definition after_member (lv : Z) (kh : bool) (o : bytes) (s : SearchHitsScanner) : Prop :=
  St ObjExpectComma lv kh o s \/ (St SkipValue lv kh o s /\ skip_nest (skip s) = inside 0).

Lemma expect_value_start lv o s b :
  St ObjExpectValue lv false o s -> is_ws b = false ->
  St SkipValue lv false (o ++ [b]) (step s b) /\ skip (step s b) = skip_begin b.
Proof.
  intros [Hp Hl Hk Ho Hs] Hb. dispatched Hp. unfold at_obj_expect_value. rewrite Hb. cbn [push key_is_hits].
  rewrite Hk. split; [|done]. st.
Qed.
Lemma opening_nest b : opening b -> skip_nest (skip_begin b) = nest_of b /\ is_ws b = false.
Proof. by intros [->|[->| ->]]. Qed.
Lemma bare_byte_spec b : bare_byte b = true ->
  plain_byte b = true /\ is_ws b = false /\ Ascii.eqb b "," = false /\ Ascii.eqb b "}" = false
  /\ Ascii.eqb b "]" = false /\ Ascii.eqb b quote = false /\ (Ascii.eqb b "{" || Ascii.eqb b "[") = false.
Proof. by destruct b as [[] [] [] [] [] [] [] []]. Qed.

Lemma bare_step lv kh o s b :
  St SkipValue lv kh o s -> skip_nest (skip s) = inside 0 -> bare_byte b = true ->
  St SkipValue lv kh (o ++ [b]) (step s b) /\ skip_nest (skip (step s b)) = inside 0.
Proof.
  intros [Hp Hl Hk Ho Hs] Hn (_ & Hw & Hc & Hb & _)%bare_byte_spec. injection Hn as Hd Hi He.
  dispatched Hp. unfold at_skip_value. rewrite Hi, Hd. cbn. rewrite Hw, Hc, Hb. cbn.
  split; [st|]. unfold skip_nest, inside. congruence.
Qed.

Lemma value_run esc lv o s v :
  JVal esc v -> (Z.of_nat (length v) < 4294967296)%Z -> St ObjExpectValue lv false o s ->
  after_member lv false (o ++ v) (run s v).
Proof.
  intros Hv Hl Hs. destruct (value_shape esc v Hv Hl) as [(b & mid & e & n & -> & Hb & He & Hn & Hc)|[Hne Hb]].
  - destruct (opening_nest b Hb) as [Hnest Hw]. destruct (expect_value_start lv o s b Hs Hw) as [H1 H2].
    rewrite <- Hnest, <- H2 in Hn.
    assert (Hop : opens (skip_nest (skip (step s b))))
      by (rewrite H2, Hnest; destruct Hb as [->|[->| ->]]; [by left|by right|by right]).
    destruct (skip_run _ _ _ _ _ _ H1 Hop Hn) as (H3 & H4 & H5).
    rewrite run_cons, run_app. destruct (skip_step _ _ _ _ e H3) as [H6 _]; [by rewrite H4|by intros _|].
    rewrite H4, Hc in H6. left. rewrite <- !app_assoc in H6. exact H6.
  - right. destruct v as [|b v]; [done|]. apply Forall_cons_iff in Hb as [Hb Hbs].
    pose proof (bare_byte_spec b Hb) as (_ & Hw & _ & _ & _ & Hq & Hop).
    destruct (expect_value_start lv o s b Hs Hw) as [H1 H2].
    assert (H3 : skip_nest (skip (step s b)) = inside 0).
    { rewrite H2. unfold skip_begin. by rewrite Hq, Hop. }
    rewrite run_cons. change (b :: v) with ([b] ++ v). rewrite app_assoc.
    clear -Hbs H1 H3. revert H1 H3. generalize (step s b) as s1, (o ++ [b]) as o1.
    induction Hbs as [|c v Hc Hv IH]; intros s1 o1 H1 H3; [by rewrite app_nil_r|].
    destruct (bare_step _ _ _ _ c H1 H3 Hc) as [H4 H5]. rewrite run_cons.
    change (c :: v) with ([c] ++ v). rewrite app_assoc. by apply IH.
Qed.

Lemma after_member_delimiter lv kh o s c :
  after_member lv kh o s -> is_ws c = true \/ c = ","%char ->
  St (if Ascii.eqb c "," then ObjExpectKey else ObjExpectComma) lv kh (o ++ [c]) (step s c).
Proof.
  assert (Hne : is_ws c = true -> Ascii.eqb c "," = false).
  { unfold is_ws. intros (d & Hd & ->%Ascii.eqb_eq)%existsb_exists. cbn in Hd.
    repeat destruct Hd as [<-|Hd]; try done. }
  intros [[Hp Hl Hk Ho Hs]|[[Hp Hl Hk Ho Hs] Hn]] Hc.
  - dispatched Hp. unfold at_obj_expect_comma. destruct Hc as [Hc| ->]; [rewrite Hne, Hc by done|]; st.
  - injection Hn as Hd Hi He. dispatched Hp. unfold at_skip_value. rewrite Hi, Hd. cbn.
    destruct Hc as [Hc| ->]; [rewrite Hc; cbn; unfold dispatch; cbn; unfold at_obj_expect_comma; rewrite Hne, Hc by done|]; [st|].
    change (is_ws ","%char) with false. cbn. unfold dispatch. cbn. st.
Qed.
Lemma after_member_comma lv kh o s w :
  after_member lv kh o s -> ws w -> St ObjExpectKey lv kh (o ++ w ++ [","%char]) (run s (w ++ [","%char])).
Proof.
  intros Ha Hw. destruct Hw as [|b w Hb Hw].
  - apply (after_member_delimiter lv kh o s ","%char Ha). by right.
  - apply json_ws_is_ws in Hb as [Hb Hne]. rewrite run_app, run_cons.
    pose proof (after_member_delimiter lv kh o s b Ha (or_introl Hb)) as H1.
    rewrite (Hne ","%char) in H1 by set_solver. apply (ws_run _ _ _ _ _ w) in H1; [|done|done].
    pose proof (after_member_delimiter _ _ _ _ ","%char (or_introl H1) (or_intror eq_refl)) as H2.
    rewrite <- !app_assoc in H2. exact H2.
Qed.

(** ** The way to the array *)
Definition small (t : bytes) : Prop := (Z.of_nat (length t) < 4294967296)%Z.
Lemma small_app a b : small (a ++ b) -> small a /\ small b.
Proof. unfold small. rewrite length_app. lia. Qed.

Lemma colon_run lv kh o s w2 w3 :
  ws w2 -> ws w3 -> St ObjExpectColon lv kh o s ->
  St ObjExpectValue lv kh (o ++ w2 ++ ":"%char :: w3) (run s (w2 ++ ":"%char :: w3)).
Proof.
  intros H2 H3 Hs. rewrite run_app, run_cons. apply (ws_run _ _ _ _ _ w2) in Hs; [|done|done].
  change (":"%char :: w3) with ([":"%char] ++ w3). rewrite !app_assoc. apply ws_run; [done|done|].
  destruct Hs as [Hp Hl Hk Ho Hs]. dispatched Hp. unfold at_obj_expect_colon. cbn. st.
Qed.

Lemma St_eq p lv kh o o' s s' : St p lv kh o s -> o = o' -> s = s' -> St p lv kh o' s'.
Proof. by intros ? -> ->. Qed.

Lemma member_run lv kh o s m k v :
  DMember m k v -> k <> lit "hits" -> small m -> St ObjExpectKey lv kh o s ->
  St ObjExpectKey lv false (o ++ m ++ [","%char]) (run s (m ++ [","%char])).
Proof.
  intros [w1 kt key w2 w3 v' w4 H1 Hk H2 H3 Hv H4] Hne Hsm Hs.
  apply (ws_run _ _ _ _ _ w1) in Hs; [|done|done]. apply (key_run _ _ _ _ kt key) in Hs; [|done].
  rewrite (proj2 (str_eqb_neq _ _)) in Hs by done. apply (colon_run _ _ _ _ w2 w3) in Hs; [|done|done].
  apply (value_run any_escape _ _ _ v') in Hs; [|done|].
  2: { unfold small in Hsm. rewrite !length_app in Hsm. cbn in Hsm. rewrite !length_app in Hsm. lia. }
  apply (after_member_comma _ _ _ _ w4) in Hs; [|done].
  eapply St_eq; [exact Hs|same_text|same_run].
Qed.

Lemma skipped_run lv kh o s t ks :
  Skipped t ks -> lit "hits" ∉ ks -> small t -> St ObjExpectKey lv kh o s ->
  exists kh', St ObjExpectKey lv kh' (o ++ t) (run s t).
Proof.
  intros Ht. revert kh o s. induction Ht as [|m k v t ks Hm Ht IH]; intros kh o s Hk Hsm Hs.
  - exists kh. by rewrite app_nil_r.
  - pose proof (small_app m (","%char :: t) Hsm) as [Hsm1 Hsm2].
    apply (member_run _ _ _ _ m k v) in Hs; [|done|set_solver|done].
    destruct (IH _ _ _ ltac:(set_solver) (proj2 (small_app [","%char] t Hsm2)) Hs) as [kh' H].
    exists kh'. eapply St_eq; [exact H|same_text|same_run].
Qed.

(** From just after the brace of an object to the value of its first [hits]. *)
Lemma hits_field_run lv kh o s t :
  FieldText (lit "hits") ("{"%char :: t) -> small t -> St ObjExpectKey lv kh o s ->
  St ObjExpectValue lv true (o ++ t) (run s t).
Proof.
  intros (pre & ks & w1 & k & w2 & w3 & [= ->] & Hpre & Hks & H1 & Hk & H2 & H3) Hsm Hs.
  apply small_app in Hsm as [Hsm _].
  destruct (skipped_run _ _ _ _ _ _ Hpre Hks Hsm Hs) as [kh' Hs'].
  apply (ws_run _ _ _ _ _ w1) in Hs'; [|done|done]. apply (key_run _ _ _ _ k (lit "hits")) in Hs'; [|done].
  rewrite str_eqb_refl in Hs'. apply (colon_run _ _ _ _ w2 w3) in Hs'; [|done|done].
  eapply St_eq; [exact Hs'|same_text|same_run].
Qed.
Lemma FieldText_brace key t : FieldText key t -> exists t', t = "{"%char :: t'.
Proof. intros (? & ? & ? & ? & ? & ? & -> & _). eauto. Qed.

Lemma open_root lv kh o s : St SeekRoot lv kh o s -> St ObjExpectKey 1 kh (o ++ ["{"%char]) (run s ["{"%char]).
Proof. intros [Hp Hl Hk Ho Hs]. cbn [run foldl]. dispatched Hp. unfold at_seek_root. cbn. st. Qed.
Lemma open_hits o s :
  St ObjExpectValue 1 true o s -> St ObjExpectKey 2 true (o ++ ["{"%char]) (run s ["{"%char]).
Proof.
  intros [Hp Hl Hk Ho Hs]. cbn [run foldl]. dispatched Hp. unfold at_obj_expect_value.
  change (is_ws "{") with false. cbn. rewrite Hk, Hl. cbn. st.
Qed.
Lemma open_array o s :
  St ObjExpectValue 2 true o s -> St ArrExpectElem 2 true (o ++ ["["%char]) (run s ["["%char]).
Proof.
  intros [Hp Hl Hk Ho Hs]. cbn [run foldl]. dispatched Hp. unfold at_obj_expect_value.
  change (is_ws "[") with false. cbn. rewrite Hk, Hl. cbn. st.
Qed.

Definition hits_path : list str := [lit "hits"; lit "hits"].
Lemma path_run s pre :
  WsPath hits_path pre -> small pre -> phase s = SeekRoot -> shaper s = h ->
  St ArrExpectElem 2 true (out s ++ pre ++ ["["%char]) (run s (pre ++ ["["%char])).
Proof.
  intros (w & t & -> & Hw & Ht) Hsm Hp Hsh.
  inversion Ht as [|k1 segs1 t1 t2 Hf1 Ht2]; subst. inversion Ht2 as [|k2 segs2 t3 t4 Hf2 Ht4]; subst.
  inversion Ht4; subst. rewrite app_nil_r in *.
  destruct (FieldText_brace _ _ Hf1) as [u1 ->], (FieldText_brace _ _ Hf2) as [u2 ->].
  apply small_app in Hsm as [_ Hsm]. apply small_app in Hsm as [Hsm1 Hsm2].
  assert (Hs1 : small u1) by (unfold small in *; cbn in Hsm1; lia).
  assert (Hs2 : small u2) by (unfold small in *; cbn in Hsm2; lia).
  assert (Hs : St SeekRoot (level s) (key_is_hits s) (out s) s) by done.
  apply (ws_run _ _ _ _ _ w) in Hs; [|done|done]. apply open_root in Hs.
  apply (hits_field_run _ _ _ _ u1) in Hs; [|done|done]. apply open_hits in Hs.
  apply (hits_field_run _ _ _ _ u2) in Hs; [|done|done]. apply open_array in Hs.
  eapply St_eq; [exact Hs|same_text|same_run].
Qed.

(** ** The elements *)
Definition scalar (e : Elem) (v : bytes) : Prop := el_kind e = KindScalar /\ el_buf e = v.
Definition after_elem (lv : Z) (kh : bool) (o v : bytes) (s : SearchHitsScanner) : Prop :=
  St ArrExpectComma lv kh (o ++ transform h v) s \/ (St ArrReadElem lv kh o s /\ scalar (elem s) v).

Lemma elem_start lv kh o s b :
  St ArrExpectElem lv kh o s -> opening b ->
  St ArrReadElem lv kh o (step s b) /\ framing (elem (step s b))
  /\ elem_nest (elem (step s b)) = nest_of b /\ el_buf (elem (step s b)) = [b].
Proof.
  intros [Hp Hl Hk Ho Hs] Hb. dispatched Hp. unfold at_arr_expect_elem.
  assert (Hc : Ascii.eqb b "]" = false) by (by destruct Hb as [->|[->| ->]]).
  rewrite (proj2 (opening_nest b Hb)), Hc. cbn [goto set_elem phase]. unfold read_elem.
  destruct Hb as [->|[->| ->]]; cbn; (split; [st|split; [|done]]); [by left|by right..].
Qed.
Lemma scalar_start lv kh o s b :
  St ArrExpectElem lv kh o s -> bare_byte b = true ->
  St ArrReadElem lv kh o (step s b) /\ scalar (elem (step s b)) [b].
Proof.
  intros [Hp Hl Hk Ho Hs] (_ & Hw & _ & _ & Hc & Hq & Hop)%bare_byte_spec. dispatched Hp.
  unfold at_arr_expect_elem. rewrite Hw, Hc. cbn. unfold read_elem. cbn. rewrite Hq, Hop. split; [st|done].
Qed.
Lemma scalar_step lv kh o v s b :
  St ArrReadElem lv kh o s -> scalar (elem s) v -> bare_byte b = true ->
  St ArrReadElem lv kh o (step s b) /\ scalar (elem (step s b)) (v ++ [b]).
Proof.
  intros [Hp Hl Hk Ho Hs] [Hkd Hv] (_ & Hw & Hc & _ & Hb & _)%bare_byte_spec. dispatched Hp.
  unfold read_elem. rewrite Hkd, Hw, Hc, Hb. cbn. split; [st|]. split; cbn; congruence.
Qed.

Lemma elem_value_run esc lv kh o s v :
  JVal esc v -> small v -> St ArrExpectElem lv kh o s -> after_elem lv kh o v (run s v).
Proof.
  intros Hv Hl Hs. destruct (value_shape esc v Hv Hl) as [(b & mid & e & n & -> & Hb & He & Hn & Hc)|[Hne Hb]].
  - destruct (elem_start _ _ _ _ _ Hs Hb) as (H1 & H2 & H3 & H4). rewrite <- H3 in Hn.
    destruct (elem_run _ _ _ _ _ _ H1 H2 Hn) as (H5 & H6 & H7 & H8).
    rewrite run_cons, run_app. left. rewrite <- H7 in Hc.
    eapply St_eq; [exact (elem_close _ _ _ _ _ H5 H6 He Hc)| |done]. by rewrite H8, H4.
  - right. destruct v as [|b v]; [done|]. apply Forall_cons_iff in Hb as [Hb Hbs].
    destruct (scalar_start _ _ _ _ _ Hs Hb) as [H1 H2]. rewrite run_cons.
    change (b :: v) with ([b] ++ v). clear -Hbs H1 H2. revert H1 H2. generalize (step s b) as s1, [b] as a.
    induction Hbs as [|c v Hc Hv IH]; intros s1 a H1 H2; [by rewrite app_nil_r|].
    destruct (scalar_step _ _ _ _ _ c H1 H2 Hc) as [H3 H4]. rewrite run_cons.
    change (c :: v) with ([c] ++ v). rewrite app_assoc. by apply IH.
Qed.

Definition after_delimiter (c : byte) : Phase :=
  if Ascii.eqb c "," then ArrExpectElem else if is_ws c then ArrExpectComma else Passthrough.
Lemma elem_delimiter lv kh o v s c :
  after_elem lv kh o v s -> (is_ws c || Ascii.eqb c "," || Ascii.eqb c "]") = true ->
  St (after_delimiter c) lv kh (o ++ transform h v ++ [c]) (step s c).
Proof.
  assert (Hc : forall o s, St ArrExpectComma lv kh o s ->
    St (after_delimiter c) lv kh (o ++ [c]) (at_arr_expect_comma s c).1).
  { intros o' s' [Hp Hl Hk Ho Hs]. unfold after_delimiter, at_arr_expect_comma.
    destruct (Ascii.eqb c ","); [st|]. destruct (is_ws c); st. }
  intros [Hs|[[Hp Hl Hk Ho Hs] [Hkd Hv]]] Hd.
  - rewrite app_assoc. assert (Hp := st_phase _ _ _ _ _ Hs). dispatched Hp. by apply Hc.
  - dispatched Hp. unfold read_elem. rewrite Hkd, Hd. unfold dispatch. cbn [goto phase].
    rewrite app_assoc. apply Hc. unfold finish_elem. rewrite Hs, Hv. st.
Qed.
Lemma elem_delimiter_run lv kh o v s w c :
  after_elem lv kh o v s -> ws w -> c = ","%char \/ c = "]"%char ->
  St (after_delimiter c) lv kh (o ++ transform h v ++ w ++ [c]) (run s (w ++ [c])).
Proof.
  intros Ha Hw Hc. destruct Hw as [|b w Hb Hw].
  - apply elem_delimiter; [done|]. by destruct Hc as [->| ->].
  - apply json_ws_is_ws in Hb as [Hb Hne]. rewrite run_app, run_cons.
    pose proof (elem_delimiter _ _ _ _ _ b Ha ltac:(by rewrite Hb)) as H1.
    unfold after_delimiter in H1. rewrite (Hne ","%char), Hb in H1 by set_solver.
    apply (ws_run _ _ _ _ _ w) in H1; [|done|done].
    cbn [run foldl]. change (foldl step ?x ?y) with (run x y) in *. revert H1.
    generalize (run (step s b) w) as s1. intros s1 Hs1. assert (Hp := st_phase _ _ _ _ _ Hs1).
    dispatched Hp. destruct Hs1 as [_ Hl Hk Ho Hs]. unfold at_arr_expect_comma.
    unfold after_delimiter. change (is_ws "]") with false.
    destruct Hc as [->| ->]; cbn; change (is_ws "]") with false; repeat split; cbn; try congruence;
      rewrite Ho; same_text.
Qed.

(** An element with the white space around it, and elements each followed by a comma. *)
Definition cell (f : bytes -> bytes) (e : bytes * bytes * bytes) : bytes := e.1.1 ++ f e.1.2 ++ e.2.
Definition cells (f : bytes -> bytes) (es : list (bytes * bytes * bytes)) : bytes :=
  mjoin ((fun e => cell f e ++ [","%char]) <$> es).
Definition is_element (e : bytes * bytes * bytes) : Prop :=
  ws e.1.1 /\ JVal any_escape e.1.2 /\ ws e.2.

Lemma cell_run lv kh o s e c :
  is_element e -> small (cell id e) -> c = ","%char \/ c = "]"%char -> St ArrExpectElem lv kh o s ->
  St (after_delimiter c) lv kh (o ++ cell (transform h) e ++ [c]) (run s (cell id e ++ [c])).
Proof.
  destruct e as [[w1 v] w2]. intros (H1 & Hv & H2) Hsm Hc Hs. unfold cell, id in *. cbn [fst snd] in *.
  apply (small_app w1) in Hsm as [_ Hsm]. apply small_app in Hsm as [Hsm _].
  apply (ws_run _ _ _ _ _ w1) in Hs; [|done|done]. apply (elem_value_run any_escape _ _ _ _ v) in Hs; [|done|done].
  apply (elem_delimiter_run _ _ _ _ _ w2 c) in Hs; [|done|done].
  eapply St_eq; [exact Hs|same_text|same_run].
Qed.
Lemma cells_run lv kh o s es :
  Forall is_element es -> small (cells id es) -> St ArrExpectElem lv kh o s ->
  St ArrExpectElem lv kh (o ++ cells (transform h) es) (run s (cells id es)).
Proof.
  intros Hes. revert o s. induction Hes as [|e es He Hes IH]; intros o s Hsm Hs; [by rewrite app_nil_r|].
  unfold cells in Hsm |- *. cbn [fmap list_fmap mjoin list_join] in Hsm |- *.
  apply small_app in Hsm as [Hsm1 Hsm2].
  apply (cell_run _ _ _ _ e ","%char) in Hs; [|done|by apply small_app in Hsm1 as [??]|by left].
  apply (IH _ _ Hsm2) in Hs. eapply St_eq; [exact Hs|same_text|same_run].
Qed.

(** Nothing of an element is emitted before its end. *)
Lemma partial_elem_run esc lv kh o s v v' :
  JVal esc v -> small v -> v' `prefix_of` v -> v' <> v -> St ArrExpectElem lv kh o s -> out (run s v') = o.
Proof.
  intros Hv Hl [v'' Hpre] Hne Hs. destruct v' as [|b v']; [by destruct Hs|]. rewrite run_cons.
  destruct (value_shape esc v Hv Hl) as [(b' & mid & e & n & -> & Hb & He & Hn & Hc)|[_ Hb]].
  - injection Hpre as <- Hpre. destruct (elem_start _ _ _ _ _ Hs Hb) as (H1 & H2 & H3 & H4).
    destruct (decide (v'' = [])) as [->|Hv''].
    { rewrite app_nil_r in Hpre. by rewrite <- Hpre in Hne. }
    destruct (exists_last Hv'') as (v3 & c & ->).
    rewrite app_assoc in Hpre. apply app_inj_tail in Hpre as [-> _].
    rewrite <- H3, nest_run_app in Hn. apply bind_Some in Hn as (n' & Hn & _).
    by destruct (elem_run _ _ _ _ _ _ H1 H2 Hn) as [[]].
  - rewrite Hpre in Hb. apply Forall_cons_iff in Hb as [Hb [Hbs _]%Forall_app].
    destruct (scalar_start _ _ _ _ _ Hs Hb) as [H1 H2].
    clear -Hbs H1 H2. revert H1 H2. generalize (step s b) as s1, [b] as a.
    induction Hbs as [|c v Hc Hv IH]; intros s1 a H1 H2; [by destruct H1|].
    destruct (scalar_step _ _ _ _ _ c H1 H2 Hc) as [H3 H4]. rewrite run_cons. by eapply IH.
Qed.
End Framing.

(** ** What the client receives *)
Section Streamed.
Context {Sd : Serde} {Ss : SerdeString}.

Lemma cells_reached h pre es r :
  WsPath hits_path pre -> Forall is_element es -> small (pre ++ "["%char :: cells id es ++ r) ->
  St h ArrExpectElem 2 true (pre ++ "["%char :: cells (transform h) es)
    (run (scanner_new h) (pre ++ "["%char :: cells id es)).
Proof.
  intros Hp Hes Hsm. apply small_app in Hsm as [Hsm1 Hsm]. apply (small_app ["["%char]) in Hsm as [_ Hsm].
  apply small_app in Hsm as [Hsm _].
  pose proof (path_run h (scanner_new h) pre Hp Hsm1 eq_refl eq_refl) as Hs.
  apply (cells_run h _ _ _ _ es Hes Hsm) in Hs.
  eapply St_eq; [exact Hs|same_text|same_run].
Qed.

(** C20: However the upstream cuts the response into frames, the client receives it byte
    for byte except the elements of the first [hits.hits] array, each replaced by its
    shaped form, the white space around it kept: the members before, the delimiters, and
    everything after the array pass through. A failure of the upstream is passed on. *)
Theorem streamed_hits_are_shaped {E} h pre es e post (upstream : list (BodyFrame E)) :
  WsPath hits_path pre -> Forall is_element es -> is_element e ->
  small (pre ++ "["%char :: cells id es ++ cell id e) ->
  delivered upstream = pre ++ "["%char :: cells id es ++ cell id e ++ "]"%char :: post ->
  payload (shape_hits_stream upstream h)
  = pre ++ "["%char :: cells (transform h) es ++ cell (transform h) e ++ "]"%char :: post
  /\ errors (shape_hits_stream upstream h) = failure upstream.
Proof.
  intros Hp Hes He Hsm Hb. pose proof (cells_reached h pre es _ Hp Hes Hsm) as Hs.
  apply small_app in Hsm as [_ Hsm]. apply (small_app ["["%char]) in Hsm as [_ Hsm].
  apply small_app in Hsm as [_ Hsm].
  apply (cell_run h _ _ _ _ e "]"%char) in Hs; [|done|done|by right].
  destruct (shape_hits_stream_run upstream h) as [-> Her]. split; [|done]. rewrite Hb.
  replace (pre ++ "["%char :: cells id es ++ cell id e ++ "]"%char :: post)
    with ((pre ++ "["%char :: cells id es) ++ (cell id e ++ ["]"%char]) ++ post) by same_text.
  rewrite !(run_app _ (_ ++ _)). rewrite run_passthrough by apply Hs. cbn [push out].
  rewrite (st_out _ _ _ _ _ _ Hs). same_text.
Qed.

(** A response that ends or fails inside an element has released nothing of that
    element: the client has the elements before it, shaped, and no byte of an unshaped
    document. *)
Theorem partial_hit_is_withheld {E} h pre es w v v' (upstream : list (BodyFrame E)) :
  WsPath hits_path pre -> Forall is_element es -> ws w -> JVal any_escape v ->
  v' `prefix_of` v -> v' <> v -> small (pre ++ "["%char :: cells id es ++ w ++ v) ->
  delivered upstream = pre ++ "["%char :: cells id es ++ w ++ v' ->
  payload (shape_hits_stream upstream h) = pre ++ "["%char :: cells (transform h) es ++ w.
Proof.
  intros Hp Hes Hw Hv Hpre Hne Hsm Hb. pose proof (cells_reached h pre es _ Hp Hes Hsm) as Hs.
  apply small_app in Hsm as [_ Hsm]. apply (small_app ["["%char]) in Hsm as [_ Hsm].
  apply small_app in Hsm as [_ Hsm]. apply small_app in Hsm as [_ Hsm].
  apply (ws_run h _ _ _ _ _ w) in Hs; [|done|done].
  destruct (shape_hits_stream_run upstream h) as [-> _]. rewrite Hb.
  replace (pre ++ "["%char :: cells id es ++ w ++ v')
    with ((pre ++ "["%char :: cells id es) ++ w ++ v') by same_text.
  rewrite !run_app. rewrite run_app in Hs. rewrite (partial_elem_run h _ _ _ _ _ v v' Hv Hsm Hpre Hne Hs). same_text.
Qed.
End Streamed.

(** ** Sample streams *)
Definition scanned_string (t : bytes) : option str :=
  match string_decode (W := scalar_wide) (new_parser t) with Done s _ => Some s | _ => None end.
#[local] Program Instance scanned_strings : SerdeString := {| string_from_slice := scanned_string |}.
Next Obligation.
  intros t s H. unfold scanned_string. pose proof (string_decode_runs (W := scalar_wide) t s [] H (new_parser t)) as Hr.
  rewrite Hr; [done|]. rewrite app_nil_r. apply at_input_new.
Qed.

Definition sample_hit : bytes := body "{'_routing':'acme'}".
Definition sample_docs : list (bytes * Value Z) :=
  [(sample_hit, Object [(lit "_routing", String (lit "acme"))]); (lit "1", Number 1%Z)].
Definition sample_shaper : @HitShaper := MkHitShaper (lit "orders") (lit "acme") (MkReadShape [lit "_tenant"] None).
Definition streamed (upstream : list (BodyFrame unit)) : list (Result bytes unit) :=
  @shape_hits_stream (toy_serde sample_docs) scanned_strings unit upstream sample_shaper.

(** Only the first [hits.hits] array is shaped: with a repeated [hits] key the second
    passes as it is, where the buffered transform keeps and shapes the last one. *)
Example repeated_hits_pass :
  streamed [Data (body "{'hits':{'hits':[]},'hits':{'hits':[{'_routing':'acme'}]}}")]
  = [Ok (body "{'hits':{'hits':[]},'hits':{'hits':[{'_routing':'acme'}]}}")].
Proof. vm_compute. reflexivity. Qed.

Lemma sample_field : FieldText (lit "hits") (body "{'hits':").
Proof.
  exists [], [], [], (body "'hits'"), [], []. repeat split; [constructor|set_solver|constructor|..|constructor|constructor].
  by apply (toy_str_DString (lit "hits")).
Qed.
Lemma sample_path : WsPath hits_path (body " {'hits':{'hits':").
Proof.
  exists (lit " "), (body "{'hits':{'hits':"). split; [done|]. split; [by repeat constructor|].
  apply (path_cons _ _ (body "{'hits':") (body "{'hits':")); [apply sample_field|].
  apply (path_cons _ _ (body "{'hits':") []); [apply sample_field|constructor].
Qed.
Lemma sample_hit_json : JVal any_escape sample_hit.
Proof.
  apply (J_mono rfc_escape any_escape ltac:(done)).
  by apply (toy_write_json (Object [(lit "_routing", String (lit "acme"))])).
Qed.
Lemma sample_elements : Forall is_element [(lit " ", sample_hit, [])].
Proof. apply Forall_singleton. split; [by repeat constructor|split; [apply sample_hit_json|constructor]]. Qed.

Lemma streamed_hits_are_shaped_witness :
  let upstream := [Data (body " {'hits':{'hi"); Trailers; Data (body "ts':[ {'_rou"); Data (body "ting':'acme'},1");
                   Data (body " ],'n':[{}]}}"); BodyFailed ()] in
  payload (streamed upstream) = body " {'hits':{'hits':[ {'_index':'orders'},1 ],'n':[{}]}}"
  /\ errors (streamed upstream) = [Err ()].
Proof.
  apply (@streamed_hits_are_shaped (toy_serde sample_docs) scanned_strings unit sample_shaper
    (body " {'hits':{'hits':") [(lit " ", sample_hit, [])] ([], lit "1", lit " ") (body ",'n':[{}]}}")).
  - apply sample_path.
  - apply sample_elements.
  - split; [constructor|split; [|by repeat constructor]]. apply val_number. by apply (toy_number_json (lit "1")).
  - reflexivity.
  - reflexivity.
Defined.

Lemma partial_hit_is_withheld_witness :
  payload (streamed [Data (body " {'hits':{'hits':[ {'_routing':'acme'}, {'_rout"); BodyFailed ()])
  = body " {'hits':{'hits':[ {'_index':'orders'}, ".
Proof.
  apply (@partial_hit_is_withheld (toy_serde sample_docs) scanned_strings unit sample_shaper
    (body " {'hits':{'hits':") [(lit " ", sample_hit, [])] (lit " ") sample_hit (body "{'_rout")).
  - apply sample_path.
  - apply sample_elements.
  - by repeat constructor.
  - apply sample_hit_json.
  - by exists (body "ing':'acme'}").
  - done.
  - reflexivity.
  - reflexivity.
Defined.
