(* ===== verification/Prog.v ===== *)
(** * Programs over awaited calls

    An asynchronous function is modelled as a program: a tree of awaited calls, each with
    what the function does on every answer, for a family [C] of calls with the type of
    each one's answer.  Its meaning is the set of its traces, the calls with their answers
    in the order they complete.  The engine's handlers are programs over the calls of
    [Effects]; the sink's operations are programs over those of [HttpSink]. *)
From stdpp Require Import base option list strings numbers sets.
From Stdlib Require Import Ascii ZArith Lia.
From S2P Require Import Prelude.
From S2P Require Import CoreTypes.

Open Scope osp_scope.

Section Programs.
Context {C : Type -> Type}.

Inductive event_of : Type :=
| Ev {B : Type} (c : C B) (answer : B).
Definition trace_of := list event_of.

(** [Par]: one task per element, awaited together by [buffer_unordered]; the results come
    in the order the tasks complete. *)
Inductive prog_of (A : Type) : Type :=
| Ret (a : A)
| Do {B : Type} (c : C B) (k : B -> prog_of A)
| Par {X B : Type} (xs : list X) (task : X -> prog_of B) (k : list B -> prog_of A).
#[local] Arguments Ret {A} a.
#[local] Arguments Do {A B} c k.
#[local] Arguments Par {A X B} xs task k.

Definition call {B} (c : C B) : prog_of B := Do c Ret.
Fixpoint bind {A B} (m : prog_of A) (f : A -> prog_of B) : prog_of B :=
  match m with
  | Ret a => f a
  | Do c k => Do c (fun b => bind (k b) f)
  | Par xs task k => Par xs task (fun bs => bind (k bs) f)
  end.
(** [?] on an awaited result. *)
Definition try_bind {A B E} (m : prog_of (Result A E)) (f : A -> prog_of (Result B E)) : prog_of (Result B E) :=
  bind m (fun r => match r with Ok a => f a | Err e => Ret (Err e) end).
Definition lift_err {A E F} (f : E -> F) (m : prog_of (Result A E)) : prog_of (Result A F) :=
  bind m (fun r => Ret (map_err f r)).

(** ** Traces *)

(** All the ways to merge the traces of tasks that run at the same time. *)
Inductive interleaving : list trace_of -> trace_of -> Prop :=
| interleaving_done ts : Forall (fun t => t = []) ts -> interleaving ts []
| interleaving_step ts1 e t ts2 tr :
    interleaving (ts1 ++ t :: ts2) tr -> interleaving (ts1 ++ (e :: t) :: ts2) (e :: tr).

(** [exec m tr a]: [m] can return [a] after the calls and answers of [tr]. *)
Fixpoint exec {A} (m : prog_of A) (tr : trace_of) (a : A) : Prop :=
  match m with
  | Ret x => tr = [] /\ a = x
  | Do c k => exists b tr', tr = Ev c b :: tr' /\ exec (k b) tr' a
  | @Par _ X B xs task k => exists (done : list (X * trace_of * B)) tr1 tr2,
      xs ≡ₚ (fun d => d.1.1) <$> done
      /\ Forall (fun d => exec (task d.1.1) d.1.2 d.2) done
      /\ interleaving ((fun d => d.1.2) <$> done) tr1
      /\ exec (k ((fun d => d.2) <$> done)) tr2 a /\ tr = tr1 ++ tr2
  end.

(** A world that answers the calls one after the other, for evaluating a program. *)
Definition world_of (W : Type) := forall B, C B -> W -> B * W.
Fixpoint interp {W A} (handle : world_of W) (m : prog_of A) (w : W) : trace_of * A * W :=
  match m with
  | Ret a => ([], a, w)
  | Do c k =>
      let '(b, w) := handle _ c w in
      let '(tr, a, w) := interp handle (k b) w in (Ev c b :: tr, a, w)
  | @Par _ X B xs task k =>
      let '(tr1, bs, w) :=
        (fix go (xs : list X) (w : W) : trace_of * list B * W :=
           match xs with
           | [] => ([], [], w)
           | x :: xs =>
               let '(t, b, w) := interp handle (task x) w in
               let '(ts, bs, w) := go xs w in (t ++ ts, b :: bs, w)
           end) xs w in
      let '(tr2, a, w) := interp handle (k bs) w in (tr1 ++ tr2, a, w)
  end.
End Programs.
#[global] Arguments event_of C : clear implicits.
#[global] Arguments trace_of C : clear implicits.
#[global] Arguments prog_of C A : clear implicits.
#[global] Arguments world_of C W : clear implicits.
#[global] Arguments Ret {C A} a.
#[global] Arguments Do {C A B} c k.
#[global] Arguments Par {C A X B} xs task k.
#[global] Arguments call {C B} & c.
#[global] Arguments bind {C A B} & m f.
#[global] Arguments try_bind {C A B E} & m f.

Notation "'await!' x ':=' m 'in' k" := (bind m (fun x => k))
  (at level 200, x pattern, m at level 100, k at level 200, right associativity) : osp_scope.
Notation "'try!' x ':=' m 'in' k" := (try_bind m (fun x => k))
  (at level 200, x pattern, m at level 100, k at level 200, right associativity) : osp_scope.

Section Laws.
Context {C : Type -> Type}.
#[local] Abbreviation event := (event_of C).
#[local] Abbreviation trace := (trace_of C).
#[local] Abbreviation prog := (prog_of C).
#[local] Abbreviation world := (world_of C).

(** ** Programs *)
Lemma exec_bind {A B} (m : prog A) (f : A -> prog B) tr b :
  exec (bind m f) tr b <-> exists t1 t2 a, tr = t1 ++ t2 /\ exec m t1 a /\ exec (f a) t2 b.
Proof.
  revert f tr b. induction m as [A a|A Y c k IH|A X Y xs task _ k IH]; intros f tr b; cbn [bind exec].
  - split; [by exists [], tr, a|]. by intros (t1 & t2 & x & -> & [-> ->] & H).
  - split.
    + intros (x & tr' & -> & (t1 & t2 & a & -> & H1 & H2)%IH). exists (Ev c x :: t1), t2, a. eauto 10.
    + intros (t1 & t2 & a & -> & (x & t1' & -> & H1) & H2). exists x, (t1' ++ t2). split; [done|].
      apply IH. eauto 10.
  - split.
    + intros (d & tr1 & tr2 & H1 & H2 & H3 & (t1 & t2 & a & -> & H4 & H5)%IH & ->).
      exists (tr1 ++ t1), t2, a. split; [by rewrite app_assoc|]. split; [|done]. by exists d, tr1, t1.
    + intros (t1 & t2 & a & -> & (d & tr1 & tr2 & H1 & H2 & H3 & H4 & ->) & H5).
      exists d, tr1, (tr2 ++ t2). split; [done|]. split; [done|]. split; [done|].
      split; [|by rewrite app_assoc]. apply IH. eauto 10.
Qed.
Lemma exec_call {B} (c : C B) tr b : exec (call c) tr b <-> tr = [Ev c b].
Proof.
  unfold call; cbn. split; [by intros (? & ? & -> & -> & ->)|intros ->; by exists b, []].
Qed.
Lemma exec_try {A B E} (m : prog (Result A E)) (f : A -> prog (Result B E)) tr r :
  exec (try_bind m f) tr r <->
  (exists e, exec m tr (Err e) /\ r = Err e)
  \/ exists t1 t2 a, tr = t1 ++ t2 /\ exec m t1 (Ok a) /\ exec (f a) t2 r.
Proof.
  unfold try_bind. rewrite exec_bind. split.
  - intros (t1 & t2 & [a|e] & -> & H1 & H2); [right; eauto 10|]. destruct H2 as [-> ->].
    rewrite app_nil_r. left. eauto.
  - intros [(e & H & ->)|(t1 & t2 & a & -> & H1 & H2)].
    + exists tr, [], (Err e). rewrite app_nil_r. by repeat split.
    + exists t1, t2, (Ok a). done.
Qed.
Lemma exec_lift_err {A E F} (f : E -> F) (m : prog (Result A E)) tr r :
  exec (lift_err f m) tr r <-> exists r0, exec m tr r0 /\ r = map_err f r0.
Proof.
  unfold lift_err. rewrite exec_bind. split.
  - intros (t1 & t2 & r0 & -> & H & -> & ->). rewrite app_nil_r. eauto.
  - intros (r0 & H & ->). exists tr, [], r0. rewrite app_nil_r. by repeat split.
Qed.

Lemma interleaving_concat (ts : list trace) : interleaving ts (mjoin ts).
Proof.
  induction ts as [|t ts IH]; [by constructor|].
  assert (H : forall pre, Forall (fun t => t = []) pre -> interleaving (pre ++ ts) (mjoin ts)).
  { clear -IH. intros pre Hpre. remember (mjoin ts) as tr. clear Heqtr. induction IH as [ts Ht|ts1 e t ts2 tr H IH].
    - constructor. by apply Forall_app.
    - rewrite app_assoc. constructor. by rewrite <- app_assoc. }
  cbn. induction t as [|e t IHt]; [apply (H [[]]); by constructor|].
  apply (interleaving_step [] e t ts). exact IHt.
Qed.

Lemma interleaving_perm (ts : list trace) tr : interleaving ts tr -> tr ≡ₚ mjoin ts.
Proof.
  induction 1 as [ts Ht|ts1 e t ts2 tr _ IH].
  - induction Ht as [|t ts -> _ IH]; [done|exact IH].
  - unfold trace_of in *. rewrite IH, !(join_app ts1). cbn. by rewrite <- Permutation_middle.
Qed.
Lemma interleaving_sublist (ts : list trace) tr : interleaving ts tr -> Forall (fun t => t `sublist_of` tr) ts.
Proof.
  induction 1 as [ts Hts|ts1 e t ts2 tr _ IH].
  - eapply Forall_impl; [exact Hts|]. by intros t ->.
  - apply Forall_app in IH as [IH1 [IHt IH2]%Forall_cons].
    assert (Hc : forall ts, Forall (fun t => t `sublist_of` tr) ts -> Forall (fun t => t `sublist_of` (e :: tr)) ts).
    { intros ts H. eapply Forall_impl; [exact H|]. intros t' Ht'. by apply sublist_cons. }
    apply Forall_app. split; [by apply Hc|]. constructor; [by apply sublist_skip|by apply Hc].
Qed.

(** Whatever answers the world gives, the program returns: a program has no loop of its
    own, and [interp] shows one of its traces. *)
Lemma interp_exec {W A} (handle : world W) (m : prog A) w :
  exec m (interp handle m w).1.1 (interp handle m w).1.2.
Proof.
  revert w. induction m as [A a|A Y c k IH|A X Y xs task IHt k IH]; intros w; cbn [interp exec].
  - done.
  - destruct (handle Y c w) as [b w1]. specialize (IH b w1).
    destruct (interp handle (k b) w1) as [[tr a] w2]. eauto.
  - set (go := fix go (xs : list X) (w : W) : trace * list Y * W := _).
    assert (Hgo : forall xs w, exists done : list (X * trace * Y),
      (fun d => d.1.1) <$> done = xs /\ Forall (fun d => exec (task d.1.1) d.1.2 d.2) done
      /\ mjoin ((fun d => d.1.2) <$> done) = (go xs w).1.1 /\ (fun d => d.2) <$> done = (go xs w).1.2).
    { clear -IHt. intros xs. induction xs as [|x xs IHx]; intros w; [by exists []|]. cbn.
      specialize (IHt x w). destruct (interp handle (task x) w) as [[t b] w1].
      destruct (IHx w1) as (d & H1 & H2 & H3 & H4). destruct (go xs w1) as [[ts bs] w2]; cbn in *.
      exists ((x, t, b) :: d). rewrite <- H1, <- H3, <- H4. split_and!; [done|by constructor|done..]. }
    destruct (Hgo xs w) as (d & H1 & H2 & H3 & H4). destruct (go xs w) as [[tr1 bs] w1]; cbn in *.
    specialize (IH bs w1). destruct (interp handle (k bs) w1) as [[tr2 a] w2]; cbn in *.
    exists d, tr1, tr2. rewrite H1, H4. split_and!; [done|done| |done|done]. rewrite <- H3. apply interleaving_concat.
Qed.

(** What holds of every answer of a world holds of every event of a run. *)
Lemma interp_Forall {W A} (handle : world W) (P : event -> Prop) (m : prog A) w :
  (forall B (c : C B) w, P (Ev c (handle B c w).1)) -> Forall P (interp handle m w).1.1.
Proof.
  intros HP. revert w. induction m as [A a|A Y c k IH|A X Y xs task IHt k IH]; intros w; cbn [interp].
  - constructor.
  - specialize (HP _ c w). destruct (handle Y c w) as [b w1]. specialize (IH b w1).
    destruct (interp handle (k b) w1) as [[tr a] w2]. by constructor.
  - set (go := fix go (xs : list X) (w : W) : trace * list Y * W := _).
    assert (Hgo : forall xs w, Forall P (go xs w).1.1).
    { clear -IHt. intros xs. induction xs as [|x xs IHx]; intros w; [constructor|]. cbn.
      specialize (IHt x w). destruct (interp handle (task x) w) as [[t b] w1].
      specialize (IHx w1). destruct (go xs w1) as [[ts bs] w2]. by apply Forall_app. }
    specialize (Hgo xs w). destruct (go xs w) as [[tr1 bs] w1]. specialize (IH bs w1).
    destruct (interp handle (k bs) w1) as [[tr2 a] w2]. by apply Forall_app.
Qed.
End Laws.

(** ** What holds at every call

    [before past e] says what must have happened before [e] completes.  [guarded] asks it
    of every event of a trace, where [past] has the events so far, in no order. *)
Section Guarded.
Context {C : Type -> Type}.
#[local] Abbreviation event := (event_of C).
#[local] Abbreviation trace := (trace_of C).
#[local] Abbreviation prog := (prog_of C).
Context (before : list event -> event -> Prop).
Hypothesis before_mono : forall past past' e, past ⊆ past' -> before past e -> before past' e.

Fixpoint guarded (past : list event) (tr : trace) : Prop :=
  match tr with
  | [] => True
  | e :: tr => before past e /\ guarded (e :: past) tr
  end.
Lemma guarded_mono past past' tr : past ⊆ past' -> guarded past tr -> guarded past' tr.
Proof.
  revert past past'. induction tr as [|e tr IH]; intros past past' Hp; [done|].
  intros [He Ht]. split; [by eapply before_mono|]. eapply IH; [|exact Ht]. set_solver.
Qed.
Lemma guarded_app past t1 t2 : guarded past (t1 ++ t2) <-> guarded past t1 /\ guarded (t1 ++ past) t2.
Proof.
  revert past. induction t1 as [|e t1 IH]; intros past; cbn [app guarded]; [by split; [|intros []]|].
  assert (Heq : guarded (t1 ++ e :: past) t2 <-> guarded (e :: t1 ++ past) t2)
    by (split; apply guarded_mono; set_solver).
  rewrite IH, Heq. tauto.
Qed.
Lemma guarded_interleaving past ts tr : Forall (guarded past) ts -> interleaving ts tr -> guarded past tr.
Proof.
  intros Hts Hi. revert past Hts. induction Hi as [ts _|ts1 e t ts2 tr _ IH]; intros past Hts; [done|].
  rewrite Forall_app, Forall_cons_iff in Hts. destruct Hts as (H1 & [He Ht] & H2). split; [done|].
  apply IH. rewrite Forall_app, Forall_cons_iff.
  split; [|split; [done|]]; (eapply Forall_impl; [eassumption|]); intros u; apply guarded_mono; set_solver.
Qed.

(** Every trace of the program from [past] is guarded, and ends with [Q]. *)
Definition safe {A} (past : list event) (m : prog A) (Q : trace -> A -> Prop) : Prop :=
  forall tr a, exec m tr a -> guarded past tr /\ Q tr a.

Lemma safe_ret {A} past (a : A) (Q : trace -> A -> Prop) : Q [] a -> safe past (Ret a) Q.
Proof. by intros HQ tr b [-> ->]. Qed.
Lemma safe_do {A B} past (c : C B) (k : B -> prog A) (Q : trace -> A -> Prop) :
  (forall b, before past (Ev c b) /\ safe (Ev c b :: past) (k b) (fun tr a => Q (Ev c b :: tr) a)) ->
  safe past (Do c k) Q.
Proof.
  intros H tr a (b & tr' & -> & He). destruct (H b) as [Hb Hk]. destruct (Hk _ _ He) as [Hg HQ]. done.
Qed.
Lemma safe_call {B} past (c : C B) (Q : trace -> B -> Prop) :
  (forall b, before past (Ev c b) /\ Q [Ev c b] b) -> safe past (call c) Q.
Proof. intros H tr b ->%exec_call. destruct (H b) as [? ?]. done. Qed.
Lemma safe_bind {A B} past (m : prog A) (f : A -> prog B) (P : trace -> A -> Prop) (Q : trace -> B -> Prop) :
  safe past m P ->
  (forall tr a, P tr a -> safe (tr ++ past) (f a) (fun tr' b => Q (tr ++ tr') b)) ->
  safe past (bind m f) Q.
Proof.
  intros Hm Hf tr b (t1 & t2 & a & -> & H1 & H2)%exec_bind. destruct (Hm _ _ H1) as [Hg HP].
  destruct (Hf _ _ HP _ _ H2) as [Hg' HQ]. split; [|done]. by apply guarded_app.
Qed.
Lemma safe_mono {A} past past' (m : prog A) (P Q : trace -> A -> Prop) :
  past ⊆ past' -> (forall tr a, P tr a -> Q tr a) -> safe past m P -> safe past' m Q.
Proof.
  intros Hp HQ Hm tr a H. destruct (Hm _ _ H) as [Hg HP]. split; [|auto]. by eapply guarded_mono.
Qed.
Lemma safe_par {A X B} past (xs : list X) (task : X -> prog B) (k : list B -> prog A)
    (P : X -> trace -> B -> Prop) (Q : trace -> A -> Prop) :
  (forall x, x ∈ xs -> safe past (task x) (P x)) ->
  (forall done tr, xs ≡ₚ (fun d => d.1.1) <$> done -> Forall (fun d : X * trace * B => P d.1.1 d.1.2 d.2) done ->
     interleaving ((fun d => d.1.2) <$> done) tr ->
     safe (tr ++ past) (k ((fun d => d.2) <$> done)) (fun tr' a => Q (tr ++ tr') a)) ->
  safe past (Par xs task k) Q.
Proof.
  intros Ht Hk tr a (done_ & t1 & t2 & Hp & Hd & Hi & He & ->).
  assert (Hall : Forall (fun d => guarded past d.1.2 /\ P d.1.1 d.1.2 d.2) done_).
  { apply Forall_forall. intros d Hin. rewrite Forall_forall in Hd. apply (Ht d.1.1); [|by apply Hd].
    rewrite Hp. by apply (list_elem_of_fmap_2 (fun d : X * trace * B => d.1.1)). }
  apply Forall_and in Hall as [Hg HP]. destruct (Hk _ _ Hp HP Hi _ _ He) as [Hg' HQ]. split; [|done].
  apply guarded_app. split; [|done]. eapply guarded_interleaving; [|exact Hi]. by apply Forall_fmap.
Qed.
End Guarded.
Lemma guarded_impl {C : Type -> Type} (b1 b2 : list (event_of C) -> event_of C -> Prop) past tr :
  (forall past e, b1 past e -> b2 past e) -> guarded b1 past tr -> guarded b2 past tr.
Proof. intros H. revert past. induction tr as [|e tr IH]; intros past; [done|]. intros [He Ht]. split; auto. Qed.
Lemma guarded_elem {C : Type -> Type} (before : list (event_of C) -> event_of C -> Prop) past tr e :
  (forall past past' e, past ⊆ past' -> before past e -> before past' e) ->
  guarded before past tr -> e ∈ tr -> before (tr ++ past) e.
Proof.
  intros Hm. revert past. induction tr as [|x tr IH]; intros past Hg He; [by apply not_elem_of_nil in He|].
  destruct Hg as [Hx Hg]. apply elem_of_cons in He as [->|He]; [eapply Hm; [|exact Hx]; set_solver|].
  eapply Hm; [|by apply (IH (x :: past))]. set_solver.
Qed.

(** ** Handling calls

    Each call of a program replaced by a program over other calls. *)
Section Handling.
Context {C D : Type -> Type} (h : forall B, C B -> prog_of D B).
Fixpoint handling {A} (m : prog_of C A) : prog_of D A :=
  match m with
  | Ret a => Ret a
  | Do c k => bind (h _ c) (fun b => handling (k b))
  | Par xs task k => Par xs (fun x => handling (task x)) (fun bs => handling (k bs))
  end.

(** The calls of [tr'] have been handled in the course of [tr]. *)
Definition handles (e : event_of C) (t : trace_of D) : Prop := match e with Ev c b => exec (h _ c) t b end.
Definition Handled (tr' : trace_of C) (tr : trace_of D) : Prop :=
  exists ts, Forall2 handles tr' ts /\ tr ≡ₚ mjoin ts.

Lemma Handled_app t1' t1 t2' t2 : Handled t1' t1 -> Handled t2' t2 -> Handled (t1' ++ t2') (t1 ++ t2).
Proof.
  intros (ts1 & H1 & P1) (ts2 & H2 & P2). exists (ts1 ++ ts2). split; [by apply Forall2_app|].
  unfold trace_of in *. by rewrite join_app, P1, P2.
Qed.
Lemma Handled_part tr' tr e : Handled tr' tr -> e ∈ tr -> exists e' t, e' ∈ tr' /\ handles e' t /\ e ∈ t /\ t ⊆ tr.
Proof.
  intros (ts & H & P) He. rewrite P in He. apply list_elem_of_join in He as (t & He & Hin).
  destruct (proj1 (list_elem_of_lookup _ _) Hin) as (i & Ht).
  destruct (Forall2_lookup_r _ _ _ _ _ H Ht) as (e' & He' & Hh). exists e', t. split; [by eapply list_elem_of_lookup_2|].
  split; [done|]. split; [done|]. intros x Hx. rewrite P. apply list_elem_of_join. by exists t.
Qed.
Lemma Handled_sub tr' tr e : Handled tr' tr -> e ∈ tr' -> exists t, handles e t /\ t ⊆ tr.
Proof.
  intros (ts & H & P) (i & He)%list_elem_of_lookup. destruct (Forall2_lookup_l _ _ _ _ _ H He) as (t & Ht & Hh).
  exists t. split; [done|]. intros x Hx. rewrite P. apply list_elem_of_join. exists t. split; [done|]. by eapply list_elem_of_lookup_2.
Qed.
Lemma Handled_elem tr' tr e : Handled tr' tr -> e ∈ tr -> exists e' t, e' ∈ tr' /\ handles e' t /\ e ∈ t.
Proof. intros H (e' & t & H1 & H2 & H3 & _)%(Handled_part _ _ _ H). eauto. Qed.

(** The same with the events of each call in their order. *)
Definition HandledIn (tr' : trace_of C) (tr : trace_of D) : Prop :=
  exists ts, Forall2 handles tr' ts /\ tr ≡ₚ mjoin ts /\ Forall (fun t => t `sublist_of` tr) ts.
Lemma HandledIn_app t1' t1 t2' t2 : HandledIn t1' t1 -> HandledIn t2' t2 -> HandledIn (t1' ++ t2') (t1 ++ t2).
Proof.
  intros (ts1 & H1 & P1 & S1) (ts2 & H2 & P2 & S2). exists (ts1 ++ ts2). split; [by apply Forall2_app|].
  split; [unfold trace_of in *; by rewrite join_app, P1, P2|].
  apply Forall_app. split; [apply (Forall_impl _ _ _ S1)|apply (Forall_impl _ _ _ S2)]; intros t Ht; [by apply sublist_inserts_r|by apply sublist_inserts_l].
Qed.
Lemma HandledIn_interleaving ts' ts tr : Forall2 HandledIn ts' ts -> interleaving ts tr -> HandledIn (mjoin ts') tr.
Proof.
  intros Hts Hi. pose proof (interleaving_sublist _ _ Hi) as Hs. pose proof (interleaving_perm _ _ Hi) as Hp.
  assert (H : exists us, Forall2 handles (mjoin ts') us /\ mjoin ts ≡ₚ mjoin us /\ Forall (fun t => t `sublist_of` tr) us).
  { clear Hi Hp. induction Hts as [|t' t ts' ts (us & H1 & P1 & S1) _ IH]; [by exists []|].
    apply Forall_cons in Hs as [Ht Hs]. destruct (IH Hs) as (vs & H2 & P2 & S2). exists (us ++ vs).
    split; [by apply Forall2_app|]. split; [unfold trace_of in *; cbn; by rewrite join_app, <- P1, <- P2|].
    apply Forall_app. split; [|done]. eapply Forall_impl; [exact S1|]. intros u Hu. by transitivity t. }
  destruct H as (us & H1 & P1 & S1). exists us. by rewrite Hp.
Qed.

(** What a handled program answers is an answer of the program, its calls answered as
    their handlers answer. *)
Lemma handling_in_order {A} (m : prog_of C A) tr a :
  exec (handling m) tr a -> exists tr', exec m tr' a /\ HandledIn tr' tr.
Proof.
  revert tr a. induction m as [A x|A B c k IH|A X B xs task IHt k IH]; intros tr a; cbn [handling].
  - intros [-> ->]. exists []. split; [done|]. by exists [].
  - intros (t1 & t2 & b & -> & H1 & (t2' & H2 & H3)%IH)%exec_bind. exists (Ev c b :: t2'). cbn [exec].
    split; [eauto|]. apply (HandledIn_app [Ev c b] t1); [|done]. exists [t1]. split; [by repeat constructor|].
    cbn. rewrite app_nil_r. split; [done|]. by constructor.
  - intros (d & tr1 & tr2 & H1 & H2 & H3 & (t2' & H4 & H5)%IH & ->).
    assert (Hd : exists d', (fun d => d.1.1) <$> d' = (fun d => d.1.1) <$> d /\ (fun d => d.2) <$> d' = (fun d => d.2) <$> d
      /\ Forall (fun d => exec (task d.1.1) d.1.2 d.2) d'
      /\ Forall2 HandledIn ((fun d => d.1.2) <$> d') ((fun d => d.1.2) <$> d)).
    { clear -H2 IHt. induction H2 as [|[[x t] b] d Hx Hd (d' & E1 & E2 & E3 & E4)]; [by exists []|].
      destruct (IHt x t b Hx) as (t' & F1 & F2). exists ((x, t', b) :: d'). cbn [fmap list_fmap fst snd].
      unfold fmap in *. rewrite E1, E2. split_and!; [done|done|by constructor|by constructor]. }
    destruct Hd as (d' & E1 & E2 & E3 & E4). exists (mjoin ((fun d => d.1.2) <$> d') ++ t2'). split.
    + exists d', (mjoin ((fun d => d.1.2) <$> d')), t2'. rewrite E1, E2. split_and!; try done. apply interleaving_concat.
    + apply HandledIn_app; [|done]. by eapply HandledIn_interleaving.
Qed.
Lemma handling_refines {A} (m : prog_of C A) tr a :
  exec (handling m) tr a -> exists tr', exec m tr' a /\ Handled tr' tr.
Proof. intros (tr' & He & ts & H & P & _)%handling_in_order. exists tr'. split; [done|]. by exists ts. Qed.
End Handling.

(** Each call of a program renamed. *)
Section Renaming.
Context {C D : Type -> Type} (f : forall B, C B -> D B).
Definition renaming {A} (m : prog_of C A) : prog_of D A := handling (fun B c => call (f B c)) m.
Definition renamed (e : event_of C) : event_of D := match e with Ev c b => Ev (f _ c) b end.
Lemma exec_renaming {A} (m : prog_of C A) tr a :
  exec (renaming m) tr a -> exists tr', exec m tr' a /\ tr ≡ₚ renamed <$> tr'.
Proof.
  intros (tr' & He & ts & Hh & Hp)%handling_refines. exists tr'. split; [done|]. rewrite Hp. clear -Hh.
  induction Hh as [|[B c b] t tr' ts Ht Hts IH]; [done|]. apply exec_call in Ht as ->. cbn. by rewrite IH.
Qed.
End Renaming.
