(* ===== verification/Runs.v ===== *)
(** * State that concurrent operations share

    What happens to a state that many operations use at the same time is one list of
    happenings, in the order they have.  Some are answers: those are required to be true of
    the state of their moment; the state's effects follow one another.  The components whose
    state is shared ([SinkPools], [Migration], [ServerStores]) say what a happening is, what
    it does and what its answer is; the rest is here. *)
From stdpp Require Import base option list.
From S2P Require Import Prelude.

Section Runs.
Context {S X : Type} (effect : X -> S -> S) (truthful : X -> S -> Prop).

Definition after_run (s : S) (run : list X) : S := foldl (fun s x => effect x s) s run.
Fixpoint true_run (s : S) (run : list X) : Prop :=
  match run with [] => True | x :: run => truthful x s /\ true_run (effect x s) run end.

Lemma after_run_snoc s run x : after_run s (run ++ [x]) = effect x (after_run s run).
Proof. unfold after_run. by rewrite foldl_app. Qed.
Lemma after_run_app s run1 run2 : after_run s (run1 ++ run2) = after_run (after_run s run1) run2.
Proof. apply foldl_app. Qed.
Lemma true_run_app s run1 run2 : true_run s (run1 ++ run2) <-> true_run s run1 /\ true_run (after_run s run1) run2.
Proof. revert s. induction run1 as [|x run1 IH]; intros s; cbn; [tauto|]. rewrite IH. tauto. Qed.
(** What happens at a moment is true of the state that what came before it has left. *)
Lemma true_run_at s pre x post : true_run s (pre ++ x :: post) -> truthful x (after_run s pre).
Proof. by intros [_ [H _]]%true_run_app. Qed.
(** A run of happenings that are true of any state. *)
Lemma true_run_all s run : (forall x, x ∈ run -> forall s, truthful x s) -> true_run s run.
Proof.
  revert s. induction run as [|x run IH]; intros s Hr; [done|]. split; [apply Hr; left|]. apply IH. intros y Hy. apply Hr. by right.
Qed.
End Runs.

(** What one kind of happening shows: the events of a run, and where one of them is. *)
Lemma shown_at {X E} (shows : X -> option E) run e :
  e ∈ omap shows run -> exists pre x post, run = pre ++ x :: post /\ shows x = Some e.
Proof. intros (x & (pre & post & ->)%list_elem_of_split & He)%list_elem_of_omap. eauto. Qed.
