(* ===== verification/Effects.v ===== *)
(** * The calls of the engine

    A request handler of the engine is an [async] function that awaits the router, the
    sink, the write queue and the clock: the calls of this file, each with the type of its
    answer.  The handlers are programs ([Prog]) over them. *)
From stdpp Require Import base option list strings numbers sets.
From Stdlib Require Import Ascii ZArith Lia.
From S2P Require Import Prelude.
From S2P Require Import JsonScan.
From S2P Require Import CoreTypes.
From S2P Require Import Prog.
From S2P Require Import Serde.
From S2P Require Import Spi.
From S2P Require Import Tenancy.
From S2P Require Import Sink.
From S2P Require Import SearchScan.

Open Scope osp_scope.

(** [asyncwrite.rs]: what is put on the write queue. *)
Record QueuedWrite : Type := MkQueuedWrite { qw_op_id : str; qw_partition_key : str; qw_batch : WriteBatch }.
Record QueueError : Type := MkQueueError { qe_reason : str }.

(** [read.rs] of the sink: the streamed outcomes, a body being the frames it yields. *)
Definition ByteBody : Type := list (BodyFrame str).
Record StreamingForward : Type := MkStreamingForward {
  sf_status : Z;
  sf_body : ByteBody;
  sf_content_type : option str;
  sf_pool_reuse : bool
}.
Record StreamingSearch : Type := MkStreamingSearch { ss_status : Z; ss_body : ByteBody; ss_pool_reuse : bool }.

Section Calls.
Context {Sd : Serde}.

(** The synchronous part of the [Router] trait. *)
Class Router := {
  router_resolve_partition : RequestCtx -> bytes -> Result PartitionId SpiError;
  router_cluster_endpoint : ClusterId -> option str;
  router_upstream_credentials : ClusterId -> option UpstreamCredentials
}.
(** [TenancyRouter] delegates to the tenancy it wraps. *)
#[export] Instance tenancy_router `{T : TenancySpi} : Router := {|
  router_resolve_partition := resolve_partition;
  router_cluster_endpoint := cluster_endpoint;
  router_upstream_credentials := upstream_credentials
|}.

(** The calls a handler awaits: the [Router], [Sink], [Reader] and [WriteQueue] traits
    and [tokio::time::sleep], each with the type of its answer. *)
Inductive Call : Type -> Type :=
| Resolve (ctx : RequestCtx) : Call (Result Resolved SpiError)
| ResolvePlacement (ctx : RequestCtx) (partition : PartitionId) (index : str) : Call (Result Resolved SpiError)
| AdmitWrite (partition : PartitionId) (e : Epoch) : Call bool
| Sleep (nanos : Z) : Call unit
| SinkWrite (b : WriteBatch) : Call (Result WriteAck SinkError)
| SinkGet (op : ReadOp) : Call (Result ReadOutcome SinkError)
| SinkSearch (op : SearchOp) : Call (Result SearchOutcome SinkError)
| SinkCount (op : SearchOp) : Call (Result CountOutcome SinkError)
| SinkCursor (op : CursorOp) : Call (Result CursorOutcome SinkError)
| SinkSearchStream (op : SearchOp) : Call (Result StreamingSearch SinkError)
| SinkForwardStream (op : ForwardOp) (body : ByteBody) : Call (Result StreamingForward SinkError)
| Enqueue (w : QueuedWrite) : Call (Result unit QueueError).

End Calls.
Abbreviation event := (event_of Call).
Abbreviation trace := (trace_of Call).
Abbreviation prog := (prog_of Call).
Abbreviation world := (world_of Call).

(** The operations a trace sends to the sink. *)
Definition writes_of `{Sd : Serde} (e : event) : list WriteOp :=
  match e with Ev (SinkWrite b) _ => ops b | _ => [] end.
Definition written `{Sd : Serde} (tr : list event) : list WriteOp := mjoin (writes_of <$> tr).
Lemma written_app `{Sd : Serde} t1 t2 : written (t1 ++ t2) = written t1 ++ written t2.
Proof. unfold written. by rewrite fmap_app, join_app. Qed.
Lemma written_perm `{Sd : Serde} t1 t2 : t1 ≡ₚ t2 -> written t1 ≡ₚ written t2.
Proof. unfold written. by intros ->. Qed.
Lemma written_none `{Sd : Serde} tr : (forall e, e ∈ tr -> writes_of e = []) -> written tr = [].
Proof.
  induction tr as [|e tr IH]; intros H; [done|]. unfold written. cbn. rewrite (H e) by by left.
  apply IH. intros x Hx. apply H. by right.
Qed.

(** A call that only asks: for a routing decision, or for time to pass. *)
Definition asking `{Sd : Serde} (e : event) : Prop :=
  match e with Ev (Resolve _) _ | Ev (ResolvePlacement _ _ _) _ | Ev (Sleep _) _ => True | _ => False end.
Lemma asking_writes_none `{Sd : Serde} tr : Forall asking tr -> written tr = [].
Proof. intros H. apply written_none. rewrite Forall_forall in H. intros e He. specialize (H e He). by destruct e as [B []]. Qed.
