(* ===== verification/Retry.v ===== *)
(** * Bounded retry ([crates/osproxy-engine/src/retry.rs])

    Resolving a placement again, with exponential backoff, while its backend is
    unavailable. *)
From stdpp Require Import base option list strings numbers sets.
From Stdlib Require Import Ascii ZArith Lia.
From S2P Require Import Prelude.
From S2P Require Import CoreTypes.
From S2P Require Import Serde.
From S2P Require Import ToySerde.
From S2P Require Import Spi.
From S2P Require Import Tenancy.
From S2P Require Import Sink.
From S2P Require Import Prog.
From S2P Require Import Effects.

Open Scope osp_scope.

(** [std::time::Duration] in nanoseconds, up to [Duration::MAX]. *)
Definition duration_max : Z := 18446744073709551615 * 1000000000 + 999999999.
Definition saturating_mul (d : Z) (factor : Z) : Z := Z.min (d * factor) duration_max.
(** [1u32.checked_shl(attempt)]: [None] from 32 on. *)
Definition checked_shl (attempt : Z) : option Z :=
  if (attempt <? 32)%Z then Some (Z.shiftl 1 attempt) else None.

Record RetryPolicy : Type := MkRetryPolicy { max_attempts : Z; base_backoff : Z; max_backoff : Z }.
Definition retry_default : RetryPolicy := MkRetryPolicy 3 50000000 1000000000.
Definition backoff (p : RetryPolicy) (attempt : Z) : Z :=
  let factor := default 4294967295%Z (checked_shl attempt) in
  Z.min (saturating_mul (base_backoff p) factor) (max_backoff p).

Section Retry.
Context {Sd : Serde} {T : Type}.

(** The loop of [with_retry] from [attempt], [turns] turns at most; [None] in place of an
    answer would be a loop cut short ([with_retry_ends]: never). *)
Fixpoint retry_loop (turns : nat) (policy : RetryPolicy) (op : Call (Result T SpiError)) (attempt : Z)
    : prog (option (Result T SpiError)) :=
  match turns with
  | 0 => Ret None
  | S turns =>
      await! r := call op in
      match r with
      | Ok v => Ret (Some (Ok v))
      | Err err =>
          if spi_retryable err && (attempt + 1 <? max_attempts policy)%Z then
            let backoff := backoff policy attempt in
            await! _ := (if (backoff =? 0)%Z then Ret tt else call (Sleep backoff)) in
            retry_loop turns policy op (attempt + 1)
          else Ret (Some (Err err))
      end
  end.
Definition with_retry (policy : RetryPolicy) (op : Call (Result T SpiError)) : prog (Result T SpiError) :=
  await! r := retry_loop (S (Z.to_nat (max_attempts policy))) policy op 0 in
  Ret (default (Err (SpiPartitionUnresolved [])) r).

(** ** What the policy allows

    The attempts from [attempt] on: each asks once; a definitive answer, or any answer on
    the last attempt, ends them; a transient failure is followed by a pause and the next. *)
Definition pause (d : Z) : trace := if (d =? 0)%Z then [] else [Ev (Sleep d) tt].
Definition transient (r : Result T SpiError) : bool :=
  match r with Ok _ => false | Err e => spi_retryable e end.
Inductive attempts (policy : RetryPolicy) (op : Call (Result T SpiError)) : Z -> trace -> Result T SpiError -> Prop :=
| attempts_end attempt r :
    transient r = false \/ (max_attempts policy <= attempt + 1)%Z -> attempts policy op attempt [Ev op r] r
| attempts_again attempt r tr r' :
    transient r = true -> (attempt + 1 < max_attempts policy)%Z ->
    attempts policy op (attempt + 1) tr r' ->
    attempts policy op attempt (Ev op r :: pause (backoff policy attempt) ++ tr) r'.

Lemma exec_pause d tr : exec (if (d =? 0)%Z then Ret tt else call (Sleep d)) tr tt <-> tr = pause d.
Proof.
  unfold pause. destruct (d =? 0)%Z; [|apply exec_call]. cbn. split; [by intros []|done].
Qed.

Lemma retry_loop_exec turns policy op attempt tr r :
  (max_attempts policy <= attempt + Z.of_nat turns)%Z -> 0 < turns ->
  exec (retry_loop turns policy op attempt) tr r <-> exists a, r = Some a /\ attempts policy op attempt tr a.
Proof.
  revert attempt tr r. induction turns as [|turns IH]; intros attempt tr r Hm Hp; [lia|].
  cbn [retry_loop]. rewrite exec_bind. split.
  - intros (t1 & t2 & a & -> & ->%exec_call & H). destruct a as [v|err].
    { destruct H as [-> ->]. exists (Ok v). split; [done|]. apply attempts_end. by left. }
    destruct (spi_retryable err && _)%bool eqn:Hr; cycle 1.
    { destruct H as [-> ->]. exists (Err err). split; [done|]. apply attempts_end. cbn.
      apply andb_false_iff in Hr as [Hr|Hr%Z.ltb_ge]; [by left|by right]. }
    apply andb_true_iff in Hr as [Hr Hlt%Z.ltb_lt]. apply exec_bind in H as (t3 & t4 & [] & -> & Ht & H).
    apply exec_pause in Ht as ->. apply IH in H as (a & -> & Ha); [|lia|lia].
    exists a. split; [done|]. by apply attempts_again.
  - intros (a & -> & Ha). inversion Ha as [? ? He|? r0 tr0 ? Hr Hlt Hn]; subst.
    + exists [Ev op a], [], a. split; [done|]. split; [by apply exec_call|]. destruct a as [v|err]; [done|].
      destruct (spi_retryable err && _)%bool eqn:Hr; [|done].
      apply andb_true_iff in Hr as [Hr Hlt%Z.ltb_lt]. destruct He as [He|He]; [by cbn in He; congruence|lia].
    + exists [Ev op r0], (pause (backoff policy attempt) ++ tr0), r0. split; [done|]. split; [by apply exec_call|].
      destruct r0 as [v|err]; [done|]. cbn in Hr. rewrite Hr, (proj2 (Z.ltb_lt _ _) Hlt). cbn [andb].
      apply exec_bind. exists (pause (backoff policy attempt)), tr0, tt. split; [done|].
      split; [by apply exec_pause|]. apply IH; [lia|lia|eauto].
Qed.
Lemma with_retry_exec policy op tr r : exec (with_retry policy op) tr r <-> attempts policy op 0 tr r.
Proof.
  unfold with_retry. rewrite exec_bind. split.
  - intros (t1 & t2 & a & -> & (x & -> & H)%retry_loop_exec & -> & ->); [by rewrite app_nil_r|lia|lia].
  - intros H. exists tr, [], (Some r). rewrite app_nil_r. split; [done|]. split; [|done].
    apply retry_loop_exec; [lia|lia|eauto].
Qed.

(** What happens while resolving, and that the answer is one of the router's. *)
Lemma attempts_events policy op attempt tr r e :
  attempts policy op attempt tr r -> e ∈ tr -> (exists d, e = Ev (Sleep d) tt) \/ exists a, e = Ev op a.
Proof.
  induction 1 as [attempt r He|attempt r tr r' Hr Hlt Hn IH].
  - intros ->%list_elem_of_singleton. eauto.
  - rewrite elem_of_cons, elem_of_app. intros [->|[Hp|Ht]]; [eauto| |auto].
    unfold pause in Hp. destruct (_ =? 0)%Z; [by apply not_elem_of_nil in Hp|].
    apply list_elem_of_singleton in Hp as ->. eauto.
Qed.
Lemma attempts_answer policy op attempt tr r : attempts policy op attempt tr r -> Ev op r ∈ tr.
Proof.
  induction 1 as [attempt r He|attempt r tr r' Hr Hlt Hn IH]; [by left|]. right. apply elem_of_app. by right.
Qed.

(** Resolving makes no call that [before] restricts, and answers what the router did. *)
Lemma asking_guarded (before : list event -> event -> Prop) past tr :
  (forall past e, asking e -> before past e) -> Forall asking tr -> guarded before past tr.
Proof. intros Hb H. revert past. induction H as [|e tr He Ht IH]; intros past; [done|]. split; [by apply Hb|apply IH]. Qed.
Lemma retry_safe (before : list event -> event -> Prop) past policy op :
  (forall past e, asking e -> before past e) -> (forall a, asking (Ev op a)) ->
  safe before past (with_retry policy op) (fun tr r => Ev op r ∈ tr /\ Forall asking tr).
Proof.
  intros Hb Ha tr r H%with_retry_exec.
  assert (Hev : Forall asking tr).
  { apply Forall_forall. intros e [(d & ->)|(a & ->)]%(attempts_events _ _ _ _ _ e H); [done|apply Ha]. }
  split; [by apply asking_guarded|]. split; [by eapply attempts_answer|done].
Qed.

(** The calls that ask, and the time spent waiting. *)
Definition is_sleep (e : event) : bool := match e with Ev (Sleep _) _ => true | _ => false end.
Definition asks (tr : trace) : nat := foldr (fun e n => if is_sleep e then n else S n) 0 tr.
Definition waited (tr : trace) : Z :=
  foldr (fun e n => match e with Ev (Sleep d) _ => d + n | _ => n end)%Z 0%Z tr.

Lemma attempts_bounded policy op attempt tr r :
  is_sleep (Ev op r) = false -> (0 <= max_backoff policy)%Z ->
  attempts policy op attempt tr r ->
  (0 < asks tr)%nat /\ (attempt + Z.of_nat (asks tr) <= Z.max (attempt + 1) (max_attempts policy))%Z
  /\ (waited tr <= Z.of_nat (asks tr - 1) * max_backoff policy)%Z.
Proof.
  intros Hop Hb. assert (Hs : forall r, is_sleep (Ev op r) = false) by (intros x; by destruct op).
  assert (Hw : forall r t, waited (Ev op r :: t) = waited t) by (intros x t; specialize (Hs x); by destruct op).
  assert (Ha : forall r t, asks (Ev op r :: t) = S (asks t)).
  { intros x t. cbn [asks foldr]. by rewrite Hs. }
  clear Hop. induction 1 as [attempt r He|attempt r tr r' Hr Hlt Hn IH].
  - rewrite Hw, Ha. cbn. lia.
  - destruct IH as (IH1 & IH2 & IH3). rewrite Hw, Ha.
    assert (Hp : asks (pause (backoff policy attempt) ++ tr) = asks tr
      /\ (waited (pause (backoff policy attempt) ++ tr) <= max_backoff policy + waited tr)%Z).
    { unfold pause. destruct (_ =? 0)%Z; (split; [done|]); [change ([] ++ tr) with tr; lia|].
      change (waited ([Ev (Sleep (backoff policy attempt)) tt] ++ tr)) with (backoff policy attempt + waited tr)%Z.
      unfold backoff. lia. }
    destruct Hp as [-> Hp]. split; [lia|]. split; [lia|].
    replace (Z.of_nat (S (asks tr) - 1)) with (1 + Z.of_nat (asks tr - 1))%Z by lia. lia.
Qed.

Lemma backoff_doubles policy attempt :
  (0 <= attempt < 32)%Z -> (base_backoff policy * 2 ^ attempt <= duration_max)%Z ->
  backoff policy attempt = Z.min (base_backoff policy * 2 ^ attempt) (max_backoff policy).
Proof.
  intros Ha Hd. unfold backoff, checked_shl. rewrite (proj2 (Z.ltb_lt attempt 32)) by lia. cbn [default].
  rewrite Z.shiftl_mul_pow2, Z.mul_1_l by lia. unfold saturating_mul. by rewrite (Z.min_l _ duration_max).
Qed.

(** Resolving with retry returns after the attempts the policy allows and no more: it
    asks at least once and at most [max_attempts] times, gives up at the first definitive
    answer, returns the last answer it had, and waits between two attempts, each time
    [base_backoff] doubled per attempt up to [max_backoff]. *)
Theorem retry_is_bounded policy op tr r :
  is_sleep (Ev op r) = false -> (0 <= max_backoff policy)%Z ->
  exec (with_retry policy op) tr r ->
  attempts policy op 0 tr r
  /\ 1 <= asks tr /\ (Z.of_nat (asks tr) <= Z.max 1 (max_attempts policy))%Z
  /\ (waited tr <= Z.of_nat (asks tr - 1) * max_backoff policy)%Z
  /\ forall attempt, (0 <= attempt < 32)%Z -> (base_backoff policy * 2 ^ attempt <= duration_max)%Z ->
     backoff policy attempt = Z.min (base_backoff policy * 2 ^ attempt) (max_backoff policy).
Proof.
  intros Hop Hb H%with_retry_exec. destruct (attempts_bounded _ _ _ _ _ Hop Hb H) as (H1 & H2 & H3).
  split; [done|]. split; [lia|]. split; [lia|]. split; [done|]. apply backoff_doubles.
Qed.
End Retry.

(** A backend that is down twice. *)
Definition down : Result (@Resolved (toy_serde [])) SpiError := Err (SpiPlacementBackend true).
Definition gone : Result (@Resolved (toy_serde [])) SpiError := Err (SpiPartitionUnresolved []).
Definition sample_ask : @Call (toy_serde []) (Result (@Resolved (toy_serde [])) SpiError) :=
  ResolvePlacement (ctx_new (principal_new (lit "ci")) (lit "r1") Post IngestDoc Http1 (lit "orders") [] []) (lit "acme")
    (lit "orders").

Lemma retry_is_bounded_witness :
  let tr := [Ev sample_ask down; Ev (Sleep 50000000) tt; Ev sample_ask down; Ev (Sleep 100000000) tt; Ev sample_ask gone] in
  attempts retry_default sample_ask 0 tr gone
  /\ 1 <= asks tr /\ (Z.of_nat (asks tr) <= Z.max 1 (max_attempts retry_default))%Z
  /\ (waited tr <= Z.of_nat (asks tr - 1) * max_backoff retry_default)%Z
  /\ forall attempt, (0 <= attempt < 32)%Z -> (base_backoff retry_default * 2 ^ attempt <= duration_max)%Z ->
     backoff retry_default attempt = Z.min (base_backoff retry_default * 2 ^ attempt) (max_backoff retry_default).
Proof.
  apply (@retry_is_bounded (toy_serde []) (@Resolved (toy_serde []))); [reflexivity|done|].
  apply (interp_exec (fun B (c : Call B) (n : nat) =>
    match c in Call B return B * nat with
    | ResolvePlacement _ _ _ => (if n <=? 1 then down else gone, S n)
    | Sleep _ => (tt, n)
    | Resolve _ => (gone, n)
    | AdmitWrite _ _ => (true, n)
    | SinkWrite _ => (Err (SinkTransport (lit "down")), n)
    | SinkGet _ => (Err (SinkTransport (lit "down")), n)
    | SinkSearch _ => (Err (SinkTransport (lit "down")), n)
    | SinkCount _ => (Err (SinkTransport (lit "down")), n)
    | SinkCursor _ => (Err (SinkTransport (lit "down")), n)
    | SinkSearchStream _ => (Err (SinkTransport (lit "down")), n)
    | SinkForwardStream _ _ => (Err (SinkTransport (lit "down")), n)
    | Enqueue _ => (Ok tt, n)
    end) (with_retry retry_default sample_ask) 0).
Defined.
