(* ===== verification/HttpSink.v ===== *)
(** * The sink over HTTP ([crates/osproxy-sink/src]: opensearch, conn, trace_headers, wire)

    Each operation of the sink seam becomes a request to the pool of its cluster.  An
    operation is a program over the calls of [HttpCall]: the sink's shared state, each
    access of it atomic, and the exchange with the upstream. *)
From stdpp Require Import base option list strings numbers sets gmap.
From Stdlib Require Import Ascii ZArith Lia.
From S2P Require Import Prelude.
From S2P Require Import Trace.
From S2P Require Import CoreTypes.
From S2P Require Import Serde.
From S2P Require Import ToySerde.
From S2P Require Import Spi.
From S2P Require Import Sink.
From S2P Require Import SearchScan.
From S2P Require Import Breaker.
From S2P Require Import Prog.
From S2P Require Import Effects.

Open Scope osp_scope.

(** The [http] crate: the header names (in lower case) and values it accepts, the texts of
    header values, and the URIs it accepts. *)
Class HttpTypes := {
  header_name_from : str -> option str;
  header_value_from : str -> option str;
  header_value_text : str -> option str;
  uri_valid : str -> bool
}.

Definition Headers : Type := gmap str str.
Record HttpRequest : Type := MkHttpRequest {
  hq_method : HttpMethod;
  hq_uri : str;
  hq_headers : Headers;
  hq_body : ByteBody
}.
Record HttpResponse : Type := MkHttpResponse { hr_status : Z; hr_headers : Headers; hr_body : ByteBody }.
(** What awaiting the pooled client under the timeout gives. *)
Inductive HttpAnswer : Type := Answered (resp : HttpResponse) | Refused | TimedOut.

(** [Full]: no frame for empty bytes. *)
Definition buffered (b : bytes) : ByteBody := match b with [] => [] | _ => [Data b] end.
(** [collect().await.to_bytes()]. *)
Fixpoint collect_body (frames : ByteBody) : option bytes :=
  match frames with
  | [] => Some []
  | Data b :: frames => rest ← collect_body frames; Some (b ++ rest)
  | Trailers :: frames => collect_body frames
  | BodyFailed _ :: _ => None
  end.

(** ** Calls

    A pool is never replaced, so the cluster stands for the [Arc] of its pool. *)
Inductive HttpCall : Type -> Type :=
| PoolGet (c : ClusterId) : HttpCall (option str)
| PoolInsert (c : ClusterId) (base : str) : HttpCall str
| BreakerAllows (c : ClusterId) : HttpCall bool
| BreakerSuccess (c : ClusterId) : HttpCall unit
| BreakerFailure (c : ClusterId) : HttpCall unit
| CountDispatch (c : ClusterId) : HttpCall unit
| OpenCount (c : ClusterId) : HttpCall Z
| Exchange (c : ClusterId) (http2 : bool) (req : HttpRequest) : HttpCall HttpAnswer.
Abbreviation hprog := (prog_of HttpCall).

(** ** Headers *)
Section Headers.
Context {H : HttpTypes}.
Definition insert_header (hs : Headers) (name value : str) : Headers :=
  match header_name_from name, header_value_from value with
  | Some n, Some v => <[n := v]> hs
  | _, _ => hs
  end.
Definition apply_forward_headers (hs : Headers) (headers : list (str * str)) : Headers :=
  foldl (fun hs h => insert_header hs h.1 h.2) hs headers.
Definition apply_credentials (hs : Headers) (creds : option UpstreamCredentials) : Headers :=
  match creds with Some c => insert_header hs (header_name c) (header_value c) | None => hs end.
Definition inject_trace (hs : Headers) (t : option TraceContext) : Headers :=
  match t with
  | Some t =>
      let hs := match header_value_from (to_traceparent t) with Some v => <[lit "traceparent" := v]> hs | None => hs end in
      match to_tracestate t ≫= header_value_from with Some v => <[lit "tracestate" := v]> hs | None => hs end
  | None => hs
  end.
(** [UpstreamHeaders], applied in the order of its fields. *)
Record UpstreamHeaders : Type := MkUpstreamHeaders {
  uh_forward : list (str * str);
  uh_credentials : option UpstreamCredentials;
  uh_trace : option TraceContext
}.
Definition upstream_headers (hs : Headers) (h : UpstreamHeaders) : Headers :=
  inject_trace (apply_credentials (apply_forward_headers hs (uh_forward h)) (uh_credentials h)) (uh_trace h).
Definition content_type_of (resp : HttpResponse) : option str :=
  hr_headers resp !! lit "content-type" ≫= header_value_text.
End Headers.

Definition json_headers : Headers := {[ lit "content-type" := lit "application/json" ]}.
Definition hyper_method (m : HttpMethod) : HttpMethod :=
  match m with Get => Get | Put => Put | DeleteMethod => DeleteMethod | Head => Head | _ => Post end.
Definition use_http2 (p : Protocol) : bool := match p with Http2 | Grpc => true | _ => false end.
Definition reject_path_traversal (path : str) : Result unit SinkError :=
  if existsb (fun seg => str_eqb seg (lit "..")) (split "/" path)
  then Err (SinkTransport (lit "refusing a forwarded path with a `..` segment")) else Ok tt.
Definition reject_5xx (status : Z) : Result unit SinkError :=
  if (500 <=? status)%Z then Err (SinkUpstream status ((502 <=? status)%Z && (status <=? 504)%Z)) else Ok tt.
(** [format!("{base}?{q}")] when there is a query. *)
Definition with_query (base : str) (query : option str) : str :=
  match query with Some (c :: q) => base ++ lit "?" ++ c :: q | _ => base end.

(** ** Operations *)
Section Operations.
Context {Sd : Serde} {Si : SerdeInt} {H : HttpTypes}.

Definition build_http (m : HttpMethod) (uri : str) (hs : Headers) (b : ByteBody) (kind : str) : Result HttpRequest SinkError :=
  if uri_valid uri then Ok (MkHttpRequest m uri hs b) else Err (SinkTransport kind).
Definition build_request (base : str) (index : IndexName) (doc : DocOp) : Result (HttpRequest * str) SinkError :=
  let '(m, uri, b, fallback_id) := request_parts base index doc in
  let? req := build_http m uri json_headers (buffered b) (lit "building upstream request") in
  Ok (req, fallback_id).

Definition pool_for (c : ClusterId) (endpoint : option str) : hprog (Result str SinkError) :=
  await! found := call (PoolGet c) in
  match found, endpoint with
  | Some base, _ => Ret (Ok base)
  | None, None => Ret (Err (SinkTransport (lit "no endpoint for target cluster")))
  | None, Some base => await! base := call (PoolInsert c base) in Ret (Ok base)
  end.
(** The request as it leaves: with the upstream's headers. *)
Definition addressed (req : HttpRequest) (h : UpstreamHeaders) : HttpRequest :=
  MkHttpRequest (hq_method req) (hq_uri req) (upstream_headers (hq_headers req) h) (hq_body req).
Definition send (c : ClusterId) (p : Protocol) (req : HttpRequest) (h : UpstreamHeaders) (fail_kind : str)
    : hprog (Result (HttpResponse * bool) SinkError) :=
  let req := addressed req h in
  await! allowed := call (BreakerAllows c) in
  if negb allowed then Ret (Err (SinkTransport (lit "cluster shed (circuit open)")))
  else
    await! _ := call (CountDispatch c) in
    await! opens_before := call (OpenCount c) in
    await! answer := call (Exchange c (use_http2 p) req) in
    match answer with
    | Answered resp =>
        await! _ := call (BreakerSuccess c) in
        await! opens := call (OpenCount c) in
        Ret (Ok (resp, (opens =? opens_before)%Z))
    | Refused => await! _ := call (BreakerFailure c) in Ret (Err (SinkTransport fail_kind))
    | TimedOut => await! _ := call (BreakerFailure c) in Ret (Err (SinkTransport (lit "upstream timeout")))
    end.
(** What follows [send] everywhere: the status, refused from 500 on. *)
Definition send_checked (c : ClusterId) (p : Protocol) (req : HttpRequest) (h : UpstreamHeaders) (fail_kind : str)
    : hprog (Result (HttpResponse * bool) SinkError) :=
  try! (resp, reused) := send c p req h fail_kind in
  Ret (let? _ := reject_5xx (hr_status resp) in Ok (resp, reused)).
Definition read_body (resp : HttpResponse) (kind : str) : Result bytes SinkError :=
  ok_or (collect_body (hr_body resp)) (SinkTransport kind).

Definition write_headers (op : WriteOp) : UpstreamHeaders :=
  MkUpstreamHeaders (w_forward_headers op) (credentials (w_target op)) (w_trace op).
Definition dispatch (op : WriteOp) : hprog (Result (OpResult * bool) SinkError) :=
  try! base := pool_for (cluster (w_target op)) (endpoint (w_target op)) in
  match build_request base (index (w_target op)) (w_doc op) with
  | Err e => Ret (Err e)
  | Ok (req, fallback_id) =>
      try! (resp, reused) := send_checked (cluster (w_target op)) (w_protocol op) req (write_headers op)
        (lit "upstream request failed") in
      Ret (let? b := read_body resp (lit "reading upstream response") in
           Ok (parse_result b fallback_id (hr_status resp), reused))
  end.
Fixpoint write_loop (os : list WriteOp) (rs : list OpResult) (all_reused : bool) : hprog (Result WriteAck SinkError) :=
  match os with
  | [] => Ret (Ok (ack_with_pool_reuse (ack_new rs) all_reused))
  | op :: os =>
      try! (r, reused) := dispatch op in
      write_loop os (rs ++ [r]) (all_reused && reused)
  end.
Definition http_write (b : WriteBatch) : hprog (Result WriteAck SinkError) := write_loop (ops b) [] true.

Definition query_request (verb : str) (base : str) (op : SearchOp) : Result HttpRequest SinkError :=
  build_http Post (with_query (base ++ lit "/" ++ index (so_target op) ++ lit "/" ++ verb) (so_query op))
    json_headers (buffered (so_body op)) (lit "building upstream query request").
Definition query_headers (op : SearchOp) : UpstreamHeaders :=
  MkUpstreamHeaders (so_forward_headers op) (credentials (so_target op)) (so_trace op).
Definition query_send (verb : str) (op : SearchOp) : hprog (Result (HttpResponse * bool) SinkError) :=
  try! base := pool_for (cluster (so_target op)) (endpoint (so_target op)) in
  match query_request verb base op with
  | Err e => Ret (Err e)
  | Ok req =>
      send_checked (cluster (so_target op)) (so_protocol op) req (query_headers op) (lit "upstream query failed")
  end.
Definition post_query (verb : str) (op : SearchOp) : hprog (Result (Z * bytes * bool) SinkError) :=
  try! (resp, reused) := query_send verb op in
  Ret (let? b := read_body resp (lit "reading upstream query response") in Ok (hr_status resp, b, reused)).
Definition get_request (base : str) (op : ReadOp) : Result HttpRequest SinkError :=
  build_http Get (doc_uri base (index (rd_target op)) (Some (rd_id op)) (rd_routing op)) ∅ (buffered [])
    (lit "building upstream read request").
Definition get_headers (op : ReadOp) : UpstreamHeaders :=
  MkUpstreamHeaders (rd_forward_headers op) (credentials (rd_target op)) (rd_trace op).
Definition http_get (op : ReadOp) : hprog (Result ReadOutcome SinkError) :=
  try! base := pool_for (cluster (rd_target op)) (endpoint (rd_target op)) in
  match get_request base op with
  | Err e => Ret (Err e)
  | Ok req =>
      try! (resp, reused) := send_checked (cluster (rd_target op)) (rd_protocol op) req (get_headers op)
        (lit "upstream read failed") in
      Ret (let? b := read_body resp (lit "reading upstream read response") in
           let status := hr_status resp in
           Ok (read_with_pool_reuse (if (status =? 200)%Z then read_found status b else read_not_found status b) reused))
  end.
Definition http_search (op : SearchOp) : hprog (Result SearchOutcome SinkError) :=
  try! (status, b, reused) := post_query (lit "_search") op in
  Ret (Ok (search_with_pool_reuse (search_outcome_new status b) reused)).
Definition http_count (op : SearchOp) : hprog (Result CountOutcome SinkError) :=
  try! (status, b, reused) := post_query (lit "_count") op in
  let count := default 0%Z (v ← from_slice b; n ← value_get v (lit "count");
                            match n with Number n => num_u64 n | _ => None end) in
  Ret (Ok (count_with_pool_reuse (count_outcome_new status count) reused)).
Definition http_search_stream (op : SearchOp) : hprog (Result StreamingSearch SinkError) :=
  try! (resp, reused) := query_send (lit "_search") op in
  Ret (Ok (MkStreamingSearch (hr_status resp) (hr_body resp) reused)).

Definition forward_request (base : str) (op : ForwardOp) (b : ByteBody) : Result HttpRequest SinkError :=
  build_http (hyper_method (fo_method op)) (with_query (base ++ fo_path op) (fo_query op)) json_headers b
    (lit "building upstream forward request").
Definition op_headers (op : ForwardOp) : UpstreamHeaders :=
  MkUpstreamHeaders (fo_forward_headers op) (fo_credentials op) (fo_trace op).
Definition forward_send (op : ForwardOp) (b : ByteBody) (fail_kind : str) : hprog (Result (HttpResponse * bool) SinkError) :=
  match reject_path_traversal (fo_path op) with
  | Err e => Ret (Err e)
  | Ok _ =>
      try! base := pool_for (fo_cluster op) (fo_endpoint op) in
      match forward_request base op b with
      | Err e => Ret (Err e)
      | Ok req => send_checked (fo_cluster op) (fo_protocol op) req (op_headers op) fail_kind
      end
  end.
Definition forward_of_cursor (op : CursorOp) : ForwardOp :=
  MkForwardOp (cu_cluster op) (cu_method op) (cu_path op) (cu_query op) (cu_endpoint op) (cu_credentials op)
    (cu_protocol op) (cu_trace op) (cu_forward_headers op).
Definition http_cursor (op : CursorOp) : hprog (Result CursorOutcome SinkError) :=
  try! (resp, reused) := forward_send (forward_of_cursor op) (buffered (cu_body op)) (lit "upstream cursor failed") in
  Ret (let? b := read_body resp (lit "reading upstream cursor response") in
       Ok (cursor_with_content_type (cursor_with_pool_reuse (cursor_outcome_new (hr_status resp) b) reused) (content_type_of resp))).
Definition http_forward_stream (op : ForwardOp) (b : ByteBody) : hprog (Result StreamingForward SinkError) :=
  try! (resp, reused) := forward_send op b (lit "upstream forward failed") in
  Ret (Ok (MkStreamingForward (hr_status resp) (hr_body resp) (content_type_of resp) reused)).

(** ** What an operation sends

    [before] of a sink program: a request goes out only when the breaker of its cluster
    has let it through, with what the operation makes of it for the base URL that the
    cluster's pool has given. *)
Definition pooled (past : list (event_of HttpCall)) (c : ClusterId) (base : str) : Prop :=
  Ev (PoolGet c) (Some base) ∈ past \/ exists b, Ev (PoolInsert c b) base ∈ past.
Definition sends (P : ClusterId -> bool -> str -> HttpRequest -> Prop) (past : list (event_of HttpCall))
    (e : event_of HttpCall) : Prop :=
  match e with
  | Ev (Exchange c http2 req) _ => Ev (BreakerAllows c) true ∈ past /\ exists base, pooled past c base /\ P c http2 base req
  | _ => True
  end.
Lemma pooled_mono past past' c base : past ⊆ past' -> pooled past c base -> pooled past' c base.
Proof. intros Hp [H1|(b & H1)]; [left|right; exists b]; by apply Hp. Qed.
Lemma sends_mono P past past' e : past ⊆ past' -> sends P past e -> sends P past' e.
Proof.
  intros Hp. destruct e as [B []]; try done. intros (H1 & base & H2 & H3).
  split; [by apply Hp|]. exists base. split; [by eapply pooled_mono|done].
Qed.

(** The answer of a request that came back below 500. *)
Definition answered (c : ClusterId) (p : Protocol) (req : HttpRequest) (tr : list (event_of HttpCall)) (resp : HttpResponse) : Prop :=
  Ev (Exchange c (use_http2 p) req) (Answered resp) ∈ tr /\ (hr_status resp < 500)%Z.
Lemma pool_for_sends P past c e :
  safe (sends P) past (pool_for c e) (fun tr r => forall base, r = Ok base -> pooled (tr ++ past) c base).
Proof.
  unfold pool_for. eapply (safe_bind _ (sends_mono P)).
  { apply (safe_call _ _ _ (fun tr found => tr = [Ev (PoolGet c) found])). done. }
  intros tr found ->. destruct found as [base|].
  { apply safe_ret. intros ? [= <-]. left. set_solver. }
  destruct e as [b|]; [|by apply safe_ret]. apply safe_do. intros base. split; [done|]. apply safe_ret.
  intros ? [= <-]. right. exists b. set_solver.
Qed.
Lemma send_checked_sends P past c p req h kind base :
  pooled past c base -> P c (use_http2 p) base (addressed req h) ->
  safe (sends P) past (send_checked c p req h kind) (fun tr r =>
    forall resp reused, r = Ok (resp, reused) -> answered c p (addressed req h) tr resp).
Proof.
  intros Hb HP. unfold send_checked, try_bind, send.
  eapply (safe_bind _ (sends_mono P) _ _ _ (fun tr r => forall resp reused, r = Ok (resp, reused) ->
    Ev (Exchange c (use_http2 p) (addressed req h)) (Answered resp) ∈ tr)).
  - apply safe_do. intros allowed. split; [done|]. destruct allowed; [|by apply safe_ret].
    cbn [bind negb]. apply safe_do. intros u. split; [done|]. apply safe_do. intros n. split; [done|].
    apply safe_do. intros answer. split.
    { split; [set_solver|]. exists base. split; [|done]. eapply pooled_mono; [|exact Hb]. set_solver. }
    cbn [bind]. destruct answer as [resp| |]; apply safe_do; intros v; (split; [done|]); cbn [bind]; [|by apply safe_ret..].
    apply safe_do. intros m. split; [done|]. apply safe_ret. intros ? ? [= -> _]. set_solver.
  - intros tr [[resp reused]|e] Hr; apply safe_ret; rewrite app_nil_r; [|done]. intros resp' reused'.
    unfold reject_5xx. destruct (500 <=? hr_status resp)%Z eqn:Hs; [done|]. intros [= <- <-].
    split; [by eapply Hr|by apply Z.leb_gt].
Qed.

(** The request an operation makes for a base URL, as it leaves. *)
Definition write_sends (op : WriteOp) (c : ClusterId) (http2 : bool) (base : str) (req : HttpRequest) : Prop :=
  exists r fallback, build_request base (index (w_target op)) (w_doc op) = Ok (r, fallback)
  /\ c = cluster (w_target op) /\ http2 = use_http2 (w_protocol op) /\ req = addressed r (write_headers op).
Definition get_sends (op : ReadOp) (c : ClusterId) (http2 : bool) (base : str) (req : HttpRequest) : Prop :=
  exists r, get_request base op = Ok r
  /\ c = cluster (rd_target op) /\ http2 = use_http2 (rd_protocol op) /\ req = addressed r (get_headers op).
Definition query_sends (verb : str) (op : SearchOp) (c : ClusterId) (http2 : bool) (base : str) (req : HttpRequest) : Prop :=
  exists r, query_request verb base op = Ok r
  /\ c = cluster (so_target op) /\ http2 = use_http2 (so_protocol op) /\ req = addressed r (query_headers op).
Definition forward_sends (op : ForwardOp) (b : ByteBody) (c : ClusterId) (http2 : bool) (base : str) (req : HttpRequest) : Prop :=
  exists r, forward_request base op b = Ok r /\ reject_path_traversal (fo_path op) = Ok tt
  /\ c = fo_cluster op /\ http2 = use_http2 (fo_protocol op) /\ req = addressed r (op_headers op).

Lemma query_send_sends past verb op :
  safe (sends (query_sends verb op)) past (query_send verb op) (fun tr r => forall resp reused, r = Ok (resp, reused) ->
    exists base req, query_request verb base op = Ok req
    /\ answered (cluster (so_target op)) (so_protocol op) (addressed req (query_headers op)) tr resp).
Proof.
  unfold query_send, try_bind. eapply (safe_bind _ (sends_mono _)); [apply pool_for_sends|].
  intros tr [base|e] Hb; [|by apply safe_ret]. specialize (Hb base eq_refl).
  destruct (query_request verb base op) as [req|e] eqn:Hr; [|by apply safe_ret].
  eapply (safe_mono _ (sends_mono _) _ _ _ _ _ (fun x Hx => Hx)); [|eapply send_checked_sends; [exact Hb|by exists req]].
  intros tr' r Ha resp reused Hok. exists base, req. split; [done|]. destruct (Ha resp reused Hok) as [H1 H2].
  split; [set_solver|done].
Qed.
Lemma forward_send_sends past op b kind :
  safe (sends (forward_sends op b)) past (forward_send op b kind) (fun tr r => forall resp reused, r = Ok (resp, reused) ->
    exists base req, forward_request base op b = Ok req
    /\ answered (fo_cluster op) (fo_protocol op) (addressed req (op_headers op)) tr resp).
Proof.
  unfold forward_send. destruct (reject_path_traversal (fo_path op)) as [[]|e] eqn:Hp; [|by apply safe_ret].
  unfold try_bind. eapply (safe_bind _ (sends_mono _)); [apply pool_for_sends|].
  intros tr [base|e] Hb; [|by apply safe_ret]. specialize (Hb base eq_refl).
  destruct (forward_request base op b) as [req|e] eqn:Hr; [|by apply safe_ret].
  eapply (safe_mono _ (sends_mono _) _ _ _ _ _ (fun x Hx => Hx)); [|eapply send_checked_sends; [exact Hb|by exists req]].
  intros tr' r Ha resp reused Hok. exists base, req. split; [done|]. destruct (Ha resp reused Hok) as [H1 H2].
  split; [set_solver|done].
Qed.
Lemma http_get_sends past op : safe (sends (get_sends op)) past (http_get op) (fun _ _ => True).
Proof.
  unfold http_get, try_bind. eapply (safe_bind _ (sends_mono _)); [apply pool_for_sends|].
  intros tr [base|e] Hb; [|by apply safe_ret]. specialize (Hb base eq_refl).
  destruct (get_request base op) as [req|e] eqn:Hr; [|by apply safe_ret].
  eapply (safe_bind _ (sends_mono _)); [eapply send_checked_sends; [exact Hb|by exists req]|].
  intros tr' [[resp reused]|e] _; by apply safe_ret.
Qed.
(** The result of a write: its request was answered below 500, and this is what the
    answer says. *)
Definition WriteResult (tr : list (event_of HttpCall)) (op : WriteOp) (r : OpResult) : Prop :=
  exists base req fallback resp b, build_request base (index (w_target op)) (w_doc op) = Ok (req, fallback)
  /\ answered (cluster (w_target op)) (w_protocol op) (addressed req (write_headers op)) tr resp
  /\ collect_body (hr_body resp) = Some b /\ r = parse_result b fallback (hr_status resp).
Lemma WriteResult_mono tr tr' op r : tr ⊆ tr' -> WriteResult tr op r -> WriteResult tr' op r.
Proof.
  intros Ht (base & req & fb & resp & b & H1 & [H2 H3] & H4 & H5). exists base, req, fb, resp, b.
  split; [done|]. split; [|done]. split; [by apply Ht|done].
Qed.
Lemma dispatch_sends (P : ClusterId -> bool -> str -> HttpRequest -> Prop) past op :
  (forall c h2 base req, write_sends op c h2 base req -> P c h2 base req) ->
  safe (sends P) past (dispatch op) (fun tr r => forall res reused, r = Ok (res, reused) -> WriteResult tr op res).
Proof.
  intros HP. unfold dispatch, try_bind. eapply (safe_bind _ (sends_mono _)); [apply pool_for_sends|].
  intros tr [base|e] Hb; [|by apply safe_ret]. specialize (Hb base eq_refl).
  destruct (build_request base (index (w_target op)) (w_doc op)) as [[req fallback]|e] eqn:Hr; [|by apply safe_ret].
  eapply (safe_bind _ (sends_mono _)).
  { eapply send_checked_sends; [exact Hb|]. apply HP. by exists req, fallback. }
  intros tr' [[resp reused]|e] Ha; apply safe_ret; [|done]. rewrite app_nil_r. intros res reused'.
  unfold read_body. destruct (collect_body (hr_body resp)) as [b|] eqn:Hc; [|done]. intros [= <- <-].
  destruct (Ha resp reused eq_refl) as [H1 H2].
  exists base, req, fallback, resp, b. split; [done|]. split; [|done]. split; [set_solver|done].
Qed.
Lemma http_write_sends past b :
  safe (sends (fun c h2 base req => exists op, op ∈ ops b /\ write_sends op c h2 base req)) past (http_write b)
    (fun tr r => forall ack, r = Ok ack -> Forall2 (WriteResult tr) (ops b) (results ack)).
Proof.
  unfold http_write. set (P := fun c h2 base req => _).
  assert (Hall : forall done_ os rs reused past, done_ ++ os = ops b -> Forall2 (WriteResult past) done_ rs ->
    safe (sends P) past (write_loop os rs reused) (fun tr r => forall ack, r = Ok ack ->
      Forall2 (WriteResult (tr ++ past)) (ops b) (results ack))).
  { intros done_ os. revert done_. induction os as [|op os IH]; intros done_ rs reused past' Heq Hd; cbn [write_loop].
    { apply safe_ret. intros ack [= <-]. by rewrite <- Heq, app_nil_r. }
    unfold try_bind. eapply (safe_bind _ (sends_mono _)).
    { apply dispatch_sends. intros c h2 base req Hs. exists op. split; [rewrite <- Heq; set_solver|done]. }
    intros tr [[r re]|e] Hr; [|by apply safe_ret].
    eapply (safe_mono _ (sends_mono _) _ _ _ _ _ (fun x Hx => Hx)); [|apply (IH (done_ ++ [op]))].
    - intros tr' out Ho ack Ha. eapply Forall2_impl; [by apply Ho|]. intros o x. apply WriteResult_mono. set_solver.
    - by rewrite <- app_assoc.
    - apply Forall2_app; [eapply Forall2_impl; [exact Hd|]; intros o x; apply WriteResult_mono; set_solver|].
      repeat constructor. eapply WriteResult_mono; [|by eapply Hr]. set_solver. }
  intros tr r He. destruct (Hall [] (ops b) [] true [] eq_refl ltac:(constructor) tr r He) as [_ Hq].
  destruct (Hall [] (ops b) [] true past eq_refl ltac:(constructor) tr r He) as [Hg _].
  rewrite app_nil_r in Hq. done.
Qed.
(** Reading the answer sends nothing more. *)
Lemma then_sends {A E B} P past (m : hprog (Result A E)) (k : A -> hprog (Result B E)) Q :
  (forall a, exists r, k a = Ret r) -> safe (sends P) past m Q -> safe (sends P) past (try_bind m k) (fun _ _ => True).
Proof.
  intros Hk Hm. unfold try_bind. eapply (safe_bind _ (sends_mono P)); [exact Hm|].
  intros tr [a|e] _; [|by apply safe_ret]. destruct (Hk a) as [r ->]. by apply safe_ret.
Qed.
(** The pool an operation opens is that of the cluster of its target, for the endpoint that
    came with the target. *)
Definition opens (T : ClusterId -> str -> Prop) (e : event_of HttpCall) : Prop :=
  match e with Ev (PoolInsert c base) _ => T c base | _ => True end.
Lemma opens_mono T past past' e : past ⊆ past' -> (fun _ => opens T) past e -> (fun _ : list (event_of HttpCall) => opens T) past' e.
Proof. done. Qed.
#[local] Abbreviation opening T past m := (safe (fun _ => opens T) past m (fun _ _ => True)).
Lemma opening_try {A B} T past (m : hprog (Result A SinkError)) (f : A -> hprog (Result B SinkError)) :
  (forall past, opening T past m) -> (forall past a, opening T past (f a)) -> opening T past (try_bind m f).
Proof.
  intros Hm Hf. eapply (safe_bind _ (opens_mono T)); [apply Hm|]. intros tr [a|e] _; [apply Hf|by apply safe_ret].
Qed.
Lemma opening_ret {A} (T : ClusterId -> str -> Prop) past (a : A) : opening T past (Ret a).
Proof. by apply safe_ret. Qed.
Lemma pool_for_opens T past c e : (forall b, e = Some b -> T c b) -> opening T past (pool_for c e).
Proof.
  intros HT. apply safe_do. intros [base|]; (split; [done|]); [by apply safe_ret|].
  destruct e as [b|]; [|by apply safe_ret]. apply safe_do. intros base. split; [by apply HT|]. by apply safe_ret.
Qed.
Lemma send_checked_opens T past c p req h kind : opening T past (send_checked c p req h kind).
Proof.
  apply opening_try; [|intros ? []; apply opening_ret]. clear past. intros past. apply safe_do. intros [|]; (split; [done|]); [|apply opening_ret].
  apply safe_do. intros u. split; [done|]. apply safe_do. intros n. split; [done|]. apply safe_do. intros a. split; [done|].
  destruct a; apply safe_do; intros v; (split; [done|]); [|apply opening_ret..]. apply safe_do. intros m. split; [done|]. apply opening_ret.
Qed.
Definition opened_for (cl : ClusterId) (ep : option str) (c : ClusterId) (base : str) : Prop := c = cl /\ ep = Some base.
Lemma query_send_opens past verb op :
  opening (opened_for (cluster (so_target op)) (endpoint (so_target op))) past (query_send verb op).
Proof.
  apply opening_try; [intros; by apply pool_for_opens|]. intros past' base. destruct (query_request verb base op); [|apply opening_ret].
  apply send_checked_opens.
Qed.
Lemma forward_send_opens past op b kind : opening (opened_for (fo_cluster op) (fo_endpoint op)) past (forward_send op b kind).
Proof.
  unfold forward_send. destruct (reject_path_traversal _); [|apply opening_ret].
  apply opening_try; [intros; by apply pool_for_opens|]. intros past' base. destruct (forward_request base op b); [|apply opening_ret].
  apply send_checked_opens.
Qed.
Lemma http_get_opens past op : opening (opened_for (cluster (rd_target op)) (endpoint (rd_target op))) past (http_get op).
Proof.
  apply opening_try; [intros; by apply pool_for_opens|]. intros past' base. destruct (get_request base op); [|apply opening_ret].
  apply opening_try; [intros; apply send_checked_opens|intros ? []; apply opening_ret].
Qed.
Lemma http_write_opens past b :
  opening (fun c base => exists op, op ∈ ops b /\ opened_for (cluster (w_target op)) (endpoint (w_target op)) c base) past (http_write b).
Proof.
  unfold http_write. set (T := fun c base => _). assert (Hall : forall os rs reused past, os ⊆ ops b -> opening T past (write_loop os rs reused)).
  { intros os. induction os as [|op os IH]; intros rs reused past' Hs; cbn [write_loop]; [apply opening_ret|].
    apply opening_try; [|intros ? []; apply IH; set_solver]. intros past1. unfold dispatch.
    apply opening_try; [intros; apply pool_for_opens; intros e He; exists op; split; [set_solver|done]|]. intros past2 base.
    destruct (build_request _ _ _) as [[]|]; [|apply opening_ret].
    apply opening_try; [intros; apply send_checked_opens|intros ? []; apply opening_ret]. }
  by apply Hall.
Qed.
Lemma then_opens {A B} T past (m : hprog (Result A SinkError)) (k : A -> hprog (Result B SinkError)) :
  (forall a, exists r, k a = Ret r) -> (forall past, opening T past m) -> opening T past (try_bind m k).
Proof. intros Hk Hm. apply opening_try; [done|]. intros past' a. destruct (Hk a) as [r ->]. apply opening_ret. Qed.
End Operations.

(** ** What the sink promises *)
Section Contract.
Context {H : HttpTypes}.

(** The value a header name gets from each source, in the order in which they win. *)
Definition trace_value (t : option TraceContext) (m : str) : option str :=
  t ← t; if str_eqb m (lit "traceparent") then header_value_from (to_traceparent t)
         else if str_eqb m (lit "tracestate") then to_tracestate t ≫= header_value_from else None.
Definition entry_value (name value m : str) : option str :=
  n ← header_name_from name; v ← header_value_from value; if str_eqb n m then Some v else None.
Definition credentials_value (c : option UpstreamCredentials) (m : str) : option str :=
  c ← c; entry_value (header_name c) (header_value c) m.
Fixpoint forwarded_value (hs : list (str * str)) (m : str) : option str :=
  match hs with [] => None | h :: hs => from_option Some (entry_value h.1 h.2 m) (forwarded_value hs m) end.
Definition or_else (a b : option str) : option str := from_option Some b a.

Lemma set_same (hs : Headers) n v : <[n := v]> hs !! n = Some v.
Proof. apply (lookup_insert_eq (M := gmap str)). Qed.
Lemma set_other (hs : Headers) n m v : n <> m -> <[n := v]> hs !! m = hs !! m.
Proof. apply (lookup_insert_ne (M := gmap str)). Qed.
Lemma insert_header_value hs name value m :
  insert_header hs name value !! m = or_else (entry_value name value m) (hs !! m).
Proof.
  unfold insert_header, entry_value. destruct (header_name_from name) as [n|]; [|done].
  destruct (header_value_from value) as [v|]; [|done]. cbn. destruct (str_eqb n m) eqn:He.
  - apply str_eqb_eq in He as ->. apply set_same.
  - apply str_eqb_neq in He. by apply set_other.
Qed.
Lemma forward_headers_value headers hs m :
  apply_forward_headers hs headers !! m = or_else (forwarded_value headers m) (hs !! m).
Proof.
  unfold apply_forward_headers. revert hs. induction headers as [|h headers IH]; intros hs; [done|].
  cbn [foldl forwarded_value]. rewrite IH, insert_header_value. by destruct (forwarded_value headers m).
Qed.
Lemma inject_trace_value t hs m : inject_trace hs t !! m = or_else (trace_value t m) (hs !! m).
Proof.
  destruct t as [t|]; [|done]. unfold inject_trace, trace_value. cbn [mbind option_bind].
  destruct (str_eqb m (lit "traceparent")) eqn:H1.
  { apply str_eqb_eq in H1 as ->. destruct (to_tracestate t ≫= header_value_from).
    - rewrite set_other by done. destruct (header_value_from _); [|done].
      apply set_same.
    - destruct (header_value_from _); [|done]. apply set_same. }
  apply str_eqb_neq in H1.
  assert (Hp : match header_value_from (to_traceparent t) with
               | Some v => <[lit "traceparent" := v]> hs
               | None => hs
               end !! m = hs !! m)
    by (destruct (header_value_from _); [by apply set_other|done]).
  destruct (str_eqb m (lit "tracestate")) eqn:H2.
  - apply str_eqb_eq in H2 as ->. destruct (to_tracestate t ≫= header_value_from); [|by rewrite Hp].
    apply set_same.
  - apply str_eqb_neq in H2. destruct (to_tracestate t ≫= header_value_from); [|done].
    by rewrite set_other.
Qed.

(** Who sets a header of an upstream request. For every name: the proxy's own trace
    context wins, then the credential the proxy holds for the cluster, then the last valid
    header the client forwarded under that name, then the request's default; so a client
    cannot replace the cluster's credential, nor the trace of an exported span. *)
Theorem upstream_header_precedence hs h m :
  upstream_headers hs h !! m
  = or_else (trace_value (uh_trace h) m)
      (or_else (credentials_value (uh_credentials h) m) (or_else (forwarded_value (uh_forward h) m) (hs !! m))).
Proof.
  unfold upstream_headers. rewrite inject_trace_value. f_equal. rewrite <- forward_headers_value.
  destruct (uh_credentials h) as [c|]; [apply insert_header_value|done].
Qed.
End Contract.

Section Acknowledgement.
Context {Sd : Serde} {H : HttpTypes}.

(** The acknowledgement of a batch is positional. When a write succeeds there is one
    result per operation, in the order of the batch, each read from an upstream response
    below 500 to exactly the request that operation makes; and every request was let
    through by its cluster's breaker and is one of this batch's operations. *)
Theorem write_ack_is_positional b tr ack :
  exec (http_write b) tr (Ok ack) ->
  Forall2 (WriteResult tr) (ops b) (results ack) /\ length (results ack) = length (ops b)
  /\ guarded (sends (fun c h2 base req => exists op, op ∈ ops b /\ write_sends op c h2 base req)) [] tr.
Proof.
  intros He. destruct (http_write_sends [] b tr (Ok ack) He) as [Hg Hr]. specialize (Hr ack eq_refl).
  split; [done|]. split; [symmetry; by eapply Forall2_length|done].
Qed.
End Acknowledgement.

(** ** A batch of two *)
Section Runs.
#[local] Instance any_http : HttpTypes := {|
  header_name_from := Some;
  header_value_from := Some;
  header_value_text := Some;
  uri_valid _ := true
|}.
#[local] Instance sink_serde : Serde := toy_serde [].
Definition two_writes : WriteBatch :=
  let t := with_endpoint (target_new (lit "eu-1") (lit "shared")) (Some (lit "http://eu")) in
  batch_with (batch_single (write_op_new t (OpIndex (Some (lit "a:1")) None (lit "{}")) (MkEpoch 7)))
    (write_op_new t (OpDelete (lit "a:2") None) (MkEpoch 7)).
Definition upstream : world_of HttpCall nat := fun B c n =>
  match c in HttpCall B return B * nat with
  | PoolGet _ => (if n =? 0 then None else Some (lit "http://eu"), n)
  | PoolInsert _ b => (b, S n)
  | BreakerAllows _ => (true, n)
  | BreakerSuccess _ => (tt, n)
  | BreakerFailure _ => (tt, n)
  | CountDispatch _ => (tt, n)
  | OpenCount _ => (Z.of_nat n, n)
  | Exchange _ _ req =>
      (Answered (MkHttpResponse (match hq_method req with DeleteMethod => 404 | _ => 201 end) ∅ (buffered (lit "{}"))), n)
  end.
Definition write_run := interp upstream (http_write two_writes) 0.
Definition two_acks : WriteAck := MkWriteAck [MkOpResult (lit "a:1") 201 false; MkOpResult (lit "a:2") 404 false] true.

Lemma write_ack_is_positional_witness :
  Forall2 (WriteResult write_run.1.1) (ops two_writes) (results two_acks)
  /\ length (results two_acks) = length (ops two_writes)
  /\ guarded (sends (fun c h2 base req => exists op, op ∈ ops two_writes /\ write_sends op c h2 base req)) [] write_run.1.1.
Proof.
  apply write_ack_is_positional.
  assert (Hr : write_run.1.2 = Ok two_acks) by (vm_compute; reflexivity). rewrite <- Hr.
  exact (interp_exec upstream (http_write two_writes) 0).
Defined.
End Runs.
