(* ===== verification/Connector.v ===== *)
(** * Connections to the clusters ([crates/osproxy-sink/src]: tls, conn; the pools of opensearch)

    Below the exchange of [HttpSink] is hyper's client: it sends a request on a connection
    it has for the request's scheme and authority, or has its connector open one.  The
    connector is the proxy's: it dials, and for [https] adds a handshake under the sink's
    client config.  Around it another counts what is opened. *)
From stdpp Require Import base option list strings numbers relations.
From Stdlib Require Import Ascii ZArith Lia.
From S2P Require Import Prelude.
From S2P Require Import CoreTypes.
From S2P Require Import Spi.
From S2P Require Import Sink.
From S2P Require Import Prog.
From S2P Require Import HttpSink.

Open Scope osp_scope.

(** ** [tls.rs] *)
(** The [http] crate's reading of a URI, and rustls's of a server name. *)
Class UriTypes := {
  uri_scheme : str -> option str;
  uri_authority : str -> option str;
  authority_host : str -> str;
  server_name_from : str -> option str
}.
Section Connector.
Context {U : UriTypes} {ClientConfig : Type}.
Definition uri_host (uri : str) : option str := authority_host <$> uri_authority uri.

(** A socket, or a TLS session over one. *)
Inductive MaybeTlsStream : Type := PlainStream (tcp : nat) | TlsStream (session : nat).
(** What the connector awaits: the dial, and the handshake on the dialled socket. *)
Inductive ConnCall : Type -> Type :=
| TcpConnect (uri : str) : ConnCall (option nat)
| TlsHandshake (tcp : nat) (config : ClientConfig) (server_name : str) : ConnCall (option nat).
Definition is_https (uri : str) : bool := bool_decide (uri_scheme uri = Some (lit "https")).
Definition connector_call (tls : option ClientConfig) (uri : str) : prog_of ConnCall (Result MaybeTlsStream SinkError) :=
  let host := default [] (uri_host uri) in
  await! tcp := call (TcpConnect uri) in
  match tcp with
  | None => Ret (Err (SinkTransport (lit "upstream TCP connect failed")))
  | Some tcp =>
      if negb (is_https uri) then Ret (Ok (PlainStream tcp))
      else match tls with
           | None => Ret (Err (SinkTransport (lit "https upstream endpoint but no upstream TLS configured")))
           | Some config =>
               match server_name_from host with
               | None => Ret (Err (SinkTransport (lit "invalid upstream TLS server name")))
               | Some server_name =>
                   await! session := call (TlsHandshake tcp config server_name) in
                   match session with
                   | None => Ret (Err (SinkTransport (lit "upstream TLS handshake failed")))
                   | Some session => Ret (Ok (TlsStream session))
                   end
               end
           end
  end.

(** ** [conn.rs], and the pools of a cluster *)
Record PoolStats : Type := MkPoolStats { opened : Z; dispatched : Z }.
Definition reused (s : PoolStats) : Z := u64_saturating_sub (dispatched s) (opened s).

(** What tells connections apart: the client they belong to, and the scheme and authority. *)
Definition conn_key (p : Protocol) (uri : str) : bool * option str * option str := (use_http2 p, uri_scheme uri, uri_authority uri).
(** The counters and the connections of a cluster's two clients; the calls its connectors
    have made, and the requests sent, each with its URI and what it was sent on. *)
Record ClusterPool : Type := MkClusterPool {
  cp_stats : PoolStats; cp_conns : list (bool * option str * option str * MaybeTlsStream);
  cp_calls : list (event_of ConnCall); cp_sent : list (str * MaybeTlsStream)
}.
Definition cluster_pool_new : ClusterPool := MkClusterPool (MkPoolStats 0 0) [] [] [].
Context (tls : option ClientConfig).
(** The connector counts as it is called, whatever comes of the call. *)
Definition count_open (s : PoolStats) : PoolStats := MkPoolStats (u64_wrap (opened s + 1)) (dispatched s).
Definition count_dispatch (s : PoolStats) : PoolStats := MkPoolStats (opened s) (u64_wrap (dispatched s + 1)).
Inductive pool_step : ClusterPool -> ClusterPool -> Prop :=
| request_dispatched s cs tr sent :
    pool_step (MkClusterPool s cs tr sent) (MkClusterPool (count_dispatch s) cs tr sent)
| connection_opened s cs tr sent p uri t stream :
    exec (connector_call tls uri) t (Ok stream) ->
    pool_step (MkClusterPool s cs tr sent) (MkClusterPool (count_open s) ((conn_key p uri, stream) :: cs) (tr ++ t) sent)
| connection_failed s cs tr sent uri t e :
    exec (connector_call tls uri) t (Err e) ->
    pool_step (MkClusterPool s cs tr sent) (MkClusterPool (count_open s) cs (tr ++ t) sent)
| request_sent s cs tr sent p uri stream :
    (conn_key p uri, stream) ∈ cs ->
    pool_step (MkClusterPool s cs tr sent) (MkClusterPool s cs tr (sent ++ [(uri, stream)]))
| connection_closed s cs1 c cs2 tr sent :
    pool_step (MkClusterPool s (cs1 ++ c :: cs2) tr sent) (MkClusterPool s (cs1 ++ cs2) tr sent).

(** ** What a connection is good for *)
Definition dials (tr : list (event_of ConnCall)) : nat :=
  length (List.filter (fun e => match e with Ev (TcpConnect _) _ => true | _ => false end) tr).
(** [stream] is right for the requests of [scheme] and [authority]. *)
Definition suits (tr : list (event_of ConnCall)) (scheme authority : option str) (stream : MaybeTlsStream) : Prop :=
  if bool_decide (scheme = Some (lit "https")) then
    exists config name tcp session, tls = Some config /\ stream = TlsStream session
    /\ server_name_from (default [] (authority_host <$> authority)) = Some name
    /\ Ev (TlsHandshake tcp config name) (Some session) ∈ tr
  else exists tcp, stream = PlainStream tcp.
Lemma connector_call_suits uri tr r : exec (connector_call tls uri) tr r ->
  dials tr = 1 /\ (forall stream, r = Ok stream -> suits tr (uri_scheme uri) (uri_authority uri) stream)
  /\ (tls = None -> is_https uri = true -> is_ok r = false).
Proof.
  unfold connector_call, suits, is_https. intros (t1 & t2 & tcp & -> & ->%exec_call & H)%exec_bind.
  destruct tcp as [tcp|]; [|by destruct H as [-> ->]]. destruct (bool_decide _); cbn [negb] in H.
  - destruct tls as [config|]; [|by destruct H as [-> ->]].
    destruct (server_name_from (default [] (uri_host uri))) as [name|] eqn:Hn; [|by destruct H as [-> ->]].
    revert H. intros (t1 & t3 & session & -> & ->%exec_call & H)%exec_bind.
    destruct session as [session|]; destruct H as [-> ->]; (split; [done|]); (split; [|done]); [|done].
    intros stream [= <-]. exists config, name, tcp, session. split_and!; try done. cbn. set_solver.
  - destruct H as [-> ->]. split; [done|]. split; [|done]. intros stream [= <-]. by exists tcp.
Qed.
Lemma suits_more tr tr' scheme authority stream : suits tr scheme authority stream -> suits (tr ++ tr') scheme authority stream.
Proof.
  unfold suits. destruct (bool_decide _); [|done]. intros (config & name & tcp & session & ? & ? & ? & ?).
  exists config, name, tcp, session. split_and!; try done. apply elem_of_app. by left.
Qed.
Definition pool_ok (p : ClusterPool) : Prop :=
  (forall h scheme authority stream, (h, scheme, authority, stream) ∈ cp_conns p -> suits (cp_calls p) scheme authority stream)
  /\ (forall uri stream, (uri, stream) ∈ cp_sent p -> suits (cp_calls p) (uri_scheme uri) (uri_authority uri) stream)
  /\ opened (cp_stats p) = u64_wrap (Z.of_nat (dials (cp_calls p))).
Lemma dials_app a b : dials (a ++ b) = dials a + dials b.
Proof. unfold dials. by rewrite List.filter_app, length_app. Qed.
Lemma count_dials s tr t : opened s = u64_wrap (Z.of_nat (dials tr)) -> dials t = 1 ->
  opened (count_open s) = u64_wrap (Z.of_nat (dials (tr ++ t))).
Proof.
  intros Ho Ht. rewrite dials_app, Ht. cbn. rewrite Ho. unfold u64_wrap.
  rewrite Zplus_mod_idemp_l. f_equal. lia.
Qed.
Lemma pool_step_ok p p' : pool_step p p' -> pool_ok p -> pool_ok p'.
Proof.
  intros [s cs tr sent|s cs tr sent pr uri t stream Hx|s cs tr sent uri t e Hx|s cs tr sent pr uri stream Hin|s cs1 c cs2 tr sent]
    (H1 & H2 & H3); unfold pool_ok; cbn [cp_conns cp_calls cp_sent cp_stats] in *; try done.
  - apply connector_call_suits in Hx as (Hd & Hs & _). split_and!; [|by intros; apply suits_more, H2|by apply count_dials].
    intros h scheme authority st [[= -> -> -> ->]|Hin]%elem_of_cons; [|by eapply suits_more, H1].
    specialize (Hs _ eq_refl). unfold suits in *. destruct (bool_decide _); [|done].
    destruct Hs as (config & name & tcp & session & ? & ? & ? & ?). exists config, name, tcp, session.
    split_and!; try done. apply elem_of_app. by right.
  - apply connector_call_suits in Hx as (Hd & _). split_and!; [|by intros; apply suits_more, H2|by apply count_dials].
    intros h scheme authority st Hin. by eapply suits_more, H1.
  - split_and!; [done| |done]. intros u st [Hu|[= -> ->]%list_elem_of_singleton]%elem_of_app; [by apply H2|by eapply H1].
  - split_and!; [|done|done]. intros h scheme authority st Hin. eapply (H1 h). set_solver.
Qed.
Lemma reachable_pool_ok p : rtc pool_step cluster_pool_new p -> pool_ok p.
Proof.
  intros Hr. assert (H0 : pool_ok cluster_pool_new) by (split_and!; [by intros ? ? ? ? ?%elem_of_nil|by intros ? ? ?%elem_of_nil|done]).
  revert H0. induction Hr as [p|p p' p'' Hs _ IH]; [done|]. intros H. apply IH. by eapply pool_step_ok.
Qed.

(** C26: [https] never travels in the clear. In any run of a cluster's pools, over any
    answers of the network, a request whose URI is [https] is sent on a TLS session, one
    that a handshake under the sink's client config made for the server name of that URI's
    host, and never where the sink has no such config; any other request is sent on a
    plain socket. [opened] counts the dials, modulo 2^64. *)
Theorem https_is_never_in_the_clear p uri stream :
  rtc pool_step cluster_pool_new p -> (uri, stream) ∈ cp_sent p ->
  (is_https uri = true ->
     exists config name tcp session, tls = Some config /\ stream = TlsStream session
     /\ server_name_from (default [] (uri_host uri)) = Some name
     /\ Ev (TlsHandshake tcp config name) (Some session) ∈ cp_calls p)
  /\ (is_https uri = false -> exists tcp, stream = PlainStream tcp)
  /\ opened (cp_stats p) = u64_wrap (Z.of_nat (dials (cp_calls p))).
Proof.
  intros (_ & H2 & H3)%reachable_pool_ok Hin%H2. unfold suits in Hin. unfold is_https.
  destruct (bool_decide _); split_and!; done.
Qed.
End Connector.

(** ** Two clusters *)
Section Runs.
(** The host of an authority is what is before the port, an IPv6 literal with its brackets,
    as the [http] crate gives it; a server name is letters, digits, dashes and dots. *)
Definition before (c : byte) (s : str) : str := match split_once c s with Some (a, _) => a | None => s end.
#[local] Instance plain_uris : UriTypes := {|
  uri_scheme uri := if starts_with (lit "https://") uri then Some (lit "https") else Some (lit "http");
  uri_authority uri := rest ← split_once ":" uri; Some (before "/" (drop 2 rest.2));
  authority_host a := if starts_with (lit "[") a then before "]" a ++ lit "]" else before ":" a;
  server_name_from s :=
    if forallb (fun c => in_range 97 122 c || is_ascii_digit c || is_byte c (Some "-"%char) || is_byte c (Some "."%char)) s then Some s else None
|}.
Definition eu_uri : str := lit "https://eu.example:9200/orders/_doc/1".
Definition eu_call : ConnCall (ClientConfig := unit) (option nat) := TlsHandshake 0 tt (lit "eu.example").
Definition eu_pool : ClusterPool (ClientConfig := unit) :=
  MkClusterPool (MkPoolStats 1 1) [(conn_key Http1 eu_uri, TlsStream 5)]
    [Ev (TcpConnect eu_uri) (Some 0); Ev eu_call (Some 5)] [(eu_uri, TlsStream 5)].
Lemma eu_pool_reached : rtc (pool_step (Some tt)) cluster_pool_new eu_pool.
Proof.
  eapply rtc_l; [apply request_dispatched|]. eapply rtc_l; [apply (connection_opened _ _ _ _ _ Http1 eu_uri
    [Ev (TcpConnect eu_uri) (Some 0); Ev eu_call (Some 5)] (TlsStream 5))|].
  - exists (Some 0), [Ev eu_call (Some 5)]. split; [done|]. cbn. exists (Some 5), []. done.
  - apply rtc_once, (request_sent _ _ _ _ [] Http1 eu_uri (TlsStream 5)). left.
Qed.
(** A dial that fails is counted as a connection opened; and an IPv6 literal is not a server
    name with its brackets, so a cluster named by one cannot be reached over TLS. *)
Example failed_dials_are_counted : exists p, rtc (pool_step (Some tt)) cluster_pool_new p
  /\ cp_stats p = MkPoolStats 1 0 /\ cp_conns p = [].
Proof.
  eexists. split; [apply rtc_once, (connection_failed _ _ _ _ _ eu_uri [Ev (TcpConnect eu_uri) None] (SinkTransport (lit "upstream TCP connect failed")))|done].
  by exists None, [].
Qed.
Example ipv6_clusters_are_not_reached tr r :
  exec (connector_call (Some tt) (lit "https://[::1]:9200/orders/_doc/1")) tr r -> is_ok r = false.
Proof.
  intros (tcp & tr' & -> & H). cbn in H. destruct tcp as [tcp|]; by destruct H as [-> ->].
Qed.
Lemma https_is_never_in_the_clear_witness :
  (is_https eu_uri = true ->
     exists config name tcp session, Some tt = Some config /\ TlsStream 5 = TlsStream session
     /\ server_name_from (default [] (uri_host eu_uri)) = Some name
     /\ Ev (TlsHandshake tcp config name) (Some session) ∈ cp_calls eu_pool)
  /\ (is_https eu_uri = false -> exists tcp, TlsStream 5 = PlainStream tcp)
  /\ opened (cp_stats eu_pool) = u64_wrap (Z.of_nat (dials (cp_calls eu_pool))).
Proof.
  apply (https_is_never_in_the_clear (Some tt) eu_pool eu_uri (TlsStream 5)); [exact eu_pool_reached|left].
Defined.
End Runs.
