(* ===== verification/SinkPools.v ===== *)
(** * The pools the sink's operations share ([crates/osproxy-sink/src]: opensearch, breaker, conn)

    One [OpenSearchSink] serves all requests.  Its operations run at the same time, each the
    program of [HttpSink]; what they share is a pool per cluster, which the first of them
    creates, with its breaker and its counters.  Here the calls of those programs are given
    the answers of that state, in any order in which concurrent operations make them. *)
From stdpp Require Import base option list strings numbers sets gmap.
From Stdlib Require Import Ascii ZArith Lia.
From S2P Require Import Prelude.
From S2P Require Import Trace.
From S2P Require Import CoreTypes.
From S2P Require Import Serde.
From S2P Require Import ToySerde.
From S2P Require Import Spi.
From S2P Require Import Sink.
From S2P Require Import SearchScan.
From S2P Require Import Breaker.
From S2P Require Import Prog.
From S2P Require Import Runs.
From S2P Require Import Effects.
From S2P Require Import HttpSink.
From S2P Require Import Connector.

Open Scope osp_scope.

(** ** The settings of the sink *)
Section Settings.
Context {ClientConfig : Type}.
(** Durations are in nanoseconds. *)
Record OpenSearchSink : Type := MkOpenSearchSink {
  os_timeout : Z; os_failure_threshold : Z; os_cooldown : Z; os_upstream_tls : option ClientConfig
}.
Definition DEFAULT_TIMEOUT : Z := 30000000000.
Definition DEFAULT_FAILURE_THRESHOLD : Z := 5.
Definition DEFAULT_COOLDOWN : Z := 5000000000.
Definition opensearch_sink_new : OpenSearchSink :=
  MkOpenSearchSink DEFAULT_TIMEOUT DEFAULT_FAILURE_THRESHOLD DEFAULT_COOLDOWN None.
Definition with_upstream_tls (s : OpenSearchSink) (tls : ClientConfig) : OpenSearchSink :=
  MkOpenSearchSink (os_timeout s) (os_failure_threshold s) (os_cooldown s) (Some tls).
Definition with_timeout (s : OpenSearchSink) (timeout : Z) : OpenSearchSink :=
  MkOpenSearchSink timeout (os_failure_threshold s) (os_cooldown s) (os_upstream_tls s).
Definition with_breaker (s : OpenSearchSink) (failure_threshold cooldown : Z) : OpenSearchSink :=
  MkOpenSearchSink (os_timeout s) failure_threshold cooldown (os_upstream_tls s).
End Settings.
Arguments OpenSearchSink : clear implicits.

(** ** The shared state *)

(** The shared part of a [ClusterPool]. *)
Record Pool : Type := MkPool { pl_base : str; pl_breaker : Breaker; pl_stats : PoolStats }.
Definition pool_new (base : str) : Pool := MkPool base breaker_default (MkPoolStats 0 0).
Definition Pools : Type := gmap ClusterId Pool.
(** What happens to the pools: a call of an operation, answered at a time of the clock, or
    a connection that a client of a cluster dials. *)
Inductive Entry : Type :=
| Did (e : event_of HttpCall) (now : Instant)
| Dialled (c : ClusterId).

Definition on_breaker (f : Breaker -> Breaker) (p : Pool) : Pool := MkPool (pl_base p) (f (pl_breaker p)) (pl_stats p).
Definition on_stats (f : PoolStats -> PoolStats) (p : Pool) : Pool := MkPool (pl_base p) (pl_breaker p) (f (pl_stats p)).
Section Shared.
Context {ClientConfig : Type} (s : OpenSearchSink ClientConfig).

Definition call_effect {B} (x : HttpCall B) (now : Instant) (ps : Pools) : Pools :=
  match x with
  | PoolInsert c base => match ps !! c with Some _ => ps | None => <[c := pool_new base]> ps end
  | BreakerSuccess c => alter (on_breaker record_success) c ps
  | BreakerFailure c => alter (on_breaker (fun b => record_failure b now (os_failure_threshold s))) c ps
  | CountDispatch c => alter (on_stats count_dispatch) c ps
  | PoolGet _ | BreakerAllows _ | OpenCount _ | Exchange _ _ _ => ps
  end.
Definition effect (x : Entry) (ps : Pools) : Pools :=
  match x with
  | Did (Ev x _) now => call_effect x now ps
  | Dialled c => alter (on_stats count_open) c ps
  end.
(** The answer the state gives; that of an exchange is the upstream's. *)
Definition answered_by {B} (x : HttpCall B) (now : Instant) (ps : Pools) : B -> Prop :=
  match x in HttpCall B return B -> Prop with
  | PoolGet c => fun a => a = pl_base <$> ps !! c
  | PoolInsert c base => fun a => a = from_option pl_base base (ps !! c)
  | BreakerAllows c => fun a => a = from_option (fun p => breaker_allows (pl_breaker p) now (os_cooldown s)) true (ps !! c)
  | OpenCount c => fun a => a = from_option (fun p => opened (pl_stats p)) 0%Z (ps !! c)
  | BreakerSuccess _ | BreakerFailure _ | CountDispatch _ | Exchange _ _ _ => fun _ => True
  end.
Definition truthful (x : Entry) (ps : Pools) : Prop :=
  match x with Did (Ev x a) now => answered_by x now ps a | Dialled _ => True end.
Definition serves (ps : Pools) (run : list Entry) : Prop := true_run effect truthful ps run.
Definition pools_after (run : list Entry) : Pools := after_run effect ∅ run.
Definition pool_stats (ps : Pools) (c : ClusterId) : option PoolStats := pl_stats <$> ps !! c.
End Shared.
Definition call_done (x : Entry) : option (event_of HttpCall) := match x with Did e _ => Some e | Dialled _ => None end.
Definition events_of (run : list Entry) : trace_of HttpCall := omap call_done run.

(** ** What its history says of a pool *)
Definition endpoint_of (c : ClusterId) (x : Entry) : option str :=
  match x with Did (Ev (PoolInsert c' base) _) _ => if bool_decide (c' = c) then Some base else None | _ => None end.
Definition outcome_of (c : ClusterId) (x : Entry) : option Recorded :=
  match x with
  | Did (Ev (BreakerSuccess c') _) _ => if bool_decide (c' = c) then Some Succeeded else None
  | Did (Ev (BreakerFailure c') _) now => if bool_decide (c' = c) then Some (FailedAt now) else None
  | _ => None
  end.
(** The first endpoint that was offered for a cluster, and the run since then. *)
Definition first_endpoint (c : ClusterId) (run : list Entry) : option str := head (omap (endpoint_of c) run).
Fixpoint since_pool (c : ClusterId) (run : list Entry) : list Entry :=
  match run with [] => [] | x :: run => match endpoint_of c x with Some _ => run | None => since_pool c run end end.
(** The outcomes its breaker has recorded, the latest first; its requests and its dials. *)
Definition outcomes (c : ClusterId) (run : list Entry) : list Recorded := reverse (omap (outcome_of c) (since_pool c run)).
Definition is_dispatch (c : ClusterId) (x : Entry) : bool :=
  match x with Did (Ev (CountDispatch c') _) _ => bool_decide (c' = c) | _ => false end.
Definition is_dial (c : ClusterId) (x : Entry) : bool := match x with Dialled c' => bool_decide (c' = c) | _ => false end.
Definition counted_as (f : Entry -> bool) (run : list Entry) : Z := Z.of_nat (length (List.filter f run)).

Section History.
Context {ClientConfig : Type} (s : OpenSearchSink ClientConfig).
Definition pool_history (c : ClusterId) (run : list Entry) : option Pool :=
  (fun base => MkPool base (after (os_failure_threshold s) (outcomes c run))
    (MkPoolStats (u64_wrap (counted_as (is_dial c) (since_pool c run)))
      (u64_wrap (counted_as (is_dispatch c) (since_pool c run))))) <$> first_endpoint c run.

Lemma first_endpoint_snoc c run x :
  first_endpoint c (run ++ [x]) = match first_endpoint c run with Some b => Some b | None => endpoint_of c x end.
Proof.
  unfold first_endpoint. rewrite omap_app. destruct (omap (endpoint_of c) run); [|done]. cbn. by destruct (endpoint_of c x).
Qed.
Lemma since_pool_snoc c run x :
  since_pool c (run ++ [x]) = match first_endpoint c run with Some _ => since_pool c run ++ [x] | None => [] end.
Proof.
  unfold first_endpoint. induction run as [|y run IH]; cbn; [by destruct (endpoint_of c x)|].
  destruct (endpoint_of c y); [done|]. exact IH.
Qed.
Lemma counted_as_snoc f run x : counted_as f (run ++ [x]) = (counted_as f run + (if f x then 1 else 0))%Z.
Proof. unfold counted_as. rewrite List.filter_app, length_app. cbn. destruct (f x); cbn; lia. Qed.
Lemma wrap_succ n : u64_wrap (u64_wrap n + 1) = u64_wrap (n + 1).
Proof. unfold u64_wrap. by rewrite Zplus_mod_idemp_l. Qed.

(** What an entry does to the pool of one cluster, once there is one. *)
Definition pool_step_of (c : ClusterId) (x : Entry) (p : Pool) : Pool :=
  MkPool (pl_base p)
    (match outcome_of c x with Some r => record (os_failure_threshold s) r (pl_breaker p) | None => pl_breaker p end)
    (MkPoolStats (if is_dial c x then u64_wrap (opened (pl_stats p) + 1) else opened (pl_stats p))
      (if is_dispatch c x then u64_wrap (dispatched (pl_stats p) + 1) else dispatched (pl_stats p))).
Lemma effect_lookup c x (ps : Pools) :
  effect s x ps !! c = match ps !! c with Some p => Some (pool_step_of c x p) | None => pool_new <$> endpoint_of c x end.
Proof.
  assert (Ha : forall c' (f : Pool -> Pool), alter f c' ps !! c = if bool_decide (c' = c) then f <$> ps !! c else ps !! c).
  { intros c' f. case_bool_decide as Hc; [subst; apply lookup_alter_eq|by apply lookup_alter_ne]. }
  assert (Hi : forall p : Pool, p = MkPool (pl_base p) (pl_breaker p) (MkPoolStats (opened (pl_stats p)) (dispatched (pl_stats p))))
    by by intros [? ? []].
  unfold pool_step_of. destruct x as [[B x a] now|c']; cbn [effect endpoint_of outcome_of is_dial is_dispatch].
  2:{ rewrite Ha. case_bool_decide; destruct (ps !! c) as [p|]; try done. cbn. by f_equal. }
  destruct x as [c'|c' base|c'|c'|c'|c'|c'|c' h req]; cbn [call_effect];
    rewrite ?Ha; try (destruct (ps !! c) as [p|]; [f_equal; apply Hi|done]);
    try (case_bool_decide; destruct (ps !! c) as [p|]; try done; cbn; f_equal; first [apply Hi|done]).
  - destruct (ps !! c') as [p'|] eqn:Hp'; case_bool_decide as Hc; try subst c'.
    + rewrite Hp'. f_equal. apply Hi.
    + destruct (ps !! c); [f_equal; apply Hi|done].
    + rewrite Hp'. apply (lookup_insert_eq (M := gmap str)).
    + transitivity (ps !! c); [by apply (lookup_insert_ne (M := gmap str))|]. destruct (ps !! c); [f_equal; apply Hi|done].
Qed.
(** The pools are what their histories say: the base is the first endpoint offered, the
    breaker has recorded the outcomes of the cluster's requests, and the counters have
    counted its requests and dials, modulo 2^64. *)
Lemma pools_after_history run c : pools_after s run !! c = pool_history c run.
Proof.
  induction run as [|x run IH] using rev_ind; [done|]. unfold pools_after in *.
  rewrite after_run_snoc, effect_lookup, IH. unfold pool_history, outcomes. rewrite first_endpoint_snoc, since_pool_snoc.
  destruct (first_endpoint c run) as [base|]; cbn [fmap option_fmap option_map]; [|by destruct (endpoint_of c x)].
  f_equal. unfold pool_step_of. cbn [pl_base pl_breaker pl_stats opened dispatched]. rewrite omap_app, !counted_as_snoc.
  f_equal.
  - cbn. destruct (outcome_of c x); [by rewrite reverse_snoc|]. by rewrite app_nil_r.
  - destruct (is_dial c x), (is_dispatch c x); rewrite ?wrap_succ, ?Z.add_0_r; done.
Qed.
Lemma pool_stats_after run c :
  pool_stats (pools_after s run) c
  = (fun _ => MkPoolStats (u64_wrap (counted_as (is_dial c) (since_pool c run)))
                (u64_wrap (counted_as (is_dispatch c) (since_pool c run)))) <$> first_endpoint c run.
Proof. unfold pool_stats. rewrite pools_after_history. unfold pool_history. by destruct (first_endpoint c run). Qed.
End History.

(** ** Operations that run at the same time *)
Inductive SinkOp : Type :=
| DoWrite (b : WriteBatch)
| DoGet (op : ReadOp)
| DoSearch (op : SearchOp)
| DoCount (op : SearchOp)
| DoSearchStream (op : SearchOp)
| DoCursor (op : CursorOp)
| DoForward (op : ForwardOp) (b : ByteBody).

Section Concurrent.
Context {Sd : Serde} {Si : SerdeInt} {H : HttpTypes}.

(** The methods of [Sink] and [Reader]. *)
Definition op_runs (o : SinkOp) (tr : trace_of HttpCall) : Prop :=
  match o with
  | DoWrite b => exists r, exec (http_write b) tr r
  | DoGet op => exists r, exec (http_get op) tr r
  | DoSearch op => exists r, exec (http_search op) tr r
  | DoCount op => exists r, exec (http_count op) tr r
  | DoSearchStream op => exists r, exec (http_search_stream op) tr r
  | DoCursor op => exists r, exec (http_cursor op) tr r
  | DoForward op b => exists r, exec (http_forward_stream op b) tr r
  end.
Definition op_sends (o : SinkOp) : ClusterId -> bool -> str -> HttpRequest -> Prop :=
  match o with
  | DoWrite b => fun c h2 base req => exists op, op ∈ ops b /\ write_sends op c h2 base req
  | DoGet op => get_sends op
  | DoSearch op | DoSearchStream op => query_sends (lit "_search") op
  | DoCount op => query_sends (lit "_count") op
  | DoCursor op => forward_sends (forward_of_cursor op) (HttpSink.buffered (cu_body op))
  | DoForward op b => forward_sends op b
  end.
(** The endpoint an operation has for a cluster. *)
Definition op_reports (o : SinkOp) (c : ClusterId) (base : str) : Prop :=
  let at_ (t : Target) := cluster t = c /\ endpoint t = Some base in
  match o with
  | DoWrite b => exists op, op ∈ ops b /\ at_ (w_target op)
  | DoGet op => at_ (rd_target op)
  | DoSearch op | DoSearchStream op | DoCount op => at_ (so_target op)
  | DoCursor op => cu_cluster op = c /\ cu_endpoint op = Some base
  | DoForward op _ => fo_cluster op = c /\ fo_endpoint op = Some base
  end.
Lemma op_guarded o tr : op_runs o tr -> guarded (sends (op_sends o)) [] tr.
Proof.
  assert (Hg : forall A (m : hprog A) Q, safe (sends (op_sends o)) [] m Q -> (exists r, exec m tr r) -> guarded (sends (op_sends o)) [] tr)
    by (intros A m Q Hs [r Hr]; by destruct (Hs tr r Hr)).
  destruct o; cbn [op_runs]; (eapply Hg).
  - apply http_write_sends.
  - apply http_get_sends.
  - apply (then_sends _ _ _ _ (fun _ _ => True)); [by intros [[] ]; eexists|].
    eapply then_sends; [by intros []; eexists|apply query_send_sends].
  - apply (then_sends _ _ _ _ (fun _ _ => True)); [by intros [[] ]; eexists|].
    eapply then_sends; [by intros []; eexists|apply query_send_sends].
  - eapply then_sends; [by intros []; eexists|apply query_send_sends].
  - eapply then_sends; [by intros []; eexists|apply forward_send_sends].
  - eapply then_sends; [by intros []; eexists|apply forward_send_sends].
Qed.

(** A pool is created for an endpoint that the operation has. *)
Definition offers (P : ClusterId -> str -> Prop) (past : list (event_of HttpCall)) (e : event_of HttpCall) : Prop :=
  match e with Ev (PoolInsert c base) _ => P c base | _ => True end.
Lemma offers_mono P past past' e : past ⊆ past' -> offers P past e -> offers P past' e.
Proof. by destruct e as [B []]. Qed.
Lemma then_offers {A B E} P past (m : hprog (Result A E)) (k : A -> hprog (Result B E)) :
  safe (offers P) past m (fun _ _ => True) -> (forall past a, safe (offers P) past (k a) (fun _ _ => True)) ->
  safe (offers P) past (try_bind m k) (fun _ _ => True).
Proof.
  intros Hm Hk. unfold try_bind. eapply (safe_bind _ (offers_mono P)); [exact Hm|]. intros tr [a|e] _; [apply Hk|by apply safe_ret].
Qed.
Lemma pool_for_offers (P : ClusterId -> str -> Prop) past c e :
  (forall base, e = Some base -> P c base) -> safe (offers P) past (pool_for c e) (fun _ _ => True).
Proof.
  intros HP. apply safe_do. intros [base|]; (split; [done|]); [by apply safe_ret|]. destruct e as [b|]; [|by apply safe_ret].
  apply safe_do. intros base. split; [by apply HP|by apply safe_ret].
Qed.
Lemma send_checked_offers P past c p req h kind : safe (offers P) past (send_checked c p req h kind) (fun _ _ => True).
Proof.
  apply then_offers; [|by intros ? []; apply safe_ret]. apply safe_do. intros allowed. split; [done|].
  destruct allowed; cbn [negb bind]; [|by apply safe_ret]. do 2 (apply safe_do; intros ?; split; [done|]).
  apply safe_do. intros []; (split; [done|]); cbn [bind]; apply safe_do; intros ?; (split; [done|]); try by apply safe_ret.
  apply safe_do. intros ?. split; [done|by apply safe_ret].
Qed.
Lemma built_offers {A} P past (built : Result A SinkError) (m : A -> hprog (Result (HttpResponse * bool) SinkError)) :
  (forall past a, safe (offers P) past (m a) (fun _ _ => True)) ->
  safe (offers P) past (match built with Err e => Ret (Err e) | Ok a => m a end) (fun _ _ => True).
Proof. intros Hm. destruct built; [apply Hm|by apply safe_ret]. Qed.
Lemma query_send_offers P past verb op :
  (forall base, endpoint (so_target op) = Some base -> P (cluster (so_target op)) base) ->
  safe (offers P) past (query_send verb op) (fun _ _ => True).
Proof.
  intros HP. apply then_offers; [by apply pool_for_offers|]. intros past' base. apply built_offers. intros. apply send_checked_offers.
Qed.
Lemma forward_send_offers (P : ClusterId -> str -> Prop) past op b kind :
  (forall base, fo_endpoint op = Some base -> P (fo_cluster op) base) ->
  safe (offers P) past (forward_send op b kind) (fun _ _ => True).
Proof.
  intros HP. unfold forward_send. destruct (reject_path_traversal _); [|by apply safe_ret].
  apply then_offers; [by apply pool_for_offers|]. intros past' base. apply built_offers. intros. apply send_checked_offers.
Qed.
Lemma write_loop_offers (P : ClusterId -> str -> Prop) os : forall past rs reused,
  (forall op base, op ∈ os -> endpoint (w_target op) = Some base -> P (cluster (w_target op)) base) ->
  safe (offers P) past (write_loop os rs reused) (fun _ _ => True).
Proof.
  induction os as [|op os IH]; intros past rs reused HP; cbn [write_loop]; [by apply safe_ret|].
  apply then_offers.
  - unfold dispatch. apply then_offers; [apply pool_for_offers; intros base Hb; apply (HP op); [left|done]|].
    intros past' base. destruct (build_request _ _ _) as [[req fallback]|e]; [|by apply safe_ret].
    apply then_offers; [apply send_checked_offers|]. intros ? []. by apply safe_ret.
  - intros past' []. apply IH. intros op' base Hop. apply HP. by right.
Qed.
Lemma op_offers o tr : op_runs o tr -> guarded (offers (op_reports o)) [] tr.
Proof.
  assert (Hg : forall A (m : hprog A), safe (offers (op_reports o)) [] m (fun _ _ => True) -> (exists r, exec m tr r) ->
    guarded (offers (op_reports o)) [] tr) by (intros A m Hs [r Hr]; by destruct (Hs tr r Hr)).
  destruct o; cbn [op_runs]; apply Hg.
  - apply write_loop_offers. intros op base Hop Hb. by exists op.
  - apply then_offers; [by apply pool_for_offers|]. intros past' base. destruct (get_request _ _); [|by apply safe_ret].
    apply then_offers; [apply send_checked_offers|]. intros ? []. by apply safe_ret.
  - apply then_offers; [apply then_offers; [by apply query_send_offers|]|]; [intros ? []|intros ? [[] ?]]; by apply safe_ret.
  - apply then_offers; [apply then_offers; [by apply query_send_offers|]|]; [intros ? []|intros ? [[] ?]]; by apply safe_ret.
  - apply then_offers; [by apply query_send_offers|]. intros ? []; by apply safe_ret.
  - apply then_offers; [by apply forward_send_offers|]. intros ? []; by apply safe_ret.
  - apply then_offers; [by apply forward_send_offers|]. intros ? []; by apply safe_ret.
Qed.
End Concurrent.

Section Shared_safely.
Context {Sd : Serde} {Si : SerdeInt} {H : HttpTypes} {ClientConfig : Type} (s : OpenSearchSink ClientConfig).

Lemma done_at run e : e ∈ events_of run -> exists pre now post, run = pre ++ Did e now :: post.
Proof. intros (pre & [e' now|c] & post & -> & He)%shown_at; [|done]. injection He as ->. eauto. Qed.
Lemma first_endpoint_app c a b base : first_endpoint c a = Some base -> first_endpoint c (a ++ b) = Some base.
Proof. unfold first_endpoint. rewrite omap_app. by destruct (omap (endpoint_of c) a). Qed.
(** The base an operation is given is the first endpoint offered for the cluster. *)
Lemma pooled_first run c base :
  serves s ∅ run -> pooled (events_of run) c base -> first_endpoint c run = Some base.
Proof.
  intros Hs Hp. assert (Hx : exists pre x post, run = pre ++ x :: post /\ first_endpoint c (pre ++ [x]) = Some base).
  { destruct Hp as [(pre & now & post & ->)%done_at|(b & (pre & now & post & ->)%done_at)];
      pose proof (true_run_at _ _ _ _ _ _ Hs) as Ht; cbn in Ht; fold (pools_after s pre) in Ht; rewrite pools_after_history in Ht;
      unfold pool_history in Ht; (eexists pre, _, post; split; [done|]); rewrite first_endpoint_snoc;
      destruct (first_endpoint c pre); cbn in *; try congruence. by rewrite bool_decide_eq_true_2, Ht. }
  destruct Hx as (pre & x & post & -> & Hf). rewrite cons_middle, app_assoc. by apply first_endpoint_app.
Qed.
Lemma first_inserted c run base :
  first_endpoint c run = Some base -> exists a, Ev (PoolInsert c base) a ∈ events_of run.
Proof.
  unfold first_endpoint. intros (x & Hin & He)%head_Some_elem_of%list_elem_of_omap.
  destruct x as [[B x a] now|]; [|done]. destruct x as [|c' b| | | | | |]; try done. cbn in He.
  case_bool_decide; [|done]. subst. injection He as ->. exists a. apply list_elem_of_omap. by eexists.
Qed.
Lemma since_nothing c run : first_endpoint c run = None -> since_pool c run = [].
Proof.
  unfold first_endpoint. induction run as [|x run IH]; cbn; [done|]. by destruct (endpoint_of c x).
Qed.
(** What admits a request at a time: fewer failures than the threshold since the last
    success, or a cooldown since the last failure. *)
Definition admits (history : list Recorded) (now : Instant) : Prop :=
  (Z.of_nat (failing history) < os_failure_threshold s)%Z
  \/ exists last, latest history = Some last /\ (nanos last + os_cooldown s <= nanos now)%Z.
Lemma all_guarded {P : SinkOp -> list (event_of HttpCall) -> event_of HttpCall -> Prop}
    {Q : list (event_of HttpCall) -> event_of HttpCall -> Prop} ops ts tr :
  (forall past past' e, past ⊆ past' -> Q past e -> Q past' e) ->
  (forall o tr, op_runs o tr -> guarded (P o) [] tr) -> (forall o past e, o ∈ ops -> P o past e -> Q past e) ->
  Forall2 op_runs ops ts -> interleaving ts tr -> guarded Q [] tr.
Proof.
  intros Hm Hg HQ Hf Hi. eapply (guarded_interleaving _ Hm); [|exact Hi]. clear Hi tr.
  apply Forall_forall. intros tr Hin. apply list_elem_of_lookup in Hin as [i Hi].
  destruct (Forall2_lookup_r _ _ _ _ _ Hf Hi) as (o & Ho & Hr). eapply guarded_impl; [|by apply Hg].
  intros past e. apply HQ. by eapply list_elem_of_lookup_2.
Qed.

(** C24: operations that share the sink's pools do so safely.  However concurrent
    operations interleave over the shared state, a request that leaves is one that some
    operation makes for the cluster's base URL, which is one for all of them, the first
    endpoint that any operation had for that cluster; and the cluster's breaker admitted it
    before: at that time fewer requests than the threshold had failed since the last
    success, or the cooldown had passed since the latest failure. *)
Theorem pools_are_shared_safely ops ts run pre c h2 req answer now post :
  (1 <= os_failure_threshold s <= u32_max)%Z -> (0 < os_cooldown s)%Z ->
  Forall2 op_runs ops ts -> interleaving ts (events_of run) -> serves s ∅ run ->
  run = pre ++ Did (Ev (Exchange c h2 req) answer) now :: post ->
  exists base, first_endpoint c pre = Some base
  /\ (exists o, o ∈ ops /\ op_sends o c h2 base req) /\ (exists o, o ∈ ops /\ op_reports o c base)
  /\ exists before admitted after, pre = before ++ Did (Ev (BreakerAllows c) true) admitted :: after
     /\ admits (outcomes c before) admitted.
Proof.
  intros Ht Hc Hf Hi Hs ->. set (P := fun c h2 base req => exists o, o ∈ ops /\ op_sends o c h2 base req).
  assert (Hsend : guarded (sends P) [] (events_of (pre ++ Did (Ev (Exchange c h2 req) answer) now :: post))).
  { eapply (all_guarded ops ts _ (sends_mono P) op_guarded); [|done|done]. intros o past [B x a] Ho. destruct x; try done.
    intros (Ha & base & Hp & Hx). split; [done|]. exists base. split; [done|]. by exists o. }
  assert (Hoff : guarded (offers (fun c base => exists o, o ∈ ops /\ op_reports o c base)) []
    (events_of (pre ++ Did (Ev (Exchange c h2 req) answer) now :: post))).
  { eapply (all_guarded ops ts _ (offers_mono _) op_offers); [|done|done]. intros o past [B x a] Ho. destruct x; try done.
    intros Hr. by exists o. }
  unfold events_of in Hsend, Hoff. rewrite omap_app in Hsend, Hoff. apply (guarded_app _ (sends_mono P)) in Hsend as [_ [Hx _]].
  apply (guarded_app _ (offers_mono _)) in Hoff as [Hoff _].
  rewrite app_nil_r in Hx. destruct Hx as (Ha & base & Hp & Hx). apply true_run_app in Hs as [Hs _].
  exists base. pose proof (pooled_first pre c base Hs Hp) as Hb. split; [done|]. split; [done|]. split.
  - destruct (first_inserted c pre base Hb) as (a & Hin).
    exact (guarded_elem _ _ _ _ (offers_mono _) Hoff Hin).
  - apply done_at in Ha as (before & at_ & after_ & ->). exists before, at_, after_. split; [done|].
    pose proof (true_run_at _ _ _ _ _ _ Hs) as Hal. cbn in Hal. fold (pools_after s before) in Hal. rewrite pools_after_history in Hal.
    unfold pool_history in Hal. unfold admits. destruct (first_endpoint c before) eqn:Hf0; cbn in Hal.
    + by apply breaker_sheds_while_failing.
    + left. unfold outcomes. rewrite since_nothing by done. cbn. lia.
Qed.
End Shared_safely.

(** ** Two reads that find no pool *)
Section Runs.
#[local] Instance plain_http : HttpTypes := {|
  header_name_from := Some;
  header_value_from := Some;
  header_value_text := Some;
  uri_valid _ := true
|}.
#[local] Instance pools_serde : Serde := toy_serde [].
#[local] Instance pools_int : SerdeInt := toy_int [].
Definition eu : ClusterId := lit "eu-1".
Definition read_at (base : str) : ReadOp :=
  read_op_new (with_endpoint (target_new eu (lit "shared")) (Some base)) (lit "a:1") None.
Definition read_request (base : str) (op : ReadOp) : HttpRequest :=
  match get_request base op with Ok r => addressed r (get_headers op) | Err _ => MkHttpRequest Get [] ∅ [] end.
Definition url_a : str := lit "http://a".
Definition url_b : str := lit "http://b".
Definition req_a : HttpRequest := read_request url_a (read_at url_a).
Definition req_b : HttpRequest := read_request url_a (read_at url_b).
Definition found_doc : HttpAnswer := Answered (MkHttpResponse 200 ∅ (HttpSink.buffered (lit "{}"))).
Definition trace_a : trace_of HttpCall :=
  [Ev (PoolGet eu) None; Ev (PoolInsert eu url_a) url_a; Ev (BreakerAllows eu) true; Ev (CountDispatch eu) tt;
   Ev (OpenCount eu) 0%Z; Ev (Exchange eu false req_a) found_doc; Ev (BreakerSuccess eu) tt; Ev (OpenCount eu) 1%Z].
Definition trace_b : trace_of HttpCall :=
  [Ev (PoolGet eu) None; Ev (PoolInsert eu url_b) url_a; Ev (BreakerAllows eu) true; Ev (CountDispatch eu) tt;
   Ev (OpenCount eu) 1%Z; Ev (Exchange eu false req_b) TimedOut; Ev (BreakerFailure eu) tt].
Definition did {B} (x : HttpCall B) (a : B) : Entry := Did (Ev x a) (MkInstant 0).
Definition race_before : list Entry :=
  [did (PoolGet eu) None; did (PoolGet eu) None; did (PoolInsert eu url_a) url_a; did (PoolInsert eu url_b) url_a;
   did (BreakerAllows eu) true; did (CountDispatch eu) tt; did (OpenCount eu) 0%Z; Dialled eu;
   did (BreakerAllows eu) true; did (CountDispatch eu) tt; did (OpenCount eu) 1%Z;
   did (Exchange eu false req_a) found_doc; did (BreakerSuccess eu) tt; did (OpenCount eu) 1%Z].
Definition race : list Entry := race_before ++ did (Exchange eu false req_b) TimedOut :: [did (BreakerFailure eu) tt].
Definition default_sink : OpenSearchSink unit := opensearch_sink_new.

Lemma race_runs : Forall2 op_runs [DoGet (read_at url_a); DoGet (read_at url_b)] [trace_a; trace_b].
Proof.
  repeat constructor; eexists; cbn; repeat (eexists _, _; split; [reflexivity|]); cbn; (split; [reflexivity|]); reflexivity.
Qed.
Lemma race_interleaves : interleaving [trace_a; trace_b] (events_of race).
Proof.
  unfold trace_a, trace_b. cbn.
  assert (Ha : forall (e : event_of HttpCall) t u tr, interleaving [t; u] tr -> interleaving [e :: t; u] (e :: tr))
    by (intros e t u tr Hi; exact (interleaving_step (C := HttpCall) [] e t [u] tr Hi)).
  assert (Hb : forall (e : event_of HttpCall) t u tr, interleaving [t; u] tr -> interleaving [t; e :: u] (e :: tr))
    by (intros e t u tr Hi; exact (interleaving_step (C := HttpCall) [t] e u [] tr Hi)).
  apply Ha, Hb, Ha, Hb. do 3 apply Ha. do 3 apply Hb. do 3 apply Ha. do 2 apply Hb. by repeat constructor.
Qed.
Lemma race_serves : serves default_sink ∅ race.
Proof. repeat split. Qed.
Lemma pools_are_shared_safely_witness :
  exists base, first_endpoint eu race_before = Some base
  /\ (exists o, o ∈ [DoGet (read_at url_a); DoGet (read_at url_b)] /\ op_sends o eu false base req_b)
  /\ (exists o, o ∈ [DoGet (read_at url_a); DoGet (read_at url_b)] /\ op_reports o eu base)
  /\ exists before admitted after, race_before = before ++ Did (Ev (BreakerAllows eu) true) admitted :: after
     /\ admits default_sink (outcomes eu before) admitted.
Proof.
  apply (pools_are_shared_safely default_sink _ _ race race_before eu false req_b TimedOut (MkInstant 0) [did (BreakerFailure eu) tt]
    ltac:(vm_compute; by split) ltac:(by vm_compute) race_runs race_interleaves race_serves eq_refl).
Defined.

(** The second read was told another endpoint for the cluster, and goes to the first. *)
Example a_new_endpoint_is_not_followed :
  op_reports (DoGet (read_at url_b)) eu url_b /\ hq_uri req_b = lit "http://a/shared/_doc/a:1".
Proof. vm_compute. by repeat split. Qed.
End Runs.
