(* ===== verification/AsyncWrite.v ===== *)
(** * Asynchronous writes ([crates/osproxy-engine/src/asyncwrite.rs])

    The write mode of a request, the checks of what can be queued, and putting an
    operation on the write queue instead of sending it upstream. *)
From stdpp Require Import base option list strings numbers sets.
From Stdlib Require Import Ascii ZArith Lia.
From S2P Require Import Prelude.
From S2P Require Import JsonScan.
From S2P Require Import Trace.
From S2P Require Import CoreTypes.
From S2P Require Import Serde.
From S2P Require Import ToySerde.
From S2P Require Import Spi.
From S2P Require Import Tenancy.
From S2P Require Import Sink.
From S2P Require Import Plan.
From S2P Require Import Prog.
From S2P Require Import Effects.

Open Scope osp_scope.

(** [pipeline.rs]: the response a handler returns to the transport. *)
Record PipelineResponse : Type := MkResponse {
  resp_status : Z;
  resp_body : bytes;
  resp_content_type : option str
}.

Inductive WriteMode : Type := Sync | Async.
Definition write_mode_eqb (a b : WriteMode) : bool :=
  match a, b with Sync, Sync | Async, Async => true | _, _ => false end.
Definition write_mode_parse (v : str) : option WriteMode :=
  if eq_ignore_ascii_case v (lit "sync") then Some Sync
  else if eq_ignore_ascii_case v (lit "async") then Some Async
  else None.
(** [resolve_write_mode] of [pipeline.rs], on the header of the request. *)
Definition resolve_write_mode (baseline : WriteMode) (header : option str) : WriteMode :=
  default baseline (header ≫= write_mode_parse).

Definition MAX_OP_ID_LEN : nat := 128.
Definition is_ascii_alphanumeric (c : byte) : bool :=
  is_ascii_digit c || ((65 <=? bz c)%Z && (bz c <=? 90)%Z) || ((97 <=? bz c)%Z && (bz c <=? 122)%Z).
Definition op_id_byte (c : byte) : bool :=
  is_ascii_alphanumeric c || existsb (Ascii.eqb c) ["-"%char; "_"%char; "."%char; ":"%char].
Definition valid_op_id (candidate : str) : bool :=
  match candidate with
  | [] => false
  | _ => (length candidate <=? MAX_OP_ID_LEN) && forallb op_id_byte candidate
  end.
Definition op_id_for (ctx : RequestCtx) (rid : RequestId) : str :=
  match header_get (ctx_headers ctx) (lit "x-op-id") with
  | Some h => if valid_op_id h then h else rid
  | None => rid
  end.

(** [pair.split('=').next().unwrap_or(pair)]. *)
Definition pair_key (pair : str) : str := default pair (head (split "=" pair)).
Definition one_of (k : str) (ks : list str) : bool := existsb (str_eqb k) ks.
Definition unsupported_async (ctx : RequestCtx) : option str :=
  let has_cas := match ctx_query ctx with
                 | Some query => existsb (fun pair => one_of (pair_key pair)
                     [lit "if_seq_no"; lit "if_primary_term"; lit "version"]) (split "&" query)
                 | None => false
                 end in
  if has_cas then
    Some (lit "optimistic concurrency (if_seq_no/if_primary_term/version) is not supported in async write mode")
  else if existsb (fun seg => str_eqb seg (lit "_update")) (split "/" (ctx_path ctx)) then
    Some (lit "scripted/partial _update is not supported in async write mode")
  else None.

Section Responses.
Context {Sd : Serde}.

Definition accepted_response (op_id index : str) : PipelineResponse :=
  MkResponse 202 (default (lit "{}") (to_vec (json_object
    [(lit "op_id", String op_id); (lit "status", String (lit "accepted")); (lit "result", String (lit "queued"));
     (lit "_index", String index)]))) None.
Definition unsupported_response (reason index : str) : PipelineResponse :=
  MkResponse 400 (default (lit "{}") (to_vec (json_object
    [(lit "status", String (lit "rejected")); (lit "error", String reason); (lit "_index", String index)]))) None.
Definition unavailable_response (index : str) : PipelineResponse :=
  MkResponse 422 (default (lit "{}") (to_vec (json_object
    [(lit "status", String (lit "rejected"));
     (lit "error", String (lit "async write mode is not available on this proxy")); (lit "_index", String index)]))) None.
Definition enqueue_failed_response (op_id index : str) : PipelineResponse :=
  MkResponse 503 (default (lit "{}") (to_vec (json_object
    [(lit "op_id", String op_id); (lit "status", String (lit "rejected"));
     (lit "error", String (lit "async write could not be enqueued")); (lit "_index", String index)]))) None.

(** [queue_enabled] is the queue's [enabled()]. *)
Definition enqueue_async (queue_enabled : bool) (ctx : RequestCtx) (resolved : Resolved) (batch : WriteBatch)
    : prog PipelineResponse :=
  let index := logical_index ctx in
  match unsupported_async ctx with
  | Some reason => Ret (unsupported_response reason index)
  | None =>
      if negb queue_enabled then Ret (unavailable_response index)
      else
        let op_id := op_id_for ctx (request_id ctx) in
        await! r := call (Enqueue (MkQueuedWrite op_id (r_partition resolved) batch)) in
        Ret (match r with
             | Ok _ => accepted_response op_id index
             | Err _ => enqueue_failed_response op_id index
             end)
  end.

(** ** What an accepted write means *)
Lemma op_id_for_spec ctx :
  op_id_for ctx (request_id ctx) = request_id ctx
  \/ (valid_op_id (op_id_for ctx (request_id ctx)) = true
      /\ header_get (ctx_headers ctx) (lit "x-op-id") = Some (op_id_for ctx (request_id ctx))).
Proof.
  unfold op_id_for. destruct (header_get _ _) as [h|]; [|by left]. destruct (valid_op_id h) eqn:Hv; [by right|by left].
Qed.

(** A 202 means the queue acknowledged the operation. A queued write makes at most one
    call, and that call is the enqueue of exactly this batch, keyed by the resolved
    partition, under the id the answer names; the answer is 202 if and only if the queue
    took it, 503 if it refused, 400 or 422, without any call, if the request cannot be
    queued or there is no queue. The id is the client's only when it is well formed. *)
Theorem accepted_write_is_enqueued queue_enabled ctx resolved batch tr resp :
  exec (enqueue_async queue_enabled ctx resolved batch) tr resp <->
  let op_id := op_id_for ctx (request_id ctx) in
  let index := logical_index ctx in
  (exists reason, unsupported_async ctx = Some reason /\ tr = [] /\ resp = unsupported_response reason index)
  \/ (unsupported_async ctx = None /\ queue_enabled = false /\ tr = [] /\ resp = unavailable_response index)
  \/ (unsupported_async ctx = None /\ queue_enabled = true
      /\ (op_id = request_id ctx \/ (valid_op_id op_id = true
            /\ header_get (ctx_headers ctx) (lit "x-op-id") = Some op_id))
      /\ exists r, tr = [Ev (Enqueue (MkQueuedWrite op_id (r_partition resolved) batch)) r]
         /\ resp = (if is_ok r then accepted_response op_id index else enqueue_failed_response op_id index)).
Proof.
  cbv zeta. pose proof (op_id_for_spec ctx) as Hid. unfold enqueue_async. cbv zeta.
  destruct (unsupported_async ctx) as [reason|].
  { cbn. split; [intros [-> ->]; left; eauto|]. by intros [(? & [= <-] & -> & ->)|[(? & _)|(? & _)]]. }
  destruct queue_enabled; cbn [negb]; cycle 1.
  { cbn. split; [intros [-> ->]; auto 10|]. by intros [(? & ? & _)|[(_ & _ & -> & ->)|(_ & ? & _)]]. }
  rewrite exec_bind. split.
  - intros (t1 & t2 & r & -> & ->%exec_call & -> & ->). do 2 right. split; [done|]. split; [done|]. split; [done|].
    exists r. rewrite app_nil_r. by destruct r.
  - intros [(? & ? & _)|[(_ & ? & _)|(_ & _ & _ & r & -> & ->)]]; [done..|].
    eexists _, [], r. rewrite app_nil_r. split; [done|]. split; [by apply exec_call|]. by destruct r.
Qed.
End Responses.
