(* ===== verification/BulkPrep.v ===== *)
(** * Preparing the operations of a bulk ([crates/osproxy-engine/src]: bulkprep, bulkline)

    One parsed item of a [_bulk] body becomes a write operation, or a failure that keeps
    its position in the response. *)
From stdpp Require Import base option list strings numbers sets gmap pretty.
From Stdlib Require Import Ascii ZArith Lia.
From S2P Require Import Prelude.
From S2P Require Import JsonScan.
From S2P Require Import JsonGrammar.
From S2P Require Import JsonTop.
From S2P Require Import JsonProps.
From S2P Require Import Trace.
From S2P Require Import CoreTypes.
From S2P Require Import Serde.
From S2P Require Import ToySerde.
From S2P Require Import DocId.
From S2P Require Import Fields.
From S2P Require Import Bulk.
From S2P Require Import Spi.
From S2P Require Import Tenancy.
From S2P Require Import Sink.
From S2P Require Import Plan.
From S2P Require Import ReadPath.
From S2P Require Import Prog.
From S2P Require Import Effects.
From S2P Require Import Retry.

Open Scope osp_scope.

(** ** [bulkline.rs] *)
Inductive LineKind : Type :=
| LineResult (outcome : str)
| LineQueued (op_id : str)
| LineError (error : str).
Record Line : Type := MkLine {
  line_action : str;
  line_index : str;
  line_id : option str;
  line_status : Z;
  line_kind : LineKind
}.
Definition line_result (action index : str) (id : option str) (status : Z) (outcome : str) : Line :=
  MkLine action index id status (LineResult outcome).
Definition line_queued (action index : str) (id : option str) (status : Z) (op_id : str) : Line :=
  MkLine action index id status (LineQueued op_id).
Definition line_error (action index : str) (id : option str) (status : Z) (error : str) : Line :=
  MkLine action index id status (LineError error).
Definition is_error (l : Line) : bool := match line_kind l with LineError _ => true | _ => false end.

Section Write.
Context {Sd : Serde}.

(** [serialize_map]: the members in the order they are written. *)
Definition json_members (ms : list (str * option bytes)) : option bytes :=
  ms ← mapM (fun e => kt ← str_to_vec e.1; t ← e.2; Some (kt ++ ":"%char :: t)) ms;
  Some ("{"%char :: join (lit ",") ms ++ ["}"%char]).
Definition json_number (n : Z) : option bytes := Some (lit (pretty n)).
Definition line_body (l : Line) : option bytes :=
  json_members
    ((lit "_index", str_to_vec (line_index l))
     :: (lit "_id", match line_id l with Some id => str_to_vec id | None => Some (lit "null") end)
     :: match line_kind l with
        | LineResult outcome =>
            [(lit "status", json_number (line_status l)); (lit "result", str_to_vec outcome)]
        | LineQueued op_id =>
            [(lit "op_id", str_to_vec op_id); (lit "status", json_number (line_status l));
             (lit "result", str_to_vec (lit "queued"))]
        | LineError error =>
            [(lit "status", json_number (line_status l));
             (lit "error", json_members [(lit "type", str_to_vec error)])]
        end).
Definition line_text (l : Line) : option bytes := json_members [(line_action l, line_body l)].
Definition bulk_body_text (errors : bool) (items : list (option Line)) : option bytes :=
  items ← mapM (fun i => match i with Some l => line_text l | None => Some (lit "null") end) items;
  json_members
    [(lit "took", json_number 0);
     (lit "errors", Some (if errors then lit "true" else lit "false"));
     (lit "items", Some ("["%char :: join (lit ",") items ++ ["]"%char]))].
End Write.

(** ** [bulkprep.rs] *)
Record ItemFailure : Type := MkItemFailure {
  if_action : str;
  if_logical_index : str;
  if_logical_id : option str;
  if_status : Z;
  if_error : str
}.
Definition into_line (f : ItemFailure) : Line :=
  line_error (if_action f) (if_logical_index f) (if_logical_id f) (if_status f) (if_error f).

Record Prepared : Type := MkPrepared {
  p_op : WriteOp;
  p_partition : PartitionId;
  p_action : str;
  p_logical_index : str;
  p_logical_id : str
}.
Record IdRule : Type := MkIdRule { ir_template : str; ir_set_routing : bool }.

Section Prepare.
Context {Sd : Serde} {W : Wide} {R : Router}.

Record CachedResolution : Type := MkCached { cached_resolved : Resolved; cached_inject : list (FieldName * value) }.
Definition ResolutionCache : Type := gmap (str * str) CachedResolution.

Definition constant (v : InjectedValue) (partition : str) : value :=
  match v with
  | InjConstant v => v
  | InjPartitionId | InjFromPrincipal _ | InjFromHeader _ => String partition
  end.
Definition inject_pairs (tr : BodyTransform) (partition : str) : list (FieldName * value) :=
  let fields := match tr with Inject f | Both f _ => f | TransformNone | ConstructId _ => [] end in
  (fun f => (inj_name f, constant (inj_value f) partition)) <$> fields.
Definition id_rule_of (tr : BodyTransform) : option IdRule :=
  let rule := match tr with ConstructId r | Both _ r => Some r | TransformNone | Inject _ => None end in
  (fun r => MkIdRule (template_str (template r)) (set_routing r)) <$> rule.
Definition routing_for (rule : option IdRule) (routing_value : str) : option str :=
  match rule with
  | Some r => if ir_set_routing r then Some routing_value else None
  | None => None
  end.
Definition physical_id (rule : option IdRule) (partition logical : str) : option str :=
  match rule with
  | Some r => match ended (map_logical_to_physical (ir_template r) partition logical) with Ok id => Some id | Err _ => None end
  | None => Some logical
  end.

Definition index_id (rule : option IdRule) (partition : str) (item : BulkItem) (source : bytes)
    : option (option str * str) :=
  match rule, bi_id item with
  | Some r, Some logical =>
      match ended (map_logical_to_physical (ir_template r) partition logical) with
      | Ok physical => Some (Some physical, logical)
      | Err _ => None
      end
  | Some r, None =>
      match ended (construct_id_bytes (ir_template r) partition source) with
      | Ok physical =>
          let logical := match ended (map_physical_to_logical (ir_template r) partition physical) with
                         | Ok (Some logical) => logical
                         | _ => physical
                         end in
          Some (Some physical, logical)
      | Err _ => None
      end
  | None, id => Some (id, default [] id)
  end.

Definition fail (action logical_index : str) (logical_id : option str) (status : Z) (error : str) : ItemFailure :=
  MkItemFailure action logical_index logical_id status error.

Definition build_update (item : BulkItem) (inject : list (FieldName * value)) (rule : option IdRule)
    (partition routing_value : str) (bad : str -> ItemFailure) : Result (DocOp * str) ItemFailure :=
  let? logical := ok_or (bi_id item) (bad (lit "update_without_id")) in
  let? id := ok_or (physical_id rule partition logical) (bad (lit "irreversible_id")) in
  let? source := ok_or (bi_source item) (bad (lit "missing_source")) in
  let? update := ok_or (from_slice source) (bad (lit "invalid_json")) in
  let '(update, r) := inject_update update inject in
  let? _ := map_err (fun _ => bad (lit "reserved_field_collision")) r in
  let? out := ok_or (to_vec update) (bad (lit "serialize")) in
  Ok (OpUpdate id (routing_for rule routing_value) out, logical).

Definition build_op (resolved : Resolved) (inject : list (FieldName * value)) (item : BulkItem)
    (action logical_index : str) : Result Prepared ItemFailure :=
  let partition := r_partition resolved in
  let routing_value := default partition (r_routing_hint resolved) in
  let rule := id_rule_of (body_transform (r_decision resolved)) in
  let bad := fun code => fail action logical_index (bi_id item) 400 code in
  let? (doc, logical_id) :=
    match bi_action item with
    | Delete =>
        let? logical := ok_or (bi_id item) (bad (lit "delete_without_id")) in
        let? id := ok_or (physical_id rule partition logical) (bad (lit "irreversible_id")) in
        Ok (OpDelete id (routing_for rule routing_value), logical)
    | Update => build_update item inject rule partition routing_value bad
    | Index | Create =>
        let? source := ok_or (bi_source item) (bad (lit "missing_source")) in
        let? out := map_err (fun _ => bad (lit "reserved_field_collision")) (inject_fields_bytes source inject) in
        let? (id, logical) := ok_or (index_id rule partition item source) (bad (lit "id_construction")) in
        let routing := match id with Some _ => routing_for rule routing_value | None => None end in
        Ok (match bi_action item with Create => OpCreate id routing out | _ => OpIndex id routing out end, logical)
    end in
  Ok (MkPrepared
    (write_with_protocol (write_op_new (target (r_decision resolved)) doc (epoch (r_decision resolved)))
       (upstream_protocol (r_decision resolved)))
    partition action logical_index logical_id).

(** The cache is returned with the result: it keeps what was resolved. *)
Definition prepare (ctx : RequestCtx) (cache : ResolutionCache) (item : BulkItem) (retry : RetryPolicy)
    (up_trace : option TraceContext) : prog (Result Prepared ItemFailure * ResolutionCache) :=
  let action := keyword (bi_action item) in
  let logical_index := default (logical_index ctx) (bi_index item) in
  match router_resolve_partition ctx (default [] (bi_source item)) with
  | Err _ => Ret (Err (fail action logical_index (bi_id item) 400 (lit "partition_unresolved")), cache)
  | Ok partition =>
      let key := (partition, logical_index) in
      await! cached := (match cache !! key with
                        | Some _ => Ret (Ok cache)
                        | None =>
                            try! resolved := lift_err
                              (fun _ => fail action logical_index (bi_id item) 404 (lit "placement_missing"))
                              (with_retry retry (ResolvePlacement ctx partition logical_index)) in
                            let inject := inject_pairs (body_transform (r_decision resolved)) (r_partition resolved) in
                            Ret (Ok (<[key := MkCached resolved inject]> cache))
                        end) in
      match cached with
      | Err e => Ret (Err e, cache)
      | Ok cache =>
          match cache !! key with
          | None => Ret (Err (fail action logical_index (bi_id item) 404 (lit "placement_missing")), cache)
          | Some entry =>
              Ret (let? p := build_op (cached_resolved entry) (cached_inject entry) item action logical_index in
                   Ok (MkPrepared
                     (write_with_forward_headers (write_with_trace (p_op p) up_trace) (forward_headers ctx))
                     (p_partition p) (p_action p) (p_logical_index p) (p_logical_id p)), cache)
          end
      end
  end.
End Prepare.

(** ** What is prepared *)
Section Prepared.
Context {Sd : Serde} {W : Wide} {R : Router}.

Lemma ended_Ok {A} (o : option (Result A RewriteError)) a : ended o = Ok a <-> o = Some (Ok a).
Proof. destruct o as [r|]; cbn; [by split; [intros ->|intros [= ->]]|done]. Qed.

(** The fields of a transform the router settled, with their values. *)
Lemma inject_pairs_settled tr partition :
  Forall settled (transform_fields tr) ->
  resolve_values (transform_fields tr) partition = Ok (inject_pairs tr partition).
Proof.
  assert (H : forall fields, Forall settled fields ->
    resolve_values fields partition = Ok ((fun f => (inj_name f, constant (inj_value f) partition)) <$> fields)).
  { intros fields. unfold resolve_values. rewrite collect_Ok. induction 1 as [|f fields Hf Hfs IH]; [constructor|].
    rewrite fmap_cons. constructor; [|done]. unfold resolve_value, settled in *. by destruct (inj_value f). }
  intros Hs. rewrite (H _ Hs). by destruct tr.
Qed.
Lemma id_rule_of_transform tr :
  id_rule_of tr = (fun r => MkIdRule (template_str (template r)) (set_routing r)) <$> transform_rule tr.
Proof. by destruct tr. Qed.
Lemma routing_for_transform tr v : routing_for (id_rule_of tr) v = Plan.routing_for tr v.
Proof. by destruct tr. Qed.

(** The physical id a client's id stands for. *)
Definition MappedId (tr : BodyTransform) (partition logical id : str) : Prop :=
  match transform_rule tr with
  | None => id = logical
  | Some rule => map_logical_to_physical (template_str (template rule)) partition logical = Some (Ok id)
  end.
Lemma physical_id_MappedId tr partition logical id :
  physical_id (id_rule_of tr) partition logical = Some id <-> MappedId tr partition logical id.
Proof.
  rewrite id_rule_of_transform. unfold physical_id, MappedId.
  destruct (transform_rule tr) as [rule|]; cbn; [|by split; [intros [= ->]|intros ->]].
  rewrite <- ended_Ok. destruct (ended _); split; by intros [= ->].
Qed.

(** The id of an indexed document and the one echoed: the client's, mapped; or without
    one, the rule's, echoed as the natural key it reads back as. *)
Definition IndexedId (resolved : Resolved) (client : option str) (source : bytes) (id : option str) (echoed : str) : Prop :=
  let tr := body_transform (r_decision resolved) in
  match client with
  | Some c => echoed = c /\ exists i, id = Some i /\ MappedId tr (r_partition resolved) c i
  | None => IdOf tr (r_partition resolved) source id
            /\ echoed = match id with Some i => ReadPath.logical_write_id resolved i | None => [] end
  end.
Lemma index_id_IndexedId resolved item source id echoed :
  index_id (id_rule_of (body_transform (r_decision resolved))) (r_partition resolved) item source = Some (id, echoed) ->
  IndexedId resolved (bi_id item) source id echoed.
Proof.
  unfold IndexedId, IdOf, MappedId, ReadPath.logical_write_id, index_id.
  rewrite id_rule_of_transform, ReadPath.id_rule_transform.
  destruct (transform_rule _) as [rule|]; cbn [fmap option_fmap option_map ir_template];
    destruct (bi_id item) as [c|]; [| |by intros [= <- <-]; eauto|by intros [= <- <-]].
  - destruct (ended _) as [i|] eqn:Hi; [|done]. apply ended_Ok in Hi. intros [= <- <-]. eauto.
  - destruct (ended (construct_id_bytes (template_str (template rule)) (r_partition resolved) source)) as [i|] eqn:Hi;
      [|done]. apply ended_Ok in Hi. intros [= <- <-]. split; [by eauto|]. by destruct (ended _) as [[]|].
Qed.

(** An update body with the fields stamped into [doc] and [upsert], every other member
    (a [script], say) as the client sent it. *)
Definition stamped (fields : list (FieldName * value)) (sub sub' : value) : Prop :=
  exists o, sub = Object o /\ sub' = Object (insert_all o fields) /\ Forall (fun f => f.1 ∉ o.*1) fields.
Definition UpdateBody (fields : list (FieldName * value)) (v v' : value) : Prop :=
  exists obj obj', v = Object obj /\ v' = Object obj'
  /\ forall k, if bool_decide (k = lit "doc" \/ k = lit "upsert")
     then (map_get obj k = None /\ map_get obj' k = None)
          \/ exists sub sub', map_get obj k = Some sub /\ map_get obj' k = Some sub' /\ stamped fields sub sub'
     else map_get obj' k = map_get obj k.

Lemma inject_fields_stamped sub fields sub' u : inject_fields sub fields = (sub', Ok u) -> stamped fields sub sub'.
Proof.
  unfold inject_fields. destruct (as_object sub) as [o|] eqn:Ho; [|done].
  destruct sub; try done. injection Ho as <-. destruct (reserved_check _ _) as [w|] eqn:Hc; [|done].
  intros [= <- <-]. exists m. split; [done|]. split; [done|].
  apply reserved_check_unit in Hc as Hw. subst w. apply reserved_check_Ok in Hc.
  eapply Forall_impl; [exact Hc|]. intros f Hf%contains_key_false Hin.
  apply map_get_None in Hf. done.
Qed.
Lemma inject_sub_spec obj key keys fields obj' u :
  inject_subs obj (key :: keys) fields = (obj', Ok u) ->
  exists obj1, inject_subs obj1 keys fields = (obj', Ok u)
  /\ (forall k, k <> key -> map_get obj1 k = map_get obj k)
  /\ ((map_get obj key = None /\ map_get obj1 key = None)
      \/ exists sub sub', map_get obj key = Some sub /\ map_get obj1 key = Some sub' /\ stamped fields sub sub').
Proof.
  cbn. destruct (map_get obj key) as [sub|] eqn:Hk; [|intros H; exists obj; eauto].
  destruct (inject_fields sub fields) as [sub' [w|e]] eqn:Hi; [|done]. intros H. eexists. split; [exact H|].
  split; [intros k Hne; by rewrite map_get_insert, (proj2 (str_eqb_neq _ _)) by congruence|].
  right. exists sub, sub'. split; [done|]. split; [by rewrite map_get_insert, str_eqb_refl|].
  by eapply inject_fields_stamped.
Qed.
Lemma inject_update_UpdateBody v fields v' u : inject_update v fields = (v', Ok u) -> UpdateBody fields v v'.
Proof.
  unfold inject_update. destruct (as_object v) as [obj|] eqn:Hv; [|done]. destruct v; try done. injection Hv as <-.
  destruct (inject_subs _ _ _) as [obj' r] eqn:Hs. intros [= <- ->].
  apply inject_sub_spec in Hs as (o1 & (o2 & [= <- _] & Ho2 & Hu)%inject_sub_spec & Ho1 & Hd).
  exists m, o2. split; [done|]. split; [done|]. intros k. case_bool_decide as Hk.
  - destruct Hk as [->| ->].
    + by rewrite (Ho2 (lit "doc")) by done.
    + by rewrite <- (Ho1 (lit "upsert")) by done.
  - rewrite Ho2, Ho1; [done|..]; intros ->; apply Hk; auto.
Qed.

Definition routing_of (resolved : Resolved) : option str :=
  Plan.routing_for (body_transform (r_decision resolved)) (default (r_partition resolved) (r_routing_hint resolved)).
Definition PreparedDoc (resolved : Resolved) (item : BulkItem) (doc : DocOp) (echoed : str) : Prop :=
  let tr := body_transform (r_decision resolved) in
  match bi_action item, doc with
  | Index, OpIndex id routing out | Create, OpCreate id routing out =>
      routing = routing_of resolved /\ exists source, bi_source item = Some source
      /\ IndexedId resolved (bi_id item) source id echoed
      /\ InjectedBody (r_partition resolved) (transform_fields tr) source out
      /\ (transform_fields tr = [] -> out = source)
  | Update, OpUpdate id routing out =>
      routing = routing_of resolved /\ exists source v v', bi_source item = Some source
      /\ bi_id item = Some echoed /\ MappedId tr (r_partition resolved) echoed id
      /\ from_slice source = Some v /\ UpdateBody (inject_pairs tr (r_partition resolved)) v v'
      /\ to_vec v' = Some out
  | Delete, OpDelete id routing =>
      routing = routing_of resolved /\ bi_id item = Some echoed /\ MappedId tr (r_partition resolved) echoed id
  | _, _ => False
  end.

Lemma splice_Ok resolved source out :
  let tr := body_transform (r_decision resolved) in
  Forall settled (transform_fields tr) -> utf8_fields (transform_fields tr) ->
  inject_fields_bytes source (inject_pairs tr (r_partition resolved)) = Ok out ->
  inject source (transform_fields tr) (r_partition resolved) = Ok out
  /\ JDoc any_escape source /\ InjectedBody (r_partition resolved) (transform_fields tr) source out
  /\ (transform_fields tr = [] -> out = source).
Proof.
  cbv zeta. intros Hs Hu Hi.
  assert (Hin : inject source (transform_fields (body_transform (r_decision resolved))) (r_partition resolved) = Ok out).
  { unfold inject. rewrite inject_pairs_settled by done. cbn [rbind]. by rewrite Hi. }
  split; [done|]. by apply inject_Ok.
Qed.

Lemma indexed_routing resolved id client source echoed :
  IndexedId resolved client source id echoed ->
  match id with
  | Some _ => routing_for (id_rule_of (body_transform (r_decision resolved)))
                (default (r_partition resolved) (r_routing_hint resolved))
  | None => None
  end = routing_of resolved.
Proof.
  unfold IndexedId, routing_of, IdOf. rewrite routing_for_transform. destruct id; [done|].
  destruct client as [c|]; [by intros (_ & i & ? & _)|]. intros [H _].
  destruct (body_transform _); cbn in *; [done|done|by destruct H as (? & ? & _)..].
Qed.

(** The documents of an index or create, and of an update. *)
Lemma indexed_doc resolved item (create : bool) (bad : str -> ItemFailure) doc echoed :
  let tr := body_transform (r_decision resolved) in
  Forall settled (transform_fields tr) -> utf8_fields (transform_fields tr) ->
  (let? source := ok_or (bi_source item) (bad (lit "missing_source")) in
   let? out := map_err (fun _ => bad (lit "reserved_field_collision"))
                 (inject_fields_bytes source (inject_pairs tr (r_partition resolved))) in
   let? (id, logical) := ok_or (index_id (id_rule_of tr) (r_partition resolved) item source) (bad (lit "id_construction")) in
   let routing := match id with
                  | Some _ => routing_for (id_rule_of tr) (default (r_partition resolved) (r_routing_hint resolved))
                  | None => None
                  end in
   Ok (if create then OpCreate id routing out else OpIndex id routing out, logical)) = Ok (doc, echoed) ->
  exists id out source, doc = (if create then OpCreate id (routing_of resolved) out else OpIndex id (routing_of resolved) out)
  /\ bi_source item = Some source /\ IndexedId resolved (bi_id item) source id echoed
  /\ InjectedBody (r_partition resolved) (transform_fields tr) source out
  /\ (transform_fields tr = [] -> out = source).
Proof.
  cbv zeta. intros Hs Hu. destruct (bi_source item) as [source|]; [|done]. cbn [ok_or rbind].
  destruct (inject_fields_bytes _ _) as [out|] eqn:Hi; [|done]. cbn [map_err rbind].
  destruct (index_id _ _ _ _) as [[id logical]|] eqn:Hid; [|done]. cbn [ok_or rbind]. intros [= <- <-].
  apply index_id_IndexedId in Hid. rewrite (indexed_routing _ _ _ _ _ Hid).
  destruct (splice_Ok _ _ _ Hs Hu Hi) as (_ & _ & ? & ?). by exists id, out, source.
Qed.
Lemma update_doc resolved item (bad : str -> ItemFailure) doc echoed :
  let tr := body_transform (r_decision resolved) in
  build_update item (inject_pairs tr (r_partition resolved)) (id_rule_of tr) (r_partition resolved)
    (default (r_partition resolved) (r_routing_hint resolved)) bad = Ok (doc, echoed) ->
  exists id out source v v', doc = OpUpdate id (routing_of resolved) out
  /\ bi_source item = Some source /\ bi_id item = Some echoed /\ MappedId tr (r_partition resolved) echoed id
  /\ from_slice source = Some v /\ UpdateBody (inject_pairs tr (r_partition resolved)) v v'
  /\ to_vec v' = Some out.
Proof.
  cbv zeta. unfold build_update. destruct (bi_id item) as [c|]; [|done]. cbn [ok_or rbind].
  destruct (physical_id _ _ _) as [id|] eqn:Hp; [|done]. cbn [ok_or rbind]. apply physical_id_MappedId in Hp.
  destruct (bi_source item) as [source|]; [|done]. cbn [ok_or rbind].
  destruct (from_slice source) as [v|] eqn:Hv; [|done]. cbn [ok_or rbind].
  destruct (inject_update _ _) as [v' [u|]] eqn:Hi; [|done]. cbn [map_err rbind].
  destruct (to_vec v') as [out|] eqn:Ho; [|done]. cbn [ok_or rbind]. intros [= <- <-].
  apply inject_update_UpdateBody in Hi. rewrite routing_for_transform. by exists id, out, source, v, v'.
Qed.

(** C15: every operation of a bulk is confined to the partition its item resolved to. It
    goes to the decision's target with the decision's epoch and protocol; an index or a
    create sends the source with the fields in front and refuses a source that names one;
    an update stamps the fields into the [doc] and [upsert] objects and leaves every other
    member as sent; an id of the client is mapped by the partition's rule, whatever the
    verb; a constructed one is echoed as the natural key; the routing value is present
    exactly when the rule asks for it. *)
Theorem prepared_op_is_isolated resolved item action logical_index p :
  let tr := body_transform (r_decision resolved) in
  Forall settled (transform_fields tr) -> utf8_fields (transform_fields tr) ->
  build_op resolved (inject_pairs tr (r_partition resolved)) item action logical_index = Ok p ->
  exists doc echoed, p = MkPrepared
      (MkWriteOp (target (r_decision resolved)) doc (epoch (r_decision resolved)) (upstream_protocol (r_decision resolved)) None [])
      (r_partition resolved) action logical_index echoed
  /\ PreparedDoc resolved item doc echoed.
Proof.
  cbv zeta. intros Hs Hu. unfold build_op.
  set (routing_value := default (r_partition resolved) (r_routing_hint resolved)).
  set (bad := fun code => fail action logical_index (bi_id item) 400 code).
  destruct (_ : Result (DocOp * str) ItemFailure) as [[doc echoed]|] eqn:Hd; [|done].
  cbn [rbind]. intros [= <-]. exists doc, echoed. split; [done|].
  destruct (bi_action item) eqn:Ha; unfold PreparedDoc; rewrite Ha.
  - destruct (indexed_doc resolved item false bad doc echoed Hs Hu Hd) as (id & out & source & -> & H). split; [done|]. by exists source.
  - destruct (indexed_doc resolved item true bad doc echoed Hs Hu Hd) as (id & out & source & -> & H). split; [done|]. by exists source.
  - destruct (update_doc resolved item bad doc echoed Hd) as (id & out & source & v & v' & -> & H).
    split; [done|]. by exists source, v, v'.
  - destruct (bi_id item) as [c|]; [|done]. cbn [ok_or rbind] in Hd.
    destruct (physical_id _ _ _) as [id|] eqn:Hp; [|done]. injection Hd as <- <-.
    apply physical_id_MappedId in Hp. by rewrite routing_for_transform.
Qed.

(** a document written through a bulk is the document a single write would have
    stored: for an index item without an id of its own, whatever [build_op] prepares is, up
    to the trace and the headers attached later, the batch the single-document path builds
    from the same source. *)
Theorem bulk_index_agrees_with_single_write resolved item source action logical_index p :
  let tr := body_transform (r_decision resolved) in
  Forall settled (transform_fields tr) -> utf8_fields (transform_fields tr) ->
  bi_action item = Index -> bi_id item = None -> bi_source item = Some source ->
  build_op resolved (inject_pairs tr (r_partition resolved)) item action logical_index = Ok p ->
  build_write_batch resolved source = Ok (batch_single (p_op p)).
Proof.
  cbv zeta. intros Hs Hu Ha Hc Hsrc. unfold build_op. rewrite Ha, Hsrc. cbn [ok_or rbind].
  destruct (inject_fields_bytes _ _) as [out|] eqn:Hi; [|done]. cbn [map_err rbind].
  destruct (index_id _ _ _ _) as [[id logical]|] eqn:Hid; [|done]. cbn [ok_or rbind]. intros [= <-].
  apply index_id_IndexedId in Hid. rewrite (indexed_routing _ _ _ _ _ Hid).
  unfold IndexedId in Hid. rewrite Hc in Hid. destruct Hid as [Hid _].
  destruct (splice_Ok _ _ _ Hs Hu Hi) as (Hin & Hdoc & _ & Hsame).
  assert (Hv : validate_json source = Ok tt).
  { unfold validate_json. apply validate_spec in Hdoc. by rewrite Hdoc. }
  assert (Hb : forall rule i, transform_rule (body_transform (r_decision resolved)) = Some rule -> id = Some i ->
    build_id rule source (r_partition resolved) = Ok i).
  { intros rule i Hr ->. unfold IdOf in Hid. rewrite Hr in Hid. destruct Hid as (j & [= <-] & Hj).
    unfold build_id. by rewrite (proj2 (ended_Ok _ _) Hj). }
  unfold build_write_batch.
  assert (Ht : apply_transform source (body_transform (r_decision resolved)) (r_partition resolved) = Ok (id, out)).
  { unfold apply_transform, IdOf in *. destruct (body_transform _) as [|fields|rule|fields rule]; cbn in *.
    - rewrite Hv. cbn. by rewrite Hid, Hsame.
    - rewrite Hin. cbn. by rewrite Hid.
    - destruct Hid as (j & -> & _). rewrite Hv. cbn [map_err rbind]. rewrite (Hb rule j) by done.
      cbn. by rewrite Hsame.
    - destruct Hid as (j & -> & _). rewrite Hin. cbn [rbind]. by rewrite (Hb rule j). }
  by rewrite Ht.
Qed.
End Prepared.

(** ** Concrete items *)
Section Runs.
#[local] Existing Instance scalar_wide.
Definition sample_pairs : list (FieldName * Value Z) :=
  @inject_pairs (toy_serde []) (body_transform (r_decision sample_resolved)) (lit "acme").
Definition index_item (id : option str) (source : bytes) : BulkItem := MkBulkItem Index None id None false (Some source).
Definition prepared_sample : Prepared :=
  MkPrepared (MkWriteOp (target_new (lit "eu-1") (lit "shared"))
      (OpIndex (Some (lit "acme:v")) (Some (lit "acme")) (body "{'_tenant':'acme','_region':'eu','k':'v','msg':'hi'}"))
      (MkEpoch 7) Http1 None [])
    (lit "acme") (lit "index") (lit "orders") (lit "v").

Example client_id_is_mapped :
  exists p, @build_op (toy_serde []) _ sample_resolved sample_pairs (index_item (Some (lit "7")) sample_body)
    (lit "index") (lit "orders") = Ok p
  /\ w_doc (p_op p) = OpIndex (Some (lit "acme:7")) (Some (lit "acme"))
       (body "{'_tenant':'acme','_region':'eu','k':'v','msg':'hi'}") /\ p_logical_id p = lit "7".
Proof. eexists. split; [reflexivity|split; reflexivity]. Qed.

Lemma prepared_op_is_isolated_witness :
  exists doc echoed, prepared_sample = MkPrepared
      (MkWriteOp (target (r_decision sample_resolved)) doc (epoch (r_decision sample_resolved))
         (upstream_protocol (r_decision sample_resolved)) None [])
      (r_partition sample_resolved) (lit "index") (lit "orders") echoed
  /\ @PreparedDoc (toy_serde []) _ sample_resolved (index_item None sample_body) doc echoed.
Proof.
  apply (@prepared_op_is_isolated (toy_serde []) scalar_wide sample_resolved (index_item None sample_body)).
  - by repeat constructor.
  - by repeat constructor.
  - reflexivity.
Defined.

Lemma bulk_index_agrees_with_single_write_witness :
  @build_write_batch (toy_serde []) _ sample_resolved sample_body = Ok (batch_single (p_op prepared_sample)).
Proof.
  apply (@bulk_index_agrees_with_single_write (toy_serde []) scalar_wide sample_resolved (index_item None sample_body)
    sample_body (lit "index") (lit "orders") prepared_sample).
  - by repeat constructor.
  - by repeat constructor.
  - reflexivity.
  - reflexivity.
  - reflexivity.
  - reflexivity.
Defined.
End Runs.
