(* ===== verification/BulkFlow.v ===== *)
(** * The bulk demux ([crates/osproxy-engine/src/bulk.rs])

    The operations of one [_bulk] body are prepared in order, buffered per target, gated
    and dispatched in sub-batches, and answered line by line in the order of the body. *)
From stdpp Require Import base option list strings numbers sets gmap.
From Stdlib Require Import Ascii ZArith Lia.
From S2P Require Import Prelude.
From S2P Require Import JsonScan.
From S2P Require Import JsonProps.
From S2P Require Import Trace.
From S2P Require Import CoreTypes.
From S2P Require Import Serde.
From S2P Require Import ToySerde.
From S2P Require Import DocId.
From S2P Require Import Bulk.
From S2P Require Import Spi.
From S2P Require Import Tenancy.
From S2P Require Import Sink.
From S2P Require Import Plan.
From S2P Require Import Prog.
From S2P Require Import Effects.
From S2P Require Import Retry.
From S2P Require Import AsyncWrite.
From S2P Require Import BulkPrep.

Open Scope osp_scope.

Definition FLUSH_THRESHOLD : nat := 256.
Definition BYTE_FLUSH_THRESHOLD : Z := 4194304.

(** A [HashMap] keyed by targets: its entries, in no particular order, with keys told apart
    by the [==] of [Target]. *)
Section TargetMap.
Context {V : Type}.
Definition target_map : Type := list (Target * V).
Fixpoint tm_get (m : target_map) (t : Target) : option V :=
  match m with
  | [] => None
  | (u, v) :: m => if target_eqb u t then Some v else tm_get m t
  end.
(** [entry(t).or_default()], updated in place. *)
Fixpoint tm_entry (m : target_map) (t : Target) (dflt : V) (f : V -> V) : target_map :=
  match m with
  | [] => [(t, f dflt)]
  | (u, v) :: m => if target_eqb u t then (u, f v) :: m else (u, v) :: tm_entry m t dflt f
  end.
Fixpoint tm_remove (m : target_map) (t : Target) : target_map :=
  match m with
  | [] => []
  | (u, v) :: m => if target_eqb u t then m else (u, v) :: tm_remove m t
  end.
End TargetMap.
#[global] Arguments target_map : clear implicits.

Notation Entries := (list (nat * Prepared)).
Definition op_body_len (op : WriteOp) : Z :=
  match w_doc op with
  | OpIndex _ _ b | OpCreate _ _ b | OpUpdate _ _ b => Z.of_nat (length b)
  | OpDelete _ _ => 0
  end.

(** The response lines; [None] once an index out of range has panicked. *)
Definition Lines : Type := option (list (option Line)).
Definition set_line (lines : Lines) (ordinal : nat) (l : Line) : Lines :=
  ls ← lines; if ordinal <? length ls then Some (<[ordinal := Some l]> ls) else None.

(** ** Lines for what happened to an operation *)
Definition error_line (p : Prepared) (status : Z) (error : str) : Line :=
  line_error (p_action p) (p_logical_index p) (Some (p_logical_id p)) status error.
Definition stale_epoch_line (p : Prepared) : Line := error_line p 409 (lit "stale_epoch").
Definition upstream_failure_line (p : Prepared) : Line := error_line p 502 (lit "upstream_failed").
Definition enqueue_failed_line (p : Prepared) : Line := error_line p 503 (lit "enqueue_failed").
Definition queued_line (p : Prepared) (op_id : str) : Line :=
  line_queued (p_action p) (p_logical_index p) (Some (p_logical_id p)) 202 op_id.
Definition error_type_for (status : Z) : str :=
  if (status =? 409)%Z then lit "conflict" else if (status =? 404)%Z then lit "not_found" else lit "rejected".
Definition success_line (p : Prepared) (r : OpResult) : Line :=
  if (400 <=? res_status r)%Z then error_line p (res_status r) (error_type_for (res_status r))
  else line_result (p_action p) (p_logical_index p) (Some (p_logical_id p)) (res_status r)
         (if res_created r then lit "created" else lit "updated").

Definition build_batch (entries : Entries) : WriteBatch :=
  foldl (fun b e => batch_with b (p_op e.2)) batch_new entries.
Fixpoint set_lines (lines : Lines) (ls : list (nat * Line)) : Lines :=
  match ls with [] => lines | (i, l) :: ls => set_lines (set_line lines i l) ls end.
Definition apply_results (entries : Entries) (result : Result WriteAck SinkError) (lines : Lines) : Lines :=
  match result with
  | Ok ack => set_lines lines (zip_with (fun e r => (e.1, success_line e.2 r)) entries (results ack))
  | Err _ => set_lines lines ((fun e => (e.1, upstream_failure_line e.2)) <$> entries)
  end.
Definition stale_lines (rejected : Entries) (lines : Lines) : Lines :=
  set_lines lines ((fun e => (e.1, stale_epoch_line e.2)) <$> rejected).

Section Demux.
Context {Sd : Serde} {W : Wide} {M : Memchr} {R : Router}.

Definition render (lines : Lines) : option (Result PipelineResponse RequestError) :=
  ls ← lines;
  let errors := existsb is_error (omap id ls) in
  Some (let? text := ok_or (bulk_body_text errors ls) (ReqInternal (lit "serializing bulk response")) in
        Ok (MkResponse 200 text None)).

Fixpoint gate_loop (entries admitted rejected : Entries) : prog (Entries * Entries) :=
  match entries with
  | [] => Ret (admitted, rejected)
  | (ordinal, p) :: entries =>
      await! ok := call (AdmitWrite (p_partition p) (w_epoch (p_op p))) in
      if ok then gate_loop entries (admitted ++ [(ordinal, p)]) rejected
      else gate_loop entries admitted (rejected ++ [(ordinal, p)])
  end.
Definition gate (entries : Entries) : prog (Entries * Entries) := gate_loop entries [] [].

Definition flush (entries : Entries) (lines : Lines) : prog Lines :=
  await! (admitted, rejected) := gate entries in
  let lines := stale_lines rejected lines in
  await! ack := call (SinkWrite (build_batch admitted)) in
  Ret (apply_results admitted ack lines).

(** The demux state the loop threads: buffers, their sizes in bytes, the lines. *)
Record Demux : Type := MkDemux { buffers : target_map Entries; sizes : target_map Z; lines : Lines }.

Definition buffer_and_flush (d : Demux) (ordinal : nat) (prepared : Prepared) : prog Demux :=
  let target := w_target (p_op prepared) in
  let op_bytes := op_body_len (p_op prepared) in
  let bufs := tm_entry (buffers d) target [] (fun buf => buf ++ [(ordinal, prepared)]) in
  let over_count := FLUSH_THRESHOLD <=? length (default [] (tm_get bufs target)) in
  let szs := tm_entry (sizes d) target 0%Z (fun size => (size + op_bytes)%Z) in
  if over_count || (BYTE_FLUSH_THRESHOLD <=? default 0%Z (tm_get szs target))%Z then
    let entries := default [] (tm_get bufs target) in
    await! ls := flush entries (lines d) in
    Ret (MkDemux (tm_remove bufs target) (tm_remove szs target) ls)
  else Ret (MkDemux bufs szs (lines d)).

(** One buffer of the final flush, without the lines. *)
Definition flush_task (entries : Entries) : prog (Entries * Entries * Result WriteAck SinkError) :=
  await! (admitted, rejected) := gate entries in
  await! ack := call (SinkWrite (build_batch admitted)) in
  Ret (admitted, rejected, ack).
Definition apply_flushed (lines : Lines) (f : Entries * Entries * Result WriteAck SinkError) : Lines :=
  let '(admitted, rejected, ack) := f in apply_results admitted ack (stale_lines rejected lines).
Definition flush_remaining (d : Demux) : prog Lines :=
  let pending := List.filter (fun v => match v with [] => false | _ => true end) (snd <$> buffers d) in
  Par pending flush_task (fun results => Ret (foldl apply_flushed (lines d) results)).

Section Ingest.
Context (ctx : RequestCtx) (retry : RetryPolicy) (up_trace : option TraceContext).

(** One turn of the loop over the items. *)
Definition ingest_item (ordinal : nat) (item : BulkItem) (d : Demux) (cache : ResolutionCache)
    : prog (Demux * ResolutionCache) :=
  await! (r, cache) := prepare ctx cache item retry up_trace in
  match r with
  | Ok p => await! d := buffer_and_flush d ordinal p in Ret (d, cache)
  | Err f => Ret (MkDemux (buffers d) (sizes d) (set_line (lines d) ordinal (into_line f)), cache)
  end.
Fixpoint ingest_loop (ordinal : nat) (items : list BulkItem) (d : Demux) (cache : ResolutionCache) : prog Demux :=
  match items with
  | [] => Ret d
  | item :: items =>
      await! (d, cache) := ingest_item ordinal item d cache in
      ingest_loop (S ordinal) items d cache
  end.
(** The rest of the handler, once the body is parsed.  [None]: the handler panicked. *)
Definition ingest_items (items : list BulkItem) : prog (option (Result PipelineResponse RequestError)) :=
  await! d := ingest_loop 0 items (MkDemux [] [] (Some (replicate (length items) None))) ∅ in
  await! ls := flush_remaining d in
  Ret (render ls).
Definition ingest_bulk : prog (option (Result PipelineResponse RequestError)) :=
  match parse_bulk (ctx_body ctx) with
  | Err e => Ret (Some (Err (ReqRewrite e)))
  | Ok items => ingest_items items
  end.
End Ingest.
End Demux.
