(* ===== verification/BulkLedger.v ===== *)
(** * Accounting for every item of a bulk

    What the demux of [BulkFlow] does with each item of the body, whatever the router and
    the sink answer and in whatever order concurrent sub-batches complete. *)
From stdpp Require Import base option list strings numbers sets gmap.
From Stdlib Require Import Ascii ZArith Lia.
From S2P Require Import Prelude.
From S2P Require Import JsonScan.
From S2P Require Import JsonProps.
From S2P Require Import Trace.
From S2P Require Import CoreTypes.
From S2P Require Import Serde.
From S2P Require Import ToySerde.
From S2P Require Import DocId.
From S2P Require Import Bulk.
From S2P Require Import Spi.
From S2P Require Import Tenancy.
From S2P Require Import Sink.
From S2P Require Import Plan.
From S2P Require Import Prog.
From S2P Require Import Effects.
From S2P Require Import Retry.
From S2P Require Import AsyncWrite.
From S2P Require Import BulkPrep.
From S2P Require Import BulkFlow.

Open Scope osp_scope.

(** ** Maps keyed by targets *)
Section TargetMaps.
Context {V : Type}.
Implicit Types m : target_map V.

Lemma tm_get_entry m t d f : tm_get (tm_entry m t d f) t = Some (f (default d (tm_get m t))).
Proof.
  induction m as [|[u v] m IH]; cbn.
  - by rewrite (proj2 (target_eqb_equiv t t)).
  - destruct (target_eqb u t) eqn:Hu; cbn; by rewrite Hu.
Qed.
Lemma tm_entry_Forall (P : Target * V -> Prop) m t d f :
  (forall u v, u ≡ t -> P (t, v) -> P (u, v)) ->
  Forall P m -> P (t, f (default d (tm_get m t))) -> Forall P (tm_entry m t d f).
Proof.
  intros Hp. induction 1 as [|[u v] m Hv Hm IH]; cbn; [by constructor|].
  destruct (target_eqb u t) eqn:Hu; cbn.
  - intros H. constructor; [|done]. apply Hp; [by apply target_eqb_equiv|done].
  - intros H. constructor; auto.
Qed.
Lemma tm_remove_entry_Forall (P : Target * V -> Prop) m t d f : Forall P m -> Forall P (tm_remove (tm_entry m t d f) t).
Proof.
  induction 1 as [|[u v] m Hv Hm IH]; cbn; [by rewrite (proj2 (target_eqb_equiv t t))|].
  destruct (target_eqb u t) eqn:Hu; cbn; rewrite Hu; [done|]. by constructor.
Qed.
Lemma tm_get_Forall (P : Target * V -> Prop) m t v :
  (forall u v, u ≡ t -> P (u, v) -> P (t, v)) -> Forall P m -> tm_get m t = Some v -> P (t, v).
Proof.
  intros Hp. induction 1 as [|[u w] m Hw Hm IH]; cbn; [done|].
  destruct (target_eqb u t) eqn:Hu; [|done]. intros [= ->]. apply (Hp u); [by apply target_eqb_equiv|done].
Qed.
End TargetMaps.

(** The entries of all the buffers. *)
Definition buffered (m : target_map Entries) : Entries := mjoin m.*2.
Lemma buffered_push m t e : buffered (tm_entry m t [] (fun buf => buf ++ [e])) ≡ₚ e :: buffered m.
Proof.
  unfold buffered. induction m as [|[u v] m IH]; cbn; [done|].
  destruct (target_eqb u t); cbn.
  - rewrite <- app_assoc. cbn. by rewrite <- Permutation_middle.
  - rewrite IH. by rewrite <- Permutation_middle.
Qed.
Lemma buffered_remove m t : default [] (tm_get m t) ++ buffered (tm_remove m t) ≡ₚ buffered m.
Proof.
  unfold buffered. induction m as [|[u v] m IH]; cbn; [done|].
  destruct (target_eqb u t); cbn; [done|]. rewrite (Permutation_app_comm v), app_assoc, IH.
  by rewrite Permutation_app_comm.
Qed.

(** ** Lines *)
Definition keys_below (n : nat) (ks : list nat) : Prop := Forall (fun k => k < n) ks.
Lemma set_lines_spec L ls :
  NoDup L.*1 -> keys_below (length ls) L.*1 ->
  exists ls', set_lines (Some ls) L = Some ls' /\ length ls' = length ls
  /\ (forall i, i ∉ L.*1 -> ls' !! i = ls !! i)
  /\ (forall i l, (i, l) ∈ L -> ls' !! i = Some (Some l)).
Proof.
  revert ls. induction L as [|[i l] L IH]; intros ls Hnd Hk.
  - exists ls. split_and!; try done. by intros i l ?%not_elem_of_nil.
  - cbn [set_lines]. inversion Hnd as [|? ? Hi Hnd']; subst. apply Forall_cons_iff in Hk as [Hi' Hk].
    unfold set_line. cbn [mbind option_bind]. rewrite (proj2 (Nat.ltb_lt i (length ls)) Hi').
    destruct (IH (<[i:=Some l]> ls)) as (ls' & H1 & H2 & H3 & H4); [done|by rewrite length_insert|].
    rewrite length_insert in H2. exists ls'. split_and!; [done|done| |].
    + intros j [Hj Hj']%not_elem_of_cons. rewrite H3 by done. by apply list_lookup_insert_ne.
    + intros j m [[= -> ->]|Hm]%elem_of_cons; [|by apply H4]. rewrite H3 by done. by apply list_lookup_insert_eq.
Qed.

(** The line of the [j]-th operation of a sub-batch, given the sink's answer. *)
Definition dispatch_line (p : Prepared) (r : Result WriteAck SinkError) (j : nat) : option Line :=
  match r with
  | Ok ack => success_line p <$> results ack !! j
  | Err _ => Some (upstream_failure_line p)
  end.

Lemma apply_results_spec A r ls :
  NoDup A.*1 -> keys_below (length ls) A.*1 -> (forall i, i ∈ A.*1 -> ls !! i = Some None) ->
  exists ls', apply_results A r (Some ls) = Some ls' /\ length ls' = length ls
  /\ (forall i, i ∉ A.*1 -> ls' !! i = ls !! i)
  /\ (forall j i p, A !! j = Some (i, p) -> ls' !! i = Some (dispatch_line p r j)).
Proof.
  intros Hnd Hk Hnone. destruct r as [ack|e]; cbn [apply_results dispatch_line].
  - set (L := zip_with _ A (results ack)).
    assert (HL : L.*1 `prefix_of` A.*1).
    { clear. subst L. revert A. generalize (results ack) as rs.
      induction rs as [|r rs IH]; intros [|e A]; cbn; try apply prefix_nil. by apply prefix_cons. }
    destruct HL as [rest HL].
    destruct (set_lines_spec L ls) as (ls' & H1 & H2 & H3 & H4).
    { rewrite HL in Hnd. by apply NoDup_app in Hnd as [? _]. }
    { unfold keys_below in *. rewrite HL in Hk. by apply Forall_app in Hk as [? _]. }
    exists ls'. split_and!; [done|done| |].
    + intros i Hi. apply H3. rewrite HL in Hi. set_solver.
    + intros j i p Hj. destruct (results ack !! j) as [r|] eqn:Hr; cbn.
      * apply H4. apply list_elem_of_lookup. exists j. subst L. by rewrite lookup_zip_with, Hj, Hr.
      * rewrite H3; [apply Hnone, list_elem_of_fmap; exists (i, p); split; [done|by eapply list_elem_of_lookup_2]|].
        intros (x & Hx)%list_elem_of_lookup. pose proof (NoDup_lookup A.*1) as Hnd'.
        assert (Hj' : A.*1 !! j = Some i) by (by rewrite list_lookup_fmap, Hj).
        assert (Hx' : A.*1 !! x = Some i) by (rewrite HL; by apply lookup_app_l_Some).
        assert (x = j) as -> by (by eapply Hnd').
        subst L. rewrite list_lookup_fmap, lookup_zip_with, Hj, Hr in Hx. done.
  - destruct (set_lines_spec ((fun e => (e.1, upstream_failure_line e.2)) <$> A) ls) as (ls' & H1 & H2 & H3 & H4).
    { by rewrite <- list_fmap_compose. }
    { by rewrite <- list_fmap_compose. }
    exists ls'. split_and!; [done|done| |].
    + intros i Hi. apply H3. by rewrite <- list_fmap_compose.
    + intros j i p Hj. apply H4, list_elem_of_fmap. exists (i, p). split; [done|by eapply list_elem_of_lookup_2].
Qed.

Lemma apply_flushed_spec A B r ls :
  NoDup (A.*1 ++ B.*1) -> keys_below (length ls) (A.*1 ++ B.*1) ->
  (forall i, i ∈ A.*1 ++ B.*1 -> ls !! i = Some None) ->
  exists ls', apply_flushed (Some ls) (A, B, r) = Some ls' /\ length ls' = length ls
  /\ (forall i, i ∉ A.*1 ++ B.*1 -> ls' !! i = ls !! i)
  /\ (forall j i p, A !! j = Some (i, p) -> ls' !! i = Some (dispatch_line p r j))
  /\ (forall i p, (i, p) ∈ B -> ls' !! i = Some (Some (stale_epoch_line p))).
Proof.
  intros (HA & Hd & HB)%NoDup_app [HkA HkB]%Forall_app Hnone. cbn [apply_flushed stale_lines]. unfold stale_lines.
  destruct (set_lines_spec ((fun e => (e.1, stale_epoch_line e.2)) <$> B) ls) as (l1 & H1 & H2 & H3 & H4).
  { by rewrite <- list_fmap_compose. }
  { by rewrite <- list_fmap_compose. }
  rewrite <- list_fmap_compose in H3. change (fst ∘ _) with (fst (A:=nat) (B:=Prepared)) in H3.
  rewrite H1. destruct (apply_results_spec A r l1) as (l2 & H5 & H6 & H7 & H8); [done|by rewrite H2| |].
  { intros i Hi. rewrite H3 by (by apply Hd). apply Hnone. set_solver. }
  exists l2. split_and!; [done|congruence| |done|].
  - intros i Hi. rewrite H7, H3; [done|set_solver..].
  - intros i p Hi. rewrite H7; [apply H4, list_elem_of_fmap; by exists (i, p)|].
    intros Hin. apply (Hd i Hin), list_elem_of_fmap. by exists (i, p).
Qed.

(** ** Preparing and dispatching *)
Definition op_list (es : Entries) : list WriteOp := (fun e => p_op e.2) <$> es.
Lemma build_batch_ops es : ops (build_batch es) = op_list es.
Proof.
  unfold build_batch. assert (H : forall b, ops (foldl (fun b e => batch_with b (p_op e.2)) b es) = ops b ++ op_list es).
  { induction es as [|e es IH]; intros b; cbn; [by rewrite app_nil_r|]. rewrite IH. cbn. by rewrite <- app_assoc. }
  by rewrite H.
Qed.

(** What the write gate was asked, and answered. *)
Definition asked_of `{Sd : Serde} (e : event) : option (PartitionId * Epoch * bool) :=
  match e with
  | Ev c x => match c in Call B return B -> option (PartitionId * Epoch * bool) with
              | AdmitWrite partition ep => fun ok => Some (partition, ep, ok)
              | _ => fun _ => None
              end x
  end.
Definition asked `{Sd : Serde} (tr : list event) : list (PartitionId * Epoch * bool) := omap asked_of tr.
(** The gate asked about an operation's partition and epoch, with this answer. *)
Definition verdict (ok : bool) (e : nat * Prepared) : PartitionId * Epoch * bool := (p_partition e.2, w_epoch (p_op e.2), ok).
Definition verdicts (A B : Entries) : list (PartitionId * Epoch * bool) := (verdict true <$> A) ++ (verdict false <$> B).
Lemma asked_app `{Sd : Serde} t1 t2 : asked (t1 ++ t2) = asked t1 ++ asked t2.
Proof. apply omap_app. Qed.
Lemma asked_perm `{Sd : Serde} t1 t2 : t1 ≡ₚ t2 -> asked t1 ≡ₚ asked t2.
Proof. intros H. unfold asked. by rewrite H. Qed.
(** A part of a run that only asks the router: nothing is written and the gate is not asked. *)
Definition quiet `{Sd : Serde} (tr : list event) : Prop := written tr = [] /\ asked tr = [].
Lemma asking_quiet `{Sd : Serde} tr : Forall asking tr -> quiet tr.
Proof.
  intros H. split; [by apply asking_writes_none|]. induction H as [|[B []] tr He _ IH]; try done; exact IH.
Qed.
Lemma verdicts_flush A B A' B' : verdicts A' B' ++ verdicts A B ≡ₚ verdicts (A' ++ A) (B' ++ B).
Proof. unfold verdicts. rewrite !fmap_app. solve_Permutation. Qed.

Section Ledger.
Context {Sd : Serde} {W : Wide} {M : Memchr} {R : Router}.
Context (ctx : RequestCtx) (retry : RetryPolicy) (up_trace : option TraceContext) (items : list BulkItem).

Definition item_index (item : BulkItem) : str := default (logical_index ctx) (bi_index item).
(** [p] is item [item] as [build_op] makes it from an answer of the router for the item's
    own partition and index. *)
Definition PrepOf (past : list event) (item : BulkItem) (p : Prepared) : Prop :=
  exists partition resolved q,
    router_resolve_partition ctx (default [] (bi_source item)) = Ok partition
    /\ Ev (ResolvePlacement ctx partition (item_index item)) (Ok resolved) ∈ past
    /\ build_op resolved (inject_pairs (body_transform (r_decision resolved)) (r_partition resolved)) item
         (keyword (bi_action item)) (item_index item) = Ok q
    /\ p = MkPrepared (write_with_forward_headers (write_with_trace (p_op q) up_trace) (forward_headers ctx))
             (p_partition q) (p_action q) (p_logical_index q) (p_logical_id q).
(** [f] is the failure of an item: the router could not name its partition (400), or had
    no placement for that partition and the item's index (404), or the operation could not
    be built from the placement it gave, and [f] is what [build_op] says. *)
Definition FailOf (past : list event) (item : BulkItem) (f : ItemFailure) : Prop :=
  let failed := fail (keyword (bi_action item)) (item_index item) (bi_id item) in
  match router_resolve_partition ctx (default [] (bi_source item)) with
  | Err _ => f = failed 400%Z (lit "partition_unresolved")
  | Ok partition =>
      (exists e, Ev (ResolvePlacement ctx partition (item_index item)) (Err e) ∈ past /\ f = failed 404%Z (lit "placement_missing"))
      \/ exists resolved, Ev (ResolvePlacement ctx partition (item_index item)) (Ok resolved) ∈ past
           /\ build_op resolved (inject_pairs (body_transform (r_decision resolved)) (r_partition resolved)) item
                (keyword (bi_action item)) (item_index item) = Err f
  end.
Definition CacheOk (past : list event) (cache : ResolutionCache) : Prop :=
  forall key entry, cache !! key = Some entry ->
    Ev (ResolvePlacement ctx key.1 key.2) (Ok (cached_resolved entry)) ∈ past
    /\ cached_inject entry
       = inject_pairs (body_transform (r_decision (cached_resolved entry))) (r_partition (cached_resolved entry)).

(** What a sub-batch is made of when it goes out: at most [FLUSH_THRESHOLD] operations,
    all for one target, each an item of this body whose partition and epoch the write gate
    has let through. *)
Definition dispatchable (past : list event) (op : WriteOp) : Prop :=
  exists item p, item ∈ items /\ PrepOf past item p /\ op = p_op p
  /\ Ev (AdmitWrite (p_partition p) (w_epoch op)) true ∈ past.
Definition gated (past : list event) (e : event) : Prop :=
  match e with
  | Ev (SinkWrite b) _ =>
      length (ops b) <= FLUSH_THRESHOLD /\ (exists t, Forall (fun op => w_target op ≡ t) (ops b))
      /\ Forall (dispatchable past) (ops b)
  | Ev (AdmitWrite _ _) _ => True
  | e => asking e
  end.

Lemma PrepOf_mono past past' item p : past ⊆ past' -> PrepOf past item p -> PrepOf past' item p.
Proof. intros Hp (pt & r & q & H1 & H2 & H3). exists pt, r, q. auto. Qed.
Lemma FailOf_mono past past' item f : past ⊆ past' -> FailOf past item f -> FailOf past' item f.
Proof.
  intros Hp. unfold FailOf. destruct (router_resolve_partition _ _) as [pt|]; [|done].
  intros [(e & H1 & H2)|(r & H1 & H2)]; [left; exists e|right; exists r]; auto.
Qed.
Lemma CacheOk_mono past past' cache : past ⊆ past' -> CacheOk past cache -> CacheOk past' cache.
Proof. intros Hp Hc key entry Hk. destruct (Hc _ _ Hk) as [H1 H2]. split; [by apply Hp|done]. Qed.
Lemma asking_gated past e : asking e -> gated past e.
Proof. by destruct e as [B []]. Qed.
Lemma gated_mono past past' e : past ⊆ past' -> gated past e -> gated past' e.
Proof.
  intros Hp. destruct e as [B []]; try done. intros (H1 & H2 & H3). split; [done|]. split; [done|].
  eapply Forall_impl; [exact H3|]. intros op (item & p & Hi & Hpo & Ho & Ha). exists item, p.
  split; [done|]. split; [by eapply PrepOf_mono|]. auto.
Qed.

(** Preparing an item only asks. *)
Lemma prepare_safe (before : list event -> event -> Prop) past cache item :
  (forall past past' e, past ⊆ past' -> before past e -> before past' e) ->
  (forall past e, asking e -> before past e) ->
  CacheOk past cache ->
  safe before past (prepare ctx cache item retry up_trace) (fun tr out =>
    CacheOk (tr ++ past) out.2 /\ Forall asking tr
    /\ match out.1 with Ok p => PrepOf (tr ++ past) item p | Err f => FailOf (tr ++ past) item f end).
Proof.
  intros Hmono Hask Hc. unfold prepare, FailOf. fold (item_index item).
  destruct (router_resolve_partition _ _) as [partition|e] eqn:Hp; [|by apply safe_ret].
  set (missing := fun (tr : trace) f => exists e, Ev (ResolvePlacement ctx partition (item_index item)) (Err e) ∈ tr
    /\ f = fail (keyword (bi_action item)) (item_index item) (bi_id item) 404 (lit "placement_missing")).
  set (key := (partition, item_index item)).
  apply (safe_bind _ Hmono _ _ _ (fun tr out => Forall asking tr /\
    match out with
    | Ok cache' => CacheOk (tr ++ past) cache' /\ is_Some (cache' !! key)
    | Err f => missing tr f
    end)).
  - destruct (cache !! key) as [entry|] eqn:Hk; [apply safe_ret; split; [done|]; split; [done|by rewrite Hk]|].
    apply (safe_bind _ Hmono _ _ _ (fun tr out => Forall asking tr /\
      match out with
      | Ok resolved => Ev (ResolvePlacement ctx partition (item_index item)) (Ok resolved) ∈ tr
      | Err f => missing tr f
      end)).
    + unfold lift_err. eapply (safe_bind _ Hmono); [by apply retry_safe|].
      intros tr r [Hr Hw]. apply safe_ret. rewrite app_nil_r. split; [done|]. destruct r as [d|e]; [done|]. by exists e.
    + intros tr [resolved|f] [Hw Hr]; apply safe_ret; rewrite app_nil_r; [|done].
      split; [done|]. split; [|eexists; apply (lookup_insert_eq (M := gmap (str * str)))].
      intros k entry [[<- <-]|[_ Hk']]%(lookup_insert_Some (M := gmap (str * str))).
      * split; [|done]. apply elem_of_app. by left.
      * destruct (Hc _ _ Hk') as [H1 H2]. split; [|done]. apply elem_of_app. by right.
  - intros tr [cache'|f] [Hw Hcase]; cycle 1.
    { apply safe_ret. rewrite app_nil_r. split; [apply (CacheOk_mono past); [set_solver|done]|]. split; [done|].
      destruct Hcase as (e & He & ->). left. exists e. split; [set_solver|done]. }
    destruct Hcase as [Hc' [entry Hk]]. rewrite Hk. apply safe_ret. rewrite app_nil_r. cbn [fst snd].
    split; [done|]. split; [done|]. destruct (Hc' _ _ Hk) as [H1 H2]. rewrite H2.
    destruct (build_op _ _ _ _ _) as [q|f] eqn:Hb; cbn [rbind]; [|by right; exists (cached_resolved entry)].
    by exists partition, (cached_resolved entry), q.
Qed.

(** ** Gating and dispatching a sub-batch *)
Definition let_through (tr : list event) (e : nat * Prepared) : Prop :=
  Ev (AdmitWrite (p_partition e.2) (w_epoch (p_op e.2))) true ∈ tr.
Lemma past_shift (x e : event) (tr past : list event) : x ∈ tr ++ e :: past -> x ∈ (e :: tr) ++ past.
Proof. rewrite !elem_of_app, !elem_of_cons. tauto. Qed.
Lemma gate_safe past entries :
  safe gated past (gate entries) (fun tr '(A, B) =>
    A ++ B ≡ₚ entries /\ (written tr = [] /\ asked tr ≡ₚ verdicts A B) /\ Forall (let_through tr) A).
Proof.
  unfold gate. assert (H : forall A B past', Forall (let_through past') A ->
    safe gated past' (gate_loop entries A B) (fun tr '(A', B') =>
      A' ++ B' ≡ₚ A ++ B ++ entries /\ (written tr = [] /\ verdicts A B ++ asked tr ≡ₚ verdicts A' B')
      /\ Forall (let_through (tr ++ past')) A')).
  { induction entries as [|[i p] entries IH]; intros A B past' HA; cbn [gate_loop].
    { apply safe_ret. rewrite app_nil_r. split; [done|]. split; [|done]. split; [done|]. cbn. by rewrite app_nil_r. }
    apply safe_do. intros ok. split; [done|]. cbn [bind].
    assert (Hn : forall e, let_through past' e -> let_through (Ev (AdmitWrite (p_partition p) (w_epoch (p_op p))) ok :: past') e)
      by (intros e He; by right).
    destruct ok.
    - eapply (safe_mono _ gated_mono _ _ _ _ _ (fun x Hx => Hx)); [|apply (IH (A ++ [(i, p)]) B)].
      + intros tr [A' B'] (H1 & [H2 H4] & H3). split; [|split; [split; [done|]|]].
        * rewrite H1, <- app_assoc. apply Permutation_app_head. cbn. by rewrite Permutation_middle.
        * rewrite <- H4. unfold verdicts. rewrite fmap_app. cbn. solve_Permutation.
        * eapply Forall_impl; [exact H3|]. intros e He. apply (past_shift _ _ _ _ He).
      + apply Forall_app. split; [by eapply Forall_impl|]. repeat constructor.
    - eapply (safe_mono _ gated_mono _ _ _ _ _ (fun x Hx => Hx)); [|apply (IH A (B ++ [(i, p)]))].
      + intros tr [A' B'] (H1 & [H2 H4] & H3). split; [|split; [split; [done|]|]].
        * by rewrite H1, <- app_assoc.
        * rewrite <- H4. unfold verdicts. rewrite fmap_app. cbn. solve_Permutation.
        * eapply Forall_impl; [exact H3|]. intros e He. apply (past_shift _ _ _ _ He).
      + by eapply Forall_impl. }
  intros tr [A B] He. destruct (H [] [] [] (Forall_nil_2 _) tr (A, B) He) as (_ & H1 & H2 & H3).
  destruct (H [] [] past ltac:(constructor) tr (A, B) He) as (Hg & _). split; [done|].
  rewrite app_nil_r in H3. done.
Qed.

(** An entry holds its item, prepared. *)
Definition Ent (past : list event) (e : nat * Prepared) : Prop :=
  exists item, items !! e.1 = Some item /\ PrepOf past item e.2.
Definition one_target (entries : Entries) : Prop := exists t, Forall (fun e => w_target (p_op e.2) ≡ t) entries.

Lemma flush_task_safe past entries :
  Forall (Ent past) entries -> length entries <= FLUSH_THRESHOLD -> one_target entries ->
  safe gated past (flush_task entries) (fun tr '(A, B, r) =>
    A ++ B ≡ₚ entries /\ (written tr = op_list A /\ asked tr ≡ₚ verdicts A B) /\ Ev (SinkWrite (build_batch A)) r ∈ tr).
Proof.
  intros He Hl [t Ht]. unfold flush_task. eapply (safe_bind _ gated_mono); [apply gate_safe|].
  intros tr [A B] (Hp & [Hw Hv] & Ha). eapply (safe_bind _ gated_mono).
  - apply (safe_call _ _ _ (fun tr' r => tr' = [Ev (SinkWrite (build_batch A)) r])). intros r. split; [|done].
    cbn [gated]. rewrite build_batch_ops. unfold op_list. rewrite length_fmap, <- Hp in *.
    apply Forall_app in He as [HeA _]. apply Forall_app in Ht as [HtA _].
    split; [rewrite length_app in Hl; lia|]. split; [exists t; by apply Forall_fmap|].
    apply Forall_fmap. rewrite Forall_forall in HeA, Ha |- *. intros e Hin. cbn.
    destruct (HeA e Hin) as (item & Hi & Hpo). exists item, e.2.
    split; [by eapply list_elem_of_lookup_2|]. split; [eapply PrepOf_mono; [|exact Hpo]; set_solver|].
    split; [done|]. apply elem_of_app. left. by apply Ha.
  - intros tr' r ->. apply safe_ret. rewrite app_nil_r, written_app, Hw. cbn [written writes_of fmap list_fmap mjoin list_join].
    split; [done|]. split; [|set_solver]. split; [cbn; by rewrite app_nil_r, build_batch_ops|].
    rewrite asked_app, Hv. cbn. by rewrite app_nil_r.
Qed.

(** ** The ledger *)
Definition Answered (past : list event) (ls : list (option Line)) (i : nat) (p : Prepared) : Prop :=
  exists b r j, Ev (SinkWrite b) r ∈ past /\ ops b !! j = Some (p_op p) /\ ls !! i = Some (dispatch_line p r j).

(** Of the first [k] items of [N], [A] have been dispatched, [B] held by the gate, [F]
    failed to prepare, and [P] wait in the buffers. *)
Record Ledger (past : list event) (N k : nat) (ls : list (option Line)) (A B : Entries)
    (F : list (nat * ItemFailure)) (P : Entries) : Prop := {
  lg_length : length ls = N;
  lg_items : A.*1 ++ B.*1 ++ F.*1 ++ P.*1 ≡ₚ seq 0 k;
  lg_k : k <= N;
  lg_entries : Forall (Ent past) (A ++ B ++ P);
  lg_failed : Forall (fun e => exists item, items !! e.1 = Some item /\ FailOf past item e.2) F;
  lg_written : written past ≡ₚ op_list A /\ asked past ≡ₚ verdicts A B;
  lg_empty : forall i, i < N -> i ∉ A.*1 ++ B.*1 ++ F.*1 -> ls !! i = Some None;
  lg_stale : forall i p, (i, p) ∈ B -> ls !! i = Some (Some (stale_epoch_line p));
  lg_refused : forall i f, (i, f) ∈ F -> ls !! i = Some (Some (into_line f));
  lg_answered : forall i p, (i, p) ∈ A -> Answered past ls i p
}.

Lemma Ent_mono past past' e : past ⊆ past' -> Ent past e -> Ent past' e.
Proof. intros Hp (item & H1 & H2). exists item. split; [done|]. by eapply PrepOf_mono. Qed.
Definition Failed (past : list event) (e : nat * ItemFailure) : Prop := exists item, items !! e.1 = Some item /\ FailOf past item e.2.
Lemma Failed_mono past past' F : past ⊆ past' -> Forall (Failed past) F -> Forall (Failed past') F.
Proof. intros Hp H. eapply Forall_impl; [exact H|]. intros e (item & H1 & H2). exists item. split; [done|]. by eapply FailOf_mono. Qed.
Lemma ledger_quiet past tr N k ls A B F P :
  quiet tr -> Ledger past N k ls A B F P -> Ledger (tr ++ past) N k ls A B F P.
Proof.
  intros [Hw Hq] [H1 H2 H3 H4 H5 H6 H7 H8 H9 H10]. assert (Hsub : past ⊆ tr ++ past) by set_solver.
  split; try done.
  - eapply Forall_impl; [exact H4|]. intros e. by apply Ent_mono.
  - by eapply Failed_mono.
  - by rewrite written_app, asked_app, Hw, Hq.
  - intros i p Hi. destruct (H10 i p Hi) as (b & r & j & Hb & Hj). exists b, r, j. split; [by apply Hsub|done].
Qed.
Lemma ledger_perm past N k ls A B F P P' :
  P ≡ₚ P' -> Ledger past N k ls A B F P -> Ledger past N k ls A B F P'.
Proof.
  intros Hp [H1 H2 H3 H4 H5 H6 H7 H8 H9 H10]. split; try done.
  - by rewrite <- Hp.
  - by rewrite <- Hp.
Qed.
Lemma ledger_push past N k ls A B F P p :
  k < N -> Ent past (k, p) -> Ledger past N k ls A B F P -> Ledger past N (S k) ls A B F ((k, p) :: P).
Proof.
  intros Hk He [H1 H2 H3 H4 H5 H6 H7 H8 H9 H10]. split; try done.
  - rewrite seq_S, <- H2. cbn [fmap list_fmap fst Nat.add]. solve_Permutation.
  - rewrite !Forall_app, Forall_cons_iff in *. tauto.
Qed.

Lemma ledger_trace past past' N k ls A B F P :
  past ≡ₚ past' -> Ledger past N k ls A B F P -> Ledger past' N k ls A B F P.
Proof.
  intros Hp [H1 H2 H3 H4 H5 H6 H7 H8 H9 H10]. assert (Hsub : past ⊆ past') by (intros e; by rewrite Hp).
  split; try done.
  - eapply Forall_impl; [exact H4|]. intros e. by apply Ent_mono.
  - by eapply Failed_mono.
  - destruct H6 as [H6 H6']. split; [rewrite <- H6; by apply written_perm|rewrite <- H6'; by apply asked_perm].
  - intros i p Hi. destruct (H10 i p Hi) as (b & r & j & Hb & Hj). exists b, r, j. split; [by apply Hsub|done].
Qed.
Lemma in_keys {V} (i : nat) (v : V) l : (i, v) ∈ l -> i ∈ l.*1.
Proof. intros H. apply list_elem_of_fmap. by exists (i, v). Qed.

(** A failed item has its line at once. *)
Lemma ledger_fail past N k ls A B F P f :
  k < N -> Failed past (k, f) -> Ledger past N k ls A B F P ->
  exists ls', set_line (Some ls) k (into_line f) = Some ls' /\ Ledger past N (S k) ls' A B ((k, f) :: F) P.
Proof.
  intros Hk Hf [H1 H2 H3 H4 H5 H6 H7 H8 H9 H10].
  assert (Hfresh : k ∉ A.*1 ++ B.*1 ++ F.*1 ++ P.*1) by (rewrite H2, elem_of_seq; lia).
  unfold set_line; cbn [mbind option_bind]. rewrite H1, (proj2 (Nat.ltb_lt k N) Hk). eexists. split; [done|].
  assert (Hother : forall i, i ∈ A.*1 ++ B.*1 ++ F.*1 -> <[k:=Some (into_line f)]> ls !! i = ls !! i).
  { intros i Hi. apply list_lookup_insert_ne. intros ->. apply Hfresh. set_solver. }
  split; try done.
  - by rewrite length_insert.
  - rewrite seq_S, <- H2. cbn [fmap list_fmap fst Nat.add]. solve_Permutation.
  - by constructor.
  - intros i Hi Hn. rewrite list_lookup_insert_ne; [apply H7; [done|set_solver]|]. intros ->. set_solver.
  - intros i p Hi. rewrite Hother; [by apply H8|]. apply in_keys in Hi. set_solver.
  - intros i g [[= -> ->]|Hi]%elem_of_cons; [apply list_lookup_insert_eq; lia|].
    rewrite Hother; [by apply H9|]. apply in_keys in Hi. set_solver.
  - intros i p Hi. destruct (H10 i p Hi) as (b & r & j & Hb & Hj & Hl). exists b, r, j. split; [done|]. split; [done|].
    rewrite Hother; [done|]. apply in_keys in Hi. set_solver.
Qed.

(** A sub-batch leaves the buffers: its operations are dispatched or held. *)
Lemma ledger_flush past tr N k ls A B F P A' B' P' r :
  A' ++ B' ++ P' ≡ₚ P -> written tr = op_list A' /\ asked tr ≡ₚ verdicts A' B' -> Ev (SinkWrite (build_batch A')) r ∈ tr ->
  Ledger past N k ls A B F P ->
  exists ls', apply_flushed (Some ls) (A', B', r) = Some ls' /\ Ledger (tr ++ past) N k ls' (A' ++ A) (B' ++ B) F P'.
Proof.
  intros Hp [Hw Hv] Hr [H1 H2 H3 H4 H5 [H6 H6'] H7 H8 H9 H10].
  assert (HP : P.*1 ≡ₚ A'.*1 ++ B'.*1 ++ P'.*1) by (by rewrite <- Hp, !fmap_app).
  assert (Hperm : (A' ++ A).*1 ++ (B' ++ B).*1 ++ F.*1 ++ P'.*1 ≡ₚ seq 0 k).
  { rewrite <- H2, HP, !fmap_app, <- !app_assoc. solve_Permutation. }
  assert (Hnd : NoDup (A.*1 ++ B.*1 ++ F.*1 ++ A'.*1 ++ B'.*1 ++ P'.*1)) by (rewrite <- HP, H2; apply NoDup_seq).
  assert (Hin : forall i, i ∈ A'.*1 ++ B'.*1 -> i < k /\ i ∉ A.*1 ++ B.*1 ++ F.*1).
  { intros i Hi. split.
    - assert (i ∈ seq 0 k) as Hs by (rewrite <- H2, HP, !elem_of_app in *; tauto). apply elem_of_seq in Hs. lia.
    - assert (Hnd' : NoDup ((A.*1 ++ B.*1 ++ F.*1) ++ (A'.*1 ++ B'.*1) ++ P'.*1)) by (by rewrite <- !app_assoc).
      apply NoDup_app in Hnd' as (_ & Hd & _). intros Hc. apply (Hd i Hc), elem_of_app. by left. }
  destruct (apply_flushed_spec A' B' r ls) as (ls' & E1 & E2 & E3 & E4 & E5).
  { apply (NoDup_app (A.*1 ++ B.*1 ++ F.*1)). rewrite <- !app_assoc.
    apply (NoDup_app _ P'.*1). by rewrite <- !app_assoc. }
  { apply Forall_forall. intros i Hi. destruct (Hin i Hi). lia. }
  { intros i Hi. destruct (Hin i Hi). apply H7; [lia|done]. }
  assert (Hold : forall i, i ∈ A.*1 ++ B.*1 ++ F.*1 -> ls' !! i = ls !! i).
  { intros i Hi. apply E3. intros Hi'. by apply (Hin i Hi'). }
  exists ls'. split; [done|]. split; try done.
  - congruence.
  - rewrite <- Hp in H4. rewrite !Forall_app in *.
    assert (Hm : forall l, Forall (Ent past) l -> Forall (Ent (tr ++ past)) l).
    { intros l Hl. eapply Forall_impl; [exact Hl|]. intros e. apply Ent_mono. set_solver. }
    naive_solver.
  - eapply Failed_mono; [|exact H5]. set_solver.
  - rewrite written_app, asked_app, Hw, H6, Hv, H6'. split; [unfold op_list; by rewrite fmap_app|apply verdicts_flush].
  - intros i Hi Hn. rewrite !fmap_app, !elem_of_app in Hn. rewrite E3 by (rewrite elem_of_app; tauto).
    apply H7; [done|]. rewrite !elem_of_app. tauto.
  - intros i p [Hi|Hi]%elem_of_app; [by apply E5|]. rewrite Hold; [by apply H8|].
    apply in_keys in Hi. rewrite !elem_of_app. tauto.
  - intros i f Hi. rewrite Hold; [by apply H9|]. apply in_keys in Hi. rewrite !elem_of_app. tauto.
  - intros i p [Hi|Hi]%elem_of_app.
    + apply list_elem_of_lookup in Hi as [j Hj]. exists (build_batch A'), r, j.
      split; [apply elem_of_app; by left|]. split; [|by apply E4].
      rewrite build_batch_ops. unfold op_list. by rewrite list_lookup_fmap, Hj.
    + destruct (H10 i p Hi) as (b & r' & j & Hb & Hj & Hl). exists b, r', j.
      split; [apply elem_of_app; by right|]. split; [done|]. rewrite Hold; [done|].
      apply in_keys in Hi. rewrite !elem_of_app. tauto.
Qed.

(** ** The buffers

    Between two items every buffer is below both thresholds, holds operations for its own
    target only, and is sized right. *)
Definition bytes_of (es : Entries) : Z := foldr (fun e n => (op_body_len (p_op e.2) + n)%Z) 0%Z es.
Definition for_target (b : Target * Entries) : Prop := Forall (fun e => w_target (p_op e.2) ≡ b.1) b.2.
Definition below (b : Target * Entries) : Prop :=
  length b.2 < FLUSH_THRESHOLD /\ (bytes_of b.2 < BYTE_FLUSH_THRESHOLD)%Z /\ for_target b.
Definition sized (b : Target * Entries) (z : Target * Z) : Prop := b.1 = z.1 /\ bytes_of b.2 = z.2.
Definition Buffers (d : Demux) : Prop := Forall below (buffers d) /\ Forall2 sized (buffers d) (sizes d).

Lemma bytes_of_snoc es e : bytes_of (es ++ [e]) = (bytes_of es + op_body_len (p_op e.2))%Z.
Proof.
  unfold bytes_of. rewrite foldr_app. cbn [foldr]. induction es as [|x es IH]; cbn [foldr]; [lia|]. rewrite IH. lia.
Qed.
#[local] Arguments bytes_of : simpl never.
Lemma for_target_equiv u t es : u ≡ t -> for_target (t, es) -> for_target (u, es).
Proof. intros Hu H. eapply Forall_impl; [exact H|]. intros e He. cbn in *. by rewrite Hu. Qed.
Lemma below_equiv u t es : u ≡ t -> below (t, es) -> below (u, es).
Proof. intros Hu (H1 & H2 & H3). split; [done|]. split; [done|]. by eapply for_target_equiv. Qed.

Lemma sized_entry bs zs t e :
  Forall2 sized bs zs ->
  Forall2 sized (tm_entry bs t [] (fun buf => buf ++ [e])) (tm_entry zs t 0%Z (fun n => (n + op_body_len (p_op e.2))%Z))
  /\ bytes_of (default [] (tm_get bs t)) = default 0%Z (tm_get zs t).
Proof.
  induction 1 as [|[u es] [v z] bs zs [Hk Hz] H [IH1 IH2]]; cbn in *.
  - split; [|done]. constructor; [|done]. split; [done|]. unfold bytes_of. cbn. lia.
  - subst v. destruct (target_eqb u t); cbn; (split; [|done]); constructor; try done.
    split; [done|]. cbn. by rewrite bytes_of_snoc, Hz.
Qed.
Lemma sized_remove bs zs t : Forall2 sized bs zs -> Forall2 sized (tm_remove bs t) (tm_remove zs t).
Proof.
  induction 1 as [|[u es] [v z] bs zs [Hk Hz] H IH]; cbn in *; [done|]. subst v.
  destruct (target_eqb u t); [done|]. by constructor.
Qed.

(** The buffer a new operation lands in. *)
Lemma pushed_buffer d t e :
  Buffers d -> w_target (p_op e.2) = t ->
  let bufs := tm_entry (buffers d) t [] (fun buf => buf ++ [e]) in
  let szs := tm_entry (sizes d) t 0%Z (fun n => (n + op_body_len (p_op e.2))%Z) in
  exists es, tm_get bufs t = Some es /\ tm_get szs t = Some (bytes_of es)
  /\ length es <= FLUSH_THRESHOLD /\ for_target (t, es)
  /\ (length es < FLUSH_THRESHOLD -> (bytes_of es < BYTE_FLUSH_THRESHOLD)%Z -> Buffers (MkDemux bufs szs (lines d)))
  /\ Buffers (MkDemux (tm_remove bufs t) (tm_remove szs t) (lines d)).
Proof.
  intros [Hb Hs] Ht. cbv zeta. destruct (sized_entry _ _ t e Hs) as [Hs' Hsum].
  exists (default [] (tm_get (buffers d) t) ++ [e]). rewrite !tm_get_entry, bytes_of_snoc, Hsum.
  assert (Hold : below (t, default [] (tm_get (buffers d) t))).
  { destruct (tm_get (buffers d) t) as [es|] eqn:Hg.
    - refine (tm_get_Forall below _ _ _ _ Hb Hg). intros u v Hu. by apply below_equiv.
    - split; [unfold FLUSH_THRESHOLD; cbn; lia|]. split; [reflexivity|constructor]. }
  destruct Hold as (Hl & Hz & Hf). cbn in Hl, Hf.
  assert (Hf' : for_target (t, default [] (tm_get (buffers d) t) ++ [e])).
  { apply Forall_app. split; [done|]. repeat constructor; cbn; by rewrite Ht. }
  split; [done|]. split; [done|]. split; [rewrite length_app; cbn; lia|]. split; [done|]. split.
  - intros Hl' Hz'. split; [|done]. apply tm_entry_Forall; [|done|].
    + intros u v Hu. by apply below_equiv.
    + split; [done|]. split; [|done]. cbn [snd]. rewrite bytes_of_snoc. lia.
  - split; [by apply tm_remove_entry_Forall|by apply sized_remove].
Qed.

(** ** The loop *)
Definition Open (past : list event) (N k : nat) (d : Demux) : Prop :=
  exists ls A B F, lines d = Some ls /\ Ledger past N k ls A B F (buffered (buffers d)) /\ Buffers d.

Lemma Open_perm past past' N k d : past ≡ₚ past' -> Open past N k d -> Open past' N k d.
Proof.
  intros Hp (ls & A & B & F & H1 & H2 & H3). exists ls, A, B, F. split; [done|]. split; [by eapply ledger_trace|done].
Qed.
Lemma trace_swap (tr tr' past : list event) : tr' ++ tr ++ past ≡ₚ (tr ++ tr') ++ past.
Proof. rewrite app_assoc. by rewrite (Permutation_app_comm tr tr'). Qed.

Lemma buffer_and_flush_safe past N k d p :
  k < N -> Ent past (k, p) -> Open past N k d ->
  safe gated past (buffer_and_flush d k p) (fun tr d' => Open (tr ++ past) N (S k) d').
Proof.
  intros Hk He (ls & A & B & F & Hls & HL & HB). unfold buffer_and_flush.
  destruct (pushed_buffer d (w_target (p_op p)) (k, p) HB eq_refl) as (es & Hg & Hz & Hl & Hf & Hopen & Hrem).
  cbn [snd] in *. set (bufs := tm_entry (buffers d) _ _ _) in *. set (szs := tm_entry (sizes d) _ _ _) in *.
  rewrite Hg, Hz. cbn [default].
  apply (ledger_push _ _ _ _ _ _ _ _ p Hk He) in HL.
  apply (ledger_perm _ _ _ _ _ _ _ _ (buffered bufs)) in HL; [|by rewrite <- (buffered_push _ (w_target (p_op p)))].
  destruct (_ || _) eqn:Hover; cycle 1.
  { apply orb_false_iff in Hover as [H1%Nat.leb_gt H2%Z.leb_gt]. apply safe_ret. exists ls, A, B, F.
    split; [done|]. split; [done|]. by apply Hopen. }
  clear Hover Hopen. rewrite Hls. unfold flush.
  assert (Hes : es ++ buffered (tm_remove bufs (w_target (p_op p))) ≡ₚ buffered bufs)
    by (rewrite <- (buffered_remove bufs (w_target (p_op p))), Hg; done).
  assert (Hsafe : safe gated past (flush_task es) (fun tr '(A', B', r) =>
    A' ++ B' ≡ₚ es /\ (written tr = op_list A' /\ asked tr ≡ₚ verdicts A' B') /\ Ev (SinkWrite (build_batch A')) r ∈ tr)).
  { apply flush_task_safe; [|done|by eexists].
    pose proof (lg_entries _ _ _ _ _ _ _ _ HL) as HE. rewrite <- Hes in HE. rewrite !Forall_app in HE. tauto. }
  intros tr d' Hex. apply exec_bind in Hex as (t1 & t2 & ls' & -> & H1 & -> & ->). rewrite app_nil_r.
  apply exec_bind in H1 as (t3 & t4 & [A' B'] & -> & H3 & H4).
  apply exec_bind in H4 as (t5 & t6 & r & -> & H5 & -> & ->). rewrite app_nil_r.
  destruct (Hsafe (t3 ++ t5) (A', B', r)) as (Hguard & Hp & Hw & Hr).
  { apply exec_bind. exists t3, t5, (A', B'). split; [done|]. split; [done|].
    apply exec_bind. exists t5, [], r. by rewrite app_nil_r. }
  split; [done|].
  destruct (ledger_flush past (t3 ++ t5) N (S k) ls A B F (buffered bufs) A' B' (buffered (tm_remove bufs (w_target (p_op p)))) r) as
    (ls' & E1 & E2); [by rewrite app_assoc, Hp|done|done|exact HL|].
  exists ls', (A' ++ A), (B' ++ B), F. split; [exact E1|]. split; [done|]. exact Hrem.
Qed.

Lemma ingest_item_safe past N k item d cache :
  k < N -> items !! k = Some item -> CacheOk past cache -> Open past N k d ->
  safe gated past (ingest_item ctx retry up_trace k item d cache) (fun tr out =>
    CacheOk (tr ++ past) out.2 /\ Open (tr ++ past) N (S k) out.1).
Proof.
  intros Hk Hi Hc Ho. unfold ingest_item.
  eapply (safe_bind _ gated_mono); [by apply prepare_safe; [apply gated_mono|apply asking_gated|]|].
  intros tr [[p|f] cache'] (Hc' & Hw%asking_quiet & Hr); cbn [fst snd] in *.
  - assert (Ho' : Open (tr ++ past) N k d).
    { destruct Ho as (ls & A & B & F & H1 & H2 & H3). exists ls, A, B, F.
      split; [done|]. split; [by apply ledger_quiet|done]. }
    eapply (safe_bind _ gated_mono); [apply buffer_and_flush_safe; [done| |exact Ho']; by exists item|].
    intros tr' d' Hd. apply safe_ret. rewrite app_nil_r.
    split; [|eapply Open_perm; [apply trace_swap|exact Hd]].
    eapply CacheOk_mono; [|exact Hc']. set_solver.
  - apply safe_ret. rewrite app_nil_r. split; [done|].
    destruct Ho as (ls & A & B & F & H1 & H2 & H3).
    apply (ledger_quiet _ tr) in H2; [|done].
    destruct (ledger_fail _ _ _ _ _ _ _ _ f Hk (ex_intro _ item (conj Hi Hr)) H2) as (ls' & E1 & E2).
    exists ls', A, B, ((k, f) :: F). rewrite H1. split; [done|]. split; [done|]. exact H3.
Qed.

Lemma ingest_loop_safe its past N k d cache :
  (forall i, its !! i = items !! (k + i)) -> k + length its = N -> CacheOk past cache -> Open past N k d ->
  safe gated past (ingest_loop ctx retry up_trace k its d cache) (fun tr d' => Open (tr ++ past) N N d').
Proof.
  revert past k d cache. induction its as [|item its IH]; intros past k d cache Hits HN Hc Ho; cbn [ingest_loop length] in *.
  - apply safe_ret. by assert (k = N) as -> by lia.
  - eapply (safe_bind _ gated_mono).
    { apply (ingest_item_safe past N); [lia| |exact Hc|exact Ho]. specialize (Hits 0). rewrite Nat.add_0_r in Hits. by rewrite <- Hits. }
    intros tr [d' cache'] [Hc' Ho']; cbn [fst snd] in *.
    eapply (safe_mono _ gated_mono _ _ _ _ _ (fun x Hx => Hx)); [|apply IH; [|lia|exact Hc'|exact Ho']].
    + intros tr' d'' H. eapply Open_perm; [apply trace_swap|exact H].
    + intros i. specialize (Hits (S i)). rewrite Nat.add_succ_r in Hits. exact Hits.
Qed.

(** ** The final flush *)
Definition task_done (t : Entries * trace * (Entries * Entries * Result WriteAck SinkError)) : Prop :=
  let '(entries, tr, (A, B, r)) := t in
  A ++ B ≡ₚ entries /\ (written tr = op_list A /\ asked tr ≡ₚ verdicts A B) /\ Ev (SinkWrite (build_batch A)) r ∈ tr.

Lemma ledger_fold done_ past N k ls A B F :
  Forall task_done done_ -> Ledger past N k ls A B F (mjoin ((fun t => t.1.1) <$> done_)) ->
  exists ls' A' B', foldl apply_flushed (Some ls) ((fun t => t.2) <$> done_) = Some ls'
  /\ Ledger (mjoin ((fun t => t.1.2) <$> done_) ++ past) N k ls' A' B' F [].
Proof.
  intros Hd. revert past ls A B. induction Hd as [|[[es tr] [[A' B'] r]] done_ (Hp & Hw & Hr) _ IH]; intros past ls A B HL.
  - by exists ls, A, B.
  - cbn [fmap list_fmap mjoin list_join fst snd] in *.
    destruct (ledger_flush past tr N k ls A B F (es ++ mjoin ((fun t => t.1.1) <$> done_)) A' B' (mjoin ((fun t => t.1.1) <$> done_)) r) as (ls1 & E1 & HL1);
      [by rewrite app_assoc, Hp|exact Hw|exact Hr|exact HL|].
    destruct (IH _ _ _ _ HL1) as (ls2 & A2 & B2 & E2 & HL2). exists ls2, A2, B2.
    split; [cbn [foldl]; by rewrite E1|]. eapply ledger_trace; [apply trace_swap|exact HL2].
Qed.

Lemma join_nonempty {X} (l : list (list X)) :
  mjoin (List.filter (fun v => match v with [] => false | _ => true end) l) = mjoin l.
Proof. induction l as [|[|x v] l IH]; cbn; [done|done|]. by f_equal; f_equal. Qed.

Lemma flush_remaining_safe past N d :
  Open past N N d ->
  safe gated past (flush_remaining d) (fun tr out =>
    exists ls A B F, out = Some ls /\ Ledger (tr ++ past) N N ls A B F []).
Proof.
  intros (ls & A & B & F & Hls & HL & Hb & _). unfold flush_remaining. set (pending := List.filter _ _).
  assert (Hpend : mjoin pending = buffered (buffers d)) by apply join_nonempty.
  apply (safe_par _ gated_mono _ _ _ _ (fun es tr out => task_done (es, tr, out))).
  - intros es Hes. assert (He : Forall (Ent past) es).
    { pose proof (lg_entries _ _ _ _ _ _ _ _ HL) as HE. rewrite !Forall_app, <- Hpend in HE.
      destruct HE as (_ & _ & HE). rewrite Forall_forall in *. intros e Hin. apply HE, list_elem_of_join. by exists es. }
    apply list_elem_of_In, filter_In in Hes as [(b & -> & Hin)%list_elem_of_In%list_elem_of_fmap _].
    rewrite Forall_forall in Hb. destruct (Hb b Hin) as (H1 & _ & H3).
    apply flush_task_safe; [done|lia|by exists b.1].
  - intros done_ tr Hp Hd Hi. apply safe_ret. rewrite app_nil_r, Hls.
    assert (Hd' : Forall task_done done_) by (eapply Forall_impl; [exact Hd|]; by intros [[] ?]).
    eapply ledger_perm in HL; [|by rewrite <- Hpend, Hp].
    destruct (ledger_fold done_ past N N ls A B F Hd' HL) as (ls' & A' & B' & E & HL').
    exists ls', A', B', F. split; [done|]. eapply ledger_trace; [|exact HL'].
    by rewrite (interleaving_perm _ _ Hi).
Qed.

Lemma empty_open : Open [] (length items) 0 (MkDemux [] [] (Some (replicate (length items) None))).
Proof.
  exists (replicate (length items) None), [], [], []. split; [done|]. split; [|by repeat constructor].
  split; try (by repeat constructor); try (by intros ? ? []%not_elem_of_nil).
  - by rewrite length_replicate.
  - lia.
  - intros i Hi _. by apply lookup_replicate_2.
Qed.
Lemma empty_cache past : CacheOk past ∅.
Proof. intros key entry Hk. by apply (lookup_empty_Some (M := gmap (str * str))) in Hk. Qed.

Lemma ingest_items_safe :
  safe gated [] (ingest_items ctx retry up_trace items) (fun tr out =>
    exists ls A B F, out = render (Some ls) /\ Ledger tr (length items) (length items) ls A B F []).
Proof.
  unfold ingest_items. eapply (safe_bind _ gated_mono).
  { apply ingest_loop_safe; [done|done|apply empty_cache|apply empty_open]. }
  intros tr d Ho. eapply (safe_bind _ gated_mono); [eapply flush_remaining_safe; exact Ho|].
  intros tr' out (ls & A & B & F & -> & HL). apply safe_ret. exists ls, A, B, F. split; [done|].
  rewrite app_nil_r in *. eapply ledger_trace; [|exact HL]. apply Permutation_app_comm.
Qed.
Lemma ingest_bulk_safe :
  parse_bulk (ctx_body ctx) = Ok items ->
  safe gated [] (ingest_bulk ctx retry up_trace) (fun tr out =>
    exists ls A B F, out = render (Some ls) /\ Ledger tr (length items) (length items) ls A B F []).
Proof. intros Hp. unfold ingest_bulk. rewrite Hp. apply ingest_items_safe. Qed.
End Ledger.

(** ** What a bulk request does *)
Section Contract.
Context {Sd : Serde} {W : Wide} {M : Memchr} {R : Router}.
Context (ctx : RequestCtx) (retry : RetryPolicy) (up_trace : option TraceContext).

(** C7: Every item of a bulk body is accounted for exactly once, whatever the router, the
    write gate and the sink answer and however the sub-batches of the final flush
    interleave. The handler never panics; its answer has one line per item, in the order of
    the body; the items fall into those dispatched ([A]), those the write gate held ([B])
    and those that could not be prepared ([F]), each item in one of the three. The gate was
    asked once for each prepared operation, about its own partition and epoch, and about
    nothing else: it said yes for those of [A] and no for those of [B]. Exactly the
    operations of [A] are written, each once, and each after a yes for its partition and
    epoch; a held item answers [stale_epoch], one that could not be prepared the error of
    the step that failed (no partition, no placement, or what building the operation says),
    and a dispatched one the result at its position in the acknowledgement of the batch it
    went in, or the upstream's failure. *)
Theorem bulk_accounts_for_every_item items tr out :
  parse_bulk (ctx_body ctx) = Ok items ->
  exec (ingest_bulk ctx retry up_trace) tr out ->
  exists (ls : list (option Line)) (A B : Entries) (F : list (nat * ItemFailure)),
    out = render (Some ls) /\ out <> None
    /\ length ls = length items
    /\ A.*1 ++ B.*1 ++ F.*1 ≡ₚ seq 0 (length items)
    /\ asked tr ≡ₚ (verdict true <$> A) ++ (verdict false <$> B)
    /\ written tr ≡ₚ op_list A /\ guarded (gated ctx up_trace items) [] tr
    /\ (forall i p, (i, p) ∈ A ++ B -> exists item, items !! i = Some item /\ PrepOf ctx up_trace tr item p)
    /\ (forall i p, (i, p) ∈ A -> Answered tr ls i p)
    /\ (forall i p, (i, p) ∈ B -> ls !! i = Some (Some (stale_epoch_line p)))
    /\ (forall i f, (i, f) ∈ F -> ls !! i = Some (Some (into_line f))
          /\ exists item, items !! i = Some item /\ FailOf ctx tr item f).
Proof.
  intros Hp He. destruct (ingest_bulk_safe ctx retry up_trace items Hp tr out He) as (Hg & ls & A & B & F & -> & HL).
  destruct HL as [H1 H2 H3 H4 H5 [H6 H6'] H7 H8 H9 H10]. exists ls, A, B, F. cbn [fmap list_fmap] in H2.
  rewrite app_nil_r in H2. rewrite app_nil_r in H4. rewrite Forall_forall in H4. rewrite Forall_forall in H5.
  split_and!; [done|by unfold render|done|done|exact H6'|done|done| |done|done|].
  - intros i p Hi. exact (H4 _ Hi).
  - intros i f Hi. split; [by apply H9|]. exact (H5 _ Hi).
Qed.

(** Nothing of a bulk reaches the sink ungated or unprepared. When a sub-batch is
    sent it has at most [FLUSH_THRESHOLD] operations, all for the same target, and each is
    an item of this body, transformed under a resolution the router gave for the item's own
    partition and index, whose partition and epoch the write gate had already let
    through. *)
Theorem bulk_dispatches_only_admitted items tr out :
  parse_bulk (ctx_body ctx) = Ok items ->
  exec (ingest_bulk ctx retry up_trace) tr out ->
  guarded (gated ctx up_trace items) [] tr.
Proof. intros Hp He. by destruct (ingest_bulk_safe ctx retry up_trace items Hp tr out He). Qed.

(** C28: The working set of a bulk is bounded. When the items have been read, every
    buffer still holds fewer than [FLUSH_THRESHOLD] operations and fewer than
    [BYTE_FLUSH_THRESHOLD] bytes of bodies, all for the buffer's own target, and the size
    kept for the buffer is the sum of its bodies. *)
Theorem bulk_buffers_stay_bounded items tr d :
  exec (ingest_loop ctx retry up_trace 0 items (MkDemux [] [] (Some (replicate (length items) None))) ∅) tr d ->
  Forall (fun b => length b.2 < FLUSH_THRESHOLD
            /\ (bytes_of b.2 < BYTE_FLUSH_THRESHOLD)%Z
            /\ Forall (fun e => w_target (p_op e.2) ≡ b.1) b.2) (buffers d)
  /\ Forall2 (fun b z => b.1 = z.1 /\ bytes_of b.2 = z.2) (buffers d) (sizes d).
Proof.
  intros He. edestruct (ingest_loop_safe ctx retry up_trace items items [] (length items) 0) as (_ & Ho);
    [done|done|apply empty_cache|apply empty_open|exact He|].
  destruct Ho as (ls & A & B & F & _ & _ & HB). exact HB.
Qed.
End Contract.

(** ** A body run against a world *)
Section Runs.
#[local] Existing Instance scalar_wide.
Definition bulk_table : list (bytes * Value Z) :=
  [(body "{'index':{}}", Object [(lit "index", Object [])]);
   (body "{'delete':{'_id':'2'}}", Object [(lit "delete", Object [(lit "_id", String (lit "2"))])]);
   (body "{'ids':['v','w']}", Object [(lit "ids", Array [String (lit "v"); String (lit "w")])]);
   (body "{'_id':'v','_index':'orders','found':false}",
    Object [(lit "_id", String (lit "v")); (lit "_index", String (lit "orders")); (lit "found", Bool false)])].
#[local] Instance bulk_serde : Serde := toy_serde bulk_table.
#[local] Instance bulk_router : Router := {|
  router_resolve_partition ctx b :=
    ok_or (header_get (ctx_headers ctx) (lit "x-tenant")) (SpiPartitionUnresolved [HeaderKind]);
  router_cluster_endpoint c := None;
  router_upstream_credentials c := None
|}.
(** Two documents to index, the second for an index the backend does not know, and a
    document to delete, which the gate holds: it lets the first write through only. *)
Definition bulk_body : bytes :=
  body "{'index':{}}" ++ lf ++ body "{'k':'v','msg':'hi'}" ++ lf ++ body "{'delete':{'_id':'2'}}" ++ lf.
Definition bulk_ctx : RequestCtx :=
  ctx_new (principal_new (lit "ci")) (lit "r1") Post IngestBulk Http1 (lit "orders")
    [(lit "x-tenant", lit "acme")] bulk_body.
Definition bulk_resolved : Resolved :=
  MkResolved (lit "acme")
    (MkRouteDecision (target_new (lit "eu-1") (lit "shared")) Http1 []
      (Both [MkInjectedField (lit "_tenant") InjPartitionId] (MkDocIdRule (MkIdTemplate recommended) true)) (MkEpoch 7))
    PhaseSettled None.
Definition bulk_world : world_of (@Call bulk_serde) nat := fun B c n =>
  match c in Call B return B * nat with
  | ResolvePlacement _ _ _ => (Ok bulk_resolved, n)
  | Sleep _ => (tt, n)
  | Resolve _ => (Ok bulk_resolved, n)
  | AdmitWrite _ _ => (n =? 0, S n)
  | SinkWrite b => (Ok (ack_new ((fun _ => MkOpResult (lit "x") 201 true) <$> ops b)), n)
  | SinkGet _ => (Err (SinkTransport (lit "down")), n)
  | SinkSearch _ => (Err (SinkTransport (lit "down")), n)
  | SinkCount _ => (Err (SinkTransport (lit "down")), n)
  | SinkCursor _ => (Err (SinkTransport (lit "down")), n)
  | SinkSearchStream _ => (Err (SinkTransport (lit "down")), n)
  | SinkForwardStream _ _ => (Err (SinkTransport (lit "down")), n)
  | Enqueue _ => (Ok tt, n)
  end.
Definition bulk_items : list BulkItem :=
  [MkBulkItem Index None None None false (Some (body "{'k':'v','msg':'hi'}"));
   MkBulkItem Delete None (Some (lit "2")) None false None].
Definition bulk_run := interp bulk_world (ingest_bulk bulk_ctx retry_default None) 0.

Example bulk_run_writes_the_admitted :
  (fun op => match w_doc op with OpIndex id _ _ => id | _ => None end) <$> written bulk_run.1.1 = [Some (lit "acme:v")]
  /\ length bulk_run.1.1 = 4.
Proof. split; vm_compute; reflexivity. Qed.

Lemma bulk_accounts_for_every_item_witness :
  let tr := bulk_run.1.1 in
  exists (ls : list (option Line)) (A B : Entries) (F : list (nat * ItemFailure)),
    bulk_run.1.2 = render (Some ls) /\ bulk_run.1.2 <> None
    /\ length ls = length bulk_items
    /\ A.*1 ++ B.*1 ++ F.*1 ≡ₚ seq 0 (length bulk_items)
    /\ asked tr ≡ₚ (verdict true <$> A) ++ (verdict false <$> B)
    /\ written tr ≡ₚ op_list A /\ guarded (gated bulk_ctx None bulk_items) [] tr
    /\ (forall i p, (i, p) ∈ A ++ B -> exists item, bulk_items !! i = Some item /\ PrepOf bulk_ctx None tr item p)
    /\ (forall i p, (i, p) ∈ A -> Answered tr ls i p)
    /\ (forall i p, (i, p) ∈ B -> ls !! i = Some (Some (stale_epoch_line p)))
    /\ (forall i f, (i, f) ∈ F -> ls !! i = Some (Some (into_line f))
          /\ exists item, bulk_items !! i = Some item /\ FailOf bulk_ctx tr item f).
Proof.
  apply (bulk_accounts_for_every_item bulk_ctx retry_default None bulk_items); [vm_compute; reflexivity|].
  apply (interp_exec bulk_world (ingest_bulk bulk_ctx retry_default None) 0).
Defined.
Lemma bulk_dispatches_only_admitted_witness : guarded (gated bulk_ctx None bulk_items) [] bulk_run.1.1.
Proof.
  apply (bulk_dispatches_only_admitted bulk_ctx retry_default None bulk_items _ bulk_run.1.2); [vm_compute; reflexivity|].
  apply (interp_exec bulk_world (ingest_bulk bulk_ctx retry_default None) 0).
Defined.
Definition loop_run :=
  interp bulk_world (ingest_loop bulk_ctx retry_default None 0 bulk_items (MkDemux [] [] (Some (replicate 2 None))) ∅) 0.
Lemma bulk_buffers_stay_bounded_witness :
  let d := loop_run.1.2 in
  Forall (fun b => length b.2 < FLUSH_THRESHOLD
            /\ (bytes_of b.2 < BYTE_FLUSH_THRESHOLD)%Z
            /\ Forall (fun e => w_target (p_op e.2) ≡ b.1) b.2) (buffers d)
  /\ Forall2 (fun b z => b.1 = z.1 /\ bytes_of b.2 = z.2) (buffers d) (sizes d).
Proof.
  apply (bulk_buffers_stay_bounded bulk_ctx retry_default None bulk_items loop_run.1.1).
  apply (interp_exec bulk_world).
Defined.
End Runs.
