(* ===== verification/BulkStream.v ===== *)
(** * The streamed bulk body ([crates/osproxy-engine/src/bulk.rs])

    [NdjsonReader] frames the lines of a body that arrives in pieces, and the streamed
    demux handles each operation as it is read.  Against the buffered demux of [BulkFlow]. *)
From stdpp Require Import base option list strings numbers sets gmap.
From Stdlib Require Import Ascii ZArith Lia.
From S2P Require Import Prelude.
From S2P Require Import JsonScan.
From S2P Require Import JsonProps.
From S2P Require Import Trace.
From S2P Require Import CoreTypes.
From S2P Require Import Serde.
From S2P Require Import ToySerde.
From S2P Require Import DocId.
From S2P Require Import Bulk.
From S2P Require Import Spi.
From S2P Require Import Tenancy.
From S2P Require Import Sink.
From S2P Require Import Plan.
From S2P Require Import SearchScan.
From S2P Require Import Prog.
From S2P Require Import Effects.
From S2P Require Import Retry.
From S2P Require Import AsyncWrite.
From S2P Require Import BulkPrep.
From S2P Require Import BulkFlow.
From S2P Require Import BulkLedger.

Open Scope osp_scope.

Definition MAX_LINE_BYTES : Z := 67108864.

(** How a computation that may panic ends; [Unfinished]: its fuel ran out. *)
Inductive Outcome (A : Type) : Type := Panicked | Unfinished | Returned (a : A).
#[global] Arguments Panicked {A}.
#[global] Arguments Unfinished {A}.
#[global] Arguments Returned {A} a.

Record NdjsonReader (E : Type) : Type := MkReader {
  nd_body : list (BodyFrame E);
  nd_buf : bytes;
  nd_scan : nat;
  nd_done : bool
}.
#[global] Arguments MkReader {E} _ _ _ _.
#[global] Arguments nd_body {E} _.
#[global] Arguments nd_buf {E} _.
#[global] Arguments nd_scan {E} _.
#[global] Arguments nd_done {E} _.
Definition reader_new {E} (body : list (BodyFrame E)) : NdjsonReader E := MkReader body [] 0 false.

Definition strip_cr (line : bytes) : bytes :=
  match last line with
  | Some c => if Ascii.eqb c (byte_of 13) then take (length line - 1) line else line
  | None => line
  end.

Section Reader.
Context {M : Memchr} {E : Type}.
Implicit Type r : NdjsonReader E.

(** One turn of the loop of [next_line]: [inr] to go round again. *)
Definition read_turn r : Outcome (Result (option bytes) RequestError * NdjsonReader E + NdjsonReader E) :=
  if length (nd_buf r) <? nd_scan r then Panicked
  else match memchr newline (drop (nd_scan r) (nd_buf r)) with
  | Some rel =>
      let nl := nd_scan r + rel in
      let line := strip_cr (take nl (nd_buf r)) in
      let r := MkReader (nd_body r) (drop (S nl) (nd_buf r)) 0 (nd_done r) in
      if blank line then Returned (inr r) else Returned (inl (Ok (Some line), r))
  | None =>
      let scan := length (nd_buf r) in
      if nd_done r then
        if blank (nd_buf r) then Returned (inl (Ok None, MkReader (nd_body r) (nd_buf r) scan (nd_done r)))
        else Returned (inl (Ok (Some (nd_buf r)), MkReader (nd_body r) [] scan (nd_done r)))
      else if (MAX_LINE_BYTES <? Z.of_nat (length (nd_buf r)))%Z then
        Returned (inl (Err (ReqPayloadTooLarge (lit "bulk line exceeds the per-op size cap")),
                       MkReader (nd_body r) (nd_buf r) scan (nd_done r)))
      else match nd_body r with
      | Data data :: body => Returned (inr (MkReader body (nd_buf r ++ data) scan false))
      | Trailers :: body => Returned (inr (MkReader body (nd_buf r) scan false))
      | BodyFailed _ :: body =>
          Returned (inl (Err (ReqInternal (lit "reading bulk body stream")), MkReader body (nd_buf r) scan false))
      | [] => Returned (inr (MkReader [] (nd_buf r) scan true))
      end
  end.
Fixpoint read_loop (fuel : nat) r : Outcome (Result (option bytes) RequestError * NdjsonReader E) :=
  match fuel with
  | 0 => Unfinished
  | S fuel =>
      match read_turn r with
      | Returned (inl out) => Returned out
      | Returned (inr r) => read_loop fuel r
      | Panicked => Panicked
      | Unfinished => Unfinished
      end
  end.
(** Every turn that goes round again takes a line from the buffer, takes a frame, or sees
    the end of the body, so this many turns are enough ([next_line_reads]). *)
Definition turns r : nat :=
  length (nd_buf r) + length (delivered (nd_body r)) + length (nd_body r) + (if nd_done r then 0 else 1).
Definition next_line r : Outcome (Result (option bytes) RequestError * NdjsonReader E) := read_loop (S (turns r)) r.
End Reader.

Section Ops.
Context {Sd : Serde} {W : Wide} {M : Memchr} {E : Type}.

Definition next_op (r : NdjsonReader E) : Outcome (Result (option BulkItem) RequestError * NdjsonReader E) :=
  match next_line r with
  | Returned (Ok None, r) => Returned (Ok None, r)
  | Returned (Err e, r) => Returned (Err e, r)
  | Returned (Ok (Some action_line), r) =>
      match map_err ReqRewrite (parse_bulk_action action_line) with
      | Err e => Returned (Err e, r)
      | Ok parsed =>
          if has_source (pa_action parsed) then
            match next_line r with
            | Returned (Ok (Some source), r) =>
                Returned (map_err ReqRewrite (let? item := into_item parsed (Some source) in Ok (Some item)), r)
            | Returned (Ok None, r) => Returned (Err (ReqRewrite MalformedBulkAction), r)
            | Returned (Err e, r) => Returned (Err e, r)
            | Panicked => Panicked
            | Unfinished => Unfinished
            end
          else Returned (map_err ReqRewrite (let? item := into_item parsed None in Ok (Some item)), r)
      end
  | Panicked => Panicked
  | Unfinished => Unfinished
  end.
End Ops.

Section Streamed.
Context {Sd : Serde} {W : Wide} {M : Memchr} {R : Router} {E : Type}.
Context (ctx : RequestCtx) (retry : RetryPolicy) (up_trace : option TraceContext).

(** [lines.push(None)]. *)
Definition push_line (d : Demux) : Demux := MkDemux (buffers d) (sizes d) ((fun ls => ls ++ [None]) <$> lines d).
Fixpoint stream_loop (fuel ordinal : nat) (r : NdjsonReader E) (d : Demux) (cache : ResolutionCache)
    : prog (Outcome (Result Demux RequestError)) :=
  match fuel with
  | 0 => Ret Unfinished
  | S fuel =>
      match next_op r with
      | Panicked => Ret Panicked
      | Unfinished => Ret Unfinished
      | Returned (Err e, _) => Ret (Returned (Err e))
      | Returned (Ok None, _) => Ret (Returned (Ok d))
      | Returned (Ok (Some item), r) =>
          await! (d, cache) := ingest_item ctx retry up_trace ordinal item (push_line d) cache in
          stream_loop fuel (S ordinal) r d cache
      end
  end.
Definition ingest_bulk_streamed (body : list (BodyFrame E)) : prog (Outcome (Result PipelineResponse RequestError)) :=
  let r := reader_new body in
  await! read := stream_loop (S (turns r)) 0 r (MkDemux [] [] (Some [])) ∅ in
  match read with
  | Returned (Ok d) =>
      await! ls := flush_remaining d in
      Ret (match render ls with Some out => Returned out | None => Panicked end)
  | Returned (Err e) => Ret (Returned (Err e))
  | Panicked => Ret Panicked
  | Unfinished => Ret Unfinished
  end.
End Streamed.

(** ** What the reader reads *)
Section Reads.
Context {M : Memchr} {E : Type}.
Implicit Type r : NdjsonReader E.

Definition text r : bytes := nd_buf r ++ delivered (nd_body r).
(** No line of the text is over the cap. *)
Definition fits (t : bytes) : Prop := Forall (fun line => (Z.of_nat (length line) <= MAX_LINE_BYTES)%Z) (split newline t).
(** A reader that has consumed whole lines only, over a body that does not fail. *)
Record Good r : Prop := {
  good_scan : nd_scan r <= length (nd_buf r);
  good_seen : newline ∉ take (nd_scan r) (nd_buf r);
  good_done : nd_done r = true -> nd_body r = [];
  good_body : failure (nd_body r) = [];
  good_fits : fits (text r)
}.

(** The first line of the pieces between newlines, and the pieces that follow it: the last
    piece has no newline after it. *)
Inductive First : Type := NoLine | ALine (line : bytes) (rest : list bytes) | TailLine (line : bytes).
Fixpoint first_line (pieces : list bytes) : First :=
  match pieces with
  | [] => NoLine
  | [p] => if blank p then NoLine else TailLine p
  | p :: ps => if blank p then first_line ps else ALine (strip_cr p) ps
  end.

Lemma blank_strip_cr p : blank (strip_cr p) = blank p.
Proof.
  unfold strip_cr. destruct (last p) as [c|] eqn:Hl; [|done]. destruct (Ascii.eqb_spec c (byte_of 13)) as [->|]; [|done].
  apply last_Some in Hl as [q ->]. rewrite length_app, Nat.add_sub, take_app_length. unfold blank.
  by rewrite forallb_app, andb_true_r.
Qed.
Lemma first_piece t u : newline ∉ t -> exists v ps, split newline (t ++ u) = (t ++ v) :: ps.
Proof.
  intros Ht. induction t as [|d t IH]; cbn [app split].
  - destruct (split newline u) as [|v ps] eqn:Hs; [by apply split_nonempty in Hs|]. by exists v, ps.
  - apply not_elem_of_cons in Ht as [Hne Ht]. rewrite (proj2 (Ascii.eqb_neq newline d)) by done.
    destruct (IH Ht) as (v & ps & ->). by exists v, ps.
Qed.
Lemma first_line_cons p ps :
  ps <> [] -> first_line (p :: ps) = if blank p then first_line ps else ALine (strip_cr p) ps.
Proof. by destruct ps. Qed.

(** What one call of [next_line] is to do. *)
Definition reads r (out : Outcome (Result (option bytes) RequestError * NdjsonReader E)) : Prop :=
  match first_line (split newline (text r)) with
  | NoLine => exists r', out = Returned (Ok None, r')
  | TailLine line => exists r', out = Returned (Ok (Some line), r') /\ nd_buf r' = [] /\ 0 < nd_scan r'
  | ALine line rest => exists r', out = Returned (Ok (Some line), r')
      /\ Good r' /\ split newline (text r') = rest /\ turns r' < turns r
  end.

Lemma find_in_buffer r rel :
  Good r -> memchr newline (drop (nd_scan r) (nd_buf r)) = Some rel ->
  exists a b, nd_buf r = a ++ newline :: b /\ newline ∉ a /\ nd_scan r + rel = length a.
Proof.
  intros [H1 H2 _ _ _] (a & b & Hd & <- & Ha)%(eq_trans (eq_sym (memchr_spec _ _)))%find_byte_Some.
  exists (take (nd_scan r) (nd_buf r) ++ a), b. rewrite <- app_assoc, <- Hd, take_drop.
  split; [done|]. split; [by rewrite not_elem_of_app|]. rewrite length_app, length_take. lia.
Qed.
Lemma not_in_buffer r : Good r -> memchr newline (drop (nd_scan r) (nd_buf r)) = None -> newline ∉ nd_buf r.
Proof.
  intros [H1 H2 _ _ _] H%(eq_trans (eq_sym (memchr_spec _ _)))%find_byte_None.
  rewrite <- (take_drop (nd_scan r) (nd_buf r)). by rewrite not_elem_of_app.
Qed.
Lemma read_loop_reads fuel r : Good r -> turns r < fuel -> reads r (read_loop fuel r).
Proof.
  revert r. induction fuel as [|fuel IH]; intros r Hg Hf; [lia|]. cbn [read_loop]. unfold read_turn.
  rewrite (proj2 (Nat.ltb_ge _ _) (good_scan _ Hg)).
  destruct (memchr newline (drop (nd_scan r) (nd_buf r))) as [rel|] eqn:Hm.
  - destruct (find_in_buffer _ _ Hg Hm) as (a & b & Hb & Ha & ->).
    assert (Ht : split newline (text r) = a :: split newline (b ++ delivered (nd_body r)))
      by (unfold text; rewrite Hb, <- app_assoc; by apply split_cut).
    set (r1 := MkReader (nd_body r) (drop (S (length a)) (nd_buf r)) 0 (nd_done r)).
    assert (Hr1 : nd_buf r1 = b).
    { cbn. rewrite Hb. replace (S (length a)) with (length (a ++ [newline])) by (rewrite length_app; cbn; lia).
      change (newline :: b) with ([newline] ++ b). rewrite app_assoc. apply drop_app_length. }
    assert (Hg1 : Good r1).
    { destruct Hg as [H1 H2 H3 H4 H5]. split; [cbn; lia|apply not_elem_of_nil|done|done|].
      unfold fits in *. rewrite Ht in H5. apply Forall_cons_iff in H5 as [_ H5]. unfold text. rewrite Hr1. exact H5. }
    assert (Ht1 : turns r1 < turns r).
    { unfold turns. rewrite Hr1, Hb, length_app. cbn [nd_body nd_done r1 length]. lia. }
    assert (take (length a) (nd_buf r) = a) as -> by (rewrite Hb; apply take_app_length). rewrite blank_strip_cr. unfold reads. rewrite Ht.
    rewrite first_line_cons by apply split_nonempty.
    assert (Hx : split newline (text r1) = split newline (b ++ delivered (nd_body r))) by (unfold text; by rewrite Hr1).
    destruct (blank a).
    + rewrite <- Hx. assert (Hl : turns r1 < fuel) by lia. specialize (IH r1 Hg1 Hl). unfold reads in IH.
      destruct (first_line _) as [|line rest|line]; [exact IH| |exact IH].
      destruct IH as (r' & H1 & H2 & H3 & H4). exists r'. split; [done|]. split; [done|]. split; [done|]. lia.
    + exists r1. done.
  - pose proof (not_in_buffer _ Hg Hm) as Hn. destruct (nd_done r) eqn:Hdone.
    + unfold reads, text. rewrite (good_done _ Hg Hdone). cbn [delivered]. rewrite app_nil_r, split_single by done.
      cbn [first_line]. destruct (blank (nd_buf r)) eqn:Hbl; [by eexists|]. eexists. split; [done|]. split; [done|].
      cbn. destruct (nd_buf r); [done|cbn; lia].
    + destruct (first_piece (nd_buf r) (delivered (nd_body r)) Hn) as (v & ps & Hps).
      assert (Hcap : (MAX_LINE_BYTES <? Z.of_nat (length (nd_buf r)))%Z = false).
      { pose proof (good_fits _ Hg) as Hfit. unfold fits, text in Hfit. rewrite Hps in Hfit.
        apply Forall_cons_iff in Hfit as [Hfit _]. rewrite length_app in Hfit. apply Z.ltb_ge. lia. }
      rewrite Hcap. clear Hcap Hps.
      assert (Hgo : forall r1, text r1 = text r -> nd_scan r1 = length (nd_buf r) ->
        (exists d, nd_buf r1 = nd_buf r ++ d) -> (nd_done r1 = true -> nd_body r1 = []) ->
        failure (nd_body r1) = [] -> turns r1 < turns r -> reads r (read_loop fuel r1)).
      { intros r1 Ht Hsc [d Hd] Hdn Hfl Htu.
        assert (Hg1 : Good r1).
        { split; [rewrite Hsc, Hd, length_app; lia|rewrite Hsc, Hd; by rewrite take_app_length|done|done|].
          rewrite Ht. apply Hg. }
        assert (Hl : turns r1 < fuel) by lia. specialize (IH r1 Hg1 Hl). unfold reads in *. rewrite Ht in IH.
        destruct (first_line _) as [|line rest|line]; [exact IH| |exact IH].
        destruct IH as (r' & H1 & H2 & H3 & H4). exists r'. split; [done|]. split; [done|]. split; [done|]. lia. }
      pose proof (good_body _ Hg) as Hfail. unfold text, turns in Hgo. rewrite Hdone in Hgo.
      destruct (nd_body r) as [|[data| |e] body]; cbn [delivered failure length] in *; try done; apply Hgo;
        cbn [nd_body nd_buf nd_scan nd_done delivered length]; try done; try by rewrite <- ?app_assoc.
      all: try (rewrite ?length_app; lia).
      all: try (by exists []; rewrite app_nil_r). by exists data.
Qed.
Lemma next_line_reads r : Good r -> reads r (next_line r).
Proof. intros Hg. apply read_loop_reads; [done|]. lia. Qed.
(** After a last line without a newline the reader is broken: [scan] is past the end of the
    emptied buffer. *)
Lemma broken_reader_panics r : nd_buf r = [] -> 0 < nd_scan r -> next_line r = Panicked.
Proof. intros Hb Hs. unfold next_line. cbn [read_loop]. unfold read_turn. rewrite Hb. cbn [length]. by destruct (nd_scan r); [lia|]. Qed.
End Reads.

(** The lines of the pieces between newlines: those a newline ends, and what comes after
    the last newline unless it is blank. *)
Fixpoint frame_lines (pieces : list bytes) : list bytes * option bytes :=
  match pieces with
  | [] => ([], None)
  | [p] => ([], if blank p then None else Some p)
  | p :: ps => let '(ls, tail) := frame_lines ps in (if blank p then ls else strip_cr p :: ls, tail)
  end.
Lemma frame_lines_first ps :
  frame_lines ps = match first_line ps with
                   | NoLine => ([], None)
                   | TailLine line => ([], Some line)
                   | ALine line rest => let '(ls, tail) := frame_lines rest in (line :: ls, tail)
                   end.
Proof.
  induction ps as [|p [|q ps] IH]; [done|cbn; by destruct (blank p)|].
  rewrite first_line_cons by done.
  change (frame_lines (p :: q :: ps))
    with (let '(ls, tail) := frame_lines (q :: ps) in (if blank p then ls else strip_cr p :: ls, tail)).
  destruct (blank p); [|by destruct (frame_lines (q :: ps))]. rewrite <- IH. by destruct (frame_lines (q :: ps)).
Qed.

Section Loops.
Context {Sd : Serde} {W : Wide} {M : Memchr} {R : Router} {E : Type}.
Context (ctx : RequestCtx) (retry : RetryPolicy) (up_trace : option TraceContext).
Implicit Type r : NdjsonReader E.

(** The loop over the operations, once they are framed and parsed. *)
Fixpoint push_loop (ordinal : nat) (items : list BulkItem) (d : Demux) (cache : ResolutionCache) : prog Demux :=
  match items with
  | [] => Ret d
  | item :: items =>
      await! (d, cache) := ingest_item ctx retry up_trace ordinal item (push_line d) cache in
      push_loop (S ordinal) items d cache
  end.

Definition Broken r : Prop := nd_buf r = [] /\ 0 < nd_scan r.
Lemma broken_op r : Broken r -> next_op r = Panicked.
Proof. intros [H1 H2]. unfold next_op. by rewrite broken_reader_panics. Qed.

Definition lines_of r : list bytes * option bytes := frame_lines (split newline (text r)).
Definition all_lines (f : list bytes * option bytes) : list bytes := f.1 ++ match f.2 with Some line => [line] | None => [] end.

(** One line off the reader. *)
Lemma next_line_cases r :
  Good r ->
  (lines_of r = ([], None) /\ exists r', next_line r = Returned (Ok None, r'))
  \/ (exists line r', lines_of r = ([], Some line) /\ next_line r = Returned (Ok (Some line), r') /\ Broken r' /\ 0 < turns r)
  \/ (exists line ls tail r', lines_of r = (line :: ls, tail) /\ next_line r = Returned (Ok (Some line), r')
      /\ Good r' /\ lines_of r' = (ls, tail) /\ turns r' < turns r).
Proof.
  intros Hg. pose proof (next_line_reads r Hg) as H. unfold reads in H. unfold lines_of. rewrite frame_lines_first.
  destruct (first_line (split newline (text r))) as [|line rest|line] eqn:Hf; [by left| |].
  - right; right. destruct H as (r' & H1 & H2 & H3 & H4). rewrite <- H3.
    destruct (frame_lines (split newline (text r'))) as [ls tail] eqn:Hl. by exists line, ls, tail, r'.
  - right; left. destruct H as (r' & H1 & H2 & H3). exists line, r'. split; [done|]. split; [done|]. split; [done|].
    destruct (turns r) eqn:Ht; [|lia]. unfold turns in Ht.
    assert (text r = []) as Hx.
    { unfold text. destruct (nd_buf r); [|done]. destruct (delivered (nd_body r)); [done|]. cbn in Ht; lia. }
    rewrite Hx in Hf. discriminate Hf.
Qed.

(** One operation off the reader. *)
Lemma next_op_cases r items :
  Good r -> bulk_stream (all_lines (lines_of r)) = Ok items ->
  (items = [] /\ (lines_of r).2 = None /\ exists r', next_op r = Returned (Ok None, r'))
  \/ exists item items' r', items = item :: items' /\ next_op r = Returned (Ok (Some item), r') /\
     ((items' = [] /\ Broken r' /\ is_Some (lines_of r).2 /\ 0 < turns r)
      \/ (Good r' /\ turns r' < turns r /\ (lines_of r').2 = (lines_of r).2 /\ bulk_stream (all_lines (lines_of r')) = Ok items')).
Proof.
  intros Hg Hb. unfold next_op.
  destruct (next_line_cases r Hg) as [(Hl & r' & ->)|[(l & r' & Hl & -> & Hbr & Ht)|(l & ls & tail & r1 & Hl & -> & Hg1 & Hl1 & Ht)]];
    rewrite Hl in *; unfold all_lines in Hb; cbn [fst snd app] in Hb.
  - injection Hb as <-. left. by split; [|split; [|exists r']].
  - right. rewrite bulk_stream_cons in Hb. destruct (parse_bulk_action l) as [a|]; [|done]. cbn [rbind map_err] in *.
    destruct (has_source (pa_action a)) eqn:Hs.
    + unfold into_item in Hb. by rewrite Hs in Hb.
    + destruct (into_item a None) as [item|]; [|done]. cbn in Hb. injection Hb as <-.
      exists item, [], r'. split; [done|]. split; [done|]. left. split; [done|]. split; [done|]. split; [by eexists|done].
  - right. cbn [app] in Hb. rewrite bulk_stream_cons in Hb. destruct (parse_bulk_action l) as [a|]; [|done]. cbn [rbind map_err] in *.
    destruct (has_source (pa_action a)) eqn:Hs; cycle 1.
    { destruct (into_item a None) as [item|]; [|done]. cbn [rbind map_err] in *.
      destruct (bulk_stream _) as [items'|] eqn:Hb'; [|done]. injection Hb as <-.
      exists item, items', r1. split; [done|]. split; [done|]. right. rewrite Hl1. done. }
    assert (Hnone : forall i, into_item a None <> Ok i) by (intros i; unfold into_item; by rewrite Hs).
    destruct (next_line_cases r1 Hg1) as [(Hl2 & r' & ->)|[(l2 & r' & Hl2 & -> & Hbr & Ht2)|(l2 & ls2 & tail2 & r2 & Hl2 & -> & Hg2 & Hl2' & Ht2)]];
      rewrite Hl1 in Hl2; injection Hl2 as -> ->; cbn [app] in Hb.
    + destruct (into_item a None) as [i|]; [by destruct (Hnone i)|done].
    + destruct (into_item a (Some l2)) as [item|]; [|done]. cbn in Hb. injection Hb as <-.
      exists item, [], r'. split; [done|]. split; [done|]. left. split; [done|]. split; [done|]. split; [done|lia].
    + destruct (into_item a (Some l2)) as [item|]; [|done]. cbn [rbind map_err] in *.
      destruct (bulk_stream _) as [items'|] eqn:Hb'; [|done]. injection Hb as <-.
      exists item, items', r2. split; [done|]. split; [done|]. right. rewrite Hl2'. split; [done|]. split; [lia|done].
Qed.

Lemma stream_loop_pushes fuel ordinal r d cache items tr out :
  Good r -> turns r < fuel -> bulk_stream (all_lines (lines_of r)) = Ok items ->
  exec (stream_loop ctx retry up_trace fuel ordinal r d cache) tr out
  <-> exists d', exec (push_loop ordinal items d cache) tr d'
      /\ out = match (lines_of r).2 with None => Returned (Ok d') | Some _ => Panicked end.
Proof.
  revert ordinal r d cache items tr out. induction fuel as [|fuel IH]; intros ordinal r d cache items tr out Hg Hf Hb; [lia|].
  cbn [stream_loop].
  destruct (next_op_cases r items Hg Hb) as [(-> & -> & r' & ->)|(item & items' & r' & -> & -> & Hrest)].
  - cbn. split; [intros [-> ->]; by exists d|by intros (d' & [-> ->] & ->)].
  - cbn [push_loop]. rewrite exec_bind.
    assert (Hk : forall d1 c1 t o, exec (stream_loop ctx retry up_trace fuel (S ordinal) r' d1 c1) t o
      <-> exists d', exec (push_loop (S ordinal) items' d1 c1) t d'
          /\ o = match (lines_of r).2 with None => Returned (Ok d') | Some _ => Panicked end).
    { intros d1 c1 t o. destruct Hrest as [(-> & Hbr & [tail ->] & Ht)|(Hg' & Ht & <- & Hb')].
      - destruct fuel as [|fuel]; [lia|]. cbn [stream_loop]. rewrite broken_op by done. cbn.
        split; [intros [-> ->]; by exists d1|by intros (d' & [-> ->] & ->)].
      - apply IH; [done|lia|done]. }
    split.
    + intros (t1 & t2 & [d1 c1] & -> & H1 & (d' & H2 & ->)%Hk). exists d'. split; [|done]. apply exec_bind. by exists t1, t2, (d1, c1).
    + intros (d' & (t1 & t2 & [d1 c1] & -> & H1 & H2)%exec_bind & ->). exists t1, t2, (d1, c1). split; [done|]. split; [done|].
      apply Hk. by exists d'.
Qed.
End Loops.

(** ** Lines pushed one by one, and lines all there at the start *)
Section Padding.
Context {Sd : Serde} {W : Wide} {M : Memchr} {R : Router} {E : Type}.
Context (ctx : RequestCtx) (retry : RetryPolicy) (up_trace : option TraceContext).

Definition pad (n : nat) (d : Demux) : Demux :=
  MkDemux (buffers d) (sizes d) ((fun ls => ls ++ replicate n None) <$> lines d).
(** [m] lines, and the buffers' entries are for some of them. *)
Definition Lined (m : nat) (d : Demux) : Prop :=
  exists ls, lines d = Some ls /\ length ls = m /\ keys_below m (buffered (buffers d)).*1.

Lemma pad_push n d : pad (S n) d = pad n (push_line d).
Proof.
  unfold pad, push_line. cbn [buffers sizes lines]. rewrite <- option_fmap_compose. f_equal.
  apply option_fmap_ext. intros ls. cbn. by rewrite <- app_assoc.
Qed.
Lemma pad_0 m d : Lined m d -> pad 0 d = d.
Proof. intros (ls & H & _). unfold pad. rewrite H. cbn. rewrite app_nil_r, <- H. by destruct d. Qed.
Lemma Lined_push m d : Lined m d -> Lined (S m) (push_line d).
Proof.
  intros (ls & H1 & H2 & H3). exists (ls ++ [None]). unfold push_line. cbn [lines buffers]. rewrite H1.
  split; [done|]. split; [rewrite length_app; cbn; lia|]. eapply Forall_impl; [exact H3|]. intros i Hi. cbn in *. lia.
Qed.

Lemma set_lines_app L ls z :
  keys_below (length ls) L.*1 ->
  exists ls', set_lines (Some ls) L = Some ls' /\ length ls' = length ls /\ set_lines (Some (ls ++ z)) L = Some (ls' ++ z).
Proof.
  revert ls. induction L as [|[i l] L IH]; intros ls HL; [by exists ls|]. apply Forall_cons_iff in HL as [Hi HL].
  cbn [set_lines]. unfold set_line. cbn [mbind option_bind fst] in *. rewrite length_app.
  rewrite (proj2 (Nat.ltb_lt i (length ls)) Hi), (proj2 (Nat.ltb_lt i (length ls + length z))) by lia.
  rewrite insert_app_l by done. destruct (IH (<[i:=Some l]> ls)) as (ls' & H1 & H2 & H3); [by rewrite length_insert|].
  rewrite length_insert in H2. by exists ls'.
Qed.
Lemma apply_flushed_app A B r ls z :
  keys_below (length ls) (A ++ B).*1 ->
  exists ls', apply_flushed (Some ls) (A, B, r) = Some ls' /\ length ls' = length ls
  /\ apply_flushed (Some (ls ++ z)) (A, B, r) = Some (ls' ++ z).
Proof.
  rewrite fmap_app. intros [HA HB]%Forall_app. cbn [apply_flushed]. unfold stale_lines.
  destruct (set_lines_app ((fun e => (e.1, stale_epoch_line e.2)) <$> B) ls z) as (l1 & H1 & H2 & H3);
    [by rewrite <- list_fmap_compose|].
  rewrite H1, H3. assert (HA' : keys_below (length l1) A.*1) by (by rewrite H2).
  destruct r as [ack|e]; cbn [apply_results].
  - destruct (set_lines_app (zip_with (fun e r => (e.1, success_line e.2 r)) A (results ack)) l1 z) as (l2 & H4 & H5 & H6).
    { clear -HA'. generalize (results ack) as rs. revert HA'. induction A as [|e A IH]; intros HA' [|x rs]; [constructor..|].
      cbn in *. apply Forall_cons_iff in HA' as [? ?]. constructor; [done|]. by apply IH. }
    exists l2. by rewrite H4, H6, H5.
  - destruct (set_lines_app ((fun e => (e.1, upstream_failure_line e.2)) <$> A) l1 z) as (l2 & H4 & H5 & H6);
      [by rewrite <- list_fmap_compose|]. exists l2. by rewrite H4, H6, H5.
Qed.

Lemma exec_flush entries ls tr out :
  exec (flush entries ls) tr out
  <-> exists A B r, exec (flush_task entries) tr (A, B, r) /\ out = apply_flushed ls (A, B, r).
Proof.
  unfold flush, flush_task. rewrite exec_bind. split.
  - intros (t1 & t2 & [A B] & -> & H1 & (t3 & t4 & r & -> & H2 & -> & ->)%exec_bind). exists A, B, r. split; [|done].
    apply exec_bind. exists t1, (t3 ++ []), (A, B). split; [done|]. split; [done|]. apply exec_bind. by exists t3, [], r.
  - intros (A & B & r & (t1 & t2 & [A' B'] & -> & H1 & (t3 & t4 & r' & -> & H2 & -> & Heq)%exec_bind)%exec_bind & ->).
    injection Heq as <- <- <-. exists t1, (t3 ++ []), (A, B). split; [done|]. split; [done|].
    apply exec_bind. by exists t3, [], r.
Qed.
Lemma flush_task_perm entries tr A B r : exec (flush_task entries) tr (A, B, r) -> A ++ B ≡ₚ entries.
Proof.
  intros (t1 & t2 & [A' B'] & -> & H1 & (t3 & t4 & r' & -> & H2 & -> & [= -> -> ->])%exec_bind)%exec_bind.
  by destruct (gate_safe ctx up_trace [] [] entries t1 (A', B') H1) as [_ [? _]].
Qed.

Lemma buffer_and_flush_padded m n k p d tr out :
  Lined m d -> k < m ->
  exec (buffer_and_flush (pad n d) k p) tr out
  <-> exists d', out = pad n d' /\ Lined m d' /\ exec (buffer_and_flush d k p) tr d'.
Proof.
  intros (ls & Hls & <- & Hk) Hkm. unfold buffer_and_flush. cbn [pad buffers sizes lines].
  set (t := w_target (p_op p)). set (bufs := tm_entry (buffers d) _ _ _). set (szs := tm_entry (sizes d) _ _ _).
  assert (Hb : keys_below (length ls) (buffered bufs).*1)
    by (unfold bufs, keys_below; rewrite buffered_push; cbn [fmap list_fmap fst]; by constructor).
  destruct (_ || _).
  - rewrite Hls. cbn [fmap option_fmap option_map].
    assert (Hrem : default [] (tm_get bufs t) ++ buffered (tm_remove bufs t) ≡ₚ buffered bufs) by apply buffered_remove.
    assert (Hkeys : keys_below (length ls) (default [] (tm_get bufs t)).*1
      /\ keys_below (length ls) (buffered (tm_remove bufs t)).*1).
    { unfold keys_below in *. rewrite <- Hrem, fmap_app in Hb. by apply Forall_app in Hb. }
    destruct Hkeys as [Hes Hrest]. clear Hrem.
    assert (Happ : forall t1 A B r, exec (flush_task (default [] (tm_get bufs t))) t1 (A, B, r) ->
      exists ls', apply_flushed (Some ls) (A, B, r) = Some ls' /\ length ls' = length ls
        /\ apply_flushed (Some (ls ++ replicate n None)) (A, B, r) = Some (ls' ++ replicate n None)).
    { intros t1 A B r Hp%flush_task_perm. apply apply_flushed_app. unfold keys_below in *. by rewrite Hp. }
    rewrite exec_bind. split.
    + intros (t1 & t2 & x & -> & (A & B & r & H1 & ->)%exec_flush & -> & ->).
      destruct (Happ _ _ _ _ H1) as (ls' & E1 & E2 & E3).
      exists (MkDemux (tm_remove bufs t) (tm_remove szs t) (Some ls')). split; [by rewrite E3|].
      split; [by exists ls'|]. apply exec_bind. exists t1, [], (Some ls'). split; [done|]. split; [|done].
      apply exec_flush. by exists A, B, r.
    + intros (d' & -> & _ & (t1 & t2 & x & -> & (A & B & r & H1 & ->)%exec_flush & -> & ->)%exec_bind).
      destruct (Happ _ _ _ _ H1) as (ls' & E1 & E2 & E3).
      exists t1, [], (Some (ls' ++ replicate n None)). split; [done|]. rewrite E1. split; [|done].
      apply exec_flush. by exists A, B, r.
  - cbn [exec]. split.
    + intros [-> ->]. exists (MkDemux bufs szs (lines d)). split; [done|]. split; [by exists ls|done].
    + intros (d' & -> & _ & -> & ->). done.
Qed.
Lemma ingest_item_padded m n item d cache tr out :
  Lined (S m) d ->
  exec (ingest_item ctx retry up_trace m item (pad n d) cache) tr out
  <-> exists d', out.1 = pad n d' /\ Lined (S m) d' /\ exec (ingest_item ctx retry up_trace m item d cache) tr (d', out.2).
Proof.
  intros Hd. unfold ingest_item. rewrite exec_bind. setoid_rewrite exec_bind. split.
  - intros (t1 & t2 & [[p|f] c1] & -> & H1 & H2).
    + apply exec_bind in H2 as (t3 & t4 & x & -> & (d' & -> & Hl & H3)%(buffer_and_flush_padded (S m)) & -> & ->); [|done|lia].
      exists d'. split; [done|]. split; [done|]. exists t1, (t3 ++ []), (Ok p, c1). split; [done|]. split; [done|].
      apply exec_bind. by exists t3, [], d'.
    + destruct H2 as [-> ->]. destruct Hd as (ls & E1 & E2 & E3). cbn [pad lines buffers sizes fst snd]. rewrite E1.
      destruct (set_lines_app [(m, into_line f)] ls (replicate n None)) as (ls' & F1 & F2 & F3); [rewrite E2; by repeat constructor|].
      cbn [set_lines] in F1, F3. exists (MkDemux (buffers d) (sizes d) (Some ls')). split; [cbn [fmap option_fmap option_map]; by rewrite F3|].
      split; [exists ls'; cbn; rewrite F2; by split_and!|]. exists t1, [], (Err f, c1). split; [done|]. split; [done|].
      by rewrite <- F1, <- E1.
  - intros (d' & Ho & Hl & t1 & t2 & [[p|f] c1] & -> & H1 & H2); exists t1, t2.
    + apply exec_bind in H2 as (t3 & t4 & x & -> & H3 & -> & [= -> Hc]). exists (Ok p, c1). split; [done|]. split; [done|].
      apply exec_bind. exists t3, [], (pad n x). split; [done|]. split; [|destruct out; cbn in *; by subst].
      apply (buffer_and_flush_padded (S m)); [done|lia|]. by exists x.
    + destruct H2 as [-> [= -> Hc]]. exists (Err f, c1). split; [done|]. split; [done|]. split; [done|].
      destruct out as [o c]; cbn in *. subst. destruct Hd as (ls & E1 & E2 & E3). cbn [pad lines buffers sizes].
      unfold pad; cbn [lines buffers sizes]. rewrite E1.
      destruct (set_lines_app [(m, into_line f)] ls (replicate n None)) as (ls' & F1 & F2 & F3); [rewrite E2; by repeat constructor|].
      cbn [set_lines] in F1, F3. rewrite F1. f_equal. f_equal. symmetry. exact F3.
Qed.
Lemma ingest_item_lined m item d cache tr d' cache' :
  Lined (S m) d -> exec (ingest_item ctx retry up_trace m item d cache) tr (d', cache') -> Lined (S m) d'.
Proof.
  intros Hd He. rewrite <- (pad_0 _ d Hd) in He. apply ingest_item_padded in He as (x & Hx & Hl & _); [|done].
  cbn [fst] in Hx. by rewrite Hx, (pad_0 _ x Hl).
Qed.
Lemma push_loop_padded m items d cache tr out :
  Lined m d ->
  exec (push_loop ctx retry up_trace m items d cache) tr out
  <-> exec (ingest_loop ctx retry up_trace m items (pad (length items) d) cache) tr out.
Proof.
  revert m d cache tr out. induction items as [|item items IH]; intros m d cache tr out Hd; cbn [push_loop ingest_loop length].
  - by rewrite (pad_0 m).
  - rewrite !exec_bind, pad_push. apply Lined_push in Hd. split.
    + intros (t1 & t2 & [d1 c1] & -> & H1 & H2). pose proof (ingest_item_lined _ _ _ _ _ _ _ Hd H1) as Hl.
      exists t1, t2, (pad (length items) d1, c1). split; [done|]. split; [|by apply IH].
      apply ingest_item_padded; [done|]. by exists d1.
    + intros (t1 & t2 & [x c1] & -> & (d1 & Hx & Hl & H1)%ingest_item_padded & H2); [|done]. cbn [fst snd] in *. subst x.
      exists t1, t2, (d1, c1). split; [done|]. split; [done|]. by apply IH.
Qed.
End Padding.

(** ** The streamed demux against the buffered one *)
Section Equivalence.
Context {Sd : Serde} {W : Wide} {M : Memchr} {R : Router} {E : Type}.
Context (ctx : RequestCtx) (retry : RetryPolicy) (up_trace : option TraceContext).

Definition no_cr (t : bytes) : Prop := Forall (fun line => last line <> Some (byte_of 13)) (split newline t).
(** The text ends with a newline, white space after it apart. *)
Definition ends_line (t : bytes) : Prop := (frame_lines (split newline t)).2 = None.

Lemma strip_cr_none line : last line <> Some (byte_of 13) -> strip_cr line = line.
Proof.
  unfold strip_cr. destruct (last line) as [c|]; [|done]. intros H. destruct (Ascii.eqb_spec c (byte_of 13)); [by subst|done].
Qed.
Lemma all_lines_no_cr ps :
  Forall (fun line => last line <> Some (byte_of 13)) ps ->
  all_lines (frame_lines ps) = List.filter (fun l => negb (blank l)) ps.
Proof.
  induction 1 as [|p ps Hp Hps IH]; [done|]. destruct ps as [|q ps].
  - unfold all_lines. cbn. by destruct (blank p).
  - change (frame_lines (p :: q :: ps))
      with (let '(ls, tail) := frame_lines (q :: ps) in (if blank p then ls else strip_cr p :: ls, tail)).
    change (List.filter (fun l => negb (blank l)) (p :: q :: ps))
      with (if negb (blank p) then p :: List.filter (fun l => negb (blank l)) (q :: ps)
            else List.filter (fun l => negb (blank l)) (q :: ps)).
    rewrite <- IH, (strip_cr_none p Hp). unfold all_lines. destruct (frame_lines (q :: ps)) as [ls tail]. cbn [fst snd].
    by destruct (blank p).
Qed.
Lemma framed_parse t items :
  no_cr t -> parse_bulk t = Ok items -> bulk_stream (all_lines (frame_lines (split newline t))) = Ok items.
Proof.
  intros Hcr Hp. rewrite all_lines_no_cr by exact Hcr. rewrite bulk_stream_eq. unfold parse_bulk in Hp.
  by rewrite non_blank_lines_spec in Hp.
Qed.

Lemma stream_runs (frames : list (BodyFrame E)) items tr o :
  failure frames = [] -> fits (delivered frames) -> no_cr (delivered frames) -> parse_bulk (delivered frames) = Ok items ->
  exec (stream_loop ctx retry up_trace (S (turns (reader_new frames))) 0 (reader_new frames)
          (MkDemux [] [] (Some [])) ∅) tr o
  <-> exists d, exec (ingest_loop ctx retry up_trace 0 items (MkDemux [] [] (Some (replicate (length items) None))) ∅) tr d
      /\ o = match (frame_lines (split newline (delivered frames))).2 with
             | None => Returned (Ok d)
             | Some _ => Panicked
             end.
Proof.
  intros Hfl Hfit Hcr Hp.
  assert (Hg : Good (reader_new frames)) by (split; [done|apply not_elem_of_nil|done|done|exact Hfit]).
  rewrite (stream_loop_pushes ctx retry up_trace _ 0 _ _ _ items); [|done|lia|by apply framed_parse].
  assert (Hl : Lined 0 (MkDemux [] [] (Some []))) by (exists []; split_and!; [done|done|constructor]).
  setoid_rewrite (push_loop_padded ctx retry up_trace 0 items _ _ _ _ Hl). done.
Qed.

Lemma render_some ls : exists r, render (Some ls) = Some r.
Proof. unfold render. cbn. by eexists. Qed.

(** C11: Streaming a bulk body changes nothing. For a body that arrives in any pieces,
    without failing, whose lines are within the cap, end with a plain newline and parse as
    [items], the streamed handler has exactly the runs of the buffered one on [items]: the
    same calls in the same order with the same answers, and the same response. It never
    panics, and never reads past the body. *)
Theorem streamed_bulk_is_buffered_bulk (frames : list (BodyFrame E)) items tr o :
  failure frames = [] -> fits (delivered frames) -> no_cr (delivered frames) -> ends_line (delivered frames) ->
  parse_bulk (delivered frames) = Ok items ->
  exec (ingest_bulk_streamed ctx retry up_trace frames) tr o
  <-> exists out, o = Returned out /\ exec (ingest_items ctx retry up_trace items) tr (Some out).
Proof.
  intros Hfl Hfit Hcr Hend Hp. unfold ingest_bulk_streamed, ingest_items. rewrite !exec_bind.
  pose proof (fun t x => stream_runs frames items t x Hfl Hfit Hcr Hp) as Hrun. rewrite Hend in Hrun. split.
  - intros (t1 & t2 & x & -> & (d & Hd & ->)%Hrun & (t3 & t4 & ls & -> & H1 & -> & ->)%exec_bind).
    assert (Hi : exec (ingest_items ctx retry up_trace items) (t1 ++ t3 ++ []) (render ls)).
    { apply exec_bind. exists t1, (t3 ++ []), d. split; [done|]. split; [done|]. apply exec_bind. by exists t3, [], ls. }
    destruct (ingest_items_safe ctx retry up_trace items _ _ Hi) as (_ & ls' & _ & _ & _ & Hr & _).
    destruct (render_some ls') as [r Hr']. rewrite Hr, Hr' in *. exists r. split; [done|].
    exact Hi.
  - intros (out & -> & (t1 & t2 & d & -> & H1 & (t3 & t4 & ls & -> & H2 & -> & Hr)%exec_bind)%exec_bind).
    exists t1, (t3 ++ []), (Returned (Ok d)). split; [done|]. split; [apply Hrun; by exists d|].
    apply exec_bind. exists t3, [], ls. split; [done|]. split; [done|]. split; [done|]. by rewrite <- Hr.
Qed.

(** A streamed bulk whose last line has no newline brings the handler down. The
    reader hands out that line and leaves its scan position past the end of the buffer it
    emptied, so the read that follows slices out of range: every item has been prepared,
    what is left in the buffers is never written, and no response is made. The buffered
    handler answers the same body. *)
Theorem streamed_bulk_panics_without_final_newline (frames : list (BodyFrame E)) items tr o :
  failure frames = [] -> fits (delivered frames) -> no_cr (delivered frames) -> ~ ends_line (delivered frames) ->
  parse_bulk (delivered frames) = Ok items ->
  exec (ingest_bulk_streamed ctx retry up_trace frames) tr o
  <-> o = Panicked
      /\ exists d, exec (ingest_loop ctx retry up_trace 0 items (MkDemux [] [] (Some (replicate (length items) None))) ∅) tr d.
Proof.
  intros Hfl Hfit Hcr Hend Hp. unfold ingest_bulk_streamed. rewrite exec_bind.
  pose proof (fun t x => stream_runs frames items t x Hfl Hfit Hcr Hp) as Hrun. unfold ends_line in Hend.
  destruct ((frame_lines _).2) as [tail|]; [|done]. split.
  - intros (t1 & t2 & x & -> & (d & Hd & ->)%Hrun & -> & ->). rewrite app_nil_r. split; [done|]. by exists d.
  - intros (-> & d & Hd). exists tr, [], Panicked. rewrite app_nil_r. split; [done|]. split; [|done].
    apply Hrun. by exists d.
Qed.
End Equivalence.

(** ** Bodies in pieces *)
Section Runs.
#[local] Existing Instance scalar_wide.
#[local] Existing Instance bulk_serde.
#[local] Existing Instance bulk_router.
Definition in_pieces : list (BodyFrame unit) := [Data (take 7 bulk_body); Trailers; Data (drop 7 bulk_body)].
(** The same without the last newline. *)
Definition cut_short : list (BodyFrame unit) := [Data (take (length bulk_body - 1) bulk_body)].
Definition stream_run (frames : list (BodyFrame unit)) :=
  interp bulk_world (ingest_bulk_streamed bulk_ctx retry_default None frames) 0.

Definition written_ids (tr : list event) : list (option str) :=
  (fun op => match w_doc op with OpIndex id _ _ => id | _ => None end) <$> written tr.
Definition body_of (o : Outcome (Result PipelineResponse RequestError)) : bytes :=
  match o with Returned (Ok resp) => resp_body resp | _ => [] end.
Example streamed_run :
  written_ids (stream_run in_pieces).1.1 = [Some (lit "acme:v")] /\ length (stream_run in_pieces).1.1 = 4
  /\ body_of (stream_run in_pieces).1.2 = match bulk_run.1.2 with Some r => body_of (Returned r) | None => [] end.
Proof. split_and!; vm_compute; reflexivity. Qed.
(** Both items are resolved; nothing is written, though the gate would have let one through. *)
Example cut_short_run : (stream_run cut_short).1.2 = Panicked /\ length (stream_run cut_short).1.1 = 1 /\ written_ids (stream_run cut_short).1.1 = [].
Proof. split; [reflexivity|split; vm_compute; reflexivity]. Qed.

Lemma streamed_bulk_is_buffered_bulk_witness :
  exists out, (stream_run in_pieces).1.2 = Returned out
  /\ exec (ingest_items bulk_ctx retry_default None bulk_items) (stream_run in_pieces).1.1 (Some out).
Proof.
  apply (streamed_bulk_is_buffered_bulk bulk_ctx retry_default None in_pieces bulk_items).
  - reflexivity.
  - apply (bool_decide_unpack _). vm_compute. exact I.
  - apply (bool_decide_unpack _). vm_compute. exact I.
  - vm_compute. reflexivity.
  - vm_compute. reflexivity.
  - apply (interp_exec bulk_world (ingest_bulk_streamed bulk_ctx retry_default None in_pieces) 0).
Defined.
Lemma streamed_bulk_panics_without_final_newline_witness :
  (stream_run cut_short).1.2 = Panicked
  /\ exists d, exec (ingest_loop bulk_ctx retry_default None 0 bulk_items
       (MkDemux [] [] (Some (replicate (length bulk_items) None))) ∅) (stream_run cut_short).1.1 d.
Proof.
  apply (streamed_bulk_panics_without_final_newline bulk_ctx retry_default None cut_short bulk_items).
  - reflexivity.
  - apply (bool_decide_unpack _). vm_compute. exact I.
  - apply (bool_decide_unpack _). vm_compute. exact I.
  - vm_compute. discriminate.
  - vm_compute. reflexivity.
  - apply (interp_exec bulk_world (ingest_bulk_streamed bulk_ctx retry_default None cut_short) 0).
Defined.
End Runs.
