(* ===== verification/BulkQueue.v ===== *)
(** * The bulk that is queued ([crates/osproxy-engine/src/bulk.rs])

    In the async write mode each operation of a bulk is prepared as in the sync mode and
    then put on the write queue under an id of its own. *)
From stdpp Require Import base option list strings numbers sets gmap pretty.
From Stdlib Require Import Ascii ZArith Lia.
From S2P Require Import Prelude.
From S2P Require Import JsonScan.
From S2P Require Import JsonProps.
From S2P Require Import Trace.
From S2P Require Import CoreTypes.
From S2P Require Import Serde.
From S2P Require Import ToySerde.
From S2P Require Import DocId.
From S2P Require Import Bulk.
From S2P Require Import Spi.
From S2P Require Import Tenancy.
From S2P Require Import Sink.
From S2P Require Import Plan.
From S2P Require Import Prog.
From S2P Require Import Effects.
From S2P Require Import Retry.
From S2P Require Import AsyncWrite.
From S2P Require Import BulkPrep.
From S2P Require Import BulkFlow.
From S2P Require Import BulkLedger.


Open Scope osp_scope.

Section Queued.
Context {Sd : Serde} {W : Wide} {M : Memchr} {R : Router}.
Context (queue_enabled : bool) (ctx : RequestCtx) (retry : RetryPolicy) (up_trace : option TraceContext).

(** [format!("{batch_id}:{ordinal}")]. *)
Definition item_op_id (batch_id : str) (ordinal : nat) : str := batch_id ++ lit ":" ++ lit (pretty ordinal).
Definition queue_item (batch_id : str) (ordinal : nat) (item : BulkItem) (cache : ResolutionCache)
    : prog (Line * ResolutionCache) :=
  if bool_decide (bi_action item = Update) || bi_concurrency_control item then
    Ret (line_error (keyword (bi_action item)) (default (logical_index ctx) (bi_index item)) (bi_id item) 400
           (lit "unsupported_async"), cache)
  else
    await! (r, cache) := prepare ctx cache item retry up_trace in
    match r with
    | Ok p =>
        let op_id := item_op_id batch_id ordinal in
        await! ack := call (Enqueue (MkQueuedWrite op_id (p_partition p) (batch_single (p_op p)))) in
        Ret (match ack with Ok _ => queued_line p op_id | Err _ => enqueue_failed_line p end, cache)
    | Err f => Ret (into_line f, cache)
    end.
Fixpoint queue_loop (batch_id : str) (ordinal : nat) (items : list BulkItem) (lines : Lines) (cache : ResolutionCache)
    : prog Lines :=
  match items with
  | [] => Ret lines
  | item :: items =>
      await! (line, cache) := queue_item batch_id ordinal item cache in
      queue_loop batch_id (S ordinal) items (set_line lines ordinal line) cache
  end.
(** [None]: the handler panicked. *)
Definition ingest_bulk_async : prog (option (Result PipelineResponse RequestError)) :=
  let index := logical_index ctx in
  match unsupported_async ctx with
  | Some reason => Ret (Some (Ok (unsupported_response reason index)))
  | None =>
      if negb queue_enabled then Ret (Some (Ok (unavailable_response index)))
      else match parse_bulk (ctx_body ctx) with
      | Err e => Ret (Some (Err (ReqRewrite e)))
      | Ok items =>
          let batch_id := op_id_for ctx (request_id ctx) in
          await! lines := queue_loop batch_id 0 items (Some (replicate (length items) None)) ∅ in
          Ret (render lines)
      end
  end.

(** ** What is queued *)
Context (items : list BulkItem).

(** The operation at [ordinal] of the body, prepared, under its own id. *)
Definition QueuedItem (past : list event) (w : QueuedWrite) (ordinal : nat) (p : Prepared) : Prop :=
  exists item, items !! ordinal = Some item /\ PrepOf ctx up_trace past item p
  /\ bi_action item <> Update /\ bi_concurrency_control item = false
  /\ w = MkQueuedWrite (item_op_id (op_id_for ctx (request_id ctx)) ordinal) (p_partition p) (batch_single (p_op p)).
Definition queued_ok (past : list event) (e : event) : Prop :=
  match e with
  | Ev (Enqueue w) _ => exists ordinal p, QueuedItem past w ordinal p
  | e => asking e
  end.
(** What line an item gets. *)
Definition LineOf (past : list event) (ordinal : nat) (item : BulkItem) (l : Line) : Prop :=
  if bool_decide (bi_action item = Update) || bi_concurrency_control item then
    l = line_error (keyword (bi_action item)) (item_index ctx item) (bi_id item) 400 (lit "unsupported_async")
  else (exists f, FailOf ctx past item f /\ l = into_line f)
    \/ exists p w r, QueuedItem past w ordinal p /\ Ev (Enqueue w) r ∈ past
         /\ l = if is_ok r then queued_line p (qw_op_id w) else enqueue_failed_line p.

Lemma QueuedItem_mono past past' w ordinal p : past ⊆ past' -> QueuedItem past w ordinal p -> QueuedItem past' w ordinal p.
Proof.
  intros Hp (item & H1 & H2 & H3). exists item. split; [done|]. split; [by eapply PrepOf_mono|done].
Qed.
Lemma queued_ok_mono past past' e : past ⊆ past' -> queued_ok past e -> queued_ok past' e.
Proof.
  intros Hp. destruct e as [B []]; try done. intros (ordinal & p & H). exists ordinal, p. by eapply QueuedItem_mono.
Qed.
Lemma asking_queued_ok past e : asking e -> queued_ok past e.
Proof. by destruct e as [B []]. Qed.
Lemma LineOf_mono past past' ordinal item l : past ⊆ past' -> LineOf past ordinal item l -> LineOf past' ordinal item l.
Proof.
  intros Hp. unfold LineOf. destruct (_ || _); [done|]. intros [(f & H1 & H2)|(p & w & r & H1 & H2 & H3)]; [left; exists f; split; [by eapply FailOf_mono|done]|]. right.
  exists p, w, r. split; [by eapply QueuedItem_mono|]. auto.
Qed.

Lemma queue_item_safe past ordinal item cache :
  items !! ordinal = Some item -> CacheOk ctx past cache ->
  safe queued_ok past (queue_item (op_id_for ctx (request_id ctx)) ordinal item cache) (fun tr out =>
    CacheOk ctx (tr ++ past) out.2 /\ written tr = [] /\ LineOf (tr ++ past) ordinal item out.1).
Proof.
  intros Hi Hc. unfold queue_item, LineOf.
  destruct (bool_decide (bi_action item = Update) || bi_concurrency_control item) eqn:Hu; [by apply safe_ret|].
  apply orb_false_iff in Hu as [Hu%bool_decide_eq_false Hcc].
  eapply (safe_bind _ queued_ok_mono); [by apply prepare_safe; [apply queued_ok_mono|apply asking_queued_ok|]|].
  intros tr [[p|f] cache'] (Hc' & Hw%asking_writes_none & Hr); cbn [fst snd] in *.
  - set (w := MkQueuedWrite _ _ _). assert (Hq : QueuedItem (tr ++ past) w ordinal p) by (by exists item).
    eapply (safe_bind _ queued_ok_mono).
    + apply (safe_call _ _ _ (fun tr' r => tr' = [Ev (Enqueue w) r])). intros r. split; [|done]. by exists ordinal, p.
    + intros tr' r ->. apply safe_ret. rewrite app_nil_r. cbn [fst snd].
      assert (Hsub : tr ++ past ⊆ (tr ++ [Ev (Enqueue w) r]) ++ past) by set_solver.
      split; [by eapply CacheOk_mono|]. split; [by rewrite written_app, Hw|]. right. exists p, w, r.
      split; [by eapply QueuedItem_mono|]. split; [set_solver|]. by destruct r.
  - apply safe_ret. rewrite app_nil_r. split; [done|]. split; [done|]. left. by exists f.
Qed.
Lemma queue_loop_safe its past ordinal ls cache :
  (forall i, its !! i = items !! (ordinal + i)) -> ordinal + length its = length items -> CacheOk ctx past cache ->
  length ls = length items ->
  (forall i item, i < ordinal -> items !! i = Some item -> exists l, ls !! i = Some (Some l) /\ LineOf past i item l) ->
  safe queued_ok past (queue_loop (op_id_for ctx (request_id ctx)) ordinal its (Some ls) cache) (fun tr out =>
    exists ls', out = Some ls' /\ length ls' = length items /\ written tr = []
    /\ forall i item, items !! i = Some item -> exists l, ls' !! i = Some (Some l) /\ LineOf (tr ++ past) i item l).
Proof.
  revert past ordinal ls cache. induction its as [|item its IH]; intros past k ls cache Hits Hlen Hc Hls Hdone;
    cbn [queue_loop length] in *.
  - apply safe_ret. exists ls. split; [done|]. split; [done|]. split; [done|]. intros i item Hi. apply Hdone; [|done].
    apply lookup_lt_Some in Hi. lia.
  - assert (Hi : items !! k = Some item) by (specialize (Hits 0); rewrite Nat.add_0_r in Hits; by rewrite <- Hits).
    eapply (safe_bind _ queued_ok_mono); [by apply queue_item_safe|].
    intros tr [l cache'] (Hc' & Hw & Hl); cbn [fst snd] in *. unfold set_line; cbn [mbind option_bind].
    rewrite (proj2 (Nat.ltb_lt k (length ls))) by lia.
    eapply (safe_mono _ queued_ok_mono _ _ _ _ _ (fun x Hx => Hx));
      [|apply IH; [|lia|exact Hc'|by rewrite length_insert|]].
    + intros tr' out (ls' & H1 & H2 & H3 & H4). exists ls'. split; [done|]. split; [done|].
      split; [by rewrite written_app, Hw|]. intros i it Hit. destruct (H4 i it Hit) as (l' & H5 & H6). exists l'.
      split; [done|]. eapply LineOf_mono; [|exact H6]. set_solver.
    + intros i. specialize (Hits (S i)). rewrite Nat.add_succ_r in Hits. exact Hits.
    + intros i it Hik Hit. destruct (decide (i = k)) as [->|Hne].
      * exists l. split; [apply list_lookup_insert_eq; lia|]. by simplify_eq.
      * destruct (Hdone i it) as (l' & H5 & H6); [lia|done|]. exists l'.
        split; [by rewrite list_lookup_insert_ne|]. eapply LineOf_mono; [|exact H6]. set_solver.
Qed.
End Queued.

Section Contract.
Context {Sd : Serde} {W : Wide} {M : Memchr} {R : Router}.
Context (ctx : RequestCtx) (retry : RetryPolicy) (up_trace : option TraceContext).

Lemma item_op_id_inj batch_id i j : item_op_id batch_id i = item_op_id batch_id j -> i = j.
Proof.
  unfold item_op_id. intros H%app_inv_head%app_inv_head. apply (f_equal String.string_of_list_ascii) in H.
  unfold lit in H. rewrite !String.string_of_list_ascii_of_string in H. by apply (inj pretty).
Qed.

(** A queued bulk answers each item for what became of it, and writes nothing upstream
    itself. Each item has its line in its place: an update, or an operation with a
    concurrency precondition, is refused; one that cannot be prepared gets its own error;
    any other is reported queued if and only if the queue acknowledged exactly its prepared
    operation, keyed by its partition, under the id the line names. Those ids differ from
    item to item. Nothing else is ever put on the queue. *)
Theorem queued_bulk_is_positional items tr out :
  unsupported_async ctx = None -> parse_bulk (ctx_body ctx) = Ok items ->
  exec (ingest_bulk_async true ctx retry up_trace) tr out ->
  guarded (queued_ok ctx up_trace items) [] tr /\ written tr = []
  /\ (forall i j, item_op_id (op_id_for ctx (request_id ctx)) i = item_op_id (op_id_for ctx (request_id ctx)) j -> i = j)
  /\ exists ls, out = render (Some ls) /\ length ls = length items
     /\ forall i item, items !! i = Some item -> exists l, ls !! i = Some (Some l) /\ LineOf ctx up_trace items tr i item l.
Proof.
  intros Hu Hp. unfold ingest_bulk_async. rewrite Hu, Hp. cbn [negb].
  intros (t1 & t2 & x & -> & H1 & -> & ->)%exec_bind. rewrite app_nil_r.
  destruct (queue_loop_safe ctx retry up_trace items items [] 0 (replicate (length items) None) ∅) with (tr := t1) (a := x)
    as (Hg & ls & -> & H2 & H3 & H4); [done|done|apply empty_cache|by rewrite length_replicate|intros; lia|done|].
  rewrite app_nil_r in H4. split; [done|]. split; [done|]. split; [intros i j; apply item_op_id_inj|].
  by exists ls.
Qed.
End Contract.

Section Runs.
#[local] Existing Instance scalar_wide.
#[local] Existing Instance bulk_serde.
#[local] Existing Instance bulk_router.
Definition queue_run := interp bulk_world (ingest_bulk_async true bulk_ctx retry_default None) 0.

Example queue_run_ids :
  omap (fun e => match e with Ev (Enqueue w) _ => Some (qw_op_id w, qw_partition_key w) | _ => None end) queue_run.1.1
  = [(lit "r1:0", lit "acme"); (lit "r1:1", lit "acme")].
Proof. vm_compute. reflexivity. Qed.

Lemma queued_bulk_is_positional_witness :
  guarded (queued_ok bulk_ctx None bulk_items) [] queue_run.1.1 /\ written queue_run.1.1 = []
  /\ (forall i j, item_op_id (op_id_for bulk_ctx (request_id bulk_ctx)) i
        = item_op_id (op_id_for bulk_ctx (request_id bulk_ctx)) j -> i = j)
  /\ exists ls, queue_run.1.2 = render (Some ls) /\ length ls = length bulk_items
     /\ forall i item, bulk_items !! i = Some item ->
          exists l, ls !! i = Some (Some l) /\ LineOf bulk_ctx None bulk_items queue_run.1.1 i item l.
Proof.
  apply (queued_bulk_is_positional bulk_ctx retry_default None bulk_items).
  - reflexivity.
  - vm_compute. reflexivity.
  - apply (interp_exec bulk_world (ingest_bulk_async true bulk_ctx retry_default None) 0).
Defined.
End Runs.
