(* ===== verification/ReqTrace.v ===== *)
(** * The trace of a request ([crates/osproxy-observe/src/trace.rs],
    [crates/osproxy-engine/src/observe.rs])

    What each stage of a request leaves behind: identifiers, names, labels and sizes. *)
From stdpp Require Import base option list strings numbers sets.
From Stdlib Require Import Ascii ZArith Lia.
From S2P Require Import Prelude.
From S2P Require Import JsonScan.
From S2P Require Import Trace.
From S2P Require Import CoreTypes.
From S2P Require Import Serde.
From S2P Require Import DocId.
From S2P Require Import Spi.
From S2P Require Import Tenancy.
From S2P Require Import Sink.
From S2P Require Import Plan.

Open Scope osp_scope.

Record IngressInfo : Type := MkIngressInfo { ii_protocol : str; ii_tls_suite : option str; ii_tls_reused : option bool }.
Record ClassifyInfo : Type := MkClassifyInfo { ci_endpoint : EndpointKind; ci_logical_index : IndexName }.
Record ResolveInfo : Type := MkResolveInfo {
  ri_partition : PartitionId;
  ri_placement_kind : str;
  ri_cluster : ClusterId;
  ri_index : IndexName;
  ri_epoch : Epoch;
  ri_inject_fields : list FieldName;
  ri_routing : bool;
  ri_migration : str
}.
Record RewriteInfo : Type := MkRewriteInfo { wi_transform_kind : str; wi_body_bytes : Z }.
Record DispatchInfo : Type := MkDispatchInfo { di_cluster : ClusterId; di_upstream_status : Z; di_pool_reuse : bool }.
Record EgressInfo : Type := MkEgressInfo { ei_status : Z; ei_response_bytes : Z }.

Record RequestTrace : Type := MkRequestTrace {
  rt_context : option TraceContext;
  rt_ingress : option IngressInfo;
  rt_classify : option ClassifyInfo;
  rt_resolve : option ResolveInfo;
  rt_rewrite : option RewriteInfo;
  rt_dispatch : option DispatchInfo;
  rt_egress : option EgressInfo;
  rt_error : option ErrorContext
}.
Definition trace_new : RequestTrace := MkRequestTrace None None None None None None None None.
Definition record_context (c : TraceContext) (t : RequestTrace) : RequestTrace :=
  MkRequestTrace (Some c) (rt_ingress t) (rt_classify t) (rt_resolve t) (rt_rewrite t) (rt_dispatch t) (rt_egress t) (rt_error t).
Definition record_ingress (i : IngressInfo) (t : RequestTrace) : RequestTrace :=
  MkRequestTrace (rt_context t) (Some i) (rt_classify t) (rt_resolve t) (rt_rewrite t) (rt_dispatch t) (rt_egress t) (rt_error t).
Definition record_classify (i : ClassifyInfo) (t : RequestTrace) : RequestTrace :=
  MkRequestTrace (rt_context t) (rt_ingress t) (Some i) (rt_resolve t) (rt_rewrite t) (rt_dispatch t) (rt_egress t) (rt_error t).
Definition record_resolve (i : ResolveInfo) (t : RequestTrace) : RequestTrace :=
  MkRequestTrace (rt_context t) (rt_ingress t) (rt_classify t) (Some i) (rt_rewrite t) (rt_dispatch t) (rt_egress t) (rt_error t).
Definition record_rewrite (i : RewriteInfo) (t : RequestTrace) : RequestTrace :=
  MkRequestTrace (rt_context t) (rt_ingress t) (rt_classify t) (rt_resolve t) (Some i) (rt_dispatch t) (rt_egress t) (rt_error t).
Definition record_dispatch (i : DispatchInfo) (t : RequestTrace) : RequestTrace :=
  MkRequestTrace (rt_context t) (rt_ingress t) (rt_classify t) (rt_resolve t) (rt_rewrite t) (Some i) (rt_egress t) (rt_error t).
Definition record_egress (i : EgressInfo) (t : RequestTrace) : RequestTrace :=
  MkRequestTrace (rt_context t) (rt_ingress t) (rt_classify t) (rt_resolve t) (rt_rewrite t) (rt_dispatch t) (Some i) (rt_error t).
Definition record_error (e : ErrorContext) (t : RequestTrace) : RequestTrace :=
  MkRequestTrace (rt_context t) (rt_ingress t) (rt_classify t) (rt_resolve t) (rt_rewrite t) (rt_dispatch t) (rt_egress t) (Some e).
Definition failed (t : RequestTrace) : bool := match rt_error t with Some _ => true | None => false end.
Definition resolved_partition (t : RequestTrace) : option PartitionId := ri_partition <$> rt_resolve t.

(** ** [observe.rs] of the engine *)
Section Derive.
Context {Sd : Serde}.

Definition inject_field_names (tr : BodyTransform) : list FieldName :=
  match tr with
  | Inject fields | Both fields _ => inj_name <$> fields
  | TransformNone | ConstructId _ => []
  end.
Definition routing_enabled (tr : BodyTransform) : bool :=
  match tr with
  | ConstructId rule | Both _ rule => set_routing rule
  | TransformNone | Inject _ => false
  end.
Definition transform_kind (tr : BodyTransform) : str :=
  match tr with
  | TransformNone => lit "none"
  | Inject _ => lit "inject"
  | ConstructId _ => lit "construct_id"
  | Both _ _ => lit "inject+construct_id"
  end.
Definition resolve_info (resolved : Resolved) : ResolveInfo :=
  let decision := r_decision resolved in
  let transform := body_transform decision in
  MkResolveInfo (r_partition resolved)
    (match inject_field_names transform with [] => lit "dedicated" | _ => lit "shared_index" end)
    (cluster (target decision)) (index (target decision)) (epoch decision)
    (inject_field_names transform) (routing_enabled transform) (phase_as_str (r_migration resolved)).
Definition doc_bytes (d : DocOp) : Z :=
  match d with
  | OpIndex _ _ b | OpCreate _ _ b | OpUpdate _ _ b => Z.of_nat (length b)
  | OpDelete _ _ => 0
  end.
Definition rewrite_info (resolved : Resolved) (batch : WriteBatch) : RewriteInfo :=
  MkRewriteInfo (transform_kind (body_transform (r_decision resolved)))
    (match ops batch with op :: _ => doc_bytes (w_doc op) | [] => 0%Z end).
Definition dispatch_info (resolved : Resolved) (ack : WriteAck) : DispatchInfo :=
  MkDispatchInfo (cluster (target (r_decision resolved)))
    (match results ack with r :: _ => res_status r | [] => 0%Z end) (ack_pool_reuse ack).
Definition read_dispatch_info (resolved : Resolved) (upstream_status : Z) (pool_reuse : bool) : DispatchInfo :=
  MkDispatchInfo (cluster (target (r_decision resolved))) upstream_status pool_reuse.

Definition remediation_for (err : RequestError) : str :=
  match err with
  | ReqSpi (SpiPartitionUnresolved _) => lit "ensure the request carries the configured partition key"
  | ReqSpi (SpiPlacementMissing _) => lit "register a placement for the partition"
  | ReqSpi (SpiPlacementBackend _) => lit "retry; the placement backend is unavailable"
  | ReqSpi (SpiUnsupportedEndpoint _) => lit "endpoint is not supported for tenancy rewrite in this version"
  | ReqSpi (SpiIdRuleMissingPartition | SpiPrincipalAttrMissing _) => lit "fix the tenancy configuration"
  | ReqSpi _ => lit "routing failed; consult the error code reference"
  | ReqRewrite _ => lit "the document body is malformed or collides with a reserved field"
  | ReqSink _ => lit "the upstream cluster failed; retry if retryable"
  | ReqStaleEpoch _ => lit "the partition is migrating; retry to re-resolve the new placement"
  | ReqInternal _ => lit "internal error; inspect logs"
  | ReqCursor _ => lit "the scroll/PIT cursor is expired or invalid; re-issue the originating search"
  | ReqPayloadTooLarge _ => lit "the request body exceeds a size cap; split the batch or shrink the document"
  end.
Definition chain_for (err : RequestError) : DecisionChain :=
  match err with
  | ReqSpi (SpiPlacementMissing partition) => MkDecisionChain None (Some partition) None None
  | _ => chain_new
  end.
Definition error_context (err : RequestError) : ErrorContext :=
  with_chain (context_new (req_code err) (req_retryable err) (remediation_for err)) (chain_for err).
End Derive.
