(* ===== verification/CursorBody.v ===== *)
(** * Cursor ids in requests and responses ([crates/osproxy-engine/src/cursor.rs])

    Which query parameters go upstream, and finding, wrapping and unwrapping the scroll
    and point-in-time ids that travel in bodies. *)
From stdpp Require Import base option list strings numbers sets.
From Stdlib Require Import Ascii ZArith Lia.
From S2P Require Import Prelude.
From S2P Require Import JsonScan.
From S2P Require Import JsonGrammar.
From S2P Require Import JsonProps.
From S2P Require Import CoreTypes.
From S2P Require Import Serde.
From S2P Require Import ToySerde.
From S2P Require Import Hex.
From S2P Require Import Cursor.
From S2P Require Import Spi.
From S2P Require Import AsyncWrite.

Open Scope osp_scope.

Definition FORWARDABLE_PARAMS : list str := [lit "scroll"; lit "keep_alive"].
Definition forwardable (pair : str) : bool := one_of (pair_key pair) FORWARDABLE_PARAMS.
Definition forwardable_query (raw : option str) : option str :=
  raw ← raw;
  match List.filter forwardable (split "&" raw) with
  | [] => None
  | kept => Some (join (lit "&") kept)
  end.

(** The substring search of the [memchr] crate. *)
Class Memmem := {
  memmem_find : bytes -> bytes -> option nat;
  memmem_spec : forall body needle, is_Some (memmem_find body needle) <-> exists a b, body = a ++ needle ++ b
}.
Fixpoint find_slice (l needle : bytes) : option nat :=
  if starts_with needle l then Some 0
  else match l with [] => None | _ :: l => S <$> find_slice l needle end.
Lemma find_slice_spec l needle : is_Some (find_slice l needle) <-> exists a b, l = a ++ needle ++ b.
Proof.
  induction l as [|c l IH]; cbn [find_slice]; (destruct (starts_with needle _) eqn:Hs;
    [apply starts_with_spec in Hs as [r ->]; split; [intros _; by exists [], r|done]|]).
  - split; [by intros []|]. intros (a & b & He). symmetry in He. apply app_eq_nil in He as [-> [-> ->]%app_eq_nil]. done.
  - rewrite fmap_is_Some, IH. split; [intros (a & b & ->); by exists (c :: a), b|].
    intros ([|d a] & b & He); [|by exists a, b; injection He].
    cbn in He. rewrite He in Hs. assert (Ht : starts_with needle (needle ++ b) = true) by (apply starts_with_spec; by exists b).
    congruence.
Qed.
#[export] Program Instance scalar_memmem : Memmem := {| memmem_find := find_slice |}.
Next Obligation. apply find_slice_spec. Qed.
Definition has_scroll_id `{Memmem} (b : bytes) : bool :=
  match memmem_find b (lit "_scroll_id") with Some _ => true | None => false end.

Record CursorRequest : Type := MkCursorRequest { cr_wrapped : str; cr_upstream_path : str; cr_id_field : str }.

Section Bodies.
Context {Sd : Serde}.

(** [v[key] = x] on an object. *)
Definition value_set (v : value) (key : str) (x : value) : value :=
  match v with Object m => Object (map_insert m key x) | _ => v end.
Definition str_at (v : value) (key : str) : option str := value_get v key ≫= as_str.

Definition pit_id_in_body (b : bytes) : option str :=
  v ← from_slice b; pit ← value_get v (lit "pit"); id ← value_get pit (lit "id"); as_str id.
Definition rewrite_pit_id (b : bytes) (real_id : str) : bytes :=
  match from_slice b with
  | Some v =>
      match value_get v (lit "pit") ≫= as_object with
      | Some pit =>
          default b (to_vec (value_set v (lit "pit") (Object (map_insert pit (lit "id") (String real_id)))))
      | None => b
      end
  | None => b
  end.
Definition pit_ids_in_delete_body (b : bytes) : option (list str) :=
  v ← from_slice b; ids ← value_get v (lit "pit_id") ≫= as_array;
  match omap as_str ids with [] => None | ids => Some ids end.

Definition cursor_request (ctx : RequestCtx) : option CursorRequest :=
  match doc_id ctx with
  | Some id => Some (MkCursorRequest id (lit "/_search/scroll") (lit "scroll_id"))
  | None =>
      v ← from_slice (ctx_body ctx);
      id ← str_at v (lit "scroll_id");
      Some (MkCursorRequest id (lit "/_search/scroll") (lit "scroll_id"))
  end.
Definition rewrite_cursor_body (client_body : bytes) (id_field real_id : str) : bytes :=
  let v := default (Object [])
             (v ← from_slice client_body; match v with Object _ => Some v | _ => None end) in
  match to_vec (value_set v id_field (String real_id)) with
  | Some out => out
  | None => default (lit "{}") (to_vec (json_object [(id_field, String real_id)]))
  end.

Section Signed.
Context {Sg : CursorSigner}.
(** The two are the same but for the field they wrap. *)
Definition wrap_field_in_response (field : str) (b : bytes) (cluster : ClusterId) : bytes :=
  match from_slice b with
  | Some v =>
      match str_at v field with
      | Some id => default b (to_vec (value_set v field (String (wrap cluster id))))
      | None => b
      end
  | None => b
  end.
Definition wrap_scroll_id_in_response := wrap_field_in_response (lit "_scroll_id").
Definition wrap_pit_id_in_response := wrap_field_in_response (lit "pit_id").
End Signed.
End Bodies.

(** ** The allow-list *)

(** Only the cursor's own parameters go upstream. The query sent is made of exactly
    those pairs of the client's query whose name is [scroll] or [keep_alive], whole and in
    order, and there is none when no pair has such a name; so no parameter that could
    change what a search matches, or widen it past the partition filter in the body,
    leaves the proxy. *)
Theorem forwarded_query_is_allow_listed raw :
  (forwardable_query raw = None <-> forall q, raw = Some q -> List.filter forwardable (split "&" q) = [])
  /\ forall out, forwardable_query raw = Some out ->
       exists q, raw = Some q /\ split "&" out = List.filter forwardable (split "&" q)
       /\ Forall (fun pair => pair_key pair = lit "scroll" \/ pair_key pair = lit "keep_alive") (split "&" out).
Proof.
  unfold forwardable_query. destruct raw as [q|]; cbn [mbind option_bind]; [|by split; [split|]].
  pose proof (split_pieces "&" q) as Hp.
  assert (Hf : Forall (fun p => "&"%char ∉ p) (List.filter forwardable (split "&" q))).
  { apply Forall_forall. intros p Hin%list_elem_of_In. apply filter_In in Hin as [Hin _].
    rewrite Forall_forall in Hp. apply Hp. by apply list_elem_of_In. }
  destruct (List.filter forwardable (split "&" q)) as [|k kept] eqn:Hk.
  - split; [|done]. split; [|done]. by intros _ ? [= <-].
  - split; [split; [done|]; intros H; specialize (H q eq_refl); congruence|].
    intros out <-%(inj Some). exists q. rewrite Hk. change (lit "&") with ["&"%char]. rewrite split_join by done. split; [done|]. split; [done|].
    rewrite <- Hk. apply Forall_forall. intros p Hin%list_elem_of_In. apply filter_In in Hin as [_ Hin].
    unfold forwardable, one_of, FORWARDABLE_PARAMS in Hin. cbn [existsb] in Hin.
    rewrite !orb_true_iff, !str_eqb_eq in Hin. destruct Hin as [H|[H|H]]; [by left|by right|done].
Qed.
Example forwarded_query_runs :
  forwardable_query (Some (lit "q=*&scroll=1m")) = Some (lit "scroll=1m")
  /\ forwardable_query (Some (lit "source={}&analyzer=x")) = None /\ forwardable_query None = None.
Proof. by split_and!. Qed.
