(* ===== verification/FanOut.v ===== *)
(** * Preparing many items and asking for all of them at once

    The shape [crates/osproxy-engine/src/mget.rs] and [msearch.rs] share: prepare the
    items of a body in order, with a cache of resolutions; run what could be prepared
    concurrently; and put each answer at its item's place. *)
From stdpp Require Import base option list strings numbers sets gmap.
From Stdlib Require Import Ascii ZArith Lia.
From S2P Require Import Prelude.
From S2P Require Import JsonScan.
From S2P Require Import CoreTypes.
From S2P Require Import Serde.
From S2P Require Import Spi.
From S2P Require Import Tenancy.
From S2P Require Import Sink.
From S2P Require Import Plan.
From S2P Require Import Prog.
From S2P Require Import Effects.
From S2P Require Import Retry.

Open Scope osp_scope.

(** The placements resolved so far, per logical index. *)
Definition PlacementCache `{Sd : Serde} : Type := gmap str Resolved.

Section Cached.
Context {Sd : Serde} (ctx : RequestCtx) (retry : RetryPolicy) (partition : PartitionId).

Definition resolve_cached (cache : PlacementCache) (index : str) : prog (Result Resolved SpiError * PlacementCache) :=
  match cache !! index with
  | Some r => Ret (Ok r, cache)
  | None =>
      await! r := with_retry retry (ResolvePlacement ctx partition index) in
      Ret (r, match r with Ok r => <[index := r]> cache | Err _ => cache end)
  end.

Definition CacheHolds (past : list event) (cache : PlacementCache) : Prop :=
  forall index r, cache !! index = Some r -> Ev (ResolvePlacement ctx partition index) (Ok r) ∈ past.
Lemma CacheHolds_mono past past' cache : past ⊆ past' -> CacheHolds past cache -> CacheHolds past' cache.
Proof. intros Hp Hc index r Hi. by apply Hp, Hc. Qed.
Lemma CacheHolds_empty past : CacheHolds past ∅.
Proof. intros index r Hi. by apply (lookup_empty_Some (M := gmap str)) in Hi. Qed.

Lemma resolve_cached_safe (before : list event -> event -> Prop) past cache index :
  (forall past past' e, past ⊆ past' -> before past e -> before past' e) ->
  (forall past e, asking e -> before past e) ->
  CacheHolds past cache ->
  safe before past (resolve_cached cache index) (fun tr out =>
    CacheHolds (tr ++ past) out.2 /\ Forall asking tr
    /\ forall r, out.1 = Ok r -> Ev (ResolvePlacement ctx partition index) (Ok r) ∈ tr ++ past).
Proof.
  intros Hmono Hask Hc. unfold resolve_cached. destruct (cache !! index) as [r|] eqn:Hi.
  - apply safe_ret. split; [done|]. split; [done|]. intros ? [= <-]. by apply Hc.
  - eapply (safe_bind _ Hmono); [by apply retry_safe|]. intros tr r [Hr Ha]. apply safe_ret. rewrite app_nil_r. cbn [fst snd].
    split; [|split; [done|intros ? ->; apply elem_of_app; by left]].
    destruct r as [r|]; [|by eapply CacheHolds_mono; [|exact Hc]; set_solver].
    intros k v [[<- <-]|[_ Hk]]%(lookup_insert_Some (M := gmap str)); [apply elem_of_app; by left|].
    apply elem_of_app. right. by apply Hc.
Qed.
End Cached.

Section FanOut.
Context {Sd : Serde} {I P O U L : Type}.
Context (prep : I -> PlacementCache -> prog (Result P L * PlacementCache)).
Context (op_of : P -> O) (ask : O -> Call (Result U SinkError)) (shape : P -> Result U SinkError -> L).

(** [prepared[ordinal] = ..] and [lines[ordinal] = ..]: both have a place per item. *)
Fixpoint prepare_loop (ordinal : nat) (items : list I) (prepared : list (option P)) (lines : list L) (cache : PlacementCache)
    : prog (list (option P) * list L) :=
  match items with
  | [] => Ret (prepared, lines)
  | item :: items =>
      await! (r, cache) := prep item cache in
      match r with
      | Ok p => prepare_loop (S ordinal) items (<[ordinal := Some p]> prepared) lines cache
      | Err line => prepare_loop (S ordinal) items prepared (<[ordinal := line]> lines) cache
      end
  end.
(** The operations, each with the ordinal of its item. *)
Fixpoint ops_from (ordinal : nat) (prepared : list (option P)) : list (nat * O) :=
  match prepared with
  | [] => []
  | Some p :: prepared => (ordinal, op_of p) :: ops_from (S ordinal) prepared
  | None :: prepared => ops_from (S ordinal) prepared
  end.
Definition place (prepared : list (option P)) (lines : list L) (result : nat * Result U SinkError) : list L :=
  match prepared !! result.1 with
  | Some (Some p) => <[result.1 := shape p result.2]> lines
  | _ => lines
  end.
Definition run_all (prepared : list (option P)) (lines : list L) : prog (list L) :=
  Par (ops_from 0 prepared) (fun op => await! r := call (ask op.2) in Ret (op.1, r))
    (fun results => Ret (foldl (place prepared) lines results)).
Definition fan_out (placeholder : L) (items : list I) : prog (list L) :=
  await! (prepared, lines) := prepare_loop 0 items (replicate (length items) None) (replicate (length items) placeholder) ∅ in
  run_all prepared lines.

(** ** What it answers *)
Context (before : list event -> event -> Prop).
Context (CacheInv : list event -> PlacementCache -> Prop) (Good : list event -> I -> P -> Prop) (Bad : list event -> I -> L -> Prop).
Context (before_mono : forall past past' e, past ⊆ past' -> before past e -> before past' e).
Context (Good_mono : forall past past' i p, past ⊆ past' -> Good past i p -> Good past' i p).
Context (Bad_mono : forall past past' i l, past ⊆ past' -> Bad past i l -> Bad past' i l).
Context (prep_safe : forall past cache item, CacheInv past cache ->
  safe before past (prep item cache) (fun tr out => CacheInv (tr ++ past) out.2
    /\ match out.1 with Ok p => Good (tr ++ past) item p | Err l => Bad (tr ++ past) item l end)).
Context (ask_ok : forall past item p r, Good past item p -> before past (Ev (ask (op_of p)) r)).

(** What the item at a place has come to: prepared, with its line not set yet, or failed. *)
Definition Settled (past : list event) (item : I) (slot : option P) (line : L) : Prop :=
  match slot with Some p => Good past item p | None => Bad past item line end.
(** The line of an item once every operation has been answered. *)
Definition Answer (past : list event) (item : I) (line : L) : Prop :=
  Bad past item line \/ exists p r, Good past item p /\ Ev (ask (op_of p)) r ∈ past /\ line = shape p r.

Lemma prepare_loop_safe its all past k prepared lines cache :
  (forall i, its !! i = all !! (k + i)) -> k + length its = length all ->
  length prepared = length all -> length lines = length all -> CacheInv past cache ->
  (forall i, k <= i -> i < length all -> prepared !! i = Some None) ->
  (forall i item, i < k -> all !! i = Some item ->
     exists slot line, prepared !! i = Some slot /\ lines !! i = Some line /\ Settled past item slot line) ->
  safe before past (prepare_loop k its prepared lines cache) (fun tr out =>
    length out.1 = length all /\ length out.2 = length all
    /\ forall i item, all !! i = Some item ->
         exists slot line, out.1 !! i = Some slot /\ out.2 !! i = Some line /\ Settled (tr ++ past) item slot line).
Proof.
  assert (Smono : forall past past' item slot line, past ⊆ past' -> Settled past item slot line -> Settled past' item slot line).
  { intros p1 p2 item [p|] line Hp; cbn; eauto. }
  revert past k prepared lines cache. induction its as [|item its IH]; intros past k prepared lines cache Hits Hlen Hp Hl Hc Hnone Hdone;
    cbn [prepare_loop length] in *.
  - apply safe_ret. split; [done|]. split; [done|]. intros i item Hi. apply Hdone; [|done].
    apply lookup_lt_Some in Hi. lia.
  - assert (Hi : all !! k = Some item) by (specialize (Hits 0); rewrite Nat.add_0_r in Hits; by rewrite <- Hits).
    assert (Hits' : forall i, its !! i = all !! (S k + i))
      by (intros i; specialize (Hits (S i)); rewrite Nat.add_succ_r in Hits; exact Hits).
    eapply (safe_bind _ before_mono); [by apply prep_safe|]. intros tr [r cache'] [Hc' Hr]; cbn [fst snd] in *.
    assert (Hgo : forall prepared' lines',
      length prepared' = length all -> length lines' = length all ->
      (forall i, S k <= i -> i < length all -> prepared' !! i = Some None) ->
      (forall i it, i < S k -> all !! i = Some it ->
         exists slot line, prepared' !! i = Some slot /\ lines' !! i = Some line /\ Settled (tr ++ past) it slot line) ->
      safe before (tr ++ past) (prepare_loop (S k) its prepared' lines' cache') (fun tr' out =>
        length out.1 = length all /\ length out.2 = length all
        /\ forall i it, all !! i = Some it -> exists slot line, out.1 !! i = Some slot /\ out.2 !! i = Some line
             /\ Settled ((tr ++ tr') ++ past) it slot line)).
    { intros prepared' lines' H1 H2 H3 H4. eapply (safe_mono _ before_mono _ _ _ _ _ (fun x Hx => Hx));
        [|apply (IH (tr ++ past)); try done; lia].
      intros tr' out (E1 & E2 & E3). split; [done|]. split; [done|]. intros i it Hit.
      destruct (E3 i it Hit) as (slot & line & F1 & F2 & F3). exists slot, line. split; [done|]. split; [done|].
      eapply Smono; [|exact F3]. set_solver. }
    assert (Hold : forall i it, i < k -> all !! i = Some it -> exists slot line,
      prepared !! i = Some slot /\ lines !! i = Some line /\ Settled (tr ++ past) it slot line).
    { intros i it Hik Hit. destruct (Hdone i it Hik Hit) as (slot & line & F1 & F2 & F3). exists slot, line.
      split; [done|]. split; [done|]. eapply Smono; [|exact F3]. set_solver. }
    assert (Hk : k < length all) by lia.
    destruct r as [p|line].
    + apply Hgo; [by rewrite length_insert|done| |].
      * intros i H1 H2. rewrite list_lookup_insert_ne by lia. apply Hnone; lia.
      * intros i it H1 H2. destruct (decide (i = k)) as [->|Hne].
        -- simplify_eq. destruct (lookup_lt_is_Some_2 lines k) as [line Hline]; [lia|]. exists (Some p), line.
           split; [apply list_lookup_insert_eq; lia|done].
        -- rewrite list_lookup_insert_ne by done. apply Hold; [lia|done].
    + apply Hgo; [done|by rewrite length_insert| |].
      * intros i H1 H2. apply Hnone; lia.
      * intros i it H1 H2. destruct (decide (i = k)) as [->|Hne].
        -- simplify_eq. exists None, line. split; [apply Hnone; lia|]. split; [apply list_lookup_insert_eq; lia|done].
        -- rewrite list_lookup_insert_ne by done. apply Hold; [lia|done].
Qed.

Lemma ops_from_spec k prepared i op :
  (i, op) ∈ ops_from k prepared <-> exists p, k <= i /\ prepared !! (i - k) = Some (Some p) /\ op = op_of p.
Proof.
  revert k. induction prepared as [|[p|] prepared IH]; intros k; cbn [ops_from].
  - split; [by intros ?%not_elem_of_nil|]. by intros (p & _ & Hp & _).
  - rewrite elem_of_cons, IH. split.
    + intros [[= -> ->]|(q & H1 & H2 & ->)]; [exists p; by rewrite Nat.sub_diag|]. exists q.
      split; [lia|]. by replace (i - k) with (S (i - S k)) by lia.
    + intros (q & H1 & H2 & ->). destruct (decide (i = k)) as [->|Hne].
      * rewrite Nat.sub_diag in H2. injection H2 as ->. by left.
      * right. exists q. split; [lia|]. by replace (i - k) with (S (i - S k)) in H2 by lia.
  - rewrite IH. split.
    + intros (q & H1 & H2 & ->). exists q. split; [lia|]. by replace (i - k) with (S (i - S k)) by lia.
    + intros (q & H1 & H2 & ->). destruct (decide (i = k)) as [->|Hne]; [by rewrite Nat.sub_diag in H2|].
      exists q. split; [lia|]. by replace (i - k) with (S (i - S k)) in H2 by lia.
Qed.
Lemma ops_from_keys k prepared : NoDup (ops_from k prepared).*1.
Proof.
  revert k. induction prepared as [|[p|] prepared IH]; intros k; cbn [ops_from fmap list_fmap fst]; [constructor| |done].
  constructor; [|done]. intros ([j op] & -> & (q & H1 & _)%ops_from_spec)%list_elem_of_fmap. cbn in *. lia.
Qed.

(** Results placed in any order: each keeps its own place. *)
Lemma place_all prepared lines results :
  length lines = length prepared -> NoDup results.*1 ->
  length (foldl (place prepared) lines results) = length lines
  /\ (forall i r p, (i, r) ∈ results -> prepared !! i = Some (Some p) ->
        foldl (place prepared) lines results !! i = Some (shape p r))
  /\ (forall i, (forall r p, (i, r) ∈ results -> prepared !! i <> Some (Some p)) ->
        foldl (place prepared) lines results !! i = lines !! i).
Proof.
  revert lines. induction results as [|[j r] results IH]; intros lines Hl Hnd; cbn [foldl].
  { split; [done|]. split; [by intros i r p ?%not_elem_of_nil|done]. }
  inversion Hnd as [|? ? Hj Hnd']; subst. cbn in Hj.
  assert (Hlp : length (place prepared lines (j, r)) = length lines)
    by (unfold place; cbn [fst snd]; repeat case_match; by rewrite ?length_insert).
  destruct (IH (place prepared lines (j, r))) as (H1 & H2 & H3); [by rewrite Hlp|done|].
  assert (Hfresh : forall r', (j, r') ∉ results) by (intros r' Hin; apply Hj, list_elem_of_fmap; by exists (j, r')).
  split; [congruence|]. split.
  - intros i r' p [[= -> ->]|Hin]%elem_of_cons Hp; [|by apply H2]. rewrite H3 by (intros r' q Hin; by destruct (Hfresh r')).
    unfold place. cbn [fst snd]. rewrite Hp. apply list_lookup_insert_eq. rewrite Hl. by apply lookup_lt_Some in Hp.
  - intros i Hno. rewrite H3 by (intros r' q Hin; apply (Hno r'); by right). unfold place. cbn [fst snd].
    destruct (prepared !! j) as [[p|]|] eqn:Hp; [|done..]. apply list_lookup_insert_ne. intros ->.
    apply (Hno r p); [by left|done].
Qed.

Lemma run_all_safe all past prepared lines :
  length prepared = length all -> length lines = length all ->
  (forall i item, all !! i = Some item ->
     exists slot line, prepared !! i = Some slot /\ lines !! i = Some line /\ Settled past item slot line) ->
  safe before past (run_all prepared lines) (fun tr out =>
    length out = length all
    /\ forall i item, all !! i = Some item -> exists line, out !! i = Some line /\ Answer (tr ++ past) item line).
Proof.
  intros Hp Hl Hs. unfold run_all.
  apply (safe_par _ before_mono _ _ _ _ (fun op tr out => out.1 = op.1 /\ Ev (ask op.2) out.2 ∈ tr)).
  - intros [i op] (p & _ & Hslot & ->)%ops_from_spec. rewrite Nat.sub_0_r in Hslot. cbn [fst snd].
    destruct (lookup_lt_is_Some_2 all i) as [item Hi]; [rewrite <- Hp; by apply lookup_lt_Some in Hslot|].
    destruct (Hs i item Hi) as (slot & line & E1 & E2 & E3). simplify_eq. cbn in E3.
    eapply (safe_bind _ before_mono).
    + apply (safe_call _ _ _ (fun tr r => tr = [Ev (ask (op_of p)) r])). intros r. split; [by eapply ask_ok|done].
    + intros tr r ->. apply safe_ret. rewrite app_nil_r. split; [done|]. by apply list_elem_of_singleton.
  - intros done_ tr Hperm Hd Hint. apply safe_ret. rewrite app_nil_r.
    set (results := (fun d => d.2) <$> done_).
    assert (Hkeys : results.*1 = ((fun d => d.1.1) <$> done_).*1).
    { subst results. rewrite <- !list_fmap_compose. apply list_fmap_ext. intros i d Hin%list_elem_of_lookup_2.
      rewrite Forall_forall in Hd. by apply (Hd d). }
    assert (Hnd : NoDup results.*1) by (rewrite Hkeys, <- Hperm; apply ops_from_keys).
    destruct (place_all prepared lines results) as (H1 & H2 & H3); [congruence|done|].
    split; [congruence|]. intros i item Hi. destruct (Hs i item Hi) as (slot & line & E1 & E2 & E3).
    destruct slot as [p|].
    + assert (Hop : (i, op_of p) ∈ (fun d => d.1.1) <$> done_).
      { rewrite <- Hperm. apply ops_from_spec. exists p. rewrite Nat.sub_0_r. split; [lia|done]. }
      apply list_elem_of_fmap in Hop as ([[o t] [j r]] & Ho & Hin). cbn in Ho. subst o.
      rewrite Forall_forall in Hd. destruct (Hd _ Hin) as [Hj Hev]; cbn [fst snd] in *. subst j.
      exists (shape p r). split; [apply H2; [apply list_elem_of_fmap; by exists (i, op_of p, t, (i, r))|done]|].
      right. exists p, r. split; [eapply Good_mono; [|exact E3]; set_solver|]. split; [|done].
      apply elem_of_app. left. rewrite (interleaving_perm _ _ Hint). apply list_elem_of_join. exists t.
      split; [done|]. apply list_elem_of_fmap. by exists (i, op_of p, t, (i, r)).
    + exists line. split; [rewrite H3; [done|by intros r p _; rewrite E1]|]. left.
      eapply Bad_mono; [|exact E3]. set_solver.
Qed.

Lemma fan_out_safe placeholder all past :
  CacheInv past ∅ ->
  safe before past (fan_out placeholder all) (fun tr out =>
    length out = length all
    /\ forall i item, all !! i = Some item -> exists line, out !! i = Some line /\ Answer (tr ++ past) item line).
Proof.
  intros Hc. unfold fan_out. eapply (safe_bind _ before_mono).
  - apply (prepare_loop_safe all all); [done|done|apply length_replicate|apply length_replicate|done| |intros; lia].
    intros i _ Hi. by apply lookup_replicate_2.
  - intros tr [prepared lines] (H1 & H2 & H3); cbn [fst snd] in *.
    eapply (safe_mono _ before_mono _ _ _ _ _ (fun x Hx => Hx)); [|by apply run_all_safe].
    intros tr' out [E1 E2]. split; [done|]. intros i item Hi. destruct (E2 i item Hi) as (line & F1 & F2).
    exists line. split; [done|].
    assert (Hsub : tr' ++ tr ++ past ⊆ (tr ++ tr') ++ past) by set_solver.
    destruct F2 as [F2|(p & r & G1 & G2 & G3)]; [left; by eapply Bad_mono|right]. exists p, r.
    split; [by eapply Good_mono|]. split; [by apply Hsub|done].
Qed.
End FanOut.
