(* ===== verification/MultiRead.v ===== *)
(** * Multi-get and multi-search ([crates/osproxy-engine/src/mget.rs], [msearch.rs])

    Many reads in one body: the partition is the caller's, resolved once; each item's
    placement is resolved, its operation run, and its answer shaped for the client. *)
From stdpp Require Import base option list strings numbers sets gmap pretty.
From Stdlib Require Import Ascii ZArith Lia.
From S2P Require Import Prelude.
From S2P Require Import JsonScan.
From S2P Require Import JsonProps.
From S2P Require Import Trace.
From S2P Require Import CoreTypes.
From S2P Require Import Serde.
From S2P Require Import ToySerde.
From S2P Require Import DocId.
From S2P Require Import Bulk.
From S2P Require Import Spi.
From S2P Require Import Tenancy.
From S2P Require Import Sink.
From S2P Require Import Plan.
From S2P Require Import ReadPath.
From S2P Require Import Prog.
From S2P Require Import Effects.
From S2P Require Import Retry.
From S2P Require Import AsyncWrite.
From S2P Require Import FanOut.
From S2P Require Import BulkPrep.
From S2P Require Import BulkFlow.
From S2P Require Import BulkLedger.

Open Scope osp_scope.

(** What the two handlers keep of a prepared item. *)
Record GetPrepared : Type := MkGetPrepared { gp_op : ReadOp; gp_shape : ReadShape; gp_index : str; gp_id : str }.
Record SearchPrepared : Type := MkSearchPrepared { sp_op : SearchOp; sp_shape : ReadShape; sp_index : str; sp_partition : str }.

Section Multi.
Context {Sd : Serde} {Si : SerdeInt} {M : Memchr} {R : Router}.
Context (ctx : RequestCtx) (retry : RetryPolicy) (up_trace : option TraceContext).

(** ** [mget.rs] *)
Definition error_doc (logical_index logical_id error : str) : value :=
  json_object [(lit "_index", String logical_index); (lit "_id", String logical_id);
               (lit "error", json_object [(lit "type", String error)])].
Definition get_prepare (partition : PartitionId) (item : MgetItem) (cache : PlacementCache)
    : prog (Result GetPrepared value * PlacementCache) :=
  let logical_index := default (logical_index ctx) (mg_index item) in
  await! (resolved, cache) := resolve_cached ctx retry partition cache logical_index in
  Ret (let? resolved := map_err (fun _ => error_doc logical_index (mg_id item) (lit "placement_missing")) resolved in
       let? (op, shape) := map_err (fun _ => error_doc logical_index (mg_id item) (lit "irreversible_id"))
                             (build_read_op resolved (mg_id item)) in
       Ok (MkGetPrepared (read_with_forward_headers (read_with_trace op up_trace) (forward_headers ctx)) shape
             logical_index (mg_id item)),
       cache).
Definition shape_result (p : GetPrepared) (result : Result ReadOutcome SinkError) : value :=
  match result with
  | Ok outcome =>
      let malformed := error_doc (gp_index p) (gp_id p) (lit "malformed_upstream") in
      if ro_found outcome then
        default malformed
          (match shape_found (ro_body outcome) (gp_index p) (gp_id p) (inject_names (gp_shape p)) with
           | Ok b => from_slice b
           | Err _ => None
           end)
      else default malformed (from_slice (not_found_body (gp_index p) (gp_id p)))
  | Err _ => error_doc (gp_index p) (gp_id p) (lit "upstream_failed")
  end.
Definition multi_get : prog (Result PipelineResponse RequestError) :=
  match map_err ReqRewrite (parse_mget (ctx_body ctx)) with
  | Err e => Ret (Err e)
  | Ok items =>
      match map_err ReqSpi (router_resolve_partition ctx []) with
      | Err e => Ret (Err e)
      | Ok partition =>
          await! docs := fan_out (get_prepare partition) gp_op SinkGet shape_result Null items in
          Ret (let? out := ok_or (to_vec (json_object [(lit "docs", Array docs)]))
                             (ReqInternal (lit "serializing mget response")) in
               Ok (MkResponse 200 out None))
      end
  end.

(** ** [msearch.rs] *)
Definition error_response (status : Z) (error : str) : bytes :=
  default (body "{'error':{'type':'internal'},'status':500}")
    (to_vec (json_object [(lit "error", json_object [(lit "type", String error)]); (lit "status", Number (int_num status))])).
Definition search_prepare (partition : PartitionId) (item : MsearchItem) (cache : PlacementCache)
    : prog (Result SearchPrepared bytes * PlacementCache) :=
  let logical_index := default (logical_index ctx) (ms_index item) in
  await! (resolved, cache) := resolve_cached ctx retry partition cache logical_index in
  Ret (let? resolved := map_err (fun _ => error_response 400 (lit "placement_missing")) resolved in
       let? (op, shape) := map_err (fun _ => error_response 400 (lit "invalid_query"))
                             (build_search_op resolved (ms_query item)) in
       Ok (MkSearchPrepared (search_with_forward_headers (search_with_trace op up_trace) (forward_headers ctx)) shape
             logical_index (r_partition resolved)),
       cache).
(** [None]: the shaped body is not an object.  The status is written as its decimal text. *)
Definition with_status (shaped : bytes) (status : Z) : option bytes :=
  top ← raw_object shaped;
  raw_object_to_vec (map_insert top (lit "status") (lit (pretty status))).
Definition shape_response (p : SearchPrepared) (result : Result SearchOutcome SinkError) : bytes :=
  match result with
  | Err _ => error_response 502 (lit "upstream_failed")
  | Ok outcome =>
      match shape_hits (se_body outcome) (sp_index p) (sp_partition p) (sp_shape p) with
      | Ok shaped => default (error_response 502 (lit "malformed_upstream")) (with_status shaped (se_status outcome))
      | Err _ => error_response 502 (lit "malformed_upstream")
      end
  end.
Definition assemble_responses (responses : list bytes) : bytes :=
  body "{'responses':[" ++ join (lit ",") responses ++ lit "]}".
Definition multi_search : prog (Result PipelineResponse RequestError) :=
  match map_err ReqRewrite (parse_msearch (ctx_body ctx)) with
  | Err e => Ret (Err e)
  | Ok items =>
      match map_err ReqSpi (router_resolve_partition ctx []) with
      | Err e => Ret (Err e)
      | Ok partition =>
          await! responses := fan_out (search_prepare partition) sp_op SinkSearch shape_response (lit "null") items in
          Ret (Ok (MkResponse 200 (assemble_responses responses) None))
      end
  end.

(** ** Each item's own answer *)

(** The item's operation is the one the router's decision for the caller's partition and
    the item's index gives. *)
Definition GetOf (partition : PartitionId) (past : list event) (item : MgetItem) (p : GetPrepared) : Prop :=
  exists resolved op, Ev (ResolvePlacement ctx partition (default (logical_index ctx) (mg_index item))) (Ok resolved) ∈ past
  /\ build_read_op resolved (mg_id item) = Ok (op, gp_shape p)
  /\ gp_op p = read_with_forward_headers (read_with_trace op up_trace) (forward_headers ctx)
  /\ gp_index p = default (logical_index ctx) (mg_index item) /\ gp_id p = mg_id item.
Definition GetRefused (past : list event) (item : MgetItem) (line : value) : Prop :=
  exists code, line = error_doc (default (logical_index ctx) (mg_index item)) (mg_id item) code
  /\ (code = lit "placement_missing" \/ code = lit "irreversible_id").
Definition SearchOf (partition : PartitionId) (past : list event) (item : MsearchItem) (p : SearchPrepared) : Prop :=
  exists resolved op, Ev (ResolvePlacement ctx partition (default (logical_index ctx) (ms_index item))) (Ok resolved) ∈ past
  /\ build_search_op resolved (ms_query item) = Ok (op, sp_shape p)
  /\ sp_op p = search_with_forward_headers (search_with_trace op up_trace) (forward_headers ctx)
  /\ sp_index p = default (logical_index ctx) (ms_index item) /\ sp_partition p = r_partition resolved.
Definition SearchRefused (past : list event) (item : MsearchItem) (line : bytes) : Prop :=
  line = error_response 400 (lit "placement_missing") \/ line = error_response 400 (lit "invalid_query").

Section Safe.
Context (before : list event -> event -> Prop) (partition : PartitionId).
Context (before_mono : forall past past' e, past ⊆ past' -> before past e -> before past' e).
Context (asking_before : forall past e, asking e -> before past e).

Lemma get_prepare_safe past cache item :
  CacheHolds ctx partition past cache ->
  safe before past (get_prepare partition item cache) (fun tr out => CacheHolds ctx partition (tr ++ past) out.2
    /\ match out.1 with Ok p => GetOf partition (tr ++ past) item p | Err l => GetRefused (tr ++ past) item l end).
Proof.
  intros Hc. unfold get_prepare. eapply (safe_bind _ before_mono); [by apply resolve_cached_safe|].
  intros tr [[resolved|e] cache'] (Hc' & _ & Hr); apply safe_ret; rewrite app_nil_r; (split; [done|]); cbn [fst snd rbind map_err] in *.
  - destruct (build_read_op resolved (mg_id item)) as [[op shape]|e] eqn:Hb; cbn [rbind map_err];
      [|eexists; split; [done|by right]].
    exists resolved, op. split; [by apply Hr|]. done.
  - eexists. split; [done|by left].
Qed.
Lemma search_prepare_safe past cache item :
  CacheHolds ctx partition past cache ->
  safe before past (search_prepare partition item cache) (fun tr out => CacheHolds ctx partition (tr ++ past) out.2
    /\ match out.1 with Ok p => SearchOf partition (tr ++ past) item p | Err l => SearchRefused (tr ++ past) item l end).
Proof.
  intros Hc. unfold search_prepare. eapply (safe_bind _ before_mono); [by apply resolve_cached_safe|].
  intros tr [[resolved|e] cache'] (Hc' & _ & Hr); apply safe_ret; rewrite app_nil_r; (split; [done|]); cbn [fst snd rbind map_err] in *.
  - destruct (build_search_op resolved (ms_query item)) as [[op shape]|e] eqn:Hb; cbn [rbind map_err]; [|by right].
    exists resolved, op. split; [by apply Hr|]. done.
  - by left.
Qed.
Lemma GetOf_mono past past' item p : past ⊆ past' -> GetOf partition past item p -> GetOf partition past' item p.
Proof. intros Hp (r & op & H1 & H2). exists r, op. split; [by apply Hp|done]. Qed.
Lemma SearchOf_mono past past' item p : past ⊆ past' -> SearchOf partition past item p -> SearchOf partition past' item p.
Proof. intros Hp (r & op & H1 & H2). exists r, op. split; [by apply Hp|done]. Qed.

Lemma get_fan_out_safe items :
  (forall past item p r, GetOf partition past item p -> before past (Ev (SinkGet (gp_op p)) r)) ->
  safe before [] (fan_out (get_prepare partition) gp_op SinkGet shape_result Null items) (fun tr docs =>
    length docs = length items
    /\ forall i item, items !! i = Some item -> exists doc, docs !! i = Some doc
         /\ Answer gp_op SinkGet shape_result (GetOf partition) GetRefused tr item doc).
Proof.
  intros Hask tr docs He.
  destruct (fan_out_safe (get_prepare partition) gp_op SinkGet shape_result before (CacheHolds ctx partition)
    (GetOf partition) GetRefused before_mono GetOf_mono (fun _ _ _ _ _ H => H) (fun past cache item => get_prepare_safe past cache item)
    Hask Null items [] (CacheHolds_empty ctx partition []) tr docs He) as (Hg & Hl & Ha).
  split; [done|]. split; [done|]. intros i item Hi. destruct (Ha i item Hi) as (doc & H1 & H2). exists doc.
  rewrite app_nil_r in H2. done.
Qed.
Lemma search_fan_out_safe items :
  (forall past item p r, SearchOf partition past item p -> before past (Ev (SinkSearch (sp_op p)) r)) ->
  safe before [] (fan_out (search_prepare partition) sp_op SinkSearch shape_response (lit "null") items) (fun tr lines =>
    length lines = length items
    /\ forall i item, items !! i = Some item -> exists line, lines !! i = Some line
         /\ Answer sp_op SinkSearch shape_response (SearchOf partition) SearchRefused tr item line).
Proof.
  intros Hask tr lines He.
  destruct (fan_out_safe (search_prepare partition) sp_op SinkSearch shape_response before (CacheHolds ctx partition)
    (SearchOf partition) SearchRefused before_mono SearchOf_mono (fun _ _ _ _ _ H => H)
    (fun past cache item => search_prepare_safe past cache item)
    Hask (lit "null") items [] (CacheHolds_empty ctx partition []) tr lines He) as (Hg & Hl & Ha).
  split; [done|]. split; [done|]. intros i item Hi. destruct (Ha i item Hi) as (line & H1 & H2). exists line.
  rewrite app_nil_r in H2. done.
Qed.
End Safe.
End Multi.

Section Contract.
Context {Sd : Serde} {Si : SerdeInt} {M : Memchr} {R : Router}.
Context (ctx : RequestCtx) (retry : RetryPolicy) (up_trace : option TraceContext).

(** C22: A multi-get answers each document in its place, in whatever order the fetches
    complete. The answer has one entry per item of the body; an item's entry either says
    why it could not be fetched, or is the shaped answer to a get of exactly the operation
    that the router's decision for the caller's own partition and the item's index makes
    of the item's id, an operation the sink has answered. *)
Theorem multi_get_answers_in_order tr resp :
  exec (multi_get ctx retry up_trace) tr (Ok resp) ->
  exists items partition docs out,
    parse_mget (ctx_body ctx) = Ok items /\ router_resolve_partition ctx [] = Ok partition
    /\ to_vec (json_object [(lit "docs", Array docs)]) = Some out /\ resp = MkResponse 200 out None
    /\ length docs = length items
    /\ forall i item, items !! i = Some item -> exists doc, docs !! i = Some doc
       /\ (GetRefused ctx tr item doc
           \/ exists p r, GetOf ctx up_trace partition tr item p /\ Ev (SinkGet (gp_op p)) r ∈ tr /\ doc = shape_result p r).
Proof.
  unfold multi_get. destruct (parse_mget (ctx_body ctx)) as [items|e]; [|by intros [_ [=]]].
  destruct (router_resolve_partition ctx []) as [partition|e]; [|by intros [_ [=]]]. cbn [map_err].
  intros (t1 & t2 & docs & -> & H1 & -> & Hr)%exec_bind. rewrite app_nil_r.
  destruct (get_fan_out_safe ctx retry up_trace (fun _ _ => True) partition (fun _ _ _ _ _ => I) (fun _ _ _ => I) items
    (fun _ _ _ _ _ => I) t1 docs H1) as (_ & Hl & Ha).
  destruct (to_vec _) as [out|] eqn:Ho; [|done]. injection Hr as ->. by exists items, partition, docs, out.
Qed.
(** The same of a multi-search, whose answers are put together as text. *)
Lemma multi_search_answers_in_order tr resp :
  exec (multi_search ctx retry up_trace) tr (Ok resp) ->
  exists items partition lines,
    parse_msearch (ctx_body ctx) = Ok items /\ router_resolve_partition ctx [] = Ok partition
    /\ resp = MkResponse 200 (assemble_responses lines) None
    /\ length lines = length items
    /\ forall i item, items !! i = Some item -> exists line, lines !! i = Some line
       /\ (SearchRefused tr item line
           \/ exists p r, SearchOf ctx up_trace partition tr item p /\ Ev (SinkSearch (sp_op p)) r ∈ tr
                /\ line = shape_response p r).
Proof.
  unfold multi_search. destruct (parse_msearch (ctx_body ctx)) as [items|e]; [|by intros [_ [=]]].
  destruct (router_resolve_partition ctx []) as [partition|e]; [|by intros [_ [=]]]. cbn [map_err].
  intros (t1 & t2 & lines & -> & H1 & -> & [= ->])%exec_bind. rewrite app_nil_r.
  destruct (search_fan_out_safe ctx retry up_trace (fun _ _ => True) partition (fun _ _ _ _ _ => I) (fun _ _ _ => I) items
    (fun _ _ _ _ _ => I) t1 lines H1) as (_ & Hl & Ha).
  by exists items, partition, lines.
Qed.
End Contract.

(** ** A body of two documents: one is not there, the other's cluster is down *)
Section Runs.
#[local] Existing Instance bulk_serde.
#[local] Existing Instance bulk_router.
Definition get_ctx : RequestCtx :=
  ctx_new (principal_new (lit "ci")) (lit "r2") Post MultiGet Http1 (lit "orders")
    [(lit "x-tenant", lit "acme")] (body "{'ids':['v','w']}").
Definition get_world : world_of (@Call bulk_serde) nat := fun B c n =>
  match c in Call B return B * nat with
  | SinkGet op => if str_eqb (rd_id op) (lit "acme:v") then (Ok (MkReadOutcome 404 false [] true), n)
                  else (Err (SinkTransport (lit "down")), n)
  | c => bulk_world _ c n
  end.
Definition get_run := interp get_world (multi_get get_ctx retry_default None) 0.
Definition got : PipelineResponse := MkResponse 200
  (body "{'docs':[{'_id':'v','_index':'orders','found':false},{'_id':'w','_index':'orders','error':{'type':'upstream_failed'}}]}")
  None.

Lemma multi_get_answers_in_order_witness :
  get_run.1.2 = Ok got
  /\ exists items partition docs out,
    parse_mget (ctx_body get_ctx) = Ok items /\ router_resolve_partition get_ctx [] = Ok partition
    /\ to_vec (json_object [(lit "docs", Array docs)]) = Some out /\ got = MkResponse 200 out None
    /\ length docs = length items
    /\ forall i item, items !! i = Some item -> exists doc, docs !! i = Some doc
       /\ (GetRefused get_ctx get_run.1.1 item doc
           \/ exists p r, GetOf get_ctx None partition get_run.1.1 item p /\ Ev (SinkGet (gp_op p)) r ∈ get_run.1.1
                /\ doc = shape_result p r).
Proof.
  assert (H : get_run.1.2 = Ok got) by (vm_compute; reflexivity). split; [exact H|].
  apply (multi_get_answers_in_order get_ctx retry_default None). rewrite <- H.
  apply (interp_exec get_world (multi_get get_ctx retry_default None) 0).
Defined.
End Runs.
