(* ===== verification/Observe.v ===== *)
(** * Observability ([crates/osproxy-observe/src]: directive, decode, explain, breakglass; the diagnostics of [crates/osproxy-engine/src/pipeline.rs])

    Which requests are recorded, exported or captured is decided by published directives,
    by a signed header and by the deployment's baseline.  What is recorded goes to bounded
    queues. *)
From stdpp Require Import base option list strings numbers.
From Stdlib Require Import Ascii ZArith Lia.
From S2P Require Import Prelude.
From S2P Require Import Trace.
From S2P Require Import CoreTypes.
From S2P Require Import Serde.
From S2P Require Import ToySerde.
From S2P Require Import JsonProps.
From S2P Require Import Spi.
From S2P Require Import ReqTrace.
From S2P Require Import CursorBody.

Open Scope osp_scope.

(** ** [directive.rs] *)
Inductive DiagLevel : Type := LevelOff | LevelShape | LevelShapeTiming | LevelShapeRewriteDiff.
#[export] Instance DiagLevel_eq_dec : EqDecision DiagLevel.
Proof. solve_decision. Defined.
Definition level_rank (l : DiagLevel) : nat :=
  match l with LevelOff => 0 | LevelShape => 1 | LevelShapeTiming => 2 | LevelShapeRewriteDiff => 3 end.
(** [Ord::max], which keeps the second of equals. *)
Definition level_max (a b : DiagLevel) : DiagLevel := if level_rank a <=? level_rank b then b else a.
Definition level_as_str (l : DiagLevel) : str :=
  match l with
  | LevelOff => lit "Off" | LevelShape => lit "Shape" | LevelShapeTiming => lit "ShapeTiming"
  | LevelShapeRewriteDiff => lit "ShapeRewriteDiff"
  end.
Definition level_from_name (name : str) : option DiagLevel :=
  if str_eqb name (lit "Off") then Some LevelOff
  else if str_eqb name (lit "Shape") then Some LevelShape
  else if str_eqb name (lit "ShapeTiming") then Some LevelShapeTiming
  else if str_eqb name (lit "ShapeRewriteDiff") then Some LevelShapeRewriteDiff
  else None.

Record DirectiveMatch : Type := MkDirectiveMatch {
  m_tenant : option PartitionId; m_index : option IndexName; m_principal : option PrincipalId; m_endpoint : option EndpointKind
}.
Definition match_all : DirectiveMatch := MkDirectiveMatch None None None None.
Definition for_tenant (m : DirectiveMatch) (t : PartitionId) : DirectiveMatch :=
  MkDirectiveMatch (Some t) (m_index m) (m_principal m) (m_endpoint m).
Definition for_index (m : DirectiveMatch) (i : IndexName) : DirectiveMatch :=
  MkDirectiveMatch (m_tenant m) (Some i) (m_principal m) (m_endpoint m).
Definition for_principal (m : DirectiveMatch) (p : PrincipalId) : DirectiveMatch :=
  MkDirectiveMatch (m_tenant m) (m_index m) (Some p) (m_endpoint m).
Definition for_endpoint (m : DirectiveMatch) (e : EndpointKind) : DirectiveMatch :=
  MkDirectiveMatch (m_tenant m) (m_index m) (m_principal m) (Some e).
Record RequestAttrs : Type := MkRequestAttrs {
  at_tenant : option PartitionId; at_index : str; at_principal : PrincipalId; at_endpoint : EndpointKind
}.
Definition is_none_or {A} (o : option A) (f : A -> bool) : bool := match o with Some a => f a | None => true end.
Definition matches (m : DirectiveMatch) (attrs : RequestAttrs) : bool :=
  is_none_or (m_tenant m) (fun t => bool_decide (at_tenant attrs = Some t))
  && is_none_or (m_index m) (fun i => str_eqb i (at_index attrs))
  && is_none_or (m_principal m) (fun p => str_eqb p (at_principal attrs))
  && is_none_or (m_endpoint m) (fun e => bool_decide (e = at_endpoint attrs)).

Record DiagnosticsDirective : Type := MkDirective {
  d_id : str; match_ : DirectiveMatch; level : DiagLevel; sample_per_mille : Z; expires_at : Instant;
  ring_buffer : bool; capture : bool
}.
(** FNV-1a on 64 bits. *)
Definition sample_hash (bs : bytes) : Z :=
  foldl (fun h b => u64_wrap (Z.lxor h (bz b) * 1099511628211)) 14695981039346656037%Z bs.
Definition is_sampled (d : DiagnosticsDirective) (request : RequestId) : bool :=
  if (1000 <=? sample_per_mille d)%Z then true
  else if (sample_per_mille d =? 0)%Z then false
  else (sample_hash request mod 1000 <? sample_per_mille d)%Z.
Definition applies (d : DiagnosticsDirective) (attrs : RequestAttrs) (now : Instant) (request : RequestId) : bool :=
  (nanos now <? nanos (expires_at d))%Z && matches (match_ d) attrs && is_sampled d request.
Definition level_if_applies (d : DiagnosticsDirective) (attrs : RequestAttrs) (now : Instant) (request : RequestId) : option DiagLevel :=
  if applies d attrs now request then Some (level d) else None.

(** A [DirectiveSet] is its directives. *)
Definition DirectiveSet : Type := list DiagnosticsDirective.
Definition evaluate (s : DirectiveSet) (attrs : RequestAttrs) (now : Instant) (request : RequestId) : DiagLevel :=
  foldl level_max LevelOff (level <$> List.filter (fun d => applies d attrs now request) s).
Definition wants_ring_buffer (s : DirectiveSet) (attrs : RequestAttrs) (now : Instant) (request : RequestId) : bool :=
  existsb (fun d => ring_buffer d && applies d attrs now request) s.
Definition wants_capture (s : DirectiveSet) (attrs : RequestAttrs) (now : Instant) (request : RequestId) : bool :=
  existsb (fun d => capture d && applies d attrs now request) s.

(** [DirectiveVerifier]: the signature check of the header is the server's. *)
Class DirectiveVerifier := { verify : str -> option DiagnosticsDirective }.
Definition no_verifier : DirectiveVerifier := {| verify _ := None |}.

(** ** [pipeline.rs]: the decision for a finished request *)
Record Diagnostics : Type := MkDiagnostics { dg_level : DiagLevel; dg_capture : bool; dg_traffic_capture : bool }.
Section Decision.
Context {Dv : DirectiveVerifier}.
Definition request_attrs (ctx : RequestCtx) (t : RequestTrace) : RequestAttrs :=
  MkRequestAttrs (resolved_partition t) (logical_index ctx) (principal_id (ctx_principal ctx)) (ctx_endpoint ctx).
(** [snapshot] and [now] are what the store and the clock give when the request is done. *)
Definition diagnostics (baseline : DiagLevel) (baseline_capture : bool) (snapshot : DirectiveSet) (now : Instant)
    (ctx : RequestCtx) (t : RequestTrace) : Diagnostics :=
  let attrs := request_attrs ctx t in
  let request := request_id ctx in
  let lvl := level_max baseline (evaluate snapshot attrs now request) in
  let cap := wants_ring_buffer snapshot attrs now request in
  let traffic := baseline_capture || wants_capture snapshot attrs now request in
  match header_get (ctx_headers ctx) (lit "x-debug-directive") ≫= verify with
  | Some d =>
      match level_if_applies d attrs now request with
      | Some from_header => MkDiagnostics (level_max lvl from_header) (cap || ring_buffer d) (traffic || capture d)
      | None => MkDiagnostics lvl cap traffic
      end
  | None => MkDiagnostics lvl cap traffic
  end.
(** The directives that bear on a request: published or in its header, and applying. *)
Definition in_force (snapshot : DirectiveSet) (now : Instant) (ctx : RequestCtx) (t : RequestTrace) (d : DiagnosticsDirective) : Prop :=
  (d ∈ snapshot \/ header_get (ctx_headers ctx) (lit "x-debug-directive") ≫= verify = Some d)
  /\ applies d (request_attrs ctx t) now (request_id ctx) = true.

Lemma level_max_rank a b : level_rank (level_max a b) = Nat.max (level_rank a) (level_rank b).
Proof. unfold level_max. destruct (Nat.leb_spec (level_rank a) (level_rank b)); lia. Qed.
Lemma level_max_choice a b : level_max a b = a \/ level_max a b = b.
Proof. unfold level_max. destruct (_ <=? _); auto. Qed.
Lemma fold_level ls l :
  (forall x, x = l \/ x ∈ ls -> level_rank x <= level_rank (foldl level_max l ls)) /\ (foldl level_max l ls = l \/ foldl level_max l ls ∈ ls).
Proof.
  revert l. induction ls as [|y ls IH]; intros l; cbn [foldl].
  - split; [|by left]. intros x [->|H]; [done|]. by apply elem_of_nil in H.
  - destruct (IH (level_max l y)) as [H1 H2]. specialize (H1 (level_max l y) (or_introl eq_refl)) as H0.
    rewrite level_max_rank in H0. split.
    + intros x [->|[->|H]%elem_of_cons]; [lia|lia|]. apply H1. by right.
    + destruct H2 as [H2|H2]; [|right; by right]. rewrite H2. destruct (level_max_choice l y) as [->| ->]; [by left|right; by left].
Qed.
Lemma evaluate_spec s attrs now request :
  (forall d, d ∈ s -> applies d attrs now request = true -> level_rank (level d) <= level_rank (evaluate s attrs now request))
  /\ (evaluate s attrs now request = LevelOff \/ exists d, d ∈ s /\ applies d attrs now request = true /\ level d = evaluate s attrs now request).
Proof.
  unfold evaluate. destruct (fold_level (level <$> List.filter (fun d => applies d attrs now request) s) LevelOff) as [H1 H2]. split.
  - intros d Hd Ha. apply H1. right. apply list_elem_of_fmap. exists d. split; [done|]. apply list_elem_of_In, filter_In.
    split; [by apply list_elem_of_In|done].
  - destruct H2 as [H2|H2]; [by left|right]. apply list_elem_of_fmap in H2 as (d & Hl & Hd).
    apply list_elem_of_In, filter_In in Hd as [Hd Ha]. exists d. split; [by apply list_elem_of_In|]. by split.
Qed.
Lemma wanted f (s : DirectiveSet) attrs now request :
  existsb (fun d => f d && applies d attrs now request) s = true <-> exists d, d ∈ s /\ applies d attrs now request = true /\ f d = true.
Proof.
  rewrite existsb_exists. split.
  - intros (d & Hd & [H1 H2]%andb_prop). exists d. by rewrite list_elem_of_In.
  - intros (d & Hd & H1 & H2). exists d. rewrite <- list_elem_of_In, H1, H2. done.
Qed.

Lemma in_force_or snapshot now ctx t (P : DiagnosticsDirective -> Prop) :
  (exists d, in_force snapshot now ctx t d /\ P d)
  <-> (exists d, d ∈ snapshot /\ applies d (request_attrs ctx t) now (request_id ctx) = true /\ P d)
      \/ exists d, header_get (ctx_headers ctx) (lit "x-debug-directive") ≫= verify = Some d
           /\ applies d (request_attrs ctx t) now (request_id ctx) = true /\ P d.
Proof.
  unfold in_force. split.
  - intros (d & [[H|H] Ha] & HP); [left|right]; by exists d.
  - intros [(d & H & Ha & HP)|(d & H & Ha & HP)]; exists d; auto.
Qed.
Lemma header_applies dh attrs now request (P : DiagnosticsDirective -> Prop) :
  (exists d, Some dh = Some d /\ applies d attrs now request = true /\ P d) <-> applies dh attrs now request = true /\ P dh.
Proof. split; [by intros (d & [= <-] & ?)|intros []; by exists dh]. Qed.
Lemma no_header attrs now request (P : DiagnosticsDirective -> Prop) :
  (exists d, None = Some d /\ applies d attrs now request = true /\ P d) <-> False.
Proof. split; [by intros (d & ? & _)|done]. Qed.

(** a directive decides, and nothing else.  A finished request is captured exactly
    when the baseline captures or a directive in force for it asks, the break-glass tape
    has it exactly when one in force asks for the tape, and its level is the highest of
    the baseline and of the levels of those in force. *)
Theorem directives_decide baseline baseline_capture snapshot now ctx t :
  let dg := diagnostics baseline baseline_capture snapshot now ctx t in
  let on := in_force snapshot now ctx t in
  (dg_traffic_capture dg = true <-> baseline_capture = true \/ exists d, on d /\ capture d = true)
  /\ (dg_capture dg = true <-> exists d, on d /\ ring_buffer d = true)
  /\ level_rank baseline <= level_rank (dg_level dg)
  /\ (forall d, on d -> level_rank (level d) <= level_rank (dg_level dg))
  /\ (level_rank (dg_level dg) = level_rank baseline \/ exists d, on d /\ level d = dg_level dg).
Proof.
  unfold diagnostics. cbv zeta. rewrite !in_force_or.
  destruct (evaluate_spec snapshot (request_attrs ctx t) now (request_id ctx)) as [He1 He2].
  set (ev := evaluate _ _ _ _) in *. pose proof (level_max_rank baseline ev) as Hm.
  assert (Hchoice : level_rank (level_max baseline ev) = level_rank baseline \/ exists d, d ∈ snapshot
      /\ applies d (request_attrs ctx t) now (request_id ctx) = true /\ level d = level_max baseline ev).
  { destruct (level_max_choice baseline ev) as [->|H]; [by left|]. destruct He2 as [He2|(d & Hd)]; [|right; exists d; by rewrite H].
    left. rewrite Hm, He2. cbn. lia. }
  unfold in_force, level_if_applies, wants_capture, wants_ring_buffer.
  destruct (header_get _ _ ≫= verify) as [dh|] eqn:Hh; [destruct (applies dh _ _ _) eqn:Ha|];
    rewrite ?header_applies, ?no_header, ?Ha; cbn [dg_traffic_capture dg_capture dg_level];
    rewrite ?orb_true_iff, !wanted.
  - pose proof (level_max_rank (level_max baseline ev) (level dh)) as Hm2. split_and!.
    + tauto.
    + tauto.
    + lia.
    + intros d [[Hd|[= <-]] Hd']; [specialize (He1 d Hd Hd'); lia|lia].
    + destruct (level_max_choice (level_max baseline ev) (level dh)) as [H|H]; rewrite H; [|by right; right].
      destruct Hchoice; [by left|by right; left].
  - split_and!; [intuition congruence|intuition congruence|lia| |].
    + intros d [[Hd|[= <-]] Hd']; [specialize (He1 d Hd Hd'); lia|congruence].
    + destruct Hchoice; [by left|by right; left].
  - split_and!; [tauto|tauto|lia| |].
    + intros d [[Hd|?] Hd']; [specialize (He1 d Hd Hd'); lia|done].
    + destruct Hchoice; [by left|by right; left].
Qed.
End Decision.

(** ** [decode.rs]

    One reading of the clock, [now], stands for those of the items. *)
Section Decode.
Context {Sd : Serde} {Si : SerdeInt}.

(** The reason slugs. *)
Inductive DecodeError : Type :=
| InvalidJson | NotAnObject | UnknownField | MissingDirectives | MissingId | MissingLevel | UnknownLevel
| MissingTtlSecs | ZeroTtl | BadSampleRate | BadEndpoint | UnknownEndpoint.
Definition decode_slug (e : DecodeError) : str :=
  match e with
  | InvalidJson => lit "invalid_json" | NotAnObject => lit "not_an_object" | UnknownField => lit "unknown_field"
  | MissingDirectives => lit "missing_directives" | MissingId => lit "missing_id" | MissingLevel => lit "missing_level"
  | UnknownLevel => lit "unknown_level" | MissingTtlSecs => lit "missing_ttl_secs" | ZeroTtl => lit "zero_ttl"
  | BadSampleRate => lit "bad_sample_rate" | BadEndpoint => lit "bad_endpoint" | UnknownEndpoint => lit "unknown_endpoint"
  end.
Definition DIRECTIVE_KEYS : list str :=
  [lit "id"; lit "level"; lit "ttl_secs"; lit "tenant"; lit "index"; lit "principal"; lit "endpoint";
   lit "sample_per_mille"; lit "ring_buffer"; lit "capture"].
Definition reject_unknown_keys (v : value) (allowed : list str) : Result unit DecodeError :=
  match as_object v with
  | None => Err NotAnObject
  | Some obj => if forallb (fun e => existsb (str_eqb e.1) allowed) obj then Ok tt else Err UnknownField
  end.
Definition value_u64 (v : value) : option Z := match v with Number n => num_u64 n | _ => None end.
Definition bool_at (v : value) (key : str) : bool := match value_get v key with Some (Bool b) => b | _ => false end.
Definition decode_sample (v : value) : Result Z DecodeError :=
  match value_get v (lit "sample_per_mille") with
  | None => Ok 1000%Z
  | Some n => match value_u64 n with
              | Some n => if (n <=? 1000)%Z then Ok n else Err BadSampleRate
              | None => Err BadSampleRate
              end
  end.
Definition decode_endpoint (v : value) : Result (option EndpointKind) DecodeError :=
  match value_get v (lit "endpoint") with
  | None => Ok None
  | Some e => let? name := ok_or (as_str e) BadEndpoint in
              let? kind := ok_or (endpoint_from_name name) UnknownEndpoint in Ok (Some kind)
  end.
Definition or_wild {A} (m : DirectiveMatch) (f : DirectiveMatch -> A -> DirectiveMatch) (o : option A) : DirectiveMatch :=
  match o with Some a => f m a | None => m end.
Definition decode_one (v : value) (now : Instant) : Result DiagnosticsDirective DecodeError :=
  let? _ := reject_unknown_keys v DIRECTIVE_KEYS in
  let? id := ok_or (str_at v (lit "id")) MissingId in
  let? name := ok_or (str_at v (lit "level")) MissingLevel in
  let? lvl := ok_or (level_from_name name) UnknownLevel in
  let? ttl_secs := ok_or (value_get v (lit "ttl_secs") ≫= value_u64) MissingTtlSecs in
  if (ttl_secs =? 0)%Z then Err ZeroTtl
  else
    let expires := saturating_add now (ttl_secs * 1000000000) in
    let? sample := decode_sample v in
    let m := or_wild match_all for_tenant (str_at v (lit "tenant")) in
    let m := or_wild m for_index (str_at v (lit "index")) in
    let m := or_wild m for_principal (str_at v (lit "principal")) in
    let? e := decode_endpoint v in
    let m := or_wild m for_endpoint e in
    Ok (MkDirective id m lvl sample expires (bool_at v (lit "ring_buffer")) (bool_at v (lit "capture"))).
Definition decode_directive_set (b : bytes) (now : Instant) : Result DirectiveSet DecodeError :=
  let? v := ok_or (from_slice b) InvalidJson in
  let? _ := reject_unknown_keys v [lit "directives"] in
  let? items := ok_or (value_get v (lit "directives") ≫= as_array) MissingDirectives in
  collect (fun item => decode_one item now) items.

(** [introspect]: what an operator reads back. *)
Definition introspect_one (now : Instant) (d : DiagnosticsDirective) : value :=
  let opt {A} (key : str) (f : A -> str) (o : option A) : list (str * value) :=
    match o with Some a => [(key, String (f a))] | None => [] end in
  json_object ([(lit "id", String (d_id d)); (lit "level", String (level_as_str (level d)))]
    ++ opt (lit "tenant") (fun x => x) (m_tenant (match_ d)) ++ opt (lit "index") (fun x => x) (m_index (match_ d))
    ++ opt (lit "principal") (fun x => x) (m_principal (match_ d)) ++ opt (lit "endpoint") endpoint_as_str (m_endpoint (match_ d))
    ++ [(lit "sample_per_mille", Number (int_num (sample_per_mille d))); (lit "ring_buffer", Bool (ring_buffer d));
        (lit "capture", Bool (capture d)); (lit "expired", Bool (nanos (expires_at d) <=? nanos now)%Z)]).
Definition introspect (s : DirectiveSet) (now : Instant) : value :=
  json_object [(lit "directives", Array (introspect_one now <$> s))].

Lemma selectors t i p e :
  let m := or_wild (or_wild (or_wild (or_wild match_all for_tenant t) for_index i) for_principal p) for_endpoint e in
  m_tenant m = t /\ m_index m = i /\ m_principal m = p /\ m_endpoint m = e.
Proof. by destruct t, i, p, e. Qed.
(** What [decode_one] reads, on success. *)
Lemma decode_one_Ok v now d :
  decode_one v now = Ok d ->
  reject_unknown_keys v DIRECTIVE_KEYS = Ok tt
  /\ str_at v (lit "id") = Some (d_id d) /\ (str_at v (lit "level") ≫= level_from_name) = Some (level d)
  /\ (exists secs, (value_get v (lit "ttl_secs") ≫= value_u64) = Some secs /\ secs <> 0%Z
        /\ expires_at d = saturating_add now (secs * 1000000000))
  /\ decode_sample v = Ok (sample_per_mille d)
  /\ decode_endpoint v = Ok (m_endpoint (match_ d))
  /\ m_tenant (match_ d) = str_at v (lit "tenant") /\ m_index (match_ d) = str_at v (lit "index")
  /\ m_principal (match_ d) = str_at v (lit "principal")
  /\ ring_buffer d = bool_at v (lit "ring_buffer") /\ capture d = bool_at v (lit "capture").
Proof.
  unfold decode_one. destruct (reject_unknown_keys v _) as [[]|]; cbn [rbind]; [|done].
  destruct (str_at v (lit "id")) as [id|]; cbn [ok_or rbind]; [|done].
  destruct (str_at v (lit "level")) as [name|]; cbn [ok_or rbind mbind option_bind]; [|done].
  destruct (level_from_name name) as [lvl|]; cbn [ok_or rbind]; [|done].
  destruct (value_get v (lit "ttl_secs") ≫= value_u64) as [secs|]; cbn [ok_or rbind]; [|done].
  destruct (Z.eqb_spec secs 0) as [|Hs]; [done|]. destruct (decode_sample v) as [sample|]; cbn [rbind]; [|done].
  destruct (decode_endpoint v) as [e|]; cbn [rbind]; [|done]. intros [= <-].
  destruct (selectors (str_at v (lit "tenant")) (str_at v (lit "index")) (str_at v (lit "principal")) e) as (Ht & Hi & Hp & He).
  split_and!; try done; [by exists secs|exact (f_equal Ok (eq_sym He))].
Qed.
Lemma decode_set_items b now s : decode_directive_set b now = Ok s ->
  exists items, Forall2 (fun v d => decode_one v now = Ok d) items s
    /\ exists v, from_slice b = Some v /\ (value_get v (lit "directives") ≫= as_array) = Some items.
Proof.
  unfold decode_directive_set. destruct (from_slice b) as [v|]; cbn [ok_or rbind]; [|done].
  destruct (reject_unknown_keys v _) as [[]|]; cbn [rbind]; [|done].
  destruct (value_get v (lit "directives") ≫= as_array) as [items|] eqn:Hi; cbn [ok_or rbind]; [|done].
  intros Hc. exists items. split; [|by exists v]. clear Hi. revert s Hc. induction items as [|i items IH]; intros s; cbn [collect].
  - intros [= <-]. constructor.
  - destruct (decode_one i now) as [d|] eqn:Hd; cbn; [|done]. destruct (collect _ items) as [ds|]; [|done].
    intros [= <-]. constructor; [done|]. by apply IH.
Qed.
Lemma selector_str (o : option value) (f : str -> bool) (P : str -> Prop) :
  (forall x, f x = true <-> P x) -> is_none_or (o ≫= as_str) f = true <-> forall x, o = Some (String x) -> P x.
Proof.
  intros Hf. destruct o as [[| | |s| |]|]; cbn; try (split; [intros _ x [=]|done]). rewrite Hf. split; [by intros H x [= <-]|auto].
Qed.

(** What the item [v] of a body publishes: the directive it names, at the level it names,
    for as long as it says, for the requests it selects. *)
Definition Publishes (now : Instant) (v : value) (d : DiagnosticsDirective) : Prop :=
  (exists m, v = Object m /\ Forall (fun e => e.1 ∈ DIRECTIVE_KEYS) m)
  /\ value_get v (lit "id") = Some (String (d_id d))
  /\ (exists name, value_get v (lit "level") = Some (String name) /\ level_from_name name = Some (level d))
  /\ (exists n secs, value_get v (lit "ttl_secs") = Some (Number n) /\ num_u64 n = Some secs /\ secs <> 0%Z
       /\ expires_at d = saturating_add now (secs * 1000000000))
  /\ match value_get v (lit "sample_per_mille") with
     | None => sample_per_mille d = 1000%Z
     | Some x => exists n, x = Number n /\ num_u64 n = Some (sample_per_mille d)
     end
  /\ (sample_per_mille d <= 1000)%Z
  /\ (ring_buffer d = true <-> value_get v (lit "ring_buffer") = Some (Bool true))
  /\ (capture d = true <-> value_get v (lit "capture") = Some (Bool true))
  /\ forall attrs, matches (match_ d) attrs = true <->
       (forall t, value_get v (lit "tenant") = Some (String t) -> at_tenant attrs = Some t)
       /\ (forall i, value_get v (lit "index") = Some (String i) -> at_index attrs = i)
       /\ (forall p, value_get v (lit "principal") = Some (String p) -> at_principal attrs = p)
       /\ (forall e, value_get v (lit "endpoint") = Some e ->
            exists name, e = String name /\ endpoint_from_name name = Some (at_endpoint attrs)).
Lemma str_at_Some v k x : str_at v k = Some x -> value_get v k = Some (String x).
Proof. unfold str_at. destruct (value_get v k) as [[]|]; try done. by intros [= ->]. Qed.
Lemma bool_at_true v k : bool_at v k = true <-> value_get v k = Some (Bool true).
Proof. unfold bool_at. destruct (value_get v k) as [[|[]| | | |]|]; done. Qed.
Lemma decode_one_matches v now d attrs : decode_one v now = Ok d ->
  matches (match_ d) attrs = true <->
       (forall t, value_get v (lit "tenant") = Some (String t) -> at_tenant attrs = Some t)
       /\ (forall i, value_get v (lit "index") = Some (String i) -> at_index attrs = i)
       /\ (forall p, value_get v (lit "principal") = Some (String p) -> at_principal attrs = p)
       /\ (forall e, value_get v (lit "endpoint") = Some e ->
            exists name, e = String name /\ endpoint_from_name name = Some (at_endpoint attrs)).
Proof.
  intros Hv. destruct (decode_one_Ok v now d Hv) as (_ & _ & _ & _ & _ & He & Ht & Hi & Hp & _).
  unfold matches. rewrite Ht, Hi, Hp, !andb_true_iff. unfold str_at.
  rewrite (selector_str (value_get v (lit "tenant")) _ (fun t => at_tenant attrs = Some t)) by (intros; apply bool_decide_eq_true).
  rewrite (selector_str (value_get v (lit "index")) _ (fun i => at_index attrs = i)) by (intros; rewrite str_eqb_eq; done).
  rewrite (selector_str (value_get v (lit "principal")) _ (fun p => at_principal attrs = p)) by (intros; rewrite str_eqb_eq; done).
  assert (Hend : is_none_or (m_endpoint (match_ d)) (fun e => bool_decide (e = at_endpoint attrs)) = true
    <-> (forall e, value_get v (lit "endpoint") = Some e -> exists name, e = String name /\ endpoint_from_name name = Some (at_endpoint attrs))).
  { unfold decode_endpoint in He. destruct (value_get v (lit "endpoint")) as [e|].
    - destruct e as [| | |name| |]; cbn in He; try done. destruct (endpoint_from_name name) as [k|] eqn:Hk; [|done].
      injection He as He. rewrite <- He. cbn. rewrite bool_decide_eq_true. split.
      + intros -> e [= <-]. by exists name.
      + intros H. destruct (H _ eq_refl) as (? & [= <-] & H'). congruence.
    - injection He as He. rewrite <- He. cbn. split; [|done]. intros _ e [=]. }
  rewrite Hend. tauto.
Qed.
Lemma decode_one_Publishes v now d : decode_one v now = Ok d -> Publishes now v d.
Proof.
  intros Hv. pose proof (decode_one_matches v now d) as Hm.
  destruct (decode_one_Ok v now d Hv) as (Hk & Hid & Hl & (secs & Ht & Hne & Hx) & Hs & _ & _ & _ & _ & Hr & Hc).
  unfold Publishes. split; [|split; [|split; [|split; [|split; [|split; [|split; [|split]]]]]]].
  - unfold reject_unknown_keys in Hk. destruct v as [| | | | |m]; try done. cbn [as_object] in Hk. exists m. split; [done|].
    destruct (forallb _ m) eqn:Hf; [|done]. apply List.Forall_forall. intros e He.
    apply (proj1 (forallb_forall _ _) Hf), existsb_exists in He as (k & Hk'%list_elem_of_In & ->%str_eqb_eq). done.
  - by apply str_at_Some.
  - apply bind_Some in Hl as (name & Hn%str_at_Some & Hl). eauto.
  - apply bind_Some in Ht as ([] & Hg & Ht); try done. eauto 6.
  - unfold decode_sample in Hs. destruct (value_get v (lit "sample_per_mille")) as [x|]; [|by injection Hs as <-].
    destruct x; try done. cbn [value_u64] in Hs. destruct (num_u64 _) as [z|] eqn:Hz; [|done].
    destruct (z <=? 1000)%Z; [|done]. injection Hs as <-. eauto.
  - unfold decode_sample in Hs. destruct (value_get v (lit "sample_per_mille")) as [x|]; [|by injection Hs as <-].
    destruct (value_u64 x) as [z|]; [|done]. destruct (Z.leb_spec z 1000); [|done]. by injection Hs as <-.
  - rewrite Hr. apply bool_at_true.
  - rewrite Hc. apply bool_at_true.
  - intros attrs. by apply Hm.
Qed.

(** C36: what a published directive targets. The directives of an accepted body are those of
    the items of its [directives], one for each, in their order. Each has the id and the
    level that its item names, lasts the seconds that it gives, samples at the rate that it
    gives, at most 1000 per mille, and matches exactly the requests whose
    attributes equal the selectors that the item gives as strings, and its endpoint. So a
    selector that is there but is not a string narrows nothing. *)
Theorem published_directive_targets b now s :
  decode_directive_set b now = Ok s ->
  exists v items, from_slice b = Some v /\ value_get v (lit "directives") = Some (Array items)
  /\ Forall2 (Publishes now) items s.
Proof.
  intros (items & Hf & v & Hv & Hi)%decode_set_items. exists v, items. split; [done|]. split.
  - destruct (value_get v (lit "directives")) as [[]|]; try done. by injection Hi as ->.
  - eapply Forall2_impl; [|exact Hf]. intros x d. apply decode_one_Publishes.
Qed.
End Decode.

(** ** [explain.rs] *)
Section Explain.
Context {Sd : Serde} {Si : SerdeInt}.
Definition or_null {A} (f : A -> value) (o : option A) : value := match o with Some a => f a | None => Null end.
Definition num (z : Z) : value := Number (int_num z).
Definition resolve_json (r : ResolveInfo) : value :=
  json_object [(lit "partition_id", String (ri_partition r)); (lit "placement_kind", String (ri_placement_kind r));
    (lit "target_cluster", String (ri_cluster r)); (lit "target_index", String (ri_index r));
    (lit "epoch", num (get (ri_epoch r))); (lit "inject_field_names", Array (String <$> ri_inject_fields r));
    (lit "routing", Bool (ri_routing r)); (lit "migration", String (ri_migration r))].
Definition error_json (e : ErrorContext) : value :=
  let chain := decision_chain e in
  json_object [(lit "code", String (as_slug (code e))); (lit "retryable", Bool (retryable e));
    (lit "remediation", String (remediation e));
    (lit "decision_chain", json_object [(lit "principal", or_null String (dc_principal chain));
       (lit "partition", or_null String (dc_partition chain)); (lit "cluster", or_null String (dc_cluster chain));
       (lit "index", or_null String (dc_index chain))])].
Definition span {A} (key : str) (f : A -> value) (o : option A) : list (str * value) :=
  match o with Some a => [(key, f a)] | None => [] end.
Definition explain_json (request_id : RequestId) (t : RequestTrace) : value :=
  let spans := json_object
    (span (lit "ingress") (fun i => json_object [(lit "protocol", String (ii_protocol i));
       (lit "tls_suite", or_null String (ii_tls_suite i)); (lit "tls_reused", or_null Bool (ii_tls_reused i))]) (rt_ingress t)
     ++ span (lit "classify") (fun c => json_object [(lit "endpoint_kind", String (endpoint_as_str (ci_endpoint c)));
       (lit "is_write", Bool (is_write (ci_endpoint c))); (lit "index_logical", String (ci_logical_index c))]) (rt_classify t)
     ++ span (lit "spi.resolve") resolve_json (rt_resolve t)
     ++ span (lit "rewrite") (fun r => json_object [(lit "transform_kind", String (wi_transform_kind r));
       (lit "body_bytes", num (wi_body_bytes r))]) (rt_rewrite t)
     ++ span (lit "dispatch") (fun d => json_object [(lit "target_cluster", String (di_cluster d));
       (lit "upstream_status", num (di_upstream_status d)); (lit "pool_reuse", Bool (di_pool_reuse d))]) (rt_dispatch t)
     ++ span (lit "egress") (fun e => json_object [(lit "status", num (ei_status e));
       (lit "response_bytes", num (ei_response_bytes e))]) (rt_egress t)) in
  json_object [(lit "request_id", String request_id); (lit "trace_id", or_null (fun c => String (trace_id_hex c)) (rt_context t));
    (lit "outcome", String (if failed t then lit "error" else lit "ok")); (lit "spans", spans);
    (lit "error", or_null error_json (rt_error t))].

(** ** Bounded queues: [ExplainStore] and [BreakGlassBuffer], each behind a mutex *)
Definition ring_push {A} (capacity : nat) (entries : list A) (x : A) : list A :=
  (if capacity <=? length entries then tail entries else entries) ++ [x].
Record ExplainStore : Type := MkExplainStore { ex_capacity : nat; ex_entries : list (RequestId * RequestTrace) }.
Definition explain_new (capacity : nat) : ExplainStore := MkExplainStore (Nat.max capacity 1) [].
Definition explain_record (s : ExplainStore) (request_id : RequestId) (t : RequestTrace) : ExplainStore :=
  MkExplainStore (ex_capacity s) (ring_push (ex_capacity s) (ex_entries s) (request_id, t)).
Definition explain_get (s : ExplainStore) (request_id : RequestId) : option value :=
  (fun e => explain_json e.1 e.2) <$> List.find (fun e => str_eqb e.1 request_id) (ex_entries s).
Record BreakGlassBuffer : Type := MkBreakGlass { bg_capacity : nat; bg_entries : list value }.
Definition break_glass_new (capacity : nat) : BreakGlassBuffer := MkBreakGlass (Nat.max capacity 1) [].
Definition break_glass_capture (b : BreakGlassBuffer) (doc : value) : BreakGlassBuffer :=
  MkBreakGlass (bg_capacity b) (ring_push (bg_capacity b) (bg_entries b) doc).

Lemma tail_drop {A} (l : list A) n : tail (drop n l) = drop (S n) l.
Proof. revert n. induction l as [|x l IH]; intros [|n]; [done..|apply (IH n)]. Qed.
Lemma ring_push_latest {A} capacity (h : list A) x :
  1 <= capacity ->
  ring_push capacity (drop (length h - capacity) h) x = drop (length (h ++ [x]) - capacity) (h ++ [x]).
Proof.
  intros Hc. unfold ring_push. rewrite length_drop, length_app. cbn [length].
  destruct (Nat.leb_spec capacity (length h - (length h - capacity))) as [H|H].
  - replace (length h + 1 - capacity) with (S (length h - capacity)) by lia.
    rewrite drop_app_le by lia. f_equal. apply tail_drop.
  - replace (length h - capacity) with 0 by lia. replace (length h + 1 - capacity) with 0 by lia. done.
Qed.
Lemma ring_latest {A} capacity (h : list A) :
  1 <= capacity -> foldl (ring_push capacity) [] h = drop (length h - capacity) h.
Proof.
  intros Hc. induction h as [|x h IH] using rev_ind; [done|]. rewrite foldl_app. cbn [foldl]. by rewrite IH, ring_push_latest.
Qed.
Definition explain_after (capacity : nat) (h : list (RequestId * RequestTrace)) : ExplainStore :=
  foldl (fun s e => explain_record s e.1 e.2) (explain_new capacity) h.
Lemma explain_after_entries capacity h :
  ex_entries (explain_after capacity h) = drop (length h - Nat.max capacity 1) h.
Proof.
  rewrite <- (ring_latest (Nat.max capacity 1)) by lia. unfold explain_after.
  assert (H : forall s, ex_entries (foldl (fun s e => explain_record s e.1 e.2) s h) = foldl (ring_push (ex_capacity s)) (ex_entries s) h).
  { induction h as [|[id t] h IH]; intros s; cbn [foldl]; [done|]. by rewrite IH. }
  apply H.
Qed.
Lemma find_app_none {A} (f : A -> bool) l1 l2 : Forall (fun x => f x = false) l1 -> List.find f (l1 ++ l2) = List.find f l2.
Proof. induction 1 as [|x l1 Hx _ IH]; cbn; [done|]. by rewrite Hx. Qed.

(** a bounded memory of explanations.  The store holds the last [capacity] requests,
    whatever was recorded; the explanation of a request with a fresh id is there as long
    as fewer than [capacity] were recorded after it, and not longer. *)
Theorem explanation_is_retained capacity h1 id t h2 :
  1 <= capacity -> Forall (fun e => e.1 <> id) h1 -> Forall (fun e => e.1 <> id) h2 ->
  length (ex_entries (explain_after capacity (h1 ++ (id, t) :: h2))) <= capacity
  /\ explain_get (explain_after capacity (h1 ++ (id, t) :: h2)) id
     = if length h2 <? capacity then Some (explain_json id t) else None.
Proof.
  intros Hc H1 H2. unfold explain_get. rewrite explain_after_entries, Nat.max_l by lia. split; [rewrite length_drop; lia|].
  assert (Hn : forall l, Forall (fun e => e.1 <> id) l -> Forall (fun e : RequestId * RequestTrace => str_eqb e.1 id = false) l).
  { intros l. apply Forall_impl. intros e. apply str_eqb_neq. }
  rewrite length_app. cbn [length]. destruct (Nat.ltb_spec (length h2) capacity) as [H|H].
  - rewrite drop_app_le by lia. rewrite find_app_none by by apply Hn, Forall_drop. cbn. by rewrite str_eqb_refl.
  - rewrite drop_app_ge by lia. replace (length h1 + S (length h2) - capacity - length h1) with (S (length h2 - capacity)) by lia.
    cbn [drop]. rewrite <- (app_nil_r (drop _ h2)), find_app_none by by apply Hn, Forall_drop. done.
Qed.
End Explain.

(** ** A published set *)
Section Runs.
(** The body an operator sends, and the value it parses to: the second item has a number
    where its tenant should be. *)
Definition wide_item (tenant : Value Z) : Value Z :=
  json_object [(lit "id", String (lit "d1")); (lit "level", String (lit "Shape")); (lit "ttl_secs", Number 60%Z);
    (lit "tenant", tenant); (lit "capture", Bool true)].
Definition publish_table : list (bytes * Value Z) :=
  [(lit "acme", json_object [(lit "directives", Array [wide_item (String (lit "acme"))])]);
   (lit "number", json_object [(lit "directives", Array [wide_item (Number 7%Z)])])].
#[local] Instance publish_serde : Serde := toy_serde publish_table.
#[local] Instance publish_int : @SerdeInt publish_serde := toy_int publish_table.
Definition published (m : DirectiveMatch) : DiagnosticsDirective :=
  MkDirective (lit "d1") m LevelShape 1000 (MkInstant 60000000000) false true.

(** The tenant of the second is ignored: it is on for every tenant. *)
Example a_misread_tenant_is_every_tenant :
  decode_directive_set (lit "acme") (MkInstant 0) = Ok [published (for_tenant match_all (lit "acme"))]
  /\ decode_directive_set (lit "number") (MkInstant 0) = Ok [published match_all].
Proof. vm_compute. done. Qed.
Lemma published_directive_targets_witness :
  exists v items, @from_slice publish_serde (lit "number") = Some v /\ value_get v (lit "directives") = Some (Array items)
  /\ Forall2 (Publishes (MkInstant 0)) items [published match_all].
Proof.
  apply (published_directive_targets (lit "number") (MkInstant 0) [published match_all]).
  vm_compute. reflexivity.
Defined.

Lemma explanation_is_retained_witness :
  let h := [(lit "r1", trace_new); (lit "r2", trace_new); (lit "r3", trace_new)] in
  length (ex_entries (explain_after 2 h)) <= 2 /\ explain_get (explain_after 2 h) (lit "r2") = Some (explain_json (lit "r2") trace_new).
Proof.
  apply (explanation_is_retained 2 [(lit "r1", trace_new)] (lit "r2") trace_new [(lit "r3", trace_new)]).
  - lia.
  - by apply Forall_singleton.
  - by apply Forall_singleton.
Defined.
End Runs.
