(* ===== verification/DirectiveStore.v ===== *)
(** * The directive stores ([crates/osproxy-observe/src/store.rs], [crates/osproxy-etcd/src])

    Every request reads the fleet's directives from a store.  The reference store is a cell
    that the administrator's endpoint replaces; the etcd store is a cell that a background
    task keeps close to the value of one key, by reading it and then watching it, again and
    again.  The key is etcd's: what the file says of it is its documented behaviour, that a
    read answers the latest value, and that a watch opened without a revision delivers the
    changes made after it was opened, in order and without gaps, until its stream ends. *)
From stdpp Require Import base option list strings numbers relations.
From Stdlib Require Import ZArith Lia.
From S2P Require Import Prelude.
From S2P Require Import CoreTypes.
From S2P Require Import Serde.
From S2P Require Import ToySerde.
From S2P Require Import CursorBody.
From S2P Require Import Observe.

Open Scope osp_scope.

(** ** [store.rs] *)
(** The trait. *)
Class DirectiveStore (S : Type) := { store_load : S -> DirectiveSet }.
(** A fixed set is a store. *)
#[export] Instance fixed_store : DirectiveStore DirectiveSet := {| store_load s := s |}.
(** An [ArcSwap] is the value it holds: loading and storing are atomic. *)
Record InMemoryDirectiveStore : Type := MkInMemoryStore { im_current : DirectiveSet }.
Definition store_new : InMemoryDirectiveStore := MkInMemoryStore [].
Definition store_publish (set : DirectiveSet) (s : InMemoryDirectiveStore) : InMemoryDirectiveStore := MkInMemoryStore set.
Definition with_directives (s : InMemoryDirectiveStore) (set : DirectiveSet) : InMemoryDirectiveStore := store_publish set s.
#[export] Instance in_memory_store : DirectiveStore InMemoryDirectiveStore := {| store_load := im_current |}.

Section Etcd.
Context {Sd : Serde} {Si : SerdeInt}.

(** ** [lib.rs] and [watch.rs] *)
(** In nanoseconds. *)
Definition RECONNECT_DELAY : Z := 1000000000.

(** A change of the key. *)
Inductive KeyChange : Type :=
| Put (value : bytes)
| Delete.
(** What a read of the key answers, after these changes. *)
Definition kv_after (log : list KeyChange) : option bytes :=
  match last log with Some (Put v) => Some v | _ => None end.

Definition apply_value (current : DirectiveSet) (value : bytes) (now : Instant) : DirectiveSet :=
  match decode_directive_set value now with Ok set => set | Err _ => current end.
(** An event of the stream. *)
Definition apply_change (current : DirectiveSet) (c : KeyChange) (now : Instant) : DirectiveSet :=
  match c with Put value => apply_value current value now | Delete => [] end.

(** Where the task is: dialling, reading the key, with its answer (and how many changes
    that answer had seen), opening the watch, in the loop over its messages (with where the
    watch was opened and the next change to come), or sleeping. *)
Inductive WatchTask : Type :=
| Dialling
| Reading
| HasRead (kv : option bytes) (read : nat)
| Opening (read : nat)
| Streaming (read opened next : nat)
| Sleeping (until : Z).
(** The task's cell, and around it the key's changes, the clock and the number of
    connections the task has tried. *)
Record EtcdDirectiveStore : Type := MkEtcdStore {
  et_current : DirectiveSet; et_task : WatchTask; key_log : list KeyChange; et_now : Instant; et_dials : nat
}.
#[export] Instance etcd_store : DirectiveStore EtcdDirectiveStore := {| store_load := et_current |}.

(** [connect]: the key is read, its value decoded (or taken for the empty set), and the
    task spawned; [read] changes had been made when the key was read. *)
Definition etcd_connect (log : list KeyChange) (read : nat) (now : Instant) : EtcdDirectiveStore :=
  MkEtcdStore (default [] (kv_after (take read log) ≫= fun v => ok (decode_directive_set v now))) Dialling log now 1.

(** [watch_once] and [watch_loop]; every await of the task can also fail, and then it
    sleeps. *)
Inductive task_step : EtcdDirectiveStore -> EtcdDirectiveStore -> Prop :=
| dialled cur log now n :
    task_step (MkEtcdStore cur Dialling log now n) (MkEtcdStore cur Reading log now n)
| answered cur log now n :
    task_step (MkEtcdStore cur Reading log now n) (MkEtcdStore cur (HasRead (kv_after log) (length log)) log now n)
| read_applied cur kv r log now n :
    task_step (MkEtcdStore cur (HasRead kv r) log now n)
      (MkEtcdStore (match kv with Some v => apply_value cur v now | None => cur end) (Opening r) log now n)
| watch_opened cur r log now n :
    task_step (MkEtcdStore cur (Opening r) log now n) (MkEtcdStore cur (Streaming r (length log) (length log)) log now n)
| event_applied cur r o p c log now n :
    log !! p = Some c ->
    task_step (MkEtcdStore cur (Streaming r o p) log now n) (MkEtcdStore (apply_change cur c now) (Streaming r o (S p)) log now n)
| attempt_ended cur t log now n :
    match t with Dialling | Reading | Opening _ | Streaming _ _ _ => True | _ => False end ->
    task_step (MkEtcdStore cur t log now n) (MkEtcdStore cur (Sleeping (nanos now + RECONNECT_DELAY)) log now n)
| woken cur until log now n :
    (until <= nanos now)%Z ->
    task_step (MkEtcdStore cur (Sleeping until) log now n) (MkEtcdStore cur Dialling log now (S n)).
(** Around it operators change the key, and time passes. *)
Inductive world_step : EtcdDirectiveStore -> EtcdDirectiveStore -> Prop :=
| key_changed cur t log now n c :
    world_step (MkEtcdStore cur t log now n) (MkEtcdStore cur t (log ++ [c]) now n)
| time_passed cur t log now now' n :
    (nanos now <= nanos now')%Z -> world_step (MkEtcdStore cur t log now n) (MkEtcdStore cur t log now' n).
Definition store_step (s s' : EtcdDirectiveStore) : Prop := task_step s s' \/ world_step s s'.

(** ** What the snapshot shows *)
(** Whether a value decodes does not depend on when. *)
Definition readable (c : KeyChange) : bool :=
  match c with Put v => is_ok (decode_directive_set v (MkInstant 0)) | Delete => true end.
(** [set] is what [c] says, decoded at some time no later than [now]. *)
Definition shows (set : DirectiveSet) (c : KeyChange) (now : Instant) : Prop :=
  match c with
  | Put v => exists t, (nanos t <= nanos now)%Z /\ decode_directive_set v t = Ok set
  | Delete => set = []
  end.
(** The last change of a stretch of the log that can be read. *)
Definition last_readable (cs : list KeyChange) : option KeyChange := last (filter readable cs).

Lemma decode_one_when v t t' d : decode_one v t = Ok d -> exists d', decode_one v t' = Ok d'.
Proof.
  unfold decode_one. destruct (reject_unknown_keys v _); [|done]. cbn [rbind]. destruct (ok_or (str_at v (lit "id")) _); [|done].
  cbn [rbind]. destruct (ok_or (str_at v (lit "level")) _) as [name|]; [|done]. cbn [rbind].
  destruct (ok_or (level_from_name name) _); [|done]. cbn [rbind]. destruct (ok_or (_ ≫= value_u64) _) as [ttl|]; [|done].
  cbn [rbind]. destruct (ttl =? 0)%Z; [done|]. destruct (decode_sample v); [|done]. cbn [rbind].
  destruct (decode_endpoint v); [|done]. cbn [rbind]. by eexists.
Qed.
Lemma decode_set_when v t t' : is_ok (decode_directive_set v t) = is_ok (decode_directive_set v t').
Proof.
  assert (H : forall t t', is_ok (decode_directive_set v t) = true -> is_ok (decode_directive_set v t') = true).
  { intros u u'. unfold decode_directive_set. destruct (ok_or (from_slice v) _) as [x|]; [|done]. cbn [rbind].
    destruct (reject_unknown_keys x _); [|done]. cbn [rbind]. destruct (ok_or (_ ≫= as_array) _) as [items|]; [|done].
    cbn [rbind]. induction items as [|i items IH]; [done|]. cbn [collect].
    destruct (decode_one i u) as [d|] eqn:Hd; cbn; [|done]. destruct (decode_one_when i u u' d Hd) as [d' ->]. cbn.
    destruct (collect (fun item => decode_one item u) items) as [ds|]; cbn in *; [|done].
    destruct (collect (fun item => decode_one item u') items); [done|]. by apply IH. }
  destruct (is_ok (decode_directive_set v t)) eqn:E, (is_ok (decode_directive_set v t')) eqn:E'; try done.
  - by rewrite (H t t' E) in E'.
  - by rewrite (H t' t E') in E.
Qed.
Lemma shows_later set c now now' : (nanos now <= nanos now')%Z -> shows set c now -> shows set c now'.
Proof. destruct c as [v|]; [|done]. intros Hle (t & ? & ?). exists t. split; [lia|done]. Qed.
(** Applying a change shows it, when it can be read, and changes nothing otherwise. *)
Lemma apply_change_spec cur c now :
  if readable c then shows (apply_change cur c now) c now else apply_change cur c now = cur.
Proof.
  destruct c as [v|]; [|done]. cbn. rewrite (decode_set_when v (MkInstant 0) now). unfold apply_value.
  destruct (decode_directive_set v now) as [set|] eqn:Hd; cbn; [|done]. by exists now.
Qed.
Lemma apply_value_shows cur v now : readable (Put v) = true -> shows (apply_value cur v now) (Put v) now.
Proof. intros Hr. pose proof (apply_change_spec cur (Put v) now) as H. by rewrite Hr in H. Qed.
Lemma last_readable_snoc cs c : last_readable (cs ++ [c]) = if readable c then Some c else last_readable cs.
Proof.
  unfold last_readable. rewrite filter_app, filter_cons, filter_nil. destruct (decide _) as [H|H].
  - apply Is_true_true in H as ->. by rewrite last_snoc.
  - rewrite app_nil_r. by destruct (readable c).
Qed.

(** ** The invariant of the task *)
(** What the stream has delivered decides, and before it what was read. *)
Definition streamed_shows (s : EtcdDirectiveStore) (r o p : nat) : Prop :=
  r <= o <= p /\ p <= length (key_log s)
  /\ match last_readable (drop o (take p (key_log s))) with
     | Some c => shows (et_current s) c (et_now s)
     | None => forall v, kv_after (take r (key_log s)) = Some v -> readable (Put v) = true -> shows (et_current s) (Put v) (et_now s)
     end.
Definition task_shows (s : EtcdDirectiveStore) : Prop :=
  match et_task s with
  | Dialling | Reading | Sleeping _ => True
  | HasRead kv r => r <= length (key_log s) /\ kv = kv_after (take r (key_log s))
  | Opening r => streamed_shows s r r r
  | Streaming r o p => streamed_shows s r o p
  end.
(** The snapshot is nobody's invention. *)
Definition from_the_key (s : EtcdDirectiveStore) : Prop :=
  et_current s = [] \/ exists v, Put v ∈ key_log s /\ shows (et_current s) (Put v) (et_now s).
(** The dials are spaced by the delay. *)
Definition spaced (start : Instant) (s : EtcdDirectiveStore) : Prop :=
  match et_task s with
  | Sleeping until =>
      (Z.of_nat (et_dials s) * RECONNECT_DELAY <= until - nanos start)%Z /\ (until <= nanos (et_now s) + RECONNECT_DELAY)%Z /\ et_dials s <> 0
  | _ => (Z.of_nat (et_dials s - 1) * RECONNECT_DELAY <= nanos (et_now s) - nanos start)%Z /\ et_dials s <> 0
  end.
Lemma kv_readable v (cs : list KeyChange) r : kv_after (take r cs) = Some v -> Put v ∈ cs.
Proof.
  unfold kv_after. destruct (last (take r cs)) as [[w|]|] eqn:Hl; intros [= <-].
  apply last_Some_elem_of in Hl. apply elem_of_take in Hl as (i & Hi & _). by eapply list_elem_of_lookup_2.
Qed.
Lemma task_step_shows s s' : task_step s s' -> task_shows s -> task_shows s'.
Proof.
  intros [cur log now n|cur log now n|cur kv r log now n|cur r log now n|cur r o p c log now n Hc|cur t log now n _|cur u log now n _];
    unfold task_shows, streamed_shows; cbn [et_task et_current key_log et_now]; try done.
  - intros _. by rewrite firstn_all.
  - intros [Hr ->]. split; [lia|]. split; [done|]. rewrite skipn_firstn_comm, Nat.sub_diag. cbn. intros v Hv Hok.
    rewrite Hv. by apply apply_value_shows.
  - intros (_ & Hr & H). rewrite skipn_firstn_comm, Nat.sub_diag in *. cbn in H |- *. split_and!; [lia|lia|done|done].
  - intros (Ho & Hp & H). pose proof (lookup_lt_Some _ _ _ Hc). split; [lia|]. split; [lia|].
    rewrite (take_S_r _ _ c) by done. rewrite drop_app_le by (rewrite length_take; lia).
    rewrite last_readable_snoc. pose proof (apply_change_spec cur c now) as Hs. destruct (readable c); [done|]. by rewrite Hs.
Qed.
Lemma world_step_shows s s' : world_step s s' -> task_shows s -> task_shows s'.
Proof.
  assert (Hs : forall cur t t' log log' now now' n r o p, take p log' = take p log -> take r log' = take r log -> length log <= length log' ->
    (nanos now <= nanos now')%Z -> streamed_shows (MkEtcdStore cur t log now n) r o p -> streamed_shows (MkEtcdStore cur t' log' now' n) r o p).
  { unfold streamed_shows. cbn. intros cur t t' log log' now now' n r o p -> -> ? Hn (Ho & Hp & H). split; [done|]. split; [lia|].
    destruct (last_readable _); [by eapply shows_later|]. intros v Hv Hr. exact (shows_later _ (Put v) _ _ Hn (H v Hv Hr)). }
  intros [cur t log now n c|cur t log now now' n Hn]; unfold task_shows; cbn [et_task et_current key_log et_now].
  - rewrite length_app. cbn. destruct t as [| |kv r|r|r o p|]; try done.
    + intros [Hr ->]. rewrite take_app_le by done. split; [lia|done].
    + intros H. pose proof H as (? & Hp & _). cbn in Hp. eapply Hs, H; cbn; rewrite ?take_app_le, ?length_app by lia; done || lia.
    + intros H. pose proof H as (? & Hp & _). cbn in Hp. eapply Hs, H; cbn; rewrite ?take_app_le, ?length_app by lia; done || lia.
  - destruct t as [| |kv r|r|r o p|]; try done; intros H; (eapply Hs, H; done).
Qed.
Lemma apply_from_the_key cur (log : list KeyChange) now c : (cur = [] \/ exists v, Put v ∈ log /\ shows cur (Put v) now) -> c ∈ log ->
  apply_change cur c now = [] \/ exists v, Put v ∈ log /\ shows (apply_change cur c now) (Put v) now.
Proof.
  intros Hcur Hc. pose proof (apply_change_spec cur c now) as H. destruct (readable c); [|by rewrite H].
  destruct c as [v|]; [|by left]. right. by exists v.
Qed.
Lemma store_step_from_the_key s s' : store_step s s' -> task_shows s -> from_the_key s -> from_the_key s'.
Proof.
  unfold from_the_key. intros [Hs|Hs] Ht Hk.
  - destruct Hs as [cur log now n|cur log now n|cur kv r log now n|cur r log now n|cur r o p c log now n Hc|cur t log now n _|cur u log now n _];
      cbn in *; try done.
    + destruct Ht as [_ ->]. destruct (kv_after _) as [v|] eqn:Hv; [|done]. by apply (apply_from_the_key cur log now (Put v)), (kv_readable _ _ r).
    + apply (apply_from_the_key cur log now c); [done|]. by eapply list_elem_of_lookup_2.
  - destruct Hs as [cur t log now n c|cur t log now now' n Hn]; cbn in *; destruct Hk as [|(v & Hv & H)]; (by left) || right; exists v.
    + split; [|done]. apply elem_of_app. by left.
    + split; [done|]. destruct H as (u & ? & ?). exists u. split; [lia|done].
Qed.
Lemma store_step_spaced start s s' : store_step s s' -> spaced start s -> spaced start s'.
Proof.
  unfold spaced. intros [Hs|Hs]; destruct Hs; cbn in *; unfold RECONNECT_DELAY in *; try done; try lia; destruct t; try done; lia.
Qed.
Lemma reachable_invariant log read start s :
  read <= length log -> rtc store_step (etcd_connect log read start) s -> task_shows s /\ from_the_key s /\ spaced start s.
Proof.
  intros Hr Hs. assert (H0 : let s := etcd_connect log read start in task_shows s /\ from_the_key s /\ spaced start s).
  { split_and!; [done| |cbn; lia]. unfold from_the_key. cbn. destruct (kv_after (take read log)) as [v|] eqn:Hv; [|by left].
    cbn. destruct (decode_directive_set v start) as [set|] eqn:Hd; [|by left]. right. exists v.
    split; [by eapply kv_readable|]. by exists start. }
  revert H0. induction Hs as [s|s s' s'' Hs _ IH]; [done|]. intros (H1 & H2 & H3). apply IH. split_and!.
  - destruct Hs; [by eapply task_step_shows|by eapply world_step_shows].
  - by eapply store_step_from_the_key.
  - by eapply store_step_spaced.
Qed.
(** An attempt that nothing interrupts. *)
Lemma attempt_runs cur log now n : exists cur',
  rtc store_step (MkEtcdStore cur Dialling log now n) (MkEtcdStore cur' (Streaming (length log) (length log) (length log)) log now n).
Proof.
  eexists. eapply rtc_l; [left; apply dialled|]. eapply rtc_l; [left; apply answered|].
  eapply rtc_l; [left; apply read_applied|]. apply rtc_once. left. apply watch_opened.
Qed.
(** Wherever the task is, its attempt can end, and the next begin. *)
Lemma dials_again s : exists cur now n, rtc store_step s (MkEtcdStore cur Dialling (key_log s) now n).
Proof.
  assert (Hw : forall cur u log now n, exists now' n', rtc store_step (MkEtcdStore cur (Sleeping u) log now n) (MkEtcdStore cur Dialling log now' n')).
  { intros cur u log now n. exists (MkInstant (Z.max u (nanos now))), (S n).
    eapply rtc_l; [right; apply (time_passed _ _ _ _ (MkInstant (Z.max u (nanos now)))); cbn; lia|].
    apply rtc_once. left. apply woken. cbn. lia. }
  destruct s as [cur t log now n].
  assert (He : forall cur t, match t with Dialling | Reading | Opening _ | Streaming _ _ _ => True | _ => False end ->
    exists now' n', rtc store_step (MkEtcdStore cur t log now n) (MkEtcdStore cur Dialling log now' n')).
  { intros cur' t' Ht. destruct (Hw cur' (nanos now + RECONNECT_DELAY)%Z log now n) as (now' & n' & H). exists now', n'.
    eapply rtc_l; [left; by apply attempt_ended|done]. }
  destruct t as [| |kv r|r|r o p|u]; cbn [key_log].
  - by exists cur, now, n.
  - destruct (He cur Reading I) as (now' & n' & H). by exists cur, now', n'.
  - destruct (He (match kv with Some v => apply_value cur v now | None => cur end) (Opening r) I) as (now' & n' & H).
    eexists _, now', n'. eapply rtc_l; [left; apply read_applied|done].
  - destruct (He cur (Opening r) I) as (now' & n' & H). by exists cur, now', n'.
  - destruct (He cur (Streaming r o p) I) as (now' & n' & H). by exists cur, now', n'.
  - destruct (Hw cur u log now n) as (now' & n' & H). by exists cur, now', n'.
Qed.
Lemma streamed_caught_up s r v :
  streamed_shows s r r (length (key_log s)) -> kv_after (key_log s) = Some v -> readable (Put v) = true ->
  shows (et_current s) (Put v) (et_now s).
Proof.
  intros (_ & _ & H) Hv Hr. rewrite firstn_all in H. unfold kv_after in Hv.
  destruct (last (key_log s)) as [[w|]|] eqn:Hl; [|done|done]. injection Hv as ->.
  apply last_Some in Hl as [cs Hl]. rewrite Hl in H. destruct (decide (r <= length cs)) as [Hrs|Hrs].
  - rewrite drop_app_le, last_readable_snoc, Hr in H by done. done.
  - rewrite drop_ge in H by (rewrite length_app; cbn; lia). apply H; [|done].
    rewrite take_ge by (rewrite length_app; cbn; lia). unfold kv_after. by rewrite last_snoc.
Qed.

(** C37: The watched snapshot follows its key. Whatever operators publish, and however often
    the connection fails: the snapshot is empty or a value that was put, decoded whole and
    no later than now, so a malformed value never replaces a good one; the task dials at
    most once per delay; while a watch is open, the snapshot shows the last change it
    delivered that can be read and, before any, the value read at the start of the attempt;
    so, with everything delivered and no change between that read and the opening of the
    watch, it shows the key's value if that can be read; and from every state the task can
    come to such a point. *)
Theorem snapshot_follows_the_key log read start s :
  read <= length log -> rtc store_step (etcd_connect log read start) s ->
  (et_current s = [] \/ exists v, Put v ∈ key_log s /\ shows (et_current s) (Put v) (et_now s))
  /\ (Z.of_nat (et_dials s - 1) * RECONNECT_DELAY <= nanos (et_now s) - nanos start)%Z
  /\ (forall r o p, et_task s = Streaming r o p ->
       (r <= o <= p /\ p <= length (key_log s))
       /\ match last_readable (drop o (take p (key_log s))) with
          | Some c => shows (et_current s) c (et_now s)
          | None => forall v, kv_after (take r (key_log s)) = Some v -> readable (Put v) = true -> shows (et_current s) (Put v) (et_now s)
          end
       /\ (r = o -> p = length (key_log s) -> forall v, kv_after (key_log s) = Some v -> readable (Put v) = true ->
            shows (et_current s) (Put v) (et_now s)))
  /\ exists s' r, rtc store_step s s' /\ key_log s' = key_log s /\ et_task s' = Streaming r r (length (key_log s)).
Proof.
  intros Hr Hs. destruct (reachable_invariant _ _ _ _ Hr Hs) as (Ht & Hk & Hd). split_and!; [done| | |].
  - revert Hd. unfold spaced, RECONNECT_DELAY. destruct (et_task s); lia.
  - intros r o p Hst. unfold task_shows in Ht. rewrite Hst in Ht. pose proof Ht as (? & ? & H). split; [done|]. split; [done|].
    intros <- -> v. by apply streamed_caught_up with r.
  - destruct (dials_again s) as (cur & now & n & H1). destruct (attempt_runs cur (key_log s) now n) as (cur' & H2).
    eexists _, (length (key_log s)). split; [by etrans|]. done.
Qed.
End Etcd.

(** ** What the watch misses *)
Section Runs.
#[local] Existing Instance publish_serde.
#[local] Existing Instance publish_int.
Definition acme_set (expires : Z) : DirectiveSet :=
  [MkDirective (lit "d1") (for_tenant match_all (lit "acme")) LevelShape 1000 (MkInstant expires) false true].
Definition second : Z := 1000000000.


(** A change between the read and the opening of the watch is in neither. *)
Example a_change_can_slip_between : exists s,
  rtc store_step (etcd_connect [] 0 (MkInstant 0)) s /\ et_task s = Streaming 0 1 1
  /\ key_log s = [Put (lit "acme")] /\ store_load s = [].
Proof.
  eexists. split.
  - do 3 (eapply rtc_l; [left; constructor|]). eapply rtc_l; [right; apply (key_changed _ _ _ _ _ (Put (lit "acme")))|].
    apply rtc_once. left. apply watch_opened.
  - done.
Qed.
(** The steps of an attempt that ends, one that begins a second later, and its read. *)
Lemma reconnects cur r o p log now n : exists cur',
  rtc store_step (MkEtcdStore cur (Streaming r o p) log now n)
    (MkEtcdStore cur' (Streaming (length log) (length log) (length log)) log (MkInstant (nanos now + RECONNECT_DELAY)) (S n))
  /\ cur' = match kv_after log with Some v => apply_value cur v (MkInstant (nanos now + RECONNECT_DELAY)) | None => cur end.
Proof.
  eexists. split; [|reflexivity]. eapply rtc_l; [left; by apply attempt_ended|].
  eapply rtc_l; [right; apply (time_passed _ _ _ _ (MkInstant (nanos now + RECONNECT_DELAY))); unfold RECONNECT_DELAY; cbn; lia|].
  eapply rtc_l; [left; apply woken; cbn; lia|]. eapply rtc_l; [left; apply dialled|]. eapply rtc_l; [left; apply answered|].
  eapply rtc_l; [left; apply read_applied|]. apply rtc_once. left. apply watch_opened.
Qed.
(** A key that is deleted while the task is away leaves its directives in force. *)
Example a_deletion_can_be_missed : exists s,
  rtc store_step (MkEtcdStore (acme_set (60 * second)) (Streaming 1 1 1) [Put (lit "acme"); Delete] (MkInstant 0) 1) s
  /\ et_task s = Streaming 2 2 2 /\ kv_after (key_log s) = None /\ store_load s = acme_set (60 * second).
Proof.
  destruct (reconnects (acme_set (60 * second)) 1 1 1 [Put (lit "acme"); Delete] (MkInstant 0) 1) as (cur & Hs & ->).
  eexists. split; [exact Hs|]. done.
Qed.
(** A value that never changes is given its time to live again by every attempt. *)
Example a_reconnect_renews_the_ttl : exists s,
  rtc store_step (MkEtcdStore (acme_set (60 * second)) (Streaming 1 1 1) [Put (lit "acme")] (MkInstant (59 * second)) 1) s
  /\ key_log s = [Put (lit "acme")] /\ store_load s = acme_set (120 * second).
Proof.
  destruct (reconnects (acme_set (60 * second)) 1 1 1 [Put (lit "acme")] (MkInstant (59 * second)) 1) as (cur & Hs & Hcur).
  eexists. split; [exact Hs|]. split; [done|]. cbn [store_load etcd_store et_current]. rewrite Hcur. vm_compute. reflexivity.
Qed.

(** A malformed value after a good one. *)
Definition published_log : list KeyChange := [Put (lit "acme"); Put (lit "not json")].
Definition watched : EtcdDirectiveStore :=
  MkEtcdStore (acme_set (60 * second)) (Streaming 1 1 2) published_log (MkInstant 0) 1.
Lemma watched_reached : rtc store_step (etcd_connect [Put (lit "acme")] 1 (MkInstant 0)) watched.
Proof.
  do 3 (eapply rtc_l; [left; constructor|]). eapply rtc_l; [left; apply watch_opened|].
  eapply rtc_l; [right; apply (key_changed _ _ _ _ _ (Put (lit "not json")))|]. apply rtc_once. left.
  refine (eq_rect _ (task_step _) (event_applied _ 1 1 1 (Put (lit "not json")) published_log (MkInstant 0) 1 eq_refl) _ _). vm_compute. reflexivity.
Qed.
Lemma snapshot_follows_the_key_witness :
  (et_current watched = [] \/ exists v, Put v ∈ key_log watched /\ shows (et_current watched) (Put v) (et_now watched))
  /\ (Z.of_nat (et_dials watched - 1) * RECONNECT_DELAY <= nanos (et_now watched) - nanos (MkInstant 0))%Z
  /\ (forall r o p, et_task watched = Streaming r o p ->
       (r <= o <= p /\ p <= length (key_log watched))
       /\ match last_readable (drop o (take p (key_log watched))) with
          | Some c => shows (et_current watched) c (et_now watched)
          | None => forall v, kv_after (take r (key_log watched)) = Some v -> readable (Put v) = true -> shows (et_current watched) (Put v) (et_now watched)
          end
       /\ (r = o -> p = length (key_log watched) -> forall v, kv_after (key_log watched) = Some v -> readable (Put v) = true ->
            shows (et_current watched) (Put v) (et_now watched)))
  /\ exists s' r, rtc store_step watched s' /\ key_log s' = key_log watched /\ et_task s' = Streaming r r (length (key_log watched)).
Proof.
  apply (snapshot_follows_the_key [Put (lit "acme")] 1 (MkInstant 0) watched); [cbn; lia|exact watched_reached].
Defined.
End Runs.
