(* ===== verification/Metrics.v ===== *)
(** * Metrics ([crates/osproxy-observe/src]: stats, tenant_metrics)

    The counters of the proxy, which tasks share as atomics; the opt-in counters per tenant;
    and the text that exposes those to a scraper, against a reader of its format. *)
From stdpp Require Import base option list strings numbers sets gmap pretty relations.
From Stdlib Require Import Ascii ZArith Lia.
From S2P Require Import Prelude.

Open Scope osp_scope.

(** ** [stats.rs]

    A request is recorded by two atomic additions, first to the total and then to the
    bucket of its outcome; other tasks may come between them. *)
Record Metrics : Type := MkMetrics { requests_total : Z; requests_ok : Z; requests_error : Z }.
Definition metrics_new : Metrics := MkMetrics 0 0 0.
Definition count_total (m : Metrics) : Metrics :=
  MkMetrics (u64_wrap (requests_total m + 1)) (requests_ok m) (requests_error m).
Definition count_outcome (m : Metrics) (ok : bool) : Metrics :=
  if ok then MkMetrics (requests_total m) (u64_wrap (requests_ok m + 1)) (requests_error m)
  else MkMetrics (requests_total m) (requests_ok m) (u64_wrap (requests_error m + 1)).
Record PoolSnapshot : Type := MkPoolSnapshot { ps_cluster : str; ps_opened : Z; ps_dispatched : Z; ps_reused : Z }.
Record StatsSnapshot : Type := MkStatsSnapshot { st_total : Z; st_ok : Z; st_error : Z; st_pools : list PoolSnapshot }.
(** A snapshot loads the three counters one after the other. *)
Inductive Counter : Type := TotalRequests | OkRequests | ErrorRequests.
Definition load_counter (m : Metrics) (c : Counter) : Z :=
  match c with TotalRequests => requests_total m | OkRequests => requests_ok m | ErrorRequests => requests_error m end.

(** The tasks between their two additions, with the outcome each is about to count. *)
Record Counting : Type := MkCounting { shared : Metrics; between : list bool }.
Inductive counting_step : Counting -> Counting -> Prop :=
| record_total m bs ok : counting_step (MkCounting m bs) (MkCounting (count_total m) (ok :: bs))
| record_outcome m bs1 ok bs2 :
    counting_step (MkCounting m (bs1 ++ ok :: bs2)) (MkCounting (count_outcome m ok) (bs1 ++ bs2)).
Lemma counting_step_balance s s' : counting_step s s' ->
  requests_total (shared s) = u64_wrap (requests_ok (shared s) + requests_error (shared s) + Z.of_nat (length (between s))) ->
  requests_total (shared s') = u64_wrap (requests_ok (shared s') + requests_error (shared s') + Z.of_nat (length (between s'))).
Proof.
  intros [m bs ok|m bs1 ok bs2]; cbn [shared between]; intros Hb.
  - cbn. rewrite Hb. unfold u64_wrap. rewrite Zplus_mod_idemp_l. f_equal. lia.
  - rewrite length_app in *. cbn [length] in Hb. unfold u64_wrap in *. destruct ok; cbn; rewrite Hb; unfold u64_wrap.
    + rewrite <- !Z.add_assoc, Zplus_mod_idemp_l. f_equal. lia.
    + rewrite (Z.add_comm (requests_ok m) (_ mod _)), <- !Z.add_assoc, Zplus_mod_idemp_l. f_equal. lia.
Qed.
(** Wherever a scrape falls, the requests it does not see the outcome of are those between
    their two additions; none is counted twice or lost. *)
Theorem metrics_balance s :
  rtc counting_step (MkCounting metrics_new []) s ->
  requests_total (shared s) = u64_wrap (requests_ok (shared s) + requests_error (shared s) + Z.of_nat (length (between s))).
Proof.
  intros Hr. remember (MkCounting metrics_new []) as s0 eqn:H0.
  assert (Hb : requests_total (shared s0) = u64_wrap (requests_ok (shared s0) + requests_error (shared s0) + Z.of_nat (length (between s0))))
    by (by rewrite H0).
  clear H0. induction Hr as [s|s s' s'' Hs _ IH]; [done|]. apply IH. by apply (counting_step_balance s).
Qed.

(** ** [tenant_metrics.rs]

    The map is a third-party cache that may drop a tenant that has been idle, or any tenant
    once it is full: [Evicted] is its choice. *)
Record Counters : Type := MkCounters { requests : Z; failures : Z; duration_nanos : Z }.
Definition counters_default : Counters := MkCounters 0 0 0.
Record TenantSnapshot : Type := MkTenantSnapshot { tenant : str; t_requests : Z; t_failures : Z; t_duration_nanos : Z }.
Definition count_request (c : Counters) (ok : bool) (nanos : Z) : Counters :=
  MkCounters (u64_wrap (requests c + 1)) (if ok then failures c else u64_wrap (failures c + 1))
    (u64_wrap (duration_nanos c + nanos)).
Definition tenant_record (m : gmap str Counters) (t : str) (ok : bool) (nanos : Z) : gmap str Counters :=
  <[t := count_request (default counters_default (m !! t)) ok nanos]> m.
Definition tenant_snapshot (entries : list (str * Counters)) : list TenantSnapshot :=
  (fun e : str * Counters => MkTenantSnapshot e.1 (requests e.2) (failures e.2) (duration_nanos e.2)) <$> entries.

Definition metric_header (name kind help : str) : str :=
  lit "# HELP " ++ name ++ lit " " ++ help ++ ["010"%char] ++ lit "# TYPE " ++ name ++ lit " " ++ kind ++ ["010"%char].
Definition quote : byte := "034".
Definition backslash : byte := "\".
(** [str::replace] of one character. *)
Definition replace_char (c : byte) (by_text : str) (s : str) : str :=
  mjoin ((fun d => if Ascii.eqb d c then by_text else [d]) <$> s).
Definition escape (value : str) : str :=
  replace_char quote [backslash; quote] (replace_char backslash [backslash; backslash] value).
Definition sample (name t : str) (value : Z) : str :=
  name ++ lit "{tenant=" ++ [quote] ++ escape t ++ [quote] ++ lit "} " ++ lit (pretty value) ++ ["010"%char].
(** The three metrics, with what each takes from a tenant's counters. *)
Definition tenant_families : list (str * str * (TenantSnapshot -> Z)) :=
  [(lit "osproxy_tenant_requests_total", lit "Total requests seen for this tenant.", t_requests);
   (lit "osproxy_tenant_failures_total", lit "Requests for this tenant that ended in a 4xx/5xx status.", t_failures);
   (lit "osproxy_tenant_latency_nanos_total",
    lit "Cumulative wall-time spent serving this tenant's requests, in nanoseconds.", t_duration_nanos)].
Definition to_prometheus_text (snapshot : list TenantSnapshot) : str :=
  mjoin ((fun f : str * str * (TenantSnapshot -> Z) =>
            metric_header f.1.1 (lit "counter") f.1.2 ++ mjoin ((fun s => sample f.1.1 (tenant s) (f.2 s)) <$> snapshot))
           <$> tenant_families).

(** ** The counters of a tenant *)
Inductive TenantEvent : Type := Recorded (t : str) (ok : bool) (nanos : Z) | Evicted (t : str).
Definition tenant_apply (m : gmap str Counters) (e : TenantEvent) : gmap str Counters :=
  match e with Recorded t ok nanos => tenant_record m t ok nanos | Evicted t => delete t m end.
(** What was recorded for [t] since it was last evicted, most recent first. *)
Fixpoint recent (t : str) (history : list TenantEvent) : list (bool * Z) :=
  match history with
  | [] => []
  | Recorded u ok nanos :: history => if str_eqb u t then (ok, nanos) :: recent t history else recent t history
  | Evicted u :: history => if str_eqb u t then [] else recent t history
  end.
Definition counted (es : list (bool * Z)) : Counters :=
  MkCounters (u64_wrap (Z.of_nat (length es))) (u64_wrap (Z.of_nat (length (List.filter (fun e => negb e.1) es))))
    (u64_wrap (foldr (fun e n => e.2 + n)%Z 0%Z es)).
Lemma count_counted ok nanos es : count_request (counted es) ok nanos = counted ((ok, nanos) :: es).
Proof.
  unfold count_request, counted, u64_wrap. cbn [requests failures duration_nanos foldr length snd fst List.filter negb].
  rewrite !Zplus_mod_idemp_l. f_equal; [f_equal; lia| |f_equal; lia].
  destruct ok; cbn [negb length]; [done|]. rewrite ?Zplus_mod_idemp_l. f_equal. lia.
Qed.
(** However the cache evicts, a tenant that is in the map has the counts of exactly the
    requests recorded for it since it was last dropped, and no other tenant's. *)
Theorem tenant_counts_are_its_own history t :
  foldr (fun e m => tenant_apply m e) ∅ history !! t
  = match recent t history with [] => None | es => Some (counted es) end.
Proof.
  induction history as [|[u ok nanos|u] history IH]; cbn [foldr tenant_apply recent]; [done| |].
  - unfold tenant_record. destruct (str_eqb u t) eqn:Hu.
    + apply str_eqb_eq in Hu as ->. rewrite lookup_insert_eq, IH. f_equal.
      destruct (recent t history) as [|e es]; cbn [default]; [|apply count_counted].
      change counters_default with (counted []). apply count_counted.
    + rewrite lookup_insert_ne; [done|]. intros ->. by rewrite str_eqb_refl in Hu.
  - destruct (str_eqb u t) eqn:Hu; [apply str_eqb_eq in Hu as ->; by rewrite lookup_delete_eq|].
    rewrite lookup_delete_ne; [done|]. intros ->. by rewrite str_eqb_refl in Hu.
Qed.

(** ** Reading a scrape

    The exposition format, as a scraper reads it: comments, and samples whose label value
    ends at the first quote that no backslash escapes. A line that is neither is an error
    of the whole scrape. *)
Definition newline : byte := "010".
Fixpoint read_label (s : str) : option (str * str) :=
  match s with
  | [] => None
  | c :: s =>
      if Ascii.eqb c quote then Some ([], s)
      else if Ascii.eqb c backslash then
        match s with
        | [] => None
        | d :: s => '(v, r) ← read_label s; Some ((if Ascii.eqb d "n" then newline else d) :: v, r)
        end
      else '(v, r) ← read_label s; Some (c :: v, r)
  end.
Definition read_sample (line : str) : option (str * str * Z) :=
  '(name, r) ← split_once "{" line;
  r ← strip_prefix (lit "tenant=" ++ [quote]) r;
  '(t, r) ← read_label r;
  r ← strip_prefix (lit "} ") r;
  n ← parse_unsigned u64_max r;
  Some (name, t, n).
Fixpoint read_lines (lines : list str) : option (list (str * str * Z)) :=
  match lines with
  | [] => Some []
  | l :: lines =>
      if bool_decide (l = []) || starts_with (lit "#") l then read_lines lines
      else s ← read_sample l; ss ← read_lines lines; Some (s :: ss)
  end.
Definition read_scrape (text : str) : option (list (str * str * Z)) := read_lines (split newline text).

(** Numbers in decimal read back. *)
Definition digits_value (acc : Z) (ds : str) : Z := foldl (fun n c => n * 10 + (bz c - 48))%Z acc ds.
Lemma pretty_digit x : (x < 10)%N -> bz (pretty_N_char x) = (48 + Z.of_N x)%Z.
Proof. destruct x as [|p]; [done|]. intros Hp. do 4 (destruct p as [p|p|]; try reflexivity; try lia). Qed.
Lemma pretty_N_go_value x s :
  Forall (fun c => is_ascii_digit c = true) (lit s) ->
  Forall (fun c => is_ascii_digit c = true) (lit (pretty_N_go x s))
  /\ digits_value 0 (lit (pretty_N_go x s)) = digits_value (Z.of_N x) (lit s).
Proof.
  revert s. induction (N.lt_wf_0 x) as [x _ IH]. intros s Hs. destruct (decide (x = 0)%N) as [->|Hx]; [done|].
  rewrite pretty_N_go_step by lia. assert (Hm : (x `mod` 10 < 10)%N) by (by apply N.mod_lt).
  pose proof (pretty_digit _ Hm) as Hd. destruct (IH (x `div` 10)%N (N.div_lt x 10 ltac:(lia) eq_refl) (String (pretty_N_char (x `mod` 10)) s)) as [H1 H2].
  - constructor; [|done]. unfold is_ascii_digit. rewrite Hd.
    revert Hm. generalize (x `mod` 10)%N. intros d Hlt. apply andb_true_intro. split; apply Z.leb_le; lia.
  - split; [done|]. rewrite H2. unfold lit. cbn [String.list_ascii_of_string digits_value foldl]. unfold digits_value. f_equal. rewrite Hd.
    rewrite N2Z.inj_div, N2Z.inj_mod. pose proof (Z.div_mod (Z.of_N x) 10 ltac:(lia)). lia.
Qed.
Lemma pretty_Z_value n : (0 <= n)%Z ->
  Forall (fun c => is_ascii_digit c = true) (lit (pretty n)) /\ digits_value 0 (lit (pretty n)) = n /\ lit (pretty n) <> [].
Proof.
  intros Hn. destruct n as [|p|p]; [split_and!; [by repeat constructor|done|done]| |lia].
  change (pretty (Z.pos p)) with (pretty_N_go (N.pos p) EmptyString).
  destruct (pretty_N_go_value (N.pos p) EmptyString (List.Forall_nil _)) as [H1 H2]. split; [done|]. rewrite H2. split; [done|].
  intros Hnil. rewrite Hnil in H2. done.
Qed.
Lemma parse_pretty max n : (0 <= n <= max)%Z -> parse_unsigned max (lit (pretty n)) = Some n.
Proof.
  intros Hn. destruct (pretty_Z_value n) as (Hd & Hv & Hne); [lia|]. unfold parse_unsigned.
  destruct (lit (pretty n)) as [|c ds] eqn:Hl; [done|].
  assert (Hc : Ascii.eqb c "+" = false).
  { apply Forall_cons in Hd as [Hd _]. apply Ascii.eqb_neq. intros ->. discriminate Hd. }
  rewrite Hc. cbn zeta. assert (Hf : forallb is_ascii_digit (c :: ds) = true).
  { apply forallb_forall. intros x Hx%list_elem_of_In. by apply (proj1 (Forall_forall _ _) Hd). }
  rewrite Hf. change (foldl _ 0%Z (c :: ds)) with (digits_value 0 (c :: ds)). rewrite Hv.
  by rewrite (proj2 (Z.ltb_ge max n)) by lia.
Qed.
Lemma pretty_no_newline n : (0 <= n)%Z -> newline ∉ lit (pretty n).
Proof.
  intros Hn Hin. destruct (pretty_Z_value n Hn) as (Hd & _). by pose proof (proj1 (Forall_forall _ _) Hd _ Hin).
Qed.

(** Labels read back, and stay on their line. *)
Lemma replace_char_cons c t d s : replace_char c t (d :: s) = (if Ascii.eqb d c then t else [d]) ++ replace_char c t s.
Proof. done. Qed.
Lemma replace_char_app c t s1 s2 : replace_char c t (s1 ++ s2) = replace_char c t s1 ++ replace_char c t s2.
Proof. unfold replace_char. by rewrite fmap_app, join_app. Qed.
Lemma escape_cons c s :
  escape (c :: s) = (if Ascii.eqb c backslash then [backslash; backslash] else if Ascii.eqb c quote then [backslash; quote] else [c]) ++ escape s.
Proof.
  unfold escape. rewrite replace_char_cons, replace_char_app. f_equal.
  destruct (Ascii.eqb_spec c backslash) as [->|Hb]; [reflexivity|]. cbn. by destruct (Ascii.eqb c quote).
Qed.
Lemma read_label_escape t rest : newline ∉ t -> read_label (escape t ++ quote :: rest) = Some (t, rest).
Proof.
  induction t as [|c t IH]; intros Hn; [done|]. rewrite escape_cons. rewrite elem_of_cons in Hn.
  destruct (Ascii.eqb_spec c backslash) as [->|Hb].
  - cbn. by rewrite IH by tauto.
  - destruct (Ascii.eqb_spec c quote) as [->|Hq]; cbn; [by rewrite IH by tauto|].
    rewrite (proj2 (Ascii.eqb_neq c quote)), (proj2 (Ascii.eqb_neq c backslash)) by done. by rewrite IH by tauto.
Qed.
Lemma escape_no_newline t : newline ∉ t -> newline ∉ escape t.
Proof.
  induction t as [|c t IH]; [done|]. rewrite elem_of_cons, escape_cons, elem_of_app. intros Hn [H|H]; [|by apply IH; tauto].
  destruct (Ascii.eqb c backslash); [set_unfold; naive_solver|].
  destruct (Ascii.eqb c quote); set_unfold; naive_solver.
Qed.

(** The text, line by line. *)
Definition family_lines (snapshot : list TenantSnapshot) (f : str * str * (TenantSnapshot -> Z)) : list str :=
  [lit "# HELP " ++ f.1.1 ++ lit " " ++ f.1.2; lit "# TYPE " ++ f.1.1 ++ lit " " ++ lit "counter"]
  ++ ((fun s => f.1.1 ++ lit "{tenant=" ++ quote :: escape (tenant s) ++ quote :: lit "} " ++ lit (pretty (f.2 s))) <$> snapshot).
Definition text_of (lines : list str) : str := mjoin ((fun l => l ++ [newline]) <$> lines).
Lemma text_of_app l1 l2 : text_of (l1 ++ l2) = text_of l1 ++ text_of l2.
Proof. unfold text_of. by rewrite fmap_app, join_app. Qed.
Lemma text_of_cons l lines : text_of (l :: lines) = l ++ newline :: text_of lines.
Proof. unfold text_of. cbn. by rewrite <- app_assoc. Qed.
Lemma split_text_of lines : Forall (fun l => newline ∉ l) lines -> split newline (text_of lines) = lines ++ [[]].
Proof.
  induction 1 as [|l lines Hl _ IH]; [done|]. rewrite text_of_cons, split_cut by done. by rewrite IH.
Qed.
Lemma prometheus_lines snapshot : to_prometheus_text snapshot = text_of (tenant_families ≫= family_lines snapshot).
Proof.
  unfold to_prometheus_text. induction tenant_families as [|f fs IH]; [done|].
  rewrite fmap_cons, bind_cons, text_of_app, <- IH. cbn [mjoin list_join]. f_equal. clear.
  unfold family_lines. rewrite text_of_app. f_equal.
  - unfold metric_header. rewrite !text_of_cons. cbn [text_of fmap list_fmap mjoin list_join]. by rewrite <- !app_assoc.
  - induction snapshot as [|s snapshot IHs]; [done|]. rewrite !fmap_cons, text_of_cons, <- IHs. cbn [mjoin list_join].
    unfold sample. rewrite <- !app_assoc. cbn [app]. repeat (f_equal; rewrite <- ?app_assoc; cbn [app]).
Qed.
Lemma read_sample_written name t n :
  newline ∉ t -> "{"%char ∉ name -> (0 <= n <= u64_max)%Z ->
  read_sample (name ++ lit "{tenant=" ++ quote :: escape t ++ quote :: lit "} " ++ lit (pretty n)) = Some (name, t, n).
Proof.
  intros Ht Hname Hn. unfold read_sample. change (lit "{tenant=" ++ ?r) with ("{"%char :: lit "tenant=" ++ r).
  rewrite split_once_cut by done. cbn [mbind option_bind].
  change (lit "tenant=" ++ quote :: ?r) with ((lit "tenant=" ++ [quote]) ++ r).
  rewrite strip_prefix_app. cbn [mbind option_bind].
  rewrite read_label_escape by done. cbn [mbind option_bind]. rewrite strip_prefix_app. cbn [mbind option_bind].
  by rewrite parse_pretty.
Qed.
Lemma read_lines_app l1 l2 : read_lines (l1 ++ l2) = (a ← read_lines l1; b ← read_lines l2; Some (a ++ b)).
Proof.
  induction l1 as [|l l1 IH]; cbn [app read_lines]; [by destruct (read_lines l2)|]. destruct (_ || _); [done|].
  destruct (read_sample l) as [s|]; [|done]. cbn [mbind option_bind]. rewrite IH.
  destruct (read_lines l1) as [a|]; [|done]. cbn. by destruct (read_lines l2).
Qed.
Definition plain_family (f : str * str * (TenantSnapshot -> Z)) : Prop :=
  (exists n, f.1.1 = "o"%char :: n) /\ "{"%char ∉ f.1.1 /\ newline ∉ f.1.1 /\ newline ∉ f.1.2.
Definition fits (f : str * str * (TenantSnapshot -> Z)) (s : TenantSnapshot) : Prop :=
  newline ∉ tenant s /\ (0 <= f.2 s <= u64_max)%Z.
Lemma families_plain : Forall plain_family tenant_families.
Proof.
  repeat constructor; cbn; try (by eexists); apply (bool_decide_unpack _); reflexivity.
Qed.
Lemma family_lines_clean snapshot f : plain_family f -> Forall (fits f) snapshot -> Forall (fun l => newline ∉ l) (family_lines snapshot f).
Proof.
  intros (_ & _ & Hn & Hh) Hs. unfold family_lines. repeat constructor; cbn [app].
  1, 2: assert (Hlit : newline ∉ lit "# HELP " /\ newline ∉ lit "# TYPE " /\ newline ∉ lit " " /\ newline ∉ lit "counter")
    by (split_and!; apply (bool_decide_unpack _); reflexivity); rewrite !elem_of_app; tauto.
  apply Forall_fmap. eapply Forall_impl; [exact Hs|]. intros s [Ht Hv]. unfold compose.
  assert (Hlit : newline ∉ lit "{tenant=" /\ newline <> quote /\ newline ∉ lit "} ")
    by (split_and!; [| done |]; apply (bool_decide_unpack _); reflexivity).
  destruct Hlit as (H1 & H2 & H3). pose proof (escape_no_newline _ Ht). pose proof (pretty_no_newline (f.2 s) ltac:(lia)).
  repeat (rewrite elem_of_app || rewrite elem_of_cons). tauto.
Qed.
Lemma read_family snapshot f : plain_family f -> Forall (fits f) snapshot ->
  read_lines (family_lines snapshot f) = Some ((fun s => (f.1.1, tenant s, f.2 s)) <$> snapshot).
Proof.
  intros ((n & Hf) & Hb & Hn & Hh) Hs. unfold family_lines. cbn [app read_lines]. rewrite !orb_true_r by done.
  induction Hs as [|s snapshot [Ht Hv] _ IH]; [done|]. rewrite !fmap_cons. cbn [read_lines].
  rewrite read_sample_written by done. rewrite IH, Hf. done.
Qed.

(** A scrape reads back what was counted. For tenants without a line feed in their
    names, whatever quotes, backslashes and braces are in them, a reader of the exposition
    format finds in the text, for each of the three metrics in order, one sample per live
    tenant, with the tenant's name and count. *)
Theorem scrape_reads_back snapshot :
  Forall (fun s => newline ∉ tenant s /\ (0 <= t_requests s <= u64_max)%Z /\ (0 <= t_failures s <= u64_max)%Z
    /\ (0 <= t_duration_nanos s <= u64_max)%Z) snapshot ->
  read_scrape (to_prometheus_text snapshot)
  = Some (tenant_families ≫= (fun f => (fun s => (f.1.1, tenant s, f.2 s)) <$> snapshot)).
Proof.
  intros Hs. assert (Hf : Forall (fun f => plain_family f /\ Forall (fits f) snapshot) tenant_families).
  { apply Forall_and. split; [apply families_plain|].
    repeat constructor; (eapply Forall_impl; [exact Hs|]); intros s (? & ? & ? & ?); done. }
  unfold read_scrape. rewrite prometheus_lines, split_text_of.
  - induction Hf as [|f fs [Hp Hx] _ IH]; [done|]. rewrite !bind_cons, <- app_assoc, read_lines_app, read_family by done.
    cbn [mbind option_bind]. by rewrite IH.
  - induction Hf as [|f fs [Hp Hx] _ IH]; [constructor|]. rewrite bind_cons. apply Forall_app. split; [|done]. by apply family_lines_clean.
Qed.

(** ** Runs *)
Section Runs.
Definition two_tenants : list TenantSnapshot :=
  tenant_snapshot [(lit "acme", MkCounters 2 1 30); ([quote; backslash], MkCounters 1 0 7)].
Lemma scrape_reads_back_witness :
  read_scrape (to_prometheus_text two_tenants)
  = Some (tenant_families ≫= (fun f => (fun s => (f.1.1, tenant s, f.2 s)) <$> two_tenants)).
Proof.
  apply (scrape_reads_back two_tenants). repeat constructor; cbn; unfold u64_max; try lia; apply (bool_decide_unpack _); reflexivity.
Defined.
(** A line feed in a tenant's name is not escaped: the scrape of every tenant fails. *)
Example line_feed_breaks_the_scrape :
  read_scrape (to_prometheus_text (tenant_snapshot [(lit "acme", MkCounters 2 1 30); (["a"; newline; "b"]%char, MkCounters 1 0 7)])) = None.
Proof. vm_compute. reflexivity. Qed.
End Runs.
