(* ===== verification/Otlp.v ===== *)
(** * Exported spans ([crates/osproxy-observe/src]: otlp, export; [crates/osproxy-otlp/src/lib.rs])

    The payload that tells a collector of a request: one span per request, made from the
    request's trace.  The exporter posts it in a task of its own. *)
From stdpp Require Import base option list strings numbers pretty relations.
From Stdlib Require Import Ascii ZArith Lia.
From S2P Require Import Prelude.
From S2P Require Import Hex.
From S2P Require Import Trace.
From S2P Require Import CoreTypes.
From S2P Require Import Serde.
From S2P Require Import ReqTrace.
From S2P Require Import Observe.

Open Scope osp_scope.

(** The name that [derive(Debug)] writes. *)
Definition endpoint_debug (e : EndpointKind) : str :=
  match e with
  | IngestDoc => lit "IngestDoc" | IngestBulk => lit "IngestBulk" | GetById => lit "GetById" | DeleteById => lit "DeleteById"
  | MultiGet => lit "MultiGet" | Search => lit "Search" | MultiSearch => lit "MultiSearch" | Count => lit "Count"
  | DeleteByQuery => lit "DeleteByQuery" | Cursor => lit "Cursor" | Admin => lit "Admin" | Unknown => lit "Unknown"
  end.
Definition SPAN_KIND_SERVER : Z := 2.
Definition STATUS_OK : Z := 1.
Definition STATUS_ERROR : Z := 2.

Section Otlp.
Context {Sd : Serde} {Si : SerdeInt}.

Definition attr (key : str) (v : str * value) : value := json_object [(lit "key", String key); (lit "value", json_object [v])].
Definition attr_str (key v : str) : value := attr key (lit "stringValue", String v).
Definition attr_int (key : str) (v : Z) : value := attr key (lit "intValue", String (lit (pretty v))).
Definition attr_bool (key : str) (v : bool) : value := attr key (lit "boolValue", Bool v).
Definition attr_strs (key : str) (vs : list str) : value :=
  attr key (lit "arrayValue", json_object [(lit "values", Array ((fun v => json_object [(lit "stringValue", String v)]) <$> vs))]).

(** The attributes of each stage that was recorded. *)
Definition stage {A} (o : option A) (f : A -> list value) : list value := match o with Some a => f a | None => [] end.
Definition attributes (request_id : RequestId) (t : RequestTrace) : list value :=
  [attr_str (lit "osproxy.request.id") request_id]
  ++ stage (rt_ingress t) (fun i => attr_str (lit "osproxy.protocol") (ii_protocol i)
       :: stage (ii_tls_reused i) (fun reused => [attr_bool (lit "tls.session_reused") reused]))
  ++ stage (rt_classify t) (fun c => [attr_str (lit "osproxy.endpoint") (endpoint_debug (ci_endpoint c));
       attr_bool (lit "osproxy.request.is_write") (is_write (ci_endpoint c))])
  ++ stage (rt_resolve t) (fun r => [attr_str (lit "osproxy.partition.id") (ri_partition r);
       attr_str (lit "osproxy.placement.kind") (ri_placement_kind r); attr_str (lit "osproxy.target.cluster") (ri_cluster r);
       attr_str (lit "osproxy.target.index") (ri_index r); attr_int (lit "osproxy.epoch") (get (ri_epoch r));
       attr_strs (lit "osproxy.inject.field_names") (ri_inject_fields r); attr_bool (lit "osproxy.routing") (ri_routing r);
       attr_str (lit "osproxy.migration.phase") (ri_migration r)])
  ++ stage (rt_rewrite t) (fun r => [attr_str (lit "osproxy.rewrite.kind") (wi_transform_kind r);
       attr_int (lit "osproxy.rewrite.body_bytes") (wi_body_bytes r)])
  ++ stage (rt_dispatch t) (fun d => [attr_int (lit "osproxy.upstream.status") (di_upstream_status d);
       attr_bool (lit "osproxy.pool.reuse") (di_pool_reuse d)])
  ++ stage (rt_egress t) (fun e => [attr_int (lit "http.response.status_code") (ei_status e);
       attr_int (lit "osproxy.response.bytes") (ei_response_bytes e)])
  ++ stage (rt_error t) (fun e => [attr_str (lit "osproxy.error.code") (as_slug (code e));
       attr_bool (lit "osproxy.error.retryable") (retryable e)]).
Definition span_name (t : RequestTrace) : str :=
  match rt_classify t with Some c => endpoint_debug (ci_endpoint c) | None => lit "request" end.
(** A member assigned by index is inserted. *)
Definition set_member (v : value) (key : str) (x : value) : value :=
  match v with Object m => Object (map_insert m key x) | v => v end.
Definition span_json (request_id : RequestId) (t : RequestTrace) (context : TraceContext) (start_nanos end_nanos : Z) : value :=
  let status := match rt_error t with
                | Some e => json_object [(lit "code", num STATUS_ERROR); (lit "message", String (as_slug (code e)))]
                | None => json_object [(lit "code", num STATUS_OK)]
                end in
  let span := json_object [(lit "traceId", String (trace_id_hex context)); (lit "spanId", String (span_id_hex context));
    (lit "name", String (span_name t)); (lit "kind", num SPAN_KIND_SERVER);
    (lit "startTimeUnixNano", String (lit (pretty start_nanos))); (lit "endTimeUnixNano", String (lit (pretty end_nanos)));
    (lit "attributes", Array (attributes request_id t)); (lit "status", status)] in
  match parent_span_id_hex context with
  | Some parent => set_member span (lit "parentSpanId") (String parent)
  | None => span
  end.
Definition resource_spans (service_name : str) (request_id : RequestId) (t : RequestTrace) (start_nanos end_nanos : Z) : option value :=
  context ← rt_context t;
  Some (json_object [(lit "resourceSpans", Array [json_object [
    (lit "resource", json_object [(lit "attributes", Array [attr_str (lit "service.name") service_name])]);
    (lit "scopeSpans", Array [json_object [
       (lit "scope", json_object [(lit "name", String (lit "osproxy"))]);
       (lit "spans", Array [span_json request_id t context start_nanos end_nanos])]])]])]).

(** ** What is exported *)
(** Every key that can be exported, in order. *)
Definition ATTRIBUTE_KEYS : list str := lit <$>
  ["osproxy.request.id"; "osproxy.protocol"; "tls.session_reused"; "osproxy.endpoint"; "osproxy.request.is_write";
   "osproxy.partition.id"; "osproxy.placement.kind"; "osproxy.target.cluster"; "osproxy.target.index"; "osproxy.epoch";
   "osproxy.inject.field_names"; "osproxy.routing"; "osproxy.migration.phase"; "osproxy.rewrite.kind";
   "osproxy.rewrite.body_bytes"; "osproxy.upstream.status"; "osproxy.pool.reuse"; "http.response.status_code";
   "osproxy.response.bytes"; "osproxy.error.code"; "osproxy.error.retryable"]%string.
Definition key_of (a : value) : option str := value_get a (lit "key") ≫= as_str.
Lemma key_of_attr key v : key_of (attr key v) = Some key.
Proof. done. Qed.
(** The one span of a payload. *)
Definition only (v : value) : option value := match v with Array [x] => Some x | _ => None end.
Definition exported_span (payload : value) : option value :=
  r ← value_get payload (lit "resourceSpans"); r ← only r;
  s ← value_get r (lit "scopeSpans"); s ← only s; s ← value_get s (lit "spans"); only s.
Lemma sublist_stage {A} (o : option A) f keys :
  (forall a, omap key_of (f a) `sublist_of` keys) -> omap key_of (stage o f) `sublist_of` keys.
Proof. destruct o; cbn; auto. intros _. apply sublist_nil_l. Qed.
Lemma omap_app_keys l1 l2 : omap key_of (l1 ++ l2) = omap key_of l1 ++ omap key_of l2.
Proof. induction l1 as [|a l1 IH]; [done|]. cbn. destruct (key_of a); cbn; by rewrite IH. Qed.
Lemma attributes_keys request_id t : omap key_of (attributes request_id t) `sublist_of` ATTRIBUTE_KEYS.
Proof.
  unfold attributes. rewrite !omap_app_keys.
  change ATTRIBUTE_KEYS with (take 1 ATTRIBUTE_KEYS ++ take 2 (drop 1 ATTRIBUTE_KEYS) ++ take 2 (drop 3 ATTRIBUTE_KEYS)
    ++ take 8 (drop 5 ATTRIBUTE_KEYS) ++ take 2 (drop 13 ATTRIBUTE_KEYS) ++ take 2 (drop 15 ATTRIBUTE_KEYS)
    ++ take 2 (drop 17 ATTRIBUTE_KEYS) ++ drop 19 ATTRIBUTE_KEYS).
  repeat apply sublist_app; try (apply sublist_stage; intros a; reflexivity); [reflexivity|].
  apply sublist_stage. intros i. cbn. destruct (ii_tls_reused i); cbn; repeat constructor.
Qed.

(** The exported span is the hop that the upstream sees. A request that recorded a trace
    context exports one span, and no other request exports any: its trace and span ids are
    the ones of the [traceparent] header sent upstream, so the upstream's spans nest under
    it; it names the caller's span as its parent exactly when the request continued one; its
    status is an error exactly when the request recorded one; and its attributes are in the
    fixed order of a fixed set of keys, each at most once. *)
Theorem exported_span_is_the_hop service_name request_id t start_nanos end_nanos :
  match rt_context t with
  | None => resource_spans service_name request_id t start_nanos end_nanos = None
  | Some c =>
      exists payload s tid sid attrs st, resource_spans service_name request_id t start_nanos end_nanos = Some payload
      /\ exported_span payload = Some s
      /\ value_get s (lit "traceId") = Some (String tid) /\ value_get s (lit "spanId") = Some (String sid)
      /\ to_traceparent c = VERSION ++ lit "-" ++ tid ++ lit "-" ++ sid ++ lit "-" ++ lit (if sampled c then "01" else "00")
      /\ value_get s (lit "parentSpanId") = String <$> parent_span_id_hex c
      /\ value_get s (lit "status") = Some st
      /\ value_get st (lit "code") = Some (num (match rt_error t with Some _ => STATUS_ERROR | None => STATUS_OK end))
      /\ value_get s (lit "attributes") = Some (Array attrs) /\ omap key_of attrs `sublist_of` ATTRIBUTE_KEYS
  end.
Proof.
  unfold resource_spans. destruct (rt_context t) as [c|]; [|done]. cbn [mbind option_bind].
  assert (Htp : to_traceparent c = VERSION ++ lit "-" ++ trace_id_hex c ++ lit "-" ++ span_id_hex c ++ lit "-"
    ++ lit (if sampled c then "01" else "00")).
  { unfold to_traceparent, trace_id_hex, span_id_hex. rewrite !push_hex_app. cbn [app]. rewrite <- !app_assoc. cbn [app].
    destruct (sampled c); reflexivity. }
  unfold span_json. destruct (parent_span_id_hex c) as [parent|], (rt_error t) as [e|];
    eexists _, _, (trace_id_hex c), (span_id_hex c), (attributes request_id t), _;
    (split_and!; [reflexivity|reflexivity|reflexivity|reflexivity|exact Htp|reflexivity|reflexivity|reflexivity|reflexivity|]);
    apply attributes_keys.
Qed.
End Otlp.

(** ** The exporter *)
Section Exporter.
Context {Sd : Serde} {SpanState : Type}.
(** [SpanExporter]: whether it does anything, and what handing it a payload does. *)
Record SpanExporter : Type := MkSpanExporter { exports : bool; export : value -> SpanState -> SpanState }.
Definition noop_exporter : SpanExporter := MkSpanExporter false (fun _ s => s).
End Exporter.

Definition MAX_INFLIGHT : nat := 256.
(** [trim_end_matches] of a character. *)
Definition trim_end_matches (c : byte) (s : str) : str := take (length s - count_while (Ascii.eqb c) (reverse s)) s.

Section Posting.
Context {Sd : Serde}.
(** Whether the [http] crate builds a request to a URI. *)
Context (request_builds : str -> bool).

(** The exporter: where it posts, and whether a runtime was there when it was built. *)
Record OtlpHttpExporter : Type := MkOtlpExporter { otlp_endpoint_url : str; otlp_handle : bool }.
Definition otlp_exporter_new (endpoint_base : str) (handle : bool) : OtlpHttpExporter :=
  MkOtlpExporter (trim_end_matches "/" endpoint_base ++ lit "/v1/traces") handle.

(** A task has its payload, or is waiting for its post (or the timeout), each with a
    permit. *)
Inductive ExportTask : Type := Spawned (payload : value) | Posting (b : bytes).
(** The tasks alive, everything handed over so far, and the posts made. *)
Record ExportState : Type := MkExportState { ex_tasks : list ExportTask; ex_handed : list value; ex_posts : list (str * bytes) }.
Context (e : OtlpHttpExporter).
(** [export]: it never waits. *)
Definition otlp_export (payload : value) (s : ExportState) : ExportState :=
  if negb (otlp_handle e) then MkExportState (ex_tasks s) (payload :: ex_handed s) (ex_posts s)
  else if MAX_INFLIGHT <=? length (ex_tasks s) then MkExportState (ex_tasks s) (payload :: ex_handed s) (ex_posts s)
  else MkExportState (Spawned payload :: ex_tasks s) (payload :: ex_handed s) (ex_posts s).
Definition otlp_http_exporter : SpanExporter := MkSpanExporter true otlp_export.
(** What a task can do next: [None] when it ends, and the post it makes. *)
Inductive task_event : ExportTask -> option ExportTask -> list (str * bytes) -> Prop :=
| payload_not_written payload : to_vec payload = None -> task_event (Spawned payload) None []
| request_not_built payload b : to_vec payload = Some b -> request_builds (otlp_endpoint_url e) = false -> task_event (Spawned payload) None []
| payload_posted payload b :
    to_vec payload = Some b -> request_builds (otlp_endpoint_url e) = true ->
    task_event (Spawned payload) (Some (Posting b)) [(otlp_endpoint_url e, b)]
| post_ended b : task_event (Posting b) None [].
Inductive export_step : ExportState -> ExportState -> Prop :=
| span_exported payload s : export_step s (otlp_export payload s)
| task_moved ts1 t ts2 t' posts handed posted :
    task_event t t' posts ->
    export_step (MkExportState (ts1 ++ t :: ts2) handed posted) (MkExportState (ts1 ++ option_list t' ++ ts2) handed (posts ++ posted)).

Definition spawned_payloads (ts : list ExportTask) : list value := omap (fun t => match t with Spawned p => Some p | _ => None end) ts.
(** Every payload handed over is waiting in its task, was posted, or is lost; none twice. *)
Definition export_ok (s : ExportState) : Prop :=
  length (ex_tasks s) <= MAX_INFLIGHT /\ (otlp_handle e = false -> ex_tasks s = [] /\ ex_posts s = [])
  /\ exists posted lost, ex_handed s ≡ₚ spawned_payloads (ex_tasks s) ++ posted ++ lost
     /\ Forall2 (fun p post => to_vec p = Some post.2 /\ post.1 = otlp_endpoint_url e) posted (ex_posts s).
Lemma export_step_ok s s' : export_step s s' -> export_ok s -> export_ok s'.
Proof.
  intros [payload [ts handed posts]|ts1 t ts2 t' posts handed posted Ht] (Hl & Hh & posted' & lost & Hp & Hf); cbn in *.
  - assert (Hlost : forall u, u = MkExportState ts (payload :: handed) posts -> export_ok u).
    { intros u ->. split_and!; [done|done|]. exists posted', (payload :: lost). split; [|done]. cbn. rewrite Hp. solve_Permutation. }
    unfold otlp_export. cbn [ex_tasks ex_handed ex_posts]. destruct (otlp_handle e) eqn:Hb; cbn [negb]; [|by apply Hlost].
    destruct (Nat.leb_spec MAX_INFLIGHT (length ts)); [by apply Hlost|]. split_and!; cbn [ex_tasks ex_posts ex_handed length]; [lia|by rewrite Hb|].
    exists posted', lost. split; [|done]. cbn. by rewrite Hp.
  - unfold export_ok. cbn. rewrite !length_app in *. cbn in *. split_and!.
    + destruct t'; cbn; lia.
    + intros [H _]%Hh. by destruct ts1.
    + unfold spawned_payloads in *. rewrite omap_app in *. cbn in *.
      destruct Ht as [payload H|payload b H1 H2|payload b H1 H2|b]; cbn in *.
      * exists posted', (payload :: lost). split; [|done]. rewrite Hp. solve_Permutation.
      * exists posted', (payload :: lost). split; [|done]. rewrite Hp. solve_Permutation.
      * exists (payload :: posted'), lost. split; [|by constructor]. rewrite Hp. solve_Permutation.
      * exists posted', lost. split; [|done]. by rewrite Hp.
Qed.
(** Exporting is bounded and off the path of the request. At most 256 tasks are alive; every
    post goes to the collector's trace endpoint with the bytes of one payload handed over,
    each payload at most once; without a runtime nothing is posted. *)
Theorem exporting_is_bounded s :
  rtc export_step (MkExportState [] [] []) s ->
  length (ex_tasks s) <= 256 /\ (otlp_handle e = false -> ex_posts s = [])
  /\ exists posted rest, ex_handed s ≡ₚ posted ++ rest
     /\ Forall2 (fun p post => to_vec p = Some post.2 /\ post.1 = otlp_endpoint_url e) posted (ex_posts s).
Proof.
  intros Hr. assert (H0 : export_ok (MkExportState [] [] [])) by (split_and!; [cbn; lia|done|by exists [], []]).
  assert (H : export_ok s) by (revert H0; induction Hr as [s|s s' s'' Hs _ IH]; [done|]; intros H; by apply IH, (export_step_ok s)).
  destruct H as (Hl & Hh & posted & lost & Hp & Hf). split_and!; [done|by intros [_ ?]%Hh|].
  exists posted, (spawned_payloads (ex_tasks s) ++ lost). split; [|done]. rewrite Hp. solve_Permutation.
Qed.
End Posting.
