(* ===== verification/Engine.v ===== *)
(** * The request pipeline ([crates/osproxy-engine/src/pipeline.rs], [endpoints.rs],
    [pit.rs], [dbq.rs], [admin.rs], [passthrough.rs])

    One handler per endpoint, over the calls of [Effects], each leaving its spans in the
    request's trace; and the dispatch that chooses the handler. *)
From stdpp Require Import base option list strings numbers sets gmap pretty.
From Stdlib Require Import Ascii ZArith Lia.
From S2P Require Import Prelude.
From S2P Require Import JsonScan.
From S2P Require Import JsonProps.
From S2P Require Import Trace.
From S2P Require Import CoreTypes.
From S2P Require Import Serde.
From S2P Require Import DocId.
From S2P Require Import Hex.
From S2P Require Import Cursor.
From S2P Require Import Bulk.
From S2P Require Import Spi.
From S2P Require Import Tenancy.
From S2P Require Import Sink.
From S2P Require Import Plan.
From S2P Require Import ReadPath.
From S2P Require Import SearchScan.
From S2P Require Import Prog.
From S2P Require Import Effects.
From S2P Require Import Retry.
From S2P Require Import AsyncWrite.
From S2P Require Import BulkPrep.
From S2P Require Import BulkFlow.
From S2P Require Import BulkStream.
From S2P Require Import BulkQueue.
From S2P Require Import ReqTrace.
From S2P Require Import CursorBody.
From S2P Require Import FanOut.
From S2P Require Import MultiRead.

Open Scope osp_scope.

(** ** Policies *)
Record AdminPolicy : Type := MkAdminPolicy {
  ap_cluster : ClusterId;
  allowed_prefixes : list str;
  ap_endpoint : option str
}.
Definition admin_policy_new (cluster : ClusterId) (allowed_prefixes : list str) : AdminPolicy :=
  MkAdminPolicy cluster allowed_prefixes None.
Definition admin_with_endpoint (p : AdminPolicy) (endpoint : str) : AdminPolicy :=
  MkAdminPolicy (ap_cluster p) (allowed_prefixes p) (Some endpoint).
Definition allows (p : AdminPolicy) (path : str) : bool :=
  if existsb (fun seg => str_eqb seg (lit "..")) (split "/" path) then false
  else existsb (fun pre => starts_with pre path) (allowed_prefixes p).
Record PassthroughPolicy : Type := MkPassthroughPolicy {
  pp_cluster : ClusterId;
  pp_endpoint : option str;
  index_prefixes : list str
}.
Definition passthrough_policy_new (cluster : ClusterId) (endpoint : str) : PassthroughPolicy :=
  MkPassthroughPolicy cluster (Some endpoint) [].
Definition with_index_prefixes (p : PassthroughPolicy) (prefixes : list str) : PassthroughPolicy :=
  MkPassthroughPolicy (pp_cluster p) (pp_endpoint p) prefixes.
Definition matches_index (p : PassthroughPolicy) (logical_index : str) : bool :=
  match index_prefixes p with
  | [] => true
  | prefixes => existsb (fun pre => starts_with pre logical_index) prefixes
  end.

(** The configuration a request reads; [exporting] and [queue_enabled] are what the span
    exporter and the write queue answer to [enabled()]. *)
Record Pipeline : Type := MkPipeline {
  retry : RetryPolicy;
  exporting : bool;
  process_seed : Z;
  cursor_signer : option CursorSigner;
  admin_policy : option AdminPolicy;
  passthrough_policy : option PassthroughPolicy;
  baseline_write_mode : WriteMode;
  queue_enabled : bool;
  delete_by_query_expansion : bool
}.
(** [Pipeline::new]. *)
Definition pipeline_new (seed : Z) : Pipeline := MkPipeline retry_default false seed None None None Sync false false.
Definition with_delete_by_query_expansion (p : Pipeline) (on : bool) : Pipeline :=
  MkPipeline (retry p) (exporting p) (process_seed p) (cursor_signer p) (admin_policy p) (passthrough_policy p)
    (baseline_write_mode p) (queue_enabled p) on.
Definition with_baseline_write_mode (p : Pipeline) (mode : WriteMode) : Pipeline :=
  MkPipeline (retry p) (exporting p) (process_seed p) (cursor_signer p) (admin_policy p) (passthrough_policy p)
    mode (queue_enabled p) (delete_by_query_expansion p).
Definition with_passthrough (p : Pipeline) (policy : PassthroughPolicy) : Pipeline :=
  MkPipeline (retry p) (exporting p) (process_seed p) (cursor_signer p) (admin_policy p) (Some policy)
    (baseline_write_mode p) (queue_enabled p) (delete_by_query_expansion p).
Definition with_admin_passthrough (p : Pipeline) (policy : AdminPolicy) : Pipeline :=
  MkPipeline (retry p) (exporting p) (process_seed p) (cursor_signer p) (Some policy) (passthrough_policy p)
    (baseline_write_mode p) (queue_enabled p) (delete_by_query_expansion p).
Definition with_cursor_signer (p : Pipeline) (signer : CursorSigner) : Pipeline :=
  MkPipeline (retry p) (exporting p) (process_seed p) (Some signer) (admin_policy p) (passthrough_policy p)
    (baseline_write_mode p) (queue_enabled p) (delete_by_query_expansion p).
Definition with_retry_policy (p : Pipeline) (retry : RetryPolicy) : Pipeline :=
  MkPipeline retry (exporting p) (process_seed p) (cursor_signer p) (admin_policy p) (passthrough_policy p)
    (baseline_write_mode p) (queue_enabled p) (delete_by_query_expansion p).

Definition write_mode (p : Pipeline) (ctx : RequestCtx) : WriteMode :=
  resolve_write_mode (baseline_write_mode p) (header_get (ctx_headers ctx) (lit "x-write-mode")).
Definition is_sync_write (p : Pipeline) (headers : list (str * str)) : bool :=
  write_mode_eqb (resolve_write_mode (baseline_write_mode p) (header_get headers (lit "x-write-mode"))) Sync.
Definition is_passthrough (p : Pipeline) (logical_index : str) : bool :=
  match passthrough_policy p with Some policy => matches_index policy logical_index | None => false end.

(** ** The trace context sent upstream *)
Definition b3_single (ctx : RequestCtx) : option str :=
  let h := header_get (ctx_headers ctx) in
  match h (lit "b3") with
  | Some single => Some single
  | None =>
      trace ← h (lit "x-b3-traceid"); span ← h (lit "x-b3-spanid");
      Some (trace ++ lit "-" ++ span
            ++ match h (lit "x-b3-sampled") with Some sampled => lit "-" ++ sampled | None => [] end)
  end.
Definition wire_trace (p : Pipeline) (ctx : RequestCtx) : TraceContext :=
  propagate_with_b3 (process_seed p) (header_get (ctx_headers ctx) (lit "traceparent"))
    (header_get (ctx_headers ctx) (lit "tracestate")) (b3_single ctx) (request_id ctx).
Definition upstream_trace (p : Pipeline) (ctx : RequestCtx) : option TraceContext :=
  if exporting p then Some (wire_trace p ctx) else None.

(** ** Handlers

    A handler threads the request's trace; on an error the spans recorded so far stay. *)
Section Handlers.
Context {Sd : Serde}.
Definition handler (A : Type) : Type := RequestTrace -> prog (Result A RequestError * RequestTrace).
Definition hret {A} (a : A) : handler A := fun t => Ret (Ok a, t).
Definition herr {A} (e : RequestError) : handler A := fun t => Ret (Err e, t).
Definition hpure {A} (r : Result A RequestError) : handler A := fun t => Ret (r, t).
Definition hlift {A} (m : prog (Result A RequestError)) : handler A := fun t => bind m (fun r => Ret (r, t)).
Definition hcall {A E} (f : E -> RequestError) (c : Call (Result A E)) : handler A :=
  fun t => bind (call c) (fun r => Ret (map_err f r, t)).
Definition hnote (f : RequestTrace -> RequestTrace) : handler unit := fun t => Ret (Ok tt, f t).
Definition hbind {A B} (m : handler A) (k : A -> handler B) : handler B :=
  fun t => bind (m t) (fun out => match out with (Ok a, t) => k a t | (Err e, t) => Ret (Err e, t) end).
End Handlers.
Notation "'do!' x ':=' m 'in' k" := (hbind m (fun x => k))
  (at level 200, x pattern, m at level 100, k at level 200, right associativity) : osp_scope.
Notation "'note!' f 'in' k" := (hbind (hnote f) (fun _ => k))
  (at level 200, f at level 100, k at level 200, right associativity) : osp_scope.

Record StreamSearch : Type := MkStreamSearch { st_status : Z; st_body : ByteBody }.
Definition DBQ_MAX_MATCHES : Z := 10000.

Section Endpoints.
Context {Sd : Serde} {Si : SerdeInt} {W : Wide} {M : Memchr} {Mm : Memmem} {R : Router}.
Context (p : Pipeline) (ctx : RequestCtx).

Definition resolve_with_retry : handler Resolved :=
  hlift (lift_err ReqSpi (with_retry (retry p) (Resolve ctx))).
Definition gate_write (resolved : Resolved) : handler unit :=
  let epoch := epoch (r_decision resolved) in
  fun t => await! ok := call (AdmitWrite (r_partition resolved) epoch) in
           Ret (if ok then Ok tt else Err (ReqStaleEpoch epoch), t).
(** Resolving and its span, the way most handlers begin. *)
Definition resolve_recorded : handler Resolved :=
  do! resolved := resolve_with_retry in
  note! record_resolve (resolve_info resolved) in
  hret resolved.
Definition stamp_batch (batch : WriteBatch) : WriteBatch :=
  batch_with_forward_headers (batch_with_trace batch (upstream_trace p ctx)) (forward_headers ctx).

(** ** Single documents *)
Definition response_for (resolved : Resolved) (ack : WriteAck) : PipelineResponse :=
  match results ack with
  | [] => MkResponse 200 (lit "{}") None
  | result :: _ =>
      let outcome := if res_created result then lit "created" else lit "updated" in
      let logical_id := logical_write_id resolved (res_id result) in
      MkResponse (res_status result)
        (default (lit "{}") (to_vec (json_object [(lit "_id", String logical_id); (lit "result", String outcome)]))) None
  end.
Definition ingest_doc : handler PipelineResponse :=
  do! resolved := resolve_recorded in
  do! batch := hpure (build_write_batch resolved (ctx_body ctx)) in
  note! record_rewrite (rewrite_info resolved batch) in
  if write_mode_eqb (write_mode p ctx) Async then
    fun t => await! resp := enqueue_async (queue_enabled p) ctx resolved batch in Ret (Ok resp, t)
  else
    do! _ := gate_write resolved in
    do! ack := hcall ReqSink (SinkWrite (stamp_batch batch)) in
    note! record_dispatch (dispatch_info resolved ack) in
    hret (response_for resolved ack).
Definition get_by_id : handler PipelineResponse :=
  do! resolved := resolve_recorded in
  do! logical_id := hpure (ok_or (doc_id ctx) (ReqInternal (lit "get-by-id reached the engine without a document id"))) in
  do! (read_op, shape) := hpure (build_read_op resolved logical_id) in
  do! outcome := hcall ReqSink (SinkGet
    (read_with_forward_headers (read_with_trace read_op (upstream_trace p ctx)) (forward_headers ctx))) in
  note! record_dispatch (read_dispatch_info resolved (ro_status outcome) (ro_pool_reuse outcome)) in
  if ro_found outcome then
    do! b := hpure (shape_found (ro_body outcome) (logical_index ctx) logical_id (inject_names shape)) in
    hret (MkResponse 200 b None)
  else hret (MkResponse 404 (not_found_body (logical_index ctx) logical_id) None).
Definition delete_by_id : handler PipelineResponse :=
  do! resolved := resolve_recorded in
  do! logical_id := hpure (ok_or (doc_id ctx) (ReqInternal (lit "delete-by-id reached the engine without a document id"))) in
  do! op := hpure (build_delete_op resolved logical_id) in
  if write_mode_eqb (write_mode p ctx) Async then
    fun t => await! resp := enqueue_async (queue_enabled p) ctx resolved (batch_single op) in Ret (Ok resp, t)
  else
    do! _ := gate_write resolved in
    do! ack := hcall ReqSink (SinkWrite (stamp_batch (batch_single op))) in
    note! record_dispatch (dispatch_info resolved ack) in
    let status := match results ack with r :: _ => res_status r | [] => 200%Z end in
    hret (MkResponse status (shape_delete (logical_index ctx) logical_id status) None).

(** ** Searches *)
Definition stamp_search (op : SearchOp) : SearchOp :=
  search_with_forward_headers (search_with_trace op (upstream_trace p ctx)) (forward_headers ctx).
Definition stamp_cursor (op : CursorOp) : CursorOp :=
  cursor_with_forward_headers (cursor_with_trace op (upstream_trace p ctx)) (forward_headers ctx).
Definition wrap_scroll_id (b : bytes) (cluster : ClusterId) : bytes :=
  match cursor_signer p with
  | None => b
  | Some signer => if has_scroll_id b then wrap_scroll_id_in_response (Sg := signer) b cluster else b
  end.
Definition cursor_dispatched (cluster : ClusterId) (outcome : CursorOutcome) : DispatchInfo :=
  MkDispatchInfo cluster (cr_status outcome) (cr_pool_reuse outcome).

(** [pit.rs]. *)
Definition pit_search (wrapped_pit : str) : handler PipelineResponse :=
  do! signer := hpure (ok_or (cursor_signer p) (ReqCursor (lit "cursor affinity is not enabled"))) in
  do! (cluster, real_pit) :=
    hpure (ok_or (Cursor.unwrap (Signer := signer) wrapped_pit) (ReqCursor (lit "pit envelope is invalid or expired"))) in
  do! resolved := resolve_recorded in
  do! (search_op, shape) := hpure (build_search_op resolved (ctx_body ctx)) in
  let b := rewrite_pit_id (so_body search_op) real_pit in
  let op := cursor_with_credentials (cursor_with_endpoint
              (cursor_op_new cluster (ctx_method ctx) (lit "/_search") b)
              (router_cluster_endpoint cluster)) (router_upstream_credentials cluster) in
  do! outcome := hcall ReqSink (SinkCursor (stamp_cursor op)) in
  note! record_dispatch (cursor_dispatched cluster outcome) in
  do! stripped := hpure (shape_hits (cr_body outcome) (logical_index ctx) (r_partition resolved) shape) in
  hret (MkResponse (cr_status outcome) (wrap_pit_id_in_response (Sg := signer) stripped cluster) None).
Definition pit_create : handler PipelineResponse :=
  do! resolved := resolve_recorded in
  let target := target (r_decision resolved) in
  let path := lit "/" ++ index target ++ lit "/_search/point_in_time" in
  let op := cursor_with_query (cursor_with_credentials (cursor_with_endpoint
              (cursor_op_new (cluster target) (ctx_method ctx) path (ctx_body ctx))
              (endpoint target)) (credentials target)) (forwardable_query (ctx_query ctx)) in
  do! outcome := hcall ReqSink (SinkCursor (stamp_cursor op)) in
  let b := match cursor_signer p with
           | Some signer => wrap_pit_id_in_response (Sg := signer) (cr_body outcome) (cluster target)
           | None => cr_body outcome
           end in
  note! record_dispatch (cursor_dispatched (cluster target) outcome) in
  hret (MkResponse (cr_status outcome) b None).
(** The real ids by pinned cluster, in the order of the map. *)
Fixpoint group_pits (signer : CursorSigner) (wrapped_ids : list str) (by_cluster : list (ClusterId * list str))
    : Result (list (ClusterId * list str)) RequestError :=
  match wrapped_ids with
  | [] => Ok by_cluster
  | wrapped :: wrapped_ids =>
      let? (cluster, real) :=
        ok_or (Cursor.unwrap (Signer := signer) wrapped) (ReqCursor (lit "pit envelope is invalid or expired")) in
      group_pits signer wrapped_ids (map_insert by_cluster cluster (default [] (map_get by_cluster cluster) ++ [real]))
  end.
Fixpoint close_loop (by_cluster : list (ClusterId * list str)) (status : Z) (merged_pits : list value)
    : handler (Z * list value) :=
  match by_cluster with
  | [] => hret (status, merged_pits)
  | (cluster, real_ids) :: by_cluster =>
      let b := default [] (to_vec (json_object [(lit "pit_id", Array (String <$> real_ids))])) in
      let op := cursor_with_credentials (cursor_with_endpoint
                  (cursor_op_new cluster (ctx_method ctx) (lit "/_search/point_in_time") b)
                  (router_cluster_endpoint cluster)) (router_upstream_credentials cluster) in
      do! outcome := hcall ReqSink (SinkCursor (stamp_cursor op)) in
      note! record_dispatch (cursor_dispatched cluster outcome) in
      let pits := default [] (v ← from_slice (cr_body outcome); value_get v (lit "pits") ≫= as_array) in
      close_loop by_cluster (if (400 <=? cr_status outcome)%Z then cr_status outcome else status) (merged_pits ++ pits)
  end.
Definition pit_delete (wrapped_ids : list str) : handler PipelineResponse :=
  do! signer := hpure (ok_or (cursor_signer p) (ReqCursor (lit "cursor affinity is not enabled"))) in
  do! by_cluster := hpure (group_pits signer wrapped_ids []) in
  do! (status, merged_pits) := close_loop by_cluster 200 [] in
  hret (MkResponse status (default (body "{'pits':[]}") (to_vec (json_object [(lit "pits", Array merged_pits)]))) None).

Definition search : handler PipelineResponse :=
  match (match cursor_signer p with Some _ => pit_id_in_body (ctx_body ctx) | None => None end) with
  | Some wrapped => pit_search wrapped
  | None =>
      do! resolved := resolve_recorded in
      do! (search_op, shape) := hpure (build_search_op resolved (ctx_body ctx)) in
      do! outcome := hcall ReqSink (SinkSearch (stamp_search (search_with_query search_op (forwardable_query (ctx_query ctx))))) in
      note! record_dispatch (read_dispatch_info resolved (se_status outcome) (se_pool_reuse outcome)) in
      do! b := hpure (shape_hits (se_body outcome) (logical_index ctx) (r_partition resolved) shape) in
      hret (MkResponse (se_status outcome) (wrap_scroll_id b (cluster (target (r_decision resolved)))) None)
  end.
Definition count : handler PipelineResponse :=
  do! resolved := resolve_recorded in
  do! (search_op, _) := hpure (build_search_op resolved (ctx_body ctx)) in
  do! outcome := hcall ReqSink (SinkCount (stamp_search search_op)) in
  note! record_dispatch (read_dispatch_info resolved (co_status outcome) (co_pool_reuse outcome)) in
  hret (MkResponse (co_status outcome) (body "{'count':" ++ lit (pretty (co_count outcome)) ++ lit "}") None).

(** ** Cursors *)
Definition cursor : handler PipelineResponse :=
  match cursor_signer p with
  | None => herr (ReqCursor (lit "cursor affinity is not enabled"))
  | Some signer =>
      match logical_index ctx with
      | _ :: _ => pit_create
      | [] =>
          match pit_ids_in_delete_body (ctx_body ctx) with
          | Some pit_ids => pit_delete pit_ids
          | None =>
              do! req := hpure (ok_or (cursor_request ctx) (ReqCursor (lit "no cursor id in the request"))) in
              do! (cluster, real_id) :=
                hpure (ok_or (Cursor.unwrap (Signer := signer) (cr_wrapped req))
                         (ReqCursor (lit "cursor envelope is invalid or expired"))) in
              let b := rewrite_cursor_body (ctx_body ctx) (cr_id_field req) real_id in
              let op := cursor_with_credentials (cursor_with_endpoint
                          (cursor_op_new cluster (ctx_method ctx) (cr_upstream_path req) b)
                          (router_cluster_endpoint cluster)) (router_upstream_credentials cluster) in
              do! outcome := hcall ReqSink (SinkCursor (stamp_cursor op)) in
              note! record_dispatch (cursor_dispatched cluster outcome) in
              hret (MkResponse (cr_status outcome) (wrap_scroll_id (cr_body outcome) cluster) None)
          end
      end
  end.

(** ** Delete by query ([dbq.rs]) *)
(** [v[key]]: [Null] when there is no such member. *)
Definition value_index (v : value) (key : str) : value := default Null (value_get v key).
Definition as_u64 (v : value) : option Z := match v with Number n => num_u64 n | _ => None end.
Definition cap_ids_only (b : bytes) : Result bytes RequestError :=
  let? doc := ok_or (from_slice b) (ReqRewrite RwInvalidJson) in
  let? obj := ok_or (as_object doc) (ReqInternal (lit "search body is not an object")) in
  let obj := map_insert obj (lit "size") (Number (int_num (DBQ_MAX_MATCHES + 1))) in
  let obj := map_insert obj (lit "_source") (Bool false) in
  let obj := map_insert obj (lit "track_total_hits") (Bool true) in
  ok_or (to_vec (Object obj)) (ReqInternal (lit "serializing delete-by-query search body")).
Definition run_match_search (resolved : Resolved) : handler value :=
  do! (search_op, _) := hpure (build_search_op resolved (ctx_body ctx)) in
  do! b := hpure (cap_ids_only (so_body search_op)) in
  do! outcome := hcall ReqSink (SinkSearch (stamp_search (search_with_body search_op b))) in
  hpure (ok_or (from_slice (se_body outcome)) (ReqRewrite RwInvalidJson)).
Definition match_write (resolved : Resolved) (i : nat) (physical_id : str) : QueuedWrite :=
  MkQueuedWrite (item_op_id (op_id_for ctx (request_id ctx)) i) (r_partition resolved)
    (batch_single (build_delete_op_physical resolved physical_id)).
Fixpoint enqueue_deletes (resolved : Resolved) (i : nat) (ids : list str) (deleted : Z) (failures : list value)
    : prog (Z * list value) :=
  match ids with
  | [] => Ret (deleted, failures)
  | physical_id :: ids =>
      await! r := call (Enqueue (match_write resolved i physical_id)) in
      match r with
      | Ok _ => enqueue_deletes resolved (S i) ids (deleted + 1)%Z failures
      | Err _ =>
          enqueue_deletes resolved (S i) ids deleted
            (failures ++ [json_object [(lit "status", Number (int_num 503)); (lit "type", String (lit "enqueue_failed"))]])
      end
  end.
Definition matched_ids (doc : value) : list str :=
  omap (fun hit => as_str (value_index hit (lit "_id")))
    (default [] (as_array (value_index (value_index doc (lit "hits")) (lit "hits")))).
Definition matched_total (doc : value) : Z :=
  default 0%Z (as_u64 (value_index (value_index (value_index doc (lit "hits")) (lit "total")) (lit "value"))).
Definition delete_by_query : handler PipelineResponse :=
  let index := logical_index ctx in
  if negb (write_mode_eqb (write_mode p ctx) Async) then
    hret (unsupported_response (lit "delete_by_query is only supported in async write mode") index)
  else if negb (delete_by_query_expansion p) then
    hret (unsupported_response (lit "delete_by_query expansion is not enabled on this proxy") index)
  else if negb (queue_enabled p) then hret (unavailable_response index)
  else
    do! resolved := resolve_recorded in
    do! doc := run_match_search resolved in
    let total := matched_total doc in
    if (DBQ_MAX_MATCHES <? total)%Z then
      hret (unsupported_response (lit "delete_by_query match set exceeds the proxy cap") index)
    else
      do! (deleted, failures) := (fun t => await! out := enqueue_deletes resolved 0 (matched_ids doc) 0 [] in Ret (Ok out, t)) in
      do! out := hpure (ok_or (to_vec (json_object
        [(lit "took", Number (int_num 0)); (lit "timed_out", Bool false); (lit "total", Number (int_num total));
         (lit "deleted", Number (int_num deleted)); (lit "version_conflicts", Number (int_num 0));
         (lit "batches", Number (int_num 1)); (lit "failures", Array failures)]))
        (ReqInternal (lit "serializing delete-by-query response"))) in
      hret (MkResponse 200 out None).

(** ** Verbatim forwards ([admin.rs], [passthrough.rs]) *)
Definition admin : handler PipelineResponse :=
  match admin_policy p with
  | Some policy =>
      if allows policy (ctx_path ctx) then
        let endpoint := match ap_endpoint policy with Some e => Some e | None => router_cluster_endpoint (ap_cluster policy) end in
        let op := cursor_with_query (cursor_with_credentials (cursor_with_endpoint
                    (cursor_op_new (ap_cluster policy) (ctx_method ctx) (ctx_path ctx) (ctx_body ctx))
                    endpoint) (router_upstream_credentials (ap_cluster policy))) (ctx_query ctx) in
        do! outcome := hcall ReqSink (SinkCursor (stamp_cursor op)) in
        note! record_dispatch (cursor_dispatched (ap_cluster policy) outcome) in
        hret (MkResponse (cr_status outcome) (cr_body outcome) (cr_content_type outcome))
      else herr (ReqSpi (SpiUnsupportedEndpoint (ctx_endpoint ctx)))
  | None => herr (ReqSpi (SpiUnsupportedEndpoint (ctx_endpoint ctx)))
  end.
Definition forward (policy : PassthroughPolicy) : handler PipelineResponse :=
  let op := cursor_with_protocol (cursor_with_query (cursor_with_credentials (cursor_with_endpoint
              (cursor_op_new (pp_cluster policy) (ctx_method ctx) (ctx_path ctx) (ctx_body ctx))
              (pp_endpoint policy)) (router_upstream_credentials (pp_cluster policy))) (ctx_query ctx))
              (ctx_protocol ctx) in
  do! outcome := hcall ReqSink (SinkCursor (stamp_cursor op)) in
  note! record_dispatch (cursor_dispatched (pp_cluster policy) outcome) in
  hret (MkResponse (cr_status outcome) (cr_body outcome) (cr_content_type outcome)).
Definition forward_stream (policy : PassthroughPolicy) (b : ByteBody) : handler StreamingForward :=
  let op := forward_with_forward_headers (forward_with_trace (forward_with_protocol (forward_with_query
              (forward_with_credentials (forward_with_endpoint
                (forward_op_new (pp_cluster policy) (ctx_method ctx) (ctx_path ctx))
                (pp_endpoint policy)) (router_upstream_credentials (pp_cluster policy))) (ctx_query ctx))
              (ctx_protocol ctx)) (upstream_trace p ctx)) (forward_headers ctx) in
  do! outcome := hcall ReqSink (SinkForwardStream op b) in
  note! record_dispatch (MkDispatchInfo (pp_cluster policy) (sf_status outcome) (sf_pool_reuse outcome)) in
  hret outcome.

(** ** Dispatch

    [None]: the handler panicked. *)
Definition returns {A} (h : handler A) : RequestTrace -> prog (option (Result A RequestError) * RequestTrace) :=
  fun t => await! (r, t) := h t in Ret (Some r, t).
Definition bulk : RequestTrace -> prog (option (Result PipelineResponse RequestError) * RequestTrace) :=
  fun t =>
    await! r := (if write_mode_eqb (write_mode p ctx) Async
                 then ingest_bulk_async (queue_enabled p) ctx (retry p) (upstream_trace p ctx)
                 else ingest_bulk ctx (retry p) (upstream_trace p ctx)) in
    Ret (r, t).
Definition dispatch : RequestTrace -> prog (option (Result PipelineResponse RequestError) * RequestTrace) :=
  match (policy ← passthrough_policy p; if matches_index policy (logical_index ctx) then Some policy else None) with
  | Some policy => returns (forward policy)
  | None =>
      match ctx_endpoint ctx with
      | IngestDoc => returns ingest_doc
      | IngestBulk => bulk
      | GetById => returns get_by_id
      | MultiGet => returns (hlift (multi_get ctx (retry p) (upstream_trace p ctx)))
      | DeleteById => returns delete_by_id
      | DeleteByQuery => returns delete_by_query
      | Search => returns search
      | MultiSearch => returns (hlift (multi_search ctx (retry p) (upstream_trace p ctx)))
      | Count => returns count
      | CoreTypes.Cursor => returns cursor
      | Admin => returns admin
      | other => returns (herr (ReqSpi (SpiUnsupportedEndpoint other)))
      end
  end.

(** The trace of a request before its dispatch, and after. *)
Definition begin_trace : RequestTrace :=
  record_classify (MkClassifyInfo (ctx_endpoint ctx) (logical_index ctx)) (record_context (wire_trace p ctx) trace_new).
Definition end_trace {A} (egress : A -> EgressInfo) (r : Result A RequestError) (t : RequestTrace) : RequestTrace :=
  match r with Ok a => record_egress (egress a) t | Err e => record_error (error_context e) t end.
Definition response_egress (resp : PipelineResponse) : EgressInfo :=
  MkEgressInfo (resp_status resp) (Z.of_nat (length (resp_body resp))).
(** The part of [handle_with_capture] that decides the answer, with the trace it leaves in
    the explain store; the capture decision that follows reads that trace only. *)
Definition handle : prog (option (Result PipelineResponse RequestError * RequestTrace)) :=
  await! (r, t) := dispatch begin_trace in
  Ret (r ← r; Some (r, end_trace response_egress r t)).

(** ** Streamed requests *)
(** A live body through the hit transform: what the client sees of it is [shape_hits_stream]. *)
Definition shaped_body `{SerdeString} (upstream : ByteBody) (h : HitShaper) : ByteBody :=
  (fun f => match f with Ok b => Data b | Err e => BodyFailed e end) <$> shape_hits_stream upstream h.
Definition run_search_stream `{SerdeString} : handler StreamSearch :=
  match (match cursor_signer p with Some _ => pit_id_in_body (ctx_body ctx) | None => None end) with
  | Some wrapped =>
      do! resp := pit_search wrapped in
      hret (MkStreamSearch (resp_status resp) [Data (resp_body resp)])
  | None =>
      do! resolved := resolve_recorded in
      do! (search_op, shape) := hpure (build_search_op resolved (ctx_body ctx)) in
      do! stream := hcall ReqSink (SinkSearchStream
        (stamp_search (search_with_query search_op (forwardable_query (ctx_query ctx))))) in
      note! record_dispatch (read_dispatch_info resolved (ss_status stream) (ss_pool_reuse stream)) in
      hret (MkStreamSearch (ss_status stream)
        (shaped_body (ss_body stream) (MkHitShaper (logical_index ctx) (r_partition resolved) shape)))
  end.
Definition search_streamed `{SerdeString} : prog (Result StreamSearch RequestError * RequestTrace) :=
  await! (r, t) := run_search_stream begin_trace in
  Ret (r, end_trace (fun s => MkEgressInfo (st_status s) 0) r t).
Definition forward_streamed (b : ByteBody) : prog (Result StreamingForward RequestError * RequestTrace) :=
  await! (r, t) := (match passthrough_policy p with
                    | Some policy => forward_stream policy b
                    | None => herr (ReqSpi (SpiUnsupportedEndpoint (ctx_endpoint ctx)))
                    end) begin_trace in
  Ret (r, end_trace (fun f => MkEgressInfo (sf_status f) 0) r t).
Definition handle_bulk_streamed (b : ByteBody) : prog (Outcome (Result PipelineResponse RequestError * RequestTrace)) :=
  await! o := ingest_bulk_streamed ctx (retry p) (upstream_trace p ctx) b in
  Ret (match o with
       | Returned r => Returned (r, end_trace response_egress r begin_trace)
       | Panicked => Panicked
       | Unfinished => Unfinished
       end).
End Endpoints.
