(* ===== verification/EngineSafe.v ===== *)
(** * Isolation of a request

    What the calls of a tenancy request may be, whatever the router, the sink and the
    queue answer: everything that goes upstream is built by the transforms of this library
    from a decision the router took for this very request. *)
From stdpp Require Import base option list strings numbers sets gmap pretty.
From Stdlib Require Import Ascii ZArith Lia.
From S2P Require Import Prelude.
From S2P Require Import JsonScan.
From S2P Require Import JsonProps.
From S2P Require Import Trace.
From S2P Require Import CoreTypes.
From S2P Require Import Serde.
From S2P Require Import ToySerde.
From S2P Require Import Cursor.
From S2P Require Import Bulk.
From S2P Require Import Query.
From S2P Require Import Spi.
From S2P Require Import Tenancy.
From S2P Require Import Sink.
From S2P Require Import Plan.
From S2P Require Import ReadPath.
From S2P Require Import Prog.
From S2P Require Import Effects.
From S2P Require Import Retry.
From S2P Require Import AsyncWrite.
From S2P Require Import BulkPrep.
From S2P Require Import BulkFlow.
From S2P Require Import BulkLedger.
From S2P Require Import BulkQueue.
From S2P Require Import ReqTrace.
From S2P Require Import CursorBody.
From S2P Require Import FanOut.
From S2P Require Import MultiRead.
From S2P Require Import Engine.

Open Scope osp_scope.

(** ** Handlers, guarded *)
Section Handlers.
Context {Sd : Serde} (before : list event -> event -> Prop).
Hypothesis before_mono : forall past past' e, past ⊆ past' -> before past e -> before past' e.

(** [Q] holds of what the handler answers, when it is not an error. *)
Definition hsafe {A} (past : list event) (m : handler A) (Q : trace -> A -> Prop) : Prop :=
  forall t, safe before past (m t) (fun tr out => forall a, out.1 = Ok a -> Q tr a).

Lemma hsafe_ret {A} past (a : A) (Q : trace -> A -> Prop) : Q [] a -> hsafe past (hret a) Q.
Proof. intros H t. apply safe_ret. by intros ? [= <-]. Qed.
Lemma hsafe_err {A} past e (Q : trace -> A -> Prop) : hsafe past (herr e) Q.
Proof. intros t. by apply safe_ret. Qed.
Lemma hsafe_lift {A} past (m : prog (Result A RequestError)) (Q : trace -> A -> Prop) :
  safe before past m (fun tr r => forall a, r = Ok a -> Q tr a) -> hsafe past (hlift m) Q.
Proof.
  intros H t. eapply (safe_bind _ before_mono); [exact H|]. intros tr r Hr. apply safe_ret. by rewrite app_nil_r.
Qed.
Lemma hsafe_bind {A B} past (m : handler A) (k : A -> handler B) (P : trace -> A -> Prop) (Q : trace -> B -> Prop) :
  hsafe past m P ->
  (forall tr a, P tr a -> hsafe (tr ++ past) (k a) (fun tr' b => Q (tr ++ tr') b)) ->
  hsafe past (hbind m k) Q.
Proof.
  intros Hm Hk t. eapply (safe_bind _ before_mono); [apply Hm|]. intros tr [[a|e] t'] HP; cbn [fst] in HP.
  - apply Hk. by apply HP.
  - by apply safe_ret.
Qed.
Lemma hsafe_pure {A B} past r (k : A -> handler B) (Q : trace -> B -> Prop) :
  (forall a, r = Ok a -> hsafe past (k a) Q) -> hsafe past (hbind (hpure r) k) Q.
Proof.
  intros H t. unfold hbind, hpure. cbn [bind]. destruct r as [a|e]; [by apply H|by apply safe_ret].
Qed.
Lemma hsafe_note {B} past f (k : unit -> handler B) (Q : trace -> B -> Prop) :
  hsafe past (k tt) Q -> hsafe past (hbind (hnote f) k) Q.
Proof. intros H t. unfold hbind, hnote. cbn [bind]. apply H. Qed.
Lemma hsafe_call {A B E} past (f : E -> RequestError) (c : Call (Result A E)) (k : A -> handler B) (Q : trace -> B -> Prop) :
  (forall r, before past (Ev c r)) ->
  (forall a, hsafe (Ev c (Ok a) :: past) (k a) (fun tr b => Q (Ev c (Ok a) :: tr) b)) ->
  hsafe past (hbind (hcall f c) k) Q.
Proof.
  intros Hc Hk t. unfold hbind, hcall, call. cbn [bind]. apply safe_do. intros r. split; [apply Hc|].
  destruct r as [a|e]; cbn [map_err]; [apply Hk|by apply safe_ret].
Qed.
Lemma hsafe_any {A} past (m : handler A) (P : trace -> A -> Prop) :
  hsafe past m P -> hsafe past m (fun _ _ => True).
Proof. intros H t. eapply (safe_mono _ before_mono _ _ _ _ _ (fun x Hx => Hx)); [|apply H]. done. Qed.
End Handlers.

(** ** The calls of a request *)
Section Isolation.
Context {Sd : Serde} {Si : SerdeInt} {W : Wide} {M : Memchr} {Mm : Memmem} {R : Router}.
Context (p : Pipeline) (ctx : RequestCtx).

(** A decision the router took for this request: for its context, or for the partition the
    request's headers and one of its documents name. *)
Definition Decided (past : list event) (resolved : Resolved) : Prop :=
  Ev (Resolve ctx) (Ok resolved) ∈ past
  \/ exists b partition index, router_resolve_partition ctx b = Ok partition
       /\ Ev (ResolvePlacement ctx partition index) (Ok resolved) ∈ past.

(** A write as the transforms make it, before the trace and the headers are stamped. *)
Definition unstamped (op : WriteOp) : WriteOp := write_with_forward_headers (write_with_trace op None) [].
Definition Transformed (resolved : Resolved) (op : WriteOp) : Prop :=
  build_write_batch resolved (ctx_body ctx) = Ok (batch_single op)
  \/ (exists id, build_delete_op resolved id = Ok op)
  \/ exists item q, build_op resolved (inject_pairs (body_transform (r_decision resolved)) (r_partition resolved)) item
       (keyword (bi_action item)) (item_index ctx item) = Ok q /\ op = p_op q.

(** A search under the partition filter: [b] is the body, or the one capped to ids. *)
Definition Filtered (resolved : Resolved) (op : SearchOp) : Prop :=
  exists b op0 shape q out, build_search_op resolved b = Ok (op0, shape)
  /\ (out = so_body op0 \/ cap_ids_only (so_body op0) = Ok out)
  /\ (q = None \/ q = forwardable_query (ctx_query ctx))
  /\ op = stamp_search p ctx (search_with_query (search_with_body op0 out) q).
(** The deletion of a document that a filtered search has found. *)
Definition MatchedDelete (past : list event) (resolved : Resolved) (op : WriteOp) : Prop :=
  exists search outcome doc id, Filtered resolved search /\ Ev (SinkSearch search) (Ok outcome) ∈ past
  /\ from_slice (se_body outcome) = Some doc /\ id ∈ matched_ids doc
  /\ op = build_delete_op_physical resolved id.

(** [token] opens, under this deployment's signer, as the cursor [real] of [cluster]: its
    tag is the one the signer gives to that cluster and that cursor. *)
Definition opens_as (token : str) (cluster : ClusterId) (real : str) : Prop :=
  exists signer, cursor_signer p = Some signer /\ Token (Signer := signer) token cluster real.
(** A call to the cluster a token names: as the operator has configured that cluster, with
    the client's method and no query. *)
Definition pinned (op : CursorOp) : Prop :=
  cu_endpoint op = router_cluster_endpoint (cu_cluster op) /\ cu_credentials op = router_upstream_credentials (cu_cluster op)
  /\ cu_method op = ctx_method ctx /\ cu_query op = None.
(** The cursor calls. A scroll is continued or cleared, and points in time are closed, with
    the cursors of the tokens in the request itself, on the cluster each token names; a
    search in a point in time is the filtered search with the token replaced; a point in
    time is opened on the decision's index, with the client's body; and an admin request
    goes as it came to the policy's cluster, when the operator's allow-list has its path. *)
Inductive CursorAllowed (past : list event) (op : CursorOp) : Prop :=
| allowed_scroll req real :
    cursor_request ctx = Some req -> opens_as (cr_wrapped req) (cu_cluster op) real -> pinned op ->
    cu_path op = lit "/_search/scroll" -> cu_body op = rewrite_cursor_body (ctx_body ctx) (lit "scroll_id") real ->
    CursorAllowed past op
| allowed_close tokens reals :
    pit_ids_in_delete_body (ctx_body ctx) = Some tokens ->
    Forall (fun real => exists token, token ∈ tokens /\ opens_as token (cu_cluster op) real) reals -> pinned op ->
    cu_path op = lit "/_search/point_in_time" ->
    cu_body op = default [] (to_vec (json_object [(lit "pit_id", Array (String <$> reals))])) ->
    CursorAllowed past op
| allowed_pit_search token real resolved search shape :
    pit_id_in_body (ctx_body ctx) = Some token -> opens_as token (cu_cluster op) real -> pinned op ->
    cu_path op = lit "/_search" -> Decided past resolved -> build_search_op resolved (ctx_body ctx) = Ok (search, shape) ->
    cu_body op = rewrite_pit_id (so_body search) real ->
    CursorAllowed past op
| allowed_pit_create resolved :
    let t := target (r_decision resolved) in
    Decided past resolved -> cu_cluster op = cluster t -> cu_endpoint op = endpoint t -> cu_credentials op = credentials t ->
    cu_path op = lit "/" ++ index t ++ lit "/_search/point_in_time" -> cu_query op = forwardable_query (ctx_query ctx) ->
    cu_body op = ctx_body ctx ->
    CursorAllowed past op
| allowed_admin policy :
    ctx_endpoint ctx = Admin -> admin_policy p = Some policy -> allows policy (ctx_path ctx) = true ->
    cu_cluster op = ap_cluster policy -> cu_method op = ctx_method ctx -> cu_path op = ctx_path ctx ->
    cu_query op = ctx_query ctx -> cu_body op = ctx_body ctx ->
    CursorAllowed past op.

Definition isolated (past : list event) (e : event) : Prop :=
  match e with
  | Ev (SinkWrite b) _ => forall op, op ∈ ops b ->
      exists resolved, Decided past resolved /\ Transformed resolved (unstamped op)
      /\ Ev (AdmitWrite (r_partition resolved) (epoch (r_decision resolved))) true ∈ past
  | Ev (Enqueue w) _ =>
      exists resolved op, Decided past resolved /\ qw_partition_key w = r_partition resolved
      /\ qw_batch w = batch_single op
      /\ (Transformed resolved (unstamped op) \/ MatchedDelete past resolved op)
  | Ev (SinkGet op) _ =>
      exists resolved id op0 shape, Decided past resolved /\ build_read_op resolved id = Ok (op0, shape)
      /\ op = read_with_forward_headers (read_with_trace op0 (upstream_trace p ctx)) (forward_headers ctx)
  | Ev (SinkSearch op) _ | Ev (SinkSearchStream op) _ | Ev (SinkCount op) _ =>
      exists resolved, Decided past resolved /\ Filtered resolved op
  | Ev (SinkCursor op) _ => CursorAllowed past op
  | Ev (SinkForwardStream _ _) _ => False
  | Ev (AdmitWrite _ _) _ => True
  | e => asking e
  end.

Lemma Decided_mono past past' resolved : past ⊆ past' -> Decided past resolved -> Decided past' resolved.
Proof. intros Hp [H|(b & pt & i & H1 & H2)]; [left; by apply Hp|right]. exists b, pt, i. split; [done|by apply Hp]. Qed.
Lemma isolated_mono past past' e : past ⊆ past' -> isolated past e -> isolated past' e.
Proof.
  intros Hp. pose proof (fun r => Decided_mono _ _ r Hp) as HD.
  assert (Hin : forall e, e ∈ past -> e ∈ past') by exact Hp. destruct e as [B []]; try done.
  - intros H op Ho. destruct (H op Ho) as (r & H1 & H2 & H3). exists r. auto.
  - intros (r & id & op0 & shape & H1 & H2). exists r, id, op0, shape. auto.
  - intros (r & H1 & H2). exists r. auto.
  - intros (r & H1 & H2). exists r. auto.
  - cbn [isolated]. intros []; [eapply allowed_scroll|eapply allowed_close|eapply allowed_pit_search|eapply allowed_pit_create|eapply allowed_admin];
      eauto.
  - intros (r & H1 & H2). exists r. auto.
  - intros (r & op & H1 & H2 & H3 & [H4|(s & o & d & id & H4 & H5 & H6)]); exists r, op.
    + auto.
    + split; [auto|]. split; [done|]. split; [done|]. right. exists s, o, d, id. auto.
Qed.
Lemma asking_isolated past e : asking e -> isolated past e.
Proof. by destruct e as [B []]. Qed.
#[local] Hint Resolve isolated_mono asking_isolated : core.
Abbreviation hisolated := (hsafe isolated).

(** Resolving gives a decision for the request. *)
Lemma resolve_isolated {B} past (k : Resolved -> handler B) Q :
  (forall tr resolved, Decided (tr ++ past) resolved -> hisolated (tr ++ past) (k resolved) (fun tr' b => Q (tr ++ tr') b)) ->
  hisolated past (hbind (resolve_recorded p ctx) k) Q.
Proof.
  intros H. eapply (hsafe_bind _ isolated_mono); [|exact H].
  intros t. eapply (safe_mono _ isolated_mono _ _ _ (fun tr out => forall a, out.1 = Ok a -> Ev (Resolve ctx) (Ok a) ∈ tr));
    [done| |].
  { intros tr out Ho a Ha. left. apply elem_of_app. left. by apply Ho. }
  revert t. unfold resolve_recorded. eapply (hsafe_bind _ isolated_mono).
  - apply (hsafe_lift _ isolated_mono _ _ (fun tr a => Ev (Resolve ctx) (Ok a) ∈ tr)).
    eapply (safe_bind _ isolated_mono); [by apply retry_safe; [apply asking_isolated|]|].
    intros tr r [Hr _]. apply safe_ret. rewrite app_nil_r. intros a. destruct r; [|done]. by intros [= ->].
  - intros tr a Ha. apply hsafe_note, hsafe_ret. by rewrite app_nil_r.
Qed.
(** The write gate, when it lets through. *)
Lemma gate_isolated {B} past resolved (k : unit -> handler B) Q :
  (let e := Ev (AdmitWrite (r_partition resolved) (epoch (r_decision resolved))) true in
   hisolated (e :: past) (k tt) (fun tr b => Q (e :: tr) b)) ->
  hisolated past (hbind (gate_write resolved) k) Q.
Proof.
  intros H t. unfold hbind, gate_write, call. cbn [bind]. apply safe_do. intros ok. split; [done|]. cbn [bind].
  destruct ok; [apply H|by apply safe_ret].
Qed.
Lemma enqueue_async_isolated past resolved op :
  Decided past resolved -> Transformed resolved (unstamped op) ->
  safe isolated past (enqueue_async (queue_enabled p) ctx resolved (batch_single op)) (fun _ _ => True).
Proof.
  intros Hd Ht. unfold enqueue_async. destruct (unsupported_async ctx); [by apply safe_ret|].
  destruct (negb _); [by apply safe_ret|]. apply safe_do. intros r. split; [|by apply safe_ret].
  exists resolved, op. auto 10.
Qed.

Lemma build_write_batch_single resolved b batch :
  build_write_batch resolved b = Ok batch -> exists op, batch = batch_single op /\ unstamped op = op.
Proof.
  unfold build_write_batch. destruct (apply_transform _ _ _) as [[id out]|]; [|done]. cbn [rbind]. intros [= <-]. by eexists.
Qed.
Lemma build_delete_op_unstamped resolved id op : build_delete_op resolved id = Ok op -> unstamped op = op.
Proof.
  unfold build_delete_op. destruct (physical_id_and_routing _ _ _) as [[i r]|]; [|done]. cbn [rbind]. by intros [= <-].
Qed.
Lemma build_op_prepared resolved inject item action index q :
  build_op resolved inject item action index = Ok q ->
  unstamped (p_op q) = p_op q /\ p_partition q = r_partition resolved /\ w_epoch (p_op q) = epoch (r_decision resolved).
Proof.
  unfold build_op. match goal with |- rbind ?m _ = _ -> _ => destruct m as [[doc id]|]; [|done] end.
  cbn [rbind]. by intros [= <-].
Qed.

(** ** Each handler *)
Lemma write_isolated {B} past resolved op (k : WriteAck -> handler B) :
  Decided past resolved -> Transformed resolved op -> unstamped op = op ->
  (forall past' ack, hisolated past' (k ack) (fun _ _ => True)) ->
  hisolated past (hbind (gate_write resolved) (fun _ =>
    hbind (hcall ReqSink (SinkWrite (stamp_batch p ctx (batch_single op)))) k)) (fun _ _ => True).
Proof.
  intros Hd Ht Hu Hk. apply gate_isolated. cbv zeta. apply hsafe_call; [|intros; apply Hk].
  intros r o [->|Ho]%elem_of_cons; [|by apply not_elem_of_nil in Ho]. exists resolved.
  split; [eapply Decided_mono; [|exact Hd]; set_solver|]. split; [|by left].
  change (unstamped _) with (unstamped op). by rewrite Hu.
Qed.
Lemma ingest_doc_isolated past : hisolated past (ingest_doc p ctx) (fun _ _ => True).
Proof.
  apply resolve_isolated. intros tr resolved Hd. apply hsafe_pure. intros batch Hb. apply hsafe_note.
  destruct (build_write_batch_single _ _ _ Hb) as (op & -> & Hu). destruct (write_mode_eqb _ _).
  - intros t. eapply (safe_bind _ isolated_mono); [apply enqueue_async_isolated; [done|]|].
    + rewrite Hu. by left.
    + intros. by apply safe_ret.
  - apply write_isolated; [done|by left|done|]. intros past' ack. by apply hsafe_note, hsafe_ret.
Qed.
Lemma delete_by_id_isolated past : hisolated past (delete_by_id p ctx) (fun _ _ => True).
Proof.
  apply resolve_isolated. intros tr resolved Hd. apply hsafe_pure. intros id _. apply hsafe_pure. intros op Hb.
  assert (Ht : Transformed resolved op) by (right; left; by exists id).
  pose proof (build_delete_op_unstamped _ _ _ Hb) as Hu. destruct (write_mode_eqb _ _).
  - intros t. eapply (safe_bind _ isolated_mono); [apply enqueue_async_isolated; [done|by rewrite Hu]|].
    intros. by apply safe_ret.
  - apply write_isolated; [done..|]. intros past' ack. by apply hsafe_note, hsafe_ret.
Qed.
Lemma get_by_id_isolated past : hisolated past (get_by_id p ctx) (fun _ _ => True).
Proof.
  apply resolve_isolated. intros tr resolved Hd. apply hsafe_pure. intros id _. apply hsafe_pure. intros [op shape] Hb.
  apply hsafe_call; [intros r; by exists resolved, id, op, shape|]. intros out. apply hsafe_note.
  destruct (ro_found out); [|by apply hsafe_ret]. apply hsafe_pure. intros b _. by apply hsafe_ret.
Qed.
Lemma build_search_op_Ok resolved b op shape :
  build_search_op resolved b = Ok (op, shape) -> search_with_query op None = op /\ search_with_body op (so_body op) = op.
Proof. unfold build_search_op. destruct (wrap_query _ _); [|done]. cbn. by intros [= <- <-]. Qed.
Lemma filtered_search resolved b op shape q :
  build_search_op resolved b = Ok (op, shape) -> q = None \/ q = forwardable_query (ctx_query ctx) ->
  Filtered resolved (stamp_search p ctx (search_with_query op q)).
Proof.
  intros Hb Hq. exists b, op, shape, q, (so_body op). by destruct (build_search_op_Ok _ _ _ _ Hb) as [_ ->]; auto.
Qed.
Lemma opened_token signer wrapped cluster real e1 e2 :
  ok_or (cursor_signer p) e1 = Ok (E := RequestError) signer ->
  ok_or (Cursor.unwrap (Signer := signer) wrapped) e2 = Ok (E := RequestError) (cluster, real) -> opens_as wrapped cluster real.
Proof.
  intros Hs Hu. exists signer. destruct (cursor_signer p); [|done]. simplify_eq/=. split; [done|]. apply unwrap_spec.
  destruct (Cursor.unwrap _); by simplify_eq/=.
Qed.
Lemma pit_search_isolated past wrapped :
  pit_id_in_body (ctx_body ctx) = Some wrapped -> hisolated past (pit_search p ctx wrapped) (fun _ _ => True).
Proof.
  intros Hw. apply hsafe_pure. intros signer Hs. apply hsafe_pure. intros [cluster real] Hu.
  apply resolve_isolated. intros tr resolved Hd. apply hsafe_pure. intros [op shape] Hb.
  apply hsafe_call; [|intros out; apply hsafe_note, hsafe_pure; intros b _; by apply hsafe_ret].
  intros r. eapply allowed_pit_search; [exact Hw|by eapply opened_token|done|done|exact Hd|exact Hb|done].
Qed.
Lemma search_isolated past : hisolated past (search p ctx) (fun _ _ => True).
Proof.
  unfold search. destruct (match cursor_signer p with Some _ => _ | None => _ end) as [token|] eqn:Ht.
  { apply pit_search_isolated. by destruct (cursor_signer p). }
  apply resolve_isolated. intros tr resolved Hd. apply hsafe_pure. intros [op shape] Hb.
  apply hsafe_call; [intros r; exists resolved; split; [done|]; eapply filtered_search; eauto|].
  intros out. apply hsafe_note, hsafe_pure. intros b _. by apply hsafe_ret.
Qed.
Lemma count_isolated past : hisolated past (count p ctx) (fun _ _ => True).
Proof.
  apply resolve_isolated. intros tr resolved Hd. apply hsafe_pure. intros [op shape] Hb.
  apply hsafe_call; [|intros out; by apply hsafe_note, hsafe_ret]. intros r. exists resolved. split; [done|].
  rewrite <- (proj1 (build_search_op_Ok _ _ _ _ Hb)). eapply filtered_search; eauto.
Qed.
Lemma pit_create_isolated past : hisolated past (pit_create p ctx) (fun _ _ => True).
Proof.
  apply resolve_isolated. intros tr resolved Hd. apply hsafe_call; [|intros out; by apply hsafe_note, hsafe_ret].
  intros r. by eapply allowed_pit_create.
Qed.
(** A cursor of [cluster] that one of [tokens] opens as. *)
Definition presented (tokens : list str) (cluster : ClusterId) (real : str) : Prop :=
  exists token, token ∈ tokens /\ opens_as token cluster real.
Lemma group_pits_presented tokens signer ids by_cluster out e1 :
  ok_or (cursor_signer p) e1 = Ok (E := RequestError) signer -> (forall t, t ∈ ids -> t ∈ tokens) ->
  Forall (fun e => Forall (presented tokens e.1) e.2) by_cluster -> group_pits signer ids by_cluster = Ok out ->
  Forall (fun e => Forall (presented tokens e.1) e.2) out.
Proof.
  intros Hs. revert by_cluster. induction ids as [|w ids IH]; intros by_cluster Hi Hb; cbn [group_pits]; [by intros [= <-]|].
  destruct (ok_or (Cursor.unwrap _) _) as [[cluster real]|] eqn:Hu; [|done]. cbn [rbind].
  apply IH; [intros t Ht; apply Hi; by right|]. apply insert_Forall; [|done]. cbn [fst snd]. apply Forall_app. split.
  - destruct (map_get by_cluster cluster) as [l|] eqn:Hm; [|constructor]. by apply (proj1 (Forall_forall _ _) Hb (cluster, l)), map_get_in.
  - repeat constructor. exists w. split; [apply Hi; by left|by eapply opened_token].
Qed.
Lemma close_loop_isolated past tokens by_cluster status pits :
  pit_ids_in_delete_body (ctx_body ctx) = Some tokens -> Forall (fun e => Forall (presented tokens e.1) e.2) by_cluster ->
  hisolated past (close_loop p ctx by_cluster status pits) (fun _ _ => True).
Proof.
  intros Ht Hv. revert past status pits. induction Hv as [|[cluster ids] by_cluster Hc Hv IH]; intros past status pits;
    cbn [close_loop]; [by apply hsafe_ret|].
  apply hsafe_call; [|intros out; apply hsafe_note, IH]. intros r. by eapply allowed_close.
Qed.
Lemma pit_delete_isolated past ids :
  pit_ids_in_delete_body (ctx_body ctx) = Some ids -> hisolated past (pit_delete p ctx ids) (fun _ _ => True).
Proof.
  intros Hi. apply hsafe_pure. intros signer Hs. apply hsafe_pure. intros by_cluster Hg.
  eapply (hsafe_bind _ isolated_mono).
  { eapply close_loop_isolated; [exact Hi|]. eapply group_pits_presented; [exact Hs|done|constructor|exact Hg]. }
  intros tr [status pits] _. by apply hsafe_ret.
Qed.
Lemma cursor_isolated past : hisolated past (cursor p ctx) (fun _ _ => True).
Proof.
  unfold cursor. destruct (cursor_signer p) as [signer|] eqn:Hs; [|apply hsafe_err].
  destruct (logical_index ctx); [|apply pit_create_isolated].
  destruct (pit_ids_in_delete_body _) as [ids|] eqn:Hi; [by apply pit_delete_isolated|].
  apply hsafe_pure. intros req Hr. apply hsafe_pure. intros [cluster real] Hu.
  apply hsafe_call; [|intros out; by apply hsafe_note, hsafe_ret]. intros r.
  destruct (cursor_request ctx) as [req'|] eqn:Hq; [|done]. injection Hr as ->.
  assert (Hshape : cr_upstream_path req = lit "/_search/scroll" /\ cr_id_field req = lit "scroll_id").
  { unfold cursor_request in Hq. destruct (doc_id ctx); [by simplify_eq/=|].
    destruct (from_slice _) as [v|]; [|done]. cbn in Hq. destruct (str_at _ _); by simplify_eq/=. }
  destruct Hshape as [Hpath Hfield]. eapply (allowed_scroll _ _ req real); [done| |done|done|by rewrite <- Hfield].
  eapply (opened_token signer _ _ _ (ReqCursor [])); [by rewrite Hs|exact Hu].
Qed.
Lemma admin_isolated past : ctx_endpoint ctx = Admin -> hisolated past (admin p ctx) (fun _ _ => True).
Proof.
  intros He. unfold admin. destruct (admin_policy p) as [policy|] eqn:Hp; [|apply hsafe_err].
  destruct (allows policy (ctx_path ctx)) eqn:Ha; [|apply hsafe_err].
  apply hsafe_call; [|intros out; by apply hsafe_note, hsafe_ret].
  intros r. by eapply (allowed_admin _ _ policy).
Qed.

(** Deleting by query: what is queued was found. *)
Lemma enqueue_deletes_isolated past resolved search outcome doc i ids deleted failures :
  Decided past resolved -> Filtered resolved search -> Ev (SinkSearch search) (Ok outcome) ∈ past ->
  from_slice (se_body outcome) = Some doc -> (forall id, id ∈ ids -> id ∈ matched_ids doc) ->
  safe isolated past (enqueue_deletes ctx resolved i ids deleted failures) (fun _ _ => True).
Proof.
  intros Hd Hf He Hdoc. revert past i deleted failures Hd He.
  induction ids as [|id ids IH]; intros past i deleted failures Hd He Hids; cbn [enqueue_deletes]; [by apply safe_ret|].
  apply safe_do. intros r. split.
  - exists resolved, (build_delete_op_physical resolved id). split; [done|]. split; [done|]. split; [done|]. right.
    exists search, outcome, doc, id. repeat split; try done. apply Hids. by left.
  - cbn [bind]. destruct r; apply IH; try (by right); try (intros; apply Hids; by right);
      (eapply Decided_mono; [|exact Hd]; set_solver).
Qed.
Lemma delete_by_query_isolated past : hisolated past (delete_by_query p ctx) (fun _ _ => True).
Proof.
  unfold delete_by_query. destruct (negb _); [by apply hsafe_ret|]. destruct (negb _); [by apply hsafe_ret|].
  destruct (negb _); [by apply hsafe_ret|]. apply resolve_isolated. intros tr resolved Hd.
  eapply (hsafe_bind _ isolated_mono _ _ _ (fun tr' doc => exists search outcome,
    Filtered resolved search /\ Ev (SinkSearch search) (Ok outcome) ∈ tr' /\ from_slice (se_body outcome) = Some doc)).
  - apply hsafe_pure. intros [op shape] Hb. apply hsafe_pure. intros b Hc.
    assert (Hf : Filtered resolved (stamp_search p ctx (search_with_body op b))).
    { exists (ctx_body ctx), op, shape, None, b. split; [done|]. split; [auto|]. split; [auto|].
      by rewrite <- (proj1 (build_search_op_Ok _ _ _ _ Hb)). }
    apply hsafe_call; [intros r; by exists resolved|]. intros outcome t. apply safe_ret. intros doc Hdoc.
    exists (stamp_search p ctx (search_with_body op b)), outcome. split; [done|]. split; [by left|].
    cbn in Hdoc. destruct (from_slice _); by simplify_eq/=.
  - intros tr' doc (search & outcome & Hf & He & Hdoc). destruct (_ <? _)%Z; [by apply hsafe_ret|].
    eapply (hsafe_bind _ isolated_mono _ _ _ (fun _ _ => True)).
    + intros t. eapply (safe_bind _ isolated_mono).
      * apply (enqueue_deletes_isolated _ resolved search outcome doc); [|done| |done|done].
        -- eapply Decided_mono; [|exact Hd]. set_solver.
        -- apply elem_of_app. by left.
      * intros. by apply safe_ret.
    + intros tr2 [deleted failures] _. apply hsafe_pure. intros out _. by apply hsafe_ret.
Qed.

(** ** Requests of many items *)
Lemma multi_get_isolated : safe isolated [] (multi_get ctx (retry p) (upstream_trace p ctx)) (fun _ _ => True).
Proof.
  unfold multi_get. destruct (parse_mget (ctx_body ctx)) as [items|e]; [|by apply safe_ret].
  destruct (router_resolve_partition ctx []) as [partition|e] eqn:Hp; [|by apply safe_ret].
  eapply (safe_bind _ isolated_mono); [|intros; by apply safe_ret].
  apply get_fan_out_safe; [apply isolated_mono|apply asking_isolated|].
  intros past item g r (resolved & op & H1 & H2 & H3 & _). exists resolved, (mg_id item), op, (gp_shape g).
  split; [right; eauto|]. done.
Qed.
Lemma multi_search_isolated : safe isolated [] (multi_search ctx (retry p) (upstream_trace p ctx)) (fun _ _ => True).
Proof.
  unfold multi_search. destruct (parse_msearch (ctx_body ctx)) as [items|e]; [|by apply safe_ret].
  destruct (router_resolve_partition ctx []) as [partition|e] eqn:Hp; [|by apply safe_ret].
  eapply (safe_bind _ isolated_mono); [|intros; by apply safe_ret].
  apply search_fan_out_safe; [apply isolated_mono|apply asking_isolated|].
  intros past item s r (resolved & op & H1 & H2 & H3 & _). exists resolved. split; [right; eauto|].
  rewrite H3, <- (proj1 (build_search_op_Ok _ _ _ _ H2)). eapply filtered_search; eauto.
Qed.
Lemma prepared_decided past item q :
  PrepOf ctx (upstream_trace p ctx) past item q ->
  exists resolved, Decided past resolved /\ Transformed resolved (unstamped (p_op q))
  /\ p_partition q = r_partition resolved /\ w_epoch (p_op q) = epoch (r_decision resolved).
Proof.
  intros (partition & resolved & q0 & H1 & H2 & H3 & ->). exists resolved.
  destruct (build_op_prepared _ _ _ _ _ _ H3) as (H4 & H5 & H6). cbn [p_op p_partition].
  split; [right; eauto|]. split; [|done]. right. right. exists item, q0. split; [done|]. by rewrite <- H4.
Qed.
Lemma gated_isolated items past e : gated ctx (upstream_trace p ctx) items past e -> isolated past e.
Proof.
  destruct e as [B []]; try done. intros (_ & _ & H) op Ho. rewrite Forall_forall in H.
  destruct (H op Ho) as (item & q & _ & Hq & -> & Ha). destruct (prepared_decided _ _ _ Hq) as (resolved & H1 & H2 & H3 & H4).
  exists resolved. by rewrite <- H3, <- H4.
Qed.
Lemma queued_isolated items past e : queued_ok ctx (upstream_trace p ctx) items past e -> isolated past e.
Proof.
  destruct e as [B []]; try done. intros (ordinal & q & item & _ & Hq & _ & _ & ->).
  destruct (prepared_decided _ _ _ Hq) as (resolved & H1 & H2 & H3 & H4). by exists resolved, (p_op q); auto.
Qed.
(** The bulk handler answers: its [None], a panic, never comes. *)
Lemma bulk_isolated t tr out : exec (bulk p ctx t) tr out -> guarded isolated [] tr /\ out.1 <> None.
Proof.
  unfold bulk. intros (t1 & t2 & r & -> & H1 & -> & ->)%exec_bind. rewrite app_nil_r. cbn [fst].
  destruct (write_mode_eqb _ _).
  - unfold ingest_bulk_async in H1. destruct (unsupported_async ctx); [by destruct H1 as [-> ->]|].
    destruct (negb _); [by destruct H1 as [-> ->]|].
    destruct (parse_bulk _) as [items|e] eqn:Hi; [|by destruct H1 as [-> ->]].
    apply exec_bind in H1 as (t2 & t3 & ls & -> & H1 & -> & ->). rewrite app_nil_r.
    edestruct (queue_loop_safe ctx (retry p) (upstream_trace p ctx) items items [] 0) as (Hg & ls' & -> & _);
      [done|done|apply empty_cache|by rewrite length_replicate|intros; lia|exact H1|].
    split; [by eapply guarded_impl; [|exact Hg]; apply queued_isolated|done].
  - destruct (parse_bulk (ctx_body ctx)) as [items|e] eqn:Hi; cycle 1.
    { unfold ingest_bulk in H1. rewrite Hi in H1. by destruct H1 as [-> ->]. }
    destruct (ingest_bulk_safe _ _ _ _ Hi _ _ H1) as (Hg & ls & A & B & F & -> & _).
    split; [by eapply guarded_impl; [|exact Hg]; apply gated_isolated|done].
Qed.

(** ** The dispatch *)
Definition forwarded : Prop := exists policy, passthrough_policy p = Some policy /\ matches_index policy (logical_index ctx) = true.
Lemma returns_isolated {A} (h : handler A) t tr out :
  hisolated [] h (fun _ _ => True) -> exec (returns h t) tr out -> guarded isolated [] tr /\ out.1 <> None.
Proof.
  intros Hh (t1 & t2 & [r t'] & -> & H1 & -> & ->)%exec_bind. rewrite app_nil_r.
  destruct (Hh t _ _ H1) as [Hg _]. done.
Qed.
Lemma dispatch_isolated t tr out :
  ~ forwarded -> exec (dispatch p ctx t) tr out -> guarded isolated [] tr /\ out.1 <> None.
Proof.
  intros Hf. unfold dispatch. destruct (_ ≫= _) as [policy|] eqn:Hp.
  { destruct Hf. unfold forwarded. destruct (passthrough_policy p) as [q|]; [|done]. exists q. cbn in Hp. by destruct (matches_index _ _). }
  destruct (ctx_endpoint ctx) eqn:He; try (apply returns_isolated; apply hsafe_err).
  - apply returns_isolated, ingest_doc_isolated.
  - apply bulk_isolated.
  - apply returns_isolated, search_isolated.
  - apply returns_isolated, hsafe_lift; [apply isolated_mono|].
    eapply safe_mono; [apply isolated_mono|done| |apply multi_search_isolated]; done.
  - apply returns_isolated, count_isolated.
  - apply returns_isolated, get_by_id_isolated.
  - apply returns_isolated, hsafe_lift; [apply isolated_mono|].
    eapply safe_mono; [apply isolated_mono|done| |apply multi_get_isolated]; done.
  - apply returns_isolated, delete_by_id_isolated.
  - apply returns_isolated, delete_by_query_isolated.
  - apply returns_isolated, cursor_isolated.
  - by apply returns_isolated, admin_isolated.
Qed.
End Isolation.

(** ** What a request promises *)
Section Contract.
Context {Sd : Serde} {Si : SerdeInt} {W : Wide} {M : Memchr} {Mm : Memmem} {R : Router}.
Context (p : Pipeline) (ctx : RequestCtx).

Lemma exec_handle tr out :
  exec (handle p ctx) tr out ->
  exists o, exec (dispatch p ctx (begin_trace p ctx)) tr o
  /\ out = (r ← o.1; Some (r, end_trace response_egress r o.2)).
Proof. intros (t1 & t2 & [r t] & -> & H & -> & ->)%exec_bind. rewrite app_nil_r. by exists (r, t). Qed.
Lemma dispatch_forwards t policy :
  passthrough_policy p = Some policy -> matches_index policy (logical_index ctx) = true ->
  dispatch p ctx t = returns (forward p ctx policy) t.
Proof. intros H1 H2. unfold dispatch. rewrite H1. cbn [mbind option_bind]. by rewrite H2. Qed.
Lemma forwarded_dec : {forwarded p ctx} + {~ forwarded p ctx}.
Proof.
  unfold forwarded. destruct (passthrough_policy p) as [policy|]; [|right; by intros (? & [=] & _)].
  destruct (matches_index policy (logical_index ctx)) eqn:Hm; [by left; exists policy|right].
  intros (? & [= <-] & H). congruence.
Qed.

(** C3: Tenant isolation. Unless the request falls under the passthrough policy,
    everything it sends upstream, whatever the router, the sink and the queue answer and
    however concurrent calls interleave, is built by the transforms from a decision the
    router took for this request: a write for that decision's target, epoch and partition,
    which the write gate had let through; a queued write under the partition's key, or the
    deletion of a document a filtered search found; a get of the decision's mapped id; a
    search under the decision's partition filter, with no more of the client's query than
    the cursor parameters. A cursor of an upstream is used only when the request itself
    presents a token for it whose tag is this deployment's for that cluster and that
    cursor, and only on that cluster; a point in time is opened on the decision's index
    with the client's body. The one thing that is forwarded as it came is an admin request,
    whose path the operator's allow-list has, to the cluster of that policy. *)
Theorem dispatch_is_isolated tr out :
  ~ forwarded p ctx -> exec (handle p ctx) tr out -> guarded (isolated p ctx) [] tr.
Proof. intros Hf (o & Ho & _)%exec_handle. by eapply dispatch_isolated. Qed.

(** C21: Every request is answered. Whatever the world does a run of the pipeline ends,
    and it ends with an answer, never with a panic; the request's trace is then closed: by
    the status and size of the response, or by the error's code. *)
Theorem every_request_is_answered :
  (forall X (answers : world X) (x : X), exists tr out, exec (handle p ctx) tr out)
  /\ forall tr out, exec (handle p ctx) tr out ->
     exists r t, out = Some (r, t)
     /\ match r with
        | Ok resp => rt_egress t = Some (response_egress resp)
        | Err e => rt_error t = Some (error_context e)
        end.
Proof.
  split; [intros X answers x; eexists _, _; apply (interp_exec answers _ x)|].
  intros tr out ([r t] & Ho & ->)%exec_handle.
  assert (Hr : r <> None).
  { destruct forwarded_dec as [(policy & H1 & H2)|Hf]; [|by destruct (dispatch_isolated _ _ _ _ _ Hf Ho)].
    rewrite (dispatch_forwards _ _ H1 H2) in Ho. unfold returns in Ho.
    by apply exec_bind in Ho as (? & ? & [] & _ & _ & _ & [= -> _]). }
  destruct r as [r|]; [|done]. cbn. eexists _, _. split; [done|]. by destruct r.
Qed.

(** C23: A request under the passthrough policy is forwarded as it came, and only that:
    one call to the policy's cluster with the client's method, path, query, body and
    protocol, no resolution and no rewriting, and the upstream's status, body and content
    type are the answer. *)
Theorem passthrough_is_verbatim policy t tr out :
  passthrough_policy p = Some policy -> matches_index policy (logical_index ctx) = true ->
  exec (dispatch p ctx t) tr out ->
  exists op a, tr = [Ev (SinkCursor op) a]
  /\ cu_cluster op = pp_cluster policy /\ cu_method op = ctx_method ctx /\ cu_path op = ctx_path ctx
  /\ cu_query op = ctx_query ctx /\ cu_body op = ctx_body ctx /\ cu_protocol op = ctx_protocol ctx
  /\ cu_endpoint op = pp_endpoint policy
  /\ out.1 = Some (match a with
                   | Ok o => Ok (MkResponse (cr_status o) (cr_body o) (cr_content_type o))
                   | Err e => Err (ReqSink e)
                   end).
Proof.
  intros H1 H2. rewrite (dispatch_forwards _ _ H1 H2).
  intros (t1 & t2 & [r t'] & -> & Hx & -> & ->)%exec_bind. rewrite app_nil_r. cbn [fst].
  unfold forward, hbind, hcall, call in Hx. cbn [bind] in Hx. destruct Hx as (a & tr' & -> & Hx).
  destruct a as [o|e]; cbn in Hx; destruct Hx as [-> [= -> ->]]; eexists _, _; by split_and!.
Qed.

Lemma exec_resolve {B} (k : Resolved -> handler B) t tr out :
  exec (hbind (resolve_recorded p ctx) k t) tr out ->
  exists tr0 tr1 r, tr = tr0 ++ tr1 /\ attempts (retry p) (Resolve ctx) 0 tr0 r
  /\ match r with
     | Ok resolved => exists t', exec (k resolved t') tr1 out
     | Err e => tr1 = [] /\ out.1 = Err (ReqSpi e)
     end.
Proof.
  unfold hbind at 1. intros (t1 & t2 & o & -> & Ho & Hk)%exec_bind. unfold resolve_recorded, hbind in Ho.
  apply exec_bind in Ho as (t3 & t4 & o1 & -> & H1 & H2). unfold resolve_with_retry, hlift in H1.
  apply exec_bind in H1 as (t5 & t6 & r & -> & (r0 & Hr & ->)%exec_lift_err & -> & ->).
  apply with_retry_exec in Hr. destruct r0 as [resolved|e]; cbn in H2; destruct H2 as [-> ->]; rewrite !app_nil_r.
  - exists t5, t2, (Ok resolved). eauto.
  - exists t5, t2, (Err e). destruct Hk as [-> ->]. done.
Qed.

(** C8: A single-document write, outcome by outcome. The placement is resolved within the
    retry policy; a router error, or a body the transform refuses, is the answer and
    nothing is written. In the async mode the batch goes to the queue. In the sync mode the
    gate is asked once, for the resolved partition and epoch: refused, the answer is the
    stale-epoch conflict and nothing is written; let through, exactly the transformed batch
    is written, once, and the answer is the client's view of its acknowledgement, or the
    sink's failure. *)
Theorem ingest_doc_outcomes t tr out :
  exec (ingest_doc p ctx t) tr out ->
  exists tr0 tr1 r, tr = tr0 ++ tr1 /\ attempts (retry p) (Resolve ctx) 0 tr0 r /\ Forall asking tr0
  /\ match r with
     | Err e => tr1 = [] /\ out.1 = Err (ReqSpi e)
     | Ok resolved =>
         match build_write_batch resolved (ctx_body ctx) with
         | Err e => tr1 = [] /\ out.1 = Err e
         | Ok batch =>
             if write_mode_eqb (write_mode p ctx) Async then
               exists resp, exec (enqueue_async (queue_enabled p) ctx resolved batch) tr1 resp /\ out.1 = Ok resp
             else
               let gate := Ev (AdmitWrite (r_partition resolved) (epoch (r_decision resolved))) in
               (tr1 = [gate false] /\ out.1 = Err (ReqStaleEpoch (epoch (r_decision resolved))))
               \/ exists a, tr1 = [gate true; Ev (SinkWrite (stamp_batch p ctx batch)) a]
                  /\ out.1 = match a with Ok ack => Ok (response_for resolved ack) | Err e => Err (ReqSink e) end
         end
     end.
Proof.
  intros (tr0 & tr1 & r & -> & Ha & Hr)%exec_resolve. exists tr0, tr1, r. split; [done|]. split; [done|]. split.
  { apply Forall_forall. by intros e [(d & ->)|(a & ->)]%(attempts_events _ _ _ _ _ _ Ha). }
  destruct r as [resolved|e]; [|done]. destruct Hr as [t' Hr]. unfold hbind, hpure in Hr. cbn [bind] in Hr.
  destruct (build_write_batch _ _) as [batch|e]; [|by destruct Hr as [-> ->]]. cbn [bind hnote] in Hr.
  destruct (write_mode_eqb _ _).
  - apply exec_bind in Hr as (t1 & t2 & resp & -> & Hr & -> & ->). exists resp. by rewrite app_nil_r.
  - unfold hbind, gate_write, hcall, call in Hr. cbn [bind] in Hr. destruct Hr as (ok & tr' & -> & Hr).
    destruct ok; [|by left; destruct Hr as [-> ->]]. right. cbn [bind] in Hr. destruct Hr as (a & tr'' & -> & Hr).
    exists a. destruct a; cbn in Hr; by destruct Hr as [-> ->].
Qed.
End Contract.

(** ** Requests run against a world *)
Section Runs.
#[local] Existing Instance scalar_wide.
#[local] Existing Instance bulk_serde.
#[local] Instance bulk_int : @SerdeInt bulk_serde := toy_int bulk_table.
#[local] Existing Instance bulk_router.
(** One document to index, on a shared index; the same index forwarded under a policy. *)
Definition doc_ctx : RequestCtx :=
  ctx_new (principal_new (lit "ci")) (lit "r3") Post IngestDoc Http1 (lit "orders")
    [(lit "x-tenant", lit "acme")] (body "{'k':'v','msg':'hi'}").
Definition plain : Pipeline := pipeline_new 7.
Definition legacy : PassthroughPolicy :=
  with_index_prefixes (passthrough_policy_new (lit "old") (lit "http://old:9200")) [lit "ord"].
Definition migrating : Pipeline := with_passthrough plain legacy.
Definition doc_run := interp bulk_world (handle plain doc_ctx) 0.

Example doc_run_writes :
  (fun op => match w_doc op with OpIndex id _ _ => id | _ => None end) <$> written doc_run.1.1 = [Some (lit "acme:v")]
  /\ (fst <$> doc_run.1.2) = Some (Ok (MkResponse 201 (body "{'_id':'x','result':'created'}") None)).
Proof. split; vm_compute; reflexivity. Qed.

Lemma dispatch_is_isolated_witness : guarded (isolated plain doc_ctx) [] doc_run.1.1.
Proof.
  apply (dispatch_is_isolated plain doc_ctx _ doc_run.1.2); [by intros (policy & [=] & _)|].
  exact (interp_exec bulk_world (handle plain doc_ctx) 0).
Defined.

Definition forward_run := interp bulk_world (dispatch migrating doc_ctx trace_new) 0.
Lemma passthrough_is_verbatim_witness :
  exists op a, forward_run.1.1 = [Ev (SinkCursor op) a]
  /\ cu_cluster op = lit "old" /\ cu_method op = Post /\ cu_path op = ctx_path doc_ctx
  /\ cu_query op = None /\ cu_body op = ctx_body doc_ctx /\ cu_protocol op = Http1
  /\ cu_endpoint op = Some (lit "http://old:9200")
  /\ forward_run.1.2.1 = Some (match a with
                   | Ok o => Ok (MkResponse (cr_status o) (cr_body o) (cr_content_type o))
                   | Err e => Err (ReqSink e)
                   end).
Proof.
  apply (passthrough_is_verbatim migrating doc_ctx legacy trace_new); [reflexivity|vm_compute; reflexivity|].
  exact (interp_exec bulk_world (dispatch migrating doc_ctx trace_new) 0).
Defined.

(** The gate refuses from the second write on. *)
Definition held_run := interp bulk_world (ingest_doc plain doc_ctx trace_new) 1.
Lemma ingest_doc_outcomes_witness :
  held_run.1.2.1 = Err (ReqStaleEpoch (MkEpoch 7))
  /\ exists tr0 tr1 r, held_run.1.1 = tr0 ++ tr1 /\ attempts (retry plain) (Resolve doc_ctx) 0 tr0 r /\ Forall asking tr0
  /\ match r with
     | Err e => tr1 = [] /\ held_run.1.2.1 = Err (ReqSpi e)
     | Ok resolved =>
         match build_write_batch resolved (ctx_body doc_ctx) with
         | Err e => tr1 = [] /\ held_run.1.2.1 = Err e
         | Ok batch =>
             if write_mode_eqb (write_mode plain doc_ctx) Async then
               exists resp, exec (enqueue_async (queue_enabled plain) doc_ctx resolved batch) tr1 resp
                 /\ held_run.1.2.1 = Ok resp
             else
               let gate := Ev (AdmitWrite (r_partition resolved) (epoch (r_decision resolved))) in
               (tr1 = [gate false] /\ held_run.1.2.1 = Err (ReqStaleEpoch (epoch (r_decision resolved))))
               \/ exists a, tr1 = [gate true; Ev (SinkWrite (stamp_batch plain doc_ctx batch)) a]
                  /\ held_run.1.2.1 = match a with Ok ack => Ok (response_for resolved ack) | Err e => Err (ReqSink e) end
         end
     end.
Proof.
  split; [vm_compute; reflexivity|].
  apply (ingest_doc_outcomes plain doc_ctx trace_new held_run.1.1 held_run.1.2).
  exact (interp_exec bulk_world (ingest_doc plain doc_ctx trace_new) 1).
Defined.
End Runs.
