(* ===== verification/StreamSafe.v ===== *)
(** * Isolation of streamed requests ([bulk.rs], [search_scan.rs], [pipeline.rs] of the engine)

    The calls of a streamed search and of a streamed bulk body are bound by the same guard
    as those of a buffered request ([EngineSafe]), whatever the body holds and however it
    ends: the operations that wait in the demultiplexer's buffers each come from a decision
    the router took for this request. *)
From stdpp Require Import base option list strings numbers sets gmap.
From Stdlib Require Import Ascii ZArith Lia.
From S2P Require Import Prelude.
From S2P Require Import JsonScan.
From S2P Require Import JsonProps.
From S2P Require Import CoreTypes.
From S2P Require Import Serde.
From S2P Require Import Bulk.
From S2P Require Import Spi.
From S2P Require Import Tenancy.
From S2P Require Import Sink.
From S2P Require Import Plan.
From S2P Require Import SearchScan.
From S2P Require Import Prog.
From S2P Require Import Effects.
From S2P Require Import Retry.
From S2P Require Import AsyncWrite.
From S2P Require Import BulkPrep.
From S2P Require Import BulkFlow.
From S2P Require Import BulkLedger.
From S2P Require Import BulkStream.
From S2P Require Import ReqTrace.
From S2P Require Import CursorBody.
From S2P Require Import Engine.
From S2P Require Import EngineSafe.

Open Scope osp_scope.

Section Streamed.
Context {Sd : Serde} {Si : SerdeInt} {Ss : SerdeString} {W : Wide} {M : Memchr} {Mm : Memmem} {R : Router}.
Context (p : Pipeline) (ctx : RequestCtx).
#[local] Abbreviation up := (upstream_trace p ctx).

(** ** A streamed search *)
Lemma run_search_stream_isolated past : hsafe (isolated p ctx) past (run_search_stream p ctx) (fun _ _ => True).
Proof.
  unfold run_search_stream. destruct (match cursor_signer p with Some _ => _ | None => _ end) as [wrapped|] eqn:Hw.
  - eapply (hsafe_bind _ (isolated_mono p ctx)); [apply pit_search_isolated; by destruct (cursor_signer p)|]. intros tr resp _. by apply hsafe_ret.
  - apply resolve_isolated. intros tr resolved Hd. apply hsafe_pure. intros [op shape] Hb.
    apply hsafe_call; [|intros s; by apply hsafe_note, hsafe_ret]. intros r. exists resolved. split; [done|].
    eapply filtered_search; eauto.
Qed.

(** ** A streamed bulk body *)
(** An operation prepared from a decision of this request. *)
Definition Owned (past : list event) (e : nat * Prepared) : Prop :=
  exists resolved, Decided ctx past resolved /\ Transformed ctx resolved (unstamped (p_op e.2))
  /\ p_partition e.2 = r_partition resolved /\ w_epoch (p_op e.2) = epoch (r_decision resolved).
Definition Held (past : list event) (d : Demux) : Prop := Forall (Owned past) (buffered (buffers d)).
Lemma Owned_mono past past' es : past ⊆ past' -> Forall (Owned past) es -> Forall (Owned past') es.
Proof.
  intros Hp H. eapply Forall_impl; [exact H|]. intros e (r & Hd & Hr). exists r. split; [by eapply Decided_mono|done].
Qed.

Lemma gate_owned past es :
  safe (isolated p ctx) past (gate es) (fun tr '(A, B) => A ++ B ≡ₚ es /\ Forall (let_through tr) A).
Proof.
  intros tr [A B] Hx. destruct (gate_safe ctx up [] past es tr (A, B) Hx) as (Hg & Hp & _ & Ha). split; [|done].
  eapply guarded_impl; [|exact Hg]. apply gated_isolated.
Qed.
Lemma write_owned past tr A B es r :
  Forall (Owned past) es -> A ++ B ≡ₚ es -> Forall (let_through tr) A ->
  isolated p ctx (tr ++ past) (Ev (SinkWrite (build_batch A)) r).
Proof.
  intros He Hp Ha op Hop. rewrite build_batch_ops in Hop. apply list_elem_of_fmap in Hop as (e & -> & Hin).
  rewrite <- Hp in He. apply Forall_app in He as [He _]. rewrite Forall_forall in He, Ha.
  destruct (He e Hin) as (resolved & H1 & H2 & H3 & H4). exists resolved.
  split; [eapply Decided_mono; [|exact H1]; set_solver|]. split; [done|]. rewrite <- H3, <- H4. apply elem_of_app. left. by apply Ha.
Qed.
Lemma flush_task_owned past es :
  Forall (Owned past) es -> safe (isolated p ctx) past (flush_task es) (fun _ _ => True).
Proof.
  intros He. unfold flush_task. eapply (safe_bind _ (isolated_mono p ctx)); [apply gate_owned|]. intros tr [A B] [Hp Ha].
  eapply (safe_bind _ (isolated_mono p ctx) _ _ _ (fun _ _ => True)).
  - apply safe_call. intros r. split; [by eapply write_owned|done].
  - intros tr' r _. by apply safe_ret.
Qed.
Lemma flush_owned past es ls :
  Forall (Owned past) es -> safe (isolated p ctx) past (flush es ls) (fun _ _ => True).
Proof.
  intros He. unfold flush. eapply (safe_bind _ (isolated_mono p ctx)); [apply gate_owned|]. intros tr [A B] [Hp Ha].
  eapply (safe_bind _ (isolated_mono p ctx) _ _ _ (fun _ _ => True)).
  - apply safe_call. intros r. split; [by eapply write_owned|done].
  - intros tr' r _. by apply safe_ret.
Qed.
Lemma buffer_and_flush_owned past d k q :
  Held past d -> Owned past (k, q) -> safe (isolated p ctx) past (buffer_and_flush d k q) (fun tr d' => Held (tr ++ past) d').
Proof.
  intros Hd Hq. unfold buffer_and_flush. set (bufs := tm_entry _ _ _ _). set (szs := tm_entry _ _ _ _).
  assert (Hb : Forall (Owned past) (buffered bufs)) by (unfold bufs; rewrite buffered_push; by constructor).
  destruct (_ || _); [|by apply safe_ret].
  rewrite <- (buffered_remove bufs (w_target (p_op q))) in Hb. apply Forall_app in Hb as [H1 H2].
  eapply (safe_bind _ (isolated_mono p ctx)); [by apply flush_owned|]. intros tr ls _. apply safe_ret. rewrite app_nil_r.
  unfold Held. cbn [buffers]. eapply Owned_mono; [|exact H2]. set_solver.
Qed.
Lemma ingest_item_owned past k item d cache :
  Held past d -> CacheOk ctx past cache ->
  safe (isolated p ctx) past (ingest_item ctx (retry p) up k item d cache)
    (fun tr '(d', cache') => Held (tr ++ past) d' /\ CacheOk ctx (tr ++ past) cache').
Proof.
  intros Hd Hc. unfold ingest_item. eapply (safe_bind _ (isolated_mono p ctx)).
  { apply (prepare_safe ctx (retry p) up (isolated p ctx)); [apply isolated_mono|apply asking_isolated|done]. }
  intros tr [[q|f] cache'] (Hc' & _ & Hq); cbn [fst snd] in *.
  - eapply (safe_bind _ (isolated_mono p ctx)).
    + apply buffer_and_flush_owned; [eapply Owned_mono; [|exact Hd]; set_solver|]. by apply prepared_decided in Hq.
    + intros tr' d' Hd'. apply safe_ret. rewrite app_nil_r. split.
      * eapply Owned_mono; [|exact Hd']. set_solver.
      * eapply CacheOk_mono; [|exact Hc']. set_solver.
  - apply safe_ret. rewrite app_nil_r. split; [|done]. eapply Owned_mono; [|exact Hd]. set_solver.
Qed.
Lemma stream_loop_owned {E} fuel past k (r : NdjsonReader E) d cache :
  Held past d -> CacheOk ctx past cache ->
  safe (isolated p ctx) past (stream_loop ctx (retry p) up fuel k r d cache)
    (fun tr out => match out with Returned (Ok d') => Held (tr ++ past) d' | _ => True end).
Proof.
  revert past k r d cache. induction fuel as [|fuel IH]; intros past k r d cache Hd Hc; cbn [stream_loop]; [by apply safe_ret|].
  destruct (next_op r) as [| |[[[item|]|e] r']]; try by apply safe_ret.
  eapply (safe_bind _ (isolated_mono p ctx)); [by apply ingest_item_owned|]. intros tr [d1 c1] [H1 H2].
  eapply (safe_mono _ (isolated_mono p ctx) _ _ _ _ _ (fun x Hx => Hx)); [|by apply IH].
  intros tr' [| |[d'|]]; try done. intros H. eapply Owned_mono; [|exact H]. set_solver.
Qed.
Lemma flush_remaining_owned past d : Held past d -> safe (isolated p ctx) past (flush_remaining d) (fun _ _ => True).
Proof.
  intros Hd. unfold flush_remaining. apply (safe_par _ (isolated_mono p ctx) _ _ _ _ (fun _ _ _ => True)).
  - intros es [(b & -> & Hin)%list_elem_of_In%list_elem_of_fmap _]%list_elem_of_In%filter_In.
    apply flush_task_owned, Forall_forall. intros e He. unfold Held in Hd. rewrite Forall_forall in Hd. apply Hd.
    apply list_elem_of_join. exists b.2. split; [done|]. apply list_elem_of_fmap. by exists b.
  - intros done_ tr _ _ _. by apply safe_ret.
Qed.
(** A bulk body as it arrives: its frames may end early, in an error or in the middle of an
    operation. *)
Lemma bulk_streamed_isolated b tr out :
  exec (handle_bulk_streamed p ctx b) tr out -> guarded (isolated p ctx) [] tr.
Proof.
  enough (H : safe (isolated p ctx) [] (handle_bulk_streamed p ctx b) (fun _ _ => True)) by (intros Hx; by apply (H _ out)).
  unfold handle_bulk_streamed, ingest_bulk_streamed.
  eapply (safe_bind _ (isolated_mono p ctx) _ _ _ (fun _ _ => True)); [|intros; by apply safe_ret].
  eapply (safe_bind _ (isolated_mono p ctx)); [apply stream_loop_owned; [by apply Forall_nil|done]|].
  intros tr' [| |[d|e]] Hd; try by apply safe_ret.
  eapply (safe_bind _ (isolated_mono p ctx)); [apply flush_remaining_owned, Hd|]. intros. by apply safe_ret.
Qed.
Lemma search_streamed_isolated tr out : exec (search_streamed p ctx) tr out -> guarded (isolated p ctx) [] tr.
Proof.
  intros (t1 & t2 & [r t] & -> & Hx & -> & _)%exec_bind. rewrite app_nil_r.
  by destruct (run_search_stream_isolated [] _ _ _ Hx) as [Hg _].
Qed.
End Streamed.
