(* ===== verification/FanoutQueue.v ===== *)
(** * The fan-out write queue ([crates/osproxy-server/src/fanout.rs])

    An asynchronous write leaves as one message per operation, and is accepted when the
    broker has acknowledged each of them.  The encoders of the message (protobuf) and of
    its body (CBOR) are third-party code. *)
From stdpp Require Import base option list strings numbers sets gmap.
From Stdlib Require Import Ascii ZArith Lia.
From S2P Require Import Prelude.
From S2P Require Import JsonScan.
From S2P Require Import JsonProps.
From S2P Require Import CoreTypes.
From S2P Require Import Serde.
From S2P Require Import ToySerde.
From S2P Require Import Bulk.
From S2P Require Import Spi.
From S2P Require Import Tenancy.
From S2P Require Import Sink.
From S2P Require Import Prog.
From S2P Require Import Effects.
From S2P Require Import AsyncWrite.
From S2P Require Import BulkLedger.
From S2P Require Import ReqTrace.
From S2P Require Import CursorBody.
From S2P Require Import Engine.
From S2P Require Import EngineSafe.

Open Scope osp_scope.

Inductive BodyEncoding : Type := Cbor | Json.
(** The messages of [proto/op_envelope.proto]. *)
Inductive OpType : Type := OpTypeUnspecified | OpTypeIndex | OpTypeCreate | OpTypeUpdate | OpTypeDelete.
Definition op_type_number (t : OpType) : Z :=
  match t with OpTypeUnspecified => 0 | OpTypeIndex => 1 | OpTypeCreate => 2 | OpTypeUpdate => 3 | OpTypeDelete => 4 end.
Record OpEnvelope : Type := MkOpEnvelope {
  oe_op_id : str; oe_partition : str; oe_cluster : str; oe_index : str; oe_epoch : Z; oe_op_type : Z;
  oe_id : str; oe_routing : str; oe_content_type : str; oe_body : bytes
}.
(** [ciborium::into_writer] on a parsed document, and prost's [encode_to_vec]. *)
Class Codecs `{Sd : Serde} := {
  cbor_write : value -> option bytes;
  encode_to_vec : OpEnvelope -> bytes
}.
(** [osproxy_kafka::AckProducer]: the answer is the broker's. *)
Record ProduceError : Type := MkProduceError { pe_reason : str }.
Inductive AckCall : Type -> Type :=
| SendAcked (topic : str) (key payload : bytes) : AckCall (Result unit ProduceError).

Section Queue.
Context {Sd : Serde} {Cd : Codecs}.

Definition encode_body (json : bytes) (encoding : BodyEncoding) : Result (bytes * str) QueueError :=
  match encoding with
  | Json => Ok (json, lit "application/json")
  | Cbor =>
      let? v := ok_or (from_slice json) (MkQueueError (lit "fan-out body is not valid JSON")) in
      let? out := ok_or (cbor_write v) (MkQueueError (lit "fan-out body CBOR encoding failed")) in
      Ok (out, lit "application/cbor")
  end.
(** The parts of an operation: its kind, id, routing and body. *)
Definition op_parts (doc : DocOp) : OpType * option str * option str * option bytes :=
  match doc with
  | OpIndex id routing b => (OpTypeIndex, id, routing, Some b)
  | OpCreate id routing b => (OpTypeCreate, id, routing, Some b)
  | OpUpdate id routing b => (OpTypeUpdate, Some id, routing, Some b)
  | OpDelete id routing => (OpTypeDelete, Some id, routing, None)
  end.
Definition envelope (write : QueuedWrite) (op : WriteOp) (encoding : BodyEncoding) : Result OpEnvelope QueueError :=
  let '(op_type, id, routing, b) := op_parts (w_doc op) in
  let? (b, content_type) := match b with Some json => encode_body json encoding | None => Ok ([], []) end in
  Ok (MkOpEnvelope (qw_op_id write) (qw_partition_key write) (cluster (w_target op)) (index (w_target op))
        (get (w_epoch op)) (op_type_number op_type) (default [] id) (default [] routing) content_type b).

Record KafkaWriteQueue : Type := MkKafkaWriteQueue { queue_topic : str; queue_encoding : BodyEncoding }.
Fixpoint enqueue_loop (q : KafkaWriteQueue) (write : QueuedWrite) (todo : list WriteOp) : prog_of AckCall (Result unit QueueError) :=
  match todo with
  | [] => Ret (Ok tt)
  | op :: todo =>
      match envelope write op (queue_encoding q) with
      | Err e => Ret (Err e)
      | Ok env =>
          await! r := call (SendAcked (queue_topic q) (qw_partition_key write) (encode_to_vec env)) in
          match r with
          | Ok _ => enqueue_loop q write todo
          | Err _ => Ret (Err (MkQueueError (lit "fan-out enqueue was not acknowledged")))
          end
      end
  end.
Definition queue_enqueue (q : KafkaWriteQueue) (write : QueuedWrite) : prog_of AckCall (Result unit QueueError) :=
  enqueue_loop q write (ops (qw_batch write)).

(** ** What is on the topic *)
(** The message of [op], answered with [answer]: under the partition's key, with the
    operation's own target, epoch, id and routing, and its body (verbatim, in JSON). *)
Definition Message (q : KafkaWriteQueue) (write : QueuedWrite) (answer : Result unit ProduceError) (op : WriteOp) (e : event_of AckCall) : Prop :=
  exists env, e = Ev (SendAcked (queue_topic q) (qw_partition_key write) (encode_to_vec env)) answer
  /\ oe_op_id env = qw_op_id write /\ oe_partition env = qw_partition_key write
  /\ oe_cluster env = cluster (w_target op) /\ oe_index env = index (w_target op) /\ oe_epoch env = get (w_epoch op)
  /\ let '(op_type, id, routing, b) := op_parts (w_doc op) in
     oe_op_type env = op_type_number op_type /\ oe_id env = default [] id /\ oe_routing env = default [] routing
     /\ match b with
        | None => oe_body env = [] /\ oe_content_type env = []
        | Some json => encode_body json (queue_encoding q) = Ok (oe_body env, oe_content_type env)
        end.
Definition Acked (q : KafkaWriteQueue) (write : QueuedWrite) : WriteOp -> event_of AckCall -> Prop := Message q write (Ok tt).
(** The body of [op] cannot be encoded. *)
Definition Unencodable (q : KafkaWriteQueue) (op : WriteOp) : Prop :=
  exists json e, (op_parts (w_doc op)).2 = Some json /\ encode_body json (queue_encoding q) = Err e.
(** What a write sends, and how it is answered: the messages of its operations in order, as
    far as each of them is acknowledged; behind an operation that cannot be encoded, or whose
    message is not acknowledged, nothing. *)
Inductive enqueued (q : KafkaWriteQueue) (write : QueuedWrite) (todo : list WriteOp) : trace_of AckCall -> Result unit QueueError -> Prop :=
| all_acked acked : Forall2 (Acked q write) todo acked -> enqueued q write todo acked (Ok tt)
| not_encoded before op after acked e :
    todo = before ++ op :: after -> Forall2 (Acked q write) before acked -> Unencodable q op -> enqueued q write todo acked (Err e)
| not_acked before op after acked refused err e :
    todo = before ++ op :: after -> Forall2 (Acked q write) before acked -> Message q write (Err err) op refused ->
    enqueued q write todo (acked ++ [refused]) (Err e).
Lemma enqueued_cons q write op todo e tr r :
  Acked q write op e -> enqueued q write todo tr r -> enqueued q write (op :: todo) (e :: tr) r.
Proof.
  intros He [acked Ha|before op' after acked err -> Ha Hu|before op' after acked refused err err' -> Ha Hm].
  - apply all_acked. by constructor.
  - eapply (not_encoded _ _ _ (op :: before)); [done|by constructor|done].
  - apply (not_acked _ _ _ (op :: before) op' after (e :: acked) refused err); [done|by constructor|done].
Qed.
Lemma envelope_Message q write op env answer :
  envelope write op (queue_encoding q) = Ok env ->
  Message q write answer op (Ev (SendAcked (queue_topic q) (qw_partition_key write) (encode_to_vec env)) answer).
Proof.
  unfold envelope, Message. destruct (op_parts _) as [[[ty id] routing] [json|]].
  - intros ([b ct] & Hb & [= <-])%rbind_Ok. eexists. by repeat split.
  - cbn. intros [= <-]. eexists. by repeat split.
Qed.
Lemma envelope_Err q write op e : envelope write op (queue_encoding q) = Err e -> Unencodable q op.
Proof.
  unfold envelope, Unencodable. destruct (op_parts _) as [[[ty id] routing] [json|]]; [|done]. cbn [snd].
  destruct (encode_body json _) as [[]|e'] eqn:He; [done|]. eauto.
Qed.
(** A run of the queue within a program over more calls: its messages and no others. *)
Lemma enqueue_loop_exec {D} (f : forall B, AckCall B -> D B) q write todo tr r :
  exec (renaming f (enqueue_loop q write todo)) tr r ->
  exists sent, tr = renamed f <$> sent /\ enqueued q write todo sent r.
Proof.
  revert tr r. induction todo as [|op todo IH]; intros tr r; cbn [enqueue_loop].
  { intros [-> ->]. exists []. split; [done|]. by apply all_acked. }
  destruct (envelope _ _ _) as [env|e] eqn:He; cycle 1.
  { intros [-> ->]. exists []. split; [done|]. eapply (not_encoded _ _ _ []); [done|constructor|by eapply envelope_Err]. }
  intros ([[]|err] & tr' & -> & Hx).
  - destruct (IH _ _ Hx) as (sent & -> & Hs). exists (Ev (SendAcked (queue_topic q) (qw_partition_key write) (encode_to_vec env)) (Ok tt) :: sent). split; [done|].
    apply enqueued_cons; [|done]. by apply envelope_Message.
  - destruct Hx as [-> ->]. exists ([] ++ [Ev (SendAcked (queue_topic q) (qw_partition_key write) (encode_to_vec env)) (Err err)]). split; [done|].
    eapply (not_acked _ _ _ [] _ _ []); [done|constructor|by apply envelope_Message].
Qed.
End Queue.

(** ** The engine over the queue *)
Inductive FanCall `{Sd : Serde} : Type -> Type :=
| Direct {B : Type} (c : Call B) : FanCall B
| Broker {B : Type} (c : AckCall B) : FanCall B.
Section Served.
Context {Sd : Serde} {Cd : Codecs} (q : KafkaWriteQueue).
Definition fan_call {B} (c : Call B) : prog_of FanCall B :=
  match c in Call B return prog_of FanCall B with
  | Enqueue w => renaming (@Broker Sd) (queue_enqueue q w)
  | c => call (Direct c)
  end.
Definition fanned_out {A} (m : prog A) : prog_of FanCall A := handling (@fan_call) m.
(** The broker's part of a run. *)
Definition on_topic (e : event_of AckCall) : event_of FanCall := renamed (@Broker Sd) e.

(** What a call of the engine does: a write that is queued, its messages; another call,
    itself. *)
Definition part_of (e : event_of Call) (t : trace_of FanCall) : Prop :=
  match e with
  | Ev c r => match c in Call B return B -> Prop with
              | Enqueue w => fun r => exists sent, t = on_topic <$> sent /\ enqueued q w (ops (qw_batch w)) sent r
              | c => fun r => t = [Ev (Direct c) r]
              end r
  end.
Lemma handles_part e t : handles (@fan_call) e t -> part_of e t.
Proof.
  destruct e as [B c r]. destruct c; cbn [handles part_of fan_call]; try (by intros ->%exec_call).
  intros (sent & -> & Hs)%enqueue_loop_exec. eauto.
Qed.

(** C14: The 202 of an asynchronous write is truthful. Over this queue, a write that is sent
    to the asynchronous endpoint either is refused without a message, or its messages are the
    whole of its run, and it is answered 202 exactly when the queue answers Ok. And of every call
    that the engine makes of the queue, on every endpoint, the messages are sent in the order
    of its operations, each under the key of the partition the write was resolved to and with
    the operation's own target, epoch, id, routing and body: it is answered Ok only when each of
    them was acknowledged by the broker; otherwise the messages before one were acknowledged, that one
    could not be encoded or was not acknowledged, and nothing is sent behind it. No other call
    sends a message. *)
Theorem accepted_write_is_acknowledged :
  (forall queue_enabled ctx resolved batch tr resp,
     exec (fanned_out (enqueue_async queue_enabled ctx resolved batch)) tr resp ->
     let w := MkQueuedWrite (op_id_for ctx (request_id ctx)) (r_partition resolved) batch in
     (tr = [] /\ resp_status resp <> 202%Z)
     \/ exists sent r, tr = on_topic <$> sent /\ enqueued q w (ops batch) sent r /\ (resp_status resp = 202%Z <-> r = Ok tt))
  /\ forall A (m : prog A) tr out, exec (fanned_out m) tr out -> exists calls ts, exec m calls out
     /\ Forall2 part_of calls ts /\ tr ≡ₚ mjoin ts /\ Forall (fun t => t `sublist_of` tr) ts.
Proof.
  split.
  - intros enabled ctx resolved batch tr resp. unfold fanned_out, enqueue_async.
    destruct (unsupported_async ctx); [by intros [-> ->]; left|]. destruct enabled; cbn [negb]; [|by intros [-> ->]; left].
    intros Hx. right. cbn [handling bind call] in Hx. apply exec_bind in Hx as (t1 & t2 & r & -> & (sent & -> & Hs)%enqueue_loop_exec & -> & ->).
    exists sent, r. rewrite app_nil_r. split; [done|]. split; [done|]. by destruct r as [[]|].
  - intros A m tr out (calls & He & ts & Hh & Hp & Hs)%handling_in_order. exists calls, ts. split; [done|]. split; [|done].
    eapply Forall2_impl; [exact Hh|]. apply handles_part.
Qed.
End Served.

(** ** An asynchronous batch *)
Section Runs.
#[local] Existing Instance bulk_serde.
(** Codecs to run with: the document as JSON, and a message as its id and its body. *)
#[local] Instance plain_codecs : Codecs := {| cbor_write := to_vec; encode_to_vec e := oe_id e ++ lit "=" ++ oe_body e |}.
Definition json_queue : KafkaWriteQueue := MkKafkaWriteQueue (lit "ops") Json.
Definition two_writes : WriteBatch :=
  MkWriteBatch [write_op_new (target_new (lit "eu-1") (lit "shared")) (OpIndex (Some (lit "acme:1")) None (lit "{}")) (MkEpoch 7);
                write_op_new (target_new (lit "eu-1") (lit "shared")) (OpDelete (lit "acme:2") None) (MkEpoch 7)].
(** The broker acknowledges the first [n] messages. *)
Definition broker_world : world_of FanCall nat := fun B c n =>
  match c in FanCall B return B * nat with
  | Direct c => (match c in Call B return B with
                 | Resolve _ => Ok bulk_resolved
                 | ResolvePlacement _ _ _ => Ok bulk_resolved
                 | AdmitWrite _ _ => true
                 | Sleep _ => tt
                 | SinkWrite _ => Err (SinkTransport (lit "down"))
                 | SinkGet _ => Err (SinkTransport (lit "down"))
                 | SinkSearch _ => Err (SinkTransport (lit "down"))
                 | SinkCount _ => Err (SinkTransport (lit "down"))
                 | SinkCursor _ => Err (SinkTransport (lit "down"))
                 | SinkSearchStream _ => Err (SinkTransport (lit "down"))
                 | SinkForwardStream _ _ => Err (SinkTransport (lit "down"))
                 | Enqueue _ => Ok tt
                 end, n)
  | Broker b => match b in AckCall B return B * nat with
                | SendAcked _ _ _ => match n with 0 => (Err (MkProduceError (lit "down")), 0) | S n => (Ok tt, n) end
                end
  end.
Definition fan_ctx : RequestCtx :=
  ctx_new (principal_new (lit "ci")) (lit "r1") Post IngestBulk Http1 (lit "orders") [(lit "x-tenant", lit "acme")] [].
Definition fan_run (n : nat) := interp broker_world (fanned_out json_queue (enqueue_async true fan_ctx bulk_resolved two_writes)) n.
Definition message (e : event_of FanCall) : option (str * bytes * bytes) :=
  match e with Ev (Broker (SendAcked topic key payload)) _ => Some (topic, key, payload) | _ => None end.
Example fan_runs :
  resp_status (fan_run 2).1.2 = 202%Z /\ resp_status (fan_run 1).1.2 = 503%Z
  /\ omap message (fan_run 2).1.1 = [(lit "ops", lit "acme", lit "acme:1={}"); (lit "ops", lit "acme", lit "acme:2=")].
Proof. split_and!; vm_compute; reflexivity. Qed.
(** The broker refuses the second message. *)
Lemma accepted_write_is_acknowledged_witness :
  let w := MkQueuedWrite (op_id_for fan_ctx (request_id fan_ctx)) (r_partition bulk_resolved) two_writes in
  ((fan_run 1).1.1 = [] /\ 503%Z <> 202%Z)
  \/ exists sent r, (fan_run 1).1.1 = on_topic <$> sent /\ enqueued json_queue w (ops two_writes) sent r
     /\ (503%Z = 202%Z <-> r = Ok tt).
Proof.
  destruct (accepted_write_is_acknowledged json_queue) as [H _].
  apply (H true fan_ctx bulk_resolved two_writes (fan_run 1).1.1 (fan_run 1).1.2).
  exact (interp_exec broker_world (fanned_out json_queue (enqueue_async true fan_ctx bulk_resolved two_writes)) 1).
Defined.
End Runs.
