(* ===== verification/Memory.v ===== *)
(** * The in-memory sink ([crates/osproxy-sink/src/memory.rs])

    The sink behind dry runs and tests: it keeps the documents it is sent, by physical
    index and id, and answers reads from them.  A request run against it (a trace of the
    engine whose sink calls this sink answers) shows what a tenant's writes do to the
    store and what the tenant reads back. *)
From stdpp Require Import base option list strings numbers sets gmap pretty.
From Stdlib Require Import Ascii ZArith Lia.
From S2P Require Import Prelude.
From S2P Require Import JsonScan.
From S2P Require Import JsonGrammar.
From S2P Require Import JsonTop.
From S2P Require Import JsonProps.
From S2P Require Import Trace.
From S2P Require Import CoreTypes.
From S2P Require Import Serde.
From S2P Require Import Cursor.
From S2P Require Import ToySerde.
From S2P Require Import DocId.
From S2P Require Import Fields.
From S2P Require Import Bulk.
From S2P Require Import Query.
From S2P Require Import Spi.
From S2P Require Import Tenancy.
From S2P Require Import Sink.
From S2P Require Import Plan.
From S2P Require Import ReadPath.
From S2P Require Import ObjectText.
From S2P Require Import SearchScan.
From S2P Require Import Prog.
From S2P Require Import Effects.
From S2P Require Import Retry.
From S2P Require Import AsyncWrite.
From S2P Require Import BulkPrep.
From S2P Require Import BulkLedger.
From S2P Require Import ReqTrace.
From S2P Require Import CursorBody.
From S2P Require Import FanOut.
From S2P Require Import MultiRead.
From S2P Require Import Engine.
From S2P Require Import EngineSafe.

Open Scope osp_scope.

(** ** The sink *)
Record MemorySink : Type := MkMemorySink {
  recorded : list WriteBatch;
  docs : gmap (str * str) bytes;
  searches : list SearchOp;
  auto_id : Z
}.
Definition memory_new : MemorySink := MkMemorySink [] ∅ [] 0.

(** [fetch_add] wraps; so does the addition of a release build. *)
Definition next_auto_id (n : Z) : str * Z := (lit "auto-" ++ lit (pretty (u64_wrap (n + 1))), u64_wrap (n + 1)).
Definition ack_one (n : Z) (op : WriteOp) : OpResult * Z :=
  match w_doc op with
  | OpIndex id _ _ | OpCreate id _ _ =>
      match id with
      | Some id => (MkOpResult id 201 true, n)
      | None => let '(id, n) := next_auto_id n in (MkOpResult id 201 true, n)
      end
  | OpUpdate id _ _ | OpDelete id _ => (MkOpResult id 200 false, n)
  end.
Fixpoint ack_results (n : Z) (l : list WriteOp) : list OpResult * Z :=
  match l with
  | [] => ([], n)
  | op :: l => let '(r, n) := ack_one n op in let '(rs, n) := ack_results n l in (r :: rs, n)
  end.
Definition ack_for (n : Z) (batch : WriteBatch) : WriteAck * Z :=
  let '(rs, n) := ack_results n (ops batch) in (ack_new rs, n).

Section Store.
Context {Sd : Serde}.

(** [existing] is the stored source, when there is one that parses. *)
Definition apply_update (existing : option value) (b : bytes) : option value :=
  let patch := default Null (from_slice b) in
  match existing with
  | None =>
      let doc_as_upsert := match value_get patch (lit "doc_as_upsert") with Some (Bool b) => b | _ => false end in
      match value_get patch (lit "upsert") with
      | Some v => Some v
      | None => if doc_as_upsert then value_get patch (lit "doc") else None
      end
  | Some source =>
      Some (match as_object source, value_get patch (lit "doc") ≫= as_object with
            | Some target, Some doc => Object (insert_all target doc)
            | _, _ => source
            end)
  end.

Definition store_one (docs : gmap (str * str) bytes) (op : WriteOp) (result : OpResult) : gmap (str * str) bytes :=
  let index := index (w_target op) in
  match w_doc op with
  | OpIndex _ _ b | OpCreate _ _ b => <[(index, res_id result) := b]> docs
  | OpUpdate id _ b =>
      let key := (index, id) in
      let existing := b ← docs !! key; from_slice b in
      match m ← apply_update existing b; to_vec m with
      | Some b => <[key := b]> docs
      | None => docs
      end
  | OpDelete id _ => delete (index, id) docs
  end.
Definition store (docs : gmap (str * str) bytes) (batch : WriteBatch) (ack : WriteAck) : gmap (str * str) bytes :=
  foldl (fun docs e => store_one docs e.1 e.2) docs (zip (ops batch) (results ack)).

Definition mem_write (s : MemorySink) (batch : WriteBatch) : Result WriteAck SinkError * MemorySink :=
  let '(ack, n) := ack_for (auto_id s) batch in
  (Ok ack, MkMemorySink (recorded s ++ [batch]) (store (docs s) batch ack) (searches s) n).

Definition envelope_doc (index id : str) (source : bytes) (found : bool) : value :=
  let source := default Null (from_slice source) in
  json_object [(lit "_index", String index); (lit "_id", String id);
               (lit "found", Bool found); (lit "_source", source)].
Definition envelope (index id : str) (source : bytes) (found : bool) : bytes :=
  default (body "{'found':false}") (to_vec (envelope_doc index id source found)).
Definition mem_get (s : MemorySink) (op : ReadOp) : Result ReadOutcome SinkError :=
  let index := index (rd_target op) in
  Ok (match docs s !! (index, rd_id op) with
      | Some b => read_found 200 (envelope index (rd_id op) b true)
      | None => read_not_found 404 (envelope index (rd_id op) (lit "null") false)
      end).

Definition record_search (s : MemorySink) (op : SearchOp) : MemorySink :=
  MkMemorySink (recorded s) (docs s) (searches s ++ [op]) (auto_id s).
(** [order] is the order in which the map is iterated: any order of its entries. *)
Definition hits_of (order : list ((str * str) * bytes)) (index : str) : list value :=
  (fun e => json_object [(lit "_index", String e.1.1); (lit "_id", String e.1.2);
                         (lit "_source", default Null (from_slice e.2))])
    <$> List.filter (fun e => str_eqb e.1.1 index) order.
Context {Si : SerdeInt}.
Definition search_body_of (hits : list value) : value :=
  json_object [(lit "hits", json_object
    [(lit "total", json_object [(lit "value", Number (int_num (Z.of_nat (length hits))))]);
     (lit "hits", Array hits)])].
Definition mem_search (order : list ((str * str) * bytes)) (s : MemorySink) (op : SearchOp)
    : Result SearchOutcome SinkError * MemorySink :=
  let hits := hits_of order (index (so_target op)) in
  (Ok (search_outcome_new 200 (default (lit "{}") (to_vec (search_body_of hits)))), record_search s op).
(** [buffered]: one frame. *)
Definition mem_search_stream (order : list ((str * str) * bytes)) (s : MemorySink) (op : SearchOp)
    : Result StreamingSearch SinkError * MemorySink :=
  let '(out, s) := mem_search order s op in
  (match out with
   | Ok out => Ok (MkStreamingSearch (se_status out) [Data (se_body out)] false)
   | Err e => Err e
   end, s).
Definition mem_count (s : MemorySink) (op : SearchOp) : Result CountOutcome SinkError * MemorySink :=
  let count := length (List.filter (fun e : (str * str) * bytes => str_eqb e.1.1 (index (so_target op)))
                         (map_to_list (docs s))) in
  (Ok (count_outcome_new 200 (Z.of_nat count)), record_search s op).

(** What the [Reader] trait answers where a sink does not override it. *)
Definition unsupported_cursor : SinkError := SinkTransport (lit "cursor passthrough not supported by this sink").
Definition unsupported_forward : SinkError := SinkTransport (lit "streaming forward not supported by this sink").

(** ** Requests against the sink

    [mem_step c s b s']: [c] is answered [b] by the sink in state [s], which is then in
    state [s'].  The sink's methods await nothing, so each runs to its end between two
    calls of a request; calls to other parties leave it as it is. *)
Definition mem_step {B} (c : Call B) : MemorySink -> B -> MemorySink -> Prop :=
  match c in Call B return MemorySink -> B -> MemorySink -> Prop with
  | SinkWrite batch => fun s b s' => (b, s') = mem_write s batch
  | SinkGet op => fun s b s' => b = mem_get s op /\ s' = s
  | SinkSearch op => fun s b s' => exists order, order ≡ₚ map_to_list (docs s) /\ (b, s') = mem_search order s op
  | SinkSearchStream op => fun s b s' =>
      exists order, order ≡ₚ map_to_list (docs s) /\ (b, s') = mem_search_stream order s op
  | SinkCount op => fun s b s' => (b, s') = mem_count s op
  | SinkCursor _ => fun s b s' => b = Err unsupported_cursor /\ s' = s
  | SinkForwardStream _ _ => fun s b s' => b = Err unsupported_forward /\ s' = s
  | Resolve _ | ResolvePlacement _ _ _ | AdmitWrite _ _ | Sleep _ | Enqueue _ => fun s _ s' => s' = s
  end.
Fixpoint MemRun (s : MemorySink) (tr : trace) (s' : MemorySink) : Prop :=
  match tr with
  | [] => s' = s
  | Ev c b :: tr => exists s1, mem_step c s b s1 /\ MemRun s1 tr s'
  end.
End Store.

Section Facts.
Context {Sd : Serde} {Si : SerdeInt}.

Lemma MemRun_app s t1 t2 s' : MemRun s (t1 ++ t2) s' <-> exists s1, MemRun s t1 s1 /\ MemRun s1 t2 s'.
Proof.
  revert s. induction t1 as [|[B c b] t1 IH]; intros s; cbn [app MemRun].
  - split; [by exists s|]. by intros (? & -> & ?).
  - setoid_rewrite IH. split.
    + intros (s1 & H1 & s2 & H2 & H3). eauto.
    + intros (s2 & (s1 & H1 & H2) & H3). eauto.
Qed.

(** A world that answers the sink's calls as the sink does runs against the sink. *)
Lemma interp_MemRun {A} (w : world_of Call MemorySink) (m : prog A) s :
  (forall B (c : Call B) s, mem_step c s (w B c s).1 (w B c s).2) ->
  MemRun s (interp w m s).1.1 (interp w m s).2.
Proof.
  intros Hw. revert s. induction m as [A a|A Y c k IH|A X Y xs task IHt k IH]; intros s; cbn [interp].
  - done.
  - specialize (Hw _ c s). destruct (w Y c s) as [b s1]. specialize (IH b s1).
    destruct (interp w (k b) s1) as [[tr a] s2]. cbn. eauto.
  - set (go := fix go (xs : list X) (w : MemorySink) : trace * list Y * MemorySink := _).
    assert (Hgo : forall xs s, MemRun s (go xs s).1.1 (go xs s).2).
    { clear -IHt. intros xs. induction xs as [|x xs IHx]; intros s; [done|]. cbn.
      specialize (IHt x s). destruct (interp w (task x) s) as [[t b] s1].
      specialize (IHx s1). destruct (go xs s1) as [[ts bs] s2]. cbn in *. apply MemRun_app. eauto. }
    specialize (Hgo xs s). destruct (go xs s) as [[tr1 bs] s1]. specialize (IH bs s1).
    destruct (interp w (k bs) s1) as [[tr2 a] s2]. cbn in *. apply MemRun_app. eauto.
Qed.

(** Calls that only ask leave the store as it is. *)
Lemma asking_MemRun s tr s' : Forall asking tr -> MemRun s tr s' -> s' = s.
Proof.
  revert s. induction tr as [|[B c b] tr IH]; intros s; [done|]. intros [Hc Ht]%Forall_cons (s1 & H1 & H2).
  apply IH in H2 as ->; [|done]. by destruct c.
Qed.

Lemma ack_results_length n l : length (ack_results n l).1 = length l.
Proof.
  revert n. induction l as [|op l IH]; intros n; cbn; [done|]. destruct (ack_one n op) as [r m]. specialize (IH m).
  destruct (ack_results m l) as [rs m']. cbn in *. by rewrite IH.
Qed.
(** The id an acknowledged operation has. *)
Definition op_id (op : WriteOp) : option str :=
  match w_doc op with OpIndex id _ _ | OpCreate id _ _ => id | OpUpdate id _ _ | OpDelete id _ => Some id end.
Lemma ack_results_ids n l : Forall2 (fun op r => forall i, op_id op = Some i -> res_id r = i) l (ack_results n l).1.
Proof.
  revert n. induction l as [|op l IH]; intros n; cbn; [done|]. destruct (ack_one n op) as [r m] eqn:Ha. specialize (IH m).
  destruct (ack_results m l) as [rs m']. constructor; [|done]. intros i. unfold op_id, ack_one in *.
  destruct (w_doc op) as [[id|] ? ?|[id|] ? ?|id ? ?|id ?]; simplify_eq/=; congruence.
Qed.

(** Storing an operation changes its own document only. *)
Lemma store_one_other d op r k :
  (forall i, op_id op = Some i -> res_id r = i) ->
  store_one d op r !! k <> d !! k -> k = (index (w_target op), default (res_id r) (op_id op)).
Proof.
  intros Hr Hk. destruct (decide (k = (index (w_target op), default (res_id r) (op_id op)))) as [|Hne]; [done|].
  destruct Hk. unfold store_one, op_id in *. destruct (w_doc op) as [id ? ?|id ? ?|id ? ?|id ?]; cbn [default] in *.
  1,2: destruct id as [id|]; [specialize (Hr _ eq_refl)|]; rewrite lookup_insert_ne; cbn in *; congruence.
  - destruct (m ← _; _); [|done]. by rewrite lookup_insert_ne by done.
  - by rewrite lookup_delete_ne by done.
Qed.
Lemma store_other d ops rs k :
  Forall2 (fun op r => forall i, op_id op = Some i -> res_id r = i) ops rs ->
  foldl (fun d e => store_one d e.1 e.2) d (zip ops rs) !! k <> d !! k ->
  exists op i, op ∈ ops /\ k = (index (w_target op), i) /\ (forall j, op_id op = Some j -> i = j).
Proof.
  intros H. revert d. induction H as [|op r ops rs Hr Hrs IH]; intros d Hk; cbn in Hk; [done|].
  destruct (decide (store_one d op r !! k = d !! k)) as [Heq|Hne].
  - rewrite <- Heq in Hk. destruct (IH _ Hk) as (op' & i & Hin & H1 & H2). exists op', i. split; [by right|done].
  - apply store_one_other in Hne; [|done]. exists op, (default (res_id r) (op_id op)). split; [by left|]. split; [done|].
    intros j Hj. by rewrite Hj.
Qed.

(** Only a write that a trace sends changes the store. *)
Lemma MemRun_changes s tr s' k :
  MemRun s tr s' -> docs s' !! k <> docs s !! k ->
  exists b r op i, Ev (SinkWrite b) r ∈ tr /\ op ∈ ops b /\ k = (index (w_target op), i)
    /\ (forall j, op_id op = Some j -> i = j).
Proof.
  revert s. induction tr as [|[B c b] tr IH]; intros s; [by intros ->|]. intros (s1 & Hc & Ht) Hk.
  destruct (decide (docs s1 !! k = docs s !! k)) as [Heq|Hne].
  - rewrite <- Heq in Hk. destruct (IH _ Ht Hk) as (w & r & op & i & H1 & H2). exists w, r, op, i. split; [by right|done].
  - destruct c; cbn [mem_step] in Hc; try by (subst; destruct Hne).
    + unfold mem_write, ack_for in Hc. pose proof (ack_results_ids (auto_id s) (ops b0)) as Hids.
      destruct (ack_results (auto_id s) (ops b0)) as [rs n]. injection Hc as -> ->. cbn [docs] in Hne.
      unfold store in Hne. cbn [results ack_new] in Hne.
      destruct (store_other _ _ _ _ Hids Hne) as (op & i & H1 & H2). eexists b0, _, op, i. split; [by left|done].
    + destruct Hc as [_ ->]. done.
    + destruct Hc as (order & _ & [= _ ->]). done.
    + injection Hc as _ ->. done.
    + destruct Hc as [_ ->]. done.
    + destruct Hc as (order & _ & [= _ ->]). done.
    + destruct Hc as [_ ->]. done.
Qed.
End Facts.

(** ** Whose documents a request changes *)
Section Isolation.
Context {Sd : Serde} {Si : SerdeInt} {W : Wide} {M : Memchr} {Mm : Memmem} {R : Router}.

(** [id] is an id of the resolved partition: framed as the id rule frames them. *)
Definition OwnId (resolved : Resolved) (id : str) : Prop :=
  forall rule prefix suffix, transform_rule (body_transform (r_decision resolved)) = Some rule ->
  id_frame (template_str (template rule)) (r_partition resolved) = Some (Ok (prefix, suffix)) ->
  exists key, id = prefix ++ key ++ suffix.

Lemma MappedId_own resolved logical id :
  MappedId (body_transform (r_decision resolved)) (r_partition resolved) logical id -> OwnId resolved id.
Proof.
  unfold MappedId. intros H rule prefix suffix Hr Hf. rewrite Hr in H.
  destruct (framed_id_maps_back _ _ _ _ logical Hf) as [Hm _]. rewrite Hm in H. injection H as <-. by exists logical.
Qed.
Lemma IdOf_own resolved b id :
  IdOf (body_transform (r_decision resolved)) (r_partition resolved) b (Some id) -> OwnId resolved id.
Proof.
  unfold IdOf. intros H rule prefix suffix Hr Hf. rewrite Hr in H. destruct H as (i & [= <-] & Hc).
  destruct (construct_maps _ _ _ _ _ _ Hc Hf) as (_ & key & _ & ->). by exists key.
Qed.
Lemma IdOf_none tr partition b : IdOf tr partition b None -> transform_rule tr = None.
Proof. unfold IdOf. destruct (transform_rule tr); [|done]. by intros (? & ? & _). Qed.

Lemma apply_transform_id b tr partition id out : apply_transform b tr partition = Ok (id, out) -> IdOf tr partition b id.
Proof.
  unfold IdOf. destruct tr as [|fields|rule|fields rule]; cbn [apply_transform transform_rule].
  - destruct (validate_json b); [|done]. by intros [= <- <-].
  - destruct (inject _ _ _); [|done]. by intros [= <- <-].
  - destruct (validate_json b); [|done]. cbn. destruct (build_id rule b partition) as [i|] eqn:Hb; [|done].
    intros [= <- <-]. exists i. by apply build_id_Ok in Hb.
  - destruct (inject _ _ _); [|done]. cbn [rbind]. destruct (build_id rule b partition) as [i|] eqn:Hb; [|done].
    intros [= <- <-]. exists i. by apply build_id_Ok in Hb.
Qed.

(** An operation the transforms make goes to the decision's index, under an id of the
    partition. *)
Definition OwnOp (resolved : Resolved) (op : WriteOp) : Prop :=
  w_target op = target (r_decision resolved)
  /\ match op_id op with
     | Some id => OwnId resolved id
     | None => transform_rule (body_transform (r_decision resolved)) = None
     end.
Lemma write_batch_own resolved b op : build_write_batch resolved b = Ok (batch_single op) -> OwnOp resolved op.
Proof.
  unfold build_write_batch. destruct (apply_transform _ _ _) as [[id out]|] eqn:Ha; [|done]. cbn [rbind].
  intros [= <-]. split; [done|]. apply apply_transform_id in Ha. cbn. destruct id; [by eapply IdOf_own|by eapply IdOf_none].
Qed.
Lemma delete_op_own resolved id op : build_delete_op resolved id = Ok op -> OwnOp resolved op.
Proof.
  unfold build_delete_op, physical_id_and_routing. rewrite id_rule_transform.
  destruct (transform_rule _) as [rule|] eqn:Hr; cbn [rbind].
  - destruct (ended _) as [i|] eqn:He; [|done]. intros [= <-]. split; [done|]. apply ended_Ok in He.
    cbn. eapply MappedId_own. unfold MappedId. by rewrite Hr.
  - intros [= <-]. split; [done|]. intros rule prefix suffix Hr'. congruence.
Qed.
Lemma build_update_own resolved item inject rv bad doc echoed :
  build_update item inject (id_rule_of (body_transform (r_decision resolved))) (r_partition resolved) rv bad
  = Ok (doc, echoed) -> exists id routing b, doc = OpUpdate id routing b /\ OwnId resolved id.
Proof.
  unfold build_update. destruct (bi_id item) as [logical|]; [|done]. cbn [ok_or rbind].
  destruct (physical_id _ _ _) as [id|] eqn:Hp; [|done]. cbn [ok_or rbind]. destruct (bi_source item) as [source|]; [|done].
  cbn [ok_or rbind]. destruct (from_slice source) as [u|]; [|done]. cbn [ok_or rbind].
  destruct (inject_update u inject) as [u' [[]|]]; [|done]. cbn [map_err rbind].
  destruct (to_vec u') as [out|]; [|done]. cbn [ok_or rbind]. intros [= <- <-]. eexists _, _, _. split; [done|].
  eapply MappedId_own. by apply physical_id_MappedId.
Qed.
Lemma build_op_own resolved inject item action ix q : build_op resolved inject item action ix = Ok q -> OwnOp resolved (p_op q).
Proof.
  unfold build_op. match goal with |- rbind ?m _ = _ -> _ => destruct m as [[doc echoed]|] eqn:Hm; [|done] end.
  cbn [rbind]. intros [= <-]. split; [done|]. cbn [p_op op_id write_with_protocol write_op_new w_doc].
  assert (Hix : forall id, index_id (id_rule_of (body_transform (r_decision resolved))) (r_partition resolved) item
      (default [] (bi_source item)) = Some (id, echoed) ->
    match id with Some id => OwnId resolved id | None => transform_rule (body_transform (r_decision resolved)) = None end).
  { intros id Hi%index_id_IndexedId. unfold IndexedId in Hi. destruct (bi_id item) as [c|].
    - destruct Hi as (_ & i & -> & Hi). by eapply MappedId_own.
    - destruct Hi as [Hi _]. destruct id; [by eapply IdOf_own|by eapply IdOf_none]. }
  destruct (bi_action item) eqn:Ha.
  1,2: destruct (bi_source item) as [source|]; [|done]; cbn [ok_or rbind] in Hm;
    destruct (inject_fields_bytes source inject) as [out|]; [|done]; cbn [map_err rbind] in Hm;
    destruct (index_id _ _ item source) as [[id logical]|] eqn:Hi; [|done]; cbn [ok_or rbind] in Hm;
    injection Hm as <- <-; exact (Hix _ Hi).
  - apply build_update_own in Hm as (id & routing & b & -> & Hid). exact Hid.
  - destruct (bi_id item) as [logical|]; [|done]. cbn [ok_or rbind] in Hm.
    destruct (physical_id _ _ _) as [id|] eqn:Hp; [|done]. injection Hm as <- <-.
    eapply MappedId_own. by apply physical_id_MappedId.
Qed.
Lemma transformed_own ctx resolved op : Transformed ctx resolved op -> OwnOp resolved op.
Proof.
  intros [H|[(id & H)|(item & q & H & ->)]]; [by eapply write_batch_own|by eapply delete_op_own|by eapply build_op_own].
Qed.
Lemma unstamped_own resolved op : OwnOp resolved (unstamped op) -> OwnOp resolved op.
Proof. done. Qed.

(** Where a change to the store comes from. *)
Lemma change_is_decided p ctx tr s s' ix id :
  guarded (isolated p ctx) [] tr -> MemRun s tr s' -> docs s' !! (ix, id) <> docs s !! (ix, id) ->
  exists resolved, Decided ctx tr resolved /\ ix = index (target (r_decision resolved))
  /\ OwnId resolved id
  /\ Ev (AdmitWrite (r_partition resolved) (epoch (r_decision resolved))) true ∈ tr.
Proof.
  intros Hg Hrun Hk. destruct (MemRun_changes _ _ _ _ Hrun Hk) as (b & r & op & i & Hin & Hop & [= -> ->] & Hi).
  pose proof (guarded_elem _ _ _ _ (isolated_mono p ctx) Hg Hin) as Hb. rewrite app_nil_r in Hb.
  destruct (Hb op Hop) as (resolved & Hd & Ht & Hadm). exists resolved. split; [done|].
  destruct (unstamped_own _ _ (transformed_own _ _ _ Ht)) as [-> Hid]. split; [done|]. split; [|done].
  destruct (op_id op) as [j|]; [by rewrite (Hi j)|]. intros rule prefix suffix Hr. congruence.
Qed.

(** C9: A request leaves other tenants' documents alone. Whatever a request sends to the
    in-memory sink, and whatever else answers it, a document it creates, changes or removes
    is in the index of a decision the router took for this very request, under an id that
    the decision's rule frames with the resolved partition (when the rule is reversible), and
    the write gate had let that partition's write through. Every other document of the
    store is byte for byte what it was. *)
Theorem requests_change_only_own_documents p ctx tr out s s' ix id :
  ~ forwarded p ctx -> exec (handle p ctx) tr out -> MemRun s tr s' ->
  docs s' !! (ix, id) <> docs s !! (ix, id) ->
  exists resolved, Decided ctx tr resolved /\ ix = index (target (r_decision resolved))
  /\ OwnId resolved id
  /\ Ev (AdmitWrite (r_partition resolved) (epoch (r_decision resolved))) true ∈ tr.
Proof.
  intros Hf (o & Ho & _)%exec_handle Hrun Hk. destruct (dispatch_isolated _ _ _ _ _ Hf Ho) as [Hg _].
  by eapply change_is_decided.
Qed.
End Isolation.

(** ** What is read back *)
Section ReadBack.
Context {Sd : Serde} {Si : SerdeInt} {W : Wide} {M : Memchr} {Mm : Memmem} {R : Router}.
Context (p : Pipeline) (resolved : Resolved).
#[local] Abbreviation tr_of := (body_transform (r_decision resolved)).
#[local] Abbreviation ix := (index (target (r_decision resolved))).

(** The router decides [resolved] for the request, whenever it decides. *)
Definition Decides (ctx : RequestCtx) (tr : trace) : Prop := forall r, Ev (Resolve ctx) (Ok r) ∈ tr -> r = resolved.
Lemma attempts_Ok ctx pol n tr r : attempts pol (Resolve ctx) n tr r -> Ev (Resolve ctx) r ∈ tr.
Proof. induction 1; [by left|]. right. apply elem_of_app. by right. Qed.
Lemma attempts_asking ctx pol n tr r : attempts pol (Resolve ctx) n tr r -> Forall asking tr.
Proof. intros Ha. apply Forall_forall. by intros e [(d & ->)|(a & ->)]%(attempts_events _ _ _ _ _ _ Ha). Qed.

(** The id that a write answers with maps back to the id it stored under. *)
Lemma stored_id_maps_back b id auto :
  Reversible tr_of (r_partition resolved) -> IdOf tr_of (r_partition resolved) b id ->
  physical_id_and_routing resolved (logical_write_id resolved (default auto id)) (read_shape tr_of)
  = Ok (default auto id, Plan.routing_for tr_of (default (r_partition resolved) (r_routing_hint resolved))).
Proof.
  intros Hrev Hid. destruct id as [i|]; [by eapply written_id_maps_back|]. apply IdOf_none in Hid.
  unfold physical_id_and_routing, logical_write_id. rewrite id_rule_transform, Hid. cbn.
  by rewrite shape_routing_for.
Qed.

(** A synchronous write that is answered at all has stored the transformed document. *)
Lemma ingest_stores ctx t tr out s s' id b resp :
  Decides ctx tr -> write_mode_eqb (write_mode p ctx) Async = false ->
  apply_transform (ctx_body ctx) tr_of (r_partition resolved) = Ok (id, b) ->
  exec (ingest_doc p ctx t) tr out -> MemRun s tr s' -> out.1 = Ok resp ->
  let i := default (next_auto_id (auto_id s)).1 id in
  docs s' = <[(ix, i) := b]> (docs s) /\ resp = response_for resolved (ack_new [MkOpResult i 201 true]).
Proof.
  intros Hdec Hm Ha Hx Hrun Hout i. destruct (exec_resolve _ _ _ _ _ _ Hx) as (tr0 & tr1 & r & -> & Hat & Hr).
  apply MemRun_app in Hrun as (s1 & H0 & H1). apply (asking_MemRun _ _ _ (attempts_asking _ _ _ _ _ Hat)) in H0 as ->.
  destruct r as [r|e]; [|destruct Hr as [_ Hr]; congruence].
  assert (r = resolved) as -> by (apply Hdec, elem_of_app; left; by eapply attempts_Ok).
  destruct Hr as [t' Hr]. unfold hbind, hpure in Hr. cbn [bind] in Hr. unfold build_write_batch in Hr.
  rewrite Ha in Hr. cbn [rbind bind hnote] in Hr. rewrite Hm in Hr.
  unfold gate_write, hcall, call in Hr. cbn [bind] in Hr. destruct Hr as (g & tr' & -> & Hr).
  destruct g; [|destruct Hr as [-> ->]; done]. cbn [bind] in Hr. destruct Hr as (a & tr'' & -> & Hr).
  destruct H1 as (s1 & -> & s2 & Hw & H2). unfold mem_write, ack_for in Hw. cbn in Hw.
  unfold i in *. destruct id as [j|]; cbn in Hw; injection Hw as -> ->; cbn in Hr; destruct Hr as [-> ->]; cbn in H2; subst s';
    injection Hout as <-; done.
Qed.

(** A get of a stored document shows it as the envelope says. *)
Lemma get_shows ctx t tr out s s' l i routing b :
  Decides ctx tr -> doc_id ctx = Some l ->
  physical_id_and_routing resolved l (read_shape tr_of) = Ok (i, routing) ->
  docs s !! (ix, i) = Some b ->
  exec (get_by_id p ctx t) tr out -> MemRun s tr s' ->
  (exists e, out.1 = Err (ReqSpi e))
  \/ out.1 = (let? b := shape_found (envelope ix i b true) (logical_index ctx) l (inject_names (read_shape tr_of)) in
              Ok (MkResponse 200 b None)).
Proof.
  intros Hdec Hl Hp Hs Hx Hrun. destruct (exec_resolve _ _ _ _ _ _ Hx) as (tr0 & tr1 & r & -> & Hat & Hr).
  apply MemRun_app in Hrun as (s1 & H0 & H1). apply (asking_MemRun _ _ _ (attempts_asking _ _ _ _ _ Hat)) in H0 as ->.
  destruct r as [r|e]; [|left; destruct Hr as [_ Hr]; by exists e]. right.
  assert (r = resolved) as -> by (apply Hdec, elem_of_app; left; by eapply attempts_Ok).
  destruct Hr as [t' Hr]. rewrite Hl in Hr. unfold hbind, hpure in Hr. cbn [bind ok_or] in Hr. unfold build_read_op in Hr.
  rewrite Hp in Hr. cbn [rbind bind] in Hr. unfold hcall, call in Hr. cbn [bind] in Hr.
  destruct Hr as (a & tr' & -> & Hr). destruct H1 as (s1 & [-> ->] & H1). unfold mem_get in Hr. cbn [rd_target rd_id
    read_with_forward_headers read_with_trace read_with_protocol read_op_new] in Hr. rewrite Hs in Hr.
  cbn [map_err bind hnote ro_found ro_body] in Hr. destruct (shape_found _ _ _ _) as [o|e]; cbn in Hr |- *;
    by destruct Hr as [-> ->].
Qed.

End ReadBack.

(** ** A write and a read, run *)
Section Runs.
#[local] Existing Instance scalar_wide.
#[local] Existing Instance bulk_router.
Definition stored_text : bytes := body "{'_tenant':'acme','k':'v','msg':'hi'}".
Definition client_doc : list (str * Value Z) := [(lit "k", String (lit "v")); (lit "msg", String (lit "hi"))].
Definition tenant_field : list (str * Value Z) := [(lit "_tenant", String (lit "acme"))].
Definition stored_doc : Value Z := Object (tenant_field ++ client_doc).
Definition mem_table : list (bytes * Value Z) :=
  [(sample_body, Object client_doc); (stored_text, stored_doc);
   (body "{'_id':'acme:v','_index':'shared','_source':{'_tenant':'acme','k':'v','msg':'hi'},'found':true}",
    Object [(lit "_id", String (lit "acme:v")); (lit "_index", String (lit "shared"));
            (lit "_source", stored_doc); (lit "found", Bool true)])]
  ++ ((fun s => (body "'" ++ s ++ body "'", String s)) <$> [lit "v"; lit "hi"; lit "acme"; lit "acme:v"; lit "shared"])
  ++ [(lit "true", Bool true)].
#[local] Instance mem_serde : Serde := toy_serde mem_table.
#[local] Instance mem_int : @SerdeInt mem_serde := toy_int mem_table.
(** The members of the objects of the table, and what their values parse to. *)
Definition client_members : list (str * bytes) := [(lit "k", body "'v'"); (lit "msg", body "'hi'")].
Definition tenant_member : list (str * bytes) := [(lit "_tenant", body "'acme'")].
Definition envelope_members : list (str * bytes) :=
  [(lit "_id", body "'acme:v'"); (lit "_index", body "'shared'"); (lit "_source", stored_text); (lit "found", lit "true")].
(** A text that is written from members is an object of those only. *)
Lemma mem_object t (ms : list (str * Value Z)) kvs0 kvs :
  Forall2 (fun (e : str * bytes) m => m.1 = e.1 /\ toy_from_slice mem_table e.2 = Some m.2) kvs0 ms ->
  Forall2 (fun (e : str * bytes) m => utf8_valid e.1 = true /\ toy_write m.2 = Some e.2) kvs0 ms ->
  toy_raw_to_vec kvs0 = Some t -> ObjectDoc t kvs ->
  exists ms', Forall2 (fun (e : str * bytes) m => m.1 = e.1 /\ toy_from_slice mem_table e.2 = Some m.2) kvs ms' /\ json_object ms = json_object ms'.
Proof.
  intros Hms Hw Ht Hd. exists ms. split; [|done]. rewrite (ObjectDoc_unique t kvs kvs0); [done|done|].
  apply (@written_object mem_serde); [|done]. clear -Hw. induction Hw as [|e m kvs ms [He Hm] _ IH]; constructor; [|done].
  split; [done|]. exact (proj1 (toy_write_json _ _ Hm)).
Qed.
Lemma mem_no_object t kvs : is_ok (object_top_level t) = false -> ~ ObjectDoc t kvs.
Proof.
  intros Ht (w1 & inner & w2 & -> & Hw1 & Hi & Hw2).
  rewrite (proj2 (object_top_level_spec _ (MkTopLevel (Datatypes.S (length w1)) (match kvs with [] => true | _ => false end) kvs.*1))) in Ht; [done|].
  by exists w1, inner, kvs, w2.
Qed.
#[local] Instance mem_laws : @ParserLaws mem_serde.
Proof.
  split.
  - intros t kvs v Hd Hv. apply map_get_in in Hv.
    repeat (apply elem_of_cons in Hv as [[= -> ->]|Hv]); [| | |by eapply mem_no_object in Hd..|by apply not_elem_of_nil in Hv].
    + apply (mem_object sample_body client_doc client_members); [by repeat constructor..|vm_compute; reflexivity|done].
    + apply (mem_object stored_text (tenant_field ++ client_doc) (tenant_member ++ client_members)); [by repeat constructor..|vm_compute; reflexivity|done].
    + eapply (mem_object _ [(lit "_id", String (lit "acme:v")); (lit "_index", String (lit "shared")); (lit "_source", stored_doc); (lit "found", Bool true)] envelope_members); [by repeat constructor..|vm_compute; reflexivity|done].
  - intros t m Hv. apply map_get_in in Hv.
    repeat (apply elem_of_cons in Hv as [[= -> ->]|Hv]); try done; [by repeat constructor..|by apply not_elem_of_nil in Hv].
Qed.
Definition mem_resolved : Resolved :=
  MkResolved (lit "acme")
    (MkRouteDecision (target_new (lit "eu-1") (lit "shared")) Http1 []
      (Both [MkInjectedField (lit "_tenant") InjPartitionId] (MkDocIdRule (MkIdTemplate recommended) true)) (MkEpoch 7))
    PhaseSettled None.
Definition mem_world : world_of (@Call mem_serde) MemorySink := fun B c s =>
  match c in Call B return B * MemorySink with
  | Resolve _ | ResolvePlacement _ _ _ => (Ok mem_resolved, s)
  | Sleep _ => (tt, s)
  | AdmitWrite _ _ => (true, s)
  | SinkWrite b => mem_write s b
  | SinkGet op => (mem_get s op, s)
  | SinkSearch op => mem_search (map_to_list (docs s)) s op
  | SinkCount op => mem_count s op
  | SinkCursor _ => (Err unsupported_cursor, s)
  | SinkSearchStream op => mem_search_stream (map_to_list (docs s)) s op
  | SinkForwardStream _ _ => (Err unsupported_forward, s)
  | Enqueue _ => (Ok tt, s)
  end.
Lemma mem_world_steps B (c : Call B) s : mem_step c s (mem_world B c s).1 (mem_world B c s).2.
Proof.
  destruct c; cbn [mem_step mem_world]; try done; try (by rewrite <- surjective_pairing).
  - exists (map_to_list (docs s)). split; [done|]. by rewrite <- surjective_pairing.
  - exists (map_to_list (docs s)). split; [done|]. by rewrite <- surjective_pairing.
Qed.
Definition decides_it (e : event) : Prop :=
  match e with
  | Ev c a => match c in Call B return B -> Prop with
              | Resolve _ => fun a => match a with Ok r => r = mem_resolved | Err _ => True end
              | _ => fun _ => True
              end a
  end.
Lemma mem_world_decides {A} (m : prog A) ctx s : Decides mem_resolved ctx (interp mem_world m s).1.1.
Proof.
  intros r Hr. assert (H : Forall decides_it (interp mem_world m s).1.1) by (apply interp_Forall; by intros B []).
  rewrite Forall_forall in H. exact (H _ Hr).
Qed.
Definition put_run := interp mem_world (ingest_doc plain doc_ctx trace_new) memory_new.
Definition get_ctx : RequestCtx :=
  MkRequestCtx (principal_new (lit "ci")) (lit "r4") Get GetById Http1 (lit "orders") (Some (lit "v"))
    [(lit "x-tenant", lit "acme")] [] None [] [].
Definition get_run := interp mem_world (get_by_id plain get_ctx trace_new) put_run.2.

Example get_run_shows_the_document :
  resp_body <$> ok get_run.1.2.1
  = Some (body "{'_id':'v','_index':'orders','_source':{'k':'v','msg':'hi'},'found':true}").
Proof. vm_compute. reflexivity. Qed.


Definition handled_run := interp mem_world (handle plain doc_ctx) memory_new.
Lemma requests_change_only_own_documents_witness :
  exists resolved, Decided doc_ctx handled_run.1.1 resolved /\ lit "shared" = index (target (r_decision resolved))
  /\ OwnId resolved (lit "acme:v")
  /\ Ev (AdmitWrite (r_partition resolved) (epoch (r_decision resolved))) true ∈ handled_run.1.1.
Proof.
  apply (requests_change_only_own_documents plain doc_ctx handled_run.1.1 handled_run.1.2 memory_new handled_run.2).
  - by intros (policy & [=] & _).
  - exact (interp_exec mem_world (handle plain doc_ctx) memory_new).
  - exact (interp_MemRun mem_world (handle plain doc_ctx) memory_new mem_world_steps).
  - vm_compute. discriminate.
Defined.
End Runs.
