(* ===== verification/Signed.v ===== *)
(** * Signed headers ([crates/osproxy-server/src]: directive, cursor)

    The keyed signatures of the binary: the [X-Debug-Directive] token, which an operator
    signs and any instance verifies, and the signer of the cursor tokens.  The MAC is a
    third-party module's; what is assumed of it is that a tag verifies when it is the
    message's. *)
From stdpp Require Import base option list strings numbers.
From Stdlib Require Import Ascii ZArith Lia.
From S2P Require Import Prelude.
From S2P Require Import Hex.
From S2P Require Import NetAddr.
From S2P Require Import Cursor.
From S2P Require Import CoreTypes.
From S2P Require Import Serde.
From S2P Require Import ToySerde.
From S2P Require Import JsonProps.
From S2P Require Import Spi.
From S2P Require Import AsyncWrite.
From S2P Require Import ReqTrace.
From S2P Require Import Engine.
From S2P Require Import Observe.

Open Scope osp_scope.

(** The [hmac] module of ring or aws-lc-rs, with HMAC-SHA256: a message's tag under a key,
    and whether a tag is the message's. *)
Class Hmac := {
  hmac_sign : bytes -> bytes -> bytes;
  hmac_verify : bytes -> bytes -> bytes -> bool;
  hmac_verify_sign : forall key msg tag, hmac_verify key msg tag = true <-> tag = hmac_sign key msg
}.

(** ** [cursor.rs] *)
Definition hmac_cursor_signer `{Hmac} (secret : bytes) : CursorSigner := {| tag := hmac_sign secret |}.

(** ** [directive.rs] *)
Fixpoint directive_hex (s : str) : option bytes :=
  match s with
  | [] => Some []
  | [_] => None
  | hi :: lo :: s =>
      h ← to_digit 16 hi; l ← to_digit 16 lo; out ← directive_hex s; Some (byte_of (h * 16 + l) :: out)
  end.
(** The length is checked first, then the pairs, so an odd text is refused either way. *)
Definition encode_hex (bs : bytes) : str := mbind hex_of bs.

Section Directive.
Context {Sd : Serde} {Si : SerdeInt} {Hm : Hmac}.
Definition as_bool (v : value) : option bool := match v with Bool b => Some b | _ => None end.

(** [unix_nanos] and [now] are what the clock reads. *)
Definition to_directive (unix_nanos : Z) (now : Instant) (payload : bytes) : option DiagnosticsDirective :=
  v ← from_slice payload;
  level ← (l ← value_get v (lit "level"); name ← as_str l; level_from_name name);
  exp ← (e ← value_get v (lit "exp"); as_u64 e);
  let now_secs := (unix_nanos / 1000000000)%Z in
  if (exp <? now_secs)%Z then None else
  let remaining := (exp - now_secs)%Z in
  if (remaining =? 0)%Z then None else
  let expires_at := saturating_add now (remaining * 1000000000) in
  let m := match_all in
  let m := match value_get v (lit "tenant") ≫= as_str with Some t => for_tenant m t | None => m end in
  let m := match value_get v (lit "index") ≫= as_str with Some i => for_index m i | None => m end in
  let m := match value_get v (lit "principal") ≫= as_str with Some p => for_principal m p | None => m end in
  sample ← match value_get v (lit "sample_per_mille") with
           | None => Some 1000%Z
           | Some n => n ← as_u64 n; if (n <=? 1000)%Z then Some n else None
           end;
  Some (MkDirective (lit "x-debug-header") m level sample expires_at
          (default false (value_get v (lit "ring_buffer") ≫= as_bool))
          (default false (value_get v (lit "capture") ≫= as_bool))).

Definition directive_verify (key : bytes) (unix_nanos : Z) (now : Instant) (header_value : str) : option DiagnosticsDirective :=
  '(payload_hex, sig_hex) ← split_once "." header_value;
  payload ← directive_hex payload_hex;
  sig ← directive_hex sig_hex;
  if hmac_verify key payload sig then to_directive unix_nanos now payload else None.
(** The verifier of a request, at the time it is asked. *)
Definition hmac_directive_verifier (key : bytes) (unix_nanos : Z) (now : Instant) : DirectiveVerifier :=
  {| verify := directive_verify key unix_nanos now |}.
(** What an operator signs with. *)
Definition sign_token (secret payload : bytes) : str :=
  encode_hex payload ++ "."%char :: encode_hex (hmac_sign secret payload).

(** ** Lemmas *)
Lemma directive_hex_of bs : directive_hex (encode_hex bs) = Some bs.
Proof.
  assert (H : forallb (fun n => match to_digit 16 (digit_char (Z.shiftr (Z.of_nat n) 4)), to_digit 16 (digit_char (Z.land (Z.of_nat n) 15)) with
     | Some h, Some l => (h * 16 + l =? Z.of_nat n)%Z | _, _ => false end) (seq 0 256) = true) by (vm_compute; reflexivity).
  rewrite forallb_forall in H. unfold encode_hex. induction bs as [|b bs IH]; [done|].
  specialize (H (Z.to_nat (bz b))). pose proof (bz_bound b) as Hb. rewrite in_seq, Z2Nat.id in H by lia.
  specialize (H ltac:(lia)). cbn [mbind list_bind hex_of app directive_hex].
  destruct (to_digit 16 _) as [h|]; [|done]. destruct (to_digit 16 (digit_char (Z.land (bz b) 15))) as [l|]; [|done].
  apply Z.eqb_eq in H. change (list_bind _ _ hex_of bs) with (mbind hex_of bs) in *. cbn [mbind option_bind]. rewrite IH. cbn. by rewrite H, byte_of_bz.
Qed.
Lemma encode_hex_no_dot bs : "."%char ∉ encode_hex bs.
Proof.
  unfold encode_hex. pose proof (hex_chars bs) as H. rewrite Forall_forall in H. intros Hin%list_elem_of_In. by destruct (H _ Hin).
Qed.

(** What the payload of a token grants, at the time of its request: it says when it
    expires, a time in whole seconds after the clock's, and the directive lasts until then;
    its level, and the tenant, index and principal it names, are the directive's. *)
Definition Granted (unix_nanos : Z) (now : Instant) (payload : bytes) (d : DiagnosticsDirective) : Prop :=
  exists v exp, from_slice payload = Some v
  /\ (e ← value_get v (lit "exp"); as_u64 e) = Some exp /\ (unix_nanos < exp * 1000000000)%Z
  /\ expires_at d = saturating_add now ((exp - unix_nanos / 1000000000) * 1000000000)
  /\ ((nanos now < u64_max)%Z -> (nanos now < nanos (expires_at d))%Z)
  /\ (l ← value_get v (lit "level"); name ← as_str l; level_from_name name) = Some (level d)
  /\ m_tenant (match_ d) = (value_get v (lit "tenant") ≫= as_str)
  /\ m_index (match_ d) = (value_get v (lit "index") ≫= as_str)
  /\ m_principal (match_ d) = (value_get v (lit "principal") ≫= as_str)
  /\ m_endpoint (match_ d) = None
  /\ match value_get v (lit "sample_per_mille") with
     | None => sample_per_mille d = 1000%Z
     | Some n => as_u64 n = Some (sample_per_mille d)
     end
  /\ (0 <= sample_per_mille d <= 1000)%Z /\ d_id d = lit "x-debug-header"
  /\ ring_buffer d = default false (value_get v (lit "ring_buffer") ≫= as_bool)
  /\ capture d = default false (value_get v (lit "capture") ≫= as_bool).
Lemma to_directive_granted unix_nanos now payload d :
  (forall n z, num_u64 n = Some z -> (0 <= z)%Z) -> (0 <= nanos now)%Z ->
  to_directive unix_nanos now payload = Some d -> Granted unix_nanos now payload d.
Proof.
  intros Hnum Hnow. unfold to_directive.
  intros (v & Hv & (lvl & Hl & (exp & He & H)%bind_Some)%bind_Some)%bind_Some. exists v, exp. split; [done|]. split; [exact He|].
  destruct (Z.ltb_spec exp (unix_nanos / 1000000000)); [done|]. destruct (Z.eqb_spec (exp - unix_nanos / 1000000000) 0); [done|].
  assert (Hex : (unix_nanos < exp * 1000000000)%Z).
  { pose proof (Z.div_mod unix_nanos 1000000000). pose proof (Z.mod_pos_bound unix_nanos 1000000000). lia. }
  apply bind_Some in H as (sample & Hs & [= <-]). split; [done|]. split; [done|]. split.
  { cbn. unfold u64_saturating_add, to_u64_or_max. intros Hlt. destruct (_ <=? _)%Z eqn:Hle; cbn; unfold u64_max in *; lia. }
  split; [exact Hl|].
  split; [|split; [|split; [|split; [|split]]]].
  1-4: repeat case_match; cbn [match_ for_tenant for_index for_principal match_all m_tenant m_index m_principal m_endpoint]; (done || by symmetry).
  { destruct (value_get v (lit "sample_per_mille")) as [x|]; [|by injection Hs as <-].
    apply bind_Some in Hs as (z & Hz & Hs). destruct (Z.leb_spec z 1000); [|done]. by injection Hs as <-. }
  split; [cbn [sample_per_mille]|done].
  destruct (value_get v (lit "sample_per_mille")) as [x|]; [|injection Hs as <-; lia].
  apply bind_Some in Hs as (z & Hz & Hs). destruct (Z.leb_spec z 1000); [|done]. injection Hs as <-.
  split; [|done]. destruct x; try done. by eapply Hnum.
Qed.

(** C33: Only a holder of the key turns diagnostics on through the header. Whatever the
    header of a request says, if it yields a directive then it is a token whose signature is
    the key's for its payload; the expiry that the payload states is later than the time of
    the request, and the directive expires then; it is labelled as the header's, has the level the payload
    states, is for the tenant, index and principal that the payload names (for every one when it
    names none, or not by a string) on every endpoint, and samples as many requests as
    it states, at most every one. And a token signed with the key yields exactly what its payload says. *)
Theorem header_directives_are_signed key unix_nanos now :
  (forall n z, num_u64 n = Some z -> (0 <= z)%Z) -> (0 <= nanos now)%Z ->
  (forall header d, directive_verify key unix_nanos now header = Some d ->
     exists payload payload_hex sig_hex, header = payload_hex ++ "."%char :: sig_hex
     /\ directive_hex payload_hex = Some payload /\ directive_hex sig_hex = Some (hmac_sign key payload)
     /\ to_directive unix_nanos now payload = Some d /\ Granted unix_nanos now payload d)
  /\ forall payload, directive_verify key unix_nanos now (sign_token key payload) = to_directive unix_nanos now payload.
Proof.
  intros Hnum Hnow. split.
  - intros header d. unfold directive_verify.
    intros ([ph sh] & Hs & (payload & Hp & (sig & Hg & Hv)%bind_Some)%bind_Some)%bind_Some.
    destruct (hmac_verify key payload sig) eqn:Hh; [|done]. apply hmac_verify_sign in Hh as ->.
    exists payload, ph, sh. unfold split_once in Hs. apply bind_Some in Hs as (i & (a & b & -> & <- & Ha)%find_byte_Some & [= <- <-]).
    rewrite take_app_length in *. split.
    + do 2 f_equal. change ("."%char :: b) with (["."%char] ++ b). rewrite app_assoc.
      replace (S (length a)) with (length (a ++ ["."%char])) by (rewrite length_app; cbn; lia). by rewrite drop_app_length.
    + split; [done|]. split; [done|]. split; [done|]. by eapply to_directive_granted.
  - intros payload. unfold directive_verify, sign_token. rewrite split_once_cut by apply encode_hex_no_dot.
    cbn [mbind option_bind]. rewrite !directive_hex_of. cbn [mbind option_bind].
    by rewrite (proj2 (hmac_verify_sign _ _ _) eq_refl).
Qed.
End Directive.

(** ** A token, verified *)
Section Runs.
Definition token_payload : bytes := body "{'exp':100,'level':'Shape','tenant':7}".
Definition token_table : list (bytes * Value Z) :=
  [(token_payload, Object [(lit "exp", Number 100%Z); (lit "level", String (lit "Shape")); (lit "tenant", Number 7%Z)])].
#[local] Instance token_serde : Serde := toy_serde token_table.
#[local] Instance token_int : @SerdeInt token_serde := toy_int token_table.
(** A keyed sum stands in for the MAC. *)
#[local] Program Instance sum_hmac : Hmac := {|
  hmac_sign key m := [byte_of (foldr (fun c s => bz c + s)%Z 0%Z (key ++ m))];
  hmac_verify key m t := str_eqb t [byte_of (foldr (fun c s => bz c + s)%Z 0%Z (key ++ m))]
|}.
Next Obligation. intros. apply str_eqb_eq. Qed.

Lemma header_directives_are_signed_witness :
  (forall header d, directive_verify (lit "k") 50000000000 (MkInstant 3) header = Some d ->
     exists payload payload_hex sig_hex, header = payload_hex ++ "."%char :: sig_hex
     /\ directive_hex payload_hex = Some payload /\ directive_hex sig_hex = Some (hmac_sign (lit "k") payload)
     /\ to_directive 50000000000 (MkInstant 3) payload = Some d /\ Granted 50000000000 (MkInstant 3) payload d)
  /\ forall payload, directive_verify (lit "k") 50000000000 (MkInstant 3) (sign_token (lit "k") payload)
     = to_directive 50000000000 (MkInstant 3) payload.
Proof.
  apply (header_directives_are_signed (lit "k") 50000000000 (MkInstant 3)); [|cbn; lia].
  intros n z. cbn. destruct ((0 <=? n)%Z && (n <? 2 ^ 64)%Z) eqn:Hb; [|done]. intros [= <-].
  apply andb_true_iff in Hb as [Hb _]. by apply Z.leb_le.
Defined.
(** A tenant that is not a string is ignored: the directive is for every tenant. *)
Example malformed_tenant_is_ignored :
  (fun d => (m_tenant (match_ d), level d, nanos (expires_at d)))
    <$> directive_verify (lit "k") 50000000000 (MkInstant 3) (sign_token (lit "k") token_payload)
  = Some (None, LevelShape, 50000000003%Z).
Proof. vm_compute. reflexivity. Qed.
Example expired_token_is_refused :
  directive_verify (lit "k") 100000000000 (MkInstant 3) (sign_token (lit "k") token_payload) = None
  /\ directive_verify (lit "j") 50000000000 (MkInstant 3) (sign_token (lit "k") token_payload) = None.
Proof. split; vm_compute; reflexivity. Qed.
End Runs.
