(* ===== verification/RefTenancy.v ===== *)
(** * The reference tenancy ([crates/osproxy-server/src/tenancy.rs])

    The tenancy the binary serves: the partition is the [tenant_id] of the document or the
    [x-tenant] header, and every partition has a placement of one configured kind.  What
    isolation means for it is shown against the in-memory sink. *)
From stdpp Require Import base option list strings numbers sets gmap pretty.
From Stdlib Require Import Ascii ZArith Lia.
From S2P Require Import Prelude.
From S2P Require Import JsonScan.
From S2P Require Import JsonProps.
From S2P Require Import CoreTypes.
From S2P Require Import Serde.
From S2P Require Import ToySerde.
From S2P Require Import DocId.
From S2P Require Import Bulk.
From S2P Require Import Spi.
From S2P Require Import Tenancy.
From S2P Require Import Sink.
From S2P Require Import Plan.
From S2P Require Import ReadPath.
From S2P Require Import Prog.
From S2P Require Import Effects.
From S2P Require Import BulkPrep.
From S2P Require Import ReqTrace.
From S2P Require Import CursorBody.
From S2P Require Import Engine.
From S2P Require Import EngineSafe.
From S2P Require Import Memory.

Open Scope osp_scope.

Definition TENANT_FIELD : str := lit "_tenant".
Definition TENANT_HEADER : str := lit "x-tenant".
Inductive PlacementMode : Type := ModeSharedIndex | ModeDedicatedIndex | ModeDedicatedCluster.
Record ReferenceTenancy : Type := MkReference {
  ref_cluster : ClusterId;
  ref_index : IndexName;
  ref_endpoint : str;
  ref_mode : PlacementMode
}.
Definition reference_new (cluster : ClusterId) (index : IndexName) (endpoint : str) : ReferenceTenancy :=
  MkReference cluster index endpoint ModeSharedIndex.
Definition with_placement_mode (t : ReferenceTenancy) (mode : PlacementMode) : ReferenceTenancy :=
  MkReference (ref_cluster t) (ref_index t) (ref_endpoint t) mode.

Section Reference.
Context {Sd : Serde} {W : Wide} (t : ReferenceTenancy).

Definition ref_spec : PartitionKeySpec := AnyOf [BodyField (MkJsonPath (lit "tenant_id")); Header TENANT_HEADER].
Definition ref_template : IdTemplate := MkIdTemplate (lit "{partition}:{body.id}").
Definition ref_doc_id_rule : option DocIdRule :=
  match ref_mode t with
  | ModeSharedIndex => Some (with_routing (rule_new ref_template) true)
  | ModeDedicatedIndex | ModeDedicatedCluster => None
  end.
Definition ref_injected_fields : list InjectedField :=
  match ref_mode t with
  | ModeSharedIndex => [MkInjectedField TENANT_FIELD InjPartitionId]
  | ModeDedicatedIndex | ModeDedicatedCluster => []
  end.
Definition ref_placement (partition : PartitionId) : Placement :=
  match ref_mode t with
  | ModeSharedIndex => SharedIndex (ref_cluster t) (ref_index t) ref_injected_fields
  | ModeDedicatedIndex => DedicatedIndex (ref_cluster t) (ref_index t ++ lit "-" ++ partition)
  | ModeDedicatedCluster => DedicatedCluster (ref_cluster t)
  end.
Definition ref_cluster_endpoint (cluster : ClusterId) : option str :=
  if str_eqb cluster (ref_cluster t) then Some (ref_endpoint t) else None.

#[local] Instance reference_tenancy : TenancySpi := {|
  resolve_partition ctx b := resolve_partition_spec ref_spec ctx b;
  doc_id_rule := ref_doc_id_rule;
  injected_fields := ref_injected_fields;
  sensitive_fields := default_sensitive_fields;
  placement_for partition := Ok (at_with_endpoint (placement_at_new (ref_placement partition) (MkEpoch 1)) (ref_endpoint t));
  spi_admit_write := default_admit_write;
  cluster_endpoint := ref_cluster_endpoint;
  routing_hint := default_routing_hint;
  upstream_credentials := default_upstream_credentials
|}.

(** ** What it resolves to *)
Lemma ref_resolves ctx partition ix r :
  resolve_placement ctx partition ix = Ok r ->
  r_partition r = partition
  /\ match ref_mode t with
     | ModeSharedIndex => index (target (r_decision r)) = ref_index t
         /\ transform_rule (body_transform (r_decision r)) = ref_doc_id_rule
         /\ transform_fields (body_transform (r_decision r)) = ref_injected_fields
     | ModeDedicatedIndex => index (target (r_decision r)) = ref_index t ++ lit "-" ++ partition
         /\ body_transform (r_decision r) = TransformNone
     | ModeDedicatedCluster => index (target (r_decision r)) = ix /\ body_transform (r_decision r) = TransformNone
     end.
Proof.
  unfold resolve_placement. cbn [placement_for reference_tenancy rbind]. unfold build_transform, ref_placement, ref_injected_fields.
  cbn [doc_id_rule reference_tenancy]. unfold ref_doc_id_rule, ref_injected_fields.
  destruct (ref_mode t); cbn; by intros [= <-].
Qed.
Lemma ref_resolve_placement ctx r :
  resolve ctx = Ok r -> exists partition,
  resolve_partition_spec ref_spec ctx (ctx_body ctx) = Ok partition
  /\ resolve_placement ctx partition (logical_index ctx) = Ok r.
Proof.
  unfold resolve. destruct (is_tenancy_aware _); [|done]. cbn [negb]. intros (p & Hp & Hr)%rbind_Ok. by exists p.
Qed.
Lemma ref_frame partition : id_frame (template_str ref_template) partition = Some (Ok (partition ++ lit ":", [])).
Proof.
  rewrite id_frame_spec.
  by replace (parse_template (template_str ref_template))
    with ([Lit []; Partition; Lit (lit ":"); Body (lit "id")], Complete []) by reflexivity.
Qed.

(** Dedicated placements keep partitions apart by the index's name. *)
Lemma dedicated_indices_differ p1 p2 : p1 <> p2 -> ref_index t ++ lit "-" ++ p1 <> ref_index t ++ lit "-" ++ p2.
Proof. intros Hne Heq. apply app_inv_head in Heq. by apply app_inv_head in Heq. Qed.

Section Isolated.
Context {Si : SerdeInt} {M : Memchr} {Mm : Memmem}.
#[local] Existing Instance tenancy_router.

(** The router of the run is the tenancy's. *)
Definition Routed (tr : trace) : Prop :=
  (forall c r, Ev (Resolve c) (Ok r) ∈ tr -> resolve c = Ok r)
  /\ (forall c p i r, Ev (ResolvePlacement c p i) (Ok r) ∈ tr -> resolve_placement c p i = Ok r).
(** The partitions of a request: its own, and those its documents were routed under. *)
Definition Concerns (ctx : RequestCtx) (tr : trace) (partition : PartitionId) : Prop :=
  resolve_partition_spec ref_spec ctx (ctx_body ctx) = Ok partition
  \/ exists b i r, resolve_partition_spec ref_spec ctx b = Ok partition /\ Ev (ResolvePlacement ctx partition i) (Ok r) ∈ tr.

Lemma decided_concerns ctx tr resolved : Routed tr -> Decided ctx tr resolved ->
  Concerns ctx tr (r_partition resolved)
  /\ exists ix, resolve_placement ctx (r_partition resolved) ix = Ok resolved.
Proof.
  intros [H1 H2] [H|(b & pt & i & Hb & H)].
  - destruct (ref_resolve_placement _ _ (H1 _ _ H)) as (p & Hp & Hr). destruct (ref_resolves _ _ _ _ Hr) as [<- _].
    split; [by left|]. by exists (logical_index ctx).
  - pose proof (H2 _ _ _ _ H) as Hr. destruct (ref_resolves _ _ _ _ Hr) as [<- _]. split; [|by exists i].
    right. by exists b, i, resolved.
Qed.

(** C19: Tenants of the binary do not touch each other's documents. Run against the
    in-memory sink with the reference tenancy in its shared mode, a request that is not
    passed through leaves every document as it was whose physical id starts with the name of
    a tenant the request is not for, as long as tenant names hold no colon: what it does
    change is in the shared index, under an id that starts with the name of its own tenant,
    or of one its documents were routed under, and a colon. *)
Theorem reference_tenants_are_apart p ctx tr out s s' ix id :
  ref_mode t = ModeSharedIndex -> Routed tr ->
  ~ forwarded p ctx -> exec (handle p ctx) tr out -> MemRun s tr s' ->
  docs s' !! (ix, id) <> docs s !! (ix, id) ->
  ix = ref_index t
  /\ (exists partition key, Concerns ctx tr partition /\ id = partition ++ lit ":" ++ key)
  /\ forall other key, ":"%char ∉ other -> id = other ++ lit ":" ++ key ->
     (forall partition, Concerns ctx tr partition -> ":"%char ∉ partition) -> Concerns ctx tr other.
Proof.
  intros Hm Hr Hf (o & Ho & _)%exec_handle Hrun Hk. destruct (dispatch_isolated _ _ _ _ _ Hf Ho) as [Hg _].
  destruct (change_is_decided _ _ _ _ _ _ _ Hg Hrun Hk) as (resolved & Hd & -> & Hown & _).
  destruct (decided_concerns _ _ _ Hr Hd) as [Hc (i & Hp)]. destruct (ref_resolves _ _ _ _ Hp) as [_ Hx].
  rewrite Hm in Hx. destruct Hx as (-> & Hrule & _). split; [done|].
  unfold ref_doc_id_rule in Hrule. rewrite Hm in Hrule.
  destruct (Hown _ _ _ Hrule (ref_frame _)) as (key & ->). rewrite app_nil_r, <- app_assoc.
  split; [by exists (r_partition resolved), key|]. intros other k Hn Heq Hall.
  destruct (cut_at_colon _ _ _ _ (Hall _ Hc) Hn Heq) as [<- _]. done.
Qed.
End Isolated.
End Reference.

(** ** Two tenants, run *)
Section Runs.
#[local] Existing Instance scalar_wide.
Definition ref_sample : ReferenceTenancy := reference_new (lit "default") (lit "shared") (lit "http://c").
#[local] Instance ref_serde : Serde := toy_serde [].
#[local] Instance ref_int : @SerdeInt ref_serde := toy_int [].
#[local] Instance sample_tenancy : TenancySpi := reference_tenancy ref_sample.
#[local] Existing Instance tenancy_router.
Definition ref_world : world_of (@Call ref_serde) MemorySink := fun B c s =>
  match c in Call B return B * MemorySink with
  | Resolve ctx => (resolve ctx, s)
  | ResolvePlacement ctx p i => (resolve_placement ctx p i, s)
  | Sleep _ => (tt, s)
  | AdmitWrite p e => (spi_admit_write p e, s)
  | SinkWrite b => mem_write s b
  | SinkGet op => (mem_get s op, s)
  | SinkSearch op => mem_search (map_to_list (docs s)) s op
  | SinkCount op => mem_count s op
  | SinkCursor _ => (Err unsupported_cursor, s)
  | SinkSearchStream op => mem_search_stream (map_to_list (docs s)) s op
  | SinkForwardStream _ _ => (Err unsupported_forward, s)
  | Enqueue _ => (Ok tt, s)
  end.
Lemma ref_world_steps B (c : Call B) s : mem_step c s (ref_world B c s).1 (ref_world B c s).2.
Proof.
  destruct c; cbn [mem_step ref_world]; try done; try (by rewrite <- surjective_pairing).
  - exists (map_to_list (docs s)). split; [done|]. by rewrite <- surjective_pairing.
  - exists (map_to_list (docs s)). split; [done|]. by rewrite <- surjective_pairing.
Qed.
Definition routed_event (e : event) : Prop :=
  match e with
  | Ev c a => match c in Call B return B -> Prop with
              | Resolve ctx => fun a => a = resolve ctx
              | ResolvePlacement ctx p i => fun a => a = resolve_placement ctx p i
              | _ => fun _ => True
              end a
  end.
Lemma ref_world_routes {A} (m : prog A) s : Routed ref_sample (interp ref_world m s).1.1.
Proof.
  assert (H : Forall routed_event (interp ref_world m s).1.1) by (apply interp_Forall; by intros B []).
  rewrite Forall_forall in H. split; [intros c r Hr|intros c p i r Hr]; symmetry; exact (H _ Hr).
Qed.
Definition put_of (tenant : str) (doc : bytes) : RequestCtx :=
  ctx_new (principal_new (lit "ci")) (lit "r") Post IngestDoc Http1 (lit "orders") [(lit "x-tenant", tenant)] doc.
Definition first_run := interp ref_world (handle plain (put_of (lit "acme") (body "{'id':'7'}"))) memory_new.

Lemma reference_tenants_are_apart_witness :
  lit "shared" = ref_index ref_sample
  /\ (exists partition key, Concerns (put_of (lit "acme") (body "{'id':'7'}")) first_run.1.1 partition
       /\ lit "acme:7" = partition ++ lit ":" ++ key)
  /\ forall other key, ":"%char ∉ other -> lit "acme:7" = other ++ lit ":" ++ key ->
     (forall partition, Concerns (put_of (lit "acme") (body "{'id':'7'}")) first_run.1.1 partition -> ":"%char ∉ partition) ->
     Concerns (put_of (lit "acme") (body "{'id':'7'}")) first_run.1.1 other.
Proof.
  apply (reference_tenants_are_apart ref_sample plain (put_of (lit "acme") (body "{'id':'7'}")) first_run.1.1 first_run.1.2
    memory_new first_run.2 (lit "shared") (lit "acme:7")).
  - reflexivity.
  - apply ref_world_routes.
  - by intros (policy & [=] & _).
  - exact (interp_exec ref_world (handle plain (put_of (lit "acme") (body "{'id':'7'}"))) memory_new).
  - exact (interp_MemRun ref_world (handle plain (put_of (lit "acme") (body "{'id':'7'}"))) memory_new ref_world_steps).
  - vm_compute. discriminate.
Defined.

(** Nothing keeps a colon out of a tenant's name: the tenant [a] overwrites a document of
    the tenant [a:b]. *)
Definition victim_run := interp ref_world (handle plain (put_of (lit "a:b") (body "{'id':'c'}"))) memory_new.
Definition collision_run := interp ref_world (handle plain (put_of (lit "a") (body "{'id':'b:c'}"))) victim_run.2.
Example tenants_with_colons_collide :
  docs victim_run.2 !! (lit "shared", lit "a:b:c") = Some (body "{'_tenant':'a:b','id':'c'}")
  /\ docs collision_run.2 !! (lit "shared", lit "a:b:c") = Some (body "{'_tenant':'a','id':'b:c'}").
Proof. split; vm_compute; reflexivity. Qed.
End Runs.
