(* ===== verification/Wire.v ===== *)
(** * From a request to the wire

    The engine's handlers run over the sink of [HttpSink]: each call of the sink seam is
    handled by the sink's program for it.  What the engine's theorems say of its calls then
    holds of the requests that leave the proxy. *)
From stdpp Require Import base option list strings numbers sets gmap pretty.
From Stdlib Require Import Ascii ZArith Lia.
From S2P Require Import Prelude.
From S2P Require Import JsonScan.
From S2P Require Import JsonProps.
From S2P Require Import Trace.
From S2P Require Import CoreTypes.
From S2P Require Import Serde.
From S2P Require Import ToySerde.
From S2P Require Import Bulk.
From S2P Require Import Spi.
From S2P Require Import Sink.
From S2P Require Import SearchScan.
From S2P Require Import Breaker.
From S2P Require Import Prog.
From S2P Require Import Effects.
From S2P Require Import HttpSink.
From S2P Require Import Retry.
From S2P Require Import AsyncWrite.
From S2P Require Import BulkLedger.
From S2P Require Import ReqTrace.
From S2P Require Import CursorBody.
From S2P Require Import Engine.
From S2P Require Import EngineSafe.

Open Scope osp_scope.

(** The calls of a request served over HTTP: those of the sink, and the others. *)
Inductive WireCall `{Sd : Serde} : Type -> Type :=
| Outer {B : Type} (c : Call B) : WireCall B
| Inner {B : Type} (c : HttpCall B) : WireCall B.

Section Wire.
Context {Sd : Serde} {Si : SerdeInt} {H : HttpTypes}.

Definition inner {A} (m : hprog A) : prog_of WireCall A := renaming (@Inner Sd) m.
(** The sink and reader traits, implemented by [OpenSearchSink]. *)
Definition sink_call {B} (c : Call B) : prog_of WireCall B :=
  match c in Call B return prog_of WireCall B with
  | SinkWrite b => inner (http_write b)
  | SinkGet op => inner (http_get op)
  | SinkSearch op => inner (http_search op)
  | SinkCount op => inner (http_count op)
  | SinkCursor op => inner (http_cursor op)
  | SinkSearchStream op => inner (http_search_stream op)
  | SinkForwardStream op b => inner (http_forward_stream op b)
  | c => call (Outer c)
  end.
Definition served {A} (m : prog A) : prog_of WireCall A := handling (@sink_call) m.

(** The request of an exchange. *)
Definition exchanged (e : event_of WireCall) : option (ClusterId * bool * HttpRequest) :=
  match e with
  | Ev (Inner (Exchange c h2 req)) _ => Some (c, h2, req)
  | _ => None
  end.
(** The base URL that the pool of [c] gave in the course of [t]. *)
Definition pool_gives (t : list (event_of WireCall)) (c : ClusterId) (base : str) : Prop :=
  Ev (Inner (PoolGet c)) (Some base) ∈ t \/ exists b, Ev (Inner (PoolInsert c b)) base ∈ t.
Lemma inner_sends {A} (m : hprog A) P (Q : list (event_of HttpCall) -> A -> Prop) tr a e c h2 req :
  (forall past, safe (sends P) past m Q) -> exec (inner m) tr a -> e ∈ tr -> exchanged e = Some (c, h2, req) ->
  exists base, pool_gives tr c base /\ Ev (Inner (BreakerAllows c)) true ∈ tr /\ P c h2 base req.
Proof.
  intros Hs (tr' & He & Hp)%exec_renaming Hin Hx. rewrite Hp in Hin. apply list_elem_of_fmap in Hin as ([B x b] & -> & Hin).
  destruct (Hs [] tr' a He) as [Hg _]. pose proof (guarded_elem _ _ _ _ (sends_mono P) Hg Hin) as Hsent.
  assert (Hren : forall y, y ∈ tr' ++ [] -> renamed (@Inner Sd) y ∈ tr).
  { intros y. rewrite app_nil_r. intros Hy. rewrite Hp. by apply list_elem_of_fmap_2. }
  destruct x; try done. cbn in Hx. injection Hx as -> -> ->. destruct Hsent as (Hallow%Hren & base & Hpool & HP).
  exists base. split; [|done]. destruct Hpool as [Hget%Hren|(u & Hput%Hren)]; [by left|right; by exists u].
Qed.
Lemma inner_opens {A} (m : hprog A) T (Q : list (event_of HttpCall) -> A -> Prop) tr a c base b :
  (forall past, safe (fun _ => opens T) past m Q) -> exec (inner m) tr a -> Ev (Inner (PoolInsert c base)) b ∈ tr -> T c base.
Proof.
  intros Hs (tr' & He & Hp)%exec_renaming Hin. rewrite Hp in Hin. apply list_elem_of_fmap in Hin as ([B x y] & Heq & Hin).
  destruct (Hs [] tr' a He) as [Hg _]. pose proof (guarded_elem _ _ _ _ (opens_mono T) Hg Hin) as Ho.
  apply (f_equal (fun e => match e with Ev (Inner (PoolInsert c base)) _ => Some (c, base) | _ => None end)) in Heq.
  destruct x; try done. by injection Heq as -> ->.
Qed.

(** ** What each call of the seam sends *)
Definition emits (e : event) (c : ClusterId) (http2 : bool) (base : str) (req : HttpRequest) : Prop :=
  match e with
  | Ev (SinkWrite b) _ => exists op, op ∈ ops b /\ write_sends op c http2 base req
  | Ev (SinkGet op) _ => get_sends op c http2 base req
  | Ev (SinkSearch op) _ | Ev (SinkSearchStream op) _ => query_sends (lit "_search") op c http2 base req
  | Ev (SinkCount op) _ => query_sends (lit "_count") op c http2 base req
  | Ev (SinkCursor op) _ => forward_sends (forward_of_cursor op) (HttpSink.buffered (cu_body op)) c http2 base req
  | Ev (SinkForwardStream op b) _ => forward_sends op b c http2 base req
  | _ => False
  end.

(** The targets of a call of the seam: a cluster, and the endpoint it was resolved to. *)
Definition targets (e : event) (c : ClusterId) (base : str) : Prop :=
  match e with
  | Ev (SinkWrite b) _ => exists op, op ∈ ops b /\ opened_for (cluster (w_target op)) (endpoint (w_target op)) c base
  | Ev (SinkGet op) _ => opened_for (cluster (rd_target op)) (endpoint (rd_target op)) c base
  | Ev (SinkSearch op) _ | Ev (SinkSearchStream op) _ | Ev (SinkCount op) _ =>
      opened_for (cluster (so_target op)) (endpoint (so_target op)) c base
  | Ev (SinkCursor op) _ => opened_for (cu_cluster op) (cu_endpoint op) c base
  | Ev (SinkForwardStream op _) _ => opened_for (fo_cluster op) (fo_endpoint op) c base
  | _ => False
  end.

Lemma emitted (B : Type) (x : Call B) b t e c h2 req :
  exec (sink_call x) t b -> e ∈ t -> exchanged e = Some (c, h2, req) ->
  exists base, pool_gives t c base /\ Ev (Inner (BreakerAllows c)) true ∈ t /\ emits (Ev x b) c h2 base req.
Proof.
  intros He Hin Hx. destruct x; cbn [sink_call] in He;
    try (apply exec_call in He as ->; apply list_elem_of_singleton in Hin as ->; done);
    (eapply inner_sends; [|exact He|exact Hin|exact Hx]); intros past.
  - apply http_write_sends.
  - apply http_get_sends.
  - apply (then_sends _ _ _ _ (fun _ _ => True)); [by intros [[] ]; eexists|].
    eapply then_sends; [by intros []; eexists|apply query_send_sends].
  - apply (then_sends _ _ _ _ (fun _ _ => True)); [by intros [[] ]; eexists|].
    eapply then_sends; [by intros []; eexists|apply query_send_sends].
  - eapply then_sends; [by intros []; eexists|apply forward_send_sends].
  - eapply then_sends; [by intros []; eexists|apply query_send_sends].
  - eapply then_sends; [by intros []; eexists|apply forward_send_sends].
Qed.
(** A pool that a call opens is opened for its target. *)
Lemma opened (B : Type) (x : Call B) b t c base u :
  exec (sink_call x) t b -> Ev (Inner (PoolInsert c base)) u ∈ t -> targets (Ev x b) c base.
Proof.
  intros He Hin. destruct x; cbn [sink_call] in He;
    try (apply exec_call in He as ->; apply list_elem_of_singleton in Hin; done);
    (refine (inner_opens _ (targets (Ev _ b)) (fun _ _ => True) t b c base u _ He Hin)); intros past.
  - apply http_write_opens.
  - apply http_get_opens.
  - apply then_opens; [by intros [[] ]; eexists|]. intros past1. apply then_opens; [by intros []; eexists|]. intros. apply query_send_opens.
  - apply then_opens; [by intros [[] ]; eexists|]. intros past1. apply then_opens; [by intros []; eexists|]. intros. apply query_send_opens.
  - apply then_opens; [by intros []; eexists|]. intros. apply (forward_send_opens _ (forward_of_cursor op)).
  - apply then_opens; [by intros []; eexists|]. intros. apply query_send_opens.
  - apply then_opens; [by intros []; eexists|]. intros. apply forward_send_opens.
Qed.

(** The call [x] of the seam was handled by the run [t], and that run sent this request:
    the sink made it of the operation of [x], for the base URL that the pool of its cluster
    gave in [t], once the cluster's breaker let it through; and if [t] opened that pool,
    then for the endpoint of the target of [x]. *)
Definition sent_by (x : event) (t : list (event_of WireCall)) (c : ClusterId) (http2 : bool) (req : HttpRequest) : Prop :=
  handles (@sink_call) x t
  /\ (exists base, pool_gives t c base /\ emits x c http2 base req)
  /\ Ev (Inner (BreakerAllows c)) true ∈ t
  /\ forall c base u, Ev (Inner (PoolInsert c base)) u ∈ t -> targets x c base.
(** A call that is not one of the sink is answered by the world, as it is. *)
Definition outer_event (e : event) : option (event_of WireCall) :=
  match e with
  | Ev (SinkWrite _) _ | Ev (SinkGet _) _ | Ev (SinkSearch _) _ | Ev (SinkCount _) _ | Ev (SinkCursor _) _
  | Ev (SinkSearchStream _) _ | Ev (SinkForwardStream _ _) _ => None
  | Ev c b => Some (Ev (Outer c) b)
  end.
Lemma outer_handled x w t : outer_event x = Some w -> handles (@sink_call) x t -> t = [w].
Proof. destruct x as [B []]; try done; cbn; intros [= <-] ?%exec_call; done. Qed.
(** What the calls of a program have become over HTTP: the router, the gate and the queue
    answered each in this very run, and each request that left was sent by the sink's run
    for one of the calls. *)
Definition served_as (calls : list event) (tr : list (event_of WireCall)) : Prop :=
  Handled (@sink_call) calls tr
  /\ (forall x w, x ∈ calls -> outer_event x = Some w -> w ∈ tr)
  /\ forall e c h2 req, e ∈ tr -> exchanged e = Some (c, h2, req) ->
       exists x t, x ∈ calls /\ e ∈ t /\ t ⊆ tr /\ sent_by x t c h2 req.
Lemma handled_served calls tr : Handled (@sink_call) calls tr -> served_as calls tr.
Proof.
  intros Hh. split; [done|]. split.
  - intros x w Hx Ho. destruct (Handled_sub _ _ _ _ Hh Hx) as (t & Ht & Hs). rewrite (outer_handled _ _ _ Ho Ht) in Hs. apply Hs. by left.
  - intros e c h2 req Hin Hx. destruct (Handled_part _ _ _ _ Hh Hin) as ([B x b] & t & Hc & Ht & Het & Hsub).
    exists (Ev x b), t. split_and!; [done..|]. destruct (emitted B x b t e c h2 req Ht Het Hx) as (base & H1 & H2 & H3).
    split; [done|]. split; [by exists base|]. split; [done|]. intros c' base' u. exact (opened B x b t c' base' u Ht).
Qed.
End Wire.

(** ** The engine over its sink *)
Section Contract.
Context {Sd : Serde} {Si : SerdeInt} {W : Wide} {M : Memchr} {Mm : Memmem} {R : Router} {H : HttpTypes}.

(** A request leaves only for a call of the program that sends it. *)
Lemma served_calls {A} (m : prog A) tr out :
  exec (served m) tr out -> exists calls, exec m calls out /\ served_as calls tr.
Proof. intros (calls & He & Hh%handled_served)%handling_refines. by exists calls. Qed.
(** A guarded trace, seen as a whole. *)
Lemma isolated_elem p ctx calls x : guarded (isolated p ctx) [] calls -> x ∈ calls -> isolated p ctx calls x.
Proof. intros Hg Hx. pose proof (guarded_elem _ _ _ _ (isolated_mono p ctx) Hg Hx) as Hi. by rewrite app_nil_r in Hi. Qed.

(** C6: The proxy over the HTTP sink implements the engine over an abstract one, and its
    isolation reaches the wire. Whatever the upstreams answer, a run of the composed system
    is a run of the engine, with the same answer, in which the router, the write gate and
    the queue answered what they answered in this very run, and each operation of the sink
    was carried out by a part of this very run; so every theorem on the engine holds of it.
    And unless the request is under the passthrough policy, every HTTP request that leaves
    is sent by the part of the run that carries out one of those operations, one that is
    isolated for the request: it is what the sink makes of that operation (the transformed
    document, the filtered query, the allowed cursor path), for the cluster of its target,
    at the base URL that the pool of that cluster gave in that part, once the cluster's
    breaker let it through; and a pool is opened only for the endpoint of the target. *)
Theorem served_refines_engine p ctx tr out :
  ~ forwarded p ctx -> exec (served (handle p ctx)) tr out ->
  exists calls, exec (handle p ctx) calls out /\ Handled (@sink_call _ _ _) calls tr
  /\ (forall x w, x ∈ calls -> outer_event x = Some w -> w ∈ tr)
  /\ forall e c h2 req, e ∈ tr -> exchanged e = Some (c, h2, req) ->
       exists x t, x ∈ calls /\ isolated p ctx calls x /\ e ∈ t /\ t ⊆ tr /\ sent_by x t c h2 req.
Proof.
  intros Hf (calls & He & Hh & Ho & Hs)%served_calls. exists calls. split_and!; [done..|].
  assert (Hg : guarded (isolated p ctx) [] calls).
  { destruct (exec_handle _ _ _ _ He) as (o & Hd & _). by eapply dispatch_isolated. }
  intros e c h2 req Hin Hx. destruct (Hs e c h2 req Hin Hx) as (x & t & Hc & Ht). exists x, t. split; [done|].
  split; [by apply isolated_elem|done].
Qed.
End Contract.

(** ** A document on the wire *)
Section Runs.
#[local] Existing Instance scalar_wide.
#[local] Existing Instance bulk_serde.
#[local] Existing Instance bulk_int.
#[local] Existing Instance bulk_router.
#[local] Existing Instance any_http.
Definition wire_world : world_of WireCall nat := fun B c n =>
  match c in WireCall B return B * nat with
  | Outer c => bulk_world _ c n
  | Inner c =>
      match c in HttpCall B return B * nat with
      | PoolGet _ => (Some (lit "http://eu"), n)
      | PoolInsert _ b => (b, n)
      | BreakerAllows _ => (true, n)
      | BreakerSuccess _ => (tt, n)
      | BreakerFailure _ => (tt, n)
      | CountDispatch _ => (tt, n)
      | OpenCount _ => (0%Z, n)
      | Exchange _ _ _ => (HttpSink.Answered (MkHttpResponse 201 ∅ []), n)
      end
  end.
Definition served_run := interp wire_world (served (handle plain doc_ctx)) 0.

Example served_run_requests :
  omap exchanged served_run.1.1
  = [(lit "eu-1", false, MkHttpRequest Put (lit "http://eu/shared/_doc/acme:v?routing=acme") json_headers
       [Data (body "{'_tenant':'acme','k':'v','msg':'hi'}")])]
  /\ (fst <$> served_run.1.2) = Some (Ok (MkResponse 201 (body "{'_id':'v','result':'updated'}") None)).
Proof. split; vm_compute; reflexivity. Qed.

Lemma served_refines_engine_witness :
  exists calls, exec (handle plain doc_ctx) calls served_run.1.2 /\ Handled (@sink_call _ _ _) calls served_run.1.1
  /\ (forall x w, x ∈ calls -> outer_event x = Some w -> w ∈ served_run.1.1)
  /\ forall e c h2 req, e ∈ served_run.1.1 -> exchanged e = Some (c, h2, req) ->
       exists x t, x ∈ calls /\ isolated plain doc_ctx calls x /\ e ∈ t /\ t ⊆ served_run.1.1 /\ sent_by x t c h2 req.
Proof.
  apply (served_refines_engine plain doc_ctx); [by intros (policy & [=] & _)|].
  exact (interp_exec wire_world (served (handle plain doc_ctx)) 0).
Defined.
End Runs.
