(* ===== verification/Migration.v ===== *)
(** * Writes while a partition moves

    The engine of every instance over the shared placement table, while the migration
    controller moves partitions: what the write gate, the epochs and the drain barrier
    promise together ([crates/osproxy-engine], [crates/osproxy-tenancy/src/placement_table.rs]
    and [crates/osproxy-control/src/migration.rs], wired as in
    [crates/osproxy-engine/tests/migration_gate.rs]). *)
From stdpp Require Import base option list strings numbers sets gmap relations.
From Stdlib Require Import Ascii ZArith Lia.
From S2P Require Import Prelude.
From S2P Require Import JsonScan.
From S2P Require Import JsonProps.
From S2P Require Import CoreTypes.
From S2P Require Import Serde.
From S2P Require Import ToySerde.
From S2P Require Import Bulk.
From S2P Require Import SearchScan.
From S2P Require Import DocId.
From S2P Require Import Spi.
From S2P Require Import Tenancy.
From S2P Require Import PlacementTable.
From S2P Require Import Sink.
From S2P Require Import Plan.
From S2P Require Import ReadPath.
From S2P Require Import Prog.
From S2P Require Import Runs.
From S2P Require Import Effects.
From S2P Require Import HttpSink.
From S2P Require Import BulkPrep.
From S2P Require Import BulkLedger.
From S2P Require Import ReqTrace.
From S2P Require Import CursorBody.
From S2P Require Import Engine.
From S2P Require Import EngineSafe.
From S2P Require Import Memory.
From S2P Require Import RefTenancy.
From S2P Require Import Wire.
From S2P Require Import Control.

Open Scope osp_scope.

(** ** The backend

    The placement table with the [set]s that have their epoch and not yet the lock, the
    controller over it, and the clock of both. *)
Section Backend.
Context {Sd : Serde}.

Record Backend : Type := MkBackend {
  b_plane : ControlPlane PlacementTable;
  b_sets : list (PartitionId * Placement * Epoch);
  b_clock : Z
}.
Definition b_table (b : Backend) : PlacementTable := store (b_plane b).
Definition b_now (b : Backend) : Instant := MkInstant (b_clock b).
Definition system_of (b : Backend) : System := MkSystem (b_table b) (b_sets b).
Definition backend_new (barrier t0 : Z) : Backend := MkBackend (with_barrier (control_new table_new) barrier) [] t0.

(** What any thread does to it: time passes, a [set] draws its epoch, the [i]-th of those,
    one of the partition, enters its placement, and the operations of the controller, which
    may restart. *)
Inductive Move : Type :=
| Tick (nanos : Z)
| SetEpoch (p : PartitionId) (pl : Placement)
| SetEntry (p : PartitionId) (i : nat)
| MoveBegin (p : PartitionId) (to : Placement)
| MoveCutover (p : PartitionId)
| MoveComplete (p : PartitionId)
| MoveAbort (p : PartitionId)
| MoveRestart.

Definition with_plane (b : Backend) (c : ControlPlane PlacementTable) : Backend := MkBackend c (b_sets b) (b_clock b).
Definition with_table (b : Backend) (t : PlacementTable) : Backend :=
  with_plane b (MkControlPlane t (barrier (b_plane b)) (cutover_at (b_plane b))).
Definition with_sets (b : Backend) (l : list (PartitionId * Placement * Epoch)) : Backend := MkBackend (b_plane b) l (b_clock b).
Definition moved (b : Backend) (m : Move) : Backend :=
  match m with
  | Tick n => MkBackend (b_plane b) (b_sets b) (b_clock b + Z.max 0 n)
  | SetEpoch p pl => let '(e, t) := next_epoch (b_table b) in with_sets (with_table b t) ((p, pl, e) :: b_sets b)
  | SetEntry p i =>
      match b_sets b !! i with
      | Some (q, pl, e) =>
          if str_eqb q p
          then with_sets (with_table b (insert_entry (b_table b) p (MkEntry (Active pl) e))) (delete i (b_sets b))
          else b
      | None => b
      end
  | MoveBegin p to => with_plane b (cp_begin (b_plane b) p to).2
  | MoveCutover p => with_plane b (cp_enter_cutover (b_plane b) (b_now b) p).2
  | MoveComplete p => with_plane b (cp_complete (b_plane b) (b_now b) p).2
  | MoveAbort p => with_plane b (cp_abort (b_plane b) p).2
  | MoveRestart => with_plane b (MkControlPlane (b_table b) (barrier (b_plane b)) ∅)
  end.

(** A tenancy over the table, as [MigratingTenancy]: placements and the gate are the
    table's, the rest is [T]'s. *)
Definition migrating_tenancy (T : TenancySpi) (t : PlacementTable) : TenancySpi := {|
  resolve_partition := resolve_partition;
  doc_id_rule := doc_id_rule;
  injected_fields := injected_fields;
  sensitive_fields := sensitive_fields;
  placement_for p := ok_or (get t p) (SpiPlacementMissing p);
  spi_admit_write p e := match admit_write t p e with Admit => true | Reject => false end;
  cluster_endpoint := cluster_endpoint;
  routing_hint := routing_hint;
  upstream_credentials := upstream_credentials
|}.

(** ** Its steps *)

(** Every operation of the controller is one of the table, or leaves the table. *)
Definition plane_step (c c' : ControlPlane PlacementTable) : Prop :=
  barrier c' = barrier c /\ (store c' = store c \/ exists p a r, run_action (store c) p a = (r, store c')).
Lemma cp_flip_step c p : plane_step c (cp_flip c p).2.
Proof. unfold cp_flip. cbn. destruct (complete_migration _ _) as [r t] eqn:H. split; [done|]. right. by exists p, Complete, r. Qed.
Definition of_controller (m : Move) : bool :=
  match m with Tick _ | SetEpoch _ _ | SetEntry _ _ => false | _ => true end.
Lemma moved_plane b m : of_controller m = true ->
  plane_step (b_plane b) (b_plane (moved b m)) /\ b_sets (moved b m) = b_sets b /\ b_clock (moved b m) = b_clock b.
Proof.
  intros Hm. split; [|by destruct m]. assert (Hd : forall p r t a, run_action (b_table b) p a = (r, t) ->
    exists p a r, run_action (b_table b) p a = (r, t)) by eauto.
  destruct m as [| | |p to|p|p|p|]; try done; cbn [moved b_plane with_plane].
  - unfold cp_begin. cbn. destruct (begin_migration _ _ _) as [r t] eqn:H. split; [done|]. right. by apply (Hd p r t (Begin to)).
  - unfold cp_enter_cutover. cbn. destruct (enter_cutover _ _) as [r t] eqn:H. split; [done|]. right. by apply (Hd p r t EnterCutover).
  - unfold cp_complete. destruct (store_state _ _) as [[[|? ? []] e]|]; try apply cp_flip_step.
    destruct (_ <? _)%Z; [by split; [|left]|]. set (c := MkControlPlane _ _ _). exact (cp_flip_step c p).
  - unfold cp_abort. cbn. destruct (abort_migration _ _) as [r t] eqn:H. split; [done|]. right. by apply (Hd p r t Abort).
  - by split; [|left].
Qed.
Lemma plane_step_system c c' l :
  plane_step c c' -> MkSystem (store c') l = MkSystem (store c) l \/ step (MkSystem (store c) l) (MkSystem (store c') l).
Proof. intros [_ [->|(p & a & r & H)]]; [by left|right]. by econstructor. Qed.

(** A move is a step of the table and its pending [set]s. *)
Lemma moved_system b m : system_of (moved b m) = system_of b \/ step (system_of b) (system_of (moved b m)).
Proof.
  destruct (of_controller m) eqn:Hm.
  { destruct (moved_plane b m Hm) as (Hs & Hl & _). unfold system_of. rewrite Hl. by apply plane_step_system. }
  destruct m as [n|p pl|p i| | | | |]; try done; cbn [moved].
  - by left.
  - right. destruct (next_epoch _) as [e t] eqn:H. by apply step_set_alloc.
  - destruct (b_sets b !! i) as [[[q pl] e]|] eqn:Hi; [|by left]. destruct (str_eqb q p) eqn:Hq; [|by left].
    apply str_eqb_eq in Hq as ->. right. unfold system_of. cbn [b_sets with_sets]. rewrite delete_take_drop.
    rewrite <- (take_drop_middle _ _ _ Hi) at 1. apply step_set_insert.
Qed.
End Backend.

(** ** Lives

    The answers of the calls of the instances and the moves of the backend, in the order
    they happen. *)
Section Life.
Context {Sd : Serde} (T : TenancySpi) {C : Type -> Type} (call_of : event_of C -> option event).

Inductive Moment : Type := Asked (e : event_of C) | Moved (m : Move).
Definition asked (x : Moment) : option (event_of C) := match x with Asked e => Some e | Moved _ => None end.
Definition events_of (run : list Moment) : trace_of C := omap asked run.
Definition after_moment (x : Moment) (b : Backend) : Backend := match x with Asked _ => b | Moved m => moved b m end.
Definition after (b : Backend) (run : list Moment) : Backend := after_run after_moment b run.

(** The routing calls are answered from the table of the moment; the clusters, the queue
    and the timer as they like. *)
Definition answered_by (b : Backend) (e : event) : Prop :=
  match e with
  | Ev c a => match c in Call B return B -> Prop with
              | Resolve ctx => fun a => a = @resolve _ (migrating_tenancy T (b_table b)) ctx
              | ResolvePlacement ctx p ix => fun a => a = @resolve_placement _ (migrating_tenancy T (b_table b)) ctx p ix
              | AdmitWrite p e => fun a => a = @router_admit_write _ (migrating_tenancy T (b_table b)) p e
              | _ => fun _ => True
              end a
  end.
Definition truthful (x : Moment) (b : Backend) : Prop :=
  match x with Asked e => match call_of e with Some e => answered_by b e | None => True end | Moved _ => True end.
Definition lives (b : Backend) (run : list Moment) : Prop := true_run after_moment truthful b run.

Lemma lives_quiet b run :
  forallb (fun x => match x with Asked e => match call_of e with Some _ => false | None => true end | Moved _ => true end) run = true ->
  lives b run.
Proof.
  rewrite List.forallb_forall. intros Hq. apply true_run_all. intros x Hx%list_elem_of_In b'. specialize (Hq x Hx).
  destruct x as [e|m]; [|done]. cbn in *. by destruct (call_of e).
Qed.
Lemma lives_at b pre e x post :
  lives b (pre ++ Asked e :: post) -> call_of e = Some x -> answered_by (after b pre) x.
Proof. intros H%true_run_at He. cbn in H. by rewrite He in H. Qed.
Lemma asked_at run e : e ∈ events_of run -> exists pre post, run = pre ++ Asked e :: post.
Proof. intros (pre & [e'|m] & post & -> & He)%shown_at; [|done]. injection He as ->. eauto. Qed.

(** ** Epochs *)
Lemma after_steps b run : exists n, n <= length run /\ nsteps step n (system_of b) (system_of (after b run)).
Proof.
  revert b. induction run as [|x run IH]; intros b; [by exists 0; split; [lia|constructor]|].
  change (after b (x :: run)) with (after (after_moment x b) run). cbn [length]. destruct (IH (after_moment x b)) as (n & Hn & Hs).
  assert (Hx : system_of (after_moment x b) = system_of b \/ step (system_of b) (system_of (after_moment x b))).
  { destruct x as [e|m]; [by left|apply moved_system]. }
  destruct Hx as [Hx|Hx]; [exists n; rewrite Hx in Hs; split; [lia|done]|exists (S n); split; [lia|by econstructor]].
Qed.
(** Two entries a partition has at two moments are one if they have one epoch. *)
Lemma entry_of_epoch b t0 run1 run2 run3 p en1 en2 :
  (Z.of_nat (length (run1 ++ run2 ++ run3)) <= u64_max)%Z ->
  let m1 := after (backend_new b t0) run1 in let m2 := after (backend_new b t0) (run1 ++ run2) in
  entries (b_table m1) !! p = Some en1 -> entries (b_table m2) !! p = Some en2 -> e_epoch en1 = e_epoch en2 -> en1 = en2.
Proof.
  intros Hl m1 m2 H1 H2 He. rewrite !length_app in Hl.
  destruct (after_steps (backend_new b t0) run1) as (n1 & Hn1 & Hs1).
  destruct (steps_inv n1 (system_of (backend_new b t0)) _ inv_new ltac:(cbn; lia) Hs1) as (Hg1 & Hgen & _).
  destruct (after_steps m1 run2) as (n2 & Hn2 & Hs2). cbn [backend_new system_of b_table table generation] in Hgen.
  destruct (steps_inv n2 _ _ Hg1 ltac:(cbn in *; lia) Hs2) as (_ & _ & Hsp).
  destruct (Hsp p en1 (inv_spent _ _ _ Hg1 H1)) as (_ & _ & Hun). symmetry. apply Hun; [|done].
  unfold m2, after in H2. by rewrite after_run_app in H2.
Qed.
Lemma entries_agree b t0 run pre1 post1 pre2 post2 p en1 en2 :
  (Z.of_nat (length run) <= u64_max)%Z -> run = pre1 ++ post1 -> run = pre2 ++ post2 ->
  entries (b_table (after (backend_new b t0) pre1)) !! p = Some en1 ->
  entries (b_table (after (backend_new b t0) pre2)) !! p = Some en2 -> e_epoch en1 = e_epoch en2 -> en1 = en2.
Proof.
  intros Hl -> Heq H1 H2 He. apply app_eq_inv in Heq as [(k & -> & ->)|(k & -> & ->)].
  - rewrite <- app_assoc in Hl. symmetry. by eapply (entry_of_epoch b t0 pre2 k post1).
  - by eapply (entry_of_epoch b t0 pre1 k post2).
Qed.
End Life.
#[global] Arguments Moment {Sd} C.

(** ** The barrier *)
Section Barrier.
Context {Sd : Serde} (p : PartitionId) (pl : Placement) (t1 : Z).

(** [p] has been at [pl] since [t1]: a cutover, if there is one, began later. *)
Definition stays (c : ControlPlane PlacementTable) : Prop :=
  exists st e, state (Control.store c) p = Some (st, e) /\ read_placement st = pl
  /\ match st with
     | Migrating _ _ Cutover => forall x, cutover_at c !! p = Some x -> (t1 <= nanos x)%Z
     | _ => True
     end.
Definition held (b : Backend) : Prop := (t1 <= b_clock b)%Z /\ stays (b_plane b).

Lemma transition_state t q f :
  state (transition t q f).2 p = state t p
  \/ q = p /\ exists s e s' e', state t p = Some (s, e) /\ f s = Ok s'
     /\ state (transition t q f).2 p = Some (s', e') /\ (transition t q f).1 = Ok e'.
Proof.
  unfold transition. destruct (entries t !! q) as [en|] eqn:Hq; [|by left].
  destruct (f (e_state en)) as [s'|] eqn:Hf; [|by left].
  destruct (next_epoch t) as [e t'] eqn:He. cbn [fst snd]. rewrite state_insert.
  case_bool_decide as Hp.
  - right. subst q. split; [done|]. unfold state. rewrite Hq. cbn. by exists (e_state en), (e_epoch en), s', e.
  - left. by injection He as <- <-.
Qed.
Lemma stays_mono c c' :
  state (Control.store c') p = state (Control.store c) p ->
  (forall x, cutover_at c' !! p = Some x -> cutover_at c !! p = Some x \/ (t1 <= nanos x)%Z) -> stays c -> stays c'.
Proof.
  intros Hs Hm (st & e & H1 & H2 & H3). exists st, e. rewrite Hs. split; [done|]. split; [done|].
  destruct st as [|? ? []]; [done|done|]. intros x [H|H]%Hm; [by apply H3|done].
Qed.
(** A transition to a state that is read at the same place. *)
Lemma stays_after c t s e s' e' m :
  state (Control.store c) p = Some (s, e) -> stays c ->
  state t p = Some (s', e') -> read_placement s' = read_placement s ->
  (forall x, m !! p = Some x -> (t1 <= nanos x)%Z) -> stays (MkControlPlane t (barrier c) m).
Proof.
  intros Hs (st & e0 & H1 & H2 & _) Ht Hr Hm. exists s', e'. cbn. split; [done|]. split; [congruence|].
  by destruct s' as [|? ? []].
Qed.
Lemma stays_begin c q to : stays c -> stays (cp_begin c q to).2.
Proof.
  intros Hc. unfold cp_begin. cbn. unfold begin_migration.
  destruct (transition_state (Control.store c) q (begin_f to)) as [Hs|(-> & s & e & s' & e' & H1 & H2 & H3 & H4)];
    destruct (transition _ _ _) as [r t]; cbn [fst snd] in *.
  - eapply stays_mono; [exact Hs| |exact Hc]. by left.
  - destruct s as [from|]; [|done]. injection H2 as <-. destruct Hc as (st & e0 & H5 & H6 & _).
    rewrite H1 in H5. injection H5 as <- <-. by exists (Migrating from to Draining), e'.
Qed.
Lemma stays_cutover c q now : (t1 <= now)%Z -> stays c -> stays (cp_enter_cutover c (MkInstant now) q).2.
Proof.
  intros Hn Hc. unfold cp_enter_cutover. cbn. unfold enter_cutover.
  destruct (transition_state (Control.store c) q cutover_f) as [Hs|(-> & s & e & s' & e' & H1 & H2 & H3 & H4)];
    destruct (transition _ _ _) as [r t]; cbn [fst snd] in *.
  - eapply stays_mono; [exact Hs| |exact Hc]. cbn. intros x. destruct r; [|by left].
    intros [[_ <-]|[_ H]]%lookup_insert_Some; [by right|by left].
  - subst r. destruct s as [|from to []]; try done. injection H2 as <-. eapply stays_after; [done..|].
    intros x. rewrite lookup_insert_eq. by intros [= <-].
Qed.
Lemma stays_abort c q : stays c -> stays (cp_abort c q).2.
Proof.
  intros Hc. unfold cp_abort. cbn. unfold abort_migration.
  destruct (transition_state (Control.store c) q abort_f) as [Hs|(-> & s & e & s' & e' & H1 & H2 & H3 & H4)];
    destruct (transition _ _ _) as [r t]; cbn [fst snd] in *.
  - eapply stays_mono; [exact Hs| |exact Hc]. cbn. intros x. destruct r; [|by left]. intros [_ H]%lookup_delete_Some. by left.
  - subst r. destruct s as [|from to ph]; [done|]. injection H2 as <-. eapply stays_after; [done..|].
    intros x. by rewrite lookup_delete_eq.
Qed.
(** The flip of a partition that is not in cutover, or of another. *)
Lemma stays_flip c q :
  (q = p -> forall from to e, state (Control.store c) p <> Some (Migrating from to Cutover, e)) -> stays c -> stays (cp_flip c q).2.
Proof.
  intros Hq Hc. unfold cp_flip. cbn. unfold complete_migration.
  destruct (transition_state (Control.store c) q complete_f) as [Hs|(-> & s & e & s' & e' & H1 & H2 & H3 & H4)];
    destruct (transition _ _ _) as [r t]; cbn [fst snd] in *.
  - eapply stays_mono; [exact Hs| |exact Hc]. cbn. intros x. destruct r; [|by left]. intros [_ H]%lookup_delete_Some. by left.
  - destruct s as [|from to []]; try done. by destruct (Hq eq_refl from to e).
Qed.
(** Completing does not flip it before the barrier has passed since [t1]. *)
Lemma stays_complete c q now : (now < t1 + barrier c)%Z -> (t1 <= now)%Z -> stays c -> stays (cp_complete c (MkInstant now) q).2.
Proof.
  intros Hn Ht Hc. unfold cp_complete. cbn [store_state table_store].
  destruct (state (Control.store c) q) as [[st e]|] eqn:Hq; cycle 1.
  { apply stays_flip; [|done]. intros -> from to e. by rewrite Hq. }
  assert (Hno : (forall from to, st <> Migrating from to Cutover) -> stays (cp_flip c q).2).
  { intros Hst. apply stays_flip; [|done]. intros -> from to e'. rewrite Hq. intros [= -> _]. by eapply Hst. }
  destruct st as [|from to []]; [by apply Hno|by apply Hno|]. set (started := default _ _). set (c' := MkControlPlane _ _ _).
  assert (Hc' : stays c').
  { apply (stays_mono c); [done| |exact Hc]. unfold c'. cbn. intros x [[-> <-]|[_ H]]%lookup_insert_Some; [|by left].
    unfold started. destruct (cutover_at c !! p); [by left|by right]. }
  destruct (decide (q = p)) as [->|Hne]; cycle 1.
  { destruct (_ <? _)%Z; [done|]. by apply stays_flip. }
  assert (Hx : (t1 <= nanos started)%Z).
  { unfold started. destruct (cutover_at c !! p) as [x|] eqn:Hx; [|done]. destruct Hc as (st & e1 & H1 & _ & H3).
    rewrite H1 in Hq. injection Hq as -> ->. by apply H3. }
  assert (Hl : (saturating_duration_since (MkInstant now) started <? barrier c)%Z = true).
  { apply Z.ltb_lt. unfold saturating_duration_since, u64_saturating_sub. cbn. lia. }
  unfold c' in *. cbn [barrier]. by rewrite Hl.
Qed.

(** One move before the barrier has passed, other than a [set] of it. *)
Lemma held_moved b m :
  (b_clock b < t1 + barrier (b_plane b))%Z -> (forall i, m <> SetEntry p i) -> held b -> held (moved b m).
Proof.
  intros Hb Hm [Ht Hs]. destruct m as [n|q pl'|q i|q to|q|q|q|]; cbn [moved].
  - split; [cbn; lia|done].
  - destruct (next_epoch (b_table b)) as [e t] eqn:He. split; [done|]. eapply stays_mono; [| |exact Hs]; cbn; [|by left].
    unfold next_epoch in He. by injection He as <- <-.
  - destruct (b_sets b !! i) as [[[q' pl'] e]|]; [|done]. destruct (str_eqb q' q); [|done].
    split; [done|]. eapply stays_mono; [| |exact Hs]; cbn; [|by left]. rewrite state_insert.
    rewrite bool_decide_eq_false_2; [done|]. intros <-. by apply (Hm i).
  - split; [done|by apply stays_begin].
  - split; [done|by apply stays_cutover].
  - split; [done|by apply stays_complete].
  - split; [done|by apply stays_abort].
  - split; [done|]. eapply stays_mono; [| |exact Hs]; [done|]. cbn. intros x. by rewrite lookup_empty.
Qed.
Lemma moved_clock b m : (b_clock b <= b_clock (moved b m))%Z /\ barrier (b_plane (moved b m)) = barrier (b_plane b).
Proof.
  destruct (of_controller m) eqn:Hm.
  { destruct (moved_plane b m Hm) as ([-> _] & _ & ->). by split. }
  destruct m as [n|q pl'|q i| | | | |]; try done; cbn [moved].
  - cbn. split; [lia|done].
  - destruct (b_sets b !! i) as [[[q' pl'] e]|]; [|done]. by destruct (str_eqb q' q).
Qed.
Context {C : Type -> Type}.
Lemma after_clock b (run : list (Moment C)) :
  (b_clock b <= b_clock (after b run))%Z /\ barrier (b_plane (after b run)) = barrier (b_plane b).
Proof.
  revert b. induction run as [|[e|m] run IH]; intros b; [done|exact (IH b)|].
  change (after b (Moved m :: run)) with (after (moved b m) run).
  destruct (IH (moved b m)) as [H1 H2]. destruct (moved_clock b m) as [H3 H4]. split; [lia|congruence].
Qed.
Lemma held_after b (run : list (Moment C)) :
  held b -> (forall i, Moved (SetEntry p i) ∉ run) -> (b_clock (after b run) < t1 + barrier (b_plane b))%Z -> held (after b run).
Proof.
  revert b. induction run as [|[e|m] run IH]; intros b Hh Hn Hc; [done|apply IH; [done| |done]; set_solver|].
  change (after b (Moved m :: run)) with (after (moved b m) run) in *.
  destruct (moved_clock b m) as [H1 H2]. destruct (after_clock (moved b m) run) as [H3 _]. apply IH; [|set_solver|by rewrite H2]. apply held_moved; [lia| |done].
  intros i ->. apply (Hn i). by left.
Qed.
End Barrier.

(** ** Requests *)
Section Requests.
Context {Sd : Serde} {Si : SerdeInt} {W : Wide} {M : Memchr} {Mm : Memmem} (T : TenancySpi).
#[local] Instance fleet_router : Router := tenancy_router.

(** A decision is made of the table's entry. *)
Definition FromEntry (t : PlacementTable) (r : Resolved) : Prop :=
  exists en ix, entries t !! r_partition r = Some en
  /\ target (r_decision r) ≡ target_for (read_placement (e_state en)) ix /\ epoch (r_decision r) = e_epoch en.
Lemma resolve_placement_entry t ctx p ix r :
  @resolve_placement _ (migrating_tenancy T t) ctx p ix = Ok r -> FromEntry t r.
Proof.
  unfold resolve_placement. cbn [placement_for migrating_tenancy]. unfold get.
  destruct (entries t !! p) as [en|] eqn:He; [|done]. cbn [fmap option_fmap option_map ok_or rbind].
  destruct (build_transform _ _) as [tr|]; [|done]. cbn [rbind]. intros [= <-]. by exists en, ix.
Qed.
Lemma resolve_entry t ctx r : @resolve _ (migrating_tenancy T t) ctx = Ok r -> FromEntry t r.
Proof.
  unfold resolve. destruct (is_tenancy_aware _); [|done]. cbn [negb]. destruct (resolve_partition _ _); [|done].
  cbn [rbind]. apply resolve_placement_entry.
Qed.
Lemma transformed_epoch ctx resolved op : Transformed ctx resolved op -> w_epoch op = epoch (r_decision resolved).
Proof.
  intros [H|[(id & H)|(item & q & H & ->)]].
  - unfold build_write_batch in H. destruct (apply_transform _ _ _) as [[i out]|]; [|done]. by injection H as <-.
  - unfold build_delete_op in H. destruct (physical_id_and_routing _ _ _) as [[i rt]|]; [|done]. by injection H as <-.
  - by apply build_op_prepared in H as (_ & _ & ->).
Qed.

Lemma state_get t p st e : state t p = Some (st, e) -> at_placement <$> get t p = Some (read_placement st).
Proof. unfold state, get. destruct (entries t !! p) as [en|]; [|done]. by intros [= <- <-]. Qed.

(** The calls of some of the requests. *)
Definition isolated_in (reqs : list (Pipeline * RequestCtx)) (past : list event) (e : event) : Prop :=
  exists r, r ∈ reqs /\ isolated r.1 r.2 past e.
Lemma isolated_in_mono reqs past past' e : past ⊆ past' -> isolated_in reqs past e -> isolated_in reqs past' e.
Proof. intros Hp (r & Hr & H). exists r. split; [done|]. by eapply isolated_mono. Qed.
(** What the instances do: each request is handled, all at the same time. *)
Definition serves (reqs : list (Pipeline * RequestCtx)) (tr : trace) : Prop :=
  exists ts, Forall2 (fun r t => ~ forwarded r.1 r.2 /\ exists out, exec (handle r.1 r.2) t out) reqs ts /\ interleaving ts tr.
Lemma serves_isolated reqs tr : serves reqs tr -> guarded (isolated_in reqs) [] tr.
Proof.
  intros (ts & Hf & Hi). eapply (guarded_interleaving _ (isolated_in_mono reqs)); [|exact Hi]. apply Forall_forall. intros t Ht.
  apply list_elem_of_lookup in Ht as [i Ht]. destruct (Forall2_lookup_r _ _ _ _ _ Hf Ht) as (r & Hr & Hn & out & He).
  apply exec_handle in He as (o & Ho & _). eapply guarded_impl; [|by eapply dispatch_isolated].
  intros past e H. exists r. split; [by eapply list_elem_of_lookup_2|done].
Qed.

Section Live.
Context (b t0 : Z) (run : list (Moment Call)).
Context (Hlives : lives T Some (backend_new b t0) run).
#[local] Abbreviation at_ pre := (after (backend_new b t0) pre).

(** The routing answers of the past, and the entries they come from. *)
Lemma decided_entry pre x post ctx resolved :
  run = pre ++ x :: post -> Decided ctx (events_of pre) resolved ->
  exists before after, run = before ++ after /\ FromEntry (b_table (at_ before)) resolved.
Proof.
  intros Hrun. assert (Hat : forall e, e ∈ events_of pre -> exists before after, run = before ++ after /\ answered_by T (at_ before) e).
  { intros e (before & mid & ->)%asked_at. exists before, (Asked e :: mid ++ x :: post).
    rewrite <- app_assoc in Hrun. split; [done|]. rewrite Hrun in Hlives. by eapply lives_at. }
  intros [H|(bd & pt & ix & _ & H)]; destruct (Hat _ H) as (before & after_ & -> & Ha); exists before, after_; (split; [done|]); cbn in Ha.
  - by eapply resolve_entry.
  - by eapply resolve_placement_entry.
Qed.
(** The gate lets an epoch through: the partition's entry has it and takes writes. *)
Lemma admitted_entry before p e mid :
  run = before ++ Asked (Ev (AdmitWrite p e) true) :: mid ->
  exists en, entries (b_table (at_ before)) !! p = Some en /\ e_epoch en = e
  /\ write_placement (e_state en) = Some (read_placement (e_state en)).
Proof.
  intros Hrun. rewrite Hrun in Hlives. pose proof (lives_at T Some _ _ _ _ _ Hlives eq_refl) as Ha. cbn in Ha.
  unfold router_admit_write in Ha. cbn in Ha. unfold admit_write in Ha.
  destruct (entries _ !! p) as [en|]; [|done]. exists en. split; [done|].
  destruct (e_state en) as [|? ? []]; cbn in *; try done; case_bool_decide; done.
Qed.
End Live.

(** C4: No write is lost to a migration.  Let instances serve any requests over the shared
    placement table while any thread moves partitions, and let the drain barrier be at least
    [timeout].  A write that reaches the sink goes to the placement [pl] of its partition
    that the decision behind it was made of; the gate let its epoch through before, and
    whenever it did the partition was at [pl], under that epoch and not in cutover; and if
    the write is done within [timeout] of that, and the placement was not replaced by a
    [set], the partition is still read from [pl]: no flip came between. *)
Theorem migration_loses_no_write timeout barrier t0 reqs run pre batch answer post op :
  (timeout <= barrier)%Z -> (Z.of_nat (length run) <= u64_max)%Z ->
  lives T Some (backend_new barrier t0) run -> serves reqs (events_of run) ->
  run = pre ++ Asked (Ev (SinkWrite batch) answer) :: post -> op ∈ ops batch ->
  exists p pl ix, w_target op ≡ target_for pl ix
  /\ Asked (Ev (AdmitWrite p (w_epoch op)) true) ∈ pre
  /\ forall before between, pre = before ++ Asked (Ev (AdmitWrite p (w_epoch op)) true) :: between ->
     let gate := after (backend_new barrier t0) before in let done_ := after (backend_new barrier t0) pre in
     (exists a, get (b_table gate) p = Some a /\ at_placement a = pl /\ at_epoch a = w_epoch op /\ at_phase a <> PhaseCutover)
     /\ ((b_clock done_ < b_clock gate + timeout)%Z -> (forall i, Moved (SetEntry p i) ∉ between) ->
         at_placement <$> get (b_table done_) p = Some pl).
Proof.
  intros Hb Hlen Hl Hs%serves_isolated Hrun Hop. unfold events_of in Hs. rewrite Hrun, omap_app in Hs.
  apply (guarded_app _ (isolated_in_mono reqs)) in Hs as [_ [Hx _]]. rewrite app_nil_r in Hx.
  destruct Hx as ([q ctx] & _ & Hx). cbn [fst snd] in Hx. destruct (Hx op Hop) as (resolved & Hd & Ht & Hadm).
  destruct (decided_entry _ _ _ Hl _ _ _ _ _ Hrun Hd) as (m1 & m2 & Hm & en & ix & He & Htg & Hep).
  assert (Hw : w_epoch op = epoch (r_decision resolved)) by (by apply transformed_epoch in Ht).
  exists (r_partition resolved), (read_placement (e_state en)), ix. split; [|split].
  - destruct (transformed_own _ _ _ Ht) as [Hown _]. cbn in Hown. by rewrite Hown.
  - rewrite Hw. apply asked_at in Hadm as (u & v & ->). set_solver.
  - intros before between Hpre gate done_.
    assert (Hrun' : run = before ++ Asked (Ev (AdmitWrite (r_partition resolved) (w_epoch op)) true) :: between ++ Asked (Ev (SinkWrite batch) answer) :: post)
      by (by rewrite Hrun, Hpre, <- app_assoc).
    destruct (admitted_entry _ _ _ Hl _ _ _ _ Hrun') as (en' & He' & Hep' & Hwr). fold gate in He'.
    assert (en' = en) as -> by (eapply (entries_agree barrier t0 run); [done|exact Hrun'|exact Hm|done|done|congruence]).
    split.
    + unfold get. rewrite He'. eexists. split; [done|]. cbn. split; [done|]. split; [done|]. by destruct (e_state en) as [|? ? []].
    + intros Hc Hn. assert (Hheld : held (r_partition resolved) (read_placement (e_state en)) (b_clock gate) gate).
      { split; [lia|]. exists (e_state en), (e_epoch en). unfold state. fold (b_table gate). rewrite He'. split; [done|]. split; [done|].
        by destruct (e_state en) as [|? ? []]. }
      set (e0 := Asked (Ev (AdmitWrite (r_partition resolved) (w_epoch op)) true)) in *.
      assert (Hd' : done_ = after gate (e0 :: between)) by (unfold done_; rewrite Hpre; apply after_run_app).
      destruct (after_clock (backend_new barrier t0) before) as [_ Hbar]. cbn in Hbar. fold gate in Hbar.
      destruct (held_after _ _ _ gate (e0 :: between) Hheld) as (_ & st & e & Hst & Hrd & _).
      * intros i [[=]|H]%elem_of_cons. by apply (Hn i).
      * rewrite <- Hd', Hbar. lia.
      * rewrite <- Hd' in Hst. by rewrite (state_get (b_table done_) _ _ _ Hst), Hrd.
Qed.
End Requests.

(** ** A partition on the move *)
Section Runs.
#[local] Existing Instance scalar_wide.
#[local] Existing Instance bulk_serde.
#[local] Existing Instance bulk_int.
#[local] Existing Instance any_http.
Definition acme : PartitionId := lit "acme".
Definition shared_on (cluster : ClusterId) : Placement :=
  SharedIndex cluster (lit "shared") [MkInjectedField (lit "_tenant") InjPartitionId].
(** A tenancy that keys on a header. *)
Definition header_tenancy : TenancySpi := {|
  resolve_partition ctx b := resolve_partition_spec (Header (lit "x-tenant")) ctx b;
  doc_id_rule := Some (MkDocIdRule (MkIdTemplate recommended) true);
  injected_fields := [];
  sensitive_fields := default_sensitive_fields;
  placement_for p := Err (SpiPlacementMissing p);
  spi_admit_write := default_admit_write;
  cluster_endpoint := default_cluster_endpoint;
  routing_hint := default_routing_hint;
  upstream_credentials := default_upstream_credentials
|}.
#[local] Instance header_router : Router := tenancy_router (T := header_tenancy).

(** The partition is placed, and its migration begun; a request is routed and let through;
    its writes reach the sink while the controller goes on. *)
Definition placing : list Move := [SetEpoch acme (shared_on (lit "eu-1")); SetEntry acme 0; MoveBegin acme (shared_on (lit "us-1"))].
Definition backend0 : Backend := backend_new 30 0.
Definition draining : Backend := foldl moved backend0 placing.
Definition moving_world : world_of (@Call bulk_serde) nat := fun B c n =>
  match c in Call B return B * nat with
  | Resolve ctx => (@resolve _ (migrating_tenancy header_tenancy (b_table draining)) ctx, n)
  | ResolvePlacement ctx p ix => (@resolve_placement _ (migrating_tenancy header_tenancy (b_table draining)) ctx p ix, n)
  | AdmitWrite p e => (@router_admit_write _ (migrating_tenancy header_tenancy (b_table draining)) p e, n)
  | c => bulk_world _ c n
  end.
Definition moving_run := interp moving_world (handle plain doc_ctx) 0.
Definition moving_resolved : Resolved :=
  MkResolved acme (MkRouteDecision (target_new (lit "eu-1") (lit "shared")) Http1 []
    (Both [MkInjectedField (lit "_tenant") InjPartitionId] (MkDocIdRule (MkIdTemplate recommended) true)) (MkEpoch 2)) PhaseDraining None.
Definition moving_op : WriteOp :=
  match moving_run.1.1 with [_; _; Ev (SinkWrite b) _] => default (write_op_new (target_new [] []) (OpDelete [] None) (MkEpoch 0)) (head (ops b)) | _ => write_op_new (target_new [] []) (OpDelete [] None) (MkEpoch 0) end.
Definition moving_answer : Result WriteAck SinkError := Ok (ack_new [MkOpResult (lit "x") 201 true]).
Definition moving_written : event := Ev (SinkWrite (batch_single moving_op)) moving_answer.
Definition moving_pre : list (Moment Call) :=
  (Moved <$> placing) ++ [Asked (Ev (Resolve doc_ctx) (Ok moving_resolved)); Asked (Ev (AdmitWrite acme (MkEpoch 2)) true)]
  ++ (Moved <$> [MoveCutover acme; Tick 20; MoveComplete acme]).
Definition moving_life : list (Moment Call) := moving_pre ++ [Asked moving_written].

Lemma moving_lives : lives header_tenancy Some backend0 moving_life.
Proof. cbn. repeat split; reflexivity. Qed.
Lemma moving_serves : serves header_tenancy [(plain, doc_ctx)] (events_of moving_life).
Proof.
  exists [moving_run.1.1]. split.
  - constructor; [|constructor]. split; [by intros (policy & [=] & _)|].
    exists moving_run.1.2. exact (interp_exec moving_world (handle plain doc_ctx) 0).
  - replace (events_of moving_life) with (mjoin [moving_run.1.1]) by reflexivity. apply interleaving_concat.
Qed.
Lemma migration_loses_no_write_witness :
  exists p pl ix, w_target moving_op ≡ target_for pl ix
  /\ Asked (Ev (AdmitWrite p (w_epoch moving_op)) true) ∈ moving_pre
  /\ forall before between, moving_pre = before ++ Asked (Ev (AdmitWrite p (w_epoch moving_op)) true) :: between ->
     let gate := after backend0 before in let done_ := after backend0 moving_pre in
     (exists a, get (b_table gate) p = Some a /\ at_placement a = pl /\ at_epoch a = w_epoch moving_op /\ at_phase a <> PhaseCutover)
     /\ ((b_clock done_ < b_clock gate + 30)%Z -> (forall i, Moved (SetEntry p i) ∉ between) ->
         at_placement <$> get (b_table done_) p = Some pl).
Proof.
  apply (migration_loses_no_write header_tenancy 30 30 0 [(plain, doc_ctx)] moving_life moving_pre (batch_single moving_op) moving_answer [] moving_op
    ltac:(lia) ltac:(vm_compute; discriminate) moving_lives moving_serves eq_refl).
  by left.
Defined.
Example the_flip_was_held :
  at_placement <$> get (b_table (after backend0 moving_pre)) acme = Some (shared_on (lit "eu-1"))
  /\ w_target moving_op ≡ target_new (lit "eu-1") (lit "shared").
Proof. repeat split; reflexivity. Qed.

(** *** A batch that outlives the barrier

    The operations of a batch are let through together and sent one after the other, each
    with the upstream timeout to itself: here both exchanges take 20 of the 30 that the
    barrier lasts, and the second ends after the flip. *)
Definition wire_calls (e : event_of WireCall) : option event := match e with Ev (Outer c) a => Some (Ev c a) | _ => None end.
Definition slow_world : world_of (@WireCall bulk_serde) nat := fun B c n =>
  match c in WireCall B return B * nat with Outer c => moving_world _ c n | c => wire_world _ c n end.
Definition slow_run := interp slow_world (served (handle plain bulk_ctx)) 0.
Definition slow_gated : list (event_of (@WireCall bulk_serde)) :=
  [Ev (Outer (ResolvePlacement bulk_ctx acme (lit "orders"))) (Ok moving_resolved);
   Ev (Outer (AdmitWrite acme (MkEpoch 2))) true; Ev (Outer (AdmitWrite acme (MkEpoch 2))) true].
Definition slow_sent : list (Moment (@WireCall bulk_serde)) :=
  let asked i n := Asked <$> take n (drop i slow_run.1.1) in
  [Moved (MoveCutover acme)] ++ asked 3 4 ++ [Moved (Tick 20)] ++ asked 7 7
  ++ [Moved (Tick 20); Moved (MoveComplete acme)] ++ asked 14 3.
Definition slow_life : list (Moment (@WireCall bulk_serde)) := (Moved <$> placing) ++ (Asked <$> slow_gated) ++ slow_sent.
(** The exchanges: when they end, their cluster, and the one the partition is then read from. *)
Fixpoint exchange_log (b : Backend) (run : list (Moment (@WireCall bulk_serde))) : list (Z * ClusterId * option ClusterId) :=
  match run with
  | [] => []
  | x :: run =>
      match x with
      | Asked e => match exchanged e with
                   | Some (c, _, _) => [(b_clock b, c, (fun a => placement_cluster (at_placement a)) <$> get (b_table b) acme)]
                   | None => []
                   end
      | Moved _ => []
      end ++ exchange_log (after_moment x b) run
  end.
Example a_batch_outlives_the_barrier :
  exec (served (handle plain bulk_ctx)) (events_of slow_life) slow_run.1.2
  /\ lives header_tenancy wire_calls backend0 slow_life
  /\ exchange_log backend0 slow_life
     = [(20%Z, lit "eu-1", Some (lit "eu-1")); (40%Z, lit "eu-1", Some (lit "us-1"))].
Proof.
  split; [|split].
  - replace (events_of slow_life) with slow_run.1.1 by reflexivity. exact (interp_exec slow_world (served (handle plain bulk_ctx)) 0).
  - unfold slow_life. unfold lives. rewrite !true_run_app. split; [by repeat split|]. split; [by repeat split|].
    apply lives_quiet. vm_compute. reflexivity.
  - vm_compute. reflexivity.
Qed.
End Runs.
