(* ===== verification/Ingress.v ===== *)
(** * The ingress ([crates/osproxy-transport/src]: classify, admission, request, handler, http_io)

    Classifying a path, the shared budget of buffered bytes, and serving one request over
    the calls of the handler.  Sockets, TLS and HTTP framing are third-party code: a
    request comes as its parsed head and the frames of its body. *)
From stdpp Require Import base option list strings numbers relations.
From Stdlib Require Import Ascii ZArith Lia.
From S2P Require Import Prelude.
From S2P Require Import CoreTypes.
From S2P Require Import JsonProps.
From S2P Require Import Serde.
From S2P Require Import Spi.
From S2P Require Import SearchScan.
From S2P Require Import Prog.
From S2P Require Import Effects.
From S2P Require Import Sink.
From S2P Require Import HttpSink.

Open Scope osp_scope.

(** ** [classify.rs] *)
Record Classified : Type := MkClassified { endpoint : EndpointKind; c_logical_index : str; c_doc_id : option str }.
Definition classified (e : EndpointKind) (index : str) : Classified := MkClassified e index None.

Definition by_id_endpoint (m : HttpMethod) (verb : str) : EndpointKind :=
  match m with
  | Get | Head => GetById
  | DeleteMethod => DeleteById
  | Put | Post => if str_eqb verb (lit "_create") || str_eqb verb (lit "_doc") then IngestDoc else Unknown
  end.
Definition doc_endpoint (m : HttpMethod) : EndpointKind :=
  match m with Post | Put => IngestDoc | _ => Unknown end.

(** The [match] of [classify], its arms in order, tried by the number of segments. *)
Definition classify_rest (segments : list str) : Classified :=
  match segments with
  | first :: _ =>
      if str_eqb first (lit "_cat") || str_eqb first (lit "_cluster") || str_eqb first (lit "_nodes")
      then classified Admin [] else classified Unknown first
  | [] => classified Unknown []
  end.
Definition classify_segments (m : HttpMethod) (segments : list str) : Classified :=
  match segments with
  | [a; b; c] =>
      if str_eqb b (lit "_doc") || str_eqb b (lit "_create") then MkClassified (by_id_endpoint m b) a (Some c)
      else if str_eqb a (lit "_search") && str_eqb b (lit "scroll") then MkClassified Cursor [] (Some c)
      else if str_eqb b (lit "_search") && str_eqb c (lit "point_in_time") then classified Cursor a
      else classify_rest segments
  | [a; b] =>
      if str_eqb b (lit "_doc") then MkClassified (doc_endpoint m) a None
      else if str_eqb a (lit "_search") && (str_eqb b (lit "scroll") || str_eqb b (lit "point_in_time"))
      then classified Cursor []
      else if str_eqb b (lit "_search") then classified Search a
      else if str_eqb b (lit "_count") then classified Count a
      else if str_eqb b (lit "_mget") then classified MultiGet a
      else if str_eqb b (lit "_msearch") then classified MultiSearch a
      else if str_eqb b (lit "_bulk") then MkClassified IngestBulk a None
      else if str_eqb b (lit "_delete_by_query") then classified DeleteByQuery a
      else classify_rest segments
  | [a] =>
      if str_eqb a (lit "_search") then classified Search []
      else if str_eqb a (lit "_mget") then classified MultiGet []
      else if str_eqb a (lit "_msearch") then classified MultiSearch []
      else if str_eqb a (lit "_bulk") then MkClassified IngestBulk [] None
      else classify_rest segments
  | _ => classify_rest segments
  end.
(** [path.split('/').filter(|s| !s.is_empty())]. *)
Definition path_segments (path : str) : list str := List.filter (fun s => negb (body_is_empty s)) (split "/" path).
(** At most four segments are collected. *)
Fixpoint fill (buf : list str) (count : nat) (segments : list str) : list str * nat :=
  match segments with
  | [] => (buf, count)
  | seg :: segments => fill (if count <? length buf then <[count := seg]> buf else buf) (S count) segments
  end.
Definition classify (m : HttpMethod) (path : str) : Classified :=
  let '(buf, count) := fill [[]; []; []; []] 0 (path_segments path) in
  classify_segments m (take (Nat.min count (length buf)) buf).

Lemma fill_spec segments buf count :
  count <= length buf ->
  take (Nat.min (fill buf count segments).2 (length (fill buf count segments).1)) (fill buf count segments).1
  = take (length buf) (take count buf ++ segments)
  /\ length (fill buf count segments).1 = length buf.
Proof.
  revert buf count. induction segments as [|seg segments IH]; intros buf count Hc; cbn [fill fst snd].
  - rewrite app_nil_r, Nat.min_l, take_take, Nat.min_r by lia. done.
  - destruct (Nat.ltb_spec count (length buf)) as [Hlt|Hge].
    + destruct (IH (<[count := seg]> buf) (S count)) as [IH1 IH2]; [rewrite length_insert; lia|].
      rewrite length_insert in IH1, IH2. split; [|done]. rewrite IH1.
      rewrite (take_S_r _ _ seg) by (apply list_lookup_insert_eq; lia). rewrite take_insert_ge by lia.
      by rewrite <- app_assoc.
    + assert (Hb : forall segs c, length buf <= c -> fill buf c segs = (buf, c + length segs)).
      { clear. intros segs. induction segs as [|s segs IHs]; intros c Hc; cbn [fill length]; [by rewrite Nat.add_0_r|].
        rewrite (proj2 (Nat.ltb_ge _ _)) by lia. rewrite IHs by lia. f_equal. lia. }
      rewrite Hb by lia. cbn [fst snd]. split; [|done]. rewrite Nat.min_r by lia.
      rewrite take_app_le by (rewrite length_take; lia). rewrite (take_ge buf count), take_ge by lia. done.
Qed.

(** The four slots lose nothing.  The classifier reads at most four segments into a
    fixed buffer; its verdict is that of the same rules over all the segments of the path,
    however many there are and whatever empty ones slashes leave. *)
Theorem classify_reads_the_whole_path m path : classify m path = classify_segments m (path_segments path).
Proof.
  unfold classify. destruct (fill_spec (path_segments path) [[]; []; []; []] 0 ltac:(cbn; lia)) as [H _].
  destruct (fill _ 0 _) as [buf count]. cbn [fst snd] in H. rewrite H. cbn [take app length].
  destruct (path_segments path) as [|a [|b [|c [|d [|e rest]]]]]; done.
Qed.

(** ** [admission.rs]

    One atomic counter, a [usize].  Each task that reserves loads it and retries an atomic
    compare and exchange, which may fail without reason; a reservation is given back when
    it is dropped. *)
Record IngressLimits : Type := MkIngressLimits { max_body_bytes : Z; inflight_ceiling : Z; max_connections : Z }.
Definition limits_default : IngressLimits := MkIngressLimits (8 * 1024 * 1024) (256 * 1024 * 1024) (16 * 1024).
Record Admission : Type := MkAdmission { inflight : Z; ceiling : Z }.
Definition admission_new (ceiling : Z) : Admission := MkAdmission 0 ceiling.

(** A round of the loop of [try_reserve]: the value to store, or [None] to shed. *)
Definition reserve_round (a : Admission) (current amount : Z) : option Z :=
  let next := (current + amount)%Z in
  if (usize_max <? next)%Z then None else if (ceiling a <? next)%Z then None else Some next.
(** [compare_exchange_weak], when it does not fail without reason. *)
Definition compare_exchange (a : Admission) (current next : Z) : bool * Admission :=
  if (inflight a =? current)%Z then (true, MkAdmission next (ceiling a)) else (false, a).
(** [fetch_sub], wrapping. *)
Definition release (a : Admission) (amount : Z) : Admission := MkAdmission (u64_wrap (inflight a - amount)) (ceiling a).

(** A task in [try_reserve] with the value it last read, or holding a reservation. *)
Inductive Reserver : Type := Trying (amount current : Z) | Holding (amount : Z).
Definition held (r : Reserver) : Z := match r with Holding n => n | Trying _ _ => 0 end.
Definition total_held (rs : list Reserver) : Z := foldr Z.add 0%Z (held <$> rs).
Record Budget : Type := MkBudget { admission : Admission; tasks : list Reserver }.

Inductive budget_step : Budget -> Budget -> Prop :=
| budget_load a rs amount :
    (0 <= amount <= usize_max)%Z -> budget_step (MkBudget a rs) (MkBudget a (Trying amount (inflight a) :: rs))
| budget_exchange a rs1 rs2 amount current next a' :
    reserve_round a current amount = Some next -> compare_exchange a current next = (true, a') ->
    budget_step (MkBudget a (rs1 ++ Trying amount current :: rs2)) (MkBudget a' (rs1 ++ Holding amount :: rs2))
| budget_retry a rs1 rs2 amount current next :
    reserve_round a current amount = Some next ->
    budget_step (MkBudget a (rs1 ++ Trying amount current :: rs2))
      (MkBudget a (rs1 ++ Trying amount (inflight a) :: rs2))
| budget_shed a rs1 rs2 amount current :
    reserve_round a current amount = None ->
    budget_step (MkBudget a (rs1 ++ Trying amount current :: rs2)) (MkBudget a (rs1 ++ rs2))
| budget_drop a rs1 rs2 amount :
    budget_step (MkBudget a (rs1 ++ Holding amount :: rs2)) (MkBudget (release a amount) (rs1 ++ rs2)).

Lemma total_held_app rs1 rs2 : total_held (rs1 ++ rs2) = (total_held rs1 + total_held rs2)%Z.
Proof. induction rs1 as [|r rs1 IH]; cbn; [done|]. unfold total_held in *. lia. Qed.
Lemma total_held_cons r rs : total_held (r :: rs) = (held r + total_held rs)%Z.
Proof. done. Qed.
Definition budget_ok (b : Budget) : Prop :=
  inflight (admission b) = total_held (tasks b) /\ (inflight (admission b) <= ceiling (admission b))%Z
  /\ Forall (fun r => match r with Trying n c => 0 <= n | Holding n => 0 <= n end%Z) (tasks b).
Lemma total_held_pos b : budget_ok b -> (0 <= total_held (tasks b))%Z.
Proof.
  intros (_ & _ & H). induction H as [|r rs Hr _ IH]; [done|]. rewrite total_held_cons. destruct r; cbn; lia.
Qed.
Lemma budget_step_ok b b' :
  (ceiling (admission b) <= usize_max)%Z -> budget_step b b' -> budget_ok b ->
  budget_ok b' /\ ceiling (admission b') = ceiling (admission b).
Proof.
  intros Hceil Hs Hok. pose proof (total_held_pos _ Hok) as Hpos. destruct Hok as (He & Hle & Hf).
  destruct Hs as [a rs n Hn|a rs1 rs2 n c next a' Hr Hx|a rs1 rs2 n c next Hr|a rs1 rs2 n c Hr|a rs1 rs2 n]; cbn [admission tasks] in *.
  - split; [|done]. split; [done|]. split; [done|]. constructor; [lia|done].
  - rewrite total_held_app, total_held_cons in *. cbn [held] in *. unfold compare_exchange in Hx.
    destruct (Z.eqb_spec (inflight a) c) as [Hc|]; [|done]. injection Hx as <-. unfold reserve_round in Hr.
    destruct (Z.ltb_spec usize_max (c + n)); [done|]. destruct (Z.ltb_spec (ceiling a) (c + n)); [done|]. injection Hr as <-.
    split; [|done]. split; [cbn [admission tasks inflight]; rewrite total_held_app, total_held_cons; cbn [held]; lia|].
    split; [cbn; lia|]. cbn [tasks].
    apply Forall_app in Hf as [H1 [H2 H3]%Forall_cons]. apply Forall_app. split; [done|]. by constructor.
  - rewrite total_held_app, total_held_cons in *. split; [|done].
    split; [cbn [admission tasks]; rewrite total_held_app, total_held_cons; done|]. split; [done|]. cbn [tasks].
    apply Forall_app in Hf as [H1 [H2 H3]%Forall_cons]. apply Forall_app. split; [done|]. by constructor.
  - rewrite total_held_app, total_held_cons in *. cbn [held] in *. split; [|done].
    split; [cbn [admission tasks]; rewrite total_held_app; lia|]. split; [done|]. cbn [tasks].
    apply Forall_app in Hf as [H1 [_ H3]%Forall_cons]. by apply Forall_app.
  - rewrite total_held_app, total_held_cons in *. cbn [held] in *. split; [|done].
    apply Forall_app in Hf as [H1 [H2 H3]%Forall_cons].
    assert (Hrest : (0 <= total_held (rs1 ++ rs2))%Z).
    { apply (total_held_pos (MkBudget (MkAdmission (total_held (rs1 ++ rs2)) (total_held (rs1 ++ rs2))) (rs1 ++ rs2))).
      split; [done|]. split; [cbn; lia|]. by apply Forall_app. }
    rewrite total_held_app in Hrest. unfold usize_max, u64_max in Hceil.
    unfold budget_ok, release, u64_wrap. cbn [admission tasks inflight ceiling]. rewrite Z.mod_small by lia. rewrite total_held_app.
    split; [lia|]. split; [lia|]. by apply Forall_app.
Qed.

(** C31: the budget is never exceeded and never leaks.  However the tasks interleave, the
    counter is the sum of the reservations held, at most the ceiling; so once they are
    all dropped it is zero, and no release wraps it. *)
Theorem reservations_stay_under_ceiling ceil b :
  (0 <= ceil <= usize_max)%Z -> rtc budget_step (MkBudget (admission_new ceil) []) b ->
  inflight (admission b) = total_held (tasks b) /\ (0 <= inflight (admission b) <= ceil)%Z.
Proof.
  intros Hc Hr.
  assert (Hi : budget_ok (MkBudget (admission_new ceil) []) /\ ceiling (admission (MkBudget (admission_new ceil) [])) = ceil).
  { split; [|done]. split; [done|]. split; [cbn; lia|]. constructor. }
  revert Hi. induction Hr as [b|b b' b'' Hs _ IH]; intros [Hok Hce].
  - pose proof (total_held_pos _ Hok). destruct Hok as (He & Hle & _). rewrite <- He in *. split; [done|]. lia.
  - apply IH. rewrite <- Hce in Hc. destruct (budget_step_ok b b' ltac:(lia) Hs Hok) as [? ->]. done.
Qed.

(** ** [request.rs] *)
Record IngressRequest : Type := MkIngressRequest {
  iq_method : HttpMethod; iq_protocol : Protocol; iq_path : str; iq_endpoint : EndpointKind;
  iq_logical_index : str; iq_doc_id : option str; iq_headers : list (str * str); iq_body : bytes;
  iq_query : option str; iq_cert_subject : option str; iq_secure : bool
}.
Record IngressResponse : Type := MkIngressResponse { ir_status : Z; ir_headers : list (str * str); ir_body : bytes }.
Definition response_json (status : Z) (b : bytes) : IngressResponse := MkIngressResponse status [] b.
Definition with_header (r : IngressResponse) (name value : str) : IngressResponse :=
  MkIngressResponse (ir_status r) (ir_headers r ++ [(name, value)]) (ir_body r).
Record StreamingResponse : Type := MkStreamingResponse { sr_status : Z; sr_headers : list (str * str); sr_body : ByteBody }.
Definition response_stream (status : Z) (b : ByteBody) : StreamingResponse := MkStreamingResponse status [] b.
Definition response_buffered (status : Z) (b : bytes) : StreamingResponse := MkStreamingResponse status [] (HttpSink.buffered b).
Definition stream_with_header (r : StreamingResponse) (name value : str) : StreamingResponse :=
  MkStreamingResponse (sr_status r) (sr_headers r ++ [(name, value)]) (sr_body r).

(** ** [http_io.rs] *)
Record ConnInfo : Type := MkConnInfo { ci_cert_subject : option str; ci_secure : bool }.
(** A request as the HTTP server gives it: the header values are raw. *)
Record HyperRequest : Type := MkHyperRequest {
  hy_method : str; hy_path : str; hy_query : option str; hy_http2 : bool;
  hy_headers : list (str * bytes); hy_body : ByteBody
}.
Definition map_method (m : str) : option HttpMethod :=
  if str_eqb m (lit "GET") then Some Get
  else if str_eqb m (lit "PUT") then Some Put
  else if str_eqb m (lit "POST") then Some Post
  else if str_eqb m (lit "DELETE") then Some DeleteMethod
  else if str_eqb m (lit "HEAD") then Some Head
  else None.
Definition map_protocol (http2 : bool) : Protocol := if http2 then Http2 else Http1.
Definition content_length (headers : list (str * str)) : option Z :=
  header_get headers (lit "content-length") ≫= (fun v => parse_unsigned usize_max (trim v)).
Definition error_body (message : str) : bytes := body "{'error':'" ++ message ++ body "'}".
Definition overloaded_response : IngressResponse :=
  with_header (response_json 429 (error_body (lit "ingress overloaded, retry later"))) (lit "retry-after") (lit "1").
Definition has_content_type (headers : list (str * str)) : bool :=
  existsb (fun h => eq_ignore_ascii_case h.1 (lit "content-type")) headers.
(** [Limited]: a body whose data goes over the limit fails. *)
Fixpoint collect_limited (limit : Z) (frames : ByteBody) : option bytes :=
  match frames with
  | [] => Some []
  | Data b :: frames =>
      if (limit <? Z.of_nat (length b))%Z then None
      else rest ← collect_limited (limit - Z.of_nat (length b)) frames; Some (b ++ rest)
  | Trailers :: frames => collect_limited limit frames
  | BodyFailed _ :: _ => None
  end.

(** The calls of a request: of the shared budget, and of the handler.  A handler that
    panics gives [None]: the request's task unwinds, and drops its reservation. *)
Inductive IngressCall : Type -> Type :=
| Reserve (amount : Z) : IngressCall bool
| Release (amount : Z) : IngressCall unit
| HandleForward (req : IngressRequest) (b : ByteBody) : IngressCall (option StreamingResponse)
| HandleBulkStream (req : IngressRequest) (b : ByteBody) : IngressCall (option IngressResponse)
| HandleSearchStream (req : IngressRequest) : IngressCall (option StreamingResponse)
| Handle (req : IngressRequest) : IngressCall (option IngressResponse).

(** The questions the transport asks its handler before it reads a body. *)
Class IngressHandler := {
  forward_plan : str -> str -> bool;
  wants_search_stream : EndpointKind -> option str -> bool;
  wants_bulk_stream : EndpointKind -> list (str * str) -> bool
}.

Section Serve.
Context {H : HttpTypes} {Ih : IngressHandler}.

(** A response is built from its headers in order, or is the fallback when one of them or
    the status is not valid; [Response::new] gives that the status 200. *)
Definition build_response (status : Z) (headers : list (str * str)) (b : ByteBody) : StreamingResponse :=
  let headers := (if has_content_type headers then [] else [(lit "content-type", lit "application/json")]) ++ headers in
  match mapM (fun h : str * str => n ← header_name_from h.1; v ← header_value_from h.2; Some (n, v)) headers with
  | Some hs => if (100 <=? status)%Z && (status <=? 999)%Z then MkStreamingResponse status hs b
               else response_buffered 200 (body "{'error':'internal'}")
  | None => response_buffered 200 (body "{'error':'internal'}")
  end.
Definition render (out : IngressResponse) : StreamingResponse :=
  build_response (ir_status out) (ir_headers out) (HttpSink.buffered (ir_body out)).
Definition render_forward (out : StreamingResponse) : StreamingResponse :=
  build_response (sr_status out) (sr_headers out) (sr_body out).

Definition head_of (m : HttpMethod) (req : HyperRequest) (conn : ConnInfo) : IngressRequest :=
  let c := classify m (hy_path req) in
  MkIngressRequest m (map_protocol (hy_http2 req)) (hy_path req) (endpoint c) (c_logical_index c) (c_doc_id c)
    ((fun h => (h.1, default [] (header_value_text h.2))) <$> hy_headers req) [] (hy_query req)
    (ci_cert_subject conn) (ci_secure conn).
Definition with_body (req : IngressRequest) (b : bytes) : IngressRequest :=
  MkIngressRequest (iq_method req) (iq_protocol req) (iq_path req) (iq_endpoint req) (iq_logical_index req)
    (iq_doc_id req) (iq_headers req) b (iq_query req) (iq_cert_subject req) (iq_secure req).

Definition serve_buffered (limits : IngressLimits) (b : ByteBody) (head : IngressRequest) (declared : option Z)
    : prog_of IngressCall (option StreamingResponse) :=
  let reserve := default (max_body_bytes limits) declared in
  await! reserved := call (Reserve reserve) in
  if negb reserved then Ret (Some (render overloaded_response))
  else match collect_limited (max_body_bytes limits) b with
       | None =>
           await! _ := call (Release reserve) in
           Ret (Some (render (response_json 413 (error_body (lit "request body too large")))))
       | Some collected =>
           let head := with_body head collected in
           if wants_search_stream (iq_endpoint head) (iq_query head)
           then await! out := call (HandleSearchStream head) in
                await! _ := call (Release reserve) in Ret (render_forward <$> out)
           else await! out := call (Handle head) in
                await! _ := call (Release reserve) in Ret (render <$> out)
       end.
Definition serve_request (req : HyperRequest) (conn : ConnInfo) (limits : IngressLimits) : prog_of IngressCall (option StreamingResponse) :=
  match map_method (hy_method req) with
  | None => Ret (Some (render (response_json 405 (error_body (lit "method not allowed")))))
  | Some m =>
      let head := head_of m req conn in
      let declared := content_length (iq_headers head) in
      if forward_plan (iq_path head) (iq_logical_index head)
      then await! out := call (HandleForward head (hy_body req)) in Ret (render_forward <$> out)
      else if (match declared with Some n => (max_body_bytes limits <? n)%Z | None => false end)
      then Ret (Some (render (response_json 413 (error_body (lit "request body too large")))))
      else if wants_bulk_stream (iq_endpoint head) (iq_headers head)
      then await! out := call (HandleBulkStream head (hy_body req)) in Ret (render <$> out)
      else serve_buffered limits (hy_body req) head declared
  end.

(** ** Memory

    The bytes a trace has reserved, and given back, and the body it hands over. *)
Definition reserved_by (e : event_of IngressCall) : list Z :=
  match e with
  | Ev c x => match c in IngressCall B return B -> list Z with
              | Reserve n => fun ok : bool => if ok then [n] else []
              | _ => fun _ => []
              end x
  end.
Definition released_by (e : event_of IngressCall) : list Z := match e with Ev (Release n) _ => [n] | _ => [] end.
Definition hands_over (e : event_of IngressCall) : option bytes :=
  match e with Ev (Handle req) _ | Ev (HandleSearchStream req) _ => Some (iq_body req) | _ => None end.
(** What a request declares about its body. *)
Definition declared_length (req : HyperRequest) (conn : ConnInfo) (m : HttpMethod) : option Z :=
  content_length (iq_headers (head_of m req conn)).

Lemma collect_limited_length limit frames b : collect_limited limit frames = Some b -> b = [] \/ (Z.of_nat (length b) <= limit)%Z.
Proof.
  revert limit b. induction frames as [|[d| |e] frames IH]; intros limit b; cbn [collect_limited]; [by intros [= <-]; left|..|done].
  - destruct (Z.ltb_spec limit (Z.of_nat (length d))); [done|]. intros (rest & Hr & [= <-])%bind_Some.
    right. rewrite length_app. destruct (IH _ _ Hr) as [->|]; cbn; lia.
  - apply IH.
Qed.

(** A request gives back what it reserved, and hands over [frames] collected, holding [n]. *)
Definition accounted (limits : IngressLimits) (frames : ByteBody) (n : Z) (tr : list (event_of IngressCall)) : Prop :=
  mjoin (reserved_by <$> tr) = mjoin (released_by <$> tr)
  /\ forall t1 e t2 b, tr = t1 ++ e :: t2 -> hands_over e = Some b ->
       mjoin (reserved_by <$> t1) = [n] /\ mjoin (released_by <$> t1) = []
       /\ collect_limited (max_body_bytes limits) frames = Some b.
Lemma unread limits frames n (out : option StreamingResponse) tr o :
  exec (C := IngressCall) (Ret out) tr o -> accounted limits frames n tr.
Proof. intros [-> _]. split; [done|]. by intros [|e1 l] e t2 b. Qed.
Lemma unread_call limits frames n e : reserved_by e = [] -> released_by e = [] -> hands_over e = None -> accounted limits frames n [e].
Proof.
  intros H1 H2 H3. split; [cbn; by rewrite H1, H2|]. intros [|e1 t1] e2 t2 b Heq Hb; [|by destruct t1].
  injection Heq as <- _. congruence.
Qed.
Lemma buffered_is_reserved limits frames head declared tr out :
  exec (serve_buffered limits frames head declared) tr out ->
  accounted limits frames (default (max_body_bytes limits) declared) tr.
Proof.
  unfold serve_buffered. set (n := default _ _) in *. intros (ok & tr' & -> & Hx). destruct ok; cbn [negb] in Hx.
  2: { destruct Hx as [-> _]. by apply unread_call. }
  destruct (collect_limited _ _) as [b|] eqn:Hc.
  2: { destruct Hx as (x & ? & -> & -> & _). split; [done|]. intros [|e1 [|e2 [|e3 l]]] e t2 b Heq Hh; by simplify_eq/=. }
  assert (Hacc : forall e x, reserved_by e = [] -> released_by e = [] -> hands_over e = Some b ->
    accounted limits frames n [Ev (Reserve n) true; e; Ev (Release n) x]).
  { intros e x H1 H2 H3. split; [cbn; by rewrite H1, H2|].
    intros [|e1 [|e2 [|e3 [|? ?]]]] e' t2 b' Heq Hh; by simplify_eq/=. }
  destruct (wants_search_stream _ _); destruct Hx as (o & ? & -> & x & ? & -> & -> & _); by apply Hacc.
Qed.
Lemma serve_accounted req conn limits tr out : exec (serve_request req conn limits) tr out ->
  (tr = [] /\ map_method (hy_method req) = None)
  \/ exists m, map_method (hy_method req) = Some m
     /\ accounted limits (hy_body req) (default (max_body_bytes limits) (declared_length req conn m)) tr
     /\ forall e b, e ∈ tr -> hands_over e = Some b -> (default (max_body_bytes limits) (declared_length req conn m) <= max_body_bytes limits)%Z.
Proof.
  unfold serve_request. destruct (map_method (hy_method req)) as [m|] eqn:Hm; [|intros [-> _]; by left].
  intros Hx. right. exists m. split; [done|]. revert Hx. unfold declared_length. set (head := head_of m req conn).
  assert (Hno : forall tr', (exists out', exec (C := IngressCall) (Ret out') tr' out) \/ (exists e, tr' = [e] /\ reserved_by e = [] /\ released_by e = [] /\ hands_over e = None) ->
    accounted limits (hy_body req) (default (max_body_bytes limits) (content_length (iq_headers head))) tr'
    /\ forall e b, e ∈ tr' -> hands_over e = Some b -> (default (max_body_bytes limits) (content_length (iq_headers head)) <= max_body_bytes limits)%Z).
  { intros tr' [[out' Hx]|(e & -> & H1 & H2 & H3)].
    - split; [by eapply unread|]. destruct Hx as [-> _]. by intros e b ?%not_elem_of_nil.
    - split; [by apply unread_call|]. intros e' b ->%list_elem_of_singleton. congruence. }
  destruct (forward_plan _ _); [intros (x & ? & -> & -> & _); apply Hno; right; by eexists|].
  destruct (content_length (iq_headers head)) as [d|].
  - destruct (Z.ltb_spec (max_body_bytes limits) d) as [|Hle]; [intros Hx; apply Hno; left; eauto|].
    destruct (wants_bulk_stream _ _); [intros (x & ? & -> & -> & _); apply Hno; right; by eexists|].
    intros Hx%buffered_is_reserved. by split.
  - destruct (wants_bulk_stream _ _); [intros (x & ? & -> & -> & _); apply Hno; right; by eexists|].
    intros Hx%buffered_is_reserved. split; [done|]. intros _ _ _ _. cbn. lia.
Qed.

(** C30: what is reserved for a body in memory. Whatever the handler answers, a request gives
    back exactly what it reserved. When it hands a buffered body to the handler, that body is
    what it sent, complete, and within the cap, and the request holds one reservation within the cap:
    of the content length it declared, or of the cap when it declared none. So the body's
    bytes are reserved unless it is longer than it declared. (The server frames most bodies by the
    declared length, but not one that is also chunked: for that one less is reserved than is
    read, [chunked_body_is_under_reserved].) *)
Theorem buffered_body_is_reserved req conn limits tr out :
  (0 <= max_body_bytes limits)%Z -> exec (serve_request req conn limits) tr out ->
  mjoin (reserved_by <$> tr) = mjoin (released_by <$> tr)
  /\ forall t1 e t2 b, tr = t1 ++ e :: t2 -> hands_over e = Some b ->
       exists m n, map_method (hy_method req) = Some m
         /\ mjoin (reserved_by <$> t1) = [n] /\ mjoin (released_by <$> t1) = []
         /\ n = default (max_body_bytes limits) (declared_length req conn m) /\ (n <= max_body_bytes limits)%Z
         /\ collect_limited (max_body_bytes limits) (hy_body req) = Some b /\ (Z.of_nat (length b) <= max_body_bytes limits)%Z
         /\ ((forall d, declared_length req conn m = Some d -> (Z.of_nat (length b) <= d)%Z) -> (Z.of_nat (length b) <= n)%Z).
Proof.
  intros Hmax [[-> Hm]|(m & Hm & [Heq Hacc] & Hcap)]%serve_accounted; [split; [done|]; by intros [|e1 l]|].
  split; [done|]. intros t1 e t2 b -> Hb. destruct (Hacc _ _ _ _ eq_refl Hb) as (Hr & Hl & Hc).
  assert (Hlen : (Z.of_nat (length b) <= max_body_bytes limits)%Z) by (destruct (collect_limited_length _ _ _ Hc) as [->|]; cbn; lia).
  eexists m, _. split; [done|]. split; [done|]. split; [done|]. split; [done|].
  split; [eapply Hcap; [|done]; apply elem_of_app; right; by left|]. split; [done|]. split; [done|].
  intros Hd. destruct (declared_length req conn m) as [d|]; [by apply Hd|done].
Qed.
End Serve.

(** ** Concrete runs *)
Section Runs.
#[local] Existing Instance any_http.

(** The id of a path is not decoded, and is encoded for the upstream. *)
Example path_id_is_encoded_twice :
  c_doc_id (classify Get (lit "/orders/_doc/a%20b")) = Some (lit "a%20b") /\ encode (lit "a%20b") = lit "a%2520b".
Proof. vm_compute. done. Qed.
Example more_than_four_segments :
  classify Get (lit "//_cat/a//b/c/d/") = classified Admin [] /\ classify Get (lit "/a/_doc/b/c/d") = classified Unknown (lit "a").
Proof. vm_compute. done. Qed.

(** Two tasks read the counter before either reserves: the second exchange must retry. *)
Definition contended : Budget := MkBudget (MkAdmission 60 100) [Trying 50 60; Holding 60].
Lemma contended_reachable : rtc budget_step (MkBudget (admission_new 100) []) contended.
Proof.
  eapply rtc_l; [apply (budget_load (admission_new 100) [] 60); vm_compute; intuition discriminate|].
  eapply rtc_l; [apply (budget_load (admission_new 100) _ 50); vm_compute; intuition discriminate|].
  eapply rtc_l; [apply (budget_exchange (admission_new 100) [Trying 50 0] [] 60 0 60 (MkAdmission 60 100)); reflexivity|].
  eapply rtc_l; [apply (budget_retry (MkAdmission 60 100) [] [Holding 60] 50 0 50); reflexivity|]. apply rtc_refl.
Qed.
Lemma reservations_stay_under_ceiling_witness :
  inflight (admission contended) = total_held (tasks contended) /\ (0 <= inflight (admission contended) <= 100)%Z.
Proof.
  apply (reservations_stay_under_ceiling 100 contended); [vm_compute; intuition discriminate|exact contended_reachable].
Defined.

#[local] Instance buffering : IngressHandler := {|
  forward_plan _ _ := false; wants_search_stream _ _ := false; wants_bulk_stream _ _ := false
|}.
Definition put_request : HyperRequest :=
  MkHyperRequest (lit "PUT") (lit "/orders/_doc/1") None false [(lit "content-length", lit "2")] [Data (lit "{}")].
Definition plain_conn : ConnInfo := MkConnInfo None false.
Definition created_world : world_of IngressCall unit := fun B c u =>
  match c in IngressCall B return B * unit with
  | Reserve _ => (true, u)
  | Release _ => (tt, u)
  | HandleForward _ _ => (Some (response_stream 200 []), u)
  | HandleBulkStream _ _ => (Some (response_json 200 []), u)
  | HandleSearchStream _ => (Some (response_stream 200 []), u)
  | Handle _ => (Some (response_json 201 (lit "{}")), u)
  end.
Definition put_run := interp created_world (serve_request put_request plain_conn limits_default) tt.
Example put_run_answers : put_run.1.2 = Some (MkStreamingResponse 201 [(lit "content-type", lit "application/json")] [Data (lit "{}")]).
Proof. vm_compute. reflexivity. Qed.
Lemma buffered_body_is_reserved_witness :
  mjoin (reserved_by <$> put_run.1.1) = mjoin (released_by <$> put_run.1.1)
  /\ forall t1 e t2 b, put_run.1.1 = t1 ++ e :: t2 -> hands_over e = Some b ->
       exists m n, map_method (lit "PUT") = Some m
         /\ mjoin (reserved_by <$> t1) = [n] /\ mjoin (released_by <$> t1) = []
         /\ n = default (max_body_bytes limits_default) (declared_length put_request plain_conn m) /\ (n <= max_body_bytes limits_default)%Z
         /\ collect_limited (max_body_bytes limits_default) [Data (lit "{}")] = Some b
         /\ (Z.of_nat (length b) <= max_body_bytes limits_default)%Z
         /\ ((forall d, declared_length put_request plain_conn m = Some d -> (Z.of_nat (length b) <= d)%Z) -> (Z.of_nat (length b) <= n)%Z).
Proof.
  apply (buffered_body_is_reserved put_request plain_conn limits_default put_run.1.1 put_run.1.2).
  - vm_compute. discriminate.
  - exact (interp_exec created_world (serve_request put_request plain_conn limits_default) tt).
Defined.
(** A request with both a content length and a chunked body: the header is there, and does
    not frame the body.  Two bytes are reserved, eight are read. *)
Definition chunked_request : HyperRequest :=
  MkHyperRequest (lit "PUT") (lit "/orders/_doc/1") None false
    [(lit "content-length", lit "2"); (lit "transfer-encoding", lit "chunked")] [Data (body "{'a':"); Data (body "11}")].
Example chunked_body_is_under_reserved :
  let tr := (interp created_world (serve_request chunked_request plain_conn limits_default) tt).1.1 in
  mjoin (reserved_by <$> tr) = [2%Z] /\ omap hands_over tr = [body "{'a':11}"].
Proof. vm_compute. done. Qed.
End Runs.
