(* ===== verification/Server.v ===== *)
(** * The server's handler ([crates/osproxy-server/src]: handler, bearer, forward_headers, auth; [handle_with_capture] of the engine)

    A request that the ingress has parsed is authenticated and authorized, and becomes a
    request context for the engine.  The handler is a program over its own calls and the
    engine's. *)
From stdpp Require Import base option list strings numbers sets gmap pretty.
From Stdlib Require Import Ascii ZArith Lia.
From S2P Require Import Prelude.
From S2P Require Import Metrics.
From S2P Require Import CoreTypes.
From S2P Require Import JsonProps.
From S2P Require Import Serde.
From S2P Require Import Spi.
From S2P Require Import Sink.
From S2P Require Import Plan.
From S2P Require Import SearchScan.
From S2P Require Import Prog.
From S2P Require Import Effects.
From S2P Require Import HttpSink.
From S2P Require Import AsyncWrite.
From S2P Require Import ReqTrace.
From S2P Require Import Observe.
From S2P Require Import Engine.
From S2P Require Import Ingress.

Open Scope osp_scope.

(** ** [bearer.rs] *)
Definition authorization : str := lit "authorization".
Definition bearer_parse (headers : list (str * str)) : option str :=
  v ← header_get headers authorization;
  st ← split_once " " v;
  if eq_ignore_ascii_case st.1 (lit "bearer") then Some st.2 else None.
(** The bytes are compared in constant time; [zip] stops at the shorter. *)
Definition token_eq (a b : str) : bool :=
  (length a =? length b) && (foldl (fun diff xy => Z.lor diff (Z.lxor (bz xy.1) (bz xy.2))) 0%Z (zip a b) =? 0)%Z.
Definition bearer_matches (headers : list (str * str)) (expected : str) : bool :=
  token_eq (default [] (bearer_parse headers)) expected.
Definition without_authorization (headers : list (str * str)) : list (str * str) :=
  List.filter (fun h => negb (eq_ignore_ascii_case h.1 authorization)) headers.

(** ** [forward_headers.rs] *)
Definition NEVER_FORWARD : list str :=
  [lit "connection"; lit "keep-alive"; lit "proxy-authenticate"; lit "proxy-authorization"; lit "te"; lit "trailer";
   lit "transfer-encoding"; lit "upgrade"; lit "host"; lit "content-length"; lit "accept-encoding"].
Definition is_never_forwarded (name : str) : bool := existsb (eq_ignore_ascii_case name) NEVER_FORWARD.
Record ForwardPolicy : Type := MkForwardPolicy { fp_enabled : bool; fp_deny : list str }.
Definition pass_all : ForwardPolicy := MkForwardPolicy true [].
Definition forward_set (fp : ForwardPolicy) (client : list (str * str)) : list (str * str) :=
  if fp_enabled fp
  then List.filter (fun h => negb (existsb (fun d => eq_ignore_ascii_case d h.1) (fp_deny fp)))
         (List.filter (fun h => negb (is_never_forwarded h.1)) client)
  else [].

(** ** [auth.rs]: the reference authenticator; no tokens is its development mode *)
Definition reference_authenticate (tokens : gmap str str) (creds : ClientCredentials) : Result Principal AuthError :=
  if bool_decide (tokens = ∅)
  then Ok (principal_new (match client_cert_subject creds with
                          | Some s => s
                          | None => default (lit "anonymous") (bearer_token creds)
                          end))
  else match bearer_token creds with
       | None => Err MissingCredentials
       | Some t => match tokens !! t with Some pid => Ok (principal_new pid) | None => Err InvalidCredentials end
       end.

(** ** [handler.rs] *)
Record Action : Type := MkAction { action_endpoint : EndpointKind; action_index : str }.
Definition credentials_from (req : IngressRequest) : ClientCredentials :=
  MkClientCredentials (bearer_parse (iq_headers req)) (iq_cert_subject req).
Definition action_of (req : IngressRequest) : Action := MkAction (iq_endpoint req) (iq_logical_index req).
Definition opens_scroll (query : option str) : bool :=
  match query with
  | Some q => existsb (fun p => str_eqb p (lit "scroll") || starts_with (lit "scroll=") p) (split "&" q)
  | None => false
  end.
Definition build_ctx (req : IngressRequest) (principal : Principal) (rid : RequestId)
    (safe_headers forward : list (str * str)) : RequestCtx :=
  MkRequestCtx principal rid (iq_method req) (iq_endpoint req) (iq_protocol req) (iq_logical_index req) (iq_doc_id req)
    safe_headers (iq_body req) (iq_query req) (iq_path req) forward.
Definition ingress_from (resp : PipelineResponse) : IngressResponse :=
  let out := response_json (resp_status resp) (resp_body resp) in
  match resp_content_type resp with Some ct => with_header out (lit "content-type") ct | None => out end.
Definition auth_error_body (e : AuthError) : bytes := error_body (as_slug (auth_code e)).
Definition status_for (e : RequestError) : Z :=
  match req_code e with
  | PartitionUnresolved | UnsupportedEndpoint => 400
  | AuthFailed => 401
  | Unauthorized => 403
  | PlacementMissing => 404
  | StaleEpoch => 409
  | PayloadTooLarge => 413
  | UpstreamFailed => 502
  | PlacementBackendUnavailable | Overloaded => 503
  | _ => 500
  end.
Definition request_error_body (e : RequestError) : bytes :=
  body "{'error':'" ++ as_slug (req_code e) ++ body "','retryable':" ++ (if req_retryable e then lit "true" else lit "false") ++ lit "}".
Definition to_streaming (r : IngressResponse) : StreamingResponse :=
  MkStreamingResponse (ir_status r) (ir_headers r) (HttpSink.buffered (ir_body r)).
Definition success (status : Z) : bool := (200 <=? status)%Z && (status <? 300)%Z.

(** What the engine does for a request, over its calls [E]. *)
Record EngineRuns `{Sd : Serde} (E : Type -> Type) : Type := MkEngineRuns {
  run_handle : RequestCtx -> prog_of E (option (Result PipelineResponse RequestError * RequestTrace));
  run_forward : RequestCtx -> ByteBody -> prog_of E (Result StreamingForward RequestError * RequestTrace);
  run_search : RequestCtx -> prog_of E (Result StreamSearch RequestError * RequestTrace);
  run_bulk : RequestCtx -> ByteBody -> prog_of E (option (Result PipelineResponse RequestError * RequestTrace))
}.
#[global] Arguments run_handle {Sd E}.
#[global] Arguments run_forward {Sd E}.
#[global] Arguments run_search {Sd E}.
#[global] Arguments run_bulk {Sd E}.

(** The calls of the handler: the authenticator and authorizer, the clock, the state it
    shares between requests, and the engine's calls. *)
Inductive ServerCall `{Sd : Serde} (E : Type -> Type) : Type -> Type :=
| Authenticate (c : ClientCredentials) : ServerCall E (Result Principal AuthError)
| Authorize (p : Principal) (a : Action) : ServerCall E (Result unit AuthError)
| NextRequestId : ServerCall E RequestId
| ReadClock : ServerCall E Instant
| EngineCall {B : Type} (c : E B) : ServerCall E B
| ExplainRecord (rid : RequestId) (t : RequestTrace) : ServerCall E unit
| ExplainGet (rid : RequestId) : ServerCall E (option value)
| TapeCapture (doc : value) : ServerCall E unit
| TapeSnapshot : ServerCall E (list value)
| EmitDiagnostic (doc : value) : ServerCall E unit
| ExportSpan (rid : RequestId) (t : RequestTrace) : ServerCall E unit
| LoadDirectives : ServerCall E DirectiveSet
| PublishDirectives (s : DirectiveSet) : ServerCall E unit
| CountTotal : ServerCall E unit
| CountOutcome (ok : bool) : ServerCall E unit
| LoadCounter (c : Counter) : ServerCall E Z
| PoolStatsAll : ServerCall E (list PoolSnapshot)
| TenantRecord (tenant : str) (ok : bool) (nanos : Z) : ServerCall E unit
| TenantText : ServerCall E bytes
| EmitLog (doc : value) : ServerCall E unit
| TeeCapture (req : IngressRequest) (resp : IngressResponse) (rid : RequestId) : ServerCall E unit.
#[global] Arguments Authenticate {Sd E} c.
#[global] Arguments Authorize {Sd E} p a.
#[global] Arguments NextRequestId {Sd E}.
#[global] Arguments ReadClock {Sd E}.
#[global] Arguments EngineCall {Sd E B} c.
#[global] Arguments ExplainRecord {Sd E} rid t.
#[global] Arguments ExplainGet {Sd E} rid.
#[global] Arguments TapeCapture {Sd E} doc.
#[global] Arguments TapeSnapshot {Sd E}.
#[global] Arguments EmitDiagnostic {Sd E} doc.
#[global] Arguments ExportSpan {Sd E} rid t.
#[global] Arguments LoadDirectives {Sd E}.
#[global] Arguments PublishDirectives {Sd E} s.
#[global] Arguments CountTotal {Sd E}.
#[global] Arguments CountOutcome {Sd E} ok.
#[global] Arguments LoadCounter {Sd E} c.
#[global] Arguments PoolStatsAll {Sd E}.
#[global] Arguments TenantRecord {Sd E} tenant ok nanos.
#[global] Arguments TenantText {Sd E}.
#[global] Arguments EmitLog {Sd E} doc.
#[global] Arguments TeeCapture {Sd E} req resp rid.

(** [AppHandler] and the part of the pipeline's configuration that only observes. *)
Record AppHandler : Type := MkAppHandler {
  h_pipeline : Pipeline;
  forward_policy : ForwardPolicy;
  require_tls_for_mutation : bool;
  debug_endpoints : bool;
  directive_admin : option str;
  tenant_metrics : bool;
  log_enabled : bool;
  capture_enabled : bool;
  baseline : DiagLevel;
  baseline_capture : bool;
  diagnostic_sink : bool
}.
(** [AppHandler::new], over a pipeline and what it observes by default, and its builders. *)
Definition handler_new (p : Pipeline) (baseline : DiagLevel) (baseline_capture diagnostic_sink : bool) : AppHandler :=
  MkAppHandler p pass_all true true None false false false baseline baseline_capture diagnostic_sink.
Definition with_forward_policy (h : AppHandler) (policy : ForwardPolicy) : AppHandler :=
  MkAppHandler (h_pipeline h) policy (require_tls_for_mutation h) (debug_endpoints h)
    (directive_admin h) (tenant_metrics h) (log_enabled h) (capture_enabled h) (baseline h)
    (baseline_capture h) (diagnostic_sink h).
Definition with_capture (h : AppHandler) : AppHandler :=
  MkAppHandler (h_pipeline h) (forward_policy h) (require_tls_for_mutation h) (debug_endpoints h)
    (directive_admin h) (tenant_metrics h) (log_enabled h) true (baseline h) (baseline_capture h)
    (diagnostic_sink h).
Definition with_debug_endpoints (h : AppHandler) (enabled : bool) : AppHandler :=
  MkAppHandler (h_pipeline h) (forward_policy h) (require_tls_for_mutation h) enabled
    (directive_admin h) (tenant_metrics h) (log_enabled h) (capture_enabled h) (baseline h)
    (baseline_capture h) (diagnostic_sink h).
Definition with_tenant_metrics (h : AppHandler) : AppHandler :=
  MkAppHandler (h_pipeline h) (forward_policy h) (require_tls_for_mutation h) (debug_endpoints h)
    (directive_admin h) true (log_enabled h) (capture_enabled h) (baseline h) (baseline_capture h)
    (diagnostic_sink h).
Definition with_require_tls_for_mutation (h : AppHandler) (require : bool) : AppHandler :=
  MkAppHandler (h_pipeline h) (forward_policy h) require (debug_endpoints h) (directive_admin h)
    (tenant_metrics h) (log_enabled h) (capture_enabled h) (baseline h) (baseline_capture h)
    (diagnostic_sink h).
Definition with_request_log (h : AppHandler) (enabled : bool) : AppHandler :=
  MkAppHandler (h_pipeline h) (forward_policy h) (require_tls_for_mutation h) (debug_endpoints h)
    (directive_admin h) (tenant_metrics h) enabled (capture_enabled h) (baseline h) (baseline_capture h)
    (diagnostic_sink h).
Definition with_directive_admin (h : AppHandler) (token : str) : AppHandler :=
  MkAppHandler (h_pipeline h) (forward_policy h) (require_tls_for_mutation h) (debug_endpoints h)
    (Some token) (tenant_metrics h) (log_enabled h) (capture_enabled h) (baseline h)
    (baseline_capture h) (diagnostic_sink h).

Section Handler.
Context {Sd : Serde} {Si : SerdeInt} {Dv : DirectiveVerifier} {E : Type -> Type}.
Context (h : AppHandler) (engine : EngineRuns E).
#[local] Abbreviation sprog := (prog_of (ServerCall E)).

Definition run_engine {A} (m : prog_of E A) : sprog A := renaming (@EngineCall Sd E) m.
Definition plain_error (status : Z) (slug : string) : IngressResponse := response_json status (error_body (lit slug)).
Definition text (v : value) : bytes := default [] (to_vec v).

(** ** Introspection, before any authentication *)
Definition publish_directives (req : IngressRequest) : sprog IngressResponse :=
  match directive_admin h with
  | None => Ret (plain_error 404 "not_enabled")
  | Some token =>
      match iq_method req with
      | Post =>
          if require_tls_for_mutation h && negb (iq_secure req) then Ret (plain_error 403 "tls_required")
          else if negb (bearer_matches (iq_headers req) token) then Ret (plain_error 401 "unauthorized")
          else
            await! now := call ReadClock in
            match decode_directive_set (iq_body req) now with
            | Ok set =>
                await! _ := call (PublishDirectives set) in
                Ret (response_json 200 (body "{'published':" ++ lit (pretty (N.of_nat (length set))) ++ lit "}"))
            | Err e => Ret (response_json 400 (error_body (decode_slug e)))
            end
      | _ => Ret (plain_error 405 "method_not_allowed")
      end
  end.
Definition introspect_directives (req : IngressRequest) : sprog IngressResponse :=
  match directive_admin h with
  | None => Ret (plain_error 404 "not_enabled")
  | Some token =>
      if negb (bearer_matches (iq_headers req) token) then Ret (plain_error 401 "unauthorized")
      else await! set := call LoadDirectives in
           await! now := call ReadClock in
           Ret (response_json 200 (text (introspect set now)))
  end.
(** The snapshot of [/metrics]: the pools of the sink, and then the three counters, each
    loaded by itself. *)
Definition pool_json (p : PoolSnapshot) : value :=
  json_object [(lit "cluster", String (ps_cluster p)); (lit "opened", Number (int_num (ps_opened p)));
    (lit "dispatched", Number (int_num (ps_dispatched p))); (lit "reused", Number (int_num (ps_reused p)))].
Definition stats_json (s : StatsSnapshot) : value :=
  json_object [(lit "requests_total", Number (int_num (st_total s))); (lit "requests_ok", Number (int_num (st_ok s)));
    (lit "requests_error", Number (int_num (st_error s))); (lit "pools", Array (pool_json <$> st_pools s))].
Definition metrics_snapshot : sprog bytes :=
  await! pools := call PoolStatsAll in
  await! total := call (LoadCounter TotalRequests) in
  await! ok := call (LoadCounter OkRequests) in
  await! error := call (LoadCounter ErrorRequests) in
  Ret (text (stats_json (MkStatsSnapshot total ok error pools))).
(** [Metrics::record]: two additions, one after the other. *)
Definition metrics_record (ok : bool) : sprog unit :=
  await! _ := call CountTotal in call (CountOutcome ok).
Definition introspection_route (req : IngressRequest) : sprog (option IngressResponse) :=
  let path := iq_path req in
  if starts_with (lit "/debug/") path && negb (debug_endpoints h) then Ret (Some (plain_error 404 "not_enabled"))
  else match strip_prefix (lit "/debug/explain/") path with
  | Some id =>
      await! doc := call (ExplainGet id) in
      Ret (Some (match doc with Some doc => response_json 200 (text doc) | None => plain_error 404 "unknown_request_id" end))
  | None =>
      if str_eqb path (lit "/debug/breakglass")
      then await! tape := call TapeSnapshot in Ret (Some (response_json 200 (text (Array tape))))
      else if str_eqb path (lit "/debug/metrics/tenants")
      then if tenant_metrics h
           then await! t := call TenantText in
                Ret (Some (with_header (response_json 200 t) (lit "content-type") (lit "text/plain; version=0.0.4")))
           else Ret (Some (plain_error 404 "not_enabled"))
      else if str_eqb path (lit "/metrics")
      then await! t := metrics_snapshot in Ret (Some (response_json 200 t))
      else if str_eqb path (lit "/admin/directives")
      then await! r := (match iq_method req with Get => introspect_directives req | _ => publish_directives req end) in Ret (Some r)
      else Ret None
  end.

(** ** The gate of every data-plane request *)
Definition with_request_id (r : IngressResponse) (rid : RequestId) : IngressResponse := with_header r (lit "x-request-id") rid.
Definition server_gate (req : IngressRequest) (rid : RequestId) : sprog (Result Principal IngressResponse) :=
  if require_tls_for_mutation h && is_tenancy_aware (iq_endpoint req) && negb (iq_secure req)
  then Ret (Err (with_request_id (plain_error 403 "tls_required") rid))
  else
    await! who := call (Authenticate (credentials_from req)) in
    match who with
    | Err e => Ret (Err (with_request_id (response_json (http_status e) (auth_error_body e)) rid))
    | Ok principal =>
        await! may := call (Authorize principal (action_of req)) in
        Ret (match may with
             | Ok _ => Ok principal
             | Err e => Err (with_request_id (response_json (http_status e) (auth_error_body e)) rid)
             end)
    end.
Definition ctx_of (req : IngressRequest) (principal : Principal) (rid : RequestId) : RequestCtx :=
  build_ctx req principal rid (without_authorization (iq_headers req)) (forward_set (forward_policy h) (iq_headers req)).

(** ** [Pipeline::handle_with_capture]: the engine's answer, then what is observed of it

    [ExportSpan] stands for building the span and handing it to the exporter. *)
Definition observe (ctx : RequestCtx) (t : RequestTrace) : sprog bool :=
  await! _ := call (ExplainRecord (request_id ctx) t) in
  await! now := call ReadClock in
  await! snapshot := call LoadDirectives in
  let dg := diagnostics (baseline h) (baseline_capture h) snapshot now ctx t in
  let exported := if exporting (h_pipeline h) && (1 <=? level_rank (dg_level dg))
                  then call (ExportSpan (request_id ctx) t) else Ret tt in
  await! _ := (if dg_capture dg
               then let doc := explain_json (request_id ctx) t in
                    await! _ := (if diagnostic_sink h then call (EmitDiagnostic doc) else Ret tt) in
                    call (TapeCapture doc)
               else Ret tt) in
  await! _ := exported in
  Ret (dg_traffic_capture dg).
Definition handle_with_capture (ctx : RequestCtx) : sprog (option (Result PipelineResponse RequestError * bool)) :=
  await! o := run_engine (run_handle engine ctx) in
  match o with
  | None => Ret None
  | Some (result, t) => await! capture := observe ctx t in Ret (Some (result, capture))
  end.

(** ** What follows a response *)
Definition resolved_tenant (doc : value) : option str :=
  as_str (value_index (value_index (value_index doc (lit "spans")) (lit "spi.resolve")) (lit "partition_id")).
Definition explained_tenant (doc : option value) : option str := doc ≫= resolved_tenant.
Definition record_tenant_metrics (rid : RequestId) (ok : bool) (started : Instant) : sprog unit :=
  if tenant_metrics h then
    await! doc := call (ExplainGet rid) in
    match explained_tenant doc with
    | Some tenant =>
        await! now := call ReadClock in
        call (TenantRecord tenant ok (to_u64_or_max (saturating_duration_since now started)))
    | None => Ret tt
    end
  else Ret tt.
Definition after_streamed (rid : RequestId) (ok : bool) (started : Instant) : sprog unit :=
  await! _ := metrics_record ok in
  await! _ := record_tenant_metrics rid ok started in
  if log_enabled h then
    await! doc := call (ExplainGet rid) in
    match doc with Some doc => call (EmitLog doc) | None => Ret tt end
  else Ret tt.
Definition after_response (req : IngressRequest) (resp : IngressResponse) (rid : RequestId) (ok should_capture : bool)
    (started : Instant) : sprog unit :=
  await! _ := after_streamed rid ok started in
  if should_capture && capture_enabled h then call (TeeCapture req resp rid) else Ret tt.
(** [finish_streamed], and the same tail of [handle]. *)
Definition finish (req : IngressRequest) (rid : RequestId) (result : Result PipelineResponse RequestError)
    (should_capture : bool) (started : Instant) : sprog IngressResponse :=
  let '(resp, ok) := match result with
                     | Ok r => (ingress_from r, success (resp_status r))
                     | Err e => (response_json (status_for e) (request_error_body e), false)
                     end in
  await! _ := after_response req resp rid ok should_capture started in
  Ret (with_request_id resp rid).

(** ** [IngressHandler]; [None] is a panic of the request's task *)
Definition server_handle (req : IngressRequest) : sprog (option IngressResponse) :=
  await! started := call ReadClock in
  await! rid := call NextRequestId in
  await! short := introspection_route req in
  match short with
  | Some resp => Ret (Some resp)
  | None =>
      await! gated := server_gate req rid in
      match gated with
      | Err resp => Ret (Some resp)
      | Ok principal =>
          await! o := handle_with_capture (ctx_of req principal rid) in
          match o with
          | None => Ret None
          | Some (result, should_capture) =>
              await! resp := finish req rid result should_capture started in Ret (Some resp)
          end
      end
  end.
Definition server_bulk_stream (req : IngressRequest) (b : ByteBody) : sprog (option IngressResponse) :=
  await! started := call ReadClock in
  await! rid := call NextRequestId in
  await! gated := server_gate req rid in
  match gated with
  | Err resp => Ret (Some resp)
  | Ok principal =>
      let ctx := ctx_of req principal rid in
      await! o := run_engine (run_bulk engine ctx b) in
      match o with
      | None => Ret None
      | Some (result, t) =>
          await! _ := call (ExplainRecord rid t) in
          await! resp := finish req rid result false started in Ret (Some resp)
      end
  end.
(** The tail of the streamed responses. *)
Definition streamed {A} (rid : RequestId) (started : Instant) (result : Result A RequestError) (t : RequestTrace)
    (respond : A -> Z * StreamingResponse) : sprog (option StreamingResponse) :=
  await! _ := call (ExplainRecord rid t) in
  let '(ok, resp) := match result with
                     | Ok a => let '(status, resp) := respond a in (success status, resp)
                     | Err e => (false, response_buffered (status_for e) (request_error_body e))
                     end in
  await! _ := after_streamed rid ok started in
  Ret (Some (stream_with_header resp (lit "x-request-id") rid)).
Definition forward_response (f : StreamingForward) : Z * StreamingResponse :=
  let resp := response_stream (sf_status f) (sf_body f) in
  (sf_status f, match sf_content_type f with Some ct => stream_with_header resp (lit "content-type") ct | None => resp end).
Definition search_response (s : StreamSearch) : Z * StreamingResponse := (st_status s, response_stream (st_status s) (st_body s)).
Definition server_forward (req : IngressRequest) (b : ByteBody) : sprog (option StreamingResponse) :=
  await! started := call ReadClock in
  await! rid := call NextRequestId in
  await! gated := server_gate req rid in
  match gated with
  | Err resp => Ret (Some (to_streaming resp))
  | Ok principal =>
      await! (result, t) := run_engine (run_forward engine (ctx_of req principal rid) b) in
      streamed rid started result t forward_response
  end.
Definition server_search_stream (req : IngressRequest) : sprog (option StreamingResponse) :=
  await! started := call ReadClock in
  await! rid := call NextRequestId in
  await! gated := server_gate req rid in
  match gated with
  | Err resp => Ret (Some (to_streaming resp))
  | Ok principal =>
      await! (result, t) := run_engine (run_search engine (ctx_of req principal rid)) in
      streamed rid started result t search_response
  end.
(** The handler with a capture buffers: it records whole bodies. *)
Definition app_wants_search_stream (e : EndpointKind) (query : option str) : bool :=
  bool_decide (e = Search) && negb (capture_enabled h) && negb (opens_scroll query).
Definition app_wants_bulk_stream (e : EndpointKind) (headers : list (str * str)) : bool :=
  bool_decide (e = IngestBulk) && negb (capture_enabled h) && is_sync_write (h_pipeline h) headers.
#[export] Instance server_handler : IngressHandler := {|
  forward_plan path index :=
    if capture_enabled h then false
    else if starts_with (lit "/debug/") path || str_eqb path (lit "/metrics") || str_eqb path (lit "/admin/directives") then false
    else is_passthrough (h_pipeline h) index;
  wants_search_stream := app_wants_search_stream;
  wants_bulk_stream := app_wants_bulk_stream
|}.
End Handler.

(** ** What reaches the engine *)
Section Authorized.
Context {Sd : Serde} {Si : SerdeInt} {Dv : DirectiveVerifier} {E : Type -> Type}.
Context (h : AppHandler) (engine : EngineRuns E).
#[local] Abbreviation sprog := (prog_of (ServerCall E)).
#[local] Abbreviation sevent := (event_of (ServerCall E)).

Definition engine_event (e : sevent) : option (event_of E) :=
  match e with
  | Ev c b => match c in ServerCall _ B return B -> option (event_of E) with
              | EngineCall c => fun b => Some (Ev c b)
              | _ => fun _ => None
              end b
  end.
Definition engine_events (tr : list sevent) : list (event_of E) := omap engine_event tr.
Lemma engine_events_app t1 t2 : engine_events (t1 ++ t2) = engine_events t1 ++ engine_events t2.
Proof. apply omap_app. Qed.

Lemma exec_run_engine {A} (m : prog_of E A) tr a :
  exec (run_engine m) tr a -> exists calls, exec m calls a /\ engine_events tr ≡ₚ calls.
Proof.
  intros (calls & He & Hp)%exec_renaming. exists calls. split; [done|]. unfold engine_events. rewrite Hp. clear.
  induction calls as [|[B c b] calls IH]; [done|]. cbn. by rewrite IH.
Qed.

(** A program all of whose calls satisfy [P]. *)
Definition calls_only (P : sevent -> Prop) {A} (m : sprog A) : Prop := forall tr a, exec m tr a -> Forall P tr.
Lemma calls_ret P {A} (a : A) : calls_only P (Ret a).
Proof. intros tr b [-> _]. constructor. Qed.
Lemma calls_call (P : sevent -> Prop) {B} (c : ServerCall E B) : (forall b, P (Ev c b)) -> calls_only P (call c).
Proof. intros H tr b ->%exec_call. by repeat constructor. Qed.
Lemma calls_bind P {A B} (m : sprog A) (f : A -> sprog B) :
  calls_only P m -> (forall a, calls_only P (f a)) -> calls_only P (bind m f).
Proof. intros Hm Hf tr b (t1 & t2 & a & -> & H1%Hm & H2%Hf)%exec_bind. by apply Forall_app. Qed.
Lemma calls_engine (P : sevent -> Prop) {A} (m : prog_of E A) :
  (forall B (c : E B) b, P (Ev (EngineCall c) b)) -> calls_only P (run_engine m).
Proof.
  intros H tr a (calls & _ & Hp)%exec_renaming. rewrite Hp. apply Forall_fmap, Forall_forall. intros [B c b] _. apply H.
Qed.

(** A program without engine calls. *)
Definition quiet {A} (m : sprog A) : Prop := forall tr a, exec m tr a -> engine_events tr = [].
Lemma calls_quiet {A} (m : sprog A) : calls_only (fun e => engine_event e = None) m -> quiet m.
Proof.
  intros H tr a Hx%H. unfold engine_events. induction Hx as [|e tr He _ IH]; [done|]. cbn. by rewrite He.
Qed.
Lemma quiet_bind {A B} (m : sprog A) (f : A -> sprog B) : quiet m -> (forall a, quiet (f a)) -> quiet (bind m f).
Proof.
  intros Hm Hf tr b (t1 & t2 & a & -> & H1 & H2)%exec_bind. by rewrite engine_events_app, (Hm _ _ H1), (Hf _ _ _ H2).
Qed.
End Authorized.
Ltac calls_step := first [apply calls_ret | apply calls_call; done | apply calls_engine; done | apply calls_bind; [|intros] | case_match].
Ltac quiet := intros; apply calls_quiet; repeat calls_step.

Section Gated.
Context {Sd : Serde} {Si : SerdeInt} {Dv : DirectiveVerifier} {E : Type -> Type}.
Context (h : AppHandler) (engine : EngineRuns E).
#[local] Abbreviation sprog := (prog_of (ServerCall E)).

Lemma quiet_introspection req : quiet (E := E) (introspection_route h req).
Proof. unfold introspection_route, publish_directives, introspect_directives. quiet. Qed.
Lemma quiet_observe ctx t : quiet (E := E) (observe h ctx t).
Proof. unfold observe. quiet. Qed.
Lemma quiet_finish req rid result should_capture started : quiet (E := E) (finish h req rid result should_capture started).
Proof. unfold finish, after_response, after_streamed, record_tenant_metrics. quiet. Qed.
Lemma quiet_streamed {A} rid started (result : Result A RequestError) t respond : quiet (E := E) (streamed h rid started result t respond).
Proof. unfold streamed, after_streamed, record_tenant_metrics. quiet. Qed.

Definition gated (req : IngressRequest) (principal : Principal) (t : list (event_of (ServerCall E))) : Prop :=
  engine_events t = []
  /\ Ev (Authenticate (credentials_from req)) (Ok principal) ∈ t /\ Ev (Authorize principal (action_of req)) (Ok tt) ∈ t
  /\ (require_tls_for_mutation h = true -> is_tenancy_aware (iq_endpoint req) = true -> iq_secure req = true).
Lemma exec_gate req rid t r :
  exec (server_gate h req rid) t r -> engine_events t = [] /\ match r with Ok principal => gated req principal t | Err _ => True end.
Proof.
  unfold server_gate. destruct (require_tls_for_mutation h && is_tenancy_aware _ && negb _) eqn:Htls.
  { by intros [-> ->]. }
  intros ([principal|e] & t1 & -> & Hx); [|by destruct Hx as [-> ->]].
  destruct Hx as ([[]|e] & t2 & -> & -> & ->); [|done]. split; [done|]. split; [done|]. split; [by left|]. split; [right; by left|].
  intros H1 H2. rewrite H1, H2 in Htls. cbn in Htls. by destruct (iq_secure req).
Qed.

(** A request whose engine calls, if it has any, come after a gate that it passed, and are
    those of [runs] for a context of its principal. *)
Definition authorized (runs : RequestCtx -> list (event_of E) -> Prop) (req : IngressRequest) (tr : list (event_of (ServerCall E))) : Prop :=
  engine_events tr = []
  \/ exists t1 t2 principal rid calls, tr = t1 ++ t2 /\ gated req principal t1
       /\ engine_events t2 ≡ₚ calls /\ runs (ctx_of h req principal rid) calls.
Lemma authorized_quiet runs req t1 t2 : engine_events t1 = [] -> authorized runs req t2 -> authorized runs req (t1 ++ t2).
Proof.
  intros Hq [H|(u1 & u2 & principal & rid & calls & -> & (G1 & G2 & G3 & G4) & Hp & Hr)].
  - left. by rewrite engine_events_app, Hq, H.
  - right. exists (t1 ++ u1), u2, principal, rid, calls. rewrite app_assoc. split_and!; try done. split_and!; try done.
    + by rewrite engine_events_app, Hq, G1.
    + apply elem_of_app. by right.
    + apply elem_of_app. by right.
Qed.
(** The shape of the four entry points. *)
Lemma authorized_entry {A} (runs : RequestCtx -> list (event_of E) -> Prop) req rid (refuse : IngressResponse -> A)
    (m : Principal -> sprog A) tr out :
  (forall principal t a, exec (m principal) t a ->
     exists calls, runs (ctx_of h req principal rid) calls /\ engine_events t ≡ₚ calls) ->
  exec (bind (server_gate h req rid) (fun g => match g with Err r => Ret (refuse r) | Ok principal => m principal end)) tr out ->
  authorized runs req tr.
Proof.
  intros Hm (t1 & t2 & [principal|r] & -> & [Hq Hg]%exec_gate & Hx)%exec_bind.
  - apply Hm in Hx as (calls & Hr & Hp). right. by exists t1, t2, principal, rid, calls.
  - destruct Hx as [-> _]. left. by rewrite app_nil_r.
Qed.
Lemma run_then_quiet {A X} (m : prog_of E X) (k : X -> sprog A) tr out :
  (forall x, quiet (k x)) -> exec (bind (run_engine m) k) tr out ->
  exists calls, (exists x, exec m calls x) /\ engine_events tr ≡ₚ calls.
Proof.
  intros Hk (t1 & t2 & x & -> & (calls & Hc & Hp)%exec_run_engine & Hx%Hk)%exec_bind. exists calls. split; [eauto|].
  by rewrite engine_events_app, Hx, app_nil_r.
Qed.
Lemma exec_start {A} (k : Instant -> RequestId -> sprog A) tr out :
  exec (bind (call ReadClock) (fun started => bind (call NextRequestId) (k started))) tr out ->
  exists started rid t, tr = [Ev ReadClock started; Ev NextRequestId rid] ++ t /\ exec (k started rid) t out.
Proof. intros (started & t1 & -> & rid & t2 & -> & Hx). eauto. Qed.
End Gated.

(** ** The credentials *)
Lemma bz_lxor_zero (x y : byte) : Z.lxor (bz x) (bz y) = 0%Z -> x = y.
Proof.
  intros H%Z.lxor_eq. apply (f_equal (fun z => Ascii.ascii_of_N (Z.to_N z))) in H. unfold bz in H.
  by rewrite !N2Z.id, !Ascii.ascii_N_embedding in H.
Qed.
Lemma token_diff_zero xs acc :
  foldl (fun diff (xy : byte * byte) => Z.lor diff (Z.lxor (bz xy.1) (bz xy.2))) acc xs = 0%Z <->
  acc = 0%Z /\ Forall (fun xy => xy.1 = xy.2) xs.
Proof.
  revert acc. induction xs as [|[x y] xs IH]; intros acc; cbn; [by intuition|].
  rewrite IH, Z.lor_eq_0_iff, Forall_cons. cbn. split.
  - intros [[-> H%bz_lxor_zero] Hf]. by repeat split.
  - intros [-> [-> Hf]]. by rewrite Z.lxor_nilpotent.
Qed.
Lemma token_eq_spec a b : token_eq a b = true <-> a = b.
Proof.
  unfold token_eq. rewrite andb_true_iff, Nat.eqb_eq, Z.eqb_eq, token_diff_zero. split; [|intros ->; split; [done|]; split; [done|]].
  - revert b. induction a as [|x a IH]; intros [|y b] [Hl [_ Hf]]; cbn in *; try done.
    apply Forall_cons in Hf as [Hxy Hf]. cbn in Hxy. subst. f_equal. apply IH. split; [lia|done].
  - induction b as [|y b IH]; cbn; by constructor.
Qed.
Lemma authorization_removed headers : header_get (without_authorization headers) authorization = None.
Proof.
  unfold header_get, without_authorization. induction headers as [|[k v] headers IH]; [done|].
  cbn [List.filter List.find fst]. destruct (eq_ignore_ascii_case k authorization) eqn:Hk; [exact IH|].
  cbn [negb List.find fst]. by rewrite Hk.
Qed.

Section Properties.
Context {Sd : Serde} {Si : SerdeInt} {Dv : DirectiveVerifier} {E : Type -> Type}.
Context (h : AppHandler) (engine : EngineRuns E).

Lemma authorized_start {A} runs req (k : Instant -> RequestId -> prog_of (ServerCall E) A) tr out :
  (forall started rid t, exec (k started rid) t out -> authorized h runs req t) ->
  exec (bind (call ReadClock) (fun started => bind (call NextRequestId) (k started))) tr out -> authorized h runs req tr.
Proof. intros Hk (started & rid & t & -> & Hx%Hk)%exec_start. by apply authorized_quiet. Qed.
Lemma exec_handle_rest ctx req rid started tr out :
  exec (bind (handle_with_capture h engine ctx) (fun o => match o with
        | None => Ret None
        | Some (result, should_capture) =>
            bind (finish h req rid result should_capture started) (fun resp => Ret (Some resp))
        end)) tr out ->
  exists calls, (exists x, exec (run_handle engine ctx) calls x) /\ engine_events tr ≡ₚ calls.
Proof.
  intros (t1 & t2 & o & -> & (calls & Hc & Hp)%run_then_quiet & Hx)%exec_bind.
  - exists calls. split; [done|]. rewrite engine_events_app, Hp. enough (engine_events t2 = []) as ->; [by rewrite app_nil_r|].
    destruct o as [[result capture]|]; [|by destruct Hx as [-> _]]. revert Hx. apply quiet_bind; [apply quiet_finish|quiet].
  - intros [[result t]|]; [|quiet]. apply quiet_bind; [apply quiet_observe|quiet].
Qed.

Lemma handle_authorized req tr out :
  exec (server_handle h engine req) tr out -> authorized h (fun ctx calls => exists x, exec (run_handle engine ctx) calls x) req tr.
Proof.
  apply authorized_start; intros started rid t (t1 & t2 & short & -> & Hi%quiet_introspection & Hx)%exec_bind.
  apply authorized_quiet; [done|]. destruct short as [resp|]; [left; by destruct Hx as [-> _]|].
  eapply (authorized_entry h _ req rid Some) in Hx; [exact Hx|]. intros principal u a. apply exec_handle_rest.
Qed.
Lemma forward_authorized req b tr out :
  exec (server_forward h engine req b) tr out -> authorized h (fun ctx calls => exists x, exec (run_forward engine ctx b) calls x) req tr.
Proof.
  apply authorized_start; intros started rid t. eapply (authorized_entry h _ req rid (fun r => Some (to_streaming r))).
  intros principal u a. apply run_then_quiet. intros [result tc]. apply quiet_streamed.
Qed.
Lemma search_authorized req tr out :
  exec (server_search_stream h engine req) tr out -> authorized h (fun ctx calls => exists x, exec (run_search engine ctx) calls x) req tr.
Proof.
  apply authorized_start; intros started rid t. eapply (authorized_entry h _ req rid (fun r => Some (to_streaming r))).
  intros principal u a. apply run_then_quiet. intros [result tc]. apply quiet_streamed.
Qed.
Lemma bulk_authorized req b tr out :
  exec (server_bulk_stream h engine req b) tr out -> authorized h (fun ctx calls => exists x, exec (run_bulk engine ctx b) calls x) req tr.
Proof.
  apply authorized_start; intros started rid t. eapply (authorized_entry h _ req rid Some).
  intros principal u a. apply run_then_quiet. intros [[result tc]|]; [|quiet].
  apply quiet_bind; [quiet|intros]. apply quiet_bind; [apply quiet_finish|quiet].
Qed.

(** No request reaches the engine unauthenticated. On each of the four entry points, whatever
    the authenticator, the authorizer and the upstreams answer, either the engine makes no
    call at all, or the request first passed the gate: the authenticator accepted its
    credentials as a principal, the authorizer let that principal act on that endpoint and
    index, and the connection was secure where the deployment requires it. The engine then
    runs for a context of that very principal, without the client's credentials among the
    headers it reads. *)
Theorem data_plane_is_authorized req b :
  (forall tr out, exec (server_handle h engine req) tr out ->
     authorized h (fun ctx calls => exists x, exec (run_handle engine ctx) calls x) req tr)
  /\ (forall tr out, exec (server_forward h engine req b) tr out ->
     authorized h (fun ctx calls => exists x, exec (run_forward engine ctx b) calls x) req tr)
  /\ (forall tr out, exec (server_search_stream h engine req) tr out ->
     authorized h (fun ctx calls => exists x, exec (run_search engine ctx) calls x) req tr)
  /\ (forall tr out, exec (server_bulk_stream h engine req b) tr out ->
     authorized h (fun ctx calls => exists x, exec (run_bulk engine ctx b) calls x) req tr)
  /\ (forall principal rid, ctx_principal (ctx_of h req principal rid) = principal
     /\ header_get (ctx_headers (ctx_of h req principal rid)) authorization = None).
Proof.
  split_and!; [apply handle_authorized|apply forward_authorized|apply search_authorized|apply bulk_authorized|].
  intros. split; [done|apply authorization_removed].
Qed.

(** What must hold of a request that publishes directives. *)
Definition may_publish (req : IngressRequest) (e : event_of (ServerCall E)) : Prop :=
  match e with
  | Ev (PublishDirectives set) _ =>
      exists token now, directive_admin h = Some token /\ default [] (bearer_parse (iq_headers req)) = token
      /\ iq_method req = Post /\ iq_path req = lit "/admin/directives"
      /\ (require_tls_for_mutation h = true -> iq_secure req = true)
      /\ decode_directive_set (iq_body req) now = Ok set
  | _ => True
  end.
Lemma publish_directives_guard req :
  iq_path req = lit "/admin/directives" -> calls_only (may_publish req) (publish_directives h req).
Proof.
  intros Hpath. unfold publish_directives. destruct (directive_admin h) as [token|] eqn:Ha; [|apply calls_ret].
  destruct (iq_method req) eqn:Hm; try apply calls_ret. destruct (_ && _) eqn:Htls; [apply calls_ret|].
  destruct (bearer_matches _ _) eqn:Hb; [|apply calls_ret]. apply calls_bind; [by apply calls_call|intros now].
  destruct (decode_directive_set _ _) as [set|] eqn:Hd; [|apply calls_ret]. apply calls_bind; [|intros; apply calls_ret].
  apply calls_call. intros []. exists token, now. apply token_eq_spec in Hb. split_and!; try done. intros Hr. rewrite Hr in Htls.
  by destruct (iq_secure req).
Qed.
Lemma introspection_guard req : calls_only (may_publish req) (introspection_route h req).
Proof.
  unfold introspection_route, introspect_directives. repeat calls_step; apply publish_directives_guard; by apply str_eqb_eq.
Qed.
Lemma observed_guard req ctx t : calls_only (may_publish req) (observe h ctx t).
Proof. unfold observe. repeat calls_step. Qed.
Lemma finish_guard req r rid result capture started : calls_only (may_publish req) (finish h r rid result capture started).
Proof. unfold finish, after_response, after_streamed, record_tenant_metrics. repeat calls_step. Qed.

Ltac guard_step := first [apply introspection_guard | apply observed_guard | apply finish_guard | calls_step].
Lemma handle_guard req : calls_only (may_publish req) (server_handle h engine req).
Proof. unfold server_handle, server_gate, handle_with_capture. repeat guard_step. Qed.
(** The streaming entry points publish nothing. *)
Definition publishes_not (e : event_of (ServerCall E)) : Prop :=
  match e with Ev (PublishDirectives _) _ => False | _ => True end.
Lemma streams_guard req b :
  calls_only publishes_not (server_forward h engine req b) /\ calls_only publishes_not (server_bulk_stream h engine req b)
  /\ calls_only publishes_not (server_search_stream h engine req).
Proof.
  unfold server_forward, server_bulk_stream, server_search_stream, streamed, finish, after_response, after_streamed,
    record_tenant_metrics, server_gate.
  split_and!; repeat calls_step.
Qed.

(** C32: Directives are only published by the administrator. A set of directives is
    published only by a POST to the admin surface that carries the configured token itself,
    over a secure connection where the deployment requires one, and it is the set that the
    body decodes to. A request without credentials carries the empty token: the
    configuration keeps it from being the administrator's, since it drops empty values. *)
Theorem directives_need_the_admin_token req tr out set :
  exec (server_handle h engine req) tr out -> Ev (PublishDirectives set) tt ∈ tr ->
  exists token now, directive_admin h = Some token /\ default [] (bearer_parse (iq_headers req)) = token
    /\ iq_method req = Post /\ iq_path req = lit "/admin/directives"
    /\ (require_tls_for_mutation h = true -> iq_secure req = true)
    /\ decode_directive_set (iq_body req) now = Ok set.
Proof.
  intros Hx Hin. pose proof (proj1 (Forall_forall _ _) (handle_guard req _ _ Hx) _ Hin) as (token & now & H'). by exists token, now.
Qed.
End Properties.

(** ** Concrete runs *)
Section Runs.
#[local] Existing Instance scalar_wide.
#[local] Existing Instance publish_serde.
#[local] Existing Instance publish_int.
#[local] Existing Instance no_verifier.
(** A deployment with TLS required and an administrator, and an engine that answers 201. *)
Definition secured : AppHandler :=
  MkAppHandler (pipeline_new 7) pass_all true false (Some (lit "s3cret")) false false false LevelOff false false.
Inductive OneCall : Type -> Type := Upstream (index : str) : OneCall unit.
Definition one_call : EngineRuns OneCall := {|
  run_handle ctx := await! _ := call (Upstream (logical_index ctx)) in Ret (Some (Ok (MkResponse 201 (lit "{}") None), trace_new));
  run_forward ctx b := Ret (Err (ReqSpi (SpiUnsupportedEndpoint (ctx_endpoint ctx))), trace_new);
  run_search ctx := Ret (Err (ReqSpi (SpiUnsupportedEndpoint (ctx_endpoint ctx))), trace_new);
  run_bulk ctx b := Ret None
|}.
Definition published_set : DirectiveSet := [published (for_tenant match_all (lit "acme"))].
Definition server_world : world_of (ServerCall OneCall) unit := fun B c u =>
  match c in ServerCall _ B return B * unit with
  | Authenticate c => (reference_authenticate {[ lit "t0k" := lit "ci" ]} c, u)
  | Authorize p a => (Ok tt, u)
  | NextRequestId => (lit "r1", u)
  | ReadClock => (MkInstant 0, u)
  | EngineCall c => match c in OneCall B return B * unit with Upstream _ => (tt, u) end
  | ExplainRecord _ _ => (tt, u)
  | ExplainGet _ => (None, u)
  | TapeCapture _ => (tt, u)
  | TapeSnapshot => ([], u)
  | EmitDiagnostic _ => (tt, u)
  | ExportSpan _ _ => (tt, u)
  | LoadDirectives => ([], u)
  | PublishDirectives _ => (tt, u)
  | CountTotal => (tt, u)
  | CountOutcome _ => (tt, u)
  | LoadCounter _ => (0%Z, u)
  | PoolStatsAll => ([], u)
  | TenantRecord _ _ _ => (tt, u)
  | TenantText => ([], u)
  | EmitLog _ => (tt, u)
  | TeeCapture _ _ _ => (tt, u)
  end.
Definition index_request (token : str) (secure : bool) : IngressRequest :=
  MkIngressRequest Put Http1 (lit "/orders/_doc/1") IngestDoc (lit "orders") (Some (lit "1"))
    [(lit "Authorization", lit "Bearer " ++ token)] (lit "{}") None None secure.
Definition publish_request (token : str) : IngressRequest :=
  MkIngressRequest Post Http1 (lit "/admin/directives") Admin [] None
    [(lit "authorization", lit "bearer " ++ token)] (lit "acme") None None true.
Definition run_server (req : IngressRequest) := interp server_world (server_handle secured one_call req) tt.

Example gate_decides :
  (ir_status <$> (run_server (index_request (lit "t0k") true)).1.2) = Some 201%Z
  /\ (ir_status <$> (run_server (index_request (lit "t0k") false)).1.2) = Some 403%Z
  /\ (ir_status <$> (run_server (index_request (lit "bad") true)).1.2) = Some 401%Z
  /\ length (engine_events (run_server (index_request (lit "t0k") true)).1.1) = 1
  /\ length (engine_events (run_server (index_request (lit "t0k") false)).1.1) = 0
  /\ length (engine_events (run_server (index_request (lit "bad") true)).1.1) = 0.
Proof. vm_compute. done. Qed.
Lemma data_plane_is_authorized_witness :
  authorized secured (fun ctx calls => exists x, exec (run_handle one_call ctx) calls x) (index_request (lit "t0k") true)
    (run_server (index_request (lit "t0k") true)).1.1.
Proof.
  destruct (data_plane_is_authorized secured one_call (index_request (lit "t0k") true) []) as [H _].
  exact (H _ _ (interp_exec server_world (server_handle secured one_call (index_request (lit "t0k") true)) tt)).
Defined.
Lemma directives_need_the_admin_token_witness :
  exists token now, directive_admin secured = Some token /\ default [] (bearer_parse (iq_headers (publish_request (lit "s3cret")))) = token
    /\ iq_method (publish_request (lit "s3cret")) = Post /\ iq_path (publish_request (lit "s3cret")) = lit "/admin/directives"
    /\ (require_tls_for_mutation secured = true -> iq_secure (publish_request (lit "s3cret")) = true)
    /\ decode_directive_set (iq_body (publish_request (lit "s3cret"))) now = Ok published_set.
Proof.
  apply (directives_need_the_admin_token secured one_call (publish_request (lit "s3cret"))
    (run_server (publish_request (lit "s3cret"))).1.1 (run_server (publish_request (lit "s3cret"))).1.2 published_set).
  - exact (interp_exec server_world (server_handle secured one_call (publish_request (lit "s3cret"))) tt).
  - apply (list_elem_of_lookup_2 _ 3). reflexivity.
Defined.
End Runs.
