(* ===== verification/ServerStores.v ===== *)
(** * The stores that requests share ([crates/osproxy-server/src/handler.rs], [crates/osproxy-observe/src])

    One handler serves all requests.  They run at the same time, each a program of [Server];
    what they share is the request counter, the explain store, the break-glass tape, the
    directives and the counters.  Here the calls of those programs are given the answers of
    that state, in any order in which concurrent requests make them. *)
From stdpp Require Import base option list strings numbers sets gmap pretty.
From Stdlib Require Import Ascii ZArith Lia.
From S2P Require Import Prelude.
From S2P Require Import DirectiveStore.
From S2P Require Import Metrics.
From S2P Require Import CoreTypes.
From S2P Require Import JsonProps.
From S2P Require Import Serde.
From S2P Require Import Spi.
From S2P Require Import Sink.
From S2P Require Import Plan.
From S2P Require Import SearchScan.
From S2P Require Import Prog.
From S2P Require Import Runs.
From S2P Require Import Effects.
From S2P Require Import HttpSink.
From S2P Require Import AsyncWrite.
From S2P Require Import ReqTrace.
From S2P Require Import Observe.
From S2P Require Import Engine.
From S2P Require Import Ingress.
From S2P Require Import Server.

Open Scope osp_scope.

Definition EXPLAIN_CAPACITY : nat := 1024.
Definition BREAK_GLASS_CAPACITY : nat := 256.

Section Stores.
Context {Sd : Serde} {Si : SerdeInt} {Dv : DirectiveVerifier} {E : Type -> Type}.
#[local] Abbreviation sevent := (event_of (ServerCall E)).

(** The counter of [AppHandler], the stores of its pipeline, and its metrics. *)
Record Stores : Type := MkStores {
  ss_seq : Z;
  ss_explain : ExplainStore;
  ss_tape : BreakGlassBuffer;
  ss_directives : InMemoryDirectiveStore;
  ss_metrics : Metrics
}.
Definition stores_new : Stores :=
  MkStores 0 (explain_new EXPLAIN_CAPACITY) (break_glass_new BREAK_GLASS_CAPACITY) store_new metrics_new.

(** [next_request_id]: [fetch_add(1) + 1]. *)
Definition request_id_of (n : Z) : RequestId := lit "req-" ++ lit (pretty n).
Definition next_request_id (s : Stores) : RequestId * Stores :=
  let n := u64_wrap (ss_seq s + 1) in
  (request_id_of n, MkStores n (ss_explain s) (ss_tape s) (ss_directives s) (ss_metrics s)).

(** What happens: a call completes; a watched store takes a new set. *)
Inductive Moment : Type :=
| Did (e : sevent)
| Watched (set : DirectiveSet).
Definition set_explain (f : ExplainStore -> ExplainStore) (s : Stores) : Stores :=
  MkStores (ss_seq s) (f (ss_explain s)) (ss_tape s) (ss_directives s) (ss_metrics s).
Definition set_tape (f : BreakGlassBuffer -> BreakGlassBuffer) (s : Stores) : Stores :=
  MkStores (ss_seq s) (ss_explain s) (f (ss_tape s)) (ss_directives s) (ss_metrics s).
Definition set_directives (f : InMemoryDirectiveStore -> InMemoryDirectiveStore) (s : Stores) : Stores :=
  MkStores (ss_seq s) (ss_explain s) (ss_tape s) (f (ss_directives s)) (ss_metrics s).
Definition set_metrics (f : Metrics -> Metrics) (s : Stores) : Stores :=
  MkStores (ss_seq s) (ss_explain s) (ss_tape s) (ss_directives s) (f (ss_metrics s)).
Definition call_effect {B} (c : ServerCall E B) (s : Stores) : Stores :=
  match c with
  | NextRequestId => (next_request_id s).2
  | ExplainRecord rid t => set_explain (fun x => explain_record x rid t) s
  | TapeCapture doc => set_tape (fun b => break_glass_capture b doc) s
  | PublishDirectives set => set_directives (store_publish set) s
  | CountTotal => set_metrics count_total s
  | CountOutcome ok => set_metrics (fun m => count_outcome m ok) s
  | _ => s
  end.
Definition effect (x : Moment) (s : Stores) : Stores :=
  match x with
  | Did (Ev c _) => call_effect c s
  | Watched set => set_directives (fun _ => with_directives store_new set) s
  end.
(** The answer the stores give; the authenticator, the authorizer, the clock, the engine,
    the pools of the sink and the counters per tenant (whose cache [Metrics] models) answer
    as they like. *)
Definition answered_by {B} (c : ServerCall E B) (s : Stores) : B -> Prop :=
  match c in ServerCall _ B return B -> Prop with
  | NextRequestId => fun a => a = (next_request_id s).1
  | ExplainGet rid => fun a => a = explain_get (ss_explain s) rid
  | TapeSnapshot => fun a => a = bg_entries (ss_tape s)
  | LoadDirectives => fun a => a = store_load (ss_directives s)
  | LoadCounter c => fun a => a = load_counter (ss_metrics s) c
  | _ => fun _ => True
  end.
Definition truthful (x : Moment) (s : Stores) : Prop := match x with Did (Ev c a) => answered_by c s a | _ => True end.
Definition serves (s : Stores) (run : list Moment) : Prop := true_run effect truthful s run.
Definition after (s : Stores) (run : list Moment) : Stores := after_run effect s run.
Definition did (x : Moment) : option sevent := match x with Did e => Some e | _ => None end.
Definition events_of (run : list Moment) : list sevent := omap did run.

Lemma did_at run e : e ∈ events_of run -> exists pre post, run = pre ++ Did e :: post.
Proof. intros (pre & [e'|] & post & -> & He)%shown_at; try done. injection He as ->. eauto. Qed.

(** ** Request ids *)
Definition drawn (e : sevent) : option RequestId :=
  match e with
  | Ev c a => match c in ServerCall _ B return B -> option RequestId with NextRequestId => fun a => Some a | _ => fun _ => None end a
  end.
Lemma request_id_inj m n : request_id_of m = request_id_of n -> m = n.
Proof.
  unfold request_id_of. intros H%(inj _). apply (f_equal String.string_of_list_ascii) in H. unfold lit in H.
  rewrite !String.string_of_list_ascii_of_string in H. by apply (inj pretty) in H.
Qed.
Lemma effect_seq x s : ss_seq (effect x s) = match x with Did e => match drawn e with Some _ => u64_wrap (ss_seq s + 1) | None => ss_seq s end | _ => ss_seq s end.
Proof. destruct x as [[B c a]|]; try done. by destruct c. Qed.
Lemma drawn_truthful x s rid e : truthful x s -> x = Did e -> drawn e = Some rid -> rid = request_id_of (u64_wrap (ss_seq s + 1)).
Proof. intros Ht -> Hd. destruct e as [B c a]. destruct c; try done. injection Hd as <-. exact Ht. Qed.
(** The ids of a run are those of the numbers that follow, in order. *)
Lemma ids_drawn s run :
  (0 <= ss_seq s)%Z -> (ss_seq s + Z.of_nat (length run) <= u64_max)%Z -> serves s run ->
  exists n, omap drawn (events_of run) = request_id_of <$> seqZ (ss_seq s + 1) (Z.of_nat n).
Proof.
  revert s. induction run as [|x run IH]; intros s Hs Hl; [by exists 0|]. intros [Ht Hr]. cbn [length] in Hl.
  assert (Hw : u64_wrap (ss_seq s + 1) = (ss_seq s + 1)%Z) by (apply Z.mod_small; unfold u64_max in Hl; lia).
  assert (Hcase : (exists e rid, x = Did e /\ drawn e = Some rid) \/
    (forall e, x = Did e -> drawn e = None)) by (destruct x as [e|]; [destruct (drawn e) eqn:?; [left; eauto|right; congruence]|right; done..]).
  pose proof (effect_seq x s) as Hseq. destruct Hcase as [(e & rid & -> & Hd)|Hn].
  - rewrite Hd, Hw in Hseq. destruct (IH (effect (Did e) s)) as (n & Hn); [lia|lia|done|]. exists (S n).
    unfold events_of in *. cbn [omap list_omap did]. rewrite Hd, Hn, Hseq.
    rewrite (seqZ_cons (ss_seq s + 1)) by lia. cbn [fmap list_fmap]. f_equal; [|do 2 f_equal; lia].
    rewrite <- Hw. by eapply drawn_truthful.
  - assert (Hss : ss_seq (effect x s) = ss_seq s) by (rewrite Hseq; destruct x as [e|]; [by rewrite (Hn e)|done..]).
    destruct (IH (effect x s)) as (n & He); [lia|lia|done|]. exists n. rewrite Hss in He. rewrite <- He.
    unfold events_of. destruct x as [e|]; [|done..]. cbn [omap list_omap did]. by rewrite (Hn e).
Qed.
Lemma ids_fresh s run :
  (0 <= ss_seq s)%Z -> (ss_seq s + Z.of_nat (length run) <= u64_max)%Z -> serves s run -> NoDup (omap drawn (events_of run)).
Proof.
  intros H1 H2 H3. destruct (ids_drawn s run H1 H2 H3) as (n & ->). apply NoDup_fmap_2; [|apply NoDup_seqZ].
  intros a b. apply request_id_inj.
Qed.

(** ** Explanations *)
Lemma explain_entries s run rid t :
  (rid, t) ∈ ex_entries (ss_explain (after s run)) -> (rid, t) ∈ ex_entries (ss_explain s) \/ exists a, Ev (ExplainRecord rid t) a ∈ events_of run.
Proof.
  unfold after. induction run as [|x run IH] using rev_ind; [by left|]. rewrite after_run_snoc. intros H.
  assert (Hx : (rid, t) ∈ ex_entries (ss_explain (after s run)) \/ exists a, x = Did (Ev (ExplainRecord rid t) a)).
  { unfold after. destruct x as [[B c a]|]; try (by left). destruct c; try (by left). cbn in H. unfold ring_push in H.
    apply elem_of_app in H as [H|H%list_elem_of_singleton].
    - left. destruct (_ <=? _); [|done]. destruct (ex_entries _); [done|by right].
    - injection H as -> ->. right. by exists a. }
  unfold events_of. rewrite omap_app. destruct Hx as [Hx|(a & ->)].
  - destruct (IH Hx) as [?|(a & ?)]; [by left|right]. exists a. apply elem_of_app. by left.
  - right. exists a. apply elem_of_app. right. by left.
Qed.
Lemma explained run pre rid doc post :
  serves stores_new run -> run = pre ++ Did (Ev (ExplainGet rid) (Some doc)) :: post ->
  exists t a, Ev (ExplainRecord rid t) a ∈ events_of run /\ doc = explain_json rid t.
Proof.
  intros Hs ->. pose proof (true_run_at _ _ _ _ _ _ Hs) as Ht. cbn in Ht. unfold explain_get in Ht.
  destruct (List.find _ _) as [[rid' t]|] eqn:Hf; [|done]. cbn in Ht. injection Ht as ->.
  apply List.find_some in Hf as [Hin%list_elem_of_In Heq]. cbn in Heq. apply str_eqb_eq in Heq as ->.
  apply explain_entries in Hin as [[]%not_elem_of_nil|(a & Hin)]. exists t, a. split; [|done].
  unfold events_of. rewrite omap_app. apply elem_of_app. by left.
Qed.
End Stores.

(** The tenant of an explanation is the partition that the engine resolved. *)
Lemma tenant_of_explanation {Sd : Serde} {Si : SerdeInt} rid t : resolved_tenant (explain_json rid t) = resolved_partition t.
Proof. destruct t as [tc [i|] [c|] [r|] [w|] [d|] [e|] er]; reflexivity. Qed.

(** ** What a request does to them *)
Section Request.
Context {Sd : Serde} {Si : SerdeInt} {Dv : DirectiveVerifier} {E : Type -> Type}.
Context (h : AppHandler) (engine : EngineRuns E).
#[local] Abbreviation sprog := (prog_of (ServerCall E)).
#[local] Abbreviation sevent := (event_of (ServerCall E)).

(** The four entry points. *)
Inductive Served : Type :=
| Handled (req : IngressRequest)
| Forwarded (req : IngressRequest) (b : ByteBody)
| Searched (req : IngressRequest)
| Bulked (req : IngressRequest) (b : ByteBody).
Definition entry_runs (s : Served) (tr : list sevent) : Prop :=
  match s with
  | Handled req => exists out, exec (server_handle h engine req) tr out
  | Forwarded req b => exists out, exec (server_forward h engine req b) tr out
  | Searched req => exists out, exec (server_search_stream h engine req) tr out
  | Bulked req b => exists out, exec (server_bulk_stream h engine req b) tr out
  end.
(** [t] is what the engine traced of the request, under this id and for some principal. *)
Definition traced (s : Served) (rid : RequestId) (t : RequestTrace) : Prop :=
  exists principal calls,
  match s with
  | Handled req => exists r, exec (run_handle engine (ctx_of h req principal rid)) calls (Some (r, t))
  | Forwarded req b => exists r, exec (run_forward engine (ctx_of h req principal rid) b) calls (r, t)
  | Searched req => exists r, exec (run_search engine (ctx_of h req principal rid)) calls (r, t)
  | Bulked req b => exists r, exec (run_bulk engine (ctx_of h req principal rid) b) calls (Some (r, t))
  end.

(** A request that has drawn [rid] records under it what [P] holds of, and tells of a
    document only what it found under it. *)
Definition tells (P : RequestTrace -> Prop) (rid : RequestId) (past : list sevent) (e : sevent) : Prop :=
  match e with
  | Ev NextRequestId _ => False
  | Ev (ExplainRecord rid' t) _ => rid' = rid /\ P t
  | Ev (TenantRecord tenant _ _) _ => exists doc, Ev (ExplainGet rid) (Some doc) ∈ past /\ resolved_tenant doc = Some tenant
  | Ev (EmitLog doc) _ => Ev (ExplainGet rid) (Some doc) ∈ past
  | _ => True
  end.
Lemma tells_mono P rid past past' e : past ⊆ past' -> tells P rid past e -> tells P rid past' e.
Proof.
  intros Hp. assert (Hin : forall e, e ∈ past -> e ∈ past') by exact Hp. destruct e as [B []]; try done; cbn; [|by apply Hin].
  intros (doc & H1 & H2). eauto.
Qed.
Abbreviation told P rid past m := (safe (tells P rid) past m (fun _ _ => True)).

Lemma told_calls {A} P rid past (m : sprog A) : calls_only (fun e => forall past, tells P rid past e) m -> told P rid past m.
Proof.
  intros H tr a Hx%H. split; [|done]. revert past. induction Hx as [|e tr He _ IH]; intros past; [done|]. by split.
Qed.
Lemma told_bind {A B} P rid past (m : sprog A) (f : A -> sprog B) (Q : A -> Prop) :
  safe (tells P rid) past m (fun _ a => Q a) -> (forall tr a, Q a -> told P rid (tr ++ past) (f a)) -> told P rid past (bind m f).
Proof. intros Hm Hf. eapply (safe_bind _ (tells_mono P rid)); [exact Hm|]. intros tr a Ha. by apply Hf. Qed.
Lemma told_then {A B} P rid past (m : sprog A) (f : A -> sprog B) :
  told P rid past m -> (forall tr a, told P rid (tr ++ past) (f a)) -> told P rid past (bind m f).
Proof. intros Hm Hf. by eapply (told_bind P rid past m f (fun _ => True)); [|intros]. Qed.
Lemma told_engine {A} P rid past (m : prog_of E A) :
  safe (tells P rid) past (run_engine m) (fun _ a => exists calls, exec m calls a).
Proof.
  intros tr a Hx. split; [|by apply exec_run_engine in Hx as (calls & ? & _); exists calls].
  eapply told_calls; [|exact Hx]. by apply calls_engine.
Qed.

(** A call that is always allowed. *)
Lemma told_call {A B} P rid past (c : ServerCall E B) (k : B -> sprog A) :
  (forall past a, tells P rid past (Ev c a)) -> (forall a, told P rid (Ev c a :: past) (k a)) -> told P rid past (bind (call c) k).
Proof. intros Hc Hk. apply safe_do. intros a. split; [done|apply Hk]. Qed.
Lemma told_record_tenant P rid past ok started : told P rid past (record_tenant_metrics h rid ok started).
Proof.
  unfold record_tenant_metrics. destruct (tenant_metrics h); [|by apply safe_ret]. apply told_call; [done|]. intros doc.
  destruct (explained_tenant doc) as [tenant|] eqn:Ht; [|by apply safe_ret]. apply told_call; [done|]. intros now.
  apply safe_call. intros v. split; [|done]. destruct doc as [d|]; [|done]. exists d. split; [set_solver|done].
Qed.
Lemma told_after_streamed P rid past ok started : told P rid past (after_streamed h rid ok started).
Proof.
  unfold after_streamed. apply told_then; [apply told_calls; unfold metrics_record; repeat calls_step|]. intros t0 _.
  apply told_then; [apply told_record_tenant|]. intros tr _.
  destruct (log_enabled h); [|by apply safe_ret]. apply told_call; [done|]. intros [d|]; [|by apply safe_ret].
  apply safe_call. intros v. split; [|done]. by left.
Qed.
Lemma told_finish P rid past req result should_capture started :
  told P rid past (finish h req rid result should_capture started).
Proof.
  unfold finish, after_response. destruct (match result with Ok _ => _ | Err _ => _ end) as [resp ok].
  apply told_then; [|intros; by apply safe_ret]. apply told_then; [apply told_after_streamed|]. intros tr _.
  destruct (_ && _); [by apply told_calls, calls_call|by apply safe_ret].
Qed.
Lemma told_gate P rid past req : told P rid past (server_gate h req rid).
Proof. apply told_calls. unfold server_gate. repeat calls_step. Qed.
Lemma told_introspection P rid past req : told P rid past (introspection_route h req).
Proof. apply told_calls. unfold introspection_route, publish_directives, introspect_directives, metrics_snapshot. repeat calls_step. Qed.
Lemma told_observe P rid past ctx t : request_id ctx = rid -> P t -> told P rid past (observe h ctx t).
Proof.
  intros Hr Ht. apply told_calls. unfold observe. apply calls_bind; [by apply calls_call|]. intros _. repeat calls_step.
Qed.
Lemma told_streamed {A} P rid past started (result : Result A RequestError) t respond :
  P t -> told P rid past (streamed h rid started result t respond).
Proof.
  intros Ht. unfold streamed. apply told_call; [done|]. intros u.
  destruct (match result with Ok _ => _ | Err _ => _ end) as [ok resp]. apply told_then; [apply told_after_streamed|]. intros. by apply safe_ret.
Qed.
(** After the id is drawn, an entry point tells of the request's own trace only. *)
Lemma entry_tells s tr : entry_runs s tr ->
  exists started rid t, tr = Ev ReadClock started :: Ev NextRequestId rid :: t /\ guarded (tells (traced s rid) rid) [] t.
Proof.
  assert (Hgo : forall A (k : Instant -> RequestId -> sprog A) (P : RequestId -> RequestTrace -> Prop) out,
    exec (bind (call ReadClock) (fun started => bind (call NextRequestId) (k started))) tr out ->
    (forall started rid, told (P rid) rid [] (k started rid)) ->
    exists started rid t, tr = Ev ReadClock started :: Ev NextRequestId rid :: t /\ guarded (tells (P rid) rid) [] t).
  { intros A k P out (started & rid & t & -> & Hx)%exec_start Hk. exists started, rid, t. split; [done|]. by destruct (Hk started rid t out Hx). }
  destruct s as [req|req b|req|req b]; intros (out & Hx); (eapply Hgo; [exact Hx|]); intros started rid.
  - apply told_then; [apply told_introspection|]. intros t1 [resp|]; [by apply safe_ret|].
    apply told_then; [apply told_gate|]. intros t2 [principal|resp]; [|by apply safe_ret].
    eapply told_bind with (Q := fun _ => True); [|].
    + unfold handle_with_capture. eapply told_bind; [apply told_engine|]. intros t3 [[r t]|] (calls & Hc); [|by apply safe_ret].
      apply told_then; [|intros; by apply safe_ret]. apply told_observe; [done|]. exists principal, calls. by exists r.
    + intros t3 [[result cap]|] _; [|by apply safe_ret]. apply told_then; [apply told_finish|intros; by apply safe_ret].
  - apply told_then; [apply told_gate|]. intros t1 [principal|resp]; [|by apply safe_ret].
    eapply told_bind; [apply told_engine|]. intros t2 [r t] (calls & Hc). apply told_streamed. exists principal, calls. by exists r.
  - apply told_then; [apply told_gate|]. intros t1 [principal|resp]; [|by apply safe_ret].
    eapply told_bind; [apply told_engine|]. intros t2 [r t] (calls & Hc). apply told_streamed. exists principal, calls. by exists r.
  - apply told_then; [apply told_gate|]. intros t1 [principal|resp]; [|by apply safe_ret].
    eapply told_bind; [apply told_engine|]. intros t2 [[r t]|] (calls & Hc); [|by apply safe_ret].
    apply told_call; [intros past a; split; [done|]; exists principal, calls; by exists r|]. intros u.
    apply told_then; [apply told_finish|intros; by apply safe_ret].
Qed.
End Request.

(** ** Many requests *)
Lemma join_owner {A B} (f : A -> option B) (ts : list (list A)) i j t u x :
  NoDup (omap f (mjoin ts)) -> ts !! i = Some t -> ts !! j = Some u -> x ∈ omap f t -> x ∈ omap f u -> i = j.
Proof.
  assert (Hin : forall (ts : list (list A)) k w, ts !! k = Some w -> x ∈ omap f w -> x ∈ omap f (mjoin ts)).
  { clear. intros ts k w Hw%list_elem_of_lookup_2 (a & Ha & He)%list_elem_of_omap. apply list_elem_of_omap. exists a.
    split; [|done]. apply list_elem_of_join. by exists w. }
  revert i j. induction ts as [|v ts IH]; intros [|i] [|j]; cbn [mjoin list_join]; rewrite ?omap_app, ?NoDup_app; try done.
  - intros (_ & Hd & _) [= ->] Hu Hx Hy. destruct (Hd x Hx). exact (Hin ts j u Hu Hy).
  - intros (_ & Hd & _) Ht [= ->] Hx Hy. destruct (Hd x Hy). exact (Hin ts i t Ht Hx).
  - intros (_ & _ & Hn) Ht Hu Hx Hy. f_equal. exact (IH i j Hn Ht Hu Hx Hy).
Qed.

Section Shared.
Context {Sd : Serde} {Si : SerdeInt} {Dv : DirectiveVerifier} {E : Type -> Type}.
Context (h : AppHandler) (engine : EngineRuns E).
#[local] Abbreviation sevent := (event_of (ServerCall E)).
Context (reqs : list Served) (ts : list (list sevent)) (run : list (Moment (E := E))).
Context (Hlen : (Z.of_nat (length run) <= u64_max)%Z) (Hreqs : Forall2 (entry_runs h engine) reqs ts).
Context (Hts : interleaving ts (events_of run)) (Hrun : serves stores_new run).

Definition draws (rid : RequestId) (t : list sevent) : Prop := Ev NextRequestId rid ∈ t.
Lemma draws_drawn rid t : draws rid t -> rid ∈ omap drawn t.
Proof. intros H. apply list_elem_of_omap. by exists (Ev NextRequestId rid). Qed.
Lemma owner_unique i j t u rid : ts !! i = Some t -> ts !! j = Some u -> draws rid t -> draws rid u -> i = j.
Proof.
  intros Hi Hj H1%draws_drawn H2%draws_drawn. eapply (join_owner drawn); [|exact Hi|exact Hj|exact H1|exact H2].
  rewrite <- (interleaving_perm _ _ Hts). apply (ids_fresh stores_new); [done|cbn; lia|exact Hrun].
Qed.
Lemma request_tells i s t : reqs !! i = Some s -> ts !! i = Some t ->
  exists rid, draws rid t /\ forall e, e ∈ t -> match e with Ev ReadClock _ | Ev NextRequestId _ => True | _ => tells (traced h engine s rid) rid t e end.
Proof.
  intros Hs Ht. pose proof (Forall2_lookup_lr _ _ _ _ _ _ Hreqs Hs Ht) as H.
  destruct (entry_tells h engine s t H) as (started & rid & t' & -> & Hg). exists rid. split; [right; by left|].
  intros e [->|[->|He]%elem_of_cons]%elem_of_cons; [done..|].
  pose proof (guarded_elem _ _ _ _ (tells_mono _ rid) Hg He) as Hx. rewrite app_nil_r in Hx.
  assert (Hy : tells (traced h engine s rid) rid (Ev ReadClock started :: Ev NextRequestId rid :: t') e).
  { eapply tells_mono; [|exact Hx]. set_solver. }
  destruct e as [B []]; done.
Qed.
Lemma in_run i t e : ts !! i = Some t -> e ∈ t -> e ∈ events_of run.
Proof.
  intros Ht He. rewrite (interleaving_perm _ _ Hts). apply list_elem_of_join. exists t. split; [done|]. by eapply list_elem_of_lookup_2.
Qed.
(** What is found under an id is what its request recorded. *)
Lemma found_is_traced rid doc : Ev (ExplainGet rid) (Some doc) ∈ events_of run ->
  exists i s t tr, reqs !! i = Some s /\ ts !! i = Some t /\ draws rid t /\ traced h engine s rid tr /\ doc = explain_json rid tr.
Proof.
  intros (pre & post & Heq)%did_at. destruct (explained _ _ _ _ _ Hrun Heq) as (tr & a & Hin & ->).
  rewrite (interleaving_perm _ _ Hts) in Hin. apply list_elem_of_join in Hin as (t & Hin & Ht).
  apply list_elem_of_lookup in Ht as (i & Ht). destruct (Forall2_lookup_r _ _ _ _ _ Hreqs Ht) as (s & Hs & _).
  destruct (request_tells i s t Hs Ht) as (rid' & Hd & Htell). destruct (Htell _ Hin) as [-> Htr]. by exists i, s, t, tr.
Qed.

(** ** Outcomes *)
(** The additions that are to a counter. *)
Definition adds_to (c : Counter) (e : sevent) : bool :=
  match c, e with
  | TotalRequests, Ev CountTotal _ => true
  | OkRequests, Ev (CountOutcome true) _ => true
  | ErrorRequests, Ev (CountOutcome false) _ => true
  | _, _ => false
  end.
Definition additions (c : Counter) (run : list (Moment (E := E))) : Z := Z.of_nat (length (List.filter (adds_to c) (events_of run))).
Lemma additions_snoc c run' x :
  additions c (run' ++ [x]) = (additions c run' + match x with Did e => if adds_to c e then 1 else 0 | _ => 0 end)%Z.
Proof.
  unfold additions. unfold events_of. rewrite omap_app, List.filter_app, length_app. destruct x as [e|]; cbn; [|lia].
  destruct (adds_to c e); cbn; lia.
Qed.
Lemma additions_counted c run' : load_counter (ss_metrics (after (E := E) stores_new run')) c = u64_wrap (additions c run').
Proof.
  unfold after. induction run' as [|x run' IH] using rev_ind; [by destruct c|]. rewrite after_run_snoc, additions_snoc.
  destruct x as [[B d a]|]; [|cbn; by rewrite Z.add_0_r]. destruct d as [ | | | | | | | | | | | | | |ok| | | | | | ];
    try (destruct c; cbn in *; rewrite IH, Z.add_0_r; done).
  - destruct c; cbn in *; rewrite IH; unfold u64_wrap; by rewrite ?Zplus_mod_idemp_l, ?Z.add_0_r.
  - destruct c, ok; cbn in *; rewrite IH; unfold u64_wrap; by rewrite ?Zplus_mod_idemp_l, ?Z.add_0_r.
Qed.
(** A request for the metrics loads each counter once, and answers with what it loaded. *)
Lemma metrics_request req t out :
  iq_path req = lit "/metrics" -> exec (server_handle h engine req) t out ->
  exists started rid pools total ok error,
    t = [Ev ReadClock started; Ev NextRequestId rid; Ev PoolStatsAll pools; Ev (LoadCounter TotalRequests) total;
         Ev (LoadCounter OkRequests) ok; Ev (LoadCounter ErrorRequests) error]
    /\ out = Some (response_json 200 (text (stats_json (MkStatsSnapshot total ok error pools)))).
Proof.
  intros Hp. unfold server_handle. intros (started & rid & t' & -> & (t1 & t2 & short & -> & Hi & Hx)%exec_bind)%exec_start.
  unfold introspection_route in Hi. rewrite Hp in Hi. cbn in Hi.
  destruct Hi as (pools & ? & -> & total & ? & -> & ok & ? & -> & error & ? & -> & -> & ->).
  destruct Hx as [-> ->]. by exists started, rid, pools, total, ok, error.
Qed.

(** C10: Requests observe themselves.  However concurrent requests interleave over the
    shared stores: every request has an id that no other has; what is logged for it is the
    document of its own trace, the one the engine made while it served that request under
    that id, and the tenant it is counted for is the partition the engine resolved in it; whoever reads an
    explanation gets, under an id, the trace of the request that has it; and whoever reads
    the metrics gets three numbers, each loaded by itself: each is how many additions to its
    counter had happened at the moment of its own load (the totals, and the outcomes of
    either kind), though between two of the loads other requests may count, so the three
    need not be of one moment. *)
Theorem requests_observe_themselves :
  (forall i s t, reqs !! i = Some s -> ts !! i = Some t -> exists rid,
     draws rid t /\ (forall j u, ts !! j = Some u -> draws rid u -> j = i)
     /\ (forall doc a, Ev (EmitLog doc) a ∈ t -> exists tr, traced h engine s rid tr /\ doc = explain_json rid tr)
     /\ (forall tenant ok nanos a, Ev (TenantRecord tenant ok nanos) a ∈ t ->
          exists tr, traced h engine s rid tr /\ resolved_partition tr = Some tenant))
  /\ (forall rid doc, Ev (ExplainGet rid) (Some doc) ∈ events_of run ->
     exists i s t tr, reqs !! i = Some s /\ ts !! i = Some t /\ draws rid t /\ traced h engine s rid tr /\ doc = explain_json rid tr)
  /\ (forall i req t out, reqs !! i = Some (Handled req) -> iq_path req = lit "/metrics" -> ts !! i = Some t ->
     exec (server_handle h engine req) t out -> exists started rid pools total ok error,
     t = [Ev ReadClock started; Ev NextRequestId rid; Ev PoolStatsAll pools; Ev (LoadCounter TotalRequests) total;
          Ev (LoadCounter OkRequests) ok; Ev (LoadCounter ErrorRequests) error]
     /\ out = Some (response_json 200 (text (stats_json (MkStatsSnapshot total ok error pools)))))
  /\ (forall pre c n post, run = pre ++ Did (Ev (LoadCounter c) n) :: post -> n = u64_wrap (additions c pre)).
Proof.
  split; [|split; [exact found_is_traced|split]].
  - intros i s t Hs Ht. destruct (request_tells i s t Hs Ht) as (rid & Hd & Htell). exists rid. split; [done|].
    split; [intros j u Hu Hdu; by eapply owner_unique|].
    assert (Hown : forall doc, Ev (ExplainGet rid) (Some doc) ∈ t -> exists tr, traced h engine s rid tr /\ doc = explain_json rid tr).
    { intros doc Hin. destruct (found_is_traced rid doc (in_run _ _ _ Ht Hin)) as (j & s' & u & tr & Hs' & Hu & Hdu & Htr & ->).
      rewrite (owner_unique j i u t rid Hu Ht Hdu Hd), Hs in Hs'. injection Hs' as <-. by exists tr. }
    split.
    + intros doc a Hin. apply Hown. exact (Htell _ Hin).
    + intros tenant ok nanos a Hin. destruct (Htell _ Hin) as (doc & Hg & Hres). destruct (Hown doc Hg) as (tr & Htr & ->). exists tr. by rewrite <- (tenant_of_explanation rid).
  - intros i req t out _ Hp _. by apply metrics_request.
  - intros pre c n post Heq. rewrite Heq in Hrun. pose proof (true_run_at _ _ _ _ _ _ Hrun) as Ht. cbn in Ht. rewrite Ht.
    apply (additions_counted c pre).
Qed.
End Shared.

(** ** Two requests at once *)
Section Runs.
#[local] Existing Instance scalar_wide.
#[local] Existing Instance publish_serde.
#[local] Existing Instance publish_int.
#[local] Existing Instance no_verifier.
Definition observed : AppHandler :=
  MkAppHandler (pipeline_new 7) pass_all false false None true true false LevelOff false false.
(** An engine that resolves the partition named like the index, and answers 201. *)
Definition resolved_as (p : PartitionId) : RequestTrace :=
  record_resolve (MkResolveInfo p (lit "shared_index") (lit "eu-1") (lit "shared") (MkEpoch 1) [] true (lit "settled")) trace_new.
Definition resolving : EngineRuns OneCall := {|
  run_handle ctx := await! _ := call (Upstream (logical_index ctx)) in
    Ret (Some (Ok (MkResponse 201 (lit "{}") None), resolved_as (logical_index ctx)));
  run_forward ctx b := Ret (Err (ReqSpi (SpiUnsupportedEndpoint (ctx_endpoint ctx))), trace_new);
  run_search ctx := Ret (Err (ReqSpi (SpiUnsupportedEndpoint (ctx_endpoint ctx))), trace_new);
  run_bulk ctx b := Ret None
|}.
Definition put_for (tenant : str) : IngressRequest :=
  MkIngressRequest Put Http1 (lit "/t/_doc/1") IngestDoc tenant (Some (lit "1")) [] (lit "{}") None None true.
Definition stores_world : world_of (ServerCall OneCall) (Stores) := fun B c s =>
  (match c in ServerCall _ B return B with
   | Authenticate c => Ok (principal_new (lit "ci"))
   | Authorize p a => Ok tt
   | NextRequestId => (next_request_id s).1
   | ReadClock => MkInstant 0
   | EngineCall c => match c in OneCall B return B with Upstream _ => tt end
   | ExplainRecord _ _ => tt
   | ExplainGet rid => explain_get (ss_explain s) rid
   | TapeCapture _ => tt
   | TapeSnapshot => bg_entries (ss_tape s)
   | EmitDiagnostic _ => tt
   | ExportSpan _ _ => tt
   | LoadDirectives => store_load (ss_directives s)
   | PublishDirectives _ => tt
   | CountTotal => tt
   | CountOutcome _ => tt
   | LoadCounter c => load_counter (ss_metrics s) c
   | PoolStatsAll => []
   | TenantRecord _ _ _ => tt
   | TenantText => []
   | EmitLog _ => tt
   | TeeCapture _ _ _ => tt
   end, call_effect c s).
Definition acme_run := interp stores_world (server_handle observed resolving (put_for (lit "acme"))) stores_new.
Definition globex_run := interp stores_world (server_handle observed resolving (put_for (lit "globex"))) acme_run.2.
Definition get_metrics : IngressRequest :=
  MkIngressRequest Get Http1 (lit "/metrics") Admin [] None [] [] None None true.
Definition scrape_trace : list (event_of (ServerCall OneCall)) :=
  [Ev ReadClock (MkInstant 0); Ev NextRequestId (lit "req-3"); Ev PoolStatsAll []; Ev (LoadCounter TotalRequests) 1%Z;
   Ev (LoadCounter OkRequests) 0%Z; Ev (LoadCounter ErrorRequests) 0%Z].
(** The second begins while the first is under way, and a scrape loads the counters while
    the first is being counted: it sees it in the total, and not yet among the outcomes. *)
Definition until_counted : nat := 7.
Definition both_events : list (event_of (ServerCall OneCall)) :=
  take 2 acme_run.1.1 ++ take 2 globex_run.1.1 ++ take until_counted (drop 2 acme_run.1.1) ++ scrape_trace
  ++ drop until_counted (drop 2 acme_run.1.1) ++ drop 2 globex_run.1.1.
Definition both : list Moment := Did <$> both_events.
Definition both_requests : list Served := [Handled (put_for (lit "acme")); Handled (put_for (lit "globex")); Handled get_metrics].
Definition both_traces : list (list (event_of (ServerCall OneCall))) := [acme_run.1.1; globex_run.1.1; scrape_trace].

Lemma interleaving_part (a t : list (event_of (ServerCall OneCall))) ts1 ts2 tr :
  interleaving (ts1 ++ t :: ts2) tr -> interleaving (ts1 ++ (a ++ t) :: ts2) (a ++ tr).
Proof. intros H. induction a as [|e a IH]; [done|]. exact (interleaving_step ts1 e (a ++ t) ts2 (a ++ tr) IH). Qed.
Lemma interleaving_last (a : list (event_of (ServerCall OneCall))) ts1 ts2 tr :
  interleaving (ts1 ++ [] :: ts2) tr -> interleaving (ts1 ++ a :: ts2) (a ++ tr).
Proof. intros H. rewrite <- (app_nil_r a) at 1. by apply interleaving_part. Qed.
Lemma both_interleave : interleaving both_traces (events_of both).
Proof.
  assert (Hd : forall l : list (event_of (ServerCall OneCall)), omap did (Did <$> l) = l).
  { induction l as [|e l IH]; [done|]. cbn. by rewrite IH. }
  unfold events_of, both. rewrite Hd. unfold both_traces, both_events.
  rewrite <- (take_drop 2 acme_run.1.1), <- (take_drop 2 globex_run.1.1) at 1.
  apply (interleaving_part (take 2 acme_run.1.1) (drop 2 acme_run.1.1) []).
  apply (interleaving_part (take 2 globex_run.1.1) (drop 2 globex_run.1.1) [drop 2 acme_run.1.1]).
  rewrite <- (take_drop until_counted (drop 2 acme_run.1.1)) at 1.
  apply (interleaving_part (take until_counted (drop 2 acme_run.1.1)) _ []).
  apply (interleaving_last scrape_trace [_; _] []), (interleaving_last _ [] [_; _]).
  rewrite <- (app_nil_r (drop 2 globex_run.1.1)) at 2. apply (interleaving_last _ [_] [_]). by repeat constructor.
Qed.
Lemma both_serve : serves stores_new both.
Proof. repeat (first [split | reflexivity | exact I]). Qed.
Lemma scrape_runs : exec (server_handle observed resolving get_metrics) scrape_trace
  (Some (response_json 200 (text (stats_json (MkStatsSnapshot 1 0 0 []))))).
Proof.
  unfold scrape_trace. eexists _, _. split; [reflexivity|]. eexists _, _. split; [reflexivity|].
  eexists _, _. split; [reflexivity|]. eexists _, _. split; [reflexivity|]. eexists _, _. split; [reflexivity|].
  eexists _, _. split; [reflexivity|]. by split.
Qed.
Lemma both_run : Forall2 (entry_runs observed resolving) both_requests both_traces.
Proof.
  repeat constructor; eexists.
  - exact (interp_exec stores_world (server_handle observed resolving (put_for (lit "acme"))) stores_new).
  - exact (interp_exec stores_world (server_handle observed resolving (put_for (lit "globex"))) acme_run.2).
  - exact scrape_runs.
Qed.
Lemma requests_observe_themselves_witness :
  (forall i s t, both_requests !! i = Some s -> both_traces !! i = Some t -> exists rid,
     draws rid t /\ (forall j u, both_traces !! j = Some u -> draws rid u -> j = i)
     /\ (forall doc a, Ev (EmitLog doc) a ∈ t -> exists tr, traced observed resolving s rid tr /\ doc = explain_json rid tr)
     /\ (forall tenant ok nanos a, Ev (TenantRecord tenant ok nanos) a ∈ t ->
          exists tr, traced observed resolving s rid tr /\ resolved_partition tr = Some tenant))
  /\ (forall rid doc, Ev (ExplainGet rid) (Some doc) ∈ events_of both ->
     exists i s t tr, both_requests !! i = Some s /\ both_traces !! i = Some t /\ draws rid t
       /\ traced observed resolving s rid tr /\ doc = explain_json rid tr)
  /\ (forall i req t out, both_requests !! i = Some (Handled req) -> iq_path req = lit "/metrics" -> both_traces !! i = Some t ->
     exec (server_handle observed resolving req) t out -> exists started rid pools total ok error,
     t = [Ev ReadClock started; Ev NextRequestId rid; Ev PoolStatsAll pools; Ev (LoadCounter TotalRequests) total;
          Ev (LoadCounter OkRequests) ok; Ev (LoadCounter ErrorRequests) error]
     /\ out = Some (response_json 200 (text (stats_json (MkStatsSnapshot total ok error pools)))))
  /\ (forall pre c n post, both = pre ++ Did (Ev (LoadCounter c) n) :: post -> n = u64_wrap (additions c pre)).
Proof.
  apply (requests_observe_themselves observed resolving both_requests both_traces both).
  - vm_compute. discriminate.
  - exact both_run.
  - exact both_interleave.
  - exact both_serve.
Defined.
(** Each is counted for its own tenant, and the log has both; the scrape has the torn
    numbers, one request in all and none with an outcome. *)
Example both_are_counted :
  omap (fun e : event_of (ServerCall OneCall) => match e with Ev (TenantRecord t _ _) _ => Some t | _ => None end) (events_of both)
  = [lit "acme"; lit "globex"]
  /\ length (List.filter (fun e : event_of (ServerCall OneCall) => match e with Ev (EmitLog _) _ => true | _ => false end) (events_of both)) = 2
  /\ ss_metrics (after stores_new both) = MkMetrics 2 2 0.
Proof. vm_compute. by repeat split. Qed.
End Runs.
