(* ===== verification/Proxy.v ===== *)
(** * The proxy, end to end

    The transport's program, each call of its handler handled by the server's program over
    the engine, and each call of the engine handled by the HTTP sink: from the request a
    client sends to the requests that leave for the upstreams. *)
From stdpp Require Import base option list strings numbers sets gmap pretty.
From Stdlib Require Import Ascii ZArith Lia.
From S2P Require Import Prelude.
From S2P Require Import JsonScan.
From S2P Require Import JsonProps.
From S2P Require Import CoreTypes.
From S2P Require Import Serde.
From S2P Require Import ToySerde.
From S2P Require Import Bulk.
From S2P Require Import Spi.
From S2P Require Import Sink.
From S2P Require Import Breaker.
From S2P Require Import SearchScan.
From S2P Require Import Prog.
From S2P Require Import Effects.
From S2P Require Import HttpSink.
From S2P Require Import AsyncWrite.
From S2P Require Import BulkLedger.
From S2P Require Import BulkStream.
From S2P Require Import ReqTrace.
From S2P Require Import CursorBody.
From S2P Require Import Observe.
From S2P Require Import Engine.
From S2P Require Import EngineSafe.
From S2P Require Import StreamSafe.
From S2P Require Import Wire.
From S2P Require Import Ingress.
From S2P Require Import Server.

Open Scope osp_scope.

(** The calls of the whole: of the memory budget, and of the serving stack. *)
Inductive ProxyCall `{Sd : Serde} : Type -> Type :=
| Shared {B : Type} (c : IngressCall B) : ProxyCall B
| Serving {B : Type} (c : ServerCall WireCall B) : ProxyCall B.

Section Proxy.
Context {Sd : Serde} {Si : SerdeInt} {Ss : SerdeString} {W : Wide} {M : Memchr} {Mm : Memmem} {R : Router}
  {H : HttpTypes} {Dv : DirectiveVerifier}.
Context (h : AppHandler).
#[local] Abbreviation p := (h_pipeline h).
#[local] Existing Instance server_handler.

(** The engine over the HTTP sink, as the handler runs it. *)
Definition wired_engine : EngineRuns WireCall := {|
  run_handle ctx := served (handle p ctx);
  run_forward ctx b := served (forward_streamed p ctx b);
  run_search ctx := served (search_streamed p ctx);
  run_bulk ctx b := served (await! o := handle_bulk_streamed p ctx b in
                            Ret (match o with Returned r => Some r | _ => None end))
|}.
Definition serving {A} (m : prog_of (ServerCall WireCall) A) : prog_of ProxyCall A := renaming (@Serving Sd) m.
Definition app_call {B} (c : IngressCall B) : prog_of ProxyCall B :=
  match c in IngressCall B return prog_of ProxyCall B with
  | HandleForward req b => serving (server_forward h wired_engine req b)
  | HandleBulkStream req b => serving (server_bulk_stream h wired_engine req b)
  | HandleSearchStream req => serving (server_search_stream h wired_engine req)
  | Handle req => serving (server_handle h wired_engine req)
  | c => call (Shared c)
  end.
Definition proxied (req : HyperRequest) (conn : ConnInfo) (limits : IngressLimits) : prog_of ProxyCall (option StreamingResponse) :=
  handling (@app_call) (serve_request (Ih := server_handler h) req conn limits).

(** An HTTP request that leaves. *)
Definition leaves (e : event_of ProxyCall) : option (ClusterId * bool * HttpRequest) :=
  match e with
  | Ev (Serving (EngineCall c)) b => exchanged (Ev c b)
  | _ => None
  end.
(** The client was authenticated as [principal], who may do this. *)
Definition accepted (req : IngressRequest) (principal : Principal) (tr : list (event_of ProxyCall)) : Prop :=
  Ev (Serving (Authenticate (credentials_from req))) (Ok principal) ∈ tr
  /\ Ev (Serving (Authorize principal (action_of req))) (Ok tt) ∈ tr
  /\ (require_tls_for_mutation h = true -> is_tenancy_aware (iq_endpoint req) = true -> iq_secure req = true).
(** A call of the engine for [ctx] that may go upstream: an isolated one, or the request
    itself under the passthrough policy, to the policy's cluster. *)
Definition lawful (ctx : RequestCtx) (past : list event) (e : event) : Prop :=
  isolated p ctx past e
  \/ exists policy, passthrough_policy p = Some policy /\ matches_index policy (logical_index ctx) = true
     /\ match e with
        | Ev (SinkCursor op) _ => cu_cluster op = pp_cluster policy /\ cu_path op = ctx_path ctx /\ cu_body op = ctx_body ctx
        | Ev (SinkForwardStream op _) _ => fo_cluster op = pp_cluster policy /\ fo_path op = ctx_path ctx
        | _ => False
        end.

(** ** The calls of the engine *)
Lemma guarded_lawful ctx calls : guarded (isolated p ctx) [] calls -> forall x, x ∈ calls -> lawful ctx calls x.
Proof. intros Hg x Hx. left. by apply isolated_elem. Qed.
Lemma handle_lawful ctx calls out : exec (handle p ctx) calls out -> forall x, x ∈ calls -> lawful ctx calls x.
Proof.
  intros (o & Ho & _)%exec_handle. destruct (forwarded_dec p ctx) as [(policy & H1 & H2)|Hf].
  - rewrite (dispatch_forwards _ _ _ policy H1 H2) in Ho. destruct Ho as (a & tr' & -> & Hx).
    intros x Hin. right. exists policy. split; [done|]. split; [done|].
    assert (tr' = []) as -> by (destruct a; cbn in Hx; by destruct Hx as [-> _]).
    by apply list_elem_of_singleton in Hin as ->.
  - apply guarded_lawful. by destruct (dispatch_isolated p ctx _ _ _ Hf Ho).
Qed.
Lemma forward_lawful ctx b calls out :
  is_passthrough p (logical_index ctx) = true -> exec (forward_streamed p ctx b) calls out ->
  forall x, x ∈ calls -> lawful ctx calls x.
Proof.
  unfold is_passthrough, forward_streamed. destruct (passthrough_policy p) as [policy|] eqn:Hp; [|done].
  intros Hm (a & tr' & -> & Hx) x Hin. right. exists policy. split; [done|]. split; [done|].
  assert (tr' = []) as -> by (destruct a; cbn in Hx; by destruct Hx as [-> _]).
  by apply list_elem_of_singleton in Hin as ->.
Qed.
Lemma stream_lawful ctx b calls out : exec (handle_bulk_streamed p ctx b) calls out -> forall x, x ∈ calls -> lawful ctx calls x.
Proof. intros Hx. by eapply guarded_lawful, bulk_streamed_isolated. Qed.
Lemma search_lawful ctx calls out : exec (search_streamed p ctx) calls out -> forall x, x ∈ calls -> lawful ctx calls x.
Proof. intros Hx. by eapply guarded_lawful, search_streamed_isolated. Qed.

(** ** The requests of the server *)

(** A run of the engine at one of its four entry points; [frames] is the body where it is
    streamed, and the passthrough policy is asked before a body is forwarded. *)
Definition engine_runs (ctx : RequestCtx) (frames : ByteBody) (calls : list event) : Prop :=
  (exists out, exec (handle p ctx) calls out)
  \/ (exists out, exec (search_streamed p ctx) calls out)
  \/ (exists out, exec (handle_bulk_streamed p ctx frames) calls out)
  \/ is_passthrough p (logical_index ctx) = true /\ exists out, exec (forward_streamed p ctx frames) calls out.
Lemma engine_runs_lawful ctx frames calls : engine_runs ctx frames calls -> forall x, x ∈ calls -> lawful ctx calls x.
Proof.
  intros [(out & Hx)|[(out & Hx)|[(out & Hx)|[Hp (out & Hx)]] ]].
  - by eapply handle_lawful.
  - by eapply search_lawful.
  - by eapply stream_lawful.
  - by eapply forward_lawful.
Qed.
(** An event of the engine over its sink, in a run of the proxy. *)
Definition in_proxy (w : event_of WireCall) : event_of ProxyCall := match w with Ev c b => Ev (Serving (EngineCall c)) b end.
(** How a request left: in the run [tr], the engine ran for [ctx] with the calls [calls];
    [ws], in that run, is what the calls became over HTTP, the answers of the router, the
    gate and the queue among it; and the request is an event of the part [t] of [ws] by
    which the sink carried out one of the calls, which is as [fit] asks. *)
Definition sent_for (fit : list event -> event -> Prop) (ctx : RequestCtx) (frames : ByteBody)
    (tr : list (event_of ProxyCall)) (e : event_of ProxyCall) (c : ClusterId) (h2 : bool) (hreq : HttpRequest) : Prop :=
  exists calls ws, engine_runs ctx frames calls
  /\ Handled (@sink_call _ _ _) calls ws /\ (forall w, w ∈ ws -> in_proxy w ∈ tr)
  /\ (forall x w, x ∈ calls -> outer_event x = Some w -> in_proxy w ∈ tr)
  /\ exists x t w, x ∈ calls /\ fit calls x /\ e = in_proxy w /\ w ∈ t /\ t ⊆ ws /\ sent_by x t c h2 hreq.
Lemma sent_for_subset fit fit' ctx frames t tr e c h2 hreq :
  t ⊆ tr -> (forall calls x, fit calls x -> fit' calls x) ->
  sent_for fit ctx frames t e c h2 hreq -> sent_for fit' ctx frames tr e c h2 hreq.
Proof.
  intros Hs Hf (calls & ws & H1 & H2 & H3 & H4 & x & u & w & H5 & H6 & H7). exists calls, ws. split_and!; eauto 10.
Qed.
Definition accounted_for (req : IngressRequest) (frames : ByteBody) (tr : list (event_of ProxyCall)) (e : event_of ProxyCall)
    (c : ClusterId) (h2 : bool) (hreq : HttpRequest) : Prop :=
  exists principal rid, accepted req principal tr
  /\ sent_for (lawful (ctx_of h req principal rid)) (ctx_of h req principal rid) frames tr e c h2 hreq.
Lemma accounted_subset req frames t tr e c h2 hreq :
  t ⊆ tr -> accounted_for req frames t e c h2 hreq -> accounted_for req frames tr e c h2 hreq.
Proof.
  intros Hs (principal & rid & (H1 & H2 & H3) & Hx). exists principal, rid. split; [repeat split; auto|].
  eapply sent_for_subset; [exact Hs| |exact Hx]. done.
Qed.

(** A run of the server that passed the gate, with the engine's calls in it. *)
Lemma serving_sends {A} (m : prog_of (ServerCall WireCall) A) (runs : RequestCtx -> list (event_of WireCall) -> Prop) req frames t b e c h2 hreq :
  (forall ts x, exec m ts x -> authorized h runs req ts) ->
  (forall principal rid ws, runs (ctx_of h req principal rid) ws ->
     exists calls, engine_runs (ctx_of h req principal rid) frames calls /\ Handled (@sink_call _ _ _) calls ws) ->
  exec (serving m) t b -> e ∈ t -> leaves e = Some (c, h2, hreq) -> accounted_for req frames t e c h2 hreq.
Proof.
  intros Ha Hr (ts & Hx & Hp)%exec_renaming Hin Hl. rewrite Hp in Hin. apply list_elem_of_fmap in Hin as ([B s x] & -> & Hin).
  destruct s as [ | | | |? w| | | | | | | | | | | | | | | | ]; try done. cbn [leaves renamed] in Hl.
  assert (Hw : Ev w x ∈ engine_events ts) by (apply list_elem_of_omap; by exists (Ev (EngineCall w) x)).
  destruct (Ha _ _ Hx) as [Hnone|(t1 & t2 & principal & rid & ws & -> & (Hq & G1 & G2 & G3) & Hpw & Hruns)].
  { rewrite Hnone in Hw. by apply not_elem_of_nil in Hw. }
  assert (Hl1 : forall s, s ∈ t1 ++ t2 -> renamed (@Serving Sd) s ∈ t).
  { intros s Hs. rewrite Hp. apply list_elem_of_fmap. by exists s. }
  exists principal, rid. split.
  - split_and!; [|by apply (Hl1 (Ev _ _)), elem_of_app; left|exact G3]. by apply (Hl1 (Ev _ _)), elem_of_app; left.
  - rewrite engine_events_app, Hq in Hw. cbn [app] in Hw. destruct (Hr _ _ _ Hruns) as (calls & Hrun & Hh).
    assert (Hall : forall v, v ∈ ws -> in_proxy v ∈ t).
    { intros v Hv. rewrite <- Hpw in Hv. apply list_elem_of_omap in Hv as ([B' s' x'] & Hs & Hv).
      destruct s'; try done. injection Hv as <-. apply (Hl1 (Ev _ _)), elem_of_app. by right. }
    rewrite Hpw in Hw. destruct (handled_served _ _ Hh) as (_ & Hout & Hsent).
    destruct (Hsent _ _ _ _ Hw Hl) as (y & u & Hy & Hu & Hsub & Hby). exists calls, ws. split_and!; [done..|by eauto|].
    exists y, u, (Ev w x). split_and!; try done. by eapply engine_runs_lawful.
Qed.
Lemma served_run_of {A} (m : prog A) ctx frames ws :
  (forall calls out, exec m calls out -> engine_runs ctx frames calls) -> (exists x, exec (served m) ws x) ->
  exists calls, engine_runs ctx frames calls /\ Handled (@sink_call _ _ _) calls ws.
Proof. intros Hm (x & (calls & He & Hh & _)%served_calls). exists calls. eauto. Qed.
Lemma handle_accounted req frames t b e c h2 hreq :
  exec (serving (server_handle h wired_engine req)) t b -> e ∈ t -> leaves e = Some (c, h2, hreq) ->
  accounted_for req frames t e c h2 hreq.
Proof.
  eapply serving_sends; [apply handle_authorized|]. intros principal rid ws. apply served_run_of. intros calls out Hx. left. by exists out.
Qed.
Lemma search_accounted req frames t b e c h2 hreq :
  exec (serving (server_search_stream h wired_engine req)) t b -> e ∈ t -> leaves e = Some (c, h2, hreq) ->
  accounted_for req frames t e c h2 hreq.
Proof.
  eapply serving_sends; [apply search_authorized|]. intros principal rid ws. apply served_run_of. intros calls out Hx. right; left. by exists out.
Qed.
Lemma bulk_accounted req body t b e c h2 hreq :
  exec (serving (server_bulk_stream h wired_engine req body)) t b -> e ∈ t -> leaves e = Some (c, h2, hreq) ->
  accounted_for req body t e c h2 hreq.
Proof.
  eapply serving_sends; [apply bulk_authorized|]. intros principal rid ws. apply served_run_of.
  intros calls out (t1 & t2 & o & -> & Ho & -> & _)%exec_bind. rewrite app_nil_r. right; right; left. by exists o.
Qed.
Lemma forward_accounted req body t b e c h2 hreq :
  is_passthrough p (iq_logical_index req) = true ->
  exec (serving (server_forward h wired_engine req body)) t b -> e ∈ t -> leaves e = Some (c, h2, hreq) ->
  accounted_for req body t e c h2 hreq.
Proof.
  intros Hp. eapply serving_sends; [apply forward_authorized|]. intros principal rid ws. apply served_run_of.
  intros calls out Hx. right; right; right. split; [exact Hp|]. by exists out.
Qed.

(** ** The transport *)

(** The body of the request the handler is given: none where the body is streamed, and
    else what was collected of the client's body. *)
Definition body_read (req : HyperRequest) (limits : IngressLimits) (b : bytes) : Prop :=
  b = [] \/ collect_limited (max_body_bytes limits) (hy_body req) = Some b.
(** The calls the transport makes of its handler: for the request it has parsed, with the
    body it has read, if it reads one, or the client's body as it streams; forwarded only
    under the passthrough policy. *)
Definition parsed (req : HyperRequest) (conn : ConnInfo) (limits : IngressLimits) (e : event_of IngressCall) : Prop :=
  match e with
  | Ev (HandleForward iq b) _ => exists m, map_method (hy_method req) = Some m /\ iq = head_of m req conn /\ b = hy_body req
      /\ is_passthrough p (iq_logical_index iq) = true
  | Ev (HandleBulkStream iq b) _ => exists m, map_method (hy_method req) = Some m /\ iq = head_of m req conn /\ b = hy_body req
  | Ev (HandleSearchStream iq) _ | Ev (Handle iq) _ =>
      exists m b, map_method (hy_method req) = Some m /\ iq = with_body (head_of m req conn) b
      /\ collect_limited (max_body_bytes limits) (hy_body req) = Some b
  | _ => True
  end.
Lemma serve_parsed req conn limits tr out :
  exec (serve_request (Ih := server_handler h) req conn limits) tr out -> Forall (parsed req conn limits) tr.
Proof.
  unfold serve_request. destruct (map_method (hy_method req)) as [m|] eqn:Hm; [|by intros [-> _]]. set (head := head_of m req conn).
  destruct (forward_plan _ _) eqn:Hf.
  { intros (x & ? & -> & -> & _). constructor; [|constructor]. exists m. split; [done|]. split; [done|]. split; [done|].
    cbn in Hf. by do 2 (case_match; [done|]). }
  destruct (match _ with Some n => _ | None => _ end); [by intros [-> _]|]. destruct (wants_bulk_stream _ _).
  { intros (x & ? & -> & -> & _). constructor; [|constructor]. by exists m. }
  unfold serve_buffered. intros (ok & ? & -> & Hx). constructor; [done|]. destruct ok; cbn [negb] in Hx; [|by destruct Hx as [-> _]].
  destruct (collect_limited _ _) as [b|] eqn:Hb; [|destruct Hx as (y & ? & -> & -> & _); by repeat constructor].
  destruct (wants_search_stream _ _); destruct Hx as (o & ? & -> & y & ? & -> & -> & _); constructor; try (by repeat constructor); by exists m, b.
Qed.

(** The transport's calls, with the run of the application inside each. *)
Lemma proxied_event req conn limits tr out e :
  exec (proxied req conn limits) tr out -> e ∈ tr ->
  exists B (c : IngressCall B) b t, parsed req conn limits (Ev c b) /\ exec (app_call c) t b /\ e ∈ t /\ t ⊆ tr.
Proof.
  intros (calls & He & Hh)%handling_refines Hin.
  destruct (Handled_part _ _ _ _ Hh Hin) as ([B x b] & t & Hc & Ht & Het & Hsub). exists B, x, b, t.
  split; [|done]. by apply (proj1 (Forall_forall _ _) (serve_parsed _ _ _ _ _ He)).
Qed.
Lemma proxied_accounted req conn limits tr out e c h2 hreq :
  exec (proxied req conn limits) tr out -> e ∈ tr -> leaves e = Some (c, h2, hreq) ->
  exists m b, map_method (hy_method req) = Some m /\ body_read req limits b
  /\ accounted_for (with_body (head_of m req conn) b) (hy_body req) tr e c h2 hreq.
Proof.
  intros Hx Hin Hl. destruct (proxied_event _ _ _ _ _ _ Hx Hin) as (B & x & b & t & Hparsed & Ht & Het & Hsub).
  assert (Hgoal : forall m b, map_method (hy_method req) = Some m -> body_read req limits b ->
    accounted_for (with_body (head_of m req conn) b) (hy_body req) t e c h2 hreq ->
    exists m b, map_method (hy_method req) = Some m /\ body_read req limits b
    /\ accounted_for (with_body (head_of m req conn) b) (hy_body req) tr e c h2 hreq).
  { intros m b' Hm Hb Ha%(accounted_subset _ _ _ _ _ _ _ _ Hsub). by exists m, b'. }
  destruct x as [n|n|iq body|iq body|iq|iq]; cbn [app_call parsed] in Ht, Hparsed;
    try (apply exec_call in Ht as ->; by apply list_elem_of_singleton in Het as ->).
  - destruct Hparsed as (m & Hm & -> & -> & Hp). apply (Hgoal m []); [done|by left|]. by eapply forward_accounted.
  - destruct Hparsed as (m & Hm & -> & ->). apply (Hgoal m []); [done|by left|]. by eapply bulk_accounted.
  - destruct Hparsed as (m & b' & Hm & -> & Hb). apply (Hgoal m b'); [done|by right|]. by eapply search_accounted.
  - destruct Hparsed as (m & b' & Hm & -> & Hb). apply (Hgoal m b'); [done|by right|]. by eapply handle_accounted.
Qed.

(** A set of directives is published for the request the transport has parsed, by the guard
    of the admin surface. *)
Definition server_event (e : event_of ProxyCall) : option (event_of (ServerCall WireCall)) :=
  match e with Ev (Serving c) b => Some (Ev c b) | _ => None end.
Lemma serving_guarded {A} (m : prog_of (ServerCall WireCall) A) (P : event_of (ServerCall WireCall) -> Prop) t a B (c : ServerCall WireCall B) b :
  calls_only P m -> exec (serving m) t a -> Ev (Serving c) b ∈ t -> P (Ev c b).
Proof.
  intros Hm (ts & Hx & Hp)%exec_renaming Hin. rewrite Hp in Hin. apply list_elem_of_fmap in Hin as ([B' s x] & Heq & Hin).
  apply (f_equal (from_option P False ∘ server_event)) in Heq. cbn in Heq. rewrite Heq. exact (proj1 (Forall_forall _ _) (Hm _ _ Hx) _ Hin).
Qed.
Lemma proxied_publishes req conn limits tr out set :
  exec (proxied req conn limits) tr out -> Ev (Serving (PublishDirectives set)) tt ∈ tr ->
  exists m b, map_method (hy_method req) = Some m
  /\ may_publish (E := WireCall) h (with_body (head_of m req conn) b) (Ev (PublishDirectives set) tt).
Proof.
  intros Hx Hin. destruct (proxied_event _ _ _ _ _ _ Hx Hin) as (B & x & b & t & Hparsed & Ht & Het & _).
  destruct x as [n|n|iq body|iq body|iq|iq]; cbn [app_call parsed] in Ht, Hparsed;
    try (apply exec_call in Ht as ->; by apply list_elem_of_singleton in Het).
  - destruct (serving_guarded _ _ _ _ _ _ _ (proj1 (streams_guard h wired_engine iq body)) Ht Het).
  - destruct (serving_guarded _ _ _ _ _ _ _ (proj1 (proj2 (streams_guard h wired_engine iq body))) Ht Het).
  - destruct (serving_guarded _ _ _ _ _ _ _ (proj2 (proj2 (streams_guard h wired_engine iq []))) Ht Het).
  - destruct Hparsed as (m & b' & Hm & -> & _). exists m, b'. split; [done|]. exact (serving_guarded _ _ _ _ _ _ _ (handle_guard _ _ _) Ht Het).
Qed.

End Proxy.

(** ** A document, from the client to the wire *)
Section Runs.
#[local] Existing Instance scalar_wide.
#[local] Existing Instance bulk_serde.
#[local] Existing Instance bulk_int.
#[local] Existing Instance scanned_strings.
#[local] Existing Instance bulk_router.
#[local] Existing Instance any_http.
#[local] Existing Instance no_verifier.
Definition deployed : AppHandler :=
  MkAppHandler plain pass_all true false None false false false LevelOff false false.
Definition proxy_world : world_of ProxyCall nat := fun B c n =>
  match c in ProxyCall B return B * nat with
  | Shared c =>
      match c in IngressCall B return B * nat with
      | Reserve _ => (true, n)
      | Release _ => (tt, n)
      | HandleForward _ _ => (None, n)
      | HandleBulkStream _ _ => (None, n)
      | HandleSearchStream _ => (None, n)
      | Handle _ => (None, n)
      end
  | Serving c =>
      match c in ServerCall _ B return B * nat with
      | Authenticate c => (reference_authenticate {[ lit "t0k" := lit "ci" ]} c, n)
      | Authorize _ _ => (Ok tt, n)
      | NextRequestId => (lit "r3", n)
      | ReadClock => (MkInstant 0, n)
      | EngineCall c => wire_world _ c n
      | ExplainRecord _ _ => (tt, n)
      | ExplainGet _ => (None, n)
      | TapeCapture _ => (tt, n)
      | TapeSnapshot => ([], n)
      | EmitDiagnostic _ => (tt, n)
      | ExportSpan _ _ => (tt, n)
      | LoadDirectives => ([], n)
      | PublishDirectives _ => (tt, n)
      | CountTotal => (tt, n)
      | CountOutcome _ => (tt, n)
      | LoadCounter _ => (0%Z, n)
      | PoolStatsAll => ([], n)
      | TenantRecord _ _ _ => (tt, n)
      | TenantText => ([], n)
      | EmitLog _ => (tt, n)
      | TeeCapture _ _ _ => (tt, n)
      end
  end.
Definition document : bytes := body "{'k':'v','msg':'hi'}".
Definition put_document (token : str) : HyperRequest :=
  MkHyperRequest (lit "POST") (lit "/orders/_doc") None false
    [(lit "x-tenant", lit "acme"); (lit "authorization", lit "Bearer " ++ token); (lit "content-length", lit "20")]
    [Data document].
Definition secure_conn : ConnInfo := MkConnInfo None true.
Definition proxy_run (token : str) := interp proxy_world (proxied deployed (put_document token) secure_conn limits_default) 0.

(** The same request with a token nobody holds sends nothing. *)
Example proxied_requests :
  omap leaves (proxy_run (lit "t0k")).1.1
  = [(lit "eu-1", false, MkHttpRequest Put (lit "http://eu/shared/_doc/acme:v?routing=acme")
       (<[lit "x-tenant" := lit "acme"]> (<[lit "authorization" := lit "Bearer t0k"]> json_headers))
       [Data (body "{'_tenant':'acme','k':'v','msg':'hi'}")])]
  /\ (sr_status <$> (proxy_run (lit "t0k")).1.2) = Some 201%Z
  /\ omap leaves (proxy_run (lit "bad")).1.1 = [] /\ (sr_status <$> (proxy_run (lit "bad")).1.2) = Some 401%Z.
Proof. split_and!; vm_compute; reflexivity. Qed.
End Runs.
