(* ===== verification/Capturing.v ===== *)
(** * Capturing traffic ([crates/osproxy-capture], [osproxy-kafka], the delivery of [osproxy-kafka-krafka], [wrap_capture] of [osproxy-server/src/capture.rs] and [tee_capture] of its handler)

    The exchange a directive selects is recorded in full: a recorder is composed from a
    redaction layer, an envelope and a producer.  The broker's client, and serde's derived
    encoding of the envelope, are third-party code. *)
From stdpp Require Import base option list strings numbers sets gmap relations.
From Stdlib Require Import Ascii ZArith Lia.
From S2P Require Import Prelude.
From S2P Require Import Spi.
From S2P Require Import RawConfig.
From S2P Require Import Config.
From S2P Require Import Prog.
From S2P Require Import Retry.
From S2P Require Import FanoutQueue.
From S2P Require Import Ingress.
From S2P Require Import Server.

Open Scope osp_scope.

(** ** The seam: a recorder, over the state [S] it keeps *)
Record CaptureRecord : Type := MkCaptureRecord {
  cr_request_id : str; cr_method : HttpMethod; cr_path : str; cr_query : option str; cr_headers : list (str * str);
  cr_body : bytes; cr_response_status : Z; cr_response_body : bytes
}.
Record Capture (S : Type) : Type := MkCapture { enabled : bool; capture : CaptureRecord -> S -> S }.
Arguments MkCapture {S}.
Arguments enabled {S}.
Arguments capture {S}.

Definition no_capture {S} : Capture S := MkCapture false (fun _ s => s).
Definition capture_without_authorization (headers : list (str * str)) : list (str * str) :=
  List.filter (fun h => negb (eq_ignore_ascii_case h.1 (lit "authorization"))) headers.
Definition with_headers (r : CaptureRecord) (headers : list (str * str)) : CaptureRecord :=
  MkCaptureRecord (cr_request_id r) (cr_method r) (cr_path r) (cr_query r) headers (cr_body r) (cr_response_status r) (cr_response_body r).
Definition redacting_capture {S} (inner : Capture S) : Capture S :=
  MkCapture (enabled inner) (fun r s => capture inner (with_headers r (capture_without_authorization (cr_headers r))) s).
Record OwnedCapture : Type := MkOwnedCapture {
  oc_request_id : str; oc_method : HttpMethod; oc_path : str; oc_query : option str; oc_headers : list (str * str);
  oc_body : bytes; oc_response_status : Z; oc_response_body : bytes
}.
Definition owned_from_record (r : CaptureRecord) : OwnedCapture :=
  MkOwnedCapture (cr_request_id r) (cr_method r) (cr_path r) (cr_query r) (cr_headers r) (cr_body r) (cr_response_status r) (cr_response_body r).
Definition memory_capture : Capture (list OwnedCapture) := MkCapture true (fun r s => s ++ [owned_from_record r]).

(** ** The envelope, and where it goes *)
Record CaptureEnvelope : Type := MkCaptureEnvelope {
  ce_request_id : str; ce_method : str; ce_path : str; ce_query : option str; ce_headers : list (str * str);
  ce_body : bytes; ce_response_status : Z; ce_response_body : bytes
}.
(** The name that [derive(Debug)] writes, and [str::to_uppercase] on it. *)
Definition method_debug (m : HttpMethod) : str :=
  match m with
  | Get => lit "Get" | Put => lit "Put" | Post => lit "Post" | DeleteMethod => lit "Delete" | Head => lit "Head"
  end.
Definition envelope_from_record (r : CaptureRecord) : CaptureEnvelope :=
  MkCaptureEnvelope (cr_request_id r) (to_ascii_uppercase <$> method_debug (cr_method r)) (cr_path r) (cr_query r) (cr_headers r)
    (cr_body r) (cr_response_status r) (cr_response_body r).
(** [serde_json::to_vec] of an envelope. *)
Class EnvelopeCodec := { envelope_to_vec : CaptureEnvelope -> option bytes }.
Record Producer (S : Type) : Type := MkProducer { produce : str -> bytes -> bytes -> S -> Result unit ProduceError * S }.
Arguments MkProducer {S}.
Arguments produce {S}.
Definition in_memory_producer : Producer (list (str * bytes * bytes)) :=
  MkProducer (fun topic key payload s => (Ok tt, s ++ [(topic, key, payload)])).

Section Kafka.
Context {Ec : EnvelopeCodec} {S : Type}.
(** What producing answers is not looked at. *)
Definition kafka_capture (p : Producer S) (topic : str) : Capture S :=
  MkCapture true (fun r s =>
    let env := envelope_from_record r in
    match envelope_to_vec env with
    | None => s
    | Some payload => (produce p topic (ce_request_id env) payload s).2
    end).
Definition wrap_capture (p : Producer S) (cap : CaptureConfig) : Capture S :=
  let kafka := kafka_capture p (cap_topic cap) in
  if redact cap then redacting_capture kafka else kafka.

(** [tee_capture]: the exchange of a request and its answer. *)
Definition exchange (req : IngressRequest) (resp : IngressResponse) (rid : str) : CaptureRecord :=
  MkCaptureRecord rid (iq_method req) (iq_path req) (iq_query req) (iq_headers req) (iq_body req) (ir_status resp) (ir_body resp).
Definition tee_capture (c : Capture S) (req : IngressRequest) (resp : IngressResponse) (rid : str) (should_capture : bool) (s : S) : S :=
  if negb should_capture || negb (enabled c) then s else capture c (exchange req resp rid) s.

(** What goes on the capture topic. With redaction on, each selected exchange puts at
    most one record on the topic, under the request's id: the request and its answer as they
    were, body and all, except that no header named [authorization], in whatever case, is in
    it, and the other headers are all there in their order; a failing producer changes
    nothing for the request. An exchange that no directive selects puts nothing. *)
Theorem captured_traffic_is_redacted (p : Producer S) cap req resp rid (should_capture : bool) s :
  redact cap = true ->
  if should_capture then
    exists env, tee_capture (wrap_capture p cap) req resp rid should_capture s
      = match envelope_to_vec env with Some payload => (produce p (cap_topic cap) rid payload s).2 | None => s end
    /\ (forall h, h ∈ ce_headers env <-> h ∈ iq_headers req /\ eq_ignore_ascii_case h.1 (lit "authorization") = false)
    /\ ce_headers env `sublist_of` iq_headers req
    /\ ce_request_id env = rid /\ ce_path env = iq_path req /\ ce_query env = iq_query req /\ ce_body env = iq_body req
    /\ ce_response_status env = ir_status resp /\ ce_response_body env = ir_body resp
    /\ map_method (ce_method env) = Some (iq_method req)
  else tee_capture (wrap_capture p cap) req resp rid should_capture s = s.
Proof.
  intros Hr. destruct should_capture; [|done]. unfold tee_capture, wrap_capture. rewrite Hr. cbn [negb orb enabled redacting_capture kafka_capture].
  eexists. split; [reflexivity|]. cbn. split_and!; try done.
  - intros h. unfold capture_without_authorization. rewrite !list_elem_of_In, filter_In, negb_true_iff. done.
  - unfold capture_without_authorization. induction (iq_headers req) as [|h hs IH]; [constructor|]. cbn.
    destruct (negb _); by constructor.
  - by destruct (iq_method req).
Qed.
End Kafka.

(** ** Delivery to the broker: bounded attempts, bounded records in flight *)
Record DeliveryConfig : Type := MkDelivery { max_inflight : Z; max_attempts : Z; base_backoff : Z }.
Definition delivery_default : DeliveryConfig := MkDelivery 1024 4 50000000.
(** One attempt, [true] when the broker took it, and a sleep. *)
Inductive DeliveryCall : Type -> Type :=
| Attempt : DeliveryCall bool
| Pause (nanos : Z) : DeliveryCall unit.
(** [for attempt in 1..=max_attempts], with the turns that are left. *)
Fixpoint deliver_loop (turns : nat) (backoff : Z) : prog_of DeliveryCall unit :=
  match turns with
  | 0 => Ret tt
  | S turns =>
      await! ok := call Attempt in
      if ok then Ret tt
      else match turns with
           | 0 => Ret tt
           | _ => await! _ := call (Pause backoff) in deliver_loop turns (saturating_mul backoff 2)
           end
  end.
Definition deliver (cfg : DeliveryConfig) : prog_of DeliveryCall unit := deliver_loop (Z.to_nat (max_attempts cfg)) (base_backoff cfg).

(** The pause after the failure of an attempt, the first being 0. *)
Definition pause_after (base : Z) (i : nat) : Z := Z.min (base * 2 ^ Z.of_nat i) duration_max.
Definition failed_attempts (base : Z) (is_ : list nat) : trace_of DeliveryCall :=
  is_ ≫= (fun i => [Ev Attempt false; Ev (Pause (pause_after base i)) tt]).
Lemma pause_after_S base i : (0 <= base)%Z -> saturating_mul (pause_after base i) 2 = pause_after base (S i).
Proof.
  intros Hb. unfold saturating_mul, pause_after. rewrite Nat2Z.inj_succ, Z.pow_succ_r by lia.
  replace (base * (2 * 2 ^ Z.of_nat i))%Z with (base * 2 ^ Z.of_nat i * 2)%Z by lia.
  assert (0 <= base * 2 ^ Z.of_nat i)%Z by (apply Z.mul_nonneg_nonneg; lia).
  assert (0 <= duration_max)%Z by (unfold duration_max; lia). lia.
Qed.
Lemma deliver_loop_exec turns base i tr :
  (0 <= base)%Z ->
  exec (deliver_loop (S turns) (pause_after base i)) tr tt
  <-> exists n (taken : bool), n <= turns /\ (taken = false -> n = turns) /\ tr = failed_attempts base (seq i n) ++ [Ev Attempt taken].
Proof.
  intros Hb. revert i tr. induction turns as [|turns IH]; intros i tr; cbn [deliver_loop]; split.
  - intros ([] & tr' & -> & -> & _); [exists 0, true|exists 0, false]; (split; [lia|done]).
  - intros (n & taken & Hn & _ & ->). assert (n = 0) as -> by lia. by destruct taken; eexists _, _.
  - intros ([] & tr' & -> & Hx); [destruct Hx as [-> _]; exists 0, true; split; [lia|done]|].
    destruct Hx as ([] & tr'' & -> & Hx). rewrite pause_after_S in Hx by done.
    apply (IH (S i)) in Hx as (n & taken & Hn & Ht & ->). exists (S n), taken. split; [lia|]. split; [intros H; by rewrite Ht|done].
  - intros (n & taken & Hn & Ht & ->). destruct n as [|n].
    + destruct taken; [by eexists _, _|specialize (Ht eq_refl); lia].
    + exists false, (Ev (Pause (pause_after base i)) tt :: failed_attempts base (seq (S i) n) ++ [Ev Attempt taken]). split; [done|].
      exists tt, (failed_attempts base (seq (S i) n) ++ [Ev Attempt taken]). split; [done|]. rewrite pause_after_S by done.
      apply (IH (S i)). exists n, taken. split; [lia|]. split; [|done]. intros H. specialize (Ht H). lia.
Qed.

(** [Delivery::spawn] on a semaphore of [max_inflight] permits: a record takes a permit and
    its task gives it back, or there is none and it is dropped. *)
Record InFlight : Type := MkInFlight { permits : nat; delivering : nat; dropped : nat }.
Definition inflight_new (cfg : DeliveryConfig) : InFlight := MkInFlight (Z.to_nat (max_inflight cfg)) 0 0.
Definition saturated : ProduceError := MkProduceError (lit "capture buffer saturated, record dropped").
Definition delivery_spawn (s : InFlight) : Result unit ProduceError * InFlight :=
  match permits s with
  | 0 => (Err saturated, MkInFlight 0 (delivering s) (S (dropped s)))
  | S n => (Ok tt, MkInFlight n (S (delivering s)) (dropped s))
  end.
Inductive inflight_step : InFlight -> InFlight -> Prop :=
| record_produced s : inflight_step s (delivery_spawn s).2
| record_done p n d : inflight_step (MkInFlight p (S n) d) (MkInFlight (S p) n d).
Lemma inflight_bound cfg s : rtc inflight_step (inflight_new cfg) s -> permits s + delivering s = Z.to_nat (max_inflight cfg).
Proof.
  intros Hr. remember (inflight_new cfg) as s0 eqn:H0.
  assert (Hs : permits s0 + delivering s0 = Z.to_nat (max_inflight cfg)) by (rewrite H0; cbn; lia). clear H0.
  induction Hr as [s|s s' s'' Hs' _ IH]; [done|]. apply IH. destruct Hs' as [[[|p] n d]|p n d]; cbn in *; lia.
Qed.

(** Delivery is bounded in time and in memory. A record is tried until the broker takes
    it, at most [max_attempts] times, with pauses between the tries that double from
    [base_backoff] (and stop at the largest duration), and no pause after the last; and of
    the records produced, however produces and deliveries interleave, at most
    [max_inflight] are in flight: one more is refused exactly when that many are. *)
Theorem delivery_is_bounded cfg tr :
  (0 < max_attempts cfg)%Z -> (0 <= base_backoff cfg <= duration_max)%Z -> (0 <= max_inflight cfg)%Z ->
  (exec (deliver cfg) tr tt <->
     exists n (taken : bool), (Z.of_nat n < max_attempts cfg)%Z /\ (taken = false -> Z.of_nat n + 1 = max_attempts cfg)%Z
     /\ tr = failed_attempts (base_backoff cfg) (seq 0 n) ++ [Ev Attempt taken])
  /\ forall s, rtc inflight_step (inflight_new cfg) s ->
     (Z.of_nat (delivering s) <= max_inflight cfg)%Z
     /\ (is_ok (delivery_spawn s).1 = false <-> Z.of_nat (delivering s) = max_inflight cfg).
Proof.
  intros Ha Hb Hm. split.
  - unfold deliver. replace (base_backoff cfg) with (pause_after (base_backoff cfg) 0) at 1
      by (unfold pause_after; rewrite Z.mul_1_r, Z.min_l; [done|lia]).
    replace (Z.to_nat (max_attempts cfg)) with (S (Z.to_nat (max_attempts cfg - 1))) by lia. rewrite deliver_loop_exec by lia.
    split; intros (n & taken & H1 & H2 & ->); exists n, taken; (split; [lia|]; split; [|done]); intros H; specialize (H2 H); lia.
  - intros s Hr%inflight_bound. split; [lia|]. unfold delivery_spawn. destruct (permits s); cbn; split; (done || lia).
Qed.

(** ** Runs *)
Section Runs.
(** An encoding to run with: the method, the path, and the names of the headers. *)
#[local] Instance line_codec : EnvelopeCodec :=
  {| envelope_to_vec e := Some (ce_method e ++ lit " " ++ ce_path e ++ mjoin ((fun h => lit " " ++ h.1) <$> ce_headers e)) |}.
Definition topic_config (redacted : bool) : CaptureConfig :=
  Config.MkCapture [lit "k1"] (lit "traffic") redacted None 1024 4 50 None 0.
Definition captured_request : IngressRequest :=
  MkIngressRequest Post Http1 (lit "/orders/_doc") CoreTypes.IngestDoc (lit "orders") None
    [(lit "Accept", lit "*"); (lit "AUTHORIZATION", lit "Bearer t0k")] (lit "{}") None None true.
Definition captured (redacted : bool) : list (str * bytes * bytes) :=
  tee_capture (wrap_capture in_memory_producer (topic_config redacted)) captured_request (response_json 201 (lit "{}")) (lit "r1") true [].
Example captured_records :
  captured true = [(lit "traffic", lit "r1", lit "POST /orders/_doc Accept")]
  /\ captured false = [(lit "traffic", lit "r1", lit "POST /orders/_doc Accept AUTHORIZATION")].
Proof. split; vm_compute; reflexivity. Qed.
Lemma captured_traffic_is_redacted_witness :
  exists env, captured true
    = match envelope_to_vec env with Some payload => (produce in_memory_producer (lit "traffic") (lit "r1") payload []).2 | None => [] end
  /\ (forall h, h ∈ ce_headers env <-> h ∈ iq_headers captured_request /\ eq_ignore_ascii_case h.1 (lit "authorization") = false)
  /\ ce_headers env `sublist_of` iq_headers captured_request
  /\ ce_request_id env = lit "r1" /\ ce_path env = lit "/orders/_doc" /\ ce_query env = None /\ ce_body env = lit "{}"
  /\ ce_response_status env = 201%Z /\ ce_response_body env = lit "{}" /\ map_method (ce_method env) = Some Post.
Proof.
  apply (captured_traffic_is_redacted in_memory_producer (topic_config true) captured_request (response_json 201 (lit "{}")) (lit "r1") true []).
  reflexivity.
Defined.
Lemma delivery_is_bounded_witness :
  (exec (deliver delivery_default) [Ev Attempt false; Ev (Pause 50000000) tt; Ev Attempt true] tt <->
     exists n (taken : bool), (Z.of_nat n < 4)%Z /\ (taken = false -> Z.of_nat n + 1 = 4)%Z
     /\ [Ev Attempt false; Ev (Pause 50000000) tt; Ev Attempt true] = failed_attempts 50000000 (seq 0 n) ++ [Ev Attempt taken])
  /\ forall s, rtc inflight_step (inflight_new delivery_default) s ->
     (Z.of_nat (delivering s) <= 1024)%Z /\ (is_ok (delivery_spawn s).1 = false <-> Z.of_nat (delivering s) = 1024%Z).
Proof.
  apply (delivery_is_bounded delivery_default [Ev Attempt false; Ev (Pause 50000000) tt; Ev Attempt true]); cbn; unfold duration_max; lia.
Defined.
End Runs.
