(* ===== verification/CaptureLog.v ===== *)
(** * Captured exchanges, up to the broker ([attach] of [osproxy-server/src/capture.rs], [crates/osproxy-kafka-krafka], [crates/osproxy-kafka-wal])

    What [Capturing] records of a request is produced either into the log of [Wal], whose
    drainer sends it until the broker has acknowledged it, or to a delivery task of its own.
    The krafka client is third-party code: its sends are calls that the broker answers. *)
From stdpp Require Import base option list strings numbers relations gmap.
From Stdlib Require Import Ascii ZArith Lia.
From S2P Require Import Prelude.
From S2P Require Import Spi.
From S2P Require Import Config.
From S2P Require Import Retry.
From S2P Require Import Wal.
From S2P Require Import Prog.
From S2P Require Import FanoutQueue.
From S2P Require Import ReqTrace.
From S2P Require Import Ingress.
From S2P Require Import Capturing.

Open Scope osp_scope.

(** ** The krafka client *)
Record KafkaTls : Type := MkKafkaTls { kt_ca : str; kt_alpn : bool; kt_client : option (str * str) }.
Inductive KrafkaCall : Type -> Type :=
| KBuild (bootstrap client_id : str) (auth : option KafkaTls) : KrafkaCall bool
| KSend (topic : str) (key : option bytes) (payload : bytes) : KrafkaCall bool
| KSleep (nanos : Z) : KrafkaCall unit.
Definition krafka_connect (brokers : list str) (client_id : str) (auth : option KafkaTls) : prog_of KrafkaCall (Result unit ProduceError) :=
  await! built := call (KBuild (join (lit ",") brokers) client_id auth) in
  Ret (if (built : bool) then Ok tt else Err (MkProduceError (lit "connecting to the kafka brokers"))).
(** [AckProducer::send_acked]. *)
Definition send_acked (topic : str) (key payload : bytes) : prog_of KrafkaCall (Result unit ProduceError) :=
  await! sent := call (KSend topic (Some key) payload) in
  Ret (if (sent : bool) then Ok tt else Err (MkProduceError (lit "kafka send was not acknowledged"))).
(** [Producer::produce]: a slot, and the task that is spawned with it. *)
Definition attempt_call (topic : str) (key payload : bytes) B (c : DeliveryCall B) : KrafkaCall B :=
  match c with Attempt => KSend topic (Some key) payload | Pause nanos => KSleep nanos end.
Definition krafka_produce (cfg : DeliveryConfig) (topic : str) (key payload : bytes) (s : InFlight)
  : Result unit ProduceError * InFlight * option (prog_of KrafkaCall unit) :=
  let '(r, s) := delivery_spawn s in
  (r, s, match r with Ok _ => Some (renaming (attempt_call topic key payload) (Capturing.deliver cfg)) | Err _ => None end).

(** ** The librdkafka client ([crates/osproxy-kafka-rdkafka])

    A record is put in the client's queue, and the delivery callbacks are served for no
    time; [flush] serves them until the queue is empty or the time is over. *)
Inductive RdCall : Type -> Type :=
| RdCreate (bootstrap : str) : RdCall bool
| RdSend (topic : str) (key payload : bytes) : RdCall bool
| RdPoll (millis : Z) : RdCall unit
| RdFlush (millis : Z) : RdCall bool.
Definition rd_new (brokers : str) : prog_of RdCall (Result unit ProduceError) :=
  await! created := call (RdCreate brokers) in
  Ret (if (created : bool) then Ok tt else Err (MkProduceError (lit "creating the kafka producer"))).
Definition rd_flush (timeout_ms : Z) : prog_of RdCall unit := await! _ := call (RdFlush timeout_ms) in Ret tt.
Definition rd_produce (topic : str) (key payload : bytes) : prog_of RdCall (Result unit ProduceError) :=
  await! queued := call (RdSend topic key payload) in
  if (queued : bool) then await! _ := call (RdPoll 0) in Ret (Ok tt)
  else Ret (Err (MkProduceError (lit "enqueueing the kafka record"))).
(** A record is put in the queue once; when it is, the callbacks are served, and for no time. *)
Lemma rd_produce_exec topic key payload tr r :
  exec (rd_produce topic key payload) tr r <->
  (tr = [Ev (RdSend topic key payload) true; Ev (RdPoll 0) tt] /\ r = Ok tt)
  \/ (tr = [Ev (RdSend topic key payload) false] /\ r = Err (MkProduceError (lit "enqueueing the kafka record"))).
Proof.
  split.
  - intros ([] & tr' & -> & Hx); [|by destruct Hx as [-> ->]; right]. destruct Hx as ([] & ? & -> & -> & ->). by left.
  - intros [[-> ->]|[-> ->]]; [|by eexists false, _]. eexists true, _. split; [done|]. by eexists tt, _.
Qed.

(** ** [attach] *)
Definition millis (ms : Z) : Z := ms * 1000000.
Definition kafka_auth (tls : CaptureTlsConfig) : KafkaTls :=
  MkKafkaTls (ca_path tls) true
    (match client_cert_path tls, client_key_path tls with Some cert, Some key => Some (cert, key) | _, _ => None end).
Definition capture_connect (cap : CaptureConfig) : prog_of KrafkaCall (Result unit str) :=
  lift_err (fun e => lit "connecting capture producer: " ++ pe_reason e)
    (krafka_connect (cap_brokers cap) (lit "osproxy-capture") (kafka_auth <$> cap_tls cap)).
Definition capture_wal_config (cap : CaptureConfig) : WalConfig :=
  MkWalConfig (wal_max_bytes cap) (cfg_compact_threshold wal_config_default) (millis (backoff_ms cap))
    (max_backoff wal_config_default) (sync_interval wal_config_default).
Definition capture_delivery_config (cap : CaptureConfig) : DeliveryConfig :=
  MkDelivery (Config.max_inflight cap) (cap_max_attempts cap) (millis (backoff_ms cap)).

(** ** The durable producer

    [Producer::produce] of [DurableProducer]; [fault] is where the write of the log fails. *)
Definition durable_producer (fault : option nat) : Producer Durable :=
  MkProducer (fun topic key payload d =>
    let '(r, w) := append (d_wal d) topic key payload fault in
    match r with
    | Ok _ => (Ok tt, MkDurable w (drainer d) (d_backoff d) (accepted d ++ [(topic, key, payload)]) (delivered d))
    | Err _ => (Err (MkProduceError (lit "capture WAL full, record dropped")),
                MkDurable w (drainer d) (d_backoff d) (accepted d) (delivered d))
    end).

Section Durably.
Context {Ec : EnvelopeCodec} (cap : CaptureConfig).
#[local] Abbreviation cfg := (capture_wal_config cap).

(** What the drainer does with the answer of a send. *)
Definition after_send (r : WalRecord) (answer : Result unit ProduceError) (d : Durable) : Durable :=
  match answer with
  | Ok _ => MkDurable (d_wal d) (Acknowledged r) (d_backoff d) (accepted d) (delivered d ++ [entry r])
  | Err _ => MkDurable (d_wal d) Idle (Z.min (d_backoff d * 2) (max_backoff cfg)) (accepted d) (delivered d)
  end.

(** The log, the exchanges a directive has selected, and what the broker was sent. *)
Definition Exchange : Type := IngressRequest * IngressResponse * str.
Record Captured : Type := MkCaptured { c_log : Durable; c_selected : list Exchange; c_broker : trace_of KrafkaCall }.
Definition captured_new : Captured := MkCaptured (spawn cfg [] []) [] [].
(** A handler finishes a request; the drainer sends a record; it takes the next one, commits
    or compacts, or a new process opens the log. *)
Definition serve_exchange (req : IngressRequest) (resp : IngressResponse) (rid : str) (selected : bool) (fault : option nat) (d : Durable) : Durable :=
  tee_capture (wrap_capture (durable_producer fault) cap) req resp rid selected d.
Inductive captured_event : option Event -> Captured -> Captured -> Prop :=
| exchange_served d xs tr req resp rid (selected : bool) fault :
    captured_event (if selected then Some Produced else None) (MkCaptured d xs tr)
      (MkCaptured (serve_exchange req resp rid selected fault d) (if selected then xs ++ [(req, resp, rid)] else xs) tr)
| record_sent d xs tr r sent answer :
    drainer d = Sending r -> exec (send_acked (entry r).1.1 (entry r).1.2 (entry r).2) sent answer ->
    captured_event (Some Drained) (MkCaptured d xs tr) (MkCaptured (after_send r answer d) xs (tr ++ sent))
| log_turned d d' xs tr ev :
    durable_event cfg ev d d' -> ev <> Produced -> (ev = Drained -> forall r, drainer d <> Sending r) ->
    captured_event (Some ev) (MkCaptured d xs tr) (MkCaptured d' xs tr).
(** The orderly ones, as [orderly] says. *)
Definition captured_step (c c' : Captured) : Prop :=
  exists o, captured_event o c c' /\ match o with Some ev => orderly ev (c_log c) | None => True end.

(** A record of an exchange: under its id, an envelope of the request and its answer as
    they were, without its [authorization] headers. *)
Definition Recorded (x : Exchange) (e : Entry) : Prop :=
  let '(req, resp, rid) := x in
  exists env, e.1 = (cap_topic cap, rid) /\ envelope_to_vec env = Some e.2
  /\ (forall h, h ∈ ce_headers env <-> h ∈ iq_headers req /\ eq_ignore_ascii_case h.1 (lit "authorization") = false)
  /\ ce_headers env `sublist_of` iq_headers req
  /\ ce_request_id env = rid /\ ce_path env = iq_path req /\ ce_query env = iq_query req /\ ce_body env = iq_body req
  /\ ce_response_status env = ir_status resp /\ ce_response_body env = ir_body resp.
Definition acknowledged (e : event_of KrafkaCall) : option Entry :=
  match e with Ev (KSend topic (Some key) payload) ok => if (ok : bool) then Some (topic, key, payload) else None | _ => None end.
Definition sent_record (e : event_of KrafkaCall) : option Entry :=
  match e with Ev (KSend topic (Some key) payload) _ => Some (topic, key, payload) | _ => None end.

(** *** What a request does to the log *)
Context (Hredact : redact cap = true) (Htopic : utf8_valid (cap_topic cap) = true).
Lemma serve_selected req resp rid fault d : exists env,
  serve_exchange req resp rid true fault d
    = match envelope_to_vec env with Some payload => (produce (durable_producer fault) (cap_topic cap) rid payload d).2 | None => d end
  /\ forall payload, envelope_to_vec env = Some payload -> Recorded (req, resp, rid) (cap_topic cap, rid, payload).
Proof.
  destruct (captured_traffic_is_redacted (durable_producer fault) cap req resp rid true d Hredact) as (env & H & Hh & Hs & Hid & Hp & Hq & Hb & Hst & Hrb & _).
  exists env. split; [exact H|]. intros payload He. exists env. by split_and!.
Qed.
Lemma produced_event topic key payload fault d :
  utf8_valid topic = true -> durable_event cfg Produced d (produce (durable_producer fault) topic key payload d).2.
Proof.
  intros Hu. cbn. destruct (append (d_wal d) topic key payload fault) as [r w] eqn:Ha. destruct d as [w0 s b acc del]. cbn in Ha.
  pose proof (durable_produce cfg w0 s b acc del _ _ _ _ _ _ Hu Ha) as He. by destruct r.
Qed.
(** A request leaves the log as it is, or makes one append to it, which the log takes or not. *)
Lemma serve_exchange_spec req resp rid selected fault d :
  let d' := serve_exchange req resp rid selected fault d in
  (d' = d \/ selected = true /\ durable_event cfg Produced d d') /\ delivered d' = delivered d
  /\ (accepted d' = accepted d \/ exists e, selected = true /\ accepted d' = accepted d ++ [e] /\ Recorded (req, resp, rid) e).
Proof.
  cbv zeta. destruct selected; [|by split; [left|split; [|left]]].
  destruct (serve_selected req resp rid fault d) as (env & -> & Hr). destruct (envelope_to_vec env) as [payload|]; [|by split; [left|split; [|left]]].
  specialize (Hr payload eq_refl). split; [right; split; [done|by apply produced_event]|].
  cbn. destruct (append _ _ _ _ _) as [[?|?] w]; cbn; (split; [done|]); [right; eauto|by left].
Qed.

(** *** What holds of every run *)
Record captured_inv (c : Captured) : Prop := {
  ci_log : exists done q, delivery_inv cfg (c_log c) done q;
  ci_recorded : exists chosen, chosen `sublist_of` c_selected c /\ Forall2 Recorded chosen (accepted (c_log c));
  ci_delivered : delivered (c_log c) = omap acknowledged (c_broker c);
  ci_sent : forall e, e ∈ omap sent_record (c_broker c) -> e ∈ accepted (c_log c)
}.
Hypothesis Hroom : (wal_max_bytes cap < cfg_compact_threshold wal_config_default)%Z.
Lemma sending_accepted d done q r : delivery_inv cfg d done q -> drainer d = Sending r -> entry r ∈ accepted d.
Proof.
  intros (-> & _ & _ & _ & _ & Hd) Hr. rewrite Hr in Hd. destruct Hd as [_ [q' ->]]. apply elem_of_app. right. by left.
Qed.
Lemma turned_same ev d d' :
  durable_event cfg ev d d' -> ev <> Produced -> (ev = Drained -> forall r, drainer d <> Sending r) ->
  accepted d' = accepted d /\ delivered d' = delivered d.
Proof. intros [] Hp Hs; try done; by destruct (Hs eq_refl r). Qed.
Lemma sent_event r d answer :
  drainer d = Sending r -> durable_event cfg Drained d (after_send r answer d).
Proof. destruct d as [w s b acc del]. cbn. intros ->. destruct answer; constructor. Qed.
Lemma exec_send_acked topic key payload sent answer :
  exec (send_acked topic key payload) sent answer -> exists ok : bool, sent = [Ev (KSend topic (Some key) payload) ok] /\ is_ok answer = ok.
Proof. intros ([] & tr & -> & -> & ->); [by exists true|by exists false]. Qed.
Lemma captured_step_inv c c' : captured_step c c' -> captured_inv c -> captured_inv c'.
Proof.
  intros (o & Hstep & Ho) [(done & q & Hl) (chosen & Hsub & Hrec) Hdel Hsent]. destruct Hstep as [d xs tr req resp rid selected fault
    |d xs tr r sent answer Hr Hx|d d' xs tr ev He Hp Hs]; cbn [c_log c_selected c_broker] in *.
  - destruct (serve_exchange_spec req resp rid selected fault d) as (Hev & Hd & Ha).
    constructor; cbn [c_log c_selected c_broker].
    + destruct Hev as [->|[-> Hev]]; [by eauto|]. destruct (durable_event_inv cfg Hroom _ _ _ _ _ Hev Ho Hl) as (? & ? & ? & _). eauto.
    + destruct Ha as [->|(e & -> & -> & He)].
      * exists chosen. split; [|done]. destruct selected; [by apply sublist_inserts_r|done].
      * exists (chosen ++ [(req, resp, rid)]). split; [by apply sublist_app|]. by apply Forall2_app; [|constructor].
    + by rewrite Hd.
    + intros e Hin%Hsent. destruct Ha as [->|(e' & _ & -> & _)]; [done|]. apply elem_of_app. by left.
  - apply exec_send_acked in Hx as (ok & -> & Hok). pose proof (sent_event r d answer Hr) as Hev.
    pose proof (sending_accepted _ _ _ _ Hl Hr) as Hin. assert (Ha : accepted (after_send r answer d) = accepted d) by by destruct answer.
    constructor; cbn [c_log c_selected c_broker].
    + destruct (durable_event_inv cfg Hroom _ _ _ _ _ Hev I Hl) as (? & ? & ? & _). eauto.
    + rewrite Ha. eauto.
    + rewrite omap_app, <- Hdel. destruct (entry r) as [[topic key] payload] eqn:He.
      destruct answer; cbn in Hok; subst ok; cbn; [by rewrite He|by rewrite app_nil_r].
    + rewrite Ha, omap_app. intros e [He|He]%elem_of_app; [by apply Hsent|]. cbn in He. apply list_elem_of_singleton in He as ->.
      by destruct (entry r) as [[topic key] payload].
  - destruct (turned_same _ _ _ He Hp Hs) as [Ha Hd]. constructor; cbn [c_log c_selected c_broker]; rewrite ?Ha, ?Hd; [|by eauto..].
    destruct (durable_event_inv cfg Hroom _ _ _ _ _ He Ho Hl) as (? & ? & ? & _). eauto.
Qed.

Lemma captured_inv_run c : (0 <= wal_max_bytes cap)%Z -> rtc captured_step captured_new c -> captured_inv c.
Proof.
  intros Hpos Hr. assert (H0 : captured_inv captured_new).
  { constructor; cbn; [|by exists []|done|by intros e ?%not_elem_of_nil]. exists [], []. apply delivery_inv_start.
    unfold wal_config_default, u64_max in *. cbn in *. lia. }
  revert H0. induction Hr as [|c c' c'' Hs _ IH]; [done|]. intros Hi. eapply IH, captured_step_inv; eassumption.
Qed.
Lemma append_room w e : (8 + zlen (body_of e) + write_offset w <= max_bytes w < u64_max)%Z -> framed e ->
  is_ok (append w e.1.1 e.1.2 e.2 None).1 = true.
Proof.
  intros Hm [He Hb]. unfold append. destruct e as [[topic key] payload]. cbn [fst snd] in *. pose proof He as (Hu & _ & _).
  rewrite (proj2 (encode_body_Some topic key payload _ Hu) (conj He eq_refl)). unfold u64_saturating_add, write_at.
  
  rewrite (proj2 (Z.ltb_ge _ _)) by lia. by rewrite (proj2 (Z.leb_gt _ _)) by lia.
Qed.

(** C13: what is captured reaches the broker. With redaction on and a capture log smaller
    than its compaction threshold, however requests, log writes that fail after a part of
    their bytes, sends and their failures, commits, compactions and new processes have
    interleaved since the directory was empty, if no record was written behind the part of a
    failed write that a new process had taken into its log, before the drainer discarded it,
    and no such part reads as a whole record (a run loses a record otherwise,
    [Wal.orderliness_matters]): the records the log accepted are, in order, those of exchanges
    that a directive had selected, each under the request's id, with the request and its answer
    as they were but for the [authorization] headers; the broker is sent no other; what it has
    acknowledged is those records from the first one on, in order, repeated only next to
    themselves; the rest is in the log, and is delivered next. An exchange whose record fits
    the log, and whose write does not fail, is accepted. *)
Theorem captured_exchanges_reach_the_broker c :
  (0 <= wal_max_bytes cap)%Z -> rtc captured_step captured_new c ->
  (exists chosen done q, chosen `sublist_of` c_selected c /\ Forall2 Recorded chosen (done ++ q)
   /\ (forall e, e ∈ omap sent_record (c_broker c) -> e ∈ done ++ q)
   /\ (redelivers (omap acknowledged (c_broker c)) done
       \/ exists e q', q = e :: q' /\ redelivers (omap acknowledged (c_broker c)) (done ++ [e]))
   /\ exists w, Wal.deliver (S (length q)) (d_wal (c_log c)) = (q, w) /\ holds w [])
  /\ forall req resp rid, exists env, forall payload, envelope_to_vec env = Some payload ->
     let e := (cap_topic cap, rid, payload) in
     Recorded (req, resp, rid) e
     /\ (framed e -> (8 + zlen (body_of e) + write_offset (d_wal (c_log c)) <= wal_max_bytes cap)%Z ->
         accepted (serve_exchange req resp rid true None (c_log c)) = accepted (c_log c) ++ [e]).
Proof.
  intros Hpos Hr. destruct (captured_inv_run c Hpos Hr) as [(done & q & Hl) (chosen & Hsub & Hrec) Hdel Hsent].
  pose proof Hl as (Hacc & Hw & _ & Hmax & Hd & _). split.
  - exists chosen, done, q. rewrite Hacc in *. rewrite <- Hdel. split_and!; try done. destruct (deliver_keeps q _ Hw) as (w & ? & ? & _). eauto.
  - intros req resp rid. destruct (serve_selected req resp rid None (c_log c)) as (env & Hs & Hre). exists env. intros payload He e.
    split; [by apply Hre|]. intros Hf Hfit. rewrite Hs, He. cbn. pose proof (append_room (d_wal (c_log c)) e) as Ha. cbn in Ha.
    rewrite Hmax in Ha. destruct (append _ _ _ _ _) as [[u|u] w]; [done|]. discriminate Ha; [|done].
    unfold capture_wal_config, wal_config_default, u64_max in *. cbn in *. lia.
Qed.
End Durably.

(** *** Without a log

    The task of a record that has a slot sends that record only, until the broker takes it
    and at most [max_attempts] times; without a slot nothing is sent. *)
Lemma omap_perm {A B} (f : A -> option B) l l' : l ≡ₚ l' -> omap f l ≡ₚ omap f l'.
Proof.
  induction 1 as [|x l l' _ IH|x y l|l l' l'' _ IH1 _ IH2]; cbn; [done|by destruct (f x); rewrite IH| |by etrans].
  destruct (f x), (f y); try done. apply perm_swap.
Qed.
Lemma sends_of_failed topic key payload base is_ :
  let tr := renamed (attempt_call topic key payload) <$> failed_attempts base is_ in
  omap sent_record tr = replicate (length is_) (topic, key, payload) /\ omap acknowledged tr = [].
Proof.
  induction is_ as [|i is_ [IH1 IH2]]; [done|].
  change (failed_attempts base (i :: is_)) with (Ev Attempt false :: Ev (Pause (pause_after base i)) tt :: failed_attempts base is_).
  cbn [fmap list_fmap omap list_omap renamed attempt_call sent_record acknowledged length replicate] in *. by rewrite IH1, IH2.
Qed.
Lemma best_effort_sends cfg topic key payload s :
  (0 < max_attempts cfg)%Z -> (0 <= base_backoff cfg <= duration_max)%Z -> (0 <= max_inflight cfg)%Z ->
  match krafka_produce cfg topic key payload s with
  | (Ok _, _, Some task) => permits s <> 0 /\ forall tr, exec task tr tt ->
      (forall e, e ∈ omap sent_record tr -> e = (topic, key, payload))
      /\ (0 < Z.of_nat (length (omap sent_record tr)) <= max_attempts cfg)%Z
      /\ length (omap acknowledged tr) <= 1
  | (Err _, _, None) => permits s = 0
  | _ => False
  end.
Proof.
  intros Ha Hb Hm. unfold krafka_produce, delivery_spawn. destruct (permits s) as [|n]; [done|]. split; [done|].
  intros tr (tr' & Hx & Hp)%exec_renaming. apply (delivery_is_bounded cfg tr' Ha Hb Hm) in Hx as (k & taken & Hk & _ & ->).
  destruct (sends_of_failed topic key payload (base_backoff cfg) (seq 0 k)) as [Hs Hk']. rewrite length_seq in Hs.
  assert (Hsent : omap sent_record tr ≡ₚ replicate (S k) (topic, key, payload)).
  { rewrite (omap_perm _ _ _ Hp), fmap_app, omap_app, Hs. cbn. by rewrite replicate_cons_app. }
  split; [|split].
  - intros e. rewrite Hsent. by intros [-> _]%elem_of_replicate.
  - rewrite Hsent, length_replicate. lia.
  - rewrite (omap_perm _ _ _ Hp), fmap_app, omap_app, Hk'. by destruct taken; cbn; lia.
Qed.

(** ** A run *)
Section Runs.
#[local] Existing Instance line_codec.
Definition durable_cap : CaptureConfig :=
  Config.MkCapture [lit "k1"] (lit "traffic") true None 1024 4 50 (Some (lit "wal")) 1000.
Definition record1 : Entry := (lit "traffic", lit "r1", lit "POST /orders/_doc Accept").
Definition empty_log : Wal := wal_open [] [] 1000 (cfg_compact_threshold wal_config_default).
Definition one_record : Wal := (append empty_log (lit "traffic") (lit "r1") record1.2 None).2.
Definition read1 : WalRecord := MkWalRecord record1 (write_offset one_record).
Definition captured_created : IngressResponse := response_json 201 (lit "{}").
(** A request is served, its record is sent, lost by the broker, and sent again. *)
Definition sent_again : trace_of KrafkaCall :=
  [Ev (KSend (lit "traffic") (Some (lit "r1")) record1.2) false; Ev (KSend (lit "traffic") (Some (lit "r1")) record1.2) true].
Definition delivered_once : Captured :=
  MkCaptured (MkDurable one_record (Acknowledged read1) 100000000 [record1] [record1])
    [(captured_request, captured_created, lit "r1")] sent_again.
Lemma captured_l o c c' c'' :
  captured_event durable_cap o c c' -> match o with Some ev => orderly ev (c_log c) | None => True end ->
  rtc (captured_step durable_cap) c' c'' -> rtc (captured_step durable_cap) c c''.
Proof. intros Hs Ho Hr. eapply rtc_l; [by exists o|done]. Qed.
Lemma delivered_once_reachable : rtc (captured_step durable_cap) (captured_new durable_cap) delivered_once.
Proof.
  eapply captured_l; [apply (exchange_served durable_cap _ _ _ captured_request captured_created (lit "r1") true None)|apply reads_end|].
  replace (serve_exchange _ _ _ _ _ _ _) with (MkDurable one_record Idle 50000000 [record1] []) by (vm_compute; reflexivity).
  eapply captured_l; [eapply (log_turned durable_cap _ _ _ _ Drained); [apply (durable_next _ one_record _ _ _ (Some read1) one_record); vm_compute; reflexivity|done|by intros _ r]|done|].
  eapply captured_l; [apply (record_sent durable_cap _ _ _ read1 [Ev (KSend (lit "traffic") (Some (lit "r1")) record1.2) false] (Err (MkProduceError (lit "kafka send was not acknowledged")))); [done|]; by eexists _, _|done|].
  eapply captured_l; [eapply (log_turned durable_cap _ _ _ _ Drained); [apply (durable_next _ one_record _ _ _ (Some read1) one_record); vm_compute; reflexivity|done|by intros _ r]|done|].
  eapply captured_l; [apply (record_sent durable_cap _ _ _ read1 [Ev (KSend (lit "traffic") (Some (lit "r1")) record1.2) true] (Ok tt)); [done|]; by eexists _, _|done|].
  apply rtc_refl.
Qed.
(** The default size of the log is above its compaction threshold, which is not a setting. *)
Example default_log_exceeds_its_threshold :
  match Config.capture {[lit "capture_kafka_brokers" := lit "k1:9092"; lit "capture_topic" := lit "traffic"; lit "capture_wal_dir" := lit "wal"]} with
  | Ok (Some cap) => (cfg_compact_threshold (capture_wal_config cap) < wal_max_bytes cap)%Z
  | _ => False
  end.
Proof. vm_compute. reflexivity. Qed.
Lemma captured_exchanges_reach_the_broker_witness :
  (exists chosen done q, chosen `sublist_of` c_selected delivered_once /\ Forall2 (Recorded durable_cap) chosen (done ++ q)
   /\ (forall e, e ∈ omap sent_record sent_again -> e ∈ done ++ q)
   /\ (redelivers [record1] done \/ exists e q', q = e :: q' /\ redelivers [record1] (done ++ [e]))
   /\ exists w, Wal.deliver (S (length q)) one_record = (q, w) /\ holds w [])
  /\ forall req resp rid, exists env, forall payload, envelope_to_vec env = Some payload ->
     let e := (lit "traffic", rid, payload) in
     Recorded durable_cap (req, resp, rid) e
     /\ (framed e -> (8 + zlen (body_of e) + write_offset one_record <= 1000)%Z ->
         accepted (serve_exchange durable_cap req resp rid true None (c_log delivered_once)) = [record1] ++ [e]).
Proof.
  apply (captured_exchanges_reach_the_broker durable_cap ltac:(reflexivity) ltac:(vm_compute; reflexivity) ltac:(vm_compute; reflexivity)
    delivered_once ltac:(vm_compute; discriminate) delivered_once_reachable).
Defined.
End Runs.
