(* ===== verification/Grpc.v ===== *)
(** * The gRPC ingress ([crates/osproxy-transport/src/grpc.rs])

    The front door for documents over gRPC: an RPC becomes the request that the HTTP path
    would have parsed for the same document, and the shared handler serves it.  The stubs
    and the HTTP/2 server are generated and third-party code; an RPC comes as its message,
    its metadata and the facts of its connection. *)
From stdpp Require Import base option list strings numbers sets gmap.
From Stdlib Require Import Ascii ZArith Lia.
From S2P Require Import Prelude.
From S2P Require Import JsonScan.
From S2P Require Import JsonProps.
From S2P Require Import CoreTypes.
From S2P Require Import Serde.
From S2P Require Import ToySerde.
From S2P Require Import Bulk.
From S2P Require Import Spi.
From S2P Require Import Sink.
From S2P Require Import SearchScan.
From S2P Require Import Prog.
From S2P Require Import Effects.
From S2P Require Import HttpSink.
From S2P Require Import BulkLedger.
From S2P Require Import ReqTrace.
From S2P Require Import CursorBody.
From S2P Require Import Observe.
From S2P Require Import Engine.
From S2P Require Import EngineSafe.
From S2P Require Import Wire.
From S2P Require Import Ingress.
From S2P Require Import Server.
From S2P Require Import Proxy.

Open Scope osp_scope.

(** The messages of [proto/osproxy.proto]. *)
Record IndexRpc : Type := MkIndexRpc { rpc_index : str; rpc_id : str; rpc_document : bytes }.
Record IndexReply : Type := MkIndexReply { reply_status : Z; reply_body : bytes; reply_request_id : str }.
Record GrpcConnInfo : Type := MkGrpcConnInfo { gc_cert_subject : option str; gc_secure : bool }.

Section Grpc.
Context {H : HttpTypes}.

(** The metadata are raw values, as the headers of a request are. *)
Definition bearer_header (metadata : list (str * bytes)) : list (str * str) :=
  match header_get metadata authorization ≫= header_value_text with
  | Some token => [(authorization, token)]
  | None => []
  end.
Definition rpc_method (msg : IndexRpc) : HttpMethod := if body_is_empty (rpc_id msg) then Post else Put.
Definition rpc_path (msg : IndexRpc) : str :=
  if body_is_empty (rpc_id msg) then lit "/" ++ rpc_index msg ++ lit "/_doc"
  else lit "/" ++ rpc_index msg ++ lit "/_doc/" ++ rpc_id msg.
(** [conn] is there on the TLS listener only. *)
Definition rpc_request (conn : option GrpcConnInfo) (metadata : list (str * bytes)) (msg : IndexRpc) : IngressRequest :=
  let c := classify (rpc_method msg) (rpc_path msg) in
  MkIngressRequest (rpc_method msg) Grpc (rpc_path msg) (endpoint c) (c_logical_index c) (c_doc_id c)
    (bearer_header metadata) (rpc_document msg) None (conn ≫= gc_cert_subject)
    (match conn with Some i => gc_secure i | None => false end).
Definition rpc_reply (resp : IngressResponse) : IndexReply :=
  MkIndexReply (ir_status resp) (ir_body resp)
    (default [] (snd <$> List.find (fun h => eq_ignore_ascii_case h.1 (lit "x-request-id")) (ir_headers resp))).
Definition grpc_index (conn : option GrpcConnInfo) (metadata : list (str * bytes)) (msg : IndexRpc)
    : prog_of IngressCall (option IndexReply) :=
  await! resp := call (Handle (rpc_request conn metadata msg)) in Ret (rpc_reply <$> resp).

(** ** What an RPC is *)
Lemma slash_free_segments a b : "/"%char ∉ a -> a <> [] -> path_segments (a ++ "/"%char :: b) = a :: path_segments b.
Proof. intros Ha Hne. unfold path_segments. rewrite split_cut by done. by destruct a. Qed.
Lemma slash_free_segment a : "/"%char ∉ a -> a <> [] -> path_segments a = [a].
Proof. intros Ha Hne. unfold path_segments. rewrite split_single by done. by destruct a. Qed.
Lemma rooted_segments p : path_segments ("/"%char :: p) = path_segments p.
Proof. unfold path_segments. change ("/"%char :: p) with ([] ++ "/"%char :: p). by rewrite split_cut by apply not_elem_of_nil. Qed.

(** The classifier's verdict on an RPC whose names have no slash. *)
Lemma rpc_classified msg :
  "/"%char ∉ rpc_index msg -> rpc_index msg <> [] -> "/"%char ∉ rpc_id msg ->
  classify (rpc_method msg) (rpc_path msg)
  = MkClassified IngestDoc (rpc_index msg) (match rpc_id msg with [] => None | id => Some id end).
Proof.
  intros Hs Hne Hid. destruct (fill_spec (path_segments (rpc_path msg)) [[]; []; []; []] 0 ltac:(cbn; lia)) as [Hf _].
  assert (Hd : "/"%char ∉ lit "_doc") by (apply (bool_decide_unpack _); reflexivity).
  unfold classify. destruct (fill _ 0 _) as [buf count]. cbn [fst snd take app length] in Hf. rewrite Hf.
  unfold rpc_path, rpc_method. destruct (rpc_id msg) as [|c id] eqn:Heq; cbn [body_is_empty].
  - change (lit "/" ++ ?p) with ("/"%char :: p). rewrite rooted_segments.
    change (lit "/_doc") with ("/"%char :: lit "_doc"). rewrite slash_free_segments by done.
    rewrite slash_free_segment by done. reflexivity.
  - change (lit "/" ++ ?p) with ("/"%char :: p). rewrite rooted_segments.
    change (lit "/_doc/" ++ ?q) with ("/"%char :: (lit "_doc" ++ "/"%char :: q)). rewrite slash_free_segments by done.
    rewrite slash_free_segments by done. rewrite slash_free_segment by done. reflexivity.
Qed.
End Grpc.

Section Served.
Context {Sd : Serde} {Si : SerdeInt} {Ss : SerdeString} {W : Wide} {M : Memchr} {Mm : Memmem} {R : Router}
  {H : HttpTypes} {Dv : DirectiveVerifier}.
Context (h : AppHandler).
(** The RPC over the serving stack of [Proxy]. *)
Definition rpc_served (conn : option GrpcConnInfo) (metadata : list (str * bytes)) (msg : IndexRpc)
    : prog_of ProxyCall (option IndexReply) :=
  handling (@app_call _ _ _ _ _ _ _ _ _ h) (grpc_index conn metadata msg).

(** Over gRPC as over HTTP. An RPC whose index and id have no slash is handled as the
    ingest of that document, whatever they are called; and every HTTP request that leaves
    the proxy while any RPC is served was sent for a principal accepted from the RPC's own
    credentials and let act on what the shared classifier makes of it, over TLS where the
    deployment requires it, and is what the sink sent, in this run, for a call of the
    engine's run for that very request that is isolated for it (or is that request, under
    the passthrough policy). *)
Theorem rpc_is_accounted_for conn metadata msg tr out :
  exec (rpc_served conn metadata msg) tr out ->
  let iq := rpc_request conn metadata msg in
  (forall e c h2 hreq, e ∈ tr -> leaves e = Some (c, h2, hreq) ->
     exists principal rid, accepted h iq principal tr
     /\ let ctx := ctx_of h iq principal rid in sent_for h (lawful h ctx) ctx [] tr e c h2 hreq)
  /\ ("/"%char ∉ rpc_index msg -> rpc_index msg <> [] -> "/"%char ∉ rpc_id msg ->
     iq_endpoint iq = IngestDoc /\ iq_logical_index iq = rpc_index msg
     /\ iq_doc_id iq = match rpc_id msg with [] => None | id => Some id end /\ iq_body iq = rpc_document msg).
Proof.
  intros (calls & He & Hh)%handling_refines iq. split.
  - intros e c h2 hreq Hin Hl. destruct (Handled_part _ _ _ _ Hh Hin) as (e' & t & Hc & Ht & Het & Hsub).
    destruct He as (resp & ? & -> & -> & _). apply list_elem_of_singleton in Hc as ->.
    destruct (accounted_subset h iq [] t tr e c h2 hreq Hsub (handle_accounted h iq [] t resp e c h2 hreq Ht Het Hl)) as (principal & rid & Hacc).
    by exists principal, rid.
  - intros H1 H2 H3. unfold iq, rpc_request. rewrite rpc_classified by done. done.
Qed.
End Served.

(** ** A document over gRPC *)
Section Runs.
#[local] Existing Instance scalar_wide.
#[local] Existing Instance bulk_serde.
#[local] Existing Instance bulk_int.
#[local] Existing Instance scanned_strings.
#[local] Existing Instance bulk_router.
#[local] Existing Instance any_http.
#[local] Existing Instance no_verifier.
Definition rpc_of (index id : str) : IndexRpc := MkIndexRpc index id document.
Definition rpc_run (conn : option GrpcConnInfo) :=
  interp proxy_world (rpc_served deployed conn [(lit "authorization", lit "Bearer t0k")] (rpc_of (lit "orders") [])) 0.
Definition tls_conn : option GrpcConnInfo := Some (MkGrpcConnInfo None true).

Example rpc_runs :
  (reply_status <$> (rpc_run tls_conn).1.2) = Some 201%Z /\ length (omap leaves (rpc_run tls_conn).1.1) = 1
  /\ (reply_request_id <$> (rpc_run tls_conn).1.2) = Some (lit "r3")
  /\ (reply_status <$> (rpc_run None).1.2) = Some 403%Z /\ omap leaves (rpc_run None).1.1 = [].
Proof. split_and!; vm_compute; reflexivity. Qed.
(** The names are not encoded into the path: with slashes in them the RPC is another
    request than the ingest it is documented to be. *)
Example rpc_names_are_not_encoded :
  let rpc i d := let c := classify (rpc_method (rpc_of i d)) (rpc_path (rpc_of i d)) in (endpoint c, c_logical_index c, c_doc_id c) in
  rpc (lit "_cat/indices") [] = (Admin, [], None)
  /\ rpc (lit "_search/scroll") [] = (Cursor, [], Some (lit "_doc"))
  /\ rpc (lit "orders") (lit "2024/7") = (Unknown, lit "orders", None).
Proof. split_and!; reflexivity. Qed.
Lemma rpc_is_accounted_for_witness :
  let iq := rpc_request tls_conn [(lit "authorization", lit "Bearer t0k")] (rpc_of (lit "orders") []) in
  (forall e c h2 hreq, e ∈ (rpc_run tls_conn).1.1 -> leaves e = Some (c, h2, hreq) ->
     exists principal rid, accepted deployed iq principal (rpc_run tls_conn).1.1
     /\ let ctx := ctx_of deployed iq principal rid in sent_for deployed (lawful deployed ctx) ctx [] (rpc_run tls_conn).1.1 e c h2 hreq)
  /\ ("/"%char ∉ lit "orders" -> lit "orders" <> [] -> "/"%char ∉ ([] : str) ->
     iq_endpoint iq = IngestDoc /\ iq_logical_index iq = lit "orders" /\ iq_doc_id iq = None /\ iq_body iq = document).
Proof.
  exact (rpc_is_accounted_for deployed tls_conn [(lit "authorization", lit "Bearer t0k")] (rpc_of (lit "orders") [])
    (rpc_run tls_conn).1.1 (rpc_run tls_conn).1.2
    (interp_exec proxy_world (rpc_served deployed tls_conn [(lit "authorization", lit "Bearer t0k")] (rpc_of (lit "orders") [])) 0)).
Defined.
End Runs.
