(* ===== verification/Deploy.v ===== *)
(** * The binary's wiring ([crates/osproxy-server/src]: main, directive_wiring, and the attach functions of fanout and capture)

    From a validated configuration to the pipeline and the handler that serve: what each
    setting turns on, and what a deployment that loads guarantees. *)
From stdpp Require Import base option list strings numbers sets gmap pretty.
From Stdlib Require Import Ascii ZArith Lia.
From S2P Require Import Prelude.
From S2P Require Import NetAddr.
From S2P Require Import RawConfig.
From S2P Require Import Config.
From S2P Require Import Cursor.
From S2P Require Import CoreTypes.
From S2P Require Import JsonScan.
From S2P Require Import JsonProps.
From S2P Require Import Serde.
From S2P Require Import ToySerde.
From S2P Require Import Bulk.
From S2P Require Import Spi.
From S2P Require Import Tenancy.
From S2P Require Import Sink.
From S2P Require Import Prog.
From S2P Require Import Effects.
From S2P Require Import AsyncWrite.
From S2P Require Import CursorBody.
From S2P Require Import ReqTrace.
From S2P Require Import Observe.
From S2P Require Import Engine.
From S2P Require Import EngineSafe.
From S2P Require Import Ingress.
From S2P Require Import SearchScan.
From S2P Require Import HttpSink.
From S2P Require Import SinkPools.
From S2P Require Import BulkLedger.
From S2P Require Import Wire.
From S2P Require Import Server.
From S2P Require Import Proxy.
From S2P Require Import RefTenancy.
From S2P Require Import Signed.

Open Scope osp_scope.

(** The cargo features of the build. *)
Record Build : Type := MkBuild { has_fanout : bool; has_capture : bool; has_etcd : bool }.

(** The world the start-up asks: reading files, the constructors of the TLS providers
    (which are calls of rustls), connecting to the brokers and to etcd, binding a socket (the
    message of a failed bind names the address). Each answers or fails with a message. *)
Record World : Type := MkWorld {
  read_file : str -> Result bytes str;
  TlsProvider : Type;
  UpstreamTls : Type;
  from_pem : bytes -> bytes -> option bytes -> Result TlsProvider str;
  upstream_client_config : bytes -> option (bytes * bytes) -> Result UpstreamTls str;
  connect_brokers : list str -> option CaptureTlsConfig -> Result unit str;
  open_wal : str -> Result unit str;
  connect_etcd : EtcdConfig -> Result unit str;
  bind_socket : SocketAddr -> Result unit str
}.

(** ** Each setting, onto the pipeline *)
Section Wiring.
Context {Hm : Hmac}.
Definition with_exporter (p : Pipeline) : Pipeline :=
  MkPipeline (retry p) true (process_seed p) (cursor_signer p) (admin_policy p) (passthrough_policy p)
    (baseline_write_mode p) (queue_enabled p) (delete_by_query_expansion p).
Definition with_write_queue (p : Pipeline) : Pipeline :=
  MkPipeline (retry p) (exporting p) (process_seed p) (cursor_signer p) (admin_policy p) (passthrough_policy p)
    (baseline_write_mode p) true (delete_by_query_expansion p).
Definition with_otlp_export (p : Pipeline) (obs : ObservabilityConfig) : Pipeline :=
  match otlp_endpoint obs with Some _ => with_exporter p | None => p end.
Definition wire_passthrough (p : Pipeline) (cfg : option PassthroughConfig) : Pipeline :=
  match cfg with
  | None => p
  | Some pt => with_passthrough p (with_index_prefixes (passthrough_policy_new (pc_cluster pt) (pc_endpoint pt)) (pc_index_prefixes pt))
  end.
Definition wire_admin (p : Pipeline) (cfg : option AdminPassthroughConfig) : Pipeline :=
  match cfg with
  | None => p
  | Some a =>
      let policy := admin_policy_new (ac_cluster a) (ac_prefixes a) in
      with_admin_passthrough p (match ac_endpoint a with Some e => admin_with_endpoint policy e | None => policy end)
  end.
Definition with_cursor_affinity (p : Pipeline) (key : option str) : Pipeline :=
  match key with Some k => with_cursor_signer p (hmac_cursor_signer k) | None => p end.
Definition baseline_level (b : DiagBaseline) : DiagLevel :=
  match b with
  | BaselineOff => LevelOff
  | BaselineShape => LevelShape
  | BaselineShapeTiming => LevelShapeTiming
  | BaselineShapeRewriteDiff => LevelShapeRewriteDiff
  end.
Definition forward_policy_of (cfg : Config) : ForwardPolicy :=
  MkForwardPolicy (fw_enabled (header_forwarding cfg)) (fw_deny (header_forwarding cfg)).
(** [seed] is drawn by [Pipeline::new]. *)
Definition assemble_pipeline (seed : Z) (cfg : Config) : Pipeline :=
  let base := pipeline_new seed in
  let observed := with_otlp_export base (cfg_observability cfg) in
  let routed := wire_admin (with_cursor_affinity observed (cursor_affinity_key cfg)) (cfg_admin_passthrough cfg) in
  wire_passthrough routed (cfg_passthrough cfg).
(** The verifier of the header channel: without a key every header is refused. *)
Definition header_verifier `{Sd : Serde, !SerdeInt} (cfg : Config) (unix_nanos : Z) (now : Instant) : DirectiveVerifier :=
  match debug_directive_key (cfg_observability cfg) with
  | Some key => hmac_directive_verifier key unix_nanos now
  | None => no_verifier
  end.
End Wiring.

(** ** The start-up *)
Section Startup.
Context {Hm : Hmac} (build : Build) (w : World).

Definition reading (path : str) : Result bytes str :=
  map_err (fun e => lit "reading " ++ path ++ lit ": " ++ e) (read_file w path).
Definition load_tls_provider (tls : option TlsConfig) : Result (option (TlsProvider w)) str :=
  match tls with
  | None => Ok None
  | Some tls =>
      let? cert := reading (cert_path tls) in
      let? key := reading (key_path tls) in
      let? ca := match client_ca_path tls with
                 | Some ca => let? pem := reading ca in Ok (Some pem)
                 | None => Ok None
                 end in
      let? provider := map_err (fun e => lit "building TLS config: " ++ e) (from_pem w cert key ca) in
      Ok (Some provider)
  end.
Definition load_upstream_tls (tls : option UpstreamTlsConfig) : Result (option (UpstreamTls w)) str :=
  match tls with
  | None => Ok None
  | Some tls =>
      let? ca := reading (up_ca_path tls) in
      let? identity := match up_cert_path tls, up_key_path tls with
                       | Some c, Some k => let? cert := reading c in let? key := reading k in Ok (Some (cert, key))
                       | _, _ => Ok None
                       end in
      let? config := map_err (fun e => lit "building upstream TLS config: " ++ e) (upstream_client_config w ca identity) in
      Ok (Some config)
  end.
(** Whether there is an in-memory store for the admin endpoint. *)
Definition directive_store (cfg : Config) : Result bool str :=
  match cfg_etcd cfg with
  | None => Ok true
  | Some e =>
      if has_etcd build
      then let? _ := map_err (fun e => lit "etcd directive store: " ++ e) (connect_etcd w e) in Ok false
      else Err (lit "etcd directive store configured but this binary was built without the `etcd` feature")
  end.
Definition fanout_attach (p : Pipeline) (cfg : Config) : Result Pipeline str :=
  match cfg_fanout cfg with
  | None => Ok p
  | Some fc =>
      if has_fanout build then
        let? _ := map_err (fun e => lit "connecting fan-out producer: " ++ e) (connect_brokers w (fan_brokers fc) (fan_tls fc)) in
        let mode := if async_default fc then Async else Sync in
        Ok (with_delete_by_query_expansion (with_baseline_write_mode (with_write_queue p) mode) (fan_expand_delete_by_query fc))
      else Err (lit "fan-out is configured (fanout_kafka_brokers/fanout_topic) but this binary was built without the `fanout` feature; rebuild with `--features fanout`")
  end.
(** The handler with its capture, and whether the capture is redacted. *)
Definition capture_attach (cfg : Config) : Result (option bool) str :=
  match cfg_capture cfg with
  | None => Ok None
  | Some cap =>
      if has_capture build then
        let? _ := map_err (fun e => lit "connecting capture producer: " ++ e) (connect_brokers w (cap_brokers cap) (cap_tls cap)) in
        let? _ := match wal_dir cap with
                  | Some dir => map_err (fun e => lit "opening capture WAL at " ++ dir ++ lit ": " ++ e) (open_wal w dir)
                  | None => Ok tt
                  end in
        Ok (Some (redact cap))
      else Err (lit "capture is configured (capture_kafka_brokers/capture_topic) but this binary was built without the `capture` feature; rebuild with `--features capture`")
  end.
(** The channel needs both the store and the token. *)
Definition directive_admin_of (in_memory : bool) (token : option str) : option str :=
  match in_memory, token with true, Some t => Some t | _, _ => None end.
Definition wire_directive_admin (h : AppHandler) (in_memory : bool) (token : option str) : AppHandler :=
  match directive_admin_of in_memory token with Some t => with_directive_admin h t | None => h end.

(** What serves, when the start-up is done. *)
Record Deployment : Type := MkDeployment {
  d_handler : AppHandler;
  d_tenancy : ReferenceTenancy;
  d_tokens : gmap str str;
  d_tls : option (TlsProvider w);
  d_sink : OpenSearchSink (UpstreamTls w);
  d_redacted : option bool;
  d_grpc : option SocketAddr
}.
Definition d_upstream_tls (d : Deployment) : option (UpstreamTls w) := os_upstream_tls (d_sink d).
Definition tokens_map (ts : list (str * str)) : gmap str str := foldl (fun m e => <[e.1 := e.2]> m) ∅ ts.
(** [run], up to the point where it serves. *)
Definition startup (seed : Z) (cfg : Config) : Result Deployment str :=
  let? upstream_tls := load_upstream_tls (cfg_upstream_tls cfg) in
  let sink := match upstream_tls with Some tls => with_upstream_tls opensearch_sink_new tls | None => opensearch_sink_new end in
  let tenancy := reference_new (lit "default") (cfg_index cfg) (Config.upstream cfg) in
  let? in_memory := directive_store cfg in
  let? pipeline := fanout_attach (assemble_pipeline seed cfg) cfg in
  let obs := cfg_observability cfg in
  let app := handler_new pipeline (baseline_level (cfg_diag_baseline obs)) (capture_default cfg) (log_diagnostic_captures obs) in
  let app := with_request_log app (log_requests obs) in
  let app := with_require_tls_for_mutation app (Config.require_tls_for_mutation cfg) in
  let app := with_debug_endpoints app (Config.debug_endpoints obs) in
  let app := with_forward_policy app (forward_policy_of cfg) in
  let app := if tenant_metrics_enabled obs then with_tenant_metrics app else app in
  let? redacted := capture_attach cfg in
  let app := match redacted with Some _ => with_capture app | None => app end in
  let handler := wire_directive_admin app in_memory (directive_admin_token obs) in
  let? _ := bind_socket w (bind_addr cfg) in
  let? provider := load_tls_provider (cfg_tls cfg) in
  let? _ := match Config.grpc_bind cfg with
            | Some a => bind_socket w a
            | None => Ok tt
            end in
  Ok (MkDeployment handler tenancy (tokens_map (cfg_tokens cfg)) provider sink redacted (Config.grpc_bind cfg)).

(** ** What is deployed *)
Lemma tokens_map_lookup ts t p : tokens_map ts !! t = Some p -> (t, p) ∈ ts.
Proof.
  unfold tokens_map. induction ts as [|[a b] ts IH] using rev_ind; [done|].
  rewrite foldl_app. cbn [foldl fst snd]. rewrite elem_of_app. destruct (decide (a = t)) as [->|Hne].
  - rewrite lookup_insert_eq. intros [= ->]. right. by left.
  - rewrite lookup_insert_ne by done. intros H%IH. by left.
Qed.
Lemma tokens_map_empty ts : tokens_map ts = ∅ -> ts = [].
Proof.
  destruct ts as [|[a b] ts _] using rev_ind; [done|]. unfold tokens_map. rewrite foldl_app. cbn. intros H.
  by apply insert_non_empty in H.
Qed.
Lemma assembled seed cfg :
  let p := assemble_pipeline seed cfg in
  passthrough_policy p = (fun pt => MkPassthroughPolicy (pc_cluster pt) (Some (pc_endpoint pt)) (pc_index_prefixes pt)) <$> cfg_passthrough cfg
  /\ admin_policy p = (fun a => MkAdminPolicy (ac_cluster a) (ac_prefixes a) (ac_endpoint a)) <$> cfg_admin_passthrough cfg
  /\ cursor_signer p = hmac_cursor_signer <$> Config.cursor_affinity_key cfg
  /\ baseline_write_mode p = Sync /\ queue_enabled p = false.
Proof.
  unfold assemble_pipeline, wire_passthrough, wire_admin, with_cursor_affinity, with_otlp_export.
  destruct (otlp_endpoint _), (Config.cursor_affinity_key cfg), (cfg_admin_passthrough cfg) as [[? ? [?|]]|], (cfg_passthrough cfg); done.
Qed.
Lemma fanout_attach_keeps p cfg p' : fanout_attach p cfg = Ok p' ->
  passthrough_policy p' = passthrough_policy p /\ admin_policy p' = admin_policy p /\ cursor_signer p' = cursor_signer p
  /\ (cfg_fanout cfg = None -> p' = p).
Proof.
  unfold fanout_attach. destruct (cfg_fanout cfg) as [fc|]; [|by intros [= <-]].
  destruct (has_fanout build); [|done]. by intros (? & _ & [= <-])%rbind_Ok.
Qed.
Lemma startup_Ok seed cfg d : startup seed cfg = Ok d ->
  exists p, fanout_attach (assemble_pipeline seed cfg) cfg = Ok p /\ h_pipeline (d_handler d) = p
  /\ (exists in_memory, directive_store cfg = Ok in_memory
       /\ directive_admin (d_handler d) = directive_admin_of in_memory (directive_admin_token (cfg_observability cfg)))
  /\ Server.require_tls_for_mutation (d_handler d) = Config.require_tls_for_mutation cfg
  /\ d_tokens d = tokens_map (cfg_tokens cfg) /\ capture_attach cfg = Ok (d_redacted d)
  /\ capture_enabled (d_handler d) = (match d_redacted d with Some _ => true | None => false end)
  /\ load_tls_provider (cfg_tls cfg) = Ok (d_tls d) /\ load_upstream_tls (cfg_upstream_tls cfg) = Ok (d_upstream_tls d).
Proof.
  intros (ut & Hu & (im & Him & (p & Hp & (red & Hred & (u1 & _ & (pr & Hpr & (u2 & _ & [= <-])%rbind_Ok)%rbind_Ok)%rbind_Ok)
    %rbind_Ok)%rbind_Ok)%rbind_Ok)%rbind_Ok.
  exists p. cbn. unfold wire_directive_admin. rewrite Hred.
  assert (Ha : exists in_memory, directive_store cfg = Ok in_memory /\ directive_admin_of im (directive_admin_token (cfg_observability cfg))
    = directive_admin_of in_memory (directive_admin_token (cfg_observability cfg))) by by exists im.
  destruct (directive_admin_of im _), (tenant_metrics_enabled _), red; destruct ut; by split_and!.
Qed.
End Startup.

(** ** What is served *)
Section Served.
Context {Hm : Hmac} {Sd : Serde} {Si : SerdeInt} {Ss : SerdeString} {Wd : Wide} {M : Memchr} {Mm : Memmem} {H : HttpTypes}.
Context {build : Build} {w : World} (cfg : Config) (d : Deployment w) (unix_nanos : Z) (now : Instant).
(** The binary's own tenancy and verifier. *)
#[local] Instance deployed_tenancy : TenancySpi := reference_tenancy (d_tenancy w d).
#[local] Existing Instance tenancy_router.
#[local] Instance deployed_verifier : DirectiveVerifier := header_verifier cfg unix_nanos now.
Definition binary (req : HyperRequest) (conn : ConnInfo) (limits : IngressLimits) : prog_of ProxyCall (option StreamingResponse) :=
  proxied (d_handler w d) req conn limits.
(** The authenticator of the run is the binary's. *)
Definition Authenticated (tr : list (event_of ProxyCall)) : Prop :=
  forall creds r, Ev (Serving (Authenticate creds)) r ∈ tr -> r = reference_authenticate (d_tokens w d) creds.

Lemma token_holder creds p ts :
  d_tokens w d = tokens_map ts -> ts <> [] -> reference_authenticate (d_tokens w d) creds = Ok p ->
  exists t name, bearer_token creds = Some t /\ (t, name) ∈ ts /\ p = principal_new name.
Proof.
  unfold reference_authenticate. intros -> Hne. case_bool_decide as Hm0; [by destruct Hne; apply tokens_map_empty|].
  destruct (bearer_token creds) as [t|]; [|done]. destruct (tokens_map ts !! t) as [n|] eqn:Ht; [|done].
  intros [= <-]. exists t, n. by apply tokens_map_lookup in Ht.
Qed.
Lemma not_forwarding seed : startup build w seed cfg = Ok d -> cfg_passthrough cfg = None ->
  passthrough_policy (h_pipeline (d_handler w d)) = None.
Proof.
  intros (p & Hp & -> & _)%startup_Ok Hc. apply fanout_attach_keeps in Hp as (-> & _).
  destruct (assembled seed cfg) as [-> _]. by rewrite Hc.
Qed.
Lemma admin_token seed token : startup build w seed cfg = Ok d -> directive_admin (d_handler w d) = Some token ->
  directive_admin_token (cfg_observability cfg) = Some token /\ cfg_etcd cfg = None.
Proof.
  intros (p & _ & _ & (im & Him & ->) & _)%startup_Ok. unfold directive_admin_of.
  destruct im; [|done]. destruct (directive_admin_token _); [|done]. intros [= <-]. split; [done|].
  unfold directive_store in Him. destruct (cfg_etcd cfg); [|done]. destruct (has_etcd build); [|done].
  by apply rbind_Ok in Him as (? & _ & ?).
Qed.

End Served.

(** ** A binary, started and served *)
Section Runs.
#[local] Existing Instance scalar_wide.
#[local] Existing Instance bulk_serde.
#[local] Existing Instance bulk_int.
#[local] Existing Instance scanned_strings.
#[local] Existing Instance any_http.
#[local] Existing Instance sum_hmac.
#[local] Existing Instance tenancy_router.
Definition binary_args : list str := lit <$> ["--upstream=http://eu"; "--index=shared"; "--tokens"; "t0k=ci"; "--directive-admin-token=s3cret"]%string.
Definition binary_config : Config := default defaults (ok (load no_file no_env binary_args)).
(** A build without features, on a machine without files. *)
Definition bare_build : Build := MkBuild false false false.
Definition bare_world : World := {|
  read_file _ := Err (lit "not found");
  TlsProvider := unit;
  UpstreamTls := unit;
  from_pem _ _ _ := Err (lit "bad pem");
  upstream_client_config _ _ := Err (lit "bad pem");
  connect_brokers _ _ := Err (lit "unreachable");
  open_wal _ := Err (lit "not found");
  connect_etcd _ := Err (lit "unreachable");
  bind_socket _ := Ok tt
|}.
Definition idle_handler : AppHandler := MkAppHandler (pipeline_new 7) pass_all true false None false false false LevelOff false false.
Definition started : Deployment bare_world :=
  default (MkDeployment bare_world idle_handler (reference_new [] [] []) ∅ None opensearch_sink_new None None)
    (ok (startup bare_build bare_world 7 binary_config)).
Example binary_starts :
  load no_file no_env binary_args = Ok binary_config
  /\ is_Some (ok (startup bare_build bare_world 7 binary_config))
  /\ directive_admin (d_handler bare_world started) = Some (lit "s3cret") /\ d_tokens bare_world started !! lit "t0k" = Some (lit "ci")
  /\ h_pipeline (d_handler bare_world started) = pipeline_new 7.
Proof. split_and!; try (vm_compute; reflexivity). vm_compute. by eexists. Qed.
Lemma started_Ok : startup bare_build bare_world 7 binary_config = Ok started.
Proof. reflexivity. Qed.
#[local] Instance started_tenancy : TenancySpi := reference_tenancy (d_tenancy bare_world started).
Definition binary_world : world_of ProxyCall nat := fun B c n =>
  match c in ProxyCall B return B * nat with
  | Shared c => proxy_world _ (Shared c) n
  | Serving s =>
      match s in ServerCall _ B return B * nat with
      | Authenticate creds => (reference_authenticate (d_tokens bare_world started) creds, n)
      | EngineCall c =>
          match c in WireCall B return B * nat with
          | Outer o => match o in Call B return B * nat with
                       | Resolve ctx => (Tenancy.resolve ctx, n)
                       | o => wire_world _ (Outer o) n
                       end
          | Inner i => wire_world _ (Inner i) n
          end
      | s => proxy_world _ (Serving s) n
      end
  end.
Definition client_request (token : str) : HyperRequest :=
  MkHyperRequest (lit "POST") (lit "/orders/_doc") None false
    [(lit "x-tenant", lit "acme"); (lit "authorization", lit "Bearer " ++ token); (lit "content-length", lit "10")]
    [Data (body "{'id':'v'}")].
Definition binary_run (token : str) :=
  interp binary_world (binary binary_config started 0 (MkInstant 0) (client_request token) secure_conn limits_default) 0.
Example binary_requests :
  omap leaves (binary_run (lit "t0k")).1.1
  = [(lit "default", false, MkHttpRequest Put (lit "http://eu/shared/_doc/acme:v?routing=acme")
       (<[lit "x-tenant" := lit "acme"]> (<[lit "authorization" := lit "Bearer t0k"]> json_headers))
       [Data (body "{'_tenant':'acme','id':'v'}")])]
  /\ (sr_status <$> (binary_run (lit "t0k")).1.2) = Some 201%Z
  /\ omap leaves (binary_run (lit "bad")).1.1 = [] /\ (sr_status <$> (binary_run (lit "bad")).1.2) = Some 401%Z.
Proof. split_and!; vm_compute; reflexivity. Qed.
#[local] Abbreviation acme_run := (binary_run (lit "t0k")).
Lemma binary_world_authenticates {A} (m : prog_of ProxyCall A) n : Authenticated started (interp binary_world m n).1.1.
Proof.
  intros creds r Hin.
  assert (H : Forall (fun e => match e with
    | Ev c a => match c in ProxyCall B return B -> Prop with
                | Shared _ => fun _ => True
                | Serving s => match s in ServerCall _ B return B -> Prop with
                               | Authenticate creds => fun a => a = reference_authenticate (d_tokens bare_world started) creds
                               | _ => fun _ => True
                               end
                end a end) (interp binary_world m n).1.1).
  { apply interp_Forall. intros B [? c|? []] k; done. }
  rewrite Forall_forall in H. exact (H _ Hin).
Qed.
End Runs.
