(* ===== verification/Tls.v ===== *)
(** * The TLS policy ([crates/osproxy-transport/src/tls.rs])

    What the proxy asks of rustls, for the connections it accepts and for those it opens to
    the clusters: the suites, the versions, who has to show a certificate and which roots it
    has to chain to.  rustls, the PEM parser and the digest are an interface; a config is
    the record of what its builder was given. *)
From stdpp Require Import base option list strings numbers gmap.
From Stdlib Require Import Ascii ZArith Lia.
From S2P Require Import Prelude.
From S2P Require Import Hex.
From S2P Require Import NetAddr.
From S2P Require Import RawConfig.
From S2P Require Import Config.
From S2P Require Import Signed.
From S2P Require Import Server.
From S2P Require Import SinkPools.
From S2P Require Import Deploy.

Open Scope osp_scope.

(** ** rustls *)
Inductive CipherSuite : Type :=
| TLS13_AES_128_GCM_SHA256 | TLS13_AES_256_GCM_SHA384
| TLS_ECDHE_ECDSA_WITH_AES_128_GCM_SHA256 | TLS_ECDHE_RSA_WITH_AES_128_GCM_SHA256
| TLS_ECDHE_ECDSA_WITH_AES_256_GCM_SHA384 | TLS_ECDHE_RSA_WITH_AES_256_GCM_SHA384
| OtherSuite (code : Z).
#[export] Instance suite_eq_dec : EqDecision CipherSuite.
Proof. solve_decision. Defined.
Inductive TlsVersion : Type := TLS12 | TLS13.

(** A crypto provider has a list of suites and other parts. *)
Record RustlsCryptoProvider (A : Type) : Type := MkCrypto { cipher_suites : list CipherSuite; crypto_rest : A }.
Arguments MkCrypto {A} _ _.
Arguments cipher_suites {A} _.
Arguments crypto_rest {A} _.

(** What rustls refuses, it refuses with a message ([Some]). *)
Class Rustls := {
  Certificate : Type;
  PrivateKey : Type;
  CryptoRest : Type;
  ring_provider : RustlsCryptoProvider CryptoRest;
  aws_lc_rs_provider : RustlsCryptoProvider CryptoRest;
  crypto_fips : RustlsCryptoProvider CryptoRest -> bool;
  pem_slice_iter : bytes -> list (option Certificate);
  key_from_pem_slice : bytes -> option PrivateKey;
  versions_refused : RustlsCryptoProvider CryptoRest -> list TlsVersion -> option str;
  root_refused : Certificate -> option str;
  verifier_refused : list Certificate -> RustlsCryptoProvider CryptoRest -> option str;
  identity_refused : RustlsCryptoProvider CryptoRest -> list Certificate -> PrivateKey -> option str;
  sha256 : bytes -> bytes
}.

Section Policy.
Context {Rt : Rustls}.

(** Who has to show a certificate: nobody, or every client, one that chains to the roots. *)
Record ServerConfig : Type := MkServerConfig {
  sc_crypto : RustlsCryptoProvider CryptoRest; sc_versions : list TlsVersion;
  sc_client_roots : option (list Certificate); sc_chain : list Certificate; sc_key : PrivateKey; sc_alpn : list bytes
}.
Record ClientConfig : Type := MkClientConfig {
  cc_crypto : RustlsCryptoProvider CryptoRest; cc_versions : list TlsVersion;
  cc_roots : list Certificate; cc_identity : option (list Certificate * PrivateKey); cc_alpn : list bytes
}.

(** ** The policy *)
Definition FIPS_APPROVED_SUITES : list CipherSuite :=
  [TLS13_AES_128_GCM_SHA256; TLS13_AES_256_GCM_SHA384;
   TLS_ECDHE_ECDSA_WITH_AES_128_GCM_SHA256; TLS_ECDHE_RSA_WITH_AES_128_GCM_SHA256;
   TLS_ECDHE_ECDSA_WITH_AES_256_GCM_SHA384; TLS_ECDHE_RSA_WITH_AES_256_GCM_SHA384].
Definition FIPS_VERSIONS : list TlsVersion := [TLS13; TLS12].
Inductive TlsError : Type := PemError (what : str) | NoKey | ConfigError (msg : str).
Definition tls_error_display (e : TlsError) : str :=
  match e with
  | PemError what => lit "invalid PEM: " ++ what
  | NoKey => lit "no private key found"
  | ConfigError msg => lit "rustls configuration error: " ++ msg
  end.
Definition accepted_by_rustls (refused : option str) : Result unit TlsError :=
  match refused with Some msg => Err (ConfigError msg) | None => Ok tt end.

Definition parse_certs (pem : bytes) : Result (list Certificate) TlsError :=
  match mapM id (pem_slice_iter pem) with
  | None => Err (PemError (lit "certificate"))
  | Some [] => Err (PemError (lit "certificate (none found)"))
  | Some certs => Ok certs
  end.
Definition parse_key (pem : bytes) : Result PrivateKey TlsError := ok_or (key_from_pem_slice pem) NoKey.
Definition fips_pinned_provider (base : RustlsCryptoProvider CryptoRest) : RustlsCryptoProvider CryptoRest :=
  MkCrypto (List.filter (fun cs => bool_decide (cs ∈ FIPS_APPROVED_SUITES)) (cipher_suites base)) (crypto_rest base).
(** The loop that adds the roots: the first that is refused ends it. *)
Definition add_roots (pem : bytes) : Result (list Certificate) TlsError :=
  let? certs := parse_certs pem in
  let? _ := collect (fun ca => accepted_by_rustls (root_refused ca)) certs in Ok certs.
Definition ALPN : list bytes := [lit "h2"; lit "http/1.1"].

Definition build_server_config (base : RustlsCryptoProvider CryptoRest) (cert_pem key_pem : bytes)
    (client_ca_pem : option bytes) : Result ServerConfig TlsError :=
  let provider := fips_pinned_provider base in
  let? _ := accepted_by_rustls (versions_refused provider FIPS_VERSIONS) in
  let? client_roots := match client_ca_pem with
                       | None => Ok None
                       | Some ca_pem =>
                           let? roots := add_roots ca_pem in
                           let? _ := accepted_by_rustls (verifier_refused roots provider) in
                           Ok (Some roots)
                       end in
  let? certs := parse_certs cert_pem in
  let? key := parse_key key_pem in
  let? _ := accepted_by_rustls (identity_refused provider certs key) in
  Ok (MkServerConfig provider FIPS_VERSIONS client_roots certs key ALPN).
Definition build_client_config (provider : RustlsCryptoProvider CryptoRest) (ca_pem : bytes)
    (client_identity : option (bytes * bytes)) : Result ClientConfig TlsError :=
  let? _ := accepted_by_rustls (versions_refused provider FIPS_VERSIONS) in
  let? roots := add_roots ca_pem in
  let? identity := match client_identity with
                   | None => Ok None
                   | Some (cert_pem, key_pem) =>
                       let? certs := parse_certs cert_pem in
                       let? key := parse_key key_pem in
                       let? _ := accepted_by_rustls (identity_refused provider certs key) in
                       Ok (Some (certs, key))
                   end in
  Ok (MkClientConfig provider FIPS_VERSIONS roots identity ALPN).

(** ** The two builds: the [non-fips] and the [fips] feature choose one of the providers *)
Inductive Module_ : Type := RingProvider | AwsLcFipsProvider.
Definition fips_base : Result (RustlsCryptoProvider CryptoRest) TlsError :=
  if crypto_fips aws_lc_rs_provider then Ok aws_lc_rs_provider
  else Err (ConfigError (lit "aws-lc-rs is not operating in FIPS mode: the `fips` build did not engage AWS-LC-FIPS (check the AWS-LC-FIPS toolchain and that the `fips` feature is active)")).
Definition module_base (m : Module_) : Result (RustlsCryptoProvider CryptoRest) TlsError :=
  match m with RingProvider => Ok ring_provider | AwsLcFipsProvider => fips_base end.
Definition from_pem (m : Module_) (cert_pem key_pem : bytes) : Result ServerConfig TlsError :=
  let? base := module_base m in build_server_config base cert_pem key_pem None.
Definition from_pem_mtls (m : Module_) (cert_pem key_pem client_ca_pem : bytes) : Result ServerConfig TlsError :=
  let? base := module_base m in build_server_config base cert_pem key_pem (Some client_ca_pem).
Definition upstream_client_config (m : Module_) (ca_pem : bytes) (client_identity : option (bytes * bytes)) : Result ClientConfig TlsError :=
  let? base := module_base m in build_client_config base ca_pem client_identity.
Definition fips_mode (m : Module_) (c : ServerConfig) : bool :=
  match m with RingProvider => false | AwsLcFipsProvider => crypto_fips (sc_crypto c) end.

(** ** The identity of a client *)
Definition cert_fingerprint (der : bytes) : str := mbind hex_of (sha256 der).
(** [peer]: the certificates of the peer, the first being its own. *)
Definition client_subject_from_tls (peer : option (list bytes)) : option str :=
  cert ← peer ≫= head; Some (lit "cert:" ++ cert_fingerprint cert).
End Policy.

(** ** What the builders give *)
Section Facts.
Context {Rt : Rustls}.
Lemma add_roots_Ok pem roots : add_roots pem = Ok roots -> parse_certs pem = Ok roots.
Proof. unfold add_roots. by intros (certs & -> & (u & _ & [= ->])%rbind_Ok)%rbind_Ok. Qed.
Lemma parse_certs_nonempty pem certs : parse_certs pem = Ok certs -> certs <> [].
Proof. unfold parse_certs. destruct (mapM id _) as [[|c cs]|]; try done. by intros [= <-]. Qed.
Lemma pinned_suites base cs :
  cs ∈ cipher_suites (fips_pinned_provider base) <-> cs ∈ cipher_suites base /\ cs ∈ FIPS_APPROVED_SUITES.
Proof. cbn. rewrite !list_elem_of_In, filter_In, bool_decide_eq_true, list_elem_of_In. done. Qed.
(** A server's config, of the material it was built from. *)
Definition served_as_asked (c : ServerConfig) (cert_pem key_pem : bytes) (ca_pem : option bytes) : Prop :=
  (exists base, sc_crypto c = fips_pinned_provider base) /\ sc_versions c = FIPS_VERSIONS
  /\ parse_certs cert_pem = Ok (sc_chain c) /\ parse_key key_pem = Ok (sc_key c)
  /\ match ca_pem with
     | None => sc_client_roots c = None
     | Some pem => exists roots, sc_client_roots c = Some roots /\ parse_certs pem = Ok roots
     end.
Lemma build_server_config_Ok base cert_pem key_pem ca_pem c :
  build_server_config base cert_pem key_pem ca_pem = Ok c -> served_as_asked c cert_pem key_pem ca_pem.
Proof.
  unfold build_server_config, served_as_asked. intros (u & _ & (roots & Hr & (certs & Hc & (key & Hk & (v & _ & [= <-])%rbind_Ok)
    %rbind_Ok)%rbind_Ok)%rbind_Ok)%rbind_Ok. cbn. split_and!; try done; [by exists base|].
  destruct ca_pem as [pem|]; [|by injection Hr as <-]. revert Hr. intros (rs & Hrs%add_roots_Ok & (u' & _ & [= <-])%rbind_Ok)%rbind_Ok.
  by exists rs.
Qed.
Lemma build_client_config_Ok base ca_pem identity c :
  build_client_config base ca_pem identity = Ok c ->
  cc_crypto c = base /\ cc_versions c = FIPS_VERSIONS /\ parse_certs ca_pem = Ok (cc_roots c)
  /\ match identity with
     | None => cc_identity c = None
     | Some (cert_pem, key_pem) => exists certs key, cc_identity c = Some (certs, key) /\ parse_certs cert_pem = Ok certs /\ parse_key key_pem = Ok key
     end.
Proof.
  unfold build_client_config. intros (u & _ & (roots & Hr%add_roots_Ok & (id' & Hi & [= <-])%rbind_Ok)%rbind_Ok)%rbind_Ok. cbn.
  split_and!; try done. destruct identity as [[cert_pem key_pem]|]; [|by injection Hi as <-].
  revert Hi. intros (certs & Hc & (key & Hk & (u' & _ & [= <-])%rbind_Ok)%rbind_Ok)%rbind_Ok. by exists certs, key.
Qed.
Lemma hex_inj (a b : bytes) : mbind hex_of a = mbind hex_of b -> a = b.
Proof.
  intros H. assert (Hl : length a = length b) by (apply (f_equal length) in H; rewrite !length_hex in H; lia).
  pose proof (decode_hex_of a) as Ha. rewrite H, Hl, decode_hex_of in Ha. by injection Ha.
Qed.
(** Two clients are one principal exactly when their certificates have one digest. *)
Lemma subject_is_the_digest a b rest rest' :
  client_subject_from_tls (Some (a :: rest)) = client_subject_from_tls (Some (b :: rest')) <-> sha256 a = sha256 b.
Proof.
  cbn. unfold cert_fingerprint. split; [|by intros ->]. intros [= H]. by apply hex_inj.
Qed.

(** ** The binary's listeners and clients *)
(** The world of the start-up, with this policy for its constructors. *)
Definition crypto_world (m : Module_) (w : World) : World := {|
  read_file := read_file w;
  TlsProvider := ServerConfig;
  UpstreamTls := ClientConfig;
  Deploy.from_pem cert key ca :=
    map_err tls_error_display (match ca with Some ca => from_pem_mtls m cert key ca | None => from_pem m cert key end);
  Deploy.upstream_client_config ca identity := map_err tls_error_display (upstream_client_config m ca identity);
  connect_brokers := connect_brokers w;
  open_wal := open_wal w;
  connect_etcd := connect_etcd w;
  bind_socket := bind_socket w
|}.
Context {Hm : Hmac} (build : Build) (m : Module_) (w : World).
Definition file_certs (path : str) (certs : list Certificate) : Prop :=
  exists pem, read_file w path = Ok pem /\ parse_certs pem = Ok certs.
Definition file_key (path : str) (key : PrivateKey) : Prop :=
  exists pem, read_file w path = Ok pem /\ parse_key pem = Ok key.
Lemma map_err_Ok {A E F} (f : E -> F) (r : Result A E) a : map_err f r = Ok a -> r = Ok a.
Proof. destruct r; cbn; [|done]. by intros [= ->]. Qed.
Lemma provider_of cert key ca c : Deploy.from_pem (crypto_world m w) cert key ca = Ok c ->
  served_as_asked c cert key ca /\ (m = AwsLcFipsProvider -> crypto_fips aws_lc_rs_provider = true).
Proof.
  cbn. intros H%map_err_Ok. assert (Hb : exists base, module_base m = Ok base /\ build_server_config base cert key ca = Ok c).
  { destruct ca; revert H; [unfold from_pem_mtls|unfold from_pem]; by intros (base & Hb & H)%rbind_Ok; exists base. }
  destruct Hb as (base & Hb & Hc). split; [by eapply build_server_config_Ok|]. intros ->. cbn in Hb. unfold fips_base in Hb.
  by destruct (crypto_fips _).
Qed.
Lemma reading_Ok path b : reading (crypto_world m w) path = Ok b -> read_file w path = Ok b.
Proof. apply map_err_Ok. Qed.
Lemma load_tls_as_asked t c : load_tls_provider (crypto_world m w) (Some t) = Ok c -> exists s, c = Some s
  /\ (exists base, sc_crypto s = fips_pinned_provider base) /\ sc_versions s = FIPS_VERSIONS
  /\ file_certs (cert_path t) (sc_chain s) /\ file_key (key_path t) (sc_key s)
  /\ match client_ca_path t with
     | None => sc_client_roots s = None
     | Some p => exists roots, sc_client_roots s = Some roots /\ file_certs p roots /\ roots <> []
     end
  /\ (m = AwsLcFipsProvider -> crypto_fips aws_lc_rs_provider = true).
Proof.
  cbn [load_tls_provider]. intros (cert & Hc%reading_Ok & (key & Hk%reading_Ok & (ca & Hca & (s & Hs & [= <-])%rbind_Ok)%rbind_Ok)%rbind_Ok)%rbind_Ok.
  apply map_err_Ok, provider_of in Hs as ((Hb & Hv & Hch & Hke & Hro) & Hf). exists s. split_and!; try done; [by exists cert|by exists key|].
  destruct (client_ca_path t) as [p|].
  - revert Hca. intros (pem & Hpem%reading_Ok & [= <-])%rbind_Ok. destruct Hro as (roots & ? & Hr). exists roots.
    split_and!; [done|by exists pem|by eapply parse_certs_nonempty].
  - by injection Hca as <-.
Qed.
Lemma load_upstream_as_asked t c : load_upstream_tls (crypto_world m w) (Some t) = Ok c -> exists s, c = Some s
  /\ cc_versions s = FIPS_VERSIONS /\ file_certs (up_ca_path t) (cc_roots s) /\ cc_roots s <> []
  /\ match up_cert_path t, up_key_path t with
     | Some cp, Some kp => exists certs key, cc_identity s = Some (certs, key) /\ file_certs cp certs /\ file_key kp key
     | _, _ => cc_identity s = None
     end.
Proof.
  cbn [load_upstream_tls]. intros (ca & Hca%reading_Ok & (idn & Hid & (s & Hs & [= <-])%rbind_Ok)%rbind_Ok)%rbind_Ok.
  apply map_err_Ok in Hs. cbn in Hs. apply map_err_Ok in Hs. revert Hs. intros (base & _ & (_ & Hv & Hr & Hi)%build_client_config_Ok)%rbind_Ok.
  exists s. split_and!; [done|done|by exists ca|by eapply parse_certs_nonempty|].
  destruct (up_cert_path t) as [cp|]; [destruct (up_key_path t) as [kp|]|]; try (by injection Hid as <-).
  revert Hid. intros (cert & Hc%reading_Ok & (key & Hk%reading_Ok & [= <-])%rbind_Ok)%rbind_Ok.
  destruct Hi as (certs & k & ? & ? & ?). exists certs, k. split_and!; [done|by exists cert|by exists key].
Qed.
End Facts.

(** ** The binary keeps its TLS settings *)
Section Deployed.
Context {Rt : Rustls} {Hm : Hmac} (build : Build) (m : Module_) (w : World).

(** C27: TLS is as it was asked for. A binary that starts, from settings that load, serves
    in the clear exactly when no certificate is set; otherwise it presents the configured
    chain and key, offers approved suites and versions only, and demands a client
    certificate exactly when a client CA is set, one that chains to the certificates of
    that file, of which there is one; in the FIPS build only over a module in FIPS mode. To
    the clusters it trusts exactly the certificates of the upstream CA's file, and shows the
    configured identity; without that setting it has no upstream TLS at all. *)
Theorem configured_tls_is_served seed read env args cfg (d : Deployment (crypto_world m w)) :
  load read env args = Ok cfg -> startup build (crypto_world m w) seed cfg = Ok d ->
  exists raw, load_raw read env args = Ok raw
  /\ (raw !! lit "tls_cert" = None -> d_tls _ d = None)
  /\ (forall cert, raw !! lit "tls_cert" = Some cert -> exists s key, d_tls _ d = Some s /\ raw !! lit "tls_key" = Some key
       /\ file_certs w cert (sc_chain s) /\ file_key w key (sc_key s)
       /\ (forall cs, cs ∈ cipher_suites (sc_crypto s) -> cs ∈ FIPS_APPROVED_SUITES) /\ sc_versions s = [TLS13; TLS12]
       /\ match raw !! lit "tls_client_ca" with
          | None => sc_client_roots s = None
          | Some ca => exists roots, sc_client_roots s = Some roots /\ file_certs w ca roots /\ roots <> []
          end
       /\ (m = AwsLcFipsProvider -> crypto_fips aws_lc_rs_provider = true))
  /\ (raw !! lit "upstream_tls_ca" = None -> d_upstream_tls _ d = None)
  /\ (forall ca, raw !! lit "upstream_tls_ca" = Some ca -> exists s, d_upstream_tls _ d = Some s
       /\ file_certs w ca (cc_roots s) /\ cc_roots s <> [] /\ cc_versions s = [TLS13; TLS12]
       /\ match raw !! lit "upstream_tls_cert", raw !! lit "upstream_tls_key" with
          | Some cp, Some kp => exists certs key, cc_identity s = Some (certs, key) /\ file_certs w cp certs /\ file_key w kp key
          | _, _ => cc_identity s = None
          end).
Proof.
  intros (raw & Hraw & Ht & Hu)%load_tls Hst. exists raw. split; [done|].
  pose proof (startup_Ok _ _ _ _ _ Hst) as (p & _ & _ & _ & _ & _ & _ & _ & Hl & Hul).
  unfold tls, opt, is_set in Ht. unfold upstream_tls, opt, is_set in Hu. split_and!.
  - intros Hn. rewrite Hn in Ht. destruct (raw !! lit "tls_key"); [done|]. destruct (raw !! lit "tls_client_ca"); [done|].
    injection Ht as Ht. rewrite <- Ht in Hl. by injection Hl as <-.
  - intros cert Hc. rewrite Hc in Ht. destruct (raw !! lit "tls_key") as [key|]; [|done]. injection Ht as Ht. rewrite <- Ht in Hl.
    apply load_tls_as_asked in Hl as (s & Hs & [base Hb] & Hv & Hch & Hk & Hr & Hf). exists s, key. split_and!; try done.
    intros cs. rewrite Hb. by intros [_ H]%pinned_suites.
  - intros Hn. rewrite Hn in Hu. destruct (raw !! lit "upstream_tls_cert"); [done|]. destruct (raw !! lit "upstream_tls_key"); [done|].
    injection Hu as Hu. rewrite <- Hu in Hul. by injection Hul as <-.
  - intros ca Hc. rewrite Hc in Hu.
    destruct (raw !! lit "upstream_tls_cert") as [cp|], (raw !! lit "upstream_tls_key") as [kp|]; try done;
      injection Hu as Hu; rewrite <- Hu in Hul; apply load_upstream_as_asked in Hul as (s & Hs & Hv & Hr & Hne & Hi);
      exists s; split_and!; done.
Qed.
End Deployed.

(** ** A binary with mutual TLS *)
Section Runs.
#[local] Existing Instance sum_hmac.
(** A PEM text is its certificates, between bars; rustls refuses nothing. Its suites are
    those of the [ring] module. *)
Definition TLS13_CHACHA20_POLY1305_SHA256 : CipherSuite := OtherSuite 4867.
Definition ring_suites : list CipherSuite :=
  [TLS13_AES_256_GCM_SHA384; TLS13_AES_128_GCM_SHA256; TLS13_CHACHA20_POLY1305_SHA256;
   TLS_ECDHE_ECDSA_WITH_AES_256_GCM_SHA384; TLS_ECDHE_ECDSA_WITH_AES_128_GCM_SHA256; OtherSuite 52393;
   TLS_ECDHE_RSA_WITH_AES_256_GCM_SHA384; TLS_ECDHE_RSA_WITH_AES_128_GCM_SHA256; OtherSuite 52392].
#[local] Instance toy_rustls : Rustls := {|
  Certificate := bytes;
  PrivateKey := bytes;
  CryptoRest := unit;
  ring_provider := MkCrypto ring_suites tt;
  aws_lc_rs_provider := MkCrypto ring_suites tt;
  crypto_fips c := bool_decide (Forall (fun cs => cs ∈ FIPS_APPROVED_SUITES) (cipher_suites c));
  pem_slice_iter pem := match pem with [] => [] | _ => Some <$> split "|" pem end;
  key_from_pem_slice pem := match pem with [] => None | _ => Some pem end;
  versions_refused _ _ := None;
  root_refused _ := None;
  verifier_refused _ _ := None;
  identity_refused _ _ _ := None;
  sha256 b := b
|}.
Definition disk (path : str) : Result bytes str :=
  if str_eqb path (lit "chain.pem") then Ok (lit "leaf|issuer")
  else if str_eqb path (lit "key.pem") then Ok (lit "key")
  else if str_eqb path (lit "ca.pem") then Ok (lit "root")
  else Err (lit "not found").
Definition tls_world : World := {|
  read_file := disk;
  TlsProvider := unit;
  UpstreamTls := unit;
  Deploy.from_pem _ _ _ := Err [];
  Deploy.upstream_client_config _ _ := Err [];
  connect_brokers _ _ := Err [];
  open_wal _ := Err [];
  connect_etcd _ := Err [];
  bind_socket _ := Ok tt
|}.
Definition tls_args : list str := lit <$>
  ["--upstream=https://eu"; "--index=shared"; "--tls-cert=chain.pem"; "--tls-key=key.pem"; "--tls-client-ca=ca.pem"; "--upstream-tls-ca=ca.pem"]%string.
Definition tls_config : Config := default defaults (ok (load no_file no_env tls_args)).
Definition tls_started : option (Deployment (crypto_world RingProvider tls_world)) :=
  ok (startup bare_build (crypto_world RingProvider tls_world) 7 tls_config).
Definition tls_upstream : option ClientConfig := match tls_started with Some d => d_upstream_tls _ d | None => None end.
Example mutual_tls_starts :
  load no_file no_env tls_args = Ok tls_config
  /\ (d ← tls_started; d_tls _ d)
     = Some (MkServerConfig (MkCrypto [TLS13_AES_256_GCM_SHA384; TLS13_AES_128_GCM_SHA256;
               TLS_ECDHE_ECDSA_WITH_AES_256_GCM_SHA384; TLS_ECDHE_ECDSA_WITH_AES_128_GCM_SHA256;
               TLS_ECDHE_RSA_WITH_AES_256_GCM_SHA384; TLS_ECDHE_RSA_WITH_AES_128_GCM_SHA256] tt)
               [TLS13; TLS12] (Some [lit "root"]) [lit "leaf"; lit "issuer"] (lit "key") [lit "h2"; lit "http/1.1"]).
Proof. split; vm_compute; reflexivity. Qed.
(** The client's side is not pinned: to the clusters it offers what the module offers. *)
Example upstream_suites_are_not_pinned :
  (option_map (fun c => cipher_suites (cc_crypto c)) tls_upstream) = Some ring_suites
  /\ TLS13_CHACHA20_POLY1305_SHA256 ∉ FIPS_APPROVED_SUITES.
Proof. split; [vm_compute; reflexivity|]. by apply (bool_decide_unpack _). Qed.
(** A FIPS build over a module that is not in FIPS mode does not start. *)
Example fips_build_fails_loudly :
  is_ok (startup bare_build (crypto_world AwsLcFipsProvider tls_world) 7 tls_config) = false.
Proof. vm_compute. reflexivity. Qed.
Definition tls_deployment : Deployment (crypto_world RingProvider tls_world) :=
  default (MkDeployment (crypto_world RingProvider tls_world) idle_handler (RefTenancy.reference_new [] [] []) ∅ None opensearch_sink_new None None) tls_started.
Lemma configured_tls_is_served_witness :
  exists raw, load_raw no_file no_env tls_args = Ok raw
  /\ (raw !! lit "tls_cert" = None -> d_tls _ tls_deployment = None)
  /\ (forall cert, raw !! lit "tls_cert" = Some cert -> exists s key, d_tls _ tls_deployment = Some s /\ raw !! lit "tls_key" = Some key
       /\ file_certs tls_world cert (sc_chain s) /\ file_key tls_world key (sc_key s)
       /\ (forall cs, cs ∈ cipher_suites (sc_crypto s) -> cs ∈ FIPS_APPROVED_SUITES) /\ sc_versions s = [TLS13; TLS12]
       /\ match raw !! lit "tls_client_ca" with
          | None => sc_client_roots s = None
          | Some ca => exists roots, sc_client_roots s = Some roots /\ file_certs tls_world ca roots /\ roots <> []
          end
       /\ (RingProvider = AwsLcFipsProvider -> crypto_fips aws_lc_rs_provider = true))
  /\ (raw !! lit "upstream_tls_ca" = None -> d_upstream_tls _ tls_deployment = None)
  /\ (forall ca, raw !! lit "upstream_tls_ca" = Some ca -> exists s, d_upstream_tls _ tls_deployment = Some s
       /\ file_certs tls_world ca (cc_roots s) /\ cc_roots s <> [] /\ cc_versions s = [TLS13; TLS12]
       /\ match raw !! lit "upstream_tls_cert", raw !! lit "upstream_tls_key" with
          | Some cp, Some kp => exists certs key, cc_identity s = Some (certs, key) /\ file_certs tls_world cp certs /\ file_key tls_world kp key
          | _, _ => cc_identity s = None
          end).
Proof.
  apply (configured_tls_is_served bare_build RingProvider tls_world 7 no_file no_env tls_args tls_config tls_deployment).
  - vm_compute. reflexivity.
  - reflexivity.
Defined.
End Runs.
