(* ===== verification/Lifecycle.v ===== *)
(** * The accept loop and its shutdown ([crates/osproxy-transport/src/server.rs])

    One task accepts connections and, once the shutdown signal has come, waits for those
    it has accepted; every connection is a task of its own.  They share the count of live
    connections, an atomic [usize], and the drain flag. *)
From stdpp Require Import base option list strings numbers sets gmap relations.
From Stdlib Require Import Ascii ZArith Lia.
From S2P Require Import Prelude.
From S2P Require Import Hex.
From S2P Require Import NetAddr.
From S2P Require Import RawConfig.
From S2P Require Import Config.
From S2P Require Import Signed.
From S2P Require Import Server.
From S2P Require Import SinkPools.
From S2P Require Import Deploy.
From S2P Require Import Ingress.
From S2P Require Import Tls.

Open Scope osp_scope.

(** In milliseconds. *)
Definition DRAIN_DEADLINE : Z := 30000.
Definition DRAIN_POLL : Z := 20.

Section Modes.
Context {Rt : Rustls}.
(** How an accepted stream becomes a served connection: directly, or through a handshake
    under the provider's configuration. *)
Inductive Mode : Type := PlainMode | TlsMode (acceptor : ServerConfig).
(** What a connection tells of its peer; rustls gives the peer's certificates. *)
Definition conn_info_default : ConnInfo := MkConnInfo None false.
Definition conn_info_from_tls (peer : option (list bytes)) : ConnInfo := MkConnInfo (client_subject_from_tls peer) true.

(** A call of [run]: with a signal, or with the one that never comes. *)
Definition never : bool := false.
Record Serving : Type := MkServing { sv_mode : Mode; sv_limits : IngressLimits; sv_signalled : bool }.
Definition serve_with_limits (limits : IngressLimits) : Serving := MkServing PlainMode limits never.
Definition serve : Serving := serve_with_limits limits_default.
Definition serve_with_shutdown : Serving := MkServing PlainMode limits_default true.
Definition serve_tls_with_limits (provider : ServerConfig) (limits : IngressLimits) : Serving :=
  MkServing (TlsMode provider) limits never.
Definition serve_tls (provider : ServerConfig) : Serving := serve_tls_with_limits provider limits_default.
Definition serve_tls_with_shutdown (provider : ServerConfig) : Serving := MkServing (TlsMode provider) limits_default true.

(** What rustls says of a handshake that succeeds: without a verifier of client
    certificates none is asked for, and with the one that [build_server_config] makes, which
    demands one, there is one. *)
Definition handshake_peer (c : ServerConfig) (peer : option (list bytes)) : Prop :=
  match sc_client_roots c with None => peer = None | Some _ => exists cert rest, peer = Some (cert :: rest) end.
End Modes.

(** A connection's task: what is known of its peer once it is served, whether it has been
    told to wind down, and the requests it is serving. *)
Record Conn : Type := MkConn { cn_id : nat; cn_info : option ConnInfo; cn_told : bool; cn_requests : nat }.
(** Where [run] stands: at its [select], past the check of the ceiling with a stream to
    spawn, in [await_drain] with the time since it began, or returned. *)
Inductive Loop : Type :=
| Selecting
| Spawning
| Draining (elapsed : Z)
| Drained (elapsed : Z)
| Failed.
Record Listener : Type := MkListener { loop : Loop; active : Z; drain : bool; conns : list Conn; next_id : nat }.
Definition listener_new : Listener := MkListener Selecting 0 false [] 0.

Section Run.
Context {Rt : Rustls} (sv : Serving).
#[local] Abbreviation limits := (sv_limits sv).

(** The steps of [run]. A connection that is accepted over the ceiling is dropped; a sleep
    of the drain lasts at least its period, but the deadline wakes it. *)
Inductive loop_step : Listener -> Listener -> Prop :=
| accept_over_ceiling a d cs n :
    (max_connections limits <= a)%Z -> loop_step (MkListener Selecting a d cs n) (MkListener Selecting a d cs n)
| accept_checked a d cs n :
    (a < max_connections limits)%Z -> loop_step (MkListener Selecting a d cs n) (MkListener Spawning a d cs n)
| spawn_conn a d cs n :
    loop_step (MkListener Spawning a d cs n)
      (MkListener Selecting (u64_wrap (a + 1)) d
        (MkConn n (match sv_mode sv with PlainMode => Some conn_info_default | TlsMode _ => None end) false 0 :: cs) (S n))
| accept_failed a d cs n : loop_step (MkListener Selecting a d cs n) (MkListener Failed a d cs n)
| shutdown a d cs n :
    sv_signalled sv = true -> loop_step (MkListener Selecting a d cs n) (MkListener (Draining 0) a true cs n)
| drain_done e d cs n : loop_step (MkListener (Draining e) 0 d cs n) (MkListener (Drained e) 0 d cs n)
| drain_sleep e e' a d cs n :
    a <> 0%Z -> (e < DRAIN_DEADLINE)%Z -> (Z.min (e + DRAIN_POLL) DRAIN_DEADLINE <= e')%Z ->
    loop_step (MkListener (Draining e) a d cs n) (MkListener (Draining e') a d cs n)
| drain_timeout e a d cs n :
    (DRAIN_DEADLINE <= e)%Z -> loop_step (MkListener (Draining e) a d cs n) (MkListener (Drained e) a d cs n).

(** The steps of a connection: its handshake completes, it sees the flag, a request
    begins or ends on it, or its task ends, for whatever reason (the handshake failed, the
    client left, it has wound down, it panicked), and gives its count back. *)
Inductive conn_event : bool -> Conn -> option Conn -> Prop :=
| handshake d i t r acceptor peer :
    sv_mode sv = TlsMode acceptor -> handshake_peer acceptor peer ->
    conn_event d (MkConn i None t r) (Some (MkConn i (Some (conn_info_from_tls peer)) t r))
| told i f r : conn_event true (MkConn i (Some f) false r) (Some (MkConn i (Some f) true r))
| request_begins d i f r : conn_event d (MkConn i (Some f) false r) (Some (MkConn i (Some f) false (S r)))
| request_ends d i f t r : conn_event d (MkConn i (Some f) t (S r)) (Some (MkConn i (Some f) t r))
| conn_ends d c : conn_event d c None.
Inductive conn_step : Listener -> Listener -> Prop :=
| conn_goes_on l a d cs1 cs2 c c' n :
    conn_event d c (Some c') ->
    conn_step (MkListener l a d (cs1 ++ c :: cs2) n) (MkListener l a d (cs1 ++ c' :: cs2) n)
| conn_gone l a d cs1 cs2 c n :
    conn_event d c None ->
    conn_step (MkListener l a d (cs1 ++ c :: cs2) n) (MkListener l (u64_wrap (a - 1)) d (cs1 ++ cs2) n).
Definition listener_step (s s' : Listener) : Prop := loop_step s s' \/ conn_step s s'.

(** ** The count is the connections *)
Definition closing (l : Loop) : bool := match l with Draining _ | Drained _ | Failed => true | _ => false end.
Definition listener_ok (s : Listener) : Prop :=
  active s = Z.of_nat (length (conns s)) /\ (active s <= max_connections limits)%Z
  /\ (loop s = Spawning -> active s < max_connections limits)%Z
  /\ (forall e, loop s = Drained e -> conns s = [] \/ (DRAIN_DEADLINE <= e)%Z)
  /\ (match loop s with Draining e => drain s = true /\ (0 <= e)%Z | Drained _ => drain s = true | _ => True end).
Lemma conn_event_id d c c' : conn_event d c (Some c') -> cn_id c' = cn_id c.
Proof. by inversion 1. Qed.
Lemma listener_step_ok s s' :
  (max_connections limits <= usize_max)%Z -> listener_step s s' -> listener_ok s -> listener_ok s'.
Proof.
  intros Hmax [Hs|Hs] (Ha & Hle & Hsp & Hd & Hf).
  - assert (Hw : forall z, (0 <= z <= usize_max)%Z -> u64_wrap z = z)
      by (intros z Hz; apply Z.mod_small; unfold usize_max, u64_max in Hz; lia).
    destruct Hs as [a d cs n H|a d cs n H|a d cs n|a d cs n|a d cs n ?|e d cs n|e e' a d cs n ? ? ?|e a d cs n ?];
      unfold listener_ok in *; cbn [loop active drain conns length] in *;
      try (split_and!; (done || lia || (intros ? [= <-]; by right))).
    + specialize (Hsp eq_refl). rewrite Hw by lia. split_and!; done || lia.
    + destruct Hf as [-> _]. split_and!; try done. intros e' [= <-]. left. apply nil_length_inv. lia.
    + destruct Hf as [-> He]. unfold DRAIN_POLL, DRAIN_DEADLINE in *. split_and!; done || lia.
    + destruct Hf as [-> _]. split_and!; try done. intros e' [= <-]. by right.
  - destruct Hs as [l a d cs1 cs2 c c' n He|l a d cs1 cs2 c n _]; unfold listener_ok in *; cbn [loop active drain conns] in *;
      rewrite !length_app in *; cbn [length] in *.
    + split_and!; try done. intros e Hl. destruct (Hd e Hl) as [Hn|?]; [|by right]. by destruct cs1.
    + assert (Hw : u64_wrap (a - 1) = (a - 1)%Z) by (apply Z.mod_small; unfold usize_max, u64_max in Hmax; lia).
      rewrite Hw. split_and!; try done; [lia|lia| |].
      * intros Hl. specialize (Hsp Hl). lia.
      * intros e Hl. destruct (Hd e Hl) as [Hn|?]; [|by right]. by destruct cs1.
Qed.
Lemma reachable_ok s :
  (0 <= max_connections limits <= usize_max)%Z -> rtc listener_step listener_new s -> listener_ok s.
Proof.
  intros Hmax Hr. assert (H0 : listener_ok listener_new) by (split_and!; cbn; try done; lia).
  revert H0. induction Hr as [s|s s' s'' Hs _ IH]; [done|]. intros Hok. apply IH. by eapply listener_step_ok; [lia| |].
Qed.

(** ** After the signal *)
Lemma closing_step s s' : listener_step s s' -> closing (loop s) = true ->
  closing (loop s') = true /\ cn_id <$> conns s' ⊆ cn_id <$> conns s.
Proof.
  intros [Hs|Hs] Hc.
  - by destruct Hs; cbn in *.
  - destruct Hs as [l a d cs1 cs2 c c' n He|l a d cs1 cs2 c n _]; cbn in *; (split; [done|]); rewrite !fmap_app; cbn.
    + by rewrite (conn_event_id _ _ _ He).
    + intros x. rewrite !elem_of_app, elem_of_cons. tauto.
Qed.
Lemma closing_steps s s' : rtc listener_step s s' -> closing (loop s) = true ->
  closing (loop s') = true /\ cn_id <$> conns s' ⊆ cn_id <$> conns s.
Proof.
  induction 1 as [s|s s' s'' Hs _ IH]; [done|]. intros Hc. destruct (closing_step _ _ Hs Hc) as [Hc' H1].
  destruct (IH Hc') as [? H2]. split; [done|]. by etrans.
Qed.

(** How many of the steps of a run are the loop's. *)
Inductive runs : nat -> Listener -> Listener -> Prop :=
| runs_refl s : runs 0 s s
| runs_loop n s s' s'' : loop_step s s' -> runs n s' s'' -> runs (S n) s s''
| runs_conn n s s' s'' : conn_step s s' -> runs n s' s'' -> runs n s s''.
(** The steps the loop has left. *)
Definition steps_left (l : Loop) : Z :=
  match l with
  | Draining e => 1 + Z.max 0 ((DRAIN_DEADLINE - e + DRAIN_POLL - 1) / DRAIN_POLL)
  | _ => 0
  end.
Lemma drain_step_measure s s' : loop_step s s' -> closing (loop s) = true -> (steps_left (loop s') + 1 <= steps_left (loop s))%Z.
Proof.
  intros Hs Hc. destruct Hs as [| | | | |e d cs n|e e' a d cs n Ha Hlt Hle|e a d cs n Hge]; cbn in *; try done;
    unfold DRAIN_DEADLINE, DRAIN_POLL in *; [lia| |lia].
  assert (H1 : (1 <= (30000 - e + 20 - 1) / 20)%Z) by (apply Z.div_le_lower_bound; lia).
  destruct (Z.le_gt_cases (e + 20) e') as [He'|He'].
  - pose proof (Z.div_le_mono (30000 - e' + 20 - 1) (30000 - e + 20 - 1 + (-1) * 20) 20 ltac:(lia) ltac:(lia)) as Hm.
    rewrite Z.div_add in Hm by lia. lia.
  - assert ((30000 - e' + 20 - 1) / 20 <= 0)%Z by (apply Z.lt_succ_r, Z.div_lt_upper_bound; lia). lia.
Qed.
Lemma drain_bounded n s s' : runs n s s' -> closing (loop s) = true -> (Z.of_nat n <= steps_left (loop s))%Z.
Proof.
  induction 1 as [s|n s s' s'' Hs _ IH|n s s' s'' Hs _ IH]; intros Hc.
  - unfold steps_left. destruct (loop s); lia.
  - pose proof (drain_step_measure _ _ Hs Hc). destruct (closing_step _ _ (or_introl Hs) Hc) as [Hc' _]. specialize (IH Hc'). lia.
  - assert (Hl : loop s' = loop s) by (by destruct Hs). rewrite Hl in IH. by apply IH.
Qed.
Lemma drain_progress e a d cs n : exists s', loop_step (MkListener (Draining e) a d cs n) s'.
Proof.
  destruct (decide (DRAIN_DEADLINE <= e)%Z); [eexists; by apply drain_timeout|].
  destruct (decide (a = 0)%Z) as [->|]; [eexists; by apply drain_done|].
  eexists. eapply (drain_sleep e (Z.min (e + DRAIN_POLL) DRAIN_DEADLINE)); lia.
Qed.
Lemma runs_steps n s s' : runs n s s' -> rtc listener_step s s'.
Proof. induction 1; [done|eapply rtc_l; [by left|done]|eapply rtc_l; [by right|done]]. Qed.

(** C25: A shutdown cuts off nobody it need not, and ends. However accepting, handshakes,
    requests, panics and the signal interleave: the count that the shutdown waits on is the
    number of live connections and never exceeds the ceiling (the check before a spawn
    races with nothing that could add to it); once the signal has come, or accepting has
    failed, no connection is added any more; the drain returns only when no connection is
    left or the deadline has passed; it always has a step to take, and takes at most 1501 of
    them, whatever the connections do. *)
Theorem shutdown_drains s :
  (0 <= max_connections limits <= usize_max)%Z -> rtc listener_step listener_new s ->
  active s = Z.of_nat (length (conns s)) /\ (active s <= max_connections limits)%Z
  /\ (forall e, loop s = Drained e -> conns s = [] \/ (DRAIN_DEADLINE <= e)%Z)
  /\ (forall e, loop s = Draining e -> exists s', loop_step s s')
  /\ (closing (loop s) = true -> forall n s', runs n s s' ->
       closing (loop s') = true /\ cn_id <$> conns s' ⊆ cn_id <$> conns s /\ n <= 1501).
Proof.
  intros Hmax Hr. destruct (reachable_ok _ Hmax Hr) as (Ha & Hle & _ & Hd & Hf). split_and!; try done.
  - destruct s as [l a d cs n]. cbn. intros e ->. apply drain_progress.
  - intros Hc n s' Hn. destruct (closing_steps _ _ (runs_steps _ _ _ Hn) Hc) as [? ?]. split_and!; try done.
    pose proof (drain_bounded _ _ _ Hn Hc) as Hb. unfold steps_left, DRAIN_DEADLINE, DRAIN_POLL in Hb.
    destruct (loop s) as [| |e| |]; try lia.
    pose proof (Z.div_le_mono (30000 - e + 20 - 1) (30000 + 20 - 1) 20 ltac:(lia) ltac:(lia)) as Hm.
    change ((30000 + 20 - 1) / 20)%Z with 1500%Z in Hm. lia.
Qed.

(** ** What ends the loop *)
(** Without a signal the loop never drains: [serve] returns only when accepting fails. *)
Definition signal_seen (l : Loop) : bool := match l with Draining _ | Drained _ => true | _ => false end.
Lemma loop_step_signal s s' : loop_step s s' -> sv_signalled sv = never -> signal_seen (loop s) = false -> signal_seen (loop s') = false.
Proof. intros Hs Hn Hl. unfold never in Hn. destruct Hs as [| | | |a d cs n Hsig| | |]; cbn in *; congruence. Qed.
Theorem unsignalled_serves_until_accept_fails s :
  sv_signalled sv = never -> rtc listener_step listener_new s -> loop s = Selecting \/ loop s = Spawning \/ loop s = Failed.
Proof.
  intros Hn Hr. assert (H : signal_seen (loop s) = false).
  { assert (H0 : signal_seen (loop listener_new) = false) by done. revert H0.
    induction Hr as [s|s s' s'' Hs _ IH]; [done|]. intros H0. apply IH. destruct Hs as [Hs|Hs]; [by eapply loop_step_signal|by destruct Hs]. }
  destruct (loop s); cbn in H; auto; discriminate.
Qed.

(** ** Who is served *)
Definition identified (info : ConnInfo) : Prop :=
  match sv_mode sv with
  | PlainMode => info = conn_info_default
  | TlsMode c => exists peer, handshake_peer c peer /\ info = conn_info_from_tls peer
  end.
Definition conn_ok (c : Conn) : Prop := forall info, cn_info c = Some info -> identified info.
Lemma conn_event_ok d c c' : conn_event d c (Some c') -> conn_ok c -> conn_ok c'.
Proof.
  inversion 1 as [? ? ? ? a peer Hm Hp| | | |]; subst; try done.
  intros _ info [= <-]. unfold identified. rewrite Hm. by exists peer.
Qed.
Lemma listener_step_conns s s' : listener_step s s' -> Forall conn_ok (conns s) -> Forall conn_ok (conns s').
Proof.
  intros [Hs|Hs] H.
  - destruct Hs as [| |a d cs n| | | | |]; cbn [conns] in *; try done. constructor; [|done].
    intros info. cbn. unfold identified. destruct (sv_mode sv); [by intros [= <-]|done].
  - destruct Hs as [l a d cs1 cs2 c c' n He|l a d cs1 cs2 c n _]; cbn [conns] in *;
      rewrite Forall_app, Forall_cons_iff in H; destruct H as (H1 & H2 & H3); apply Forall_app; (split; [done|]); [|done].
    constructor; [|done]. by eapply conn_event_ok.
Qed.
(** Every request is served with what is known of its connection: on a listener in the
    clear, nothing; on a TLS one that the connection is secure, and the certificate that the
    handshake gave. *)
Lemma served_connections_are_identified s c info :
  rtc listener_step listener_new s -> c ∈ conns s -> cn_info c = Some info -> identified info.
Proof.
  intros Hr Hc Hi. assert (H : Forall conn_ok (conns s)).
  { assert (H0 : Forall conn_ok (conns listener_new)) by constructor. revert H0. clear -Hr.
    induction Hr as [s|s s' s'' Hs _ IH]; [done|]. intros H0. by apply IH, (listener_step_conns s). }
  rewrite Forall_forall in H. by apply (H c Hc).
Qed.
End Run.

(** ** The listeners of the binary *)
Section Binary.
Context {Rt : Rustls} {Hm : Hmac} (build : Build) (m : Module_) (w : World).

(** What [run] of [main.rs] serves, once it has started, until Ctrl-C. *)
Definition binary_serving (d : Deployment (crypto_world m w)) : Serving :=
  match d_tls _ d with Some provider => serve_tls_with_shutdown provider | None => serve_with_shutdown end.
(** [spawn_grpc]: where, and under which configuration, the gRPC listener runs; its task is
    detached. *)
Definition grpc_serving (d : Deployment (crypto_world m w)) : option (SocketAddr * Mode) :=
  (fun a => (a, sv_mode (binary_serving d))) <$> d_grpc _ d.

(** [main]: how the process ends, once it does. *)
Inductive ExitCode : Type := ExitSuccess | ExitFailure.
Definition exit_of (started : Result (Deployment (crypto_world m w)) str) (s : Listener) : option ExitCode :=
  match started with
  | Err _ => Some ExitFailure
  | Ok _ => match loop s with Drained _ => Some ExitSuccess | Failed => Some ExitFailure | _ => None end
  end.
(** The process ends well only when it had started, was signalled and has waited for its
    connections; then no connection is left, or the deadline has passed. *)
Lemma success_is_drained started s :
  (forall d, started = Ok d -> rtc (listener_step (binary_serving d)) listener_new s) ->
  exit_of started s = Some ExitSuccess ->
  (exists d, started = Ok d) /\ drain s = true /\ exists e, loop s = Drained e /\ (conns s = [] \/ (DRAIN_DEADLINE <= e)%Z).
Proof.
  unfold exit_of. destruct started as [d|]; [|done]. intros Hr He. specialize (Hr d eq_refl).
  destruct (reachable_ok (binary_serving d) s) as (_ & _ & _ & Hd & Hf); [|done|].
  { unfold binary_serving. destruct (d_tls _ d); cbn; unfold usize_max, u64_max; lia. }
  split; [eauto|]. destruct (loop s) as [| |e|e|]; try done. split; [done|]. exists e. auto.
Qed.

(** The binary knows its peers as its settings say. From settings that load, once it has
    started: without a certificate every connection is served in the clear; with one every
    connection that is served is secure; with a client CA every request comes with the
    identity of a client certificate, the digest of its DER form, and without one with
    none. *)
Theorem binary_knows_its_peers seed read env args cfg (d : Deployment (crypto_world m w)) s c info :
  load read env args = Ok cfg -> startup build (crypto_world m w) seed cfg = Ok d ->
  rtc (listener_step (binary_serving d)) listener_new s -> c ∈ conns s -> cn_info c = Some info ->
  exists raw, load_raw read env args = Ok raw
  /\ (ci_secure info = true <-> is_Some (raw !! lit "tls_cert"))
  /\ match raw !! lit "tls_client_ca" with
     | Some _ => exists cert, ci_cert_subject info = Some (lit "cert:" ++ cert_fingerprint cert)
     | None => ci_cert_subject info = None
     end.
Proof.
  intros (raw & Hraw & Ht & _)%load_tls Hst Hr Hc Hi. exists raw. split; [done|].
  pose proof (served_connections_are_identified _ _ _ _ Hr Hc Hi) as Hinfo.
  pose proof (startup_Ok _ _ _ _ _ Hst) as (p & _ & _ & _ & _ & _ & _ & _ & Hl & _).
  unfold tls, opt, is_set in Ht. unfold identified, binary_serving in Hinfo.
  destruct (raw !! lit "tls_cert") as [cert|], (raw !! lit "tls_key") as [key|], (raw !! lit "tls_client_ca") as [ca|]; try done;
    injection Ht as Ht; rewrite <- Ht in Hl.
  1,2: apply load_tls_as_asked in Hl as (sc & Hs & _ & _ & _ & _ & Hroots & _); rewrite Hs in Hinfo; cbn in Hinfo, Hroots;
    destruct Hinfo as (peer & Hp & ->); (split; [done|]); unfold handshake_peer in Hp.
  - destruct Hroots as (roots & Hro & _). rewrite Hro in Hp. destruct Hp as (c0 & rest & ->). by exists c0.
  - rewrite Hroots in Hp. by subst peer.
  - injection Hl as Hl. rewrite <- Hl in Hinfo. cbn in Hinfo. subst info. split; [|done]. split; [done|]. by intros [].
Qed.
End Binary.

(** ** A connection at the deadline *)
Section Runs.
#[local] Existing Instance toy_rustls.
#[local] Existing Instance sum_hmac.
Definition busy : Conn := MkConn 0 (Some conn_info_default) false 1.
Definition signalled : Listener := MkListener (Draining 0) 1 true [busy] 1.
Lemma signalled_reachable : rtc (listener_step serve_with_shutdown) listener_new signalled.
Proof.
  eapply rtc_l; [left; by apply accept_checked|]. eapply rtc_l; [left; apply spawn_conn|].
  eapply rtc_l; [right; apply (conn_goes_on _ _ _ _ [] []); apply request_begins|].
  eapply rtc_l; [left; by apply shutdown|]. apply rtc_refl.
Qed.
Lemma shutdown_drains_witness :
  active signalled = Z.of_nat (length (conns signalled)) /\ (active signalled <= max_connections limits_default)%Z
  /\ (forall e, loop signalled = Drained e -> conns signalled = [] \/ (DRAIN_DEADLINE <= e)%Z)
  /\ (forall e, loop signalled = Draining e -> exists s', loop_step serve_with_shutdown signalled s')
  /\ (closing (loop signalled) = true -> forall n s', runs serve_with_shutdown n signalled s' ->
       closing (loop s') = true /\ cn_id <$> conns s' ⊆ cn_id <$> conns signalled /\ n <= 1501).
Proof. apply (shutdown_drains serve_with_shutdown signalled); [cbn; unfold usize_max, u64_max; lia|apply signalled_reachable]. Defined.
(** The deadline ends the wait, not the connections: their tasks are detached and go on
    for as long as the runtime does. *)
Example deadline_leaves_connections :
  rtc (listener_step serve_with_shutdown) signalled (MkListener (Drained 30000) 1 true [busy] 1)
  /\ listener_step serve_with_shutdown (MkListener (Drained 30000) 1 true [busy] 1)
       (MkListener (Drained 30000) 1 true [MkConn 0 (Some conn_info_default) false 2] 1).
Proof.
  split.
  - eapply rtc_l; [left; apply (drain_sleep _ 0 30000); unfold DRAIN_DEADLINE, DRAIN_POLL; lia|].
    eapply rtc_l; [left; apply drain_timeout; unfold DRAIN_DEADLINE; lia|]. apply rtc_refl.
  - right. apply (conn_goes_on _ _ _ _ [] []). apply request_begins.
Qed.

(** A client of the binary with mutual TLS. *)
Definition mutual : Serving := binary_serving RingProvider tls_world tls_deployment.
Definition shaken : Conn := MkConn 0 (Some (conn_info_from_tls (Some [lit "client"]))) false 0.
Lemma shaken_reachable : rtc (listener_step mutual) listener_new (MkListener Selecting 1 false [shaken] 1).
Proof.
  eapply rtc_l; [left; by apply accept_checked|]. eapply rtc_l; [left; apply spawn_conn|].
  eapply rtc_l; [right; apply (conn_goes_on _ _ _ _ [] [])|apply rtc_refl].
  eapply (handshake _ _ _ _ _ _ (Some [lit "client"])); [reflexivity|]. vm_compute. eauto.
Qed.
Lemma binary_knows_its_peers_witness :
  exists raw, load_raw no_file no_env tls_args = Ok raw
  /\ (true = true <-> is_Some (raw !! lit "tls_cert"))
  /\ match raw !! lit "tls_client_ca" with
     | Some _ => exists cert, ci_cert_subject (conn_info_from_tls (Some [lit "client"])) = Some (lit "cert:" ++ cert_fingerprint cert)
     | None => ci_cert_subject (conn_info_from_tls (Some [lit "client"])) = None
     end.
Proof.
  apply (binary_knows_its_peers bare_build RingProvider tls_world 7 no_file no_env tls_args tls_config tls_deployment
    (MkListener Selecting 1 false [shaken] 1) shaken (conn_info_from_tls (Some [lit "client"]))).
  - vm_compute. reflexivity.
  - reflexivity.
  - exact shaken_reachable.
  - by left.
  - reflexivity.
Defined.
End Runs.
