(* ===== verification/GrpcListener.v ===== *)
(** * The TLS gRPC listener ([serve_grpc_tls] of [crates/osproxy-transport/src/grpc.rs])

    A task that accepts, a task per handshake, and a bounded channel from them to the
    server; a connection comes out of it with what its handshake established.  The gRPC
    server itself, which serves the connections it takes, is tonic's. *)
From stdpp Require Import base option list numbers relations.
From Stdlib Require Import ZArith Lia.
From S2P Require Import Prelude.
From S2P Require Import Grpc.
From S2P Require Import Tls.

Open Scope osp_scope.

Section Listener.
Context {Rt : Rustls}.

(** [mpsc::channel(32)]. *)
Definition CHANNEL : nat := 32.
(** A connection with its info, as [Connected] reports it for every request on it. *)
Record TlsConn : Type := MkTlsConn { tc_id : nat; tc_info : GrpcConnInfo }.
(** What a handshake establishes: the peer's certificates. *)
Definition conn_of (id : nat) (peer : option (list bytes)) : TlsConn :=
  MkTlsConn id (MkGrpcConnInfo (client_subject_from_tls peer) true).
(** The accepting task, the handshakes it has begun, the tasks with a connection to send,
    the channel, and the connections the server has taken; [done_] are the handshakes that
    completed, with their peers. *)
Record GrpcTls : Type := MkGrpcTls {
  g_accepting : bool; g_next : nat; g_handshakes : list nat; g_sending : list TlsConn; g_channel : list TlsConn;
  g_taken : list TlsConn; g_done : list (nat * option (list bytes))
}.
Definition grpc_tls_new : GrpcTls := MkGrpcTls true 0 [] [] [] [] [].
Inductive grpc_tls_step : GrpcTls -> GrpcTls -> Prop :=
| tcp_accepted n hs se ch tk dn :
    grpc_tls_step (MkGrpcTls true n hs se ch tk dn) (MkGrpcTls true (S n) (n :: hs) se ch tk dn)
| accept_error n hs se ch tk dn :
    grpc_tls_step (MkGrpcTls true n hs se ch tk dn) (MkGrpcTls false n hs se ch tk dn)
| handshake_done a n hs1 id hs2 se ch tk dn peer :
    grpc_tls_step (MkGrpcTls a n (hs1 ++ id :: hs2) se ch tk dn)
      (MkGrpcTls a n (hs1 ++ hs2) (conn_of id peer :: se) ch tk ((id, peer) :: dn))
| handshake_failed a n hs1 id hs2 se ch tk dn :
    grpc_tls_step (MkGrpcTls a n (hs1 ++ id :: hs2) se ch tk dn) (MkGrpcTls a n (hs1 ++ hs2) se ch tk dn)
| conn_sent a n hs se1 c se2 ch tk dn :
    length ch < CHANNEL ->
    grpc_tls_step (MkGrpcTls a n hs (se1 ++ c :: se2) ch tk dn) (MkGrpcTls a n hs (se1 ++ se2) (ch ++ [c]) tk dn)
| conn_taken a n hs se c ch tk dn :
    grpc_tls_step (MkGrpcTls a n hs se (c :: ch) tk dn) (MkGrpcTls a n hs se ch (c :: tk) dn).

Definition in_flight (s : GrpcTls) : list nat := g_handshakes s ++ (tc_id <$> (g_sending s ++ g_channel s ++ g_taken s)).
Definition shaken (s : GrpcTls) (c : TlsConn) : Prop := exists peer, (tc_id c, peer) ∈ g_done s /\ c = conn_of (tc_id c) peer.
Definition grpc_tls_ok (s : GrpcTls) : Prop :=
  length (g_channel s) <= CHANNEL /\ Forall (shaken s) (g_sending s ++ g_channel s ++ g_taken s)
  /\ NoDup (in_flight s) /\ Forall (fun i => i < g_next s) (in_flight s).
Lemma shaken_perm (P : TlsConn -> Prop) a b : a ≡ₚ b -> Forall P a -> Forall P b.
Proof. by intros ->. Qed.
(** A step that starts no connection and leaves the connections as they are, or fewer. *)
Lemma keeps_ok s s' extra :
  g_done s' = g_done s -> g_next s' = g_next s -> length (g_channel s') <= CHANNEL ->
  g_sending s' ++ g_channel s' ++ g_taken s' ≡ₚ g_sending s ++ g_channel s ++ g_taken s ->
  in_flight s ≡ₚ extra ++ in_flight s' -> grpc_tls_ok s -> grpc_tls_ok s'.
Proof.
  intros Hd Hn Hl Hp Hi (_ & Hs & Hnd & Hlt). rewrite Hi in Hnd, Hlt. apply NoDup_app in Hnd as (_ & _ & Hnd).
  apply Forall_app in Hlt as [_ Hlt]. split_and!; [done| |done|by rewrite Hn]. rewrite Hp. unfold shaken. by rewrite Hd.
Qed.
Lemma grpc_tls_step_ok s s' : grpc_tls_step s s' -> grpc_tls_ok s -> grpc_tls_ok s'.
Proof.
  intros [n hs se ch tk dn|n hs se ch tk dn|a n hs1 id hs2 se ch tk dn peer|a n hs1 id hs2 se ch tk dn
    |a n hs se1 c se2 ch tk dn Hc|a n hs se c ch tk dn] Hok; pose proof Hok as (Hl & Hs & Hnd & Hlt);
    unfold in_flight, shaken in *; cbn [g_channel g_sending g_taken g_handshakes g_next g_done] in *.
  - split_and!; cbn; [done|done| |].
    + constructor; [|done]. intros Hin. rewrite Forall_forall in Hlt. specialize (Hlt _ Hin). lia.
    + constructor; [lia|]. eapply Forall_impl; [exact Hlt|]. cbn. lia.
  - done.
  - assert (Hp : (hs1 ++ id :: hs2) ++ (tc_id <$> (se ++ ch ++ tk)) ≡ₚ (hs1 ++ hs2) ++ (tc_id <$> (conn_of id peer :: se ++ ch ++ tk)))
      by (cbn; solve_Permutation).
    split_and!; unfold in_flight, shaken; cbn [g_channel g_sending g_taken g_handshakes g_next g_done app]; [done| | |].
    + constructor; [exists peer; split; [left|done]|]. eapply Forall_impl; [exact Hs|].
      intros c (p & Hin & Hc). exists p. split; [by right|done].
    + by rewrite <- Hp.
    + by rewrite <- Hp.
  - eapply (keeps_ok _ _ [id]); [| | | | |exact Hok]; cbn; [done|done|done|done|]. unfold in_flight. cbn. solve_Permutation.
  - eapply (keeps_ok _ _ []); [| | | | |exact Hok]; cbn; [done|done|rewrite length_app; cbn; lia|solve_Permutation|].
    apply Permutation_app_head, fmap_Permutation. cbn. solve_Permutation.
  - eapply (keeps_ok _ _ []); [| | | | |exact Hok]; cbn in *; [done|done|lia|solve_Permutation|].
    apply Permutation_app_head, fmap_Permutation. cbn. solve_Permutation.
Qed.
(** Once the accepting task has stopped, no connection is new. *)
Lemma stopped_step s s' : grpc_tls_step s s' -> g_accepting s = false ->
  g_accepting s' = false /\ forall i, i ∈ in_flight s' -> i ∈ in_flight s.
Proof.
  intros Hs Ha. destruct Hs as [n hs se ch tk dn|n hs se ch tk dn|a n hs1 id hs2 se ch tk dn peer|a n hs1 id hs2 se ch tk dn
    |a n hs se1 c se2 ch tk dn Hc|a n hs se c ch tk dn]; cbn in Ha; try done; (split; [done|]);
    intros i; unfold in_flight; cbn [g_handshakes g_sending g_channel g_taken]; rewrite ?fmap_app; cbn [fmap list_fmap];
    rewrite ?fmap_app; cbn [fmap list_fmap tc_id conn_of]; set_solver.
Qed.

(** The server gets only connections whose handshake completed, each once, with the
    certificate's identity and marked secure, whatever the order of arrivals, handshakes
    and sends; at most 32 wait in the channel. And the first error of [accept] is the last
    thing the accepting task sees: from then on no connection is new. *)
Theorem taken_connections_are_handshaken s :
  rtc grpc_tls_step grpc_tls_new s ->
  length (g_channel s) <= 32 /\ NoDup (tc_id <$> g_taken s)
  /\ (forall c, c ∈ g_taken s -> gc_secure (tc_info c) = true
        /\ exists peer, (tc_id c, peer) ∈ g_done s /\ gc_cert_subject (tc_info c) = client_subject_from_tls peer)
  /\ (g_accepting s = false -> forall s', rtc grpc_tls_step s s' -> forall c, c ∈ g_taken s' -> tc_id c ∈ in_flight s).
Proof.
  intros Hr. assert (Hok : grpc_tls_ok s).
  { assert (H0 : grpc_tls_ok grpc_tls_new) by (split_and!; [unfold CHANNEL; cbn; lia|constructor..]).
    revert H0. induction Hr as [s|s s1 s2 Hs _ IH]; [done|]. intros H. by apply IH, (grpc_tls_step_ok s). }
  destruct Hok as (Hl & Hs & Hnd & _). split_and!; [done| | |].
  - unfold in_flight in Hnd. rewrite !fmap_app in Hnd. by apply NoDup_app in Hnd as (_ & _ & (_ & _ & (_ & _ & H)%NoDup_app)%NoDup_app).
  - intros c Hc. rewrite !Forall_app in Hs. destruct Hs as (_ & _ & Hs). rewrite Forall_forall in Hs.
    destruct (Hs c Hc) as (peer & Hin & ->). split; [done|]. by exists peer.
  - intros Ha s' Hs'. assert (H : forall i, i ∈ in_flight s' -> i ∈ in_flight s).
    { clear -Ha Hs'. induction Hs' as [|s s1 s2 Hst _ IH]; [done|]. destruct (stopped_step _ _ Hst Ha) as [Ha' H'].
      intros i Hi. by apply H', IH. }
    intros c Hc. apply H. unfold in_flight. rewrite !fmap_app, !elem_of_app. right. right. right. apply list_elem_of_fmap. by exists c.
Qed.
End Listener.
