(* ===== verification/Bench.v ===== *)
(** * The performance gate ([crates/osproxy-bench/src]: summary, profile, judge, scale, footprint)

    What a load run is reduced to, and what passes: percentiles of latency samples, and
    verdicts over them.  A float is an IEEE binary64 of the standard library's
    specification; how one is printed in a finding is a parameter. *)
From stdpp Require Import base option list strings numbers sorting pretty.
From Stdlib Require Import ZArith Lia SpecFloat.
From S2P Require Import Prelude.

Open Scope osp_scope.

(** ** [f64] *)
Abbreviation f64 := spec_float.
(** [as f64]: to the nearest. *)
Definition f64_of (n : Z) : f64 := binary_normalize 53 1024 n 0 false.
Definition f64_div (a b : f64) : f64 := SFdiv 53 1024 a b.
Definition f64_mul (a b : f64) : f64 := SFmul 53 1024 a b.
(** [<=] and [<]: never of a NaN. *)
Definition f64_le (a b : f64) : bool := SFleb a b.
Definition f64_lt (a b : f64) : bool := SFltb a b.
Definition is_finite (a : f64) : bool := match a with S754_zero _ | S754_finite _ _ _ => true | _ => false end.
(** [f64::max]: a NaN loses. *)
Definition f64_max (a b : f64) : f64 :=
  match a, b with S754_nan, _ => b | _, S754_nan => a | _, _ => if f64_lt a b then b else a end.
(** The literal [n / d], to the nearest. *)
Definition f64_lit (n d : Z) : f64 := f64_div (f64_of n) (f64_of d).

(** ** [summary.rs] *)
Record LatencySummary : Type := MkLatencySummary {
  ls_count : Z; min_ns : Z; max_ns : Z; mean_ns : Z; p50_ns : Z; p90_ns : Z; p99_ns : Z
}.
(** [p * n] is a [usize]. *)
Definition percentile (sorted : list Z) (p : Z) : Z :=
  let n := Z.of_nat (length sorted) in
  let rank := Z.max ((u64_wrap (p * n) + 99) / 100) 1 in
  let idx := Z.min (rank - 1) (n - 1) in
  nth (Z.to_nat idx) sorted 0%Z.
Definition sum_of (samples : list Z) : Z := foldr Z.add 0%Z samples.
Definition from_nanos (samples : list Z) : option LatencySummary :=
  match samples with
  | [] => None
  | _ =>
      let sorted := merge_sort Z.le samples in
      let count := Z.of_nat (length sorted) in
      let mean := (sum_of sorted / count)%Z in
      Some (MkLatencySummary count (nth 0 sorted 0%Z) (nth (length sorted - 1) sorted 0%Z)
              (if (mean <=? u64_max)%Z then mean else u64_max)
              (percentile sorted 50) (percentile sorted 90) (percentile sorted 99))
  end.

(** ** [profile.rs] *)
Record NfrProfile : Type := MkNfrProfile {
  np_samples : Z; np_concurrency : Z; np_baseline : LatencySummary; np_proxy : LatencySummary;
  pool_reuse_rate : f64; np_throughput_rps : f64
}.
Definition added_p50_ns (p : NfrProfile) : Z := u64_saturating_sub (p50_ns (np_proxy p)) (p50_ns (np_baseline p)).
Definition added_p99_ns (p : NfrProfile) : Z := u64_saturating_sub (p99_ns (np_proxy p)) (p99_ns (np_baseline p)).

(** ** [judge.rs] *)
Record NfrThresholds : Type := MkNfrThresholds { added_p50_ns_max : Z; added_p99_ns_max : Z; pool_reuse_rate_min : f64 }.
Definition nfr_provisional : NfrThresholds := MkNfrThresholds 2000000 10000000 (f64_lit 99 100).
Record Finding : Type := MkFinding { nfr : str; f_pass : bool; f_detail : str }.
Record Verdict : Type := MkVerdict { v_pass : bool; v_findings : list Finding }.
Definition verdict_of (findings : list Finding) : Verdict := MkVerdict (forallb f_pass findings) findings.

Section Judging.
(** [{:.n}] of a float. *)
Context (fixed : nat -> f64 -> str).
Definition ms (ns : Z) : f64 := f64_div (f64_of ns) (f64_of 1000000).
Definition max_finding (id label : str) (observed_ns max_ns : Z) : Finding :=
  MkFinding id (observed_ns <=? max_ns)%Z
    (label ++ lit " " ++ fixed 3 (ms observed_ns) ++ lit " ms vs bound " ++ fixed 3 (ms max_ns) ++ lit " ms").
Definition min_rate_finding (id : str) (observed min : f64) : Finding :=
  MkFinding id (f64_le min observed) (lit "pool reuse " ++ fixed 4 observed ++ lit " vs floor " ++ fixed 4 min).
Definition judge (p : NfrProfile) (t : NfrThresholds) : Verdict :=
  verdict_of [max_finding (lit "NFR-P1") (lit "added p50") (added_p50_ns p) (added_p50_ns_max t);
              max_finding (lit "NFR-P2") (lit "added p99") (added_p99_ns p) (added_p99_ns_max t);
              min_rate_finding (lit "NFR-P4") (pool_reuse_rate p) (pool_reuse_rate_min t)].

(** ** [scale.rs] *)
Record ScalabilityPoint : Type := MkScalabilityPoint { sp_concurrency : Z; sp_latency : LatencySummary; throughput_rps : f64 }.
Definition ScalabilityCurve : Type := list ScalabilityPoint.
Definition curve_new (points : list ScalabilityPoint) : option ScalabilityCurve :=
  match points with [] => None | _ => Some points end.
Definition tail_amplification (c : ScalabilityCurve) : f64 :=
  match head c, last c with
  | Some f, Some l =>
      if (0 <? p99_ns (sp_latency f))%Z then f64_div (f64_of (p99_ns (sp_latency l))) (f64_of (p99_ns (sp_latency f)))
      else f64_of 1
  | _, _ => f64_of 1
  end.
Definition throughput_scaling (c : ScalabilityCurve) : f64 :=
  let base := match head c with Some p => throughput_rps p | None => f64_of 0 end in
  let peak := foldl f64_max (f64_of 0) (throughput_rps <$> c) in
  if f64_lt (f64_of 0) base then f64_div peak base else f64_of 0.
Record ScalabilityThresholds : Type := MkScalabilityThresholds { max_tail_amplification : f64; min_throughput_scaling : f64 }.
Definition scalability_provisional : ScalabilityThresholds := MkScalabilityThresholds (f64_of 3) (f64_of 2).
Definition judge_scalability (c : ScalabilityCurve) (t : ScalabilityThresholds) : Verdict :=
  let amp := tail_amplification c in
  let scaling := throughput_scaling c in
  verdict_of
    [MkFinding (lit "NFR-P2") (is_finite amp && f64_le amp (max_tail_amplification t))
       (lit "tail amplification " ++ fixed 2 amp ++ lit "x vs bound " ++ fixed 2 (max_tail_amplification t) ++ lit "x");
     MkFinding (lit "NFR-P2-scaling") (is_finite scaling && f64_le (min_throughput_scaling t) scaling)
       (lit "throughput scaling " ++ fixed 2 scaling ++ lit "x vs floor " ++ fixed 2 (min_throughput_scaling t) ++ lit "x")].

(** ** [footprint.rs] *)
Record FootprintProfile : Type := MkFootprintProfile { before_rss_bytes : Z; after_rss_bytes : Z; soak_requests : Z }.
Definition growth_bytes (p : FootprintProfile) : Z := u64_saturating_sub (after_rss_bytes p) (before_rss_bytes p).
Definition growth_ratio (p : FootprintProfile) : f64 :=
  if (before_rss_bytes p =? 0)%Z then f64_of 1 else f64_div (f64_of (after_rss_bytes p)) (f64_of (before_rss_bytes p)).
Record FootprintThresholds : Type := MkFootprintThresholds { max_idle_rss_bytes : Z; max_growth_ratio : f64; max_growth_bytes : Z }.
Definition footprint_provisional : FootprintThresholds := MkFootprintThresholds (256 * 1024 * 1024) (f64_lit 3 2) (64 * 1024 * 1024).
Definition mib (b : Z) : f64 := f64_div (f64_of b) (f64_mul (f64_of 1024) (f64_of 1024)).
Definition judge_footprint (p : FootprintProfile) (t : FootprintThresholds) : Verdict :=
  let ratio := growth_ratio p in
  let growth := growth_bytes p in
  let within_ratio := is_finite ratio && f64_le ratio (max_growth_ratio t) in
  let within_abs := (growth <=? max_growth_bytes t)%Z in
  verdict_of
    [MkFinding (lit "NFR-P6") (before_rss_bytes p <=? max_idle_rss_bytes t)%Z
       (lit "before " ++ fixed 1 (mib (before_rss_bytes p)) ++ lit " MiB vs bound " ++ fixed 1 (mib (max_idle_rss_bytes t)) ++ lit " MiB");
     MkFinding (lit "NFR-P6-growth") (within_ratio || within_abs)
       (lit "soak growth " ++ fixed 2 ratio ++ lit "x / " ++ fixed 1 (mib growth) ++ lit " MiB vs bound "
        ++ fixed 2 (max_growth_ratio t) ++ lit "x or " ++ fixed 1 (mib (max_growth_bytes t)) ++ lit " MiB over "
        ++ lit (pretty (soak_requests p)) ++ lit " reqs")].
End Judging.

(** ** Percentiles *)
Definition at_most (v : Z) (l : list Z) : nat := length (filter (fun x => (x <= v)%Z) l).
Definition less_than (v : Z) (l : list Z) : nat := length (filter (fun x => (x < v)%Z) l).
(** The nearest-rank percentile: a sample that [p] percent of the samples do not exceed, and
    that fewer than [p] percent are below. *)
Definition nearest_rank (samples : list Z) (p v : Z) : Prop :=
  v ∈ samples /\ (p * Z.of_nat (length samples) <= 100 * Z.of_nat (at_most v samples))%Z
  /\ (100 * Z.of_nat (less_than v samples) < p * Z.of_nat (length samples))%Z.
#[export] Instance at_most_proper v : Proper ((≡ₚ) ==> (=)) (at_most v).
Proof. intros a b H. unfold at_most. by rewrite H. Qed.
#[export] Instance less_than_proper v : Proper ((≡ₚ) ==> (=)) (less_than v).
Proof. intros a b H. unfold less_than. by rewrite H. Qed.
Lemma nearest_rank_perm a b p v : a ≡ₚ b -> nearest_rank a p v <-> nearest_rank b p v.
Proof. intros H. unfold nearest_rank. by rewrite H. Qed.
Lemma nearest_rank_unique l p v w : nearest_rank l p v -> nearest_rank l p w -> v = w.
Proof.
  assert (H : forall v w, (v < w)%Z -> at_most v l <= less_than w l).
  { intros a b Hab. unfold at_most, less_than. induction l as [|x l IH]; [done|]. rewrite !filter_cons.
    repeat case_decide; cbn; lia. }
  intros (_ & Hv & Hv') (_ & Hw & Hw'). destruct (Z.lt_trichotomy v w) as [Hl|[->|Hl]]; [|done|]; specialize (H _ _ Hl); lia.
Qed.
Lemma less_than_none v l : Forall (Z.le v) l -> less_than v l = 0.
Proof.
  unfold less_than. induction 1 as [|x l Hx _ IH]; [done|]. rewrite filter_cons, decide_False by lia. exact IH.
Qed.
Lemma sorted_rank l i v : StronglySorted Z.le l -> l !! i = Some v -> S i <= at_most v l /\ less_than v l <= i.
Proof.
  intros Hs Hi. pose proof (lookup_lt_Some _ _ _ Hi) as Hlt. split.
  - assert (H : forall l i, StronglySorted Z.le l -> l !! i = Some v -> S i <= at_most v l).
    { clear. intros l. induction l as [|x l IH]; [done|]. intros [|i] Hs Hi; unfold at_most in *; rewrite filter_cons; cbn in Hi.
      - injection Hi as ->. rewrite decide_True by lia. cbn. lia.
      - apply StronglySorted_cons in Hs as [Hx Hs]. rewrite decide_True by (eapply Forall_lookup_1 in Hx; done).
        cbn. specialize (IH i Hs Hi). lia. }
    by apply H.
  - assert (H : forall l i, StronglySorted Z.le l -> l !! i = Some v -> less_than v l <= i).
    { clear. intros l. induction l as [|x l IH]; [done|]. intros [|i] Hs Hi; unfold less_than in *; rewrite filter_cons; cbn in Hi.
      - injection Hi as ->. rewrite decide_False by lia. apply StronglySorted_cons in Hs as [Hx _].
        pose proof (less_than_none v l Hx) as H. unfold less_than in H. by rewrite H.
      - apply StronglySorted_cons in Hs as [_ Hs]. specialize (IH i Hs Hi). case_decide; cbn; lia. }
    by apply H.
Qed.
Lemma percentile_nearest l p :
  StronglySorted Z.le l -> l <> [] -> (1 <= p <= 100)%Z -> (100 * Z.of_nat (length l) <= usize_max)%Z -> nearest_rank l p (percentile l p).
Proof.
  intros Hs Hne Hp Hn. unfold percentile. assert (Hl : 1 <= length l) by (destruct l; cbn; [done|lia]).
  set (n := Z.of_nat (length l)) in *. assert (Hw : u64_wrap (p * n) = (p * n)%Z)
    by (apply Z.mod_small; unfold usize_max, u64_max in Hn; nia).
  rewrite Hw. set (rank := ((p * n + 99) / 100)%Z).
  assert (Hr : (p * n <= 100 * rank)%Z /\ (100 * (rank - 1) < p * n)%Z) by (unfold rank; pose proof (Z.div_mod (p * n + 99) 100);
    pose proof (Z.mod_pos_bound (p * n + 99) 100); lia).
  assert (Hb : (1 <= rank <= n)%Z) by nia. rewrite Z.max_l, Z.min_l by lia.
  destruct (nth_lookup_or_length l (Z.to_nat (rank - 1)) 0%Z) as [Hi|Hi]; [|lia].
  destruct (sorted_rank _ _ _ Hs Hi) as [H1 H2]. split; [by eapply list_elem_of_lookup_2|]. fold n. split; lia.
Qed.
Lemma nearest_rank_mono l p q v w : (p <= q)%Z -> nearest_rank l p v -> nearest_rank l q w -> (v <= w)%Z.
Proof.
  intros Hpq (_ & _ & Hv) (_ & Hw & _). destruct (Z.le_gt_cases v w) as [|Hl]; [done|].
  assert (H : at_most w l <= less_than v l).
  { clear Hv Hw. unfold at_most, less_than. induction l as [|x l IH]; [done|]. rewrite !filter_cons. repeat case_decide; cbn; lia. }
  nia.
Qed.
Lemma sum_of_perm a b : a ≡ₚ b -> sum_of a = sum_of b.
Proof. unfold sum_of. induction 1; cbn; lia. Qed.
Lemma sum_of_bound l m : Forall (fun x => 0 <= x <= m)%Z l -> (0 <= sum_of l <= m * Z.of_nat (length l))%Z.
Proof. unfold sum_of. induction 1; cbn [foldr length]; lia. Qed.
Lemma sorted_ends l l' : StronglySorted Z.le l -> l <> [] -> l ≡ₚ l' ->
  nth 0 l 0%Z ∈ l' /\ Forall (Z.le (nth 0 l 0%Z)) l'
  /\ nth (length l - 1) l 0%Z ∈ l' /\ Forall (fun x => (x <= nth (length l - 1) l 0)%Z) l'.
Proof.
  intros Hs Hne H. rewrite <- H. clear l' H. split_and!.
  - destruct l; [done|]. left.
  - destruct l as [|x l]; [done|]. apply StronglySorted_cons in Hs as [Hx _]. cbn. by constructor.
  - destruct (nth_lookup_or_length l (length l - 1) 0%Z) as [Hi|Hi]; [by eapply list_elem_of_lookup_2|]. destruct l; cbn in *; [done|lia].
  - destruct (exists_last Hne) as (l' & x & ->). rewrite length_app. cbn. replace (length l' + 1 - 1) with (length l') by lia.
    rewrite app_nth2, Nat.sub_diag by lia. cbn. apply StronglySorted_app in Hs as (Hlx & _ & _).
    apply Forall_app. split; [|by repeat constructor]. apply Forall_forall. intros y Hy. apply Hlx; [done|left].
Qed.

(** The summary of a run is an exact function of what was measured, whatever its order. No
    samples have no summary; otherwise the extremes are attained, the mean is rounded down,
    and each percentile is the one sample that its percentage of the samples do not exceed
    and fewer than that are below. *)
Theorem summary_is_exact samples :
  (from_nanos samples = None <-> samples = [])
  /\ forall s, from_nanos samples = Some s -> Forall (fun x => 0 <= x <= u64_max)%Z samples ->
     (100 * Z.of_nat (length samples) <= usize_max)%Z ->
     ls_count s = Z.of_nat (length samples)
     /\ (min_ns s ∈ samples /\ Forall (Z.le (min_ns s)) samples)
     /\ (max_ns s ∈ samples /\ Forall (fun x => x <= max_ns s)%Z samples)
     /\ mean_ns s = (sum_of samples / Z.of_nat (length samples))%Z
     /\ (forall p v, (p, v) ∈ [(50, p50_ns s); (90, p90_ns s); (99, p99_ns s)]%Z -> forall w, nearest_rank samples p w <-> w = v)
     /\ (p50_ns s <= p90_ns s <= p99_ns s)%Z
     /\ forall samples', samples' ≡ₚ samples -> from_nanos samples' = Some s.
Proof.
  split; [by destruct samples|]. intros s Hs Hb Hn. assert (Hne : samples <> []) by (by intros ->).
  assert (Hs' : s = let sorted := merge_sort Z.le samples in let count := Z.of_nat (length sorted) in let mean := (sum_of sorted / count)%Z in
    MkLatencySummary count (nth 0 sorted 0%Z) (nth (length sorted - 1) sorted 0%Z) (if (mean <=? u64_max)%Z then mean else u64_max)
      (percentile sorted 50) (percentile sorted 90) (percentile sorted 99)) by (destruct samples; [done|by injection Hs]).
  pose proof (merge_sort_Permutation Z.le samples) as Hp. pose proof (StronglySorted_merge_sort Z.le samples) as Hst.
  pose proof (Permutation_length Hp) as Hlen. set (sorted := merge_sort Z.le samples) in *. cbn zeta in Hs'.
  assert (Hsne : sorted <> []) by (intros H; rewrite H in Hlen; by destruct samples).
  assert (Hq : forall p, (1 <= p <= 100)%Z -> nearest_rank samples p (percentile sorted p)).
  { intros p Hp'. rewrite <- (nearest_rank_perm _ _ _ _ Hp). apply percentile_nearest; [done|done|done|by rewrite Hlen]. }
  destruct (sorted_ends sorted samples Hst Hsne Hp) as (E1 & E2 & E3 & E4). rewrite Hlen in E3, E4.
  subst s. cbn. rewrite Hlen, (sum_of_perm _ _ Hp). split_and!; try done.
  - assert (Hm : (sum_of samples / Z.of_nat (length samples) <= u64_max)%Z).
    { apply Z.div_le_upper_bound; [destruct samples; [done|cbn; lia]|]. pose proof (sum_of_bound _ _ Hb). lia. }
    by rewrite (proj2 (Z.leb_le _ _) Hm).
  - intros p v Hpv w. assert (Hv : nearest_rank samples p v).
    { apply elem_of_cons in Hpv as [[= -> ->]|[[= -> ->]|[[= -> ->]|[]%elem_of_nil]%elem_of_cons]%elem_of_cons]; apply Hq; lia. }
    split; [|by intros ->]. intros Hw. by eapply nearest_rank_unique.
  - apply (nearest_rank_mono samples 50 90); [done|apply Hq; lia..].
  - apply (nearest_rank_mono samples 90 99); [done|apply Hq; lia..].
  - intros samples' Hp'. assert (Hne' : samples' <> []) by (intros ->; by apply Permutation_nil_l in Hp').
    assert (Heq : merge_sort Z.le samples' = sorted).
    { apply (StronglySorted_unique Z.le); [apply (StronglySorted_merge_sort Z.le samples')|done|]. etrans; [apply (merge_sort_Permutation Z.le)|]. by rewrite Hp', Hp. }
    destruct samples' as [|x l]; [done|]. cbn [from_nanos]. rewrite Heq, Hlen, (sum_of_perm _ _ Hp). done.
Qed.

(** ** Verdicts *)
Lemma f64_le_nan_l b : f64_le S754_nan b = false.
Proof. reflexivity. Qed.
Lemma f64_le_nan_r a : f64_le a S754_nan = false.
Proof. by destruct a as [[]|[]| |[]]. Qed.
(** The gates pass within every bound and fail closed. A profile passes exactly when its
    added latencies and its reuse rate meet the bounds, so never with a rate that is not a
    number; a sweep that passes has finite ratios; a soak passes exactly when it starts
    small enough and grows little in proportion, by a finite ratio, or in bytes. *)
Theorem verdicts_fail_closed fixed p t c ct fp ft :
  (v_pass (judge fixed p t) = true <->
     (added_p50_ns p <= added_p50_ns_max t /\ added_p99_ns p <= added_p99_ns_max t)%Z
     /\ f64_le (pool_reuse_rate_min t) (pool_reuse_rate p) = true)
  /\ (v_pass (judge fixed p t) = true -> pool_reuse_rate p <> S754_nan)
  /\ (v_pass (judge_scalability fixed c ct) = true ->
        is_finite (tail_amplification c) = true /\ is_finite (throughput_scaling c) = true
        /\ f64_le (tail_amplification c) (max_tail_amplification ct) = true
        /\ f64_le (min_throughput_scaling ct) (throughput_scaling c) = true)
  /\ (v_pass (judge_footprint fixed fp ft) = true <->
        (before_rss_bytes fp <= max_idle_rss_bytes ft)%Z
        /\ (is_finite (growth_ratio fp) = true /\ f64_le (growth_ratio fp) (max_growth_ratio ft) = true
            \/ (growth_bytes fp <= max_growth_bytes ft)%Z)).
Proof.
  assert (Hj : v_pass (judge fixed p t) = true <->
     (added_p50_ns p <= added_p50_ns_max t /\ added_p99_ns p <= added_p99_ns_max t)%Z
     /\ f64_le (pool_reuse_rate_min t) (pool_reuse_rate p) = true).
  { cbn. rewrite !andb_true_iff, !Z.leb_le. tauto. }
  split_and!; [done| | |].
  - intros H%Hj Hn. destruct H as [_ H]. by rewrite Hn, f64_le_nan_r in H.
  - cbn. rewrite !andb_true_iff. tauto.
  - cbn. rewrite !andb_true_iff, orb_true_iff, andb_true_iff, !Z.leb_le. tauto.
Qed.

(** ** A run *)
Definition run_samples : list Z := [900; 100; 300; 200; 500; 400; 800; 600; 700; 1000]%Z.
Definition run_summary : LatencySummary := MkLatencySummary 10 100 1000 550 500 900 1000.
Definition noisy_profile (rate : f64) : NfrProfile :=
  MkNfrProfile 10 4 (MkLatencySummary 1 1 1 1 1000 1 2000) (MkLatencySummary 1 1 1 1 900 1 9000) rate (f64_of 12000).
Example runs_are_judged :
  from_nanos run_samples = Some run_summary
  /\ v_pass (judge (fun _ _ => []) (noisy_profile (f64_lit 999 1000)) nfr_provisional) = true
  /\ v_pass (judge (fun _ _ => []) (noisy_profile (f64_lit 98 100)) nfr_provisional) = false
  /\ v_pass (judge (fun _ _ => []) (noisy_profile (f64_lit 0 0)) nfr_provisional) = false
  /\ v_pass (judge_footprint (fun _ _ => []) (MkFootprintProfile 10000000 40000000 5000) footprint_provisional) = true
  /\ v_pass (judge_footprint (fun _ _ => []) (MkFootprintProfile 200000000 301000000 5000) footprint_provisional) = false.
Proof. split_and!; vm_compute; reflexivity. Qed.
