(* ===== verification/BenchReport.v ===== *)
(** * The briefs of the performance gate ([crates/osproxy-bench/src/report.rs])

    The Markdown an operator reads: tables of what was measured, then the verdict with a
    bullet per finding.  How a float is printed is a parameter, as in [Bench]. *)
From stdpp Require Import base option list strings numbers sets pretty.
From Stdlib Require Import Ascii ZArith Lia.
From S2P Require Import Prelude.
From S2P Require Import Metrics.
From S2P Require Import Bench.

Open Scope osp_scope.

Section Briefs.
(** [{:.n}] of a float. *)
Context (fixed : nat -> f64 -> str).

Definition ms_text (ns : Z) : str := fixed 3 (ms ns) ++ lit " ms".
Definition mib_text (b : Z) : str := fixed 1 (mib b) ++ lit " MiB".
Definition latency_pair (baseline_ns proxy_ns : Z) : str := ms_text baseline_ns ++ lit " → " ++ ms_text proxy_ns.
Definition row (key value : str) : str := lit "| " ++ key ++ lit " | " ++ value ++ lit " |".
(** The lines of [push_verdict]. *)
Definition verdict_line (pass : bool) : str :=
  lit "**Verdict: " ++ (if pass then lit "PASS ✅" else lit "FAIL ❌") ++ lit "** _(provisional thresholds)_".
Definition bullet (f : Finding) : str :=
  lit "- " ++ (if f_pass f then lit "✅" else lit "❌") ++ lit " **" ++ nfr f ++ lit "**: " ++ f_detail f.
Definition push_verdict (v : Verdict) : list str := [] :: verdict_line (v_pass v) :: (bullet <$> v_findings v).

(** The lines of each brief; the text ends each with a newline. *)
Definition profile_lines (p : NfrProfile) : list str :=
  [lit "### NFR-P latency & reuse"; [];
   lit (pretty (np_samples p)) ++ lit " samples at concurrency " ++ lit (pretty (np_concurrency p)) ++ lit "."; [];
   lit "| metric | value |"; lit "| --- | --- |";
   row (lit "added p50") (ms_text (added_p50_ns p));
   row (lit "added p99") (ms_text (added_p99_ns p));
   row (lit "baseline p50 → proxy p50") (latency_pair (p50_ns (np_baseline p)) (p50_ns (np_proxy p)));
   row (lit "baseline p99 → proxy p99") (latency_pair (p99_ns (np_baseline p)) (p99_ns (np_proxy p)));
   row (lit "pool reuse") (fixed 4 (pool_reuse_rate p));
   row (lit "throughput") (fixed 0 (np_throughput_rps p) ++ lit " rps")].
Definition profile_brief (p : NfrProfile) (v : Verdict) : str := text_of (profile_lines p ++ push_verdict v).
Definition point_line (p : ScalabilityPoint) : str :=
  lit "| " ++ lit (pretty (sp_concurrency p)) ++ lit " | " ++ ms_text (p50_ns (sp_latency p)) ++ lit " | "
  ++ ms_text (p99_ns (sp_latency p)) ++ lit " | " ++ fixed 0 (throughput_rps p) ++ lit " rps |".
Definition scalability_lines (c : ScalabilityCurve) : list str :=
  [lit "### NFR-P2 scalability"; []; lit "| concurrency | p50 | p99 | throughput |"; lit "| ---: | ---: | ---: | ---: |"]
  ++ (point_line <$> c)
  ++ [[]; lit "tail amplification **" ++ fixed 2 (tail_amplification c) ++ lit "×**, throughput scaling **"
          ++ fixed 2 (throughput_scaling c) ++ lit "×**."].
Definition scalability_brief (c : ScalabilityCurve) (v : Verdict) : str := text_of (scalability_lines c ++ push_verdict v).
Definition footprint_lines (p : FootprintProfile) : list str :=
  [lit "### NFR-P6 footprint"; []; lit "| metric | value |"; lit "| --- | --- |";
   row (lit "before RSS") (mib_text (before_rss_bytes p));
   row (lit "after RSS") (mib_text (after_rss_bytes p));
   row (lit "growth") (fixed 2 (growth_ratio p) ++ lit "× (" ++ mib_text (growth_bytes p) ++ lit ") over "
                       ++ lit (pretty (soak_requests p)) ++ lit " reqs")].
Definition footprint_brief (p : FootprintProfile) (v : Verdict) : str := text_of (footprint_lines p ++ push_verdict v).
Definition brief_header (title : str) : str := lit "## " ++ title ++ [newline; newline].

(** ** Reading a brief *)

(** The verdicts it states, and the findings it lists with the text of each. *)
Definition read_headline (l : str) : option bool :=
  if str_eqb l (verdict_line true) then Some true else if str_eqb l (verdict_line false) then Some false else None.
Definition read_bullet (l : str) : option (bool * str) :=
  match strip_prefix (lit "- ✅") l with
  | Some r => Some (true, r)
  | None => (fun r => (false, r)) <$> strip_prefix (lit "- ❌") l
  end.
Definition read_brief (text : str) : list bool * list (bool * str) :=
  let lines := split newline text in (omap read_headline lines, omap read_bullet lines).

(** ** What it states *)
Definition quiet (l : str) : Prop := newline ∉ l /\ read_headline l = None /\ read_bullet l = None.
Lemma quiet_nil : quiet [].
Proof. split; [by intros ?%elem_of_nil|done]. Qed.
Lemma quiet_head c l : c <> "*"%char -> c <> "-"%char -> newline ∉ c :: l -> quiet (c :: l).
Proof.
  intros H1 H2 Hn. split; [done|]. unfold read_headline, read_bullet. split.
  - rewrite !(proj2 (str_eqb_neq _ _)); [done|intros [= H _]; done..].
  - change (lit "- ✅") with ("-"%char :: drop 1 (lit "- ✅")). change (lit "- ❌") with ("-"%char :: drop 1 (lit "- ❌")).
    cbn [strip_prefix]. by rewrite (proj2 (Ascii.eqb_neq _ _)).
Qed.
Lemma quiet_line l : head l <> Some "*"%char -> head l <> Some "-"%char -> newline ∉ l -> quiet l.
Proof. destruct l as [|c l]; [intros; apply quiet_nil|]. cbn. intros H1 H2. apply quiet_head; congruence. Qed.
Lemma quiet_number n l : (0 <= n)%Z -> newline ∉ l -> quiet (lit (pretty n) ++ l).
Proof.
  intros Hn Hl. pose proof (pretty_no_newline n Hn) as Hp. destruct (pretty_Z_value n Hn) as (Hd & _ & Hne).
  destruct (lit (pretty n)) as [|c ds]; [done|]. apply Forall_cons in Hd as [Hc _]. cbn.
  apply quiet_head; [intros ->; done..|]. set_solver.
Qed.
Definition finding_text (f : Finding) : str := lit " **" ++ nfr f ++ lit "**: " ++ f_detail f.
Definition plain_finding (f : Finding) : Prop := newline ∉ nfr f /\ newline ∉ f_detail f.
Lemma bullet_read f : plain_finding f ->
  newline ∉ bullet f /\ read_headline (bullet f) = None /\ read_bullet (bullet f) = Some (f_pass f, finding_text f).
Proof.
  intros [H1 H2]. unfold bullet. split.
  - rewrite !not_elem_of_app. destruct (f_pass f); split_and!; try done; by apply (bool_decide_unpack _).
  - split; [unfold read_headline; rewrite !(proj2 (str_eqb_neq _ _)); [done|intros [= H]; done..]|].
    unfold read_bullet. destruct (f_pass f).
    + change (lit "- " ++ lit "✅" ++ ?r) with (lit "- ✅" ++ r). by rewrite strip_prefix_app.
    + change (lit "- " ++ lit "❌" ++ ?r) with (lit "- ❌" ++ r). by rewrite strip_prefix_app.
Qed.
Lemma omap_step {A B} (g : A -> option B) x l :
  omap g (x :: l) = match g x with Some y => y :: omap g l | None => omap g l end.
Proof. done. Qed.
Lemma headline_nil : read_headline [] = None.
Proof. reflexivity. Qed.
(** Above its verdict a brief states nothing; below it, what the verdict holds. *)
Lemma brief_read ls v :
  Forall quiet ls -> Forall plain_finding (v_findings v) ->
  read_brief (text_of (ls ++ push_verdict v)) = ([v_pass v], (fun f => (f_pass f, finding_text f)) <$> v_findings v).
Proof.
  intros Hls Hv. unfold read_brief.
  assert (Hb : Forall (fun l => newline ∉ l) (bullet <$> v_findings v)
    /\ omap read_headline (bullet <$> v_findings v) = []
    /\ omap read_bullet (bullet <$> v_findings v) = (fun f => (f_pass f, finding_text f)) <$> v_findings v).
  { induction Hv as [|f fs Hf _ (IH1 & IH2 & IH3)]; [done|]. destruct (bullet_read f Hf) as (B1 & B2 & B3). rewrite !fmap_cons, !omap_step, B2, B3, IH2, IH3. split; [by constructor|done]. }
  assert (Hq : Forall (fun l => newline ∉ l) ls /\ omap read_headline ls = [] /\ omap read_bullet ls = []).
  { clear Hv Hb. induction Hls as [|l ls (Q1 & Q2 & Q3) _ (IH1 & IH2 & IH3)]; [done|]. rewrite !omap_step, Q2, Q3, IH2, IH3.
    split; [by constructor|done]. }
  destruct Hb as (B1 & B2 & B3), Hq as (Q1 & Q2 & Q3).
  assert (Hh : newline ∉ verdict_line (v_pass v) /\ read_headline (verdict_line (v_pass v)) = Some (v_pass v)
    /\ read_bullet (verdict_line (v_pass v)) = None) by (destruct (v_pass v); (split; [apply (bool_decide_unpack _); vm_compute; exact I|split; reflexivity])).
  destruct Hh as (H1 & H2 & H3). rewrite split_text_of.
  - unfold push_verdict. rewrite !omap_app, Q2, Q3, !omap_step. cbn [app]. rewrite !headline_nil, H2, H3, B2, B3, !app_nil_r. done.
  - apply Forall_app. split; [done|]. unfold push_verdict. constructor; [by intros ?%elem_of_nil|]. by constructor.
Qed.

Hypothesis fixed_plain : forall n x, newline ∉ fixed n x.
#[local] Ltac plain :=
  rewrite ?not_elem_of_app; split_and?;
  first [assumption | apply fixed_plain | apply pretty_no_newline; lia | apply (bool_decide_unpack _); vm_compute; exact I].
#[local] Ltac literal := (split; [apply (bool_decide_unpack _); vm_compute; exact I|split; reflexivity]).
Lemma row_quiet key value : newline ∉ key -> newline ∉ value -> quiet (row key value).
Proof. intros H1 H2. apply quiet_line; [done..|]. unfold row. plain. Qed.
Lemma profile_quiet p : (0 <= np_samples p)%Z -> (0 <= np_concurrency p)%Z -> Forall quiet (profile_lines p).
Proof.
  intros H1 H2. unfold profile_lines, latency_pair, ms_text. rewrite !Forall_cons, Forall_nil.
  split_and!; [literal|apply quiet_nil|apply quiet_number; [done|plain]|apply quiet_nil|literal|literal| | | | | | |done];
    (apply row_quiet; plain).
Qed.
Lemma footprint_quiet p : (0 <= soak_requests p)%Z -> Forall quiet (footprint_lines p).
Proof.
  intros H1. unfold footprint_lines, mib_text. rewrite !Forall_cons, Forall_nil.
  split_and!; [literal|apply quiet_nil|literal|literal| | | |done]; (apply row_quiet; plain).
Qed.
Lemma scalability_quiet c : Forall (fun p => 0 <= sp_concurrency p)%Z c -> Forall quiet (scalability_lines c).
Proof.
  intros Hc. unfold scalability_lines. rewrite !Forall_app, !Forall_cons, !Forall_nil.
  split_and!; [literal|apply quiet_nil|literal|literal|done| |apply quiet_nil| |done].
  - apply Forall_fmap. eapply Forall_impl; [exact Hc|]. intros p Hp. cbn beta in Hp. unfold point_line, ms_text.
    apply quiet_line; [done..|]. plain.
  - apply quiet_line; [done..|]. plain.
Qed.
Lemma max_finding_plain id label observed_ns max_ns : newline ∉ id -> newline ∉ label -> plain_finding (max_finding fixed id label observed_ns max_ns).
Proof. intros H1 H2. split; [done|]. unfold max_finding. cbn [f_detail]. plain. Qed.
Lemma judge_plain p t : Forall plain_finding (v_findings (judge fixed p t)).
Proof.
  unfold judge, verdict_of. cbn [v_findings]. rewrite !Forall_cons, Forall_nil. split_and!; try done;
    try (apply max_finding_plain; plain). split; [plain|]. unfold min_rate_finding. cbn [f_detail]. plain.
Qed.
Lemma judge_scalability_plain c t : Forall plain_finding (v_findings (judge_scalability fixed c t)).
Proof.
  unfold judge_scalability, verdict_of. cbn [v_findings]. rewrite !Forall_cons, Forall_nil.
  split_and!; try done; (split; [plain|cbn [f_detail]; plain]).
Qed.
Lemma judge_footprint_plain p t : (0 <= soak_requests p)%Z -> Forall plain_finding (v_findings (judge_footprint fixed p t)).
Proof.
  intros Hp. unfold judge_footprint, verdict_of. cbn [v_findings]. rewrite !Forall_cons, Forall_nil.
  split_and!; try done; (split; [plain|cbn [f_detail]; plain]).
Qed.

(** A brief tells the verdict and nothing else.  Read back, each of the three briefs states
    one verdict, the judge's, and lists the judge's findings, in order and each with its
    mark and text; so it says PASS exactly when every bullet it lists has a tick. *)
Theorem briefs_tell_the_verdict p t c ct fp ft :
  (0 <= np_samples p)%Z -> (0 <= np_concurrency p)%Z -> Forall (fun p => 0 <= sp_concurrency p)%Z c -> (0 <= soak_requests fp)%Z ->
  let read (v : Verdict) := ([forallb f_pass (v_findings v)], (fun f => (f_pass f, finding_text f)) <$> v_findings v) in
  read_brief (profile_brief p (judge fixed p t)) = read (judge fixed p t)
  /\ read_brief (scalability_brief c (judge_scalability fixed c ct)) = read (judge_scalability fixed c ct)
  /\ read_brief (footprint_brief fp (judge_footprint fixed fp ft)) = read (judge_footprint fixed fp ft).
Proof.
  intros H1 H2 H3 H4 read. split_and!; unfold read.
  - unfold profile_brief. by rewrite brief_read by (by apply profile_quiet || apply judge_plain).
  - unfold scalability_brief. by rewrite brief_read by (by apply scalability_quiet || apply judge_scalability_plain).
  - unfold footprint_brief. by rewrite brief_read by (by apply footprint_quiet || by apply judge_footprint_plain).
Qed.
End Briefs.
