(* ===== verification/XTask.v ===== *)
(** * The repository's gates ([xtask/src/main.rs])

    What has to hold of a commit: the commands [cargo] runs, and the checks of this program
    itself over the files of the workspace, the dependency graph of its crates first.
    [cargo], the environment and the search path are asked; the files are a tree. *)
From stdpp Require Import base option list strings numbers relations pretty.
From Stdlib Require Import Ascii ZArith Lia.
From S2P Require Import Prelude.
From S2P Require Import CoreTypes.
From S2P Require Import Prog.
From S2P Require Import RawConfig.

Open Scope osp_scope.

(** ** Files *)
(** A file's content is [None] when it cannot be read as text. *)
Inductive Node : Type :=
| File (name : str) (content : option str)
| Dir (name : str) (entries : list Node).
Definition path_join (dir name : str) : str := dir ++ lit "/" ++ name.
(** The extension is what follows the last dot, unless nothing precedes it. *)
Definition is_rs (name : str) : bool := match strip_suffix (lit ".rs") name with Some (_ :: _) => true | _ => false end.
(** The entries of the directory [dir]. *)
Fixpoint collect_node (pick : str -> bool) (skip : str -> bool) (dir : str) (n : Node) : list (str * option str) :=
  match n with
  | File name content => if pick name then [(path_join dir name, content)] else []
  | Dir name entries => if skip name then [] else mjoin (map (collect_node pick skip (path_join dir name)) entries)
  end.
Definition collect_rs_files (dir : str) (entries : list Node) : list (str * option str) :=
  mjoin (map (collect_node is_rs (str_eqb (lit "target")) dir) entries).
Definition collect_named_files (dir name : str) (entries : list Node) : list (str * option str) :=
  mjoin (map (collect_node (str_eqb name) (fun _ => false) dir) entries).
(** The workspace: its root, and what is in three of its directories. *)
Record Workspace : Type := MkWorkspace {
  workspace_root : str; crates_entries : list Node; xtask_entries : list Node; skills_entries : list Node
}.
Definition crates_dir (ws : Workspace) : str := path_join (workspace_root ws) (lit "crates").
Definition read (f : str * option str) : Result str str :=
  ok_or f.2 (lit "read " ++ f.1 ++ lit ": unreadable").
(** [strip_prefix(workspace_root())]. *)
Definition shown (ws : Workspace) (path : str) : str := default path (strip_prefix (workspace_root ws ++ lit "/") path).
Definition gate (violations : list str) (title : str) : Result unit str :=
  match violations with [] => Ok tt | vs => Err (title ++ newline :: join [newline] vs) end.

(** ** [arch] *)
Definition allowed_table : list (str * list str) := map (fun e : string * list string => (lit e.1, map lit e.2))
  [("osproxy-core", []);
   ("osproxy-spi", ["osproxy-core"]);
   ("osproxy-tenancy", ["osproxy-core"; "osproxy-spi"; "osproxy-rewrite"]);
   ("osproxy-transport", ["osproxy-core"; "osproxy-spi"]);
   ("osproxy-rewrite", ["osproxy-core"]);
   ("osproxy-sink", ["osproxy-core"; "osproxy-spi"]);
   ("osproxy-control", ["osproxy-core"; "osproxy-spi"; "osproxy-tenancy"]);
   ("osproxy-observe", ["osproxy-core"]);
   ("osproxy-otlp", ["osproxy-observe"]);
   ("osproxy-etcd", ["osproxy-core"; "osproxy-observe"]);
   ("osproxy-config", ["osproxy-core"]);
   ("osproxy-capture", ["osproxy-spi"]);
   ("osproxy-kafka", ["osproxy-capture"]);
   ("osproxy-kafka-krafka", ["osproxy-kafka"]);
   ("osproxy-kafka-wal", ["osproxy-kafka"]);
   ("osproxy-kafka-rdkafka", ["osproxy-kafka"]);
   ("osproxy-engine", ["osproxy-core"; "osproxy-spi"; "osproxy-tenancy"; "osproxy-rewrite"; "osproxy-sink";
                       "osproxy-control"; "osproxy-observe"]);
   ("osproxy-server", ["osproxy-core"; "osproxy-config"; "osproxy-capture"; "osproxy-engine"; "osproxy-observe";
                       "osproxy-transport"; "osproxy-spi"; "osproxy-tenancy"; "osproxy-sink"; "osproxy-otlp"; "osproxy-etcd";
                       "osproxy-kafka"; "osproxy-kafka-krafka"; "osproxy-kafka-wal"; "osproxy-bench"]);
   ("osproxy-bench", [])]%string.
Definition allowed_internal_deps (crate_name : str) : option (list str) :=
  snd <$> List.find (fun e => str_eqb e.1 crate_name) allowed_table.
Fixpoint skip_while (f : str -> bool) (l : list str) : list str :=
  match l with [] => [] | x :: l' => if f x then skip_while f l' else l end.
Fixpoint take_while (f : str -> bool) (l : list str) : list str :=
  match l with [] => [] | x :: l => if f x then x :: take_while f l else [] end.
Fixpoint find_map {A} (f : str -> option A) (l : list str) : option A :=
  match l with [] => None | x :: l => match f x with Some a => Some a | None => find_map f l end end.
(** [trim_matches] of a quote. *)
Definition trim_quotes (s : str) : str :=
  let s := drop (count_while (Ascii.eqb "034") s) s in take (length s - count_while (Ascii.eqb "034") (reverse s)) s.
Definition package_name (manifest : str) : option str :=
  let section := drop 1 (skip_while (fun l => negb (str_eqb (trim l) (lit "[package]"))) (str_lines manifest)) in
  find_map (fun l =>
    rest ← strip_prefix (lit "name") (trim l);
    rest ← strip_prefix (lit "=") (trim_start rest);
    Some (trim_quotes (trim rest)))
    (take_while (fun l => negb (starts_with (lit "[") (trim_start l))) section).
(** The piece before the first dot or space. *)
Definition dep_name (t : str) : str := take (count_while (fun c => negb (Ascii.eqb c "." || Ascii.eqb c " ")) t) t.
Definition internal_deps (manifest : str) : list str :=
  omap (fun l => let t := trim l in
                 if starts_with (lit "osproxy-") t && contains (lit "workspace") t then Some (dep_name t) else None)
    (str_lines manifest).
Definition manifest_violations (text : str) (name : str) : list str :=
  match allowed_internal_deps name with
  | None => [lit "  unknown crate `" ++ name ++ lit "`; add it to allowed_internal_deps"]
  | Some allowed =>
      omap (fun dep => if existsb (str_eqb dep) allowed then None
                       else Some (lit "  " ++ name ++ lit " -> " ++ dep ++ lit " is not an allowed dependency edge"))
        (internal_deps text)
  end.
Definition manifest_check (m : str * option str) : Result (list str) str :=
  let? text := read m in
  let? name := ok_or (package_name text) (lit "no [package] name in " ++ m.1) in
  Ok (manifest_violations text name).
Definition manifests (ws : Workspace) : list (str * option str) :=
  collect_named_files (crates_dir ws) (lit "Cargo.toml") (crates_entries ws).
Definition arch (ws : Workspace) : Result unit str :=
  let? violations := collect manifest_check (manifests ws) in
  gate (mjoin violations) (lit "architecture check failed (see docs/01 §2):").

(** ** [budgets], [skills] and [spawn_discipline] *)
Definition HARD_LIMIT : nat := 400.
Definition LINE_LIMIT : nat := 100.
Definition budget_check (f : str * option str) : Result (list str) str :=
  let? content := read f in
  let lines := length (str_lines content) in
  Ok (if (HARD_LIMIT <? lines) && negb (contains (lit "// JUSTIFY(file-length)") content)
      then [lit "  " ++ f.1 ++ lit " has " ++ lit (pretty lines) ++ lit " lines (limit " ++ lit (pretty HARD_LIMIT) ++ lit ")"]
      else []).
Definition source_files (ws : Workspace) : list (str * option str) :=
  collect_rs_files (crates_dir ws) (crates_entries ws)
  ++ collect_rs_files (path_join (workspace_root ws) (lit "xtask")) (xtask_entries ws).
Definition budgets (ws : Workspace) : Result unit str :=
  let? violations := collect budget_check (source_files ws) in
  gate (mjoin violations) (lit "file-length budget exceeded without `// JUSTIFY(file-length)`:").

(** The second piece of a split at dashes. *)
Fixpoint split_str (fuel : nat) (pat acc l : str) : list str :=
  match fuel with
  | 0 => [acc ++ l]
  | S fuel =>
      match strip_prefix pat l with
      | Some rest => acc :: split_str fuel pat [] rest
      | None => match l with [] => [acc] | c :: l => split_str fuel pat (acc ++ [c]) l end
      end
  end.
Definition frontmatter_of (content : str) : str :=
  default [] (split_str (S (length content)) (lit "---") [] content !! 1).
Definition skill_check (ws : Workspace) (f : str * option str) : Result (list str) str :=
  let? content := read f in
  let name := shown ws f.1 in
  let lines := length (str_lines content) in
  let frontmatter := frontmatter_of content in
  Ok ((if LINE_LIMIT <? lines
       then [lit "  " ++ name ++ lit " has " ++ lit (pretty lines) ++ lit " lines (limit " ++ lit (pretty LINE_LIMIT) ++ lit ")"] else [])
      ++ (if contains (lit "name:") frontmatter then [] else [lit "  " ++ name ++ lit " frontmatter missing `name:`"])
      ++ (if contains (lit "WHAT:") frontmatter && contains (lit "USE WHEN:") frontmatter then []
          else [lit "  " ++ name ++ lit " description must match `WHAT: ... USE WHEN: ...`"])).
Definition skills (ws : Workspace) : Result unit str :=
  let dir := path_join (workspace_root ws) (lit ".agents/skills") in
  match collect_named_files dir (lit "SKILL.md") (skills_entries ws) with
  | [] => Err (lit "no SKILL.md files found under " ++ dir)
  | files =>
      let? violations := collect (skill_check ws) files in
      gate (mjoin violations) (lit "skill validation failed:")
  end.

Definition EXEMPT_CRATES : list str := [lit "osproxy-server"; lit "osproxy-transport"].
Definition spawns_checked (path : str) : bool :=
  contains (lit "/src/") path && negb (existsb (fun c => contains (lit "crates/" ++ c ++ lit "/") path) EXEMPT_CRATES).
Definition bare_spawn (line : str) : bool := contains (lit "tokio::spawn(") line && negb (contains (lit "// JUSTIFY(spawn)") line).
Definition spawn_check (ws : Workspace) (f : str * option str) : Result (list str) str :=
  if negb (spawns_checked f.1) then Ok []
  else
    let? content := read f in
    Ok (omap (fun e => if bare_spawn e.2 then Some (lit "  " ++ shown ws f.1 ++ lit ":" ++ lit (pretty (S e.1))) else None)
          (imap pair (str_lines content))).
Definition spawn_discipline (ws : Workspace) : Result unit str :=
  let? violations := collect (spawn_check ws) (collect_rs_files (crates_dir ws) (crates_entries ws)) in
  gate (mjoin violations)
    (lit "bare `tokio::spawn` in a library crate (capture a runtime Handle instead, or mark `// JUSTIFY(spawn):`):").

(** ** [ci] *)
Inductive ToolCall : Type -> Type :=
| CargoRun (args : list str) (envs : list (str * str)) : ToolCall (Result unit str)
| VarSet (name : str) : ToolCall bool
| OnPath (tool : str) : ToolCall bool.
Abbreviation tool_prog := (prog_of ToolCall).
Definition cargo (args : list string) (envs : list (string * string)) : tool_prog (Result unit str) :=
  call (CargoRun (map lit args) (map (fun e : string * string => (lit e.1, lit e.2)) envs)).
Definition fmt : tool_prog (Result unit str) := cargo ["fmt"; "--all"; "--"; "--check"]%string [].
Definition clippy : tool_prog (Result unit str) := cargo ["clippy"; "--workspace"; "--all-targets"; "--"; "-D"; "warnings"]%string [].
Definition test : tool_prog (Result unit str) :=
  cargo ["test"; "--workspace"; "--lib"; "--bins"; "--tests"; "--"; "--test-threads=1"]%string [].
Definition doc : tool_prog (Result unit str) :=
  try! _ := cargo ["doc"; "--workspace"; "--no-deps"; "--document-private-items"]%string [("RUSTDOCFLAGS", "-D warnings")]%string in
  cargo ["test"; "--workspace"; "--doc"]%string [].
(** Whether every tool is there: each is asked. *)
Fixpoint tools_on_path (tools : list str) : tool_prog bool :=
  match tools with
  | [] => Ret true
  | t :: tools => await! here := call (OnPath t) in await! rest := tools_on_path tools in Ret (here && rest)
  end.
Definition check_fips : tool_prog (Result unit str) :=
  await! skip := call (VarSet (lit "OSPROXY_SKIP_FIPS")) in
  if skip then Ret (Ok tt)
  else
    await! present := tools_on_path [lit "cmake"; lit "cc"; lit "go"] in
    if negb present then Ret (Ok tt)
    else cargo ["test"; "-p"; "osproxy-transport"; "-p"; "osproxy-server"; "--no-default-features"; "--features"; "fips"]%string [].
Definition run_ci (ws : Workspace) : tool_prog (Result unit str) :=
  try! _ := fmt in
  try! _ := clippy in
  try! _ := Ret (arch ws) in
  try! _ := test in
  try! _ := check_fips in
  try! _ := doc in
  try! _ := Ret (budgets ws) in
  try! _ := Ret (skills ws) in
  try! _ := Ret (spawn_discipline ws) in
  Ret (Ok tt).
Definition coverage : tool_prog (Result unit str) :=
  await! here := call (OnPath (lit "cargo-llvm-cov")) in
  if negb here
  then Ret (Err (lit "cargo-llvm-cov is not installed; run `cargo install cargo-llvm-cov` (see https://github.com/taiki-e/cargo-llvm-cov)"))
  else cargo ["llvm-cov"; "--workspace"; "--summary-only"; "--ignore-filename-regex"; "xtask/src"; "--fail-under-lines"; "90"]%string [].
Definition bench : tool_prog (Result unit str) := cargo ["bench"; "--workspace"]%string [].
Fixpoint bench_each (targets : list (string * string)) : tool_prog (Result unit str) :=
  match targets with
  | [] => Ret (Ok tt)
  | (pkg, b) :: targets => try! _ := cargo ["bench"; "-p"; pkg; "--bench"; b]%string [] in bench_each targets
  end.
Definition bench_local : tool_prog (Result unit str) :=
  bench_each [("osproxy-rewrite", "hot_paths"); ("osproxy-engine", "search_transform"); ("osproxy-transport", "classify");
              ("osproxy-observe", "directive")]%string.
Definition USAGE : str :=
  lit "usage: cargo xtask <ci|fmt|clippy|test|doc|budgets|skills|spawn|arch|bench|bench-local|check-fips|coverage>".
(** The exit code is a failure exactly when the result is an error. *)
Definition xtask_main (ws : Workspace) (arg : option str) : tool_prog (Result unit str) :=
  let cmd := default (lit "ci") arg in
  let named (s : string) := str_eqb cmd (lit s) in
  if named "ci"%string then run_ci ws
  else if named "fmt"%string then fmt
  else if named "clippy"%string then clippy
  else if named "test"%string then test
  else if named "doc"%string then doc
  else if named "budgets"%string then Ret (budgets ws)
  else if named "skills"%string then Ret (skills ws)
  else if named "spawn"%string then Ret (spawn_discipline ws)
  else if named "arch"%string then Ret (arch ws)
  else if named "bench"%string then bench
  else if named "bench-local"%string then bench_local
  else if named "check-fips"%string then check_fips
  else if named "coverage"%string then coverage
  else Ret (Err (lit "unknown command: " ++ cmd ++ newline :: USAGE)).

(** ** The graph is layered *)
(** How far above the core a crate may be. *)
Definition layer (crate_name : str) : nat :=
  if bool_decide (crate_name = lit "osproxy-server") then 5
  else if bool_decide (crate_name ∈ [lit "osproxy-engine"; lit "osproxy-kafka-krafka"; lit "osproxy-kafka-wal"; lit "osproxy-kafka-rdkafka"]) then 4
  else if bool_decide (crate_name ∈ [lit "osproxy-control"; lit "osproxy-kafka"]) then 3
  else if bool_decide (crate_name ∈ [lit "osproxy-tenancy"; lit "osproxy-transport"; lit "osproxy-sink"; lit "osproxy-otlp"; lit "osproxy-etcd"; lit "osproxy-capture"]) then 2
  else if bool_decide (crate_name ∈ [lit "osproxy-core"; lit "osproxy-bench"]) then 0
  else 1.
Lemma allowed_goes_down name allowed dep : allowed_internal_deps name = Some allowed -> dep ∈ allowed -> layer dep < layer name.
Proof.
  assert (H : forallb (fun e => forallb (fun d => layer d <? layer e.1) e.2) allowed_table = true) by (vm_compute; reflexivity).
  unfold allowed_internal_deps. destruct (List.find _ allowed_table) as [[n ds]|] eqn:Hf; [|done]. intros [= <-] Hd.
  apply find_some in Hf as [Hin Hn]. cbn in Hn. apply str_eqb_eq in Hn as ->. rewrite forallb_forall in H.
  specialize (H _ Hin). cbn in H. rewrite forallb_forall in H. apply list_elem_of_In in Hd. specialize (H _ Hd). by apply Nat.ltb_lt.
Qed.
Lemma gate_Ok vs title : gate vs title = Ok tt <-> vs = [].
Proof. by destruct vs. Qed.
Lemma collect_Ok_elem {A B E} (f : A -> Result (list B) E) l bs : collect f l = Ok bs -> mjoin bs = [] -> forall x, x ∈ l -> f x = Ok [].
Proof.
  revert bs. induction l as [|x l IH]; intros bs; [by intros _ _ ? ?%elem_of_nil|]. cbn [collect].
  intros (b & Hb & (bs' & Hbs & [= <-])%rbind_Ok)%rbind_Ok. cbn. intros [-> Hj]%app_eq_nil y [->|Hy]%elem_of_cons; [done|].
  by eapply IH.
Qed.
Lemma gated {A} (f : A -> Result (list str) str) l title :
  (let? vs := collect f l in gate (mjoin vs) title) = Ok tt -> forall x, x ∈ l -> f x = Ok [].
Proof. intros (vs & Hc & Hg%gate_Ok)%rbind_Ok. by eapply collect_Ok_elem. Qed.
(** [a] declares a dependency on [b] in one of the manifests. *)
Definition declares (ws : Workspace) (a b : str) : Prop :=
  exists path text, (path, Some text) ∈ manifests ws /\ package_name text = Some a /\ b ∈ internal_deps text.
Lemma omap_nil {A B} (f : A -> option B) l x : omap f l = [] -> x ∈ l -> f x = None.
Proof.
  induction l as [|y l IH]; [by intros _ ?%elem_of_nil|]. cbn. destruct (f y) eqn:Hy; [done|].
  intros H [->|Hx]%elem_of_cons; [done|by apply IH].
Qed.
Lemma arch_declares ws a b : arch ws = Ok tt -> declares ws a b ->
  exists allowed, allowed_internal_deps a = Some allowed /\ b ∈ allowed.
Proof.
  intros Ha (path & text & Hin & Hn & Hb). pose proof (gated manifest_check (manifests ws) _ Ha _ Hin) as H.
  unfold manifest_check, read in H. cbn in H. rewrite Hn in H. cbn in H. injection H as H. unfold manifest_violations in H.
  destruct (allowed_internal_deps a) as [allowed|]; [|done]. exists allowed. split; [done|].
  apply (omap_nil _ _ b H) in Hb. destruct (existsb (str_eqb b) allowed) eqn:He; [|done].
  apply existsb_exists in He as (x & Hx & ->%str_eqb_eq). by apply list_elem_of_In.
Qed.
Lemma graph_goes_down ws a b : arch ws = Ok tt -> tc (declares ws) a b -> layer b < layer a.
Proof.
  intros Ha. induction 1 as [a b Hd|a b c Hd _ IH].
  - destruct (arch_declares _ _ _ Ha Hd) as (allowed & H1 & H2). by eapply allowed_goes_down.
  - destruct (arch_declares _ _ _ Ha Hd) as (allowed & H1 & H2). pose proof (allowed_goes_down _ _ _ H1 H2). lia.
Qed.
Lemma cargo_Ok args envs tr : exec (cargo args envs) tr (Ok tt) ->
  tr = [Ev (CargoRun (map lit args) (map (fun e : string * string => (lit e.1, lit e.2)) envs)) (Ok tt)].
Proof. by intros ->%exec_call. Qed.
Lemma try_Ok {C : Type -> Type} {A B E} (m : prog_of C (Result A E)) (f : A -> prog_of C (Result B E)) tr b :
  exec (try_bind m f) tr (Ok b) -> exists t1 t2 a, tr = t1 ++ t2 /\ exec m t1 (Ok a) /\ exec (f a) t2 (Ok b).
Proof. by intros [(? & _ & [=])|H]%exec_try. Qed.
Lemma pure_Ok {C : Type -> Type} {A B E} (r : Result A E) (f : A -> prog_of C (Result B E)) tr b :
  exec (try_bind (Ret r) f) tr (Ok b) -> exists a, r = Ok a /\ exec (f a) tr (Ok b).
Proof. intros (t1 & t2 & a & -> & [-> <-] & H)%try_Ok. by exists a. Qed.

(** A command that ran, and succeeded. *)
Definition ran (args : list string) (envs : list (string * string)) : event_of ToolCall :=
  Ev (CargoRun (map lit args) (map (fun e : string * string => (lit e.1, lit e.2)) envs)) (Ok tt).
(** The gate of every commit. [ci] passes only when every command succeeded, in order
    (formatting, lints, tests, the FIPS build unless it is skipped, documentation), and
    every check of this program holds: no source file is over the limit without its mark,
    every skill is short and has its frontmatter, no library line spawns bare; and the
    dependencies the manifests declare with [workspace] go down the layers, so that no
    crate depends on itself through any of them. *)
Theorem ci_passes_when_every_gate_does ws tr :
  exec (run_ci ws) tr (Ok tt) ->
  (exists fips, tr = [ran ["fmt"; "--all"; "--"; "--check"]%string [];
            ran ["clippy"; "--workspace"; "--all-targets"; "--"; "-D"; "warnings"]%string [];
            ran ["test"; "--workspace"; "--lib"; "--bins"; "--tests"; "--"; "--test-threads=1"]%string []]
         ++ fips ++ [ran ["doc"; "--workspace"; "--no-deps"; "--document-private-items"]%string [("RUSTDOCFLAGS", "-D warnings")]%string;
                     ran ["test"; "--workspace"; "--doc"]%string []]
       /\ exec check_fips fips (Ok tt))
  /\ (forall a b, tc (declares ws) a b -> a <> b /\ layer b < layer a)
  /\ (forall path content, (path, Some content) ∈ source_files ws ->
        length (str_lines content) <= 400 \/ contains (lit "// JUSTIFY(file-length)") content = true)
  /\ (forall path content line, (path, Some content) ∈ collect_rs_files (crates_dir ws) (crates_entries ws) ->
        spawns_checked path = true -> line ∈ str_lines content -> bare_spawn line = false).
Proof.
  intros (t1 & r1 & [] & -> & ->%cargo_Ok & (t2 & r2 & [] & -> & ->%cargo_Ok & ([] & Ha & (t3 & r3 & [] & -> & ->%cargo_Ok
    & (t4 & r4 & [] & -> & Hf & (t5 & r5 & [] & -> & Hd & ([] & Hb & ([] & Hs & ([] & Hsp & [-> _])%pure_Ok)%pure_Ok)%pure_Ok)%try_Ok)
    %try_Ok)%try_Ok)%pure_Ok)%try_Ok)%try_Ok.
  revert Hd. intros (t6 & t7 & [] & -> & ->%cargo_Ok & ->%cargo_Ok)%try_Ok. split_and!.
  - exists t4. split; [|done]. by rewrite app_nil_r.
  - intros a b Hab%(graph_goes_down ws); [|done]. split; [|done]. intros ->. lia.
  - intros path content Hin. pose proof (gated budget_check _ _ Hb _ Hin) as H. unfold budget_check, read in H. cbn [ok_or rbind snd] in H.
    destruct (contains _ content); [by right|]. left. destruct (Nat.ltb_spec HARD_LIMIT (length (str_lines content))); [done|].
    unfold HARD_LIMIT in *. lia.
  - intros path content line Hin Hp Hl. pose proof (gated (spawn_check ws) _ _ Hsp _ Hin) as H. unfold spawn_check in H.
    cbn [fst] in H. rewrite Hp in H. cbn [negb read ok_or rbind snd] in H. unfold read in H. cbn [ok_or rbind snd fst] in H.
    injection H as H. apply list_elem_of_lookup_1 in Hl as [i Hi].
    assert (Hin' : (i, line) ∈ imap pair (str_lines content)).
    { apply (list_elem_of_lookup_2 _ i). by rewrite list_lookup_imap, Hi. }
    apply (omap_nil _ _ _ H) in Hin'. cbn in Hin'. by destruct (bare_spawn line).
Qed.

(** ** Manifests *)
Definition quoted (s : string) : str := (fun c => if Ascii.eqb c "'" then "034"%char else c) <$> lit s.
Definition manifest (name : string) (deps : list string) : str :=
  join [newline] ([lit "[package]"; quoted name; lit "version.workspace = true"; []; lit "[dependencies]"] ++ (quoted <$> deps)).
Definition sink_manifest : str := manifest "name = 'osproxy-sink'" ["osproxy-core.workspace = true"; "osproxy-spi = { workspace = true }"].
Definition upward_manifest : str := manifest "name = 'osproxy-core'" ["osproxy-sink.workspace = true"].
Definition path_manifest : str := manifest "name = 'osproxy-core'" ["osproxy-sink = { path = '../osproxy-sink' }"].
Definition workspace (manifests : list str) : Workspace :=
  MkWorkspace (lit "/w") (map (fun m => Dir (lit "c") [File (lit "Cargo.toml") (Some m)]) manifests) [] [].
Example manifests_are_read :
  package_name sink_manifest = Some (lit "osproxy-sink")
  /\ internal_deps sink_manifest = [lit "osproxy-core"; lit "osproxy-spi"]
  /\ arch (workspace [sink_manifest]) = Ok tt
  /\ is_ok (arch (workspace [sink_manifest; upward_manifest])) = false.
Proof. split_and!; vm_compute; reflexivity. Qed.
(** A dependency by path is not seen, as the one of [osproxy-kafka-rdkafka] is written: an
    edge from the core to the sink passes. *)
Example path_dependencies_are_not_seen :
  internal_deps path_manifest = [] /\ arch (workspace [sink_manifest; path_manifest]) = Ok tt.
Proof. split; vm_compute; reflexivity. Qed.
